(* ===== verification/_CoqProject ===== *)
-Q . S2P
Prelude.v
GoStrings.v
ApiErrors.v
Interleave.v
SystemTask.v
TaskLeases.v
UserSession.v
SessionFence.v
SessionTokens.v
RouteHealth.v
RouteLease.v
QuotaMath.v
RouteSelect.v
ChannelKeys.v
RetryPlan.v
RelayLoop.v
RelaySafety.v
CompactRetry.v
ToolPrices.v
ModelPrices.v
StatusCodes.v
RateLimit.v
SecondFactor.v
SecondFactorSafety.v
Store.v
QuotaLocks.v
QuotaBatch.v
QuotaReserve.v
Affiliate.v
TopUp.v
Calendar.v
Subscription.v
SubscriptionOrders.v
BillingRecovery.v
BillingLedger.v
Credits.v
SubscriptionLife.v
SubscriptionGroups.v
AffiliateBooks.v
CodeEdits.v
BillingMachine.v
RequestProgress.v
BillingSession.v
PriceHelper.v
TextQuota.v
SessionExact.v
TextCharge.v
RecoveryWorker.v
