(* ===== verification/Prelude.v ===== *)
(** * Ren2Hub: verification of the billing, payment, session, task and routing core

    Ren2Hub is an AI gateway written in Go: a request is authenticated, limited,
    routed to an upstream channel, charged in quota and relayed.  This library
    models the parts in which several requests, goroutines and nodes share state
    and an error costs money, access or availability, and proves what they
    promise.

    ** The program and this library

    - Prices become quota.  [common/quota_math.go] saturates floating-point and
      decimal prices into the 32-bit quota columns: QuotaMath.v.  ToolPrices.v
      has the price rules of tools ([setting/operation_setting/tools.go]),
      ModelPrices.v the lookups of prices and ratios of models
      ([setting/ratio_setting], [setting/billing_setting],
      [setting/pricing_setting]), PriceHelper.v the price and the reservation of
      a request ([relay/helper/price.go], [types/price_data.go]), TextQuota.v
      the quota of the tokens and tools a text request has used and its charge
      ([service/text_quota.go], [service/billing_usage.go],
      [service/tiered_settle.go], [pkg/billingexpr/settle.go]).  TextCharge.v
      proves what is charged.
    - Balances.  Users, tokens and channels have quota columns in SQL and copies
      in Redis; a batch updater collects deltas in memory.  Store.v holds the
      tables, Redis, the queue and the faults; QuotaLocks.v the striped locks of
      [model/utils.go]; QuotaBatch.v the queue, its flush and the column updates
      of [model/user.go], [model/token.go] and [model/channel.go];
      QuotaReserve.v the reservations of [model/quota_reserve.go] with their Lua
      scripts, fences and cache hydration ([model/user_cache.go],
      [model/user_auth_cache.go], [model/token_cache.go]).
    - Money that comes in.  TopUp.v models the completion of orders by every
      provider and by hand, redemption codes, check-ins and activity claims
      ([model/topup.go], [model/redemption.go], [model/checkin.go],
      [model/activity_claim.go]); Affiliate.v the codes, rewards, freezing and
      transfers of [model/affiliate.go].  Credits.v accounts for every quota
      that enters a wallet, AffiliateBooks.v for the affiliate columns, and
      CodeEdits.v for redemptions racing with edits ([controller/redemption.go]).
    - Subscriptions.  Calendar.v has the reset times and Subscription.v the
      pre-consume, refund, delta and reset operations of
      [model/subscription.go]; SubscriptionOrders.v has its orders, purchases,
      group upgrades, cancellations and expiry, with the refresh of the cached
      group ([model/user_cache.go]).  Theorems about sequences of these are in
      SubscriptionLife.v, about groups in SubscriptionGroups.v.
    - Durable billing.  Every charged request has a row in billing_recoveries
      that says what it holds and whether it must be settled or refunded;
      components are adjusted exactly once with marker rows.
      BillingRecovery.v models all of [model/billing_recovery.go].
      BillingLedger.v states what a request holds and that every operation
      conserves quota; BillingMachine.v has the abstract machine of one request
      and proves that the operations refine it; RequestProgress.v follows one
      row through operations on other rows.
    - Charging a request, and recovery.  BillingSession.v models
      [service/billing_session.go], [service/funding_source.go],
      [service/billing.go] and [service/quota.go]; SessionExact.v proves what a
      whole request pays.  RecoveryWorker.v models [service/billing_recovery.go]
      and the task handler that runs it.
    - System tasks.  SystemTask.v models the tasks and leases of
      [model/system_task.go] and the scheduler, claim pass and heartbeat of
      [service/system_task.go]; TaskLeases.v proves their exclusion.
    - Access.  UserSession.v models the login sessions and their cached
      snapshots ([model/user_session.go]); SessionFence.v proves that a revoked
      session dies, SessionTokens.v that a refresh token rotates once and that
      mass revocation ends.  SecondFactor.v models authentication flows, TOTP
      factors, backup codes, the login with them and the binding of Telegram
      accounts ([model/auth_flow.go], [model/twofa.go], [common/totp.go],
      [controller/twofa.go], [controller/telegram.go]); SecondFactorSafety.v what a token and a code are good for.  RateLimit.v
      has the limiters of routes, e-mails and model requests
      ([common/rate-limit.go], [middleware/rate-limit.go],
      [middleware/model-rate-limit.go],
      [middleware/email-verification-rate-limit.go], [common/limiter]).
    - Routing.  RouteSelect.v models the choice and order of candidates
      ([service/route_selector.go], [route_score.go], [route_decision.go]);
      RouteHealth.v the circuit breaker of a route ([service/route_health.go]);
      RouteLease.v the admission leases in Redis ([service/route_lease.go]);
      ChannelKeys.v the keys of a channel, their statuses and the memory cache
      ([model/channel.go], [model/channel_cache.go], [model/ability.go]);
      RetryPlan.v the attempts a selection leaves, budgets and backoff
      ([service/route_live.go], [route_attempt_keys.go]).
    - Relaying.  RelayLoop.v models the handler [Relay] of
      [controller/relay.go] with its rounds, leases, bills and deferred
      functions, and the choice of a key in [middleware/distributor.go];
      RelaySafety.v proves what a relayed request does.  CompactRetry.v has the
      two stages of compaction requests.  ApiErrors.v has the errors of
      [relaykit/types] that the relay and billing build, StatusCodes.v the rules
      over HTTP status codes ([setting/operation_setting]), GoStrings.v the
      string functions and the normal form of a model name
      ([pkg/modellab/resolver.go]).
    - Interleave.v is the logic for code that many processes run at once: a
      program is a tree of clock readings and atomic statements, run against any
      number of others, any clock (data may age with it, the class [Ticks]) and
      any failing statement.  [safe] is the rule for invariants, [pays] for
      permissions that are never duplicated, [triple] for assertions that
      survive the other processes, and [earns] for permissions of a process that
      relies on what it has read; each has its soundness theorem.
    - Prelude.v (this file) has machine integers, Go errors, the
      state-and-error monad with its triples and invariants, record update,
      and lemmas on finite maps.

    A Go function is a definition of the same name.  A struct is a record whose
    fields keep their names behind a prefix, an enumeration an inductive type;
    [func f(..) (A, error)] is [M S A], a function from a state to a result and
    a state, in which the effects before an error stay; a function that runs
    against other nodes is a [prog].  Several definitions may share one long Go
    function: the pieces are named after what they do.  The relay loop is a
    state-and-error program too; what the rest of the system answers in a round
    (whether a channel is there, a lease is granted, a bill opens, what the
    upstream returns) is one [turn] of its environment, and the theorems are
    about all sequences of turns.

    ** What the theorems show

    - Money.  A settled request pays exactly its actual quota
      (request_pays_actual_quota); a refund restores what was reserved to
      the user and the token, wholly or not at all
      (refund_restores_reservation); every billing operation keeps balances
      plus held quota constant (billing_conserves_quota); when a row is closed
      each component was moved exactly once (closed_request_exact); operations
      refine the abstract machine (billing_operation_refines) whose status only
      moves forward (billing_status_moves); a request whose process died is
      closed by the worker (interrupted_request_is_closed) and one that is
      still running is left alone (live_request_is_not_recovered).
    - Prices.  A text request pays the quota computed from its usage
      (text_request_pays_price), tiered or not; without tiers it is the sum of the
      tokens of each kind at the price of their kind (tokens_billed_by_kind), in
      range (text_quota_in_range) and whatever the order of its tools
      (surcharge_order_free).  What is reserved
      is in range (reservation_in_range); the models that count as configured
      are those that can be priced (configured_models_are_priced); of the rules
      for a tool the longest matching one counts (longest_prefix_prices).
    - Reservations.  Interleaved reservations never overdraw an account, but for
      what failing calls took from the database behind the back of the cache
      (reservations_never_overdraw); each moves exactly what it says
      (TryReserveUserQuota_exact, TryReserveTokenQuota_exact), a flush of the
      queue applies every delta once (batchUpdate_flushes_once) and the lock
      order is free of deadlock (quota_locks_deadlock_free).
    - Payments.  What enters wallets is accounted for by orders, codes and
      claims that pay once each (wallets_account_for_credits,
      order_completion_pays, code_pays_once_per_edit), and the affiliate columns
      agree with the ledger (affiliate_books_balance).
    - Subscriptions.  Pre-consume is idempotent, its refund takes the amount off once, usage
      stays within the plan, and due resets happen at the right instants.  An
      order grants one subscription (order_grants_one_subscription), limits of
      plans are kept (purchase_limit_kept), a purchase costs exactly its price
      (balance_purchase_exact).  A raised group falls back at expiry
      (upgrade_undone), but not after a renewal (renewed_upgrade_stays).
    - Tasks.  One active task per type, one runner per lease, and a crashed
      runner is replaced.
    - Sessions.  A revoked session is not served once its cache window has
      passed and never again after a deny entry (revoked_session_dies_with_window,
      sealed_session_never_served); a refresh hash rotates once
      (refresh_hash_rotates_once); mass revocation completes.
    - Flows and factors.  A flow logs in once (auth_flow_used_once), a backup
      code is good for one use (backup_code_used_once), wrong codes lock the
      factor (wrong_codes_lock_out).
    - Limits.  The in-memory limiter is a sliding window
      (memory_limiter_is_sliding_window), the fixed windows in Redis allow twice
      the limit (fixed_window_burst), the bucket keeps its rate
      (token_bucket_rate), a user keeps to both model limits
      (user_keeps_model_limits), and waiting out the hint of a refusal is enough
      (retry_after_is_enough).
    - Routing.  Selection returns only eligible candidates in the order the
      source prescribes; pools stay within their capacity and get released
      places back; a recovering route admits one probe per reported failure and
      not before its cool-down is over; keys are polled in turns; plans are well
      formed (manual_plan_wf, next_candidate_spec).
    - Relaying.  A relayed request that is no compaction ends
      (relay_terminates), never calls with a key twice, not after a committed
      response, releases each lease once and refunds exactly when it fails with
      an open bill; both stages of a compaction stay within one budget
      (compact_attempts_bounded).
    - Status code rules match what was written and survive printing and
      parsing; conversions stay in range and agree with rounding or truncation
      of the exact value.
    - The remaining theorems exhibit behaviour that contradicts a comment or
      the purpose of the code: a refund that is skipped or lost, a delta
      reported twice, a reset loop that does not end, a task type or a route
      that is blocked for ever, a task with a good lease that a late clean-up
      fails, a refund that takes away the usage of other requests after a reset,
      an overdraft after one failing Redis call, a pool over its capacity for one renewal, a
      failed pass recorded as a success, a code that pays twice, a key that is
      never changed, a limit that counts failures or is forgotten, ratios that
      are never used, a tool price that depends on the order of a map, a charge
      for a response without usage.

    ** Bounds and fuel

    - [int] and [int64] are 64 bits wide ([i64]); quota columns are not wrapped
      because the conversions keep them in 32 bits; the affiliate columns are
      checked against their 32 bits where the code does; sums the SQL server
      computes are exact.
    - The reset loop of subscriptions is run with doubling fuel
      ([reset_fuel] = 63 doublings): it covers every loop whose instants advance,
      since they are 64-bit, and maybeReset_resets_when_due shows that it ends.
    - A refund is retried as in the code, three attempts; a rotation three, a
      count of failures five: the bounds of the code.
    - The loops over batches of sessions get a number of rounds;
      mass_revocation_completes shows that more rounds than active sessions are
      enough.
    - The relay loop gets a number of rounds; relay_terminates shows that one
      more than the attempts of the selection is enough.  The searches for a
      channel and for a key inside a round have the code's bounds.
    - [normalize] gets the length of the name as fuel and normalize_fixed shows
      it is enough; [usable_attempts] has the code's bound of two rounds.

    ** Reading the models

    - Soft-deleted rows are absent, except where a query looks at them
      (redemption codes, backup codes); [RowsAffected] counts matched rows; the
      database clock is [w_now].  A transaction, a Redis script and (in a
      [prog]) a statement is atomic; a driver fault means it was not executed,
      and where replies can be lost the statement and its reply are two steps.
      The timestamps gorm itself writes are those the code passes.
    - Ids count up and random session ids are not issued twice.
    - The methods of a billing session run one at a time under its mutex.  The
      lock order is the subject of QuotaLocks.v; hydration of a cache racing
      with a mutation of the same account is not covered.
    - Go map iteration, where a result could depend on it, follows the key
      order; for prices, tools and extra ratios it is any order, that of a list.
      The process has a fixed offset from UTC.
    - Code outside the repository is a parameter with its documented laws: the
      decimal package, plan caches, formatting of quota, fresh request ids, the
      token quota of the HTTP context ([surroundings]), JSON values (as the
      outcome of marshalling), Unicode tables, NFKC and SHA-256 ([GoText]),
      digests of tokens and backup codes, TOTP, the expression language of
      tiered prices ([run_expr], [used_vars]).  The catalogue of automatic
      prices ([pkg/autopricing]) is a parameter too.
    - Redis: HMAC collisions and the expiry of quota caches are not modelled;
      for route leases, sessions and rate limits keys expire as Redis documents,
      a key lives until the clock is past its deadline.
    - Log lines, notifications and counters of metrics are left out, and so are
      the texts of relay errors.

    ** Not modelled

    - Provider adaptors and format converters ([relay], [relaykit]) and
      parameter override ([relay/common/override.go]): translations of JSON
      bodies, independent of the state modelled here.
    - Parsing of price tables from JSON, the price tables built into
      [setting/ratio_setting], the fetching and matching of automatic prices
      ([pkg/autopricing]), the compilation of billing expressions
      ([pkg/billingexpr]); the charges of audio, realtime and task requests.
    - Capability snapshots and candidate filters of live routing
      ([model/routing_snapshot.go], [service/route_capability.go]): the
      candidates enter route selection as data.  Realtime, task and Midjourney
      relays share the loop's functions but have handlers of their own.
    - Creating, editing, searching and testing channels, users, tokens, options
      and logs: single statements on single rows behind HTTP handlers.
    - The creation of payment orders at payment providers.
    - Passwords, OAuth providers, passkeys, JWTs and permissions: calls of
      external protocols around the sessions and flows modelled here.
    - The front end. *)

From stdpp Require Export base tactics option list gmap fin_maps strings pretty.
From Stdlib Require Export ZArith Lia.
From Stdlib Require Import Ascii Sorted.
#[global] Open Scope Z_scope.

(** ** Machine integers

    Go's [int] and [int64] are 64-bit two's complement on every platform the
    gateway is built for.  Arithmetic that the Go code performs is written
    with [i64] around it; arithmetic performed by the SQL server
    ([quota + ?]) is not. *)

Definition min_i64 : Z := -9223372036854775808.
Definition max_i64 : Z := 9223372036854775807.
Definition i64 (z : Z) : Z := (z + 9223372036854775808) mod 18446744073709551616 - 9223372036854775808.
Definition in_i64 (z : Z) : Prop := min_i64 <= z <= max_i64.

Lemma i64_id z : in_i64 z → i64 z = z.
Proof.
  unfold in_i64, i64, min_i64, max_i64. intros H.
  rewrite Z.mod_small; lia.
Qed.

Lemma i64_range z : in_i64 (i64 z).
Proof.
  unfold in_i64, i64, min_i64, max_i64.
  pose proof (Z.mod_pos_bound (z + 9223372036854775808) 18446744073709551616). lia.
Qed.

(** ** Go errors

    [ErrNew] is [errors.New], [ErrWrap] is [fmt.Errorf] with a [%w] verb,
    [ErrJoin] is [errors.Join], [ErrAPI] is a [NewAPIError] of
    src/relaykit/types/error.go around its [Err]; the other constructors are
    the sentinel values the billing code compares with [errors.Is]. *)

Inductive error :=
  | ErrNew (msg : string)
  | ErrDriver (msg : string)
  | ErrRecordNotFound
  | ErrBillingRecoveryStateConflict
  | ErrBillingRecoveryTokenQuota
  | ErrBillingRecoveryFundingQuota
  | ErrInsufficientWalletQuota
  | ErrUserAuthCachePending
  | ErrWrap (ctx : string) (e : error)
  | ErrJoin (e1 e2 : error)
  | ErrAPI (code : string) (status : Z) (skipRetry : bool) (recordErrorLog : option bool) (e : error).

#[global] Instance error_eq_dec : EqDecision error.
Proof. solve_decision. Defined.

(** The text [err.Error()] produces. *)
Fixpoint error_string (e : error) : string :=
  match e with
  | ErrNew m => m
  | ErrDriver m => m
  | ErrRecordNotFound => "record not found"
  | ErrBillingRecoveryStateConflict => "billing recovery state conflict"
  | ErrBillingRecoveryTokenQuota => "billing recovery token quota insufficient"
  | ErrBillingRecoveryFundingQuota => "billing recovery funding quota insufficient"
  | ErrInsufficientWalletQuota => "wallet quota insufficient"
  | ErrUserAuthCachePending => "user authentication state update is pending"
  | ErrWrap c e => c +:+ ": " +:+ error_string e
  | ErrJoin e1 e2 => error_string e1 +:+ String (ascii_of_nat 10) (error_string e2)
  | ErrAPI _ _ _ _ e => error_string e
  end.

(** [errors.Is err target] for a sentinel [target]. *)
Fixpoint error_is (e target : error) : bool :=
  bool_decide (e = target) ||
  match e with
  | ErrWrap _ e' | ErrAPI _ _ _ _ e' => error_is e' target
  | ErrJoin e1 e2 => error_is e1 target || error_is e2 target
  | _ => false
  end.

(** ** Results and the state-and-error monad

    A Go function [func f(..) (A, error)] that acts on a state [S] is a
    function [S → res A * S]: effects performed before an error stay. *)

Inductive res (A : Type) :=
  | Ok (a : A)
  | Err (e : error).
Arguments Ok {A} a.
Arguments Err {A} e.

#[global] Instance res_eq_dec `{EqDecision A} : EqDecision (res A).
Proof. solve_decision. Defined.

Definition is_ok {A} (r : res A) : bool := match r with Ok _ => true | Err _ => false end.

Definition M (S A : Type) : Type := S → res A * S.

#[global] Instance M_ret {S} : MRet (M S) := λ A a s, (Ok a, s).
#[global] Instance M_bind {S} : MBind (M S) := λ A B k m s,
  match m s with
  | (Ok a, s') => k a s'
  | (Err e, s') => (Err e, s')
  end.

Definition fail {S A} (e : error) : M S A := λ s, (Err e, s).
Definition get {S} : M S S := λ s, (Ok s, s).
Definition put {S} (s' : S) : M S unit := λ _, (Ok tt, s').
Definition modify {S} (f : S → S) : M S unit := λ s, (Ok tt, f s).
Definition gets {S A} (f : S → A) : M S A := λ s, (Ok (f s), s).
(** [try m]: the error becomes a value the caller inspects ([if err != nil]). *)
Definition try {S A} (m : M S A) : M S (res A) := λ s, let '(r, s') := m s in (Ok r, s').
Definition lift_res {S A} (r : res A) : M S A := λ s, (r, s).

Definition run {S A} (m : M S A) (s : S) : res A * S := m s.
Definition exec {S A} (m : M S A) (s : S) : S := (m s).2.
Definition result {S A} (m : M S A) (s : S) : res A := (m s).1.

Section monad_laws.
Context {S A B : Type}.
Implicit Types (m : M S A) (k : A → M S B) (s : S).

Lemma bind_ok m k s a s' : m s = (Ok a, s') → (m ≫= k) s = k a s'.
Proof. intros H. unfold mbind, M_bind. by rewrite H. Qed.

Lemma bind_err m k s e s' : m s = (Err e, s') → (m ≫= k) s = (Err e, s').
Proof. intros H. unfold mbind, M_bind. by rewrite H. Qed.

Lemma bind_inv m k s b s' :
  (m ≫= k) s = (Ok b, s') → ∃ a s1, m s = (Ok a, s1) ∧ k a s1 = (Ok b, s').
Proof. unfold mbind, M_bind. destruct (m s) as [[a|e] s1]; naive_solver. Qed.

(** A relation between pre- and post-state that every step preserves is
    preserved by their composition. *)
Lemma bind_preserves (R : S → S → Prop) m k :
  (∀ s1 s2 s3, R s1 s2 → R s2 s3 → R s1 s3) →
  (∀ s, R s (exec m s)) → (∀ a s, R s (exec (k a) s)) →
  ∀ s, R s (exec (m ≫= k) s).
Proof.
  intros Htr Hm Hk s. unfold exec, mbind, M_bind.
  specialize (Hm s). unfold exec in Hm. destruct (m s) as [[a|e] s1]; [|done].
  simpl in *. eapply Htr; [exact Hm|apply Hk].
Qed.
End monad_laws.

(** ** Functional record update: [r <| f := v |>] *)

Class Eta (R : Type) := eta : R → R.
Class Upd {R T : Type} (p : R → T) := upd : (T → T) → R → R.
Arguments upd {R T} p {_} _ _.

Ltac solve_upd :=
  lazymatch goal with
  | |- @Upd ?R ?T ?p =>
      let i := constr:(_ : Eta R) in
      let e := eval hnf in i in
      lazymatch eval pattern p in e with
      | ?g _ => exact (λ f : T → T, g (λ r, f (p r)))
      end
  end.
#[global] Hint Extern 1 (Upd _) => solve_upd : typeclass_instances.

Declare Scope upd_scope.
Delimit Scope upd_scope with upd.
Notation "r <| p := v |>" := (upd p (λ _, v) r)
  (at level 12, left associativity, p at level 10, format "r  <|  p  :=  v  |>") : upd_scope.
Notation "r <| p ::= f |>" := (upd p f r)
  (at level 12, left associativity, p at level 10, format "r  <|  p  ::=  f  |>") : upd_scope.
#[global] Open Scope upd_scope.

(** ** Automation for monadic programs *)

(** What the quota updates do to balances. *)
Create HintDb quota.

(** Compute record updates. *)
Ltac rsimpl := unfold upd in *; cbn in *.
(** Unfold the monad and compute. *)
Ltac unfold_m := unfold mbind, M_bind, mret, M_ret, fail, get, put, modify, gets, try, lift_res in *.
Ltac msimpl := repeat (progress (unfold_m; cbn in * )).

(** ** Triples

    [Triple P m Q]: from a state with [P], the result and final state of [m]
    satisfy [Q]. *)

Definition Triple {S A} (P : S → Prop) (m : M S A) (Q : res A → S → Prop) : Prop :=
  ∀ s, P s → Q (m s).1 (m s).2.

Section triple.
Context {S : Type}.
Implicit Types P : S → Prop.

Lemma triple_bind {A B} P (m : M S A) R (k : A → M S B) Q :
  Triple P m R → (∀ a, Triple (R (Ok a)) (k a) Q) → (∀ e s, R (Err e) s → Q (Err e) s) → Triple P (m ≫= k) Q.
Proof.
  intros Hm Hk He s Hs. unfold mbind, M_bind. specialize (Hm s Hs).
  destruct (m s) as [[a|e] s1]; cbn in *; [by apply Hk|by apply He].
Qed.

Lemma triple_bind_try {A B} P (m : M S A) R (k : res A → M S B) Q :
  Triple P m R → (∀ r, Triple (R r) (k r) Q) → Triple P (try m ≫= k) Q.
Proof.
  intros Hm Hk s Hs. unfold try, mbind, M_bind. specialize (Hm s Hs). destruct (m s) as [r s1]. by apply Hk.
Qed.

Lemma triple_gets {A B} P (f : S → A) (k : A → M S B) Q :
  (∀ s, P s → Triple P (k (f s)) Q) → Triple P (gets f ≫= k) Q.
Proof. intros H s Hs. by apply H. Qed.

Lemma triple_ret {A} P (a : A) (Q : res A → S → Prop) : (∀ s, P s → Q (Ok a) s) → Triple P (mret a) Q.
Proof. intros H s Hs. by apply H. Qed.

Lemma triple_fail {A} P e (Q : res A → S → Prop) : (∀ s, P s → Q (Err e) s) → Triple P (fail e) Q.
Proof. intros H s Hs. by apply H. Qed.

Lemma triple_weaken {A} P P' (m : M S A) Q : (∀ s, P' s → P s) → Triple P m Q → Triple P' m Q.
Proof. intros HP Hm s Hs. by apply Hm, HP. Qed.

Lemma triple_pure {A} P (φ : Prop) (m : M S A) Q : (φ → Triple P m Q) → Triple (λ s, P s ∧ φ) m Q.
Proof. intros Hm s [Hs H]. by apply Hm. Qed.
End triple.

(** ** Invariants of monadic programs

    [Inv P m Q]: the program [m] keeps the state property [P], and a
    successful result satisfies [Q]. *)

Definition Inv {S A} (P : S → Prop) (m : M S A) (Q : A → Prop) : Prop :=
  ∀ s, P s → P (m s).2 ∧ ∀ a, (m s).1 = Ok a → Q a.

Section inv.
Context {S : Type} (P : S → Prop).

Lemma inv_ret {A} (a : A) (Q : A → Prop) : Q a → Inv P (mret a) Q.
Proof. intros Ha s Hs. split; [done|]. by intros ? [= <-]. Qed.
Lemma inv_fail {A} e (Q : A → Prop) : Inv P (fail e) Q.
Proof. intros s Hs. by split. Qed.
Lemma inv_bind {A B} (m : M S A) (k : A → M S B) Q R :
  Inv P m Q → (∀ a, Q a → Inv P (k a) R) → Inv P (m ≫= k) R.
Proof.
  intros Hm Hk s Hs. unfold mbind, M_bind. destruct (Hm s Hs) as [Hs' Hq].
  destruct (m s) as [[a|e] s']; cbn in *; [|by split]. apply (Hk a); auto.
Qed.
Lemma inv_try {A} (m : M S A) Q :
  Inv P m Q → Inv P (try m) (λ r, match r with Ok a => Q a | Err _ => True end).
Proof.
  intros Hm s Hs. unfold try. destruct (Hm s Hs) as [Hs' Hq]. destruct (m s) as [r s']; cbn in *.
  split; [done|]. intros ? [= <-]. destruct r; auto.
Qed.
Lemma inv_gets {A} (f : S → A) (Q : A → Prop) : (∀ s, P s → Q (f s)) → Inv P (gets f) Q.
Proof. intros Hf s Hs. split; [done|]. intros ? [= <-]. auto. Qed.
Lemma inv_weaken {A} (m : M S A) (Q Q' : A → Prop) : (∀ a, Q a → Q' a) → Inv P m Q → Inv P m Q'.
Proof. intros HQ Hm s Hs. destruct (Hm s Hs). split; eauto. Qed.
Lemma inv_true {A} (m : M S A) Q : Inv P m Q → Inv P m (λ _, True).
Proof. by apply inv_weaken. Qed.
End inv.
Create HintDb inv.
#[export] Hint Resolve inv_fail : inv.

(** ** Finite maps *)

#[global] Arguments lookup : simpl never.
#[global] Arguments insert : simpl never.
#[global] Arguments alter : simpl never.
#[global] Arguments delete : simpl never.
#[global] Arguments union : simpl never.
#[global] Arguments empty : simpl never.
#[global] Arguments Z.add : simpl never.
#[global] Arguments Z.sub : simpl never.
#[global] Arguments Z.mul : simpl never.
#[global] Arguments i64 : simpl never.

Lemma alter_not_in `{Countable K} {A} (f : A → A) (k : K) (m : gmap K A) :
  m !! k = None → alter f k m = m.
Proof.
  intros Hk. apply map_eq. intros i. rewrite lookup_alter. case_decide; [subst|done].
  by rewrite Hk.
Qed.

Lemma alter_Some `{Countable K} {A} (f : A → A) (k : K) (m : gmap K A) a :
  m !! k = Some a → alter f k m = <[k := f a]> m.
Proof.
  intros Hk. apply map_eq. intros i. rewrite lookup_alter, lookup_insert.
  case_decide; [subst|done]. by rewrite Hk.
Qed.

(** Altering each key of a duplicate-free list once. *)
Definition alter_all `{Countable K} {A} (g : K → A → A) (l : list K) (m : gmap K A) : gmap K A :=
  foldl (λ m k, alter (g k) k m) m l.

Lemma lookup_alter_all `{Countable K} {A} (g : K → A → A) (l : list K) (m : gmap K A) i :
  NoDup l → alter_all g l m !! i = if decide (i ∈ l) then g i <$> m !! i else m !! i.
Proof.
  unfold alter_all. revert m. induction l as [|k l IH]; intros m Hnd; cbn [foldl].
  { by destruct (decide (i ∈ [])) as [?%not_elem_of_nil|]. }
  apply NoDup_cons in Hnd as [Hk Hnd]. rewrite IH by done. rewrite lookup_alter.
  destruct (decide (k = i)) as [->|Hne], (decide (i ∈ l)), (decide (i ∈ _ :: l)) as [Hil|Hil];
    try done; rewrite elem_of_cons in Hil; naive_solver.
Qed.

(** ** Sums over finite maps *)

Definition map_sum `{Countable K} {A} (f : K → A → Z) (m : gmap K A) : Z :=
  map_fold (λ k a acc, f k a + acc) 0 m.

Section map_sum.
Context `{Countable K} {A : Type}.
Implicit Types (f g : K → A → Z) (m : gmap K A).

Lemma map_sum_empty f : map_sum f (∅ : gmap K A) = 0.
Proof. apply map_fold_empty. Qed.

Lemma map_sum_insert_new f m k a : m !! k = None → map_sum f (<[k := a]> m) = f k a + map_sum f m.
Proof. intros Hk. unfold map_sum. rewrite map_fold_insert_L; [done| |done]. intros; lia. Qed.

Lemma map_sum_delete f m k a : m !! k = Some a → map_sum f m = f k a + map_sum f (delete k m).
Proof. intros Hk. unfold map_sum. rewrite (map_fold_delete_L _ _ k a m); [done| |done]. intros; lia. Qed.

Lemma map_sum_ext f g m : (∀ k a, m !! k = Some a → f k a = g k a) → map_sum f m = map_sum g m.
Proof.
  induction m as [|k a m Hk IH] using map_ind; intros Hfg; [by rewrite !map_sum_empty|].
  rewrite !map_sum_insert_new by done. rewrite (Hfg k a) by apply lookup_insert_eq. f_equal. apply IH.
  intros k' a' Hk'. apply Hfg. rewrite lookup_insert_ne by congruence. done.
Qed.

(** Replacing one entry, when the weights of the others are kept. *)
Lemma map_sum_update f g m k a a' :
  m !! k = Some a → (∀ k' b, k' ≠ k → g k' b = f k' b) →
  map_sum g (<[k := a']> m) = map_sum f m - f k a + g k a'.
Proof.
  intros Hk Hfg. rewrite (map_sum_delete f m k a Hk), <- insert_delete_eq, map_sum_insert_new
    by apply lookup_delete_eq.
  rewrite (map_sum_ext g f (delete k m)); [lia|].
  intros k' b [Hne _]%lookup_delete_Some. auto.
Qed.

Lemma map_sum_add f g m : map_sum (λ k a, f k a + g k a) m = map_sum f m + map_sum g m.
Proof.
  induction m as [|k a m Hk IH] using map_ind; [by rewrite !map_sum_empty|].
  rewrite !map_sum_insert_new by done. lia.
Qed.

Lemma map_sum_zero m : map_sum (λ (_ : K) (_ : A), 0) m = 0.
Proof.
  induction m as [|k a m Hk IH] using map_ind; [by rewrite map_sum_empty|]. by rewrite map_sum_insert_new, IH.
Qed.

Lemma map_sum_le f g m : (∀ k a, m !! k = Some a → f k a <= g k a) → map_sum f m <= map_sum g m.
Proof.
  induction m as [|k a m Hk IH] using map_ind; intros Hfg; [by rewrite !map_sum_empty|].
  rewrite !map_sum_insert_new by done. pose proof (Hfg k a (lookup_insert_eq _ _ _)).
  assert (map_sum f m <= map_sum g m); [|lia]. apply IH. intros k' a' Hk'. apply Hfg.
  rewrite lookup_insert_ne by congruence. done.
Qed.

Lemma map_sum_nonneg f m : (∀ k a, m !! k = Some a → 0 <= f k a) → 0 <= map_sum f m.
Proof.
  induction m as [|k a m Hk IH] using map_ind; intros Hf; [by rewrite map_sum_empty|].
  rewrite map_sum_insert_new by done. pose proof (Hf k a (lookup_insert_eq _ _ _)).
  assert (0 <= map_sum f m); [|lia]. apply IH. intros k' a' Hk'. apply Hf.
  rewrite lookup_insert_ne by congruence. done.
Qed.

End map_sum.

Lemma map_sum_fmap `{Countable K} {A B} (h : B → A) (f : K → A → Z) (m : gmap K B) : map_sum f (h <$> m) = map_sum (λ k b, f k (h b)) m.
Proof.
  induction m as [|k a m Hk IH] using map_ind; [by rewrite fmap_empty, !map_sum_empty|].
  rewrite fmap_insert, !map_sum_insert_new; [by rewrite IH|done|by rewrite lookup_fmap, Hk].
Qed.

(** A prefix of a sorted list is below the rest of it. *)
Lemma strongly_sorted_app {A} (R : A → A → Prop) l k x y :
  StronglySorted R (l ++ k) → x ∈ l → y ∈ k → R x y.
Proof.
  induction l as [|a l IH]; cbn; [set_solver|]. intros [Hs Ha]%StronglySorted_inv [->|Hx]%elem_of_cons Hy; [|by apply IH].
  rewrite Forall_forall in Ha. apply Ha, elem_of_app. by right.
Qed.
