(* ===== verification/GoStrings.v ===== *)
(** * Go strings

    The functions of Go's [strings] package the components use, on the bytes
    of a string, and [normalize] of src/pkg/modellab/resolver.go.  What depends
    on Unicode tables or on code outside the repository is a parameter of the
    class [GoText]: lower-casing of a string with a byte outside ASCII, the
    NFKC normal form and a SHA-256 digest in hexadecimal. *)

From S2P Require Import Prelude.

Class GoText := MkGoText {
  lower_unicode : string → string;
  nfkc : string → string;
  sha256_hex : string → string
}.

(** ** [strings.TrimSpace]

    The UTF-8 encodings of the characters with the White_Space property. *)

Definition bytes (l : list N) : string :=
  String.string_of_list_ascii (Ascii.ascii_of_N <$> l).

Definition space_encodings : list string :=
  ((λ c, bytes [c]) <$> [9; 10; 11; 12; 13; 32])%N ++
  (bytes <$> [[194; 133]; [194; 160]; [225; 154; 128]])%N ++
  ((λ c, bytes [226; 128; c]) <$> [128; 129; 130; 131; 132; 133; 134; 135; 136; 137; 138; 168; 169; 175])%N ++
  (bytes <$> [[226; 129; 159]; [227; 128; 128]])%N.

Fixpoint strip_prefix (p s : string) : option string :=
  match p, s with
  | EmptyString, _ => Some s
  | String a p, String b s => if decide (a = b) then strip_prefix p s else None
  | _, _ => None
  end.

Fixpoint strip_any (ps : list string) (s : string) : option string :=
  match ps with
  | [] => None
  | p :: ps => match strip_prefix p s with Some s' => Some s' | None => strip_any ps s end
  end.

Fixpoint trim_left (fuel : nat) (ps : list string) (s : string) : string :=
  match fuel with
  | O => s
  | S fuel => match strip_any ps s with Some s' => trim_left fuel ps s' | None => s end
  end.

Definition string_rev (s : string) : string :=
  String.string_of_list_ascii (rev (String.list_ascii_of_string s)).

Definition TrimSpace (s : string) : string :=
  let l := trim_left (String.length s) space_encodings s in
  string_rev (trim_left (String.length l) (string_rev <$> space_encodings) (string_rev l)).

(** [strings.TrimSpace(s) == ""] *)
Definition blank (s : string) : bool := bool_decide (TrimSpace s = EmptyString).

(** [strings.Contains(s, sub)]. *)
Definition Contains (s sub : string) : bool :=
  match String.index 0 sub s with Some _ => true | None => false end.

(** [strings.Split(s, sep)] for a separator of one byte. *)
Fixpoint split_on (sep : Ascii.ascii) (s : string) : list string :=
  match s with
  | EmptyString => [EmptyString]
  | String c s =>
      if decide (c = sep) then EmptyString :: split_on sep s
      else match split_on sep s with [] => [String c EmptyString] | w :: ws => String c w :: ws end
  end.

(** ** [strings.ToLower] *)

Definition is_ascii (s : string) : bool :=
  forallb (λ c, Nat.ltb (Ascii.nat_of_ascii c) 128) (String.list_ascii_of_string s).

Definition lower_byte (c : Ascii.ascii) : Ascii.ascii :=
  let n := Ascii.nat_of_ascii c in
  if Nat.leb 65 n && Nat.leb n 90 then Ascii.ascii_of_nat (n + 32) else c.

Definition ToLower `{GoText} (s : string) : string :=
  if is_ascii s then String.string_of_list_ascii (lower_byte <$> String.list_ascii_of_string s) else lower_unicode s.

Definition upper_byte (c : Ascii.ascii) : Ascii.ascii :=
  let n := Ascii.nat_of_ascii c in
  if Nat.leb 97 n && Nat.leb n 122 then Ascii.ascii_of_nat (n - 32) else c.
(** [strings.ToUpper]; upper-casing outside ASCII is a parameter. *)
Definition ToUpper (upper_unicode : string → string) (s : string) : string :=
  if is_ascii s then String.string_of_list_ascii (upper_byte <$> String.list_ascii_of_string s) else upper_unicode s.

(** [strings.ReplaceAll] of one byte with nothing. *)
Definition remove_byte (c : Ascii.ascii) (s : string) : string :=
  String.string_of_list_ascii (filter (λ x, x ≠ c) (String.list_ascii_of_string s)).

(** [strings.HasPrefix] and [strings.HasSuffix] *)
Definition HasPrefix (s prefix : string) : bool := match strip_prefix prefix s with Some _ => true | None => false end.
Definition HasSuffix (s suffix : string) : bool := HasPrefix (string_rev s) (string_rev suffix).

(** ** [strings.TrimSuffix] and the names of models *)

Definition TrimSuffix (s suffix : string) : string :=
  match strip_prefix (string_rev suffix) (string_rev s) with
  | Some r => string_rev r
  | None => s
  end.

Definition model_suffixes : list string := ["@default"; ":free"; ":thinking"; ":low"; ":medium"; ":high"].

(** One round of the loop; every round but the last removes a suffix. *)
Definition strip_suffixes (value : string) : string := foldl TrimSuffix value model_suffixes.

Fixpoint normalize_loop (fuel : nat) (value : string) : string :=
  match fuel with
  | O => value
  | S fuel => let next := strip_suffixes value in if bool_decide (next = value) then value else normalize_loop fuel next
  end.

Definition normalize `{GoText} (value : string) : string :=
  let value := nfkc (ToLower (TrimSpace value)) in normalize_loop (S (String.length value)) value.

Definition NormalizeModel `{GoText} (value : string) : string := normalize value.

(** *** The loop ends with a value that has none of the suffixes, for the fuel
    given to it. *)

Lemma string_rev_length s : String.length (string_rev s) = String.length s.
Proof.
  unfold string_rev. transitivity (length (rev (String.list_ascii_of_string s))).
  { induction (rev (String.list_ascii_of_string s)) as [|a l IH]; cbn; congruence. }
  rewrite length_rev. induction s as [|a s IH]; cbn; congruence.
Qed.

Lemma strip_prefix_length p s r : strip_prefix p s = Some r → String.length s = (String.length p + String.length r)%nat.
Proof.
  revert s. induction p as [|a p IH]; intros [|b s] E; cbn in *; try (by simplify_eq).
  case_decide; [|done]. f_equal. by apply IH.
Qed.

Lemma string_rev_app a b : string_rev (a +:+ b) = string_rev b +:+ string_rev a.
Proof.
  unfold string_rev. assert (String.list_ascii_of_string (a +:+ b) = String.list_ascii_of_string a ++ String.list_ascii_of_string b) as ->.
  { induction a as [|c a IH]; [done|]. exact (f_equal (cons c) IH). }
  rewrite rev_app_distr. generalize (rev (String.list_ascii_of_string a)). induction (rev (String.list_ascii_of_string b)) as [|c l IH]; intros m; [done|]. exact (f_equal (String c) (IH m)).
Qed.
Lemma strip_prefix_app p s : strip_prefix p (p +:+ s) = Some s.
Proof.
  induction p as [|c p IH]; [done|]. change (String c p +:+ s) with (String c (p +:+ s)). cbn [strip_prefix]. by rewrite decide_True.
Qed.
Lemma HasSuffix_app a b : HasSuffix (a +:+ b) b = true.
Proof. unfold HasSuffix, HasPrefix. by rewrite string_rev_app, strip_prefix_app. Qed.

Lemma TrimSuffix_shorter s suffix :
  suffix ≠ EmptyString → TrimSuffix s suffix = s ∨ (String.length (TrimSuffix s suffix) < String.length s)%nat.
Proof.
  intros Hne. unfold TrimSuffix. destruct (strip_prefix _ _) as [r|] eqn:E; [right|by left].
  apply strip_prefix_length in E. rewrite !string_rev_length in E. rewrite string_rev_length.
  destruct suffix as [|a suffix]; [done|]. change (String.length (String a suffix)) with (S (String.length suffix)) in E. lia.
Qed.

Lemma strip_suffixes_shorter s : strip_suffixes s = s ∨ (String.length (strip_suffixes s) < String.length s)%nat.
Proof.
  unfold strip_suffixes.
  assert (Forall (λ x, x ≠ EmptyString) model_suffixes) as Hne by (repeat constructor; discriminate).
  revert s. induction Hne as [|x l Hx _ IH]; intros s; cbn [foldl]; [by left|].
  destruct (TrimSuffix_shorter s x Hx) as [E|Hlt]; [rewrite E; apply IH|]. right.
  destruct (IH (TrimSuffix s x)) as [->|]; lia.
Qed.

Lemma normalize_loop_fixed fuel s :
  (String.length s < fuel)%nat → strip_suffixes (normalize_loop fuel s) = normalize_loop fuel s.
Proof.
  revert s. induction fuel as [|fuel IH]; intros s Hf; [lia|]. cbn [normalize_loop].
  case_bool_decide as E; [done|]. apply IH. destruct (strip_suffixes_shorter s) as [|]; [done|lia].
Qed.

Lemma normalize_fixed `{GoText} s : strip_suffixes (normalize s) = normalize s.
Proof. apply normalize_loop_fixed. lia. Qed.
