(* ===== verification/ApiErrors.v ===== *)
(** * API errors

    The errors of src/relaykit/types/error.go that the services return to the
    relay: an error with a code, an HTTP status and two flags around its
    cause.  [errors.As] looks for the first one in a tree of errors. *)

From S2P Require Import Prelude.
#[local] Open Scope Z_scope.

Definition ErrorCodeInvalidRequest : string := "invalid_request".
Definition ErrorCodeModelPriceError : string := "model_price_error".
Definition ErrorCodeQueryDataError : string := "query_data_error".
Definition ErrorCodeUpdateDataError : string := "update_data_error".
Definition ErrorCodeInsufficientUserQuota : string := "insufficient_user_quota".
Definition ErrorCodePreConsumeTokenQuotaFailed : string := "pre_consume_token_quota_failed".

Inductive NewAPIErrorOption := ErrOptionWithSkipRetry | ErrOptionWithNoRecordErrorLog.

Definition apply_option (e : error) (op : NewAPIErrorOption) : error :=
  match e, op with
  | ErrAPI c s _ r e, ErrOptionWithSkipRetry => ErrAPI c s true r e
  | ErrAPI c s k _ e, ErrOptionWithNoRecordErrorLog => ErrAPI c s k (Some false) e
  | e, _ => e
  end.

(** [errors.As(err, &newErr)]: the first API error of the tree. *)
Fixpoint as_api (e : error) : option error :=
  match e with
  | ErrAPI _ _ _ _ _ => Some e
  | ErrWrap _ e => as_api e
  | ErrJoin e1 e2 => match as_api e1 with Some a => Some a | None => as_api e2 end
  | _ => None
  end.

Definition NewError (e : error) (code : string) (ops : list NewAPIErrorOption) : error :=
  match as_api e with
  | Some api => foldl apply_option api ops
  | None => foldl apply_option (ErrAPI code 500 false None e) ops
  end.

Definition NewErrorWithStatusCode (e : error) (code : string) (status : Z) (ops : list NewAPIErrorOption) : error :=
  foldl apply_option (ErrAPI code status false None e) ops.

Definition GetErrorCode (e : error) : string := match e with ErrAPI c _ _ _ _ => c | _ => EmptyString end.
(** The field [Err] of an API error. *)
Definition api_Err (e : error) : error := match e with ErrAPI _ _ _ _ e => e | e => e end.

Definition forbidden (e : error) (code : string) : error :=
  NewErrorWithStatusCode e code 403 [ErrOptionWithSkipRetry; ErrOptionWithNoRecordErrorLog].
