(* ===== verification/Interleave.v ===== *)
(** * Programs over a shared database, interleaved statement by statement

    Code that several processes run at the same time against one database is
    a [prog]: a tree of clock readings and single statements, each atomic,
    whose results select the rest of the program.  The same definition is run
    alone ([run_prog]) or interleaved with any number of other programs
    ([run_actions]), where a statement may also fail and leave the database
    as it was.

    [safe W G clock Q p] is the proof rule for interleavings: every statement
    of [p] keeps the invariant [W] and moves the database along [G], whatever
    the other processes do in between, as long as the clock stays in [clock],
    and the result satisfies [Q].  [pays] is the rule for counting arguments:
    permissions that the database holds or a process has taken are never
    duplicated.  [triple] carries assertions that the moves of others keep, and
    [earns] is [pays] for a process that relies on what it has read. *)

From S2P Require Import Prelude.
#[local] Open Scope Z_scope.

Inductive prog (D A : Type) : Type :=
  | Ret (r : res A)
  | Now (k : Z → prog D A)
  | Query {X : Type} (f : M D X) (k : res X → prog D A).
Arguments Ret {D A} r.
Arguments Now {D A} k.
Arguments Query {D A X} f k.

Fixpoint prog_bind {D A B} (k : A → prog D B) (p : prog D A) : prog D B :=
  match p with
  | Ret (Ok a) => k a
  | Ret (Err e) => Ret (Err e)
  | Now k' => Now (λ z, prog_bind k (k' z))
  | Query f k' => Query f (λ r, prog_bind k (k' r))
  end.

#[global] Instance prog_mret {D} : MRet (prog D) := λ A a, Ret (Ok a).
#[global] Instance prog_mbind {D} : MBind (prog D) := λ A B k p, prog_bind k p.

(** [GetTimestamp], one statement, and an error that is already there. *)
Definition clock {D} : prog D Z := Now (λ z, Ret (Ok z)).
Definition query {D A} (f : M D A) : prog D A := Query f Ret.
Definition of_res {D A} (r : res A) : prog D A := Ret r.
Definition throw {D A} (e : error) : prog D A := Ret (Err e).

(** [x, err := p]: the error as a value. *)
Fixpoint attempt {D A} (p : prog D A) : prog D (res A) :=
  match p with
  | Ret r => Ret (Ok r)
  | Now k => Now (λ z, attempt (k z))
  | Query f k => Query f (λ r, attempt (k r))
  end.

(** The program alone, at one instant, with no statement failing. *)
Fixpoint run_prog {D A} (now : Z) (p : prog D A) (d : D) : res A * D :=
  match p with
  | Ret r => (r, d)
  | Now k => run_prog now (k now) d
  | Query f k => let '(r, d') := f d in run_prog now (k r) d'
  end.

Lemma run_prog_bind {D A B} now (p : prog D A) (k : A → prog D B) d :
  run_prog now (p ≫= k) d =
  match run_prog now p d with (Ok a, d') => run_prog now (k a) d' | (Err e, d') => (Err e, d') end.
Proof.
  unfold mbind, prog_mbind. revert d. induction p as [[a|e]|k' IH|X f k' IH]; intros d; cbn; [done|done|apply IH|].
  destruct (f d). apply IH.
Qed.

Lemma run_prog_attempt {D A} now (p : prog D A) d :
  run_prog now (attempt p) d = let '(r, d') := run_prog now p d in (Ok r, d').
Proof. revert d. induction p as [r|k IH|X f k IH]; intros d; cbn; [done|apply IH|]. destruct (f d). apply IH. Qed.

Lemma run_prog_query {D A} now (f : M D A) d : run_prog now (query f) d = f d.
Proof. cbn. by destruct (f d). Qed.

(** ** Interleavings *)

(** What time does to the data; nothing, unless the data keeps a clock. *)
Class Ticks (D : Type) := tick : N → D → D.
#[export] Instance ticks_nothing D : Ticks D | 100 := λ _ d, d.

Lemma still_safe {D} (W : D → Prop) (G : relation D) `{!Reflexive G} (dt : N) d : W d → W (tick dt d) ∧ G d (tick dt d).
Proof. done. Qed.
Lemma still_pays {D} (W : D → Prop) (T : D → nat) (dt : N) d : W d → W (tick dt d) ∧ (T (tick dt d) <= T d)%nat.
Proof. done. Qed.

Section interleave.
Context {D Op A : Type} `{!Ticks D} (op_prog : Op → prog D A).

Record config := MkConfig { c_db : D; c_now : Z; c_procs : list (Op * prog D A) }.

(** What happens next: a process starts, time passes, the [i]-th process
    reads the clock or executes its next statement, or that statement
    fails. *)
Inductive action :=
  | Spawn (op : Op)
  | Tick (dt : N)
  | Step (i : nat)
  | Fault (i : nat) (msg : string).

Definition act (a : action) (c : config) : config :=
  match a with
  | Spawn op => MkConfig (c_db c) (c_now c) (c_procs c ++ [(op, op_prog op)])
  | Tick dt => MkConfig (tick dt (c_db c)) (c_now c + Z.of_N dt) (c_procs c)
  | Step i =>
      match c_procs c !! i with
      | Some (op, Now k) => MkConfig (c_db c) (c_now c) (<[i := (op, k (c_now c))]> (c_procs c))
      | Some (op, Query f k) =>
          let '(r, d) := f (c_db c) in MkConfig d (c_now c) (<[i := (op, k r)]> (c_procs c))
      | _ => c
      end
  | Fault i msg =>
      match c_procs c !! i with
      | Some (op, Query f k) => MkConfig (c_db c) (c_now c) (<[i := (op, k (Err (ErrDriver msg)))]> (c_procs c))
      | _ => c
      end
  end.

Fixpoint run_actions (acts : list action) (c : config) : config :=
  match acts with [] => c | a :: acts => run_actions acts (act a c) end.

(** The operations an action list starts. *)
Definition spawned (acts : list action) : list Op :=
  omap (λ a, match a with Spawn op => Some op | _ => None end) acts.
End interleave.
Arguments MkConfig {D Op A}.
Arguments config : clear implicits.
Arguments Spawn {Op} op.
Arguments Tick {Op} dt.
Arguments Step {Op} i.
Arguments Fault {Op} i msg.
Arguments action : clear implicits.

(** ** The proof rule *)

Fixpoint safe {D A} (W : D → Prop) (G : relation D) (clock : Z → Prop) (Q : res A → Prop) (p : prog D A) : Prop :=
  match p with
  | Ret r => Q r
  | Now k => ∀ z, clock z → safe W G clock Q (k z)
  | Query f k =>
      (∀ d, W d → W (f d).2 ∧ G d (f d).2 ∧ safe W G clock Q (k (f d).1)) ∧
      (∀ msg, safe W G clock Q (k (Err (ErrDriver msg))))
  end.

Section rules.
Context {D : Type} (W : D → Prop) (G : relation D) (inside : Z → Prop).

Lemma safe_bind {A B} (Q : res A → Prop) (R : res B → Prop) (p : prog D A) (k : A → prog D B) :
  safe W G inside Q p → (∀ a, Q (Ok a) → safe W G inside R (k a)) → (∀ e, Q (Err e) → R (Err e)) →
  safe W G inside R (p ≫= k).
Proof.
  intros Hp Hk He. unfold mbind, prog_mbind. induction p as [[a|e]|k' IH|X f k' IH]; cbn in *; [auto..|].
  destruct Hp as [H1 H2]. split; [|auto]. intros d Hd. destruct (H1 d Hd) as (? & ? & ?). auto.
Qed.

Lemma safe_attempt {A} (Q : res (res A) → Prop) (p : prog D A) :
  safe W G inside (λ r, Q (Ok r)) p → safe W G inside Q (attempt p).
Proof.
  induction p as [r|k IH|X f k IH]; cbn; [auto|auto|]. intros [H1 H2]. split; [|auto].
  intros d Hd. destruct (H1 d Hd) as (? & ? & ?). auto.
Qed.

Lemma safe_query {A} (Q : res A → Prop) (f : M D A) :
  (∀ d, W d → W (f d).2 ∧ G d (f d).2 ∧ Q (f d).1) → (∀ msg, Q (Err (ErrDriver msg))) → safe W G inside Q (query f).
Proof. intros H1 H2. cbn. auto. Qed.

(** A statement that only reads. *)
Lemma safe_read `{!Reflexive G} {A} (Q : res A → Prop) (f : D → res A) :
  (∀ d, W d → Q (f d)) → (∀ msg, Q (Err (ErrDriver msg))) → safe W G inside Q (query (λ d, (f d, d))).
Proof. intros H1 H2. cbn. auto. Qed.
End rules.

(** A program that is safe in every interleaving is safe alone. *)
Lemma safe_alone {D A} (W : D → Prop) (G : relation D) `{!PreOrder G} (inside : Z → Prop) (Q : res A → Prop) (p : prog D A) now d :
  safe W G inside Q p → inside now → W d →
  W (run_prog now p d).2 ∧ G d (run_prog now p d).2 ∧ Q (run_prog now p d).1.
Proof.
  intros Hp Hnow. revert d. induction p as [r|k IH|X f k IH]; intros d HW; cbn in *; [done|auto|].
  destruct Hp as [H1 _]. destruct (H1 d HW) as (H2 & H3 & H4). destruct (f d) as [r d1]. cbn in *.
  destruct (IH r H4 d1 H2) as (? & ? & ?). split_and!; [done|by etrans|done].
Qed.

(** ** Soundness *)

Section sound.
Context {D Op A : Type} `{!Ticks D} (op_prog : Op → prog D A) (W : D → Prop) (G : relation D) `{!PreOrder G}.
Context (inside : Z → Prop) (Q : Op → res A → Prop).
Context (Htick : ∀ dt d, W d → W (tick dt d) ∧ G d (tick dt d)).

Definition config_safe (c : config D Op A) : Prop :=
  W (c_db c) ∧ Forall (λ p, safe W G inside (Q p.1) p.2) (c_procs c).

Lemma clock_grows acts (c : config D Op A) : c_now c <= c_now (run_actions op_prog acts c).
Proof using Type.
  revert c. induction acts as [|a acts IH]; intros c; cbn; [lia|]. etransitivity; [|apply IH]. clear IH.
  destruct a as [op|dt|i|i msg]; cbn; [lia|lia|..]; destruct (c_procs c !! i) as [[op [r|k|X f k]]|]; cbn; try lia.
  destruct (f (c_db c)). cbn. lia.
Qed.

Lemma act_safe a c :
  config_safe c → inside (c_now c) → (∀ op, a = Spawn op → safe W G inside (Q op) (op_prog op)) →
  config_safe (act op_prog a c) ∧ G (c_db c) (c_db (act op_prog a c)).
Proof.
  intros [HW Hp] Hin Hop. destruct a as [op|dt|i|i msg]; cbn.
  - split; [|done]. split; [done|]. apply Forall_app. split; [done|]. constructor; [|done]. by apply Hop.
  - by destruct (Htick dt _ HW).
  - destruct (c_procs c !! i) as [[op [r|k|X f k]]|] eqn:E; try done;
      pose proof (Forall_lookup_1 _ _ _ _ Hp E) as Hi; cbn in Hi.
    + split; [|done]. split; [done|]. apply Forall_insert; [done|]. cbn. auto.
    + destruct Hi as [H1 _]. destruct (H1 _ HW) as (H2 & H3 & H4). destruct (f (c_db c)) as [r d]. cbn in *.
      split; [|done]. split; [done|]. apply Forall_insert; [done|]. exact H4.
  - destruct (c_procs c !! i) as [[op [r|k|X f k]]|] eqn:E; try done.
    pose proof (Forall_lookup_1 _ _ _ _ Hp E) as [_ H2]. split; [|done]. split; [done|]. apply Forall_insert; [done|]. apply H2.
Qed.

(** Whatever the interleaving and the faults, the invariant holds at the end,
    the database has moved along [G], and every process that has returned
    satisfies its postcondition. *)
Lemma interleaving_safe acts c :
  config_safe c → (∀ z, c_now c <= z <= c_now (run_actions op_prog acts c) → inside z) →
  Forall (λ op, safe W G inside (Q op) (op_prog op)) (spawned acts) →
  config_safe (run_actions op_prog acts c) ∧ G (c_db c) (c_db (run_actions op_prog acts c)).
Proof.
  revert c. induction acts as [|a acts IH]; intros c Hc Hin Hs; [done|]. cbn [run_actions] in *.
  pose proof (clock_grows [a] c) as G1. pose proof (clock_grows acts (act op_prog a c)) as G2. cbn in G1.
  destruct (act_safe a c) as [Hc1 Hg1]; [done|apply Hin; lia| |].
  { intros op ->. by apply Forall_cons in Hs as [? _]. }
  destruct (IH (act op_prog a c)) as [Hc2 Hg2]; [done| | |].
  - intros z Hz. apply Hin. lia.
  - destruct a; [by apply Forall_cons in Hs as [_ ?]|done..].
  - split; [done|]. by etrans.
Qed.

Lemma finished_result c i op r :
  config_safe c → c_procs c !! i = Some (op, Ret r) → Q op r.
Proof. intros [_ Hp] E. exact (Forall_lookup_1 _ _ _ _ Hp E). Qed.
End sound.

(** ** Permissions

    [T d] counts the permissions the database holds.  A process that has [h]
    of them may take more from the database or put some back, and returns with
    at least what its result costs. *)

Fixpoint pays {D A} (W : D → Prop) (T : D → nat) (cost : res A → nat) (h : nat) (p : prog D A) : Prop :=
  match p with
  | Ret r => (cost r <= h)%nat
  | Now k => ∀ z, pays W T cost h (k z)
  | Query f k =>
      (∀ d, W d → W (f d).2 ∧ ∃ h', (T (f d).2 + h' <= T d + h)%nat ∧ pays W T cost h' (k (f d).1)) ∧
      (∀ msg, pays W T cost h (k (Err (ErrDriver msg))))
  end.

Section pays_rules.
Context {D : Type} (W : D → Prop) (T : D → nat).

Lemma pays_bind {A B} (cost : res A → nat) (cost' : res B → nat) h (p : prog D A) (k : A → prog D B) :
  pays W T cost h p → (∀ a h', (cost (Ok a) <= h')%nat → pays W T cost' h' (k a)) → (∀ e, cost' (Err e) = 0%nat) →
  pays W T cost' h (p ≫= k).
Proof.
  intros Hp Hk He. unfold mbind, prog_mbind. revert h Hp. induction p as [[a|e]|k' IH|X f k' IH]; intros h Hp; cbn in *.
  - auto.
  - rewrite He. lia.
  - auto.
  - destruct Hp as [H1 H2]. split; [|auto]. intros d Hd. destruct (H1 d Hd) as (? & h' & ? & ?). eauto.
Qed.

Lemma pays_mono {A} (cost : res A → nat) h h' (p : prog D A) :
  (h <= h')%nat → pays W T cost h p → pays W T cost h' p.
Proof.
  revert h h'. induction p as [r|k IH|X f k IH]; intros h h' Hh; cbn; [lia|eauto|].
  intros [H1 H2]. split; [|eauto]. intros d Hd. destruct (H1 d Hd) as (? & g & ? & ?). split; [done|].
  exists (g + (h' - h))%nat. split; [lia|]. eapply IH; [|done]. lia.
Qed.

Lemma pays_alone {A} (cost : res A → nat) h (p : prog D A) now d :
  pays W T cost h p → W d →
  W (run_prog now p d).2 ∧ (T (run_prog now p d).2 + cost (run_prog now p d).1 <= T d + h)%nat.
Proof.
  revert h d. induction p as [r|k IH|X f k IH]; intros h d Hp HW; cbn in *; [split; [done|lia]|auto|].
  destruct Hp as [H1 _]. destruct (H1 d HW) as (H2 & h' & H3 & H4). destruct (f d) as [r d1]. cbn in *.
  destruct (IH r h' d1 H4 H2). split; [done|lia].
Qed.

(** A statement that only reads. *)
Lemma pays_read {A} (cost : res A → nat) h (f : D → res A) :
  (∀ d, W d → (cost (f d) <= h)%nat) → (∀ e, (cost (Err e) <= h)%nat) → pays W T cost h (query (λ d, (f d, d))).
Proof. intros Hf He. split; [|by intros; apply He]. intros d Hd. cbn. eauto. Qed.
End pays_rules.

Section pays_sound.
Context {D Op A : Type} `{!Ticks D} (op_prog : Op → prog D A) (W : D → Prop) (T : D → nat).
Context (cost : Op → res A → nat) (budget : Op → nat).
Context (Htick : ∀ dt d, W d → W (tick dt d) ∧ (T (tick dt d) <= T d)%nat).

(** What the finished processes have cost. *)
Definition spent (c : config D Op A) : nat :=
  sum_list_with (λ p, match p with (op, Ret r) => cost op r | _ => 0%nat end) (c_procs c).

Definition config_pays (total : nat) (c : config D Op A) : Prop :=
  W (c_db c) ∧ ∃ hs, (T (c_db c) + sum_list hs <= total)%nat ∧ Forall2 (λ h p, pays W T (cost p.1) h p.2) hs (c_procs c).

Lemma sum_list_insert (hs : list nat) i h h' :
  hs !! i = Some h → (sum_list (<[i := h']> hs) + h = sum_list hs + h')%nat.
Proof using Type.
  revert i. induction hs as [|x hs IH]; intros [|i] E; [done|done|injection E as ->|].
  - change (<[0%nat := h']> (h :: hs)) with (h' :: hs). cbn. unfold id. lia.
  - change (<[S i := h']> (x :: hs)) with (x :: <[i := h']> hs). specialize (IH i E). cbn. lia.
Qed.

Lemma act_pays total a c :
  config_pays total c → (∀ op, a = Spawn op → pays W T (cost op) (budget op) (op_prog op)) →
  config_pays (total + match a with Spawn op => budget op | _ => 0%nat end) (act op_prog a c).
Proof.
  intros (HW & hs & Hs & Hp) Hop. destruct a as [op|dt|i|i msg]; cbn.
  - split; [done|]. exists (hs ++ [budget op]). rewrite sum_list_with_app. cbn. split; [unfold id in *; lia|].
    apply Forall2_app; [done|]. constructor; [by apply Hop|done].
  - destruct (Htick dt _ HW) as [? ?]. split; [done|]. exists hs. split; [cbn; lia|done].
  - destruct (c_procs c !! i) as [[op [r|k|X f k]]|] eqn:E; try (split; [done|]; exists hs; split; [lia|done]);
      destruct (Forall2_lookup_r _ _ _ _ _ Hp E) as (h & Eh & Hi); cbn in Hi.
    + split; [done|]. exists hs. split; [cbn; lia|]. rewrite <- (list_insert_id hs i h Eh). apply Forall2_insert; [done|]. apply Hi.
    + destruct Hi as [H1 _]. destruct (H1 _ HW) as (H2 & h' & H3 & H4). destruct (f (c_db c)) as [r d]. cbn in *.
      split; [done|]. exists (<[i := h']> hs). cbn. pose proof (sum_list_insert hs i h h' Eh). split; [lia|].
      by apply Forall2_insert.
  - destruct (c_procs c !! i) as [[op [r|k|X f k]]|] eqn:E; try (split; [done|]; exists hs; split; [lia|done]).
    destruct (Forall2_lookup_r _ _ _ _ _ Hp E) as (h & Eh & [_ Hi]). split; [done|]. exists hs. split; [cbn; lia|].
    rewrite <- (list_insert_id hs i h Eh). apply Forall2_insert; [done|]. apply Hi.
Qed.

Lemma config_pays_spent total c : config_pays total c → (spent c <= total)%nat.
Proof using Type.
  intros (_ & hs & Hs & Hp). cut (spent c <= sum_list hs)%nat; [lia|]. unfold spent. clear Hs.
  induction Hp as [|h [op [r|k|X f k]] hs ps Hh Hp IH]; cbn in *; unfold id in *; lia.
Qed.

(** Whatever the interleaving and the faults, finished processes have cost no
    more than the database held and the started operations brought. *)
Lemma interleaving_pays acts c total :
  config_pays total c → Forall (λ op, pays W T (cost op) (budget op) (op_prog op)) (spawned acts) →
  (spent (run_actions op_prog acts c) <= total + sum_list_with budget (spawned acts))%nat.
Proof.
  revert c total. induction acts as [|a acts IH]; intros c total Hc Hs.
  { cbn. pose proof (config_pays_spent total c Hc). lia. }
  cbn [run_actions]. pose proof (act_pays total a c Hc) as Ha.
  destruct a as [op|dt|i|i msg]; cbn [spawned omap list_omap] in *.
  - apply Forall_cons in Hs as [Hop Hs]. cbn [sum_list_with]. rewrite Nat.add_assoc. apply IH; [|done].
    apply Ha. intros ? [= <-]. exact Hop.
  - rewrite Nat.add_0_r in Ha. apply IH; [|done]. by apply Ha.
  - rewrite Nat.add_0_r in Ha. apply IH; [|done]. by apply Ha.
  - rewrite Nat.add_0_r in Ha. apply IH; [|done]. by apply Ha.
Qed.
End pays_sound.

(** ** Local assertions

    A process may rely on what it has seen as long as no other process can make
    it false.  [P] is what it knows now; it holds after every move along [G].
    [clk] is the clock that the data keeps. *)

Definition stable {D} (G : relation D) (P : D → Prop) : Prop := ∀ d d', G d d' → P d → P d'.

Fixpoint triple {D A} (W : D → Prop) (G : relation D) (clk : D → Z) (P : D → Prop) (Q : res A → D → Prop)
    (p : prog D A) : Prop :=
  match p with
  | Ret r => ∀ d, W d → P d → Q r d
  | Now k => ∃ P' : Z → D → Prop,
      (∀ z, stable G (P' z)) ∧ (∀ d, W d → P d → P' (clk d) d) ∧ (∀ z, triple W G clk (P' z) Q (k z))
  | @Query _ _ X f k => ∃ P' : res X → D → Prop,
      (∀ r, stable G (P' r)) ∧
      (∀ d, W d → P d → W (f d).2 ∧ G d (f d).2 ∧ clk (f d).2 = clk d ∧ P' (f d).1 (f d).2) ∧
      (∀ msg d, W d → P d → P' (Err (ErrDriver msg)) d) ∧
      (∀ r, triple W G clk (P' r) Q (k r))
  end.

(** ** Permissions and what is known

    As [pays], for a process that relies on what it has read: [P] is what it
    knows, which no move along [G] makes false. *)

Fixpoint earns {D A} (W : D → Prop) (G : relation D) (T : D → nat) (cost : res A → nat) (P : D → Prop) (h : nat) (p : prog D A) : Prop :=
  match p with
  | Ret r => (cost r <= h)%nat
  | Now k => ∀ z, earns W G T cost P h (k z)
  | Query f k =>
      (∀ d, W d → P d → W (f d).2 ∧ G d (f d).2 ∧ ∃ h' P', (T (f d).2 + h' <= T d + h)%nat ∧
        stable G P' ∧ P' (f d).2 ∧ earns W G T cost P' h' (k (f d).1)) ∧
      (∀ msg, earns W G T cost P h (k (Err (ErrDriver msg))))
  end.

Section earns_rules.
Context {D : Type} (W : D → Prop) (G : relation D) (T : D → nat).

Lemma earns_mono {A} (cost : res A → nat) P h h' p : (h <= h')%nat → earns W G T cost P h p → earns W G T cost P h' p.
Proof.
  revert P h h'. induction p as [r|k IH|X f k IH]; intros P h h' Hh; cbn; [lia|eauto|]. intros [H1 H2]. split; [|eauto].
  intros d Hd HP. destruct (H1 d Hd HP) as (? & ? & g & P' & ? & ? & ? & ?). split_and!; [done..|]. exists (g + (h' - h))%nat, P'.
  split_and!; [lia|done|done|]. eapply IH; [|done]. lia.
Qed.

Lemma earns_knows {A} (cost : res A → nat) (P P' : D → Prop) h p : (∀ d, P d → P' d) → earns W G T cost P' h p → earns W G T cost P h p.
Proof.
  intros HP. induction p as [r|k IH|X f k IH]; cbn; [done|auto|]. intros [H1 H2]. split; [|auto]. intros d Hd Hd'. by apply H1; [|apply HP].
Qed.

Lemma earns_bind {A B} (cost : res A → nat) (cost' : res B → nat) P h (p : prog D A) (k : A → prog D B) :
  earns W G T cost P h p → (∀ a h', (cost (Ok a) <= h')%nat → earns W G T cost' (λ _, True) h' (k a)) → (∀ e, cost' (Err e) = 0%nat) →
  earns W G T cost' P h (p ≫= k).
Proof.
  intros Hp Hk He. unfold mbind, prog_mbind. revert P h Hp. induction p as [[a|e]|k' IH|X f k' IH]; intros P h Hp; cbn in *.
  - eapply earns_knows; [|by apply Hk]. done.
  - rewrite He. lia.
  - auto.
  - destruct Hp as [H1 H2]. split; [|auto]. intros d Hd HP. destruct (H1 d Hd HP) as (? & ? & h' & P' & ? & ? & ? & ?).
    split_and!; [done..|]. exists h', P'. auto.
Qed.
End earns_rules.

Section earns_sound.
Context {D Op A : Type} `{!Ticks D} (op_prog : Op → prog D A) (W : D → Prop) (G : relation D) `{!PreOrder G} (T : D → nat).
Context (cost : Op → res A → nat) (budget : Op → nat).
Context (Htick : ∀ dt d, W d → W (tick dt d) ∧ G d (tick dt d) ∧ (T (tick dt d) <= T d)%nat).

Definition proc_earns (d : D) (h : nat) (p : Op * prog D A) : Prop := ∃ P, stable G P ∧ P d ∧ earns W G T (cost p.1) P h p.2.
Definition config_earns (total : nat) (c : config D Op A) : Prop :=
  W (c_db c) ∧ ∃ hs, (T (c_db c) + sum_list hs <= total)%nat ∧ Forall2 (proc_earns (c_db c)) hs (c_procs c).

Lemma procs_move d d' hs ps : G d d' → Forall2 (proc_earns d) hs ps → Forall2 (proc_earns d') hs ps.
Proof using Type. intros Hg Hp. apply (Forall2_impl _ _ _ _ Hp). intros h p (P & H1 & H2 & H3). exists P. split_and!; [done|by eapply H1|done]. Qed.

Lemma act_earns total a c :
  config_earns total c → (∀ op, a = Spawn op → earns W G T (cost op) (λ _, True) (budget op) (op_prog op)) →
  config_earns (total + match a with Spawn op => budget op | _ => 0%nat end) (act op_prog a c).
Proof.
  intros (HW & hs & Hs & Hp) Hop. destruct a as [op|dt|i|i msg]; cbn.
  - split; [done|]. exists (hs ++ [budget op]). rewrite sum_list_with_app. cbn. split; [unfold id in *; lia|].
    apply Forall2_app; [done|]. constructor; [|done]. exists (λ _, True). split_and!; [done..|by apply Hop].
  - destruct (Htick dt _ HW) as (? & Hg & ?). split; [done|]. exists hs. split; [cbn; lia|]. by eapply procs_move.
  - destruct (c_procs c !! i) as [[op [r|k|X f k]]|] eqn:E; try (split; [done|]; exists hs; split; [lia|done]);
      destruct (Forall2_lookup_r _ _ _ _ _ Hp E) as (h & Eh & P & HP & HPd & Hi); cbn in Hi.
    + split; [done|]. exists hs. split; [cbn; lia|]. rewrite <- (list_insert_id hs i h Eh). apply Forall2_insert; [done|]. exists P. cbn. auto.
    + destruct Hi as [H1 _]. destruct (H1 _ HW HPd) as (H2 & Hg & h' & P' & H3 & H4 & H5 & H6). destruct (f (c_db c)) as [r d]. cbn in *.
      split; [done|]. exists (<[i := h']> hs). cbn. pose proof (sum_list_insert hs i h h' Eh). split; [lia|].
      apply Forall2_insert; [by eapply procs_move|]. exists P'. auto.
  - destruct (c_procs c !! i) as [[op [r|k|X f k]]|] eqn:E; try (split; [done|]; exists hs; split; [lia|done]).
    destruct (Forall2_lookup_r _ _ _ _ _ Hp E) as (h & Eh & P & HP & HPd & [_ Hi]). split; [done|]. exists hs. split; [cbn; lia|].
    rewrite <- (list_insert_id hs i h Eh). apply Forall2_insert; [done|]. exists P. cbn. auto.
Qed.

(** As [interleaving_pays]. *)
Lemma interleaving_earns acts c total :
  config_earns total c → Forall (λ op, earns W G T (cost op) (λ _, True) (budget op) (op_prog op)) (spawned acts) →
  (spent cost (run_actions op_prog acts c) <= total + sum_list_with budget (spawned acts))%nat.
Proof.
  revert c total. induction acts as [|a acts IH]; intros c total Hc Hs.
  { cbn. rewrite Nat.add_0_r. destruct Hc as (_ & hs & Hs' & Hp). cut (spent cost c <= sum_list hs)%nat; [lia|]. unfold spent. clear Hs Hs'.
    induction Hp as [|h [op [r|k|X f k]] hs ps (P & _ & _ & Hh) Hp IHp]; cbn in *; unfold id in *; lia. }
  cbn [run_actions]. pose proof (act_earns total a c Hc) as Ha.
  destruct a as [op|dt|i|i msg]; cbn [spawned omap list_omap] in *.
  - apply Forall_cons in Hs as [Hop Hs]. cbn [sum_list_with]. rewrite Nat.add_assoc. apply IH; [|done].
    apply Ha. intros ? [= <-]. exact Hop.
  - rewrite Nat.add_0_r in Ha. apply IH; [|done]. by apply Ha.
  - rewrite Nat.add_0_r in Ha. apply IH; [|done]. by apply Ha.
  - rewrite Nat.add_0_r in Ha. apply IH; [|done]. by apply Ha.
Qed.
End earns_sound.

Section triple_rules.
Context {D : Type} (W : D → Prop) (G : relation D) (clk : D → Z).

Lemma prog_triple_weaken {A} (P P' : D → Prop) (Q : res A → D → Prop) p :
  triple W G clk P' Q p → (∀ d, W d → P d → P' d) → triple W G clk P Q p.
Proof.
  intros Hp HP. destruct p as [r|k|X f k]; cbn in *; [auto|..].
  - destruct Hp as (R & H1 & H2 & H3). exists R. split_and!; auto.
  - destruct Hp as (R & H1 & H2 & H3 & H4). exists R. split_and!; auto.
Qed.

Lemma prog_triple_bind {A B} (P : D → Prop) (Q : res A → D → Prop) (R : res B → D → Prop) p k :
  triple W G clk P Q p → (∀ a, triple W G clk (Q (Ok a)) R (k a)) → (∀ e d, W d → Q (Err e) d → R (Err e) d) →
  triple W G clk P R (p ≫= k).
Proof.
  intros Hp Hk He. unfold mbind, prog_mbind. revert P Hp. induction p as [[a|e]|k' IH|X f k' IH]; intros P Hp; cbn in *.
  - by eapply prog_triple_weaken.
  - auto.
  - destruct Hp as (S & H1 & H2 & H3). exists S. split_and!; auto.
  - destruct Hp as (S & H1 & H2 & H3 & H4). exists S. split_and!; auto.
Qed.

Lemma triple_post {A} (P : D → Prop) (Q R : res A → D → Prop) p :
  triple W G clk P Q p → (∀ r d, W d → Q r d → R r d) → triple W G clk P R p.
Proof.
  intros Hp HQ. revert P Hp. induction p as [r|k IH|X f k IH]; intros P Hp; cbn in *; [auto|..].
  - destruct Hp as (S & H1 & H2 & H3). exists S. split_and!; auto.
  - destruct Hp as (S & H1 & H2 & H3 & H4). exists S. split_and!; auto.
Qed.

Lemma triple_attempt {A} (P : D → Prop) (Q : res (res A) → D → Prop) p :
  triple W G clk P (λ r, Q (Ok r)) p → triple W G clk P Q (attempt p).
Proof.
  revert P. induction p as [r|k IH|X f k IH]; intros P Hp; cbn in *; [auto|..].
  - destruct Hp as (S & H1 & H2 & H3). exists S. split_and!; auto.
  - destruct Hp as (S & H1 & H2 & H3 & H4). exists S. split_and!; auto.
Qed.

(** What nobody can make false is kept. *)
Lemma triple_frame {A} (P F : D → Prop) (Q : res A → D → Prop) p :
  stable G F → triple W G clk P Q p → triple W G clk (λ d, P d ∧ F d) (λ r d, Q r d ∧ F d) p.
Proof.
  intros HF. revert P. induction p as [r|k IH|X f k IH]; intros P Hp; cbn in *.
  - naive_solver.
  - destruct Hp as (S & H1 & H2 & H3). exists (λ z d, S z d ∧ F d). split_and!; [|naive_solver|auto].
    intros z d d' Hg [? ?]. split; [by eapply H1|by eapply HF].
  - destruct Hp as (S & H1 & H2 & H3 & H4). exists (λ r d, S r d ∧ F d). split_and!; [| |naive_solver|auto].
    + intros r d d' Hg [? ?]. split; [by eapply H1|by eapply HF].
    + intros d Hd [HP Hf]. destruct (H2 d Hd HP) as (? & Hg & ? & ?). split_and!; [done..|]. by eapply HF.
Qed.

Lemma triple_false {A} (Q : res A → D → Prop) p : triple W G clk (λ _, False) Q p.
Proof.
  induction p as [r|k IH|X f k IH]; cbn; [done|exists (λ _ _, False)|exists (λ _ _, False)]; unfold stable; split_and!; auto; tauto.
Qed.
(** A decided fact may be assumed. *)
Lemma prog_triple_pure {A} (φ : Prop) `{!Decision φ} (P : D → Prop) (Q : res A → D → Prop) p :
  (φ → triple W G clk P Q p) → triple W G clk (λ d, φ ∧ P d) Q p.
Proof.
  intros Hp. destruct (decide φ) as [Hφ|Hφ]; [eapply prog_triple_weaken; [by apply Hp|naive_solver]|].
  eapply prog_triple_weaken; [apply triple_false|naive_solver].
Qed.

Lemma prog_triple_ret {A} (P : D → Prop) (Q : res A → D → Prop) r :
  (∀ d, W d → P d → Q r d) → triple W G clk P Q (Ret r).
Proof. done. Qed.

(** Reading the clock. *)
Lemma triple_clock (P : D → Prop) (Q : res Z → D → Prop) :
  (∀ z, stable G (Q (Ok z))) → (∀ d, W d → P d → Q (Ok (clk d)) d) → triple W G clk P Q clock.
Proof. intros HQ HP. exists (λ z, Q (Ok z)). cbn. auto. Qed.

Lemma triple_query {A} (P : D → Prop) (Q : res A → D → Prop) (f : M D A) :
  (∀ r, stable G (Q r)) →
  (∀ d, W d → P d → W (f d).2 ∧ G d (f d).2 ∧ clk (f d).2 = clk d ∧ Q (f d).1 (f d).2) →
  (∀ msg d, W d → P d → Q (Err (ErrDriver msg)) d) → triple W G clk P Q (query f).
Proof. intros HQ Hf He. exists Q. cbn. auto. Qed.

End triple_rules.

Section triple_sound.
Context {D Op A : Type} `{!Ticks D} (op_prog : Op → prog D A) (W : D → Prop) (G : relation D) `{!PreOrder G} (clk : D → Z).
Context (Htick : ∀ dt d, W d → W (tick dt d) ∧ G d (tick dt d) ∧ clk (tick dt d) = clk d + Z.of_N dt).
Context (Q : nat → Op → res A → D → Prop).

(** Every process has an assertion that holds and carries it to its
    postcondition. *)
Definition config_triple (c : config D Op A) : Prop :=
  W (c_db c) ∧ clk (c_db c) = c_now c ∧
  ∀ i op p, c_procs c !! i = Some (op, p) → ∃ P, stable G P ∧ P (c_db c) ∧ triple W G clk P (Q i op) p.

Definition starts_ok (n : nat) (d0 : D) (op : Op) : Prop :=
  ∀ i d, (n <= i)%nat → W d → G d0 d → ∃ P, stable G P ∧ P d ∧ triple W G clk P (Q i op) (op_prog op).

(** One process has moved, the others keep what they know. *)
Lemma config_triple_step c d i op p p' P :
  config_triple c → c_procs c !! i = Some (op, p) → W d → G (c_db c) d → clk d = c_now c →
  stable G P → P d → triple W G clk P (Q i op) p' → config_triple (MkConfig d (c_now c) (<[i := (op, p')]> (c_procs c))).
Proof.
  intros (HW & Hc & Hp) E HW' Hg Hc' HP Hd Ht. split_and!; [done..|]. cbn. intros j op' q Hj.
  destruct (decide (j = i)) as [->|Hne].
  - rewrite list_lookup_insert_eq in Hj by (by eapply lookup_lt_Some). injection Hj as <- <-. eauto.
  - rewrite list_lookup_insert_ne in Hj by done. destruct (Hp _ _ _ Hj) as (R & HR & HRd & HRt). exists R.
    split_and!; [done|by eapply HR|done].
Qed.

Lemma act_triple a c :
  config_triple c → (∀ op, a = Spawn op → ∃ P, stable G P ∧ P (c_db c) ∧ triple W G clk P (Q (length (c_procs c)) op) (op_prog op)) →
  config_triple (act op_prog a c) ∧ G (c_db c) (c_db (act op_prog a c)) ∧
  (length (c_procs c) <= length (c_procs (act op_prog a c)))%nat.
Proof.
  intros Hc Hop. pose proof Hc as (HW & Hclk & Hp). destruct a as [op|dt|i|i msg]; cbn.
  - rewrite length_app. split_and!; [|done|lia]. split_and!; [done..|]. cbn. intros j op' q [Hj|[Hj Hq]]%lookup_app_Some; [by apply Hp|].
    apply list_lookup_singleton_Some in Hq as [Hj0 [= <- <-]]. assert (j = length (c_procs c)) as -> by lia. by apply Hop.
  - destruct (Htick dt _ HW) as (H1 & H2 & H3). split_and!; [|done|done]. split_and!; [done|cbn; lia|]. cbn. intros j op q Hj.
    destruct (Hp _ _ _ Hj) as (R & HR & HRd & HRt). exists R. split_and!; [done|by eapply HR|done].
  - destruct (c_procs c !! i) as [[op [r|k|X f k]]|] eqn:E; try done.
    + destruct (Hp _ _ _ E) as (R & HR & HRd & P' & H1 & H2 & H3).
      split_and!; [|done|apply Nat.eq_le_incl; symmetry; apply length_insert].
      eapply (config_triple_step _ _ _ _ _ _ (P' (c_now c))); [done|done|done|done|done|apply H1| |apply H3].
      rewrite <- Hclk. auto.
    + destruct (Hp _ _ _ E) as (R & HR & HRd & P' & H1 & H2 & H3 & H4). destruct (H2 _ HW HRd) as (G1 & G2 & G3 & G4).
      destruct (f (c_db c)) as [r d]. cbn in *. split_and!; [|done|apply Nat.eq_le_incl; symmetry; apply length_insert].
      eapply config_triple_step; [done|done|done|done|lia| | |apply H4]; auto.
  - destruct (c_procs c !! i) as [[op [r|k|X f k]]|] eqn:E; try done.
    destruct (Hp _ _ _ E) as (R & HR & HRd & P' & H1 & H2 & H3 & H4). split_and!; [|done|apply Nat.eq_le_incl; symmetry; apply length_insert].
    eapply config_triple_step; [done|done|done|done|done| | |apply H4]; auto.
Qed.

(** Whatever the interleaving and the faults, the assertions hold at the end
    and the data has moved along [G]. *)
Lemma interleaving_triple_from d0 n acts c :
  config_triple c → G d0 (c_db c) → (n <= length (c_procs c))%nat → Forall (starts_ok n d0) (spawned acts) →
  config_triple (run_actions op_prog acts c) ∧ G (c_db c) (c_db (run_actions op_prog acts c)).
Proof.
  revert c. induction acts as [|a acts IH]; intros c Hc Hg Hn Hs; [done|]. cbn [run_actions].
  destruct (act_triple a c) as (Hc1 & Hg1 & Hn1); [done| |].
  { intros op ->. apply Forall_cons in Hs as [Hop _]. apply Hop; [lia|by destruct Hc as (? & _)|done]. }
  destruct (IH (act op_prog a c)) as [Hc2 Hg2]; [done|by etrans|lia| |split; [done|by etrans]].
  destruct a; [by apply Forall_cons in Hs as [_ ?]|done..].
Qed.

Lemma interleaving_triple acts c :
  config_triple c → Forall (starts_ok (length (c_procs c)) (c_db c)) (spawned acts) →
  config_triple (run_actions op_prog acts c) ∧ G (c_db c) (c_db (run_actions op_prog acts c)).
Proof. intros Hc Hs. by eapply interleaving_triple_from. Qed.

Lemma finished_triple c i op r :
  config_triple c → c_procs c !! i = Some (op, Ret r) → Q i op r (c_db c).
Proof. intros (HW & _ & Hp) E. destruct (Hp _ _ _ E) as (P & _ & HP & Ht). by apply Ht. Qed.
End triple_sound.
