(* ===== verification/SystemTask.v ===== *)
(** * System tasks and their leases

    src/model/system_task.go and the scheduler, runner and heartbeat of
    src/service/system_task.go: background work that any master node may
    create and run, where one row per type is active and a lease row decides
    which node runs it.

    Nodes share nothing but the two tables, and a function of the model
    package is a sequence of separate statements, so everything here is a
    [prog] and the theorems are about all interleavings of all nodes.  A value
    that is stored as JSON enters as the outcome of marshalling it, a fresh
    task id as the outcome of generating it. *)

From stdpp Require Import sorting.
From S2P Require Import Prelude Interleave.
#[local] Open Scope Z_scope.

(** ** Tables *)

Inductive SystemTaskStatus :=
  | SystemTaskStatusPending | SystemTaskStatusRunning | SystemTaskStatusSucceeded | SystemTaskStatusFailed.
#[global] Instance SystemTaskStatus_eq_dec : EqDecision SystemTaskStatus.
Proof. solve_decision. Defined.

Record SystemTask := MkSystemTask {
  st_TaskID : string; st_Type : string; st_Status : SystemTaskStatus; st_ActiveKey : option string;
  st_Payload : string; st_State : string; st_Result : string; st_Error : string;
  st_LockedBy : string; st_CreatedAt : Z; st_UpdatedAt : Z
}.
#[global] Instance eta_SystemTask : Eta SystemTask := λ r,
  MkSystemTask (st_TaskID r) (st_Type r) (st_Status r) (st_ActiveKey r) (st_Payload r) (st_State r) (st_Result r)
    (st_Error r) (st_LockedBy r) (st_CreatedAt r) (st_UpdatedAt r).

(** The row of a type, whose primary key is the type. *)
Record SystemTaskLock := MkSystemTaskLock {
  lk_TaskID : string; lk_LockedBy : string; lk_LockedUntil : Z; lk_UpdatedAt : Z
}.
#[global] Instance eta_SystemTaskLock : Eta SystemTaskLock := λ r,
  MkSystemTaskLock (lk_TaskID r) (lk_LockedBy r) (lk_LockedUntil r) (lk_UpdatedAt r).

Record taskdb := MkTaskdb {
  system_tasks : gmap Z SystemTask; system_task_locks : gmap string SystemTaskLock; next_task_id : Z
}.
#[global] Instance eta_taskdb : Eta taskdb := λ r, MkTaskdb (system_tasks r) (system_task_locks r) (next_task_id r).

(** ** Statements *)

Definition by_id (a b : Z * SystemTask) : Prop := a.1 <= b.1.
#[global] Instance by_id_dec : RelDecision by_id.
Proof. intros a b. unfold by_id. apply _. Defined.

(** [SELECT ... WHERE cond ORDER BY id]. *)
Definition select_tasks (cond : SystemTask → bool) (d : taskdb) : list (Z * SystemTask) :=
  merge_sort by_id (filter (λ e, cond e.2 = true) (map_to_list (system_tasks d))).

(** [WHERE id = ? AND cond] through [First]. *)
Definition find_task (id : Z) (cond : SystemTask → bool) : M taskdb SystemTask := λ d,
  match system_tasks d !! id with
  | Some t => if cond t then (Ok t, d) else (Err ErrRecordNotFound, d)
  | None => (Err ErrRecordNotFound, d)
  end.

(** [UPDATE ... WHERE cond]: the number of rows. *)
Definition update_tasks (cond : Z → SystemTask → taskdb → bool) (set : SystemTask → SystemTask) : M taskdb Z := λ d,
  (Ok (Z.of_nat (length (filter (λ e, cond e.1 e.2 d = true) (map_to_list (system_tasks d))))),
   d <| system_tasks := map_imap (λ i t, Some (if cond i t d then set t else t)) (system_tasks d) |>).

(** The unique indexes of task_id and active_key. *)
Definition task_conflicts (t : SystemTask) (d : taskdb) : bool :=
  existsb (λ e, bool_decide (st_TaskID e.2 = st_TaskID t) ||
                bool_decide (is_Some (st_ActiveKey t) ∧ st_ActiveKey e.2 = st_ActiveKey t))
    (map_to_list (system_tasks d)).

Definition insert_task (t : SystemTask) : M taskdb (Z * SystemTask) := λ d,
  if task_conflicts t d then (Err (ErrNew "duplicate key"), d)
  else (Ok (next_task_id d, t),
        d <| system_tasks ::= <[next_task_id d := t]> |> <| next_task_id ::= Z.succ |>).

Definition insert_lock (taskType : string) (l : SystemTaskLock) : M taskdb unit := λ d,
  match system_task_locks d !! taskType with
  | Some _ => (Err (ErrNew "duplicate key"), d)
  | None => (Ok tt, d <| system_task_locks ::= <[taskType := l]> |>)
  end.

Definition find_lock (taskType : string) : M taskdb SystemTaskLock := λ d,
  match system_task_locks d !! taskType with Some l => (Ok l, d) | None => (Err ErrRecordNotFound, d) end.

Definition update_locks (cond : string → SystemTaskLock → bool) (set : SystemTaskLock → SystemTaskLock) : M taskdb Z := λ d,
  (Ok (Z.of_nat (length (filter (λ e, cond e.1 e.2 = true) (map_to_list (system_task_locks d))))),
   d <| system_task_locks := map_imap (λ k l, Some (if cond k l then set l else l)) (system_task_locks d) |>).

Definition delete_locks (cond : string → SystemTaskLock → bool) : M taskdb unit := λ d,
  (Ok tt, d <| system_task_locks := filter (λ e, cond e.1 e.2 = false) (system_task_locks d) |>).

(** The [EXISTS] clause of the fenced updates. *)
Definition lease_exists (taskID lockedBy : string) (now : Z) (d : taskdb) : bool :=
  existsb (λ e, bool_decide (lk_TaskID e.2 = taskID) && bool_decide (lk_LockedBy e.2 = lockedBy) && (now <=? lk_LockedUntil e.2))
    (map_to_list (system_task_locks d)).

(** ** The model package *)

Definition ErrSystemTaskLockLost : error := ErrNew "system task lock lost".

Definition task_active (t : SystemTask) : bool :=
  bool_decide (st_Status t = SystemTaskStatusPending) || bool_decide (st_Status t = SystemTaskStatusRunning).
Definition is_running (t : SystemTask) : bool := bool_decide (st_Status t = SystemTaskStatusRunning).
Definition is_pending (taskType : string) (t : SystemTask) : bool :=
  bool_decide (st_Type t = taskType) && bool_decide (st_Status t = SystemTaskStatusPending).

Definition CreateSystemTask (gen : res string) (taskType : string) (payload state : res string) : prog taskdb (Z * SystemTask) :=
  taskID ← of_res gen;
  payloadText ← of_res payload;
  stateText ← of_res state;
  now ← clock;
  query (insert_task (MkSystemTask taskID taskType SystemTaskStatusPending (Some taskType) payloadText stateText
           EmptyString EmptyString EmptyString now now)).

Definition GetActiveSystemTask (taskType : string) : prog taskdb (option (Z * SystemTask)) :=
  query (λ d, (Ok (last (select_tasks (λ t, bool_decide (st_Type t = taskType) && task_active t) d)), d)).

Definition FindEarliestPendingSystemTasks (taskTypes : list string) : prog taskdb (gmap string (Z * SystemTask)) :=
  match taskTypes with
  | [] => mret ∅
  | _ => query (λ d, (Ok (list_to_map (omap (λ ty, pair ty <$> head (select_tasks (is_pending ty) d)) taskTypes)), d))
  end.

Definition GetLatestSystemTasks (taskTypes : list string) : prog taskdb (gmap string (Z * SystemTask)) :=
  match taskTypes with
  | [] => mret ∅
  | _ => query (λ d, (Ok (list_to_map (omap (λ ty, pair ty <$> last (select_tasks (λ t, bool_decide (st_Type t = ty)) d))
                        taskTypes)), d))
  end.

(** Acquired, and the task whose expired lease was taken over. *)
Definition acquireSystemTaskLock (taskType taskID lockedBy : string) (now lockUntil : Z) : prog taskdb (bool * string) :=
  created ← attempt (query (insert_lock taskType (MkSystemTaskLock taskID lockedBy lockUntil now)));
  match created with
  | Ok _ => mret (true, EmptyString)
  | Err _ =>
      existing ← attempt (query (find_lock taskType));
      match existing with
      | Err err => if error_is err ErrRecordNotFound then mret (false, EmptyString) else throw err
      | Ok existing =>
          if now <=? lk_LockedUntil existing then mret (false, EmptyString)
          else
            n ← query (update_locks (λ k l, bool_decide (k = taskType) && (lk_LockedUntil l <? now))
                         (λ l, l <| lk_TaskID := taskID |> <| lk_LockedBy := lockedBy |>
                                 <| lk_LockedUntil := lockUntil |> <| lk_UpdatedAt := now |>));
            mret (if n =? 0 then (false, EmptyString) else (true, lk_TaskID existing))
      end
  end.

Definition MarkSystemTaskLeaseExpired (taskID : string) : prog taskdb unit :=
  now ← clock;
  _ ← query (update_tasks (λ _ t _, bool_decide (st_TaskID t = taskID) && is_running t)
               (λ t, t <| st_Status := SystemTaskStatusFailed |> <| st_ActiveKey := None |>
                       <| st_Error := "task lease expired" |> <| st_UpdatedAt := now |>));
  mret tt.

Definition ReleaseSystemTaskLock (taskID lockedBy : string) : prog taskdb unit :=
  query (delete_locks (λ _ l, bool_decide (lk_TaskID l = taskID) && bool_decide (lk_LockedBy l = lockedBy))).

Definition ClaimSystemTask (id : Z) (taskType runnerID : string) (lockUntil : Z) : prog taskdb (option (Z * SystemTask)) :=
  now ← clock;
  found ← attempt (query (find_task id (is_pending taskType)));
  match found with
  | Err err => if error_is err ErrRecordNotFound then mret None else throw err
  | Ok task =>
      '(acquired, expiredTaskID) ← acquireSystemTaskLock taskType (st_TaskID task) runnerID now lockUntil;
      if negb acquired then mret None
      else
        marked ← (if bool_decide (expiredTaskID ≠ EmptyString) && bool_decide (expiredTaskID ≠ st_TaskID task)
                  then attempt (MarkSystemTaskLeaseExpired expiredTaskID) else mret (Ok tt));
        match marked with
        | Err err => _ ← attempt (ReleaseSystemTaskLock (st_TaskID task) runnerID); throw err
        | Ok _ =>
            updated ← attempt (query (update_tasks (λ i t _, (i =? id) && is_pending taskType t)
                        (λ t, t <| st_Status := SystemTaskStatusRunning |> <| st_LockedBy := runnerID |> <| st_UpdatedAt := now |>)));
            match updated with
            | Err err => _ ← attempt (ReleaseSystemTaskLock (st_TaskID task) runnerID); throw err
            | Ok n =>
                if n =? 0 then _ ← attempt (ReleaseSystemTaskLock (st_TaskID task) runnerID); mret None
                else task ← query (find_task id (λ _, true)); mret (Some (id, task))
            end
        end
  end.

(** An update of a running task, fenced by its lease. *)
Definition fenced_update (taskID lockedBy : string) (now : Z) (set : SystemTask → SystemTask) : prog taskdb unit :=
  n ← query (update_tasks (λ _ t d, bool_decide (st_TaskID t = taskID) && is_running t && bool_decide (st_LockedBy t = lockedBy) &&
                                    lease_exists (st_TaskID t) lockedBy now d) set);
  if n =? 0 then throw ErrSystemTaskLockLost else mret tt.

Definition UpdateSystemTaskState (taskID lockedBy : string) (state : res string) : prog taskdb unit :=
  stateText ← of_res state;
  now ← clock;
  fenced_update taskID lockedBy now (λ t, t <| st_State := stateText |> <| st_UpdatedAt := now |>).

Definition RenewSystemTaskLock (taskID lockedBy : string) (lockUntil : Z) : prog taskdb unit :=
  now ← clock;
  n ← query (update_locks (λ _ l, bool_decide (lk_TaskID l = taskID) && bool_decide (lk_LockedBy l = lockedBy) && (now <=? lk_LockedUntil l))
               (λ l, l <| lk_LockedUntil := lockUntil |> <| lk_UpdatedAt := now |>));
  if n =? 0 then throw ErrSystemTaskLockLost else mret tt.

Definition FinishSystemTask (taskID lockedBy : string) (status : SystemTaskStatus) (result : res string) (errorMessage : string) :
    prog taskdb unit :=
  resultText ← of_res result;
  now ← clock;
  fenced_update taskID lockedBy now
    (λ t, t <| st_Status := status |> <| st_ActiveKey := None |> <| st_Result := resultText |>
            <| st_Error := errorMessage |> <| st_UpdatedAt := now |>);;
  ReleaseSystemTaskLock taskID lockedBy.

Fixpoint expire_each (now : Z) (locks : list (string * SystemTaskLock)) : prog taskdb unit :=
  match locks with
  | [] => mret tt
  | (taskType, lock) :: locks =>
      MarkSystemTaskLeaseExpired (lk_TaskID lock);;
      query (delete_locks (λ k l, bool_decide (k = taskType) && bool_decide (lk_TaskID l = lk_TaskID lock) &&
                                  bool_decide (lk_LockedBy l = lk_LockedBy lock) && (lk_LockedUntil l <? now)));;
      expire_each now locks
  end.

Definition ExpireStaleSystemTaskLocks (now : Z) : prog taskdb unit :=
  locks ← query (λ d, (Ok (filter (λ e, (lk_LockedUntil e.2 <? now) = true) (map_to_list (system_task_locks d))), d));
  expire_each now locks.

(** ** The service package *)

(** A registered handler; [h_schedule] is [None] when it is not a
    [ScheduledSystemTaskHandler], and else holds [Enabled()], the seconds of
    [Interval()] and the marshalled [NewPayload()]. *)
Record SystemTaskHandler := MkHandler { h_Type : string; h_schedule : option (bool * Z * res string) }.

Definition systemTaskLockTTL : Z := 60.
Definition systemTaskLockUntil : prog taskdb Z := now ← clock; mret (i64 (now + systemTaskLockTTL)).

(** The fallback shared by the functions that create a task: an active row of
    the type stands for the one that could not be created. *)
Definition EnqueueSystemTask (gen : res string) (taskType : string) (payload state : res string) : prog taskdb (Z * SystemTask * bool) :=
  activeTask ← GetActiveSystemTask taskType;
  match activeTask with
  | Some t => mret (t, false)
  | None =>
      created ← attempt (CreateSystemTask gen taskType payload state);
      match created with
      | Ok t => mret (t, true)
      | Err err =>
          active ← attempt (GetActiveSystemTask taskType);
          match active with
          | Ok (Some t) => mret (t, false)
          | _ => throw err
          end
      end
  end.

Definition StartLogCleanupTask (gen : res string) (targetTimestamp : Z) (payload state : res string) : prog taskdb (Z * SystemTask) :=
  if targetTimestamp <=? 0 then throw (ErrNew "target timestamp is required")
  else '(task, _) ← EnqueueSystemTask gen "log_cleanup" payload state; mret task.

Fixpoint claim_each (handlers : list SystemTaskHandler) (runnerID : string) (pendingTasks : gmap string (Z * SystemTask)) :
    prog taskdb (list (string * (Z * SystemTask))) :=
  match handlers with
  | [] => mret []
  | handler :: handlers =>
      claimed ← match pendingTasks !! h_Type handler with
                | None => mret None
                | Some (id, _) =>
                    lockUntil ← systemTaskLockUntil;
                    r ← attempt (ClaimSystemTask id (h_Type handler) runnerID lockUntil);
                    mret (match r with Ok c => c | Err _ => None end)
                end;
      rest ← claim_each handlers runnerID pendingTasks;
      mret (option_list (pair (h_Type handler) <$> claimed) ++ rest)
  end.

(** The tasks it dispatches, each with the type of its handler. *)
Definition runSystemTaskClaimPass (handlers : list SystemTaskHandler) (runnerID : string) :
    prog taskdb (list (string * (Z * SystemTask))) :=
  pendingTasks ← attempt (FindEarliestPendingSystemTasks (h_Type <$> handlers));
  match pendingTasks with
  | Err _ => mret []
  | Ok pendingTasks => claim_each handlers runnerID pendingTasks
  end.

Definition is_due (now interval : Z) (latest : option (Z * SystemTask)) : bool :=
  match latest with
  | None => true
  | Some (_, latest) => negb (task_active latest) && negb (i64 (now - st_UpdatedAt latest) <? interval)
  end.

Fixpoint schedule_each (now : Z) (gen : string → res string) (handlers : list (string * Z * res string))
    (latestTasks : gmap string (Z * SystemTask)) : prog taskdb unit :=
  match handlers with
  | [] => mret tt
  | (ty, interval, payload) :: handlers =>
      (if is_due now interval (latestTasks !! ty) then
         created ← attempt (CreateSystemTask (gen ty) ty payload (Ok EmptyString));
         match created with
         | Ok _ => mret tt
         | Err _ => _ ← attempt (GetActiveSystemTask ty); mret tt
         end
       else mret tt);;
      schedule_each now gen handlers latestTasks
  end.

Definition scheduled_handlers (handlers : list SystemTaskHandler) : list (string * Z * res string) :=
  omap (λ h, match h_schedule h with Some (true, interval, payload) => Some (h_Type h, interval, payload) | _ => None end) handlers.

Definition runSystemTaskScheduler (gen : string → res string) (handlers : list SystemTaskHandler) : prog taskdb unit :=
  now ← clock;
  let scheduled := scheduled_handlers handlers in
  latestTasks ← attempt (GetLatestSystemTasks ((λ h, h.1.1) <$> scheduled));
  match latestTasks with
  | Err _ => mret tt
  | Ok latestTasks => schedule_each now gen scheduled latestTasks
  end.

(** One tick of [runWithLeaseHeartbeat]; an error cancels the handler. *)
Definition lease_heartbeat (taskID runnerID : string) : prog taskdb unit :=
  lockUntil ← systemTaskLockUntil;
  RenewSystemTaskLock taskID runnerID lockUntil.

(** What a node does to the tables, with its result. *)
Inductive task_op :=
  | OpEnqueue (gen : res string) (taskType : string) (payload state : res string)
  | OpSchedule (gen : string → res string) (handlers : list SystemTaskHandler)
  | OpClaimPass (handlers : list SystemTaskHandler) (runnerID : string)
  | OpUpdateState (taskID runnerID : string) (state : res string)
  | OpHeartbeat (taskID runnerID : string)
  | OpFinish (taskID runnerID : string) (ok : bool) (result : res string) (errorMessage : string)
  | OpExpireStale.

(** The tasks the operation dispatched or, for [OpEnqueue], created, each with
    the type it was asked for. *)
Definition op_prog (op : task_op) : prog taskdb (list (string * (Z * SystemTask))) :=
  match op with
  | OpEnqueue gen ty payload state =>
      '(t, created) ← EnqueueSystemTask gen ty payload state;
      mret (if created : bool then [(ty, t)] else [])
  | OpSchedule gen hs => runSystemTaskScheduler gen hs;; mret []
  | OpClaimPass hs runnerID => runSystemTaskClaimPass hs runnerID
  | OpUpdateState taskID runnerID state => UpdateSystemTaskState taskID runnerID state;; mret []
  | OpHeartbeat taskID runnerID => lease_heartbeat taskID runnerID;; mret []
  | OpFinish taskID runnerID ok result errorMessage =>
      FinishSystemTask taskID runnerID (if ok then SystemTaskStatusSucceeded else SystemTaskStatusFailed) result errorMessage;;
      mret []
  | OpExpireStale => now ← clock; ExpireStaleSystemTaskLocks now;; mret []
  end.
