(* ===== verification/TaskLeases.v ===== *)
(** * What the leases of the system tasks guarantee

    Theorems on SystemTask: one active task per type and one direction of
    status changes under every interleaving of nodes, exclusion by a held
    lease, recovery from a crashed runner, and the interleaving that blocks a
    type for ever. *)

From stdpp Require Import sorting.
From S2P Require Import Prelude Interleave SystemTask.
#[local] Open Scope Z_scope.

(** ** Statements *)

Lemma lookup_update_tasks cond set d i :
  system_tasks (update_tasks cond set d).2 !! i = (λ t, if cond i t d then set t else t) <$> system_tasks d !! i.
Proof. unfold update_tasks. cbn. rewrite map_lookup_imap. by destruct (system_tasks d !! i). Qed.

Lemma lookup_update_locks cond set d ty :
  system_task_locks (update_locks cond set d).2 !! ty = (λ l, if cond ty l then set l else l) <$> system_task_locks d !! ty.
Proof. unfold update_locks. cbn. rewrite map_lookup_imap. by destruct (system_task_locks d !! ty). Qed.

Lemma lookup_delete_locks cond d ty l :
  system_task_locks (delete_locks cond d).2 !! ty = Some l ↔ system_task_locks d !! ty = Some l ∧ cond ty l = false.
Proof. unfold delete_locks. cbn. by rewrite map_lookup_filter_Some. Qed.

Lemma task_conflicts_false t d :
  task_conflicts t d = false →
  ∀ i u, system_tasks d !! i = Some u → st_TaskID u ≠ st_TaskID t ∧ (is_Some (st_ActiveKey t) → st_ActiveKey u ≠ st_ActiveKey t).
Proof.
  intros H i u Hu. unfold task_conflicts in H. rewrite <- not_true_iff_false, existsb_exists in H.
  split; [intros E|intros Hs E]; apply H; exists (i, u); (split; [by apply list_elem_of_In, elem_of_map_to_list|]); cbn.
  - by rewrite bool_decide_true.
  - rewrite (bool_decide_true (_ ∧ _)) by done. apply orb_true_r.
Qed.

Lemma elem_of_select cond d e :
  e ∈ select_tasks cond d ↔ system_tasks d !! e.1 = Some e.2 ∧ cond e.2 = true.
Proof.
  unfold select_tasks. destruct e as [i t]. rewrite merge_sort_Permutation, list_elem_of_filter, elem_of_map_to_list. tauto.
Qed.

Lemma no_rows {K V} `{Countable K} (cond : K → V → bool) (m : gmap K V) :
  Z.of_nat (length (filter (λ e, cond e.1 e.2 = true) (map_to_list m))) = 0 ↔ ∀ k v, m !! k = Some v → cond k v = false.
Proof.
  split.
  - intros H0 k v Hk. destruct (cond k v) eqn:E; [|done].
    assert ((k, v) ∈ filter (λ e, cond e.1 e.2 = true) (map_to_list m)) as Hin
      by (apply list_elem_of_filter; split; [done|by apply elem_of_map_to_list]).
    destruct (filter _ _); [by apply not_elem_of_nil in Hin|cbn in H0; lia].
  - intros H0. destruct (filter _ _) as [|[k v] l] eqn:E; [done|].
    assert ((k, v) ∈ filter (λ e, cond e.1 e.2 = true) (map_to_list m)) as Hin by (rewrite E; by left).
    apply list_elem_of_filter in Hin as [Hc Hm%elem_of_map_to_list]. cbn in Hc. by rewrite (H0 _ _ Hm) in Hc.
Qed.

(** ** The invariant of the tables *)

(** At most one row of a type is active, and [active_key] says which. *)
Definition key_of (t : SystemTask) : option string := if task_active t then Some (st_Type t) else None.

Record task_inv (d : taskdb) : Prop := MkTaskInv {
  ti_fresh : ∀ i t, system_tasks d !! i = Some t → i < next_task_id d;
  ti_key : ∀ i t, system_tasks d !! i = Some t → st_ActiveKey t = key_of t;
  ti_taskid : ∀ i j t u, system_tasks d !! i = Some t → system_tasks d !! j = Some u → st_TaskID t = st_TaskID u → i = j;
  ti_active : ∀ i j t u, system_tasks d !! i = Some t → system_tasks d !! j = Some u →
    task_active t = true → task_active u = true → st_Type t = st_Type u → i = j
}.

(** How a row may change: its identity never, its status forwards only, and
    nothing once it is over. *)
Definition status_reaches (s s' : SystemTaskStatus) : bool :=
  match s with
  | SystemTaskStatusPending => true
  | SystemTaskStatusRunning => negb (bool_decide (s' = SystemTaskStatusPending))
  | _ => bool_decide (s = s')
  end.

Definition row_evolves (t t' : SystemTask) : Prop :=
  (st_TaskID t', st_Type t', st_Payload t', st_CreatedAt t') = (st_TaskID t, st_Type t, st_Payload t, st_CreatedAt t) ∧
  status_reaches (st_Status t) (st_Status t') = true ∧ (task_active t = false → t' = t).

Definition rows_evolve (d d' : taskdb) : Prop :=
  ∀ i t, system_tasks d !! i = Some t → ∃ t', system_tasks d' !! i = Some t' ∧ row_evolves t t'.

#[global] Instance row_evolves_refl : Reflexive row_evolves.
Proof. intros t. split_and!; [done| |done]. unfold status_reaches. by destruct (st_Status t). Qed.

#[global] Instance row_evolves_trans : Transitive row_evolves.
Proof.
  intros t u v (E1 & S1 & F1) (E2 & S2 & F2). split_and!.
  - congruence.
  - clear F1 F2 E1 E2. unfold status_reaches in *. destruct (st_Status t), (st_Status u), (st_Status v); done.
  - intros Ht. rewrite (F1 Ht) in *. auto.
Qed.

#[global] Instance rows_evolve_preorder : PreOrder rows_evolve.
Proof.
  split; [intros d i t Ht; by exists t|]. intros d1 d2 d3 H1 H2 i t Ht.
  destruct (H1 i t Ht) as (u & Hu & ?), (H2 i u Hu) as (v & Hv & ?). exists v. split; [done|]. by etrans.
Qed.

(** An update keeps the invariant when each row it changes evolves. *)
Definition fair_update (cond : Z → SystemTask → taskdb → bool) (set : SystemTask → SystemTask) : Prop :=
  ∀ i t d, cond i t d = true → st_ActiveKey t = key_of t →
    row_evolves t (set t) ∧ st_ActiveKey (set t) = key_of (set t) ∧ (task_active (set t) = true → task_active t = true).

Lemma update_tasks_inv cond set d :
  fair_update cond set → task_inv d → task_inv (update_tasks cond set d).2 ∧ rows_evolve d (update_tasks cond set d).2.
Proof.
  intros Hset [Hf Hk Hi Ha].
  assert (∀ i t', system_tasks (update_tasks cond set d).2 !! i = Some t' → ∃ t, system_tasks d !! i = Some t ∧ row_evolves t t' ∧
    st_ActiveKey t' = key_of t' ∧ (task_active t' = true → task_active t = true)) as Hrow.
  { intros i t'. rewrite lookup_update_tasks. destruct (system_tasks d !! i) as [t|] eqn:E; [|done]. cbn. intros [= <-].
    exists t. split; [done|]. destruct (cond i t d) eqn:Ec; [by apply (Hset i _ d); eauto|]. split_and!; [done|by eapply Hk|done]. }
  split.
  - split.
    + intros i t' H. destruct (Hrow _ _ H) as (t & Ht & _). by apply (Hf _ _ Ht).
    + intros i t' H. by destruct (Hrow _ _ H) as (t & Ht & _ & ? & _).
    + intros i j t' u' H1 H2 E. destruct (Hrow _ _ H1) as (t & Ht & [Et _] & _), (Hrow _ _ H2) as (u & Hu & [Eu _] & _).
      apply (Hi i j t u Ht Hu). congruence.
    + intros i j t' u' H1 H2 A1 A2 E.
      destruct (Hrow _ _ H1) as (t & Ht & [Et _] & _ & B1), (Hrow _ _ H2) as (u & Hu & [Eu _] & _ & B2).
      apply (Ha i j t u Ht Hu); auto. congruence.
  - intros i t Ht. destruct (system_tasks (update_tasks cond set d).2 !! i) as [t'|] eqn:E.
    + exists t'. split; [done|]. destruct (Hrow _ _ E) as (t1 & Ht1 & Hev & _). congruence.
    + rewrite lookup_update_tasks, Ht in E. done.
Qed.

Lemma insert_task_inv t d :
  st_ActiveKey t = Some (st_Type t) → task_active t = true →
  task_inv d → task_inv (insert_task t d).2 ∧ rows_evolve d (insert_task t d).2.
Proof.
  intros Hkey Hact [Hf Hk Hi Ha]. unfold insert_task. destruct (task_conflicts t d) eqn:Ec; [split; [done|reflexivity]|].
  pose proof (task_conflicts_false t d Ec) as Hc. rewrite Hkey in Hc.
  assert (system_tasks d !! next_task_id d = None) as Hnone.
  { destruct (system_tasks d !! next_task_id d) eqn:E; [|done]. apply Hf in E. lia. }
  split; cbn.
  - split; cbn.
    + intros i u. rewrite lookup_insert. case_decide; [intros _; lia|]. intros Hu%Hf. lia.
    + intros i u. rewrite lookup_insert. case_decide; [intros [= <-]|by apply Hk]. unfold key_of. by rewrite Hact.
    + intros i j u v. rewrite !lookup_insert. repeat case_decide; subst; try done.
      * intros [= <-] Hv E. by destruct (proj1 (Hc _ _ Hv)).
      * intros Hu [= <-] E. by destruct (proj1 (Hc _ _ Hu)).
      * by apply Hi.
    + intros i j u v. rewrite !lookup_insert. repeat case_decide; subst; try done.
      * intros [= <-] Hv _ Av E. destruct (proj2 (Hc _ _ Hv)); [done|]. rewrite (Hk _ _ Hv). unfold key_of. rewrite Av. congruence.
      * intros Hu [= <-] Au _ E. destruct (proj2 (Hc _ _ Hu)); [done|]. rewrite (Hk _ _ Hu). unfold key_of. rewrite Au. congruence.
      * by apply Ha.
  - intros i u Hu. exists u. split; [|done]. cbn. rewrite lookup_insert_ne; [done|]. intros <-. congruence.
Qed.

(** A statement on the leases does not touch the tasks. *)
Lemma locks_inv d d' :
  system_tasks d' = system_tasks d → next_task_id d' = next_task_id d →
  task_inv d → task_inv d' ∧ rows_evolve d d'.
Proof.
  intros E1 E2 [Hf Hk Hi Ha]. split; [split; rewrite ?E1, ?E2; done|]. intros i t Ht. exists t. by rewrite E1.
Qed.

(** ** Every interleaving keeps it *)

Definition keeps {A} (p : prog taskdb A) : Prop := safe task_inv rows_evolve (λ _, True) (λ _, True) p.

Lemma keeps_bind {A B} (p : prog taskdb A) (k : A → prog taskdb B) : keeps p → (∀ a, keeps (k a)) → keeps (p ≫= k).
Proof. intros Hp Hk. apply (safe_bind _ _ _ (λ _, True) _ _ _ Hp); [intros a _; apply Hk|done]. Qed.
Lemma keeps_attempt {A} (p : prog taskdb A) : keeps p → keeps (attempt p).
Proof. exact (safe_attempt _ _ _ (λ _, True) p). Qed.
Lemma keeps_clock : keeps clock.
Proof. done. Qed.

Lemma keeps_query {A} (f : M taskdb A) :
  (∀ d, task_inv d → task_inv (f d).2 ∧ rows_evolve d (f d).2) → keeps (query f).
Proof. intros Hf. apply safe_query; [|done]. intros d Hd. destruct (Hf d Hd). done. Qed.

Lemma keeps_read {A} (f : taskdb → res A) : keeps (query (λ d, (f d, d))).
Proof. apply safe_read; [apply _|done|done]. Qed.

Lemma keeps_find_task id cond : keeps (query (find_task id cond)).
Proof. apply keeps_query. intros d Hd. unfold find_task. repeat case_match; by apply locks_inv. Qed.
Lemma keeps_find_lock ty : keeps (query (find_lock ty)).
Proof. apply keeps_query. intros d Hd. unfold find_lock. repeat case_match; by apply locks_inv. Qed.
Lemma keeps_insert_lock ty l : keeps (query (insert_lock ty l)).
Proof. apply keeps_query. intros d Hd. unfold insert_lock. repeat case_match; by apply locks_inv. Qed.
Lemma keeps_update_locks cond set : keeps (query (update_locks cond set)).
Proof. apply keeps_query. intros d Hd. by apply locks_inv. Qed.
Lemma keeps_delete_locks cond : keeps (query (delete_locks cond)).
Proof. apply keeps_query. intros d Hd. by apply locks_inv. Qed.

Lemma keeps_update_tasks cond set : fair_update cond set → keeps (query (update_tasks cond set)).
Proof. intros H. apply keeps_query. intros d Hd. by apply update_tasks_inv. Qed.

Create HintDb keeps.
#[export] Hint Resolve keeps_clock keeps_read keeps_find_task keeps_find_lock keeps_insert_lock keeps_update_locks
  keeps_delete_locks : keeps.

(** Split a program into its statements and close those that are known. *)
Ltac keeps_step :=
  match goal with
  | |- keeps (_ ≫= _) => apply keeps_bind; [|intros ?]
  | |- keeps (attempt _) => apply keeps_attempt
  | |- keeps (mret _) => exact I
  | |- keeps (of_res _) => exact I
  | |- keeps (throw _) => exact I
  | |- keeps _ => solve [auto with keeps]
  | |- keeps (match ?x with _ => _ end) => destruct x
  end.
Ltac keeps_auto := repeat keeps_step.

Lemma keeps_create gen ty payload state : keeps (CreateSystemTask gen ty payload state).
Proof. unfold CreateSystemTask. keeps_auto. apply keeps_query. intros d. by apply insert_task_inv. Qed.

Lemma keeps_get_active ty : keeps (GetActiveSystemTask ty).
Proof. apply keeps_read. Qed.
Lemma keeps_earliest tys : keeps (FindEarliestPendingSystemTasks tys).
Proof. unfold FindEarliestPendingSystemTasks. keeps_auto. Qed.
Lemma keeps_latest tys : keeps (GetLatestSystemTasks tys).
Proof. unfold GetLatestSystemTasks. keeps_auto. Qed.

Lemma keeps_release taskID by_ : keeps (ReleaseSystemTaskLock taskID by_).
Proof. unfold ReleaseSystemTaskLock. keeps_auto. Qed.

Lemma keeps_acquire ty taskID by_ now until : keeps (acquireSystemTaskLock ty taskID by_ now until).
Proof. unfold acquireSystemTaskLock. keeps_auto. Qed.

(** A running row that ends. *)
Lemma ending_row t t' :
  is_running t = true → (st_TaskID t', st_Type t', st_Payload t', st_CreatedAt t') = (st_TaskID t, st_Type t, st_Payload t, st_CreatedAt t) →
  task_active t' = false → st_ActiveKey t' = None →
  row_evolves t t' ∧ st_ActiveKey t' = key_of t' ∧ (task_active t' = true → task_active t = true).
Proof.
  unfold is_running. rewrite bool_decide_eq_true. intros Hr E Ha Hk. unfold row_evolves. split_and!; [done|..].
  - rewrite Hr. unfold task_active in Ha. unfold status_reaches. by destruct (st_Status t').
  - intros Hn. unfold task_active in Hn. by rewrite Hr in Hn.
  - unfold key_of. by rewrite Ha.
  - by rewrite Ha.
Qed.

Lemma fair_mark taskID now :
  fair_update (λ _ t _, bool_decide (st_TaskID t = taskID) && is_running t)
    (λ t, t <| st_Status := SystemTaskStatusFailed |> <| st_ActiveKey := None |>
            <| st_Error := "task lease expired" |> <| st_UpdatedAt := now |>).
Proof. intros i t d [_ Hr]%andb_true_iff _. by apply ending_row. Qed.

Lemma fair_claim id ty runner now :
  fair_update (λ i t _, (i =? id) && is_pending ty t)
    (λ t, t <| st_Status := SystemTaskStatusRunning |> <| st_LockedBy := runner |> <| st_UpdatedAt := now |>).
Proof.
  intros i t d [_ [_ Hp]%andb_true_iff]%andb_true_iff Hk.
  apply bool_decide_eq_true in Hp. unfold key_of, task_active in *. rewrite Hp in *. cbn in *. unfold row_evolves.
  split_and!; try done; [by rewrite Hp|]. unfold task_active. by rewrite Hp.
Qed.

(** What [fenced_update] may set. *)
Definition fair_set (set : SystemTask → SystemTask) : Prop :=
  ∀ t, is_running t = true → st_ActiveKey t = key_of t →
    row_evolves t (set t) ∧ st_ActiveKey (set t) = key_of (set t) ∧ (task_active (set t) = true → task_active t = true).

Lemma fair_state text now : fair_set (λ t, t <| st_State := text |> <| st_UpdatedAt := now |>).
Proof.
  intros t Hr Hk. unfold is_running in Hr. apply bool_decide_eq_true in Hr. unfold row_evolves.
  split_and!; try done; [cbn; by rewrite Hr|]. unfold task_active. by rewrite Hr.
Qed.

Lemma fair_finish (ok : bool) text msg now :
  fair_set (λ t, t <| st_Status := if ok then SystemTaskStatusSucceeded else SystemTaskStatusFailed |> <| st_ActiveKey := None |>
                   <| st_Result := text |> <| st_Error := msg |> <| st_UpdatedAt := now |>).
Proof. intros t Hr _. apply ending_row; try done. by destruct ok. Qed.

Definition fenced_cond (taskID lockedBy : string) (now : Z) (i : Z) (t : SystemTask) (d : taskdb) : bool :=
  bool_decide (st_TaskID t = taskID) && is_running t && bool_decide (st_LockedBy t = lockedBy) &&
  lease_exists (st_TaskID t) lockedBy now d.

Lemma fair_fenced taskID by_ now set : fair_set set → fair_update (fenced_cond taskID by_ now) set.
Proof. intros Hset i t d H. unfold fenced_cond in H. rewrite !andb_true_iff in H. apply Hset, H. Qed.

Lemma keeps_mark taskID : keeps (MarkSystemTaskLeaseExpired taskID).
Proof. unfold MarkSystemTaskLeaseExpired. keeps_auto. apply keeps_update_tasks, fair_mark. Qed.

Lemma keeps_fenced taskID by_ now set : fair_set set → keeps (fenced_update taskID by_ now set).
Proof. intros Hset. unfold fenced_update. keeps_auto. by apply keeps_update_tasks, fair_fenced. Qed.

#[export] Hint Resolve keeps_create keeps_get_active keeps_earliest keeps_latest keeps_release keeps_acquire keeps_mark : keeps.

Lemma keeps_claim id ty runner until : keeps (ClaimSystemTask id ty runner until).
Proof. unfold ClaimSystemTask. keeps_auto. apply keeps_update_tasks, fair_claim. Qed.

Lemma keeps_lock_until : keeps systemTaskLockUntil.
Proof. unfold systemTaskLockUntil. keeps_auto. Qed.

Lemma keeps_claim_each hs runner pending : keeps (claim_each hs runner pending).
Proof.
  induction hs as [|h hs IH]; cbn [claim_each]; [done|]. keeps_auto; first [apply keeps_lock_until|apply keeps_claim].
Qed.

Lemma keeps_schedule_each now gen hs latest : keeps (schedule_each now gen hs latest).
Proof. induction hs as [|[[ty interval] payload] hs IH]; cbn [schedule_each]; [done|]. keeps_auto. Qed.

Lemma keeps_expire_each now locks : keeps (expire_each now locks).
Proof. induction locks as [|[ty l] locks IH]; cbn [expire_each]; [done|]. keeps_auto. Qed.

Lemma keeps_update_state taskID runner state : keeps (UpdateSystemTaskState taskID runner state).
Proof. unfold UpdateSystemTaskState. keeps_auto. apply keeps_fenced, fair_state. Qed.

Lemma keeps_finish taskID runner (ok : bool) result msg :
  keeps (FinishSystemTask taskID runner (if ok then SystemTaskStatusSucceeded else SystemTaskStatusFailed) result msg).
Proof. unfold FinishSystemTask. keeps_auto. apply keeps_fenced, fair_finish. Qed.

Lemma keeps_op op : keeps (op_prog op).
Proof.
  destruct op; cbn [op_prog].
  - unfold EnqueueSystemTask. keeps_auto.
  - unfold runSystemTaskScheduler. keeps_auto; apply keeps_schedule_each.
  - unfold runSystemTaskClaimPass. keeps_auto. apply keeps_claim_each.
  - keeps_auto. apply keeps_update_state.
  - unfold lease_heartbeat, RenewSystemTaskLock. keeps_auto; apply keeps_lock_until.
  - keeps_auto. apply keeps_finish.
  - unfold ExpireStaleSystemTaskLocks. keeps_auto. apply keeps_expire_each.
Qed.

(** ** One active task per type *)

Abbreviation task_config := (config taskdb task_op (list (string * (Z * SystemTask)))).

Lemma tasks_keep acts (c : task_config) :
  config_safe task_inv rows_evolve (λ _, True) (λ _ _, True) c →
  config_safe task_inv rows_evolve (λ _, True) (λ _ _, True) (run_actions op_prog acts c) ∧
  rows_evolve (c_db c) (c_db (run_actions op_prog acts c)).
Proof. intros Hc. apply interleaving_safe; [apply _|apply still_safe, _|done|done|]. apply Forall_forall. intros op _. apply keeps_op. Qed.

(** C24: whatever the nodes do at the same time, a type has one active task and
    tasks only move forwards.  Start from tables in which no type has two
    active rows and interleave, statement by statement, any number of
    enqueues, scheduler passes, claims, progress writes, heartbeats,
    completions and clean-ups of any number of nodes, with any statements
    failing and any delays: at every later point there is at most one pending
    or running row per type, a row's status only goes from pending to running
    to succeeded or failed, and a finished row never changes again. *)
Theorem one_active_task_per_type (before after : list (action task_op)) (c : task_config)
    (Hinv : task_inv (c_db c)) (Hprocs : c_procs c = []) :
  let d1 := c_db (run_actions op_prog before c) in
  let d2 := c_db (run_actions op_prog after (run_actions op_prog before c)) in
  (∀ i j t u, system_tasks d2 !! i = Some t → system_tasks d2 !! j = Some u →
     task_active t = true → task_active u = true → st_Type t = st_Type u → i = j) ∧
  rows_evolve d1 d2.
Proof.
  cbv zeta. destruct (tasks_keep before c) as [H1 _]; [split; [done|by rewrite Hprocs]|].
  destruct (tasks_keep after _ H1) as [[H2 _] Hev]. split; [|done]. apply (ti_active _ H2).
Qed.

(** ** A running task behind a lease

    [held] is the lease of the running task [t0], or [None] when no lease
    names it.  Nothing that other processes do touches the row or the lease:
    an update of the row is fenced by a lease that names the task, a lease
    that has not expired is never taken over, and only a pending task becomes
    the task of a lease. *)

Section guarded.
Context (i : Z) (t0 : SystemTask) (held : option SystemTaskLock).
Context (Hrun : is_running t0 = true) (Hheld : ∀ l, held = Some l → lk_TaskID l = st_TaskID t0).

Definition guarded (d : taskdb) : Prop :=
  task_inv d ∧ system_tasks d !! i = Some t0 ∧
  (∀ ty l, system_task_locks d !! ty = Some l → lk_TaskID l = st_TaskID t0 → ty = st_Type t0 ∧ held = Some l) ∧
  (∀ l, held = Some l → system_task_locks d !! st_Type t0 = Some l).

Definition anywhere : relation taskdb := λ _ _, True.
Definition in_lease (z : Z) : Prop := ∀ l, held = Some l → z <= lk_LockedUntil l.

Definition guards {A} (Q : res A → Prop) (p : prog taskdb A) : Prop := safe guarded anywhere in_lease Q p.

Lemma t0_active : task_active t0 = true.
Proof. unfold is_running in Hrun. apply bool_decide_eq_true in Hrun. unfold task_active. by rewrite Hrun. Qed.

Lemma t0_not_pending ty : is_pending ty t0 = false.
Proof. unfold is_running in Hrun. apply bool_decide_eq_true in Hrun. unfold is_pending. rewrite Hrun. apply andb_false_r. Qed.

(** A pending row is not [t0], nor of its type. *)
Lemma pending_row d j t ty :
  guarded d → system_tasks d !! j = Some t → is_pending ty t = true → st_TaskID t ≠ st_TaskID t0 ∧ ty ≠ st_Type t0.
Proof.
  intros ([_ _ Hid Hact] & H0 & _) Ht Hp.
  assert (j ≠ i) as Hne by (intros ->; rewrite H0 in Ht; injection Ht as <-; by rewrite t0_not_pending in Hp).
  unfold is_pending in Hp. apply andb_true_iff in Hp as [Hty%bool_decide_eq_true Hst%bool_decide_eq_true]. split.
  - intros E. by apply Hne, (Hid _ _ _ _ Ht H0).
  - intros E. apply Hne, (Hact _ _ _ _ Ht H0); [|apply t0_active|congruence]. unfold task_active. by rewrite Hst.
Qed.

(** *** Statements *)

Lemma guards_read {A} (Q : res A → Prop) (f : taskdb → res A) :
  (∀ d, guarded d → Q (f d)) → (∀ msg, Q (Err (ErrDriver msg))) → guards Q (query (λ d, (f d, d))).
Proof. intros H1 H2. apply safe_query; [|done]. intros d Hd. cbn. split_and!; auto. done. Qed.

Lemma guards_update_tasks cond set :
  fair_update cond set → (∀ d, guarded d → cond i t0 d = false) → guards (λ _, True) (query (update_tasks cond set)).
Proof.
  intros Hf Hc. apply safe_query; [|done]. intros d Hd. split; [|done]. pose proof (Hc d Hd) as Hi.
  destruct Hd as (Hinv & H0 & H1 & H2). split_and!; [by apply update_tasks_inv| |done|done].
  rewrite lookup_update_tasks, H0. cbn. by rewrite Hi.
Qed.

Lemma guards_insert_task t :
  st_ActiveKey t = Some (st_Type t) → task_active t = true →
  guards (λ r, is_ok r = true → st_Type t ≠ st_Type t0) (query (insert_task t)).
Proof.
  intros Hk Ha. apply safe_query; [|done]. intros d (Hinv & H0 & H1 & H2).
  pose proof (insert_task_inv t d Hk Ha Hinv) as [Hinv' _]. unfold insert_task in *.
  destruct (task_conflicts t d) eqn:Ec; [done|]. cbn in *. split; [|split; [done|]].
  - split; [done|]. split; [|done]. cbn. rewrite lookup_insert_ne; [done|]. pose proof (ti_fresh _ Hinv _ _ H0). lia.
  - intros _ E. destruct (proj2 (task_conflicts_false _ _ Ec _ _ H0)); rewrite Hk; [done|].
    rewrite (ti_key _ Hinv _ _ H0). unfold key_of. rewrite t0_active. congruence.
Qed.

Lemma guards_insert_lock ty l :
  lk_TaskID l ≠ st_TaskID t0 → guards (λ _, True) (query (insert_lock ty l)).
Proof.
  intros Hl. apply safe_query; [|done]. intros d (Hinv & H0 & H1 & H2). unfold insert_lock.
  destruct (system_task_locks d !! ty) as [l'|] eqn:E; [done|]. cbn. split; [|done]. split_and!; cbn.
  - refine (proj1 (locks_inv d _ _ _ Hinv)); done.
  - done.
  - intros ty' l'. rewrite lookup_insert. case_decide; [by intros [= <-]|apply H1].
  - intros l' Hl'. pose proof (H2 _ Hl'). rewrite lookup_insert_ne; [done|]. congruence.
Qed.

Lemma guards_find_lock ty :
  guards (λ r, ∀ l, r = Ok l → lk_TaskID l = st_TaskID t0 → held = Some l) (query (find_lock ty)).
Proof.
  apply safe_query; [|done]. intros d Hd. pose proof Hd as (_ & _ & H1 & _). unfold find_lock.
  destruct (system_task_locks d !! ty) as [l|] eqn:E; (split; [done|]; split; [done|]); cbn; [|done].
  intros l' [= <-] Hl. by apply (H1 ty).
Qed.

Lemma guards_update_locks cond set :
  (∀ ty l, cond ty l = true → lk_TaskID (set l) = st_TaskID t0 → lk_TaskID l = st_TaskID t0) →
  (∀ l, held = Some l → cond (st_Type t0) l = false) → guards (λ _, True) (query (update_locks cond set)).
Proof.
  intros Hs Hc. apply safe_query; [|done]. intros d (Hinv & H0 & H1 & H2). split; [|done]. split_and!.
  - refine (proj1 (locks_inv d _ _ _ Hinv)); done.
  - done.
  - intros ty l'. rewrite lookup_update_locks. destruct (system_task_locks d !! ty) as [l|] eqn:E; [|done]. cbn. intros [= <-] Hl.
    destruct (cond ty l) eqn:Ec; [|by apply H1]. destruct (H1 ty l E (Hs ty l Ec Hl)) as [-> Hh]. by rewrite (Hc l Hh) in Ec.
  - intros l Hh. rewrite lookup_update_locks, (H2 l Hh). cbn. by rewrite (Hc l Hh).
Qed.

Lemma guards_delete_locks cond :
  (∀ l, held = Some l → cond (st_Type t0) l = false) → guards (λ _, True) (query (delete_locks cond)).
Proof.
  intros Hc. apply safe_query; [|done]. intros d (Hinv & H0 & H1 & H2). split; [|done]. split_and!.
  - refine (proj1 (locks_inv d _ _ _ Hinv)); done.
  - done.
  - intros ty l [Hl _]%lookup_delete_locks. by apply H1.
  - intros l Hh. apply lookup_delete_locks. auto.
Qed.

Lemma guards_find_pending id ty :
  guards (λ r, ∀ t, r = Ok t → st_TaskID t ≠ st_TaskID t0 ∧ ty ≠ st_Type t0) (query (find_task id (is_pending ty))).
Proof.
  apply safe_query; [|done]. intros d Hd. unfold find_task.
  destruct (system_tasks d !! id) as [t|] eqn:E; [destruct (is_pending ty t) eqn:Ep|]; split_and!; try done.
  intros t' [= <-]. by apply (pending_row d id t).
Qed.

Lemma guards_find id cond : guards (λ _, True) (query (find_task id cond)).
Proof. apply safe_query; [|done]. intros d Hd. unfold find_task. repeat case_match; done. Qed.

(** *** Programs *)

(** A postcondition on success only. *)
Definition post {A} (φ : A → Prop) (r : res A) : Prop := match r with Ok a => φ a | Err _ => True end.

Lemma guards_bind {A B} (φ : A → Prop) (ψ : B → Prop) p k :
  guards (post φ) p → (∀ a, φ a → guards (post ψ) (k a)) → guards (post ψ) (p ≫= k).
Proof. intros Hp Hk. by apply (safe_bind _ _ _ _ _ _ _ Hp). Qed.

Lemma guards_attempt {A} (φ : A → Prop) p : guards (post φ) p → guards (post (post φ)) (attempt p).
Proof. exact (safe_attempt _ _ _ (post (post φ)) p). Qed.

Lemma guards_weaken {A} (Q Q' : res A → Prop) p : (∀ r, Q r → Q' r) → guards Q p → guards Q' p.
Proof.
  intros HQ. unfold guards. induction p as [r|k IH|X f k IH]; cbn; [auto|auto|]. intros [H1 H2]. split; [|auto].
  intros d Hd. destruct (H1 d Hd) as (? & ? & ?). auto.
Qed.

Lemma guards_any {A} (φ : A → Prop) p : (∀ a, φ a) → guards (λ _, True) p → guards (post φ) p.
Proof. intros H. apply guards_weaken. intros [a|e] _; cbn; auto. Qed.

Lemma guards_then {A B} (ψ : B → Prop) (p : prog taskdb A) k :
  guards (λ _, True) p → (∀ a, guards (post ψ) (k a)) → guards (post ψ) (p ≫= k).
Proof. intros Hp Hk. apply (guards_bind (λ _, True)); [by apply guards_any|auto]. Qed.

Lemma guards_try_then {A B} (ψ : B → Prop) (p : prog taskdb A) k :
  guards (λ _, True) p → (∀ r, guards (post ψ) (k r)) → guards (post ψ) (attempt p ≫= k).
Proof. intros Hp Hk. apply guards_then; [|done]. by apply (safe_attempt _ _ _ (λ _, True)). Qed.

Lemma guards_clock {A} (ψ : A → Prop) k : (∀ z, in_lease z → guards (post ψ) (k z)) → guards (post ψ) (clock ≫= k).
Proof. intros Hk. apply (guards_bind in_lease); [|done]. by intros z. Qed.

Lemma guards_mark taskID : taskID ≠ st_TaskID t0 → guards (post (λ _, True)) (MarkSystemTaskLeaseExpired taskID).
Proof.
  intros Hne. unfold MarkSystemTaskLeaseExpired. apply guards_clock. intros now _. apply guards_then; [|done].
  apply guards_update_tasks; [apply fair_mark|]. intros d _. by rewrite bool_decide_false.
Qed.

Lemma guards_release taskID by_ :
  (∀ l, held = Some l → lk_TaskID l ≠ taskID ∨ lk_LockedBy l ≠ by_) → guards (λ _, True) (ReleaseSystemTaskLock taskID by_).
Proof.
  intros H. apply guards_delete_locks. intros l Hl. destruct (H l Hl); [by rewrite bool_decide_false|].
  rewrite (bool_decide_false (lk_LockedBy l = by_)) by done. apply andb_false_r.
Qed.

Lemma guards_acquire ty taskID by_ now until :
  taskID ≠ st_TaskID t0 → in_lease now →
  guards (post (λ r, r.2 ≠ EmptyString → r.2 ≠ st_TaskID t0)) (acquireSystemTaskLock ty taskID by_ now until).
Proof.
  intros Hne Hin. unfold acquireSystemTaskLock. apply guards_try_then; [by apply guards_insert_lock|].
  intros [[]|e]; [intros Hx; by destruct Hx|].
  apply (guards_bind (post (λ l, lk_TaskID l = st_TaskID t0 → held = Some l))).
  { apply guards_attempt. eapply guards_weaken; [|apply (guards_find_lock ty)]. intros [l|err] H; cbn; auto. }
  intros [l|err] Hl; [|destruct (error_is err ErrRecordNotFound); [intros Hx; by destruct Hx|done]].
  destruct (Z.leb_spec now (lk_LockedUntil l)) as [|Hlate]; [intros Hx; by destruct Hx|]. apply guards_then.
  - apply guards_update_locks; [done|]. intros l0 H0. pose proof (Hin l0 H0).
    rewrite (proj2 (Z.ltb_ge _ _)) by done. apply andb_false_r.
  - intros n. destruct (n =? 0); [intros Hx; by destruct Hx|]. intros _ E. pose proof (Hin l (Hl E)). lia.
Qed.

Lemma guards_claim id ty runner until :
  guards (post (λ o, is_Some o → ty ≠ st_Type t0)) (ClaimSystemTask id ty runner until).
Proof.
  unfold ClaimSystemTask. apply guards_clock. intros now Hnow.
  apply (guards_bind (post (λ t, st_TaskID t ≠ st_TaskID t0 ∧ ty ≠ st_Type t0))).
  { apply guards_attempt. eapply guards_weaken; [|apply (guards_find_pending id ty)]. intros [t|err] H; cbn; auto. }
  intros [t|err] Ht; [|destruct (error_is err ErrRecordNotFound); [by intros [? [=]]|done]]. destruct Ht as [Hid Hty].
  apply (guards_bind _ _ _ _ (guards_acquire ty (st_TaskID t) runner now until Hid Hnow)). intros [acquired expired] Hexp.
  destruct acquired; cbn [negb]; [|by intros [? [=]]].
  assert (∀ l, held = Some l → lk_TaskID l ≠ st_TaskID t ∨ lk_LockedBy l ≠ runner) as Hrel
    by (intros l Hl; left; rewrite (Hheld l Hl); congruence).
  apply (guards_bind (λ _, True)).
  { case_match eqn:E; [|done]. apply andb_true_iff in E as [E%bool_decide_eq_true _]. apply guards_any; [done|].
    apply (safe_attempt _ _ _ (λ _, True)). eapply guards_weaken; [|apply guards_mark, Hexp, E]. done. }
  intros [[]|err] _; [|apply guards_try_then; [by apply guards_release|intros ?; exact I]].
  apply guards_try_then.
  { apply guards_update_tasks; [apply fair_claim|]. intros d _. rewrite t0_not_pending. apply andb_false_r. }
  intros [n|err]; [|apply guards_try_then; [by apply guards_release|intros ?; exact I]].
  destruct (n =? 0); [apply guards_try_then; [by apply guards_release|by intros ? [? [=]]]|].
  apply guards_then; [apply guards_find|]. by intros t' _.
Qed.

Lemma guards_claim_each hs runner pending :
  guards (post (Forall (λ e, e.1 ≠ st_Type t0))) (claim_each hs runner pending).
Proof.
  induction hs as [|h hs IH]; cbn [claim_each]; [by constructor|].
  apply (guards_bind (λ o, is_Some o → h_Type h ≠ st_Type t0)).
  { destruct (pending !! h_Type h) as [[id t]|]; [|by intros [? [=]]].
    apply guards_then; [by intros z _|]. intros lockUntil.
    apply (guards_bind (post (λ o, is_Some o → h_Type h ≠ st_Type t0))).
    - apply guards_attempt, guards_claim.
    - intros [c|e] Hc; [done|by intros [? [=]]]. }
  intros o Ho. apply (guards_bind (Forall (λ e, e.1 ≠ st_Type t0))); [done|]. intros rest Hrest.
  apply Forall_app. split; [|done]. destruct o; constructor; [|done]. cbn. by apply Ho.
Qed.
Lemma guards_create gen ty payload state :
  guards (post (λ _, ty ≠ st_Type t0)) (CreateSystemTask gen ty payload state).
Proof.
  unfold CreateSystemTask. destruct gen as [taskID|e]; [|done]. destruct payload as [p|e]; [|done]. destruct state as [s|e]; [|done].
  apply guards_clock. intros now _. eapply guards_weaken; [|by apply guards_insert_task].
  intros [r|e] H; [by apply H|done].
Qed.

Lemma guards_get_active ty : guards (λ _, True) (GetActiveSystemTask ty).
Proof. by apply guards_read. Qed.

Lemma guards_schedule_each now gen hs latest : guards (post (λ _, True)) (schedule_each now gen hs latest).
Proof.
  induction hs as [|[[ty interval] payload] hs IH]; cbn [schedule_each]; [done|].
  apply guards_then; [|auto]. case_match; [|done]. apply (guards_weaken (post (λ _, True))); [done|].
  apply guards_try_then.
  - eapply guards_weaken; [|apply guards_create]. done.
  - intros [r|e]; [done|]. apply guards_try_then; [apply guards_get_active|done].
Qed.

Lemma guards_expire_each now locks :
  in_lease now → Forall (λ e, lk_TaskID e.2 ≠ st_TaskID t0) locks → guards (post (λ _, True)) (expire_each now locks).
Proof.
  intros Hnow. induction locks as [|[ty l] locks IH]; cbn [expire_each]; [done|]. intros [Hl Hls]%Forall_cons.
  apply (guards_bind (λ _, True)); [by apply guards_mark|]. intros _ _. apply guards_then; [|auto].
  apply guards_delete_locks. intros l0 H0. pose proof (Hnow l0 H0).
  rewrite (proj2 (Z.ltb_ge (lk_LockedUntil l0) now)) by done. apply andb_false_r.
Qed.

Lemma guards_fenced taskID runner now set :
  fair_set set → (∀ l, held = Some l → lk_LockedBy l ≠ runner) → guards (post (λ _, True)) (fenced_update taskID runner now set).
Proof.
  intros Hset Hr. unfold fenced_update. apply guards_then; [|intros n; by destruct (n =? 0)].
  apply (guards_update_tasks (fenced_cond taskID runner now)); [by apply fair_fenced|].
  intros d (_ & _ & H1 & _). unfold fenced_cond. destruct (lease_exists _ _ _ _) eqn:E; [|apply andb_false_r].
  unfold lease_exists in E. apply existsb_exists in E as ([ty l] & Hin & E). cbn in E. rewrite !andb_true_iff in E.
  destruct E as [[Eid%bool_decide_eq_true Eby%bool_decide_eq_true] _].
  apply list_elem_of_In, elem_of_map_to_list in Hin. destruct (H1 ty l Hin Eid) as [_ Hh]. by destruct (Hr l Hh).
Qed.

(** The runner whose lease an operation uses. *)
Definition lease_user (op : task_op) : option string :=
  match op with
  | OpUpdateState _ runnerID _ | OpHeartbeat _ runnerID | OpFinish _ runnerID _ _ _ => Some runnerID
  | _ => None
  end.

Lemma guards_op op :
  (∀ l, held = Some l → lease_user op ≠ Some (lk_LockedBy l)) →
  guards (post (Forall (λ e, e.1 ≠ st_Type t0))) (op_prog op).
Proof.
  intros Hop. destruct op as [gen ty payload state|gen hs|hs runner|taskID runner state|taskID runner|taskID runner ok result msg|];
    cbn [op_prog lease_user] in *.
  - unfold EnqueueSystemTask. apply (guards_bind (λ r, r.2 = true → ty ≠ st_Type t0)).
    + apply guards_then; [apply guards_get_active|]. intros [t|]; [by intros [=]|].
      apply (guards_bind (post (λ _, ty ≠ st_Type t0))); [apply guards_attempt, guards_create|].
      intros [t|e] Ht; [by intros _|]. apply guards_try_then; [apply guards_get_active|]. intros [[t|]|e']; [by intros [=]|done..].
    + intros [t [|]] Ht; constructor; [|done]. by apply Ht.
  - apply (guards_bind (λ _, True)); [|by constructor]. unfold runSystemTaskScheduler. apply guards_clock. intros now _.
    apply guards_try_then; [unfold GetLatestSystemTasks; case_match; [done|by apply guards_read]|].
    intros [latest|e]; [apply guards_schedule_each|done].
  - unfold runSystemTaskClaimPass. apply guards_try_then; [unfold FindEarliestPendingSystemTasks; case_match; [done|by apply guards_read]|].
    intros [pending|e]; [apply guards_claim_each|by constructor].
  - apply (guards_bind (λ _, True)); [|by constructor]. unfold UpdateSystemTaskState. destruct state as [text|e]; [|done].
    apply guards_clock. intros now _. apply guards_fenced; [apply fair_state|]. intros l Hl. specialize (Hop l Hl). congruence.
  - apply (guards_bind (λ _, True)); [|by constructor]. unfold lease_heartbeat. apply guards_then; [by intros z _|].
    intros lockUntil. unfold RenewSystemTaskLock. apply guards_clock. intros now _. apply guards_then; [|intros n; by destruct (n =? 0)].
    apply guards_update_locks; [done|]. intros l Hl. specialize (Hop l Hl).
    rewrite (bool_decide_false (lk_LockedBy l = runner)) by congruence. by rewrite andb_false_r.
  - apply (guards_bind (λ _, True)); [|by constructor]. unfold FinishSystemTask. destruct result as [text|e]; [|done].
    apply guards_clock. intros now _. apply (guards_bind (λ _, True)).
    + apply guards_fenced; [apply fair_finish|]. intros l Hl. specialize (Hop l Hl). congruence.
    + intros _ _. apply guards_any; [done|]. apply guards_release. intros l Hl. right. specialize (Hop l Hl). congruence.
  - apply guards_clock. intros now Hnow. apply (guards_bind (λ _, True)); [|by constructor].
    unfold ExpireStaleSystemTaskLocks. apply (guards_bind (Forall (λ e, lk_TaskID e.2 ≠ st_TaskID t0))).
    + apply guards_read; [|done]. intros d (_ & _ & H1 & _). cbn. apply Forall_forall. intros [ty l] Hin E.
      apply list_elem_of_filter in Hin as [Hl%Z.ltb_lt Hin%elem_of_map_to_list]. cbn in *.
      destruct (H1 ty l Hin E) as [_ Hh]. pose proof (Hnow l Hh). lia.
    + intros locks Hlocks. by apply guards_expire_each.
Qed.
End guarded.

#[global] Instance anywhere_preorder : PreOrder anywhere.
Proof. done. Qed.

(** The rows [fenced_update] asks for. *)
Lemma fenced_update_runs now taskID runner set d i t :
  system_tasks d !! i = Some t → fenced_cond taskID runner now i t d = true →
  run_prog now (fenced_update taskID runner now set) d = (Ok tt, (update_tasks (fenced_cond taskID runner now) set d).2).
Proof.
  intros Ht Hc. unfold fenced_update. rewrite run_prog_bind, run_prog_query. change (λ _ _ _, _) with (fenced_cond taskID runner now).
  unfold update_tasks at 1. cbn.
  destruct (Z.eqb_spec (Z.of_nat (length (filter (λ e, fenced_cond taskID runner now e.1 e.2 d = true) (map_to_list (system_tasks d))))) 0)
    as [E|E]; [|done].
  rewrite (no_rows (λ i t, fenced_cond taskID runner now i t d)) in E. by rewrite (E i t Ht) in Hc.
Qed.

Lemma finish_held now i t0 l0 d ok text msg :
  is_running t0 = true → st_LockedBy t0 = lk_LockedBy l0 → lk_TaskID l0 = st_TaskID t0 → now <= lk_LockedUntil l0 →
  system_tasks d !! i = Some t0 → system_task_locks d !! st_Type t0 = Some l0 →
  ∃ d', run_prog now (op_prog (OpFinish (st_TaskID t0) (lk_LockedBy l0) ok (Ok text) msg)) d = (Ok [], d') ∧
    (st_Status <$> system_tasks d' !! i) = Some (if ok then SystemTaskStatusSucceeded else SystemTaskStatusFailed) ∧
    system_task_locks d' !! st_Type t0 = None.
Proof.
  intros Hrun Hby Hid Hnow Ht Hl. set (cond := fenced_cond (st_TaskID t0) (lk_LockedBy l0) now).
  assert (cond i t0 d = true) as Hc.
  { unfold cond, fenced_cond. rewrite Hrun, Hby, !bool_decide_true by done. cbn. apply existsb_exists. exists (st_Type t0, l0).
    split; [by apply list_elem_of_In, elem_of_map_to_list|]. cbn. rewrite Hid, !bool_decide_true by done. by apply Z.leb_le. }
  set (st := if ok then SystemTaskStatusSucceeded else SystemTaskStatusFailed).
  set (d1 := (update_tasks cond (λ t, t <| st_Status := st |> <| st_ActiveKey := None |> <| st_Result := text |>
                                        <| st_Error := msg |> <| st_UpdatedAt := now |>) d).2).
  set (mine := λ (_ : string) l, bool_decide (lk_TaskID l = st_TaskID t0) && bool_decide (lk_LockedBy l = lk_LockedBy l0)).
  exists (delete_locks mine d1).2. split_and!.
  - cbn [op_prog]. unfold FinishSystemTask. rewrite !run_prog_bind. cbn [run_prog of_res].
    rewrite run_prog_bind. cbn [run_prog clock]. rewrite run_prog_bind, (fenced_update_runs now _ _ _ d i t0 Ht Hc). fold st cond d1.
    unfold ReleaseSystemTaskLock. rewrite run_prog_query. reflexivity.
  - change (system_tasks (delete_locks mine d1).2) with (system_tasks d1). unfold d1. rewrite lookup_update_tasks, Ht. cbn. by rewrite Hc.
  - apply eq_None_not_Some. intros [l H]. apply lookup_delete_locks in H as [H1 H2]. change (system_task_locks d1) with (system_task_locks d) in H1.
    rewrite Hl in H1. injection H1 as <-. unfold mine in H2. rewrite Hid, !bool_decide_true in H2 by done. done.
Qed.

(** C23: a lease excludes every other runner that starts later.  Take a moment
    at which a running task has its lease, the only one that names it, and no
    other call is under way.  From then on, while the lease has not expired, let
    any number of nodes, the owner's own claim loop included, schedule, enqueue,
    claim and clean up, and any runner that is not the owner write progress,
    renew or finish, interleaved statement by statement and failing anywhere:
    the row of the task is untouched, no claim pass dispatches the handler of
    its type, nobody creates a second task of the type, and when the owner then
    finishes, it succeeds and gives the lease back.  A clean-up that was under
    way before is another matter ([late_cleanup_fails_live_task]). *)
Theorem lease_excludes_other_runners (c : task_config) (acts : list (action task_op)) (i : Z) (t0 : SystemTask) (l0 : SystemTaskLock)
    (Hinv : task_inv (c_db c)) (Hprocs : c_procs c = [])
    (Hrow : system_tasks (c_db c) !! i = Some t0) (Hrun : is_running t0 = true) (Hby : st_LockedBy t0 = lk_LockedBy l0)
    (Hlock : system_task_locks (c_db c) !! st_Type t0 = Some l0) (Hid : lk_TaskID l0 = st_TaskID t0)
    (Honly : ∀ ty l, system_task_locks (c_db c) !! ty = Some l → lk_TaskID l = st_TaskID t0 → ty = st_Type t0)
    (Hothers : Forall (λ op, lease_user op ≠ Some (lk_LockedBy l0)) (spawned acts))
    (Htime : c_now (run_actions op_prog acts c) <= lk_LockedUntil l0) :
  let c' := run_actions op_prog acts c in
  system_tasks (c_db c') !! i = Some t0 ∧
  (∀ k op l, c_procs c' !! k = Some (op, Ret (Ok l)) → Forall (λ e, e.1 ≠ st_Type t0) l) ∧
  (∀ ok text msg, ∃ d', run_prog (c_now c') (op_prog (OpFinish (st_TaskID t0) (lk_LockedBy l0) ok (Ok text) msg)) (c_db c') = (Ok [], d') ∧
     (st_Status <$> system_tasks d' !! i) = Some (if ok then SystemTaskStatusSucceeded else SystemTaskStatusFailed) ∧
     system_task_locks d' !! st_Type t0 = None).
Proof.
  cbv zeta. set (c' := run_actions op_prog acts c) in *.
  assert (∀ l, Some l0 = Some l → lk_TaskID l = st_TaskID t0) as Hheld by (by intros l [= <-]).
  destruct (interleaving_safe op_prog (guarded i t0 (Some l0)) anywhere (in_lease (Some l0))
    (λ _, post (Forall (λ e, e.1 ≠ st_Type t0))) (still_safe _ _) acts c) as [Hc' _].
  - split; [|by rewrite Hprocs]. split_and!; [done|done| |by intros l [= <-]].
    intros ty l Hl E. pose proof (Honly ty l Hl E) as ->. split; [done|congruence].
  - intros z Hz l [= <-]. fold c' in Hz. lia.
  - eapply Forall_impl; [exact Hothers|]. intros op Hop. apply guards_op; [done|done|]. by intros l [= <-].
  - fold c' in Hc'. pose proof Hc' as [(_ & H0 & _ & H2) _]. split_and!; [done| |].
    + intros k op l Hk. exact (finished_result _ _ _ _ c' k op (Ok l) Hc' Hk).
    + intros ok text msg. apply finish_held; auto.
Qed.

(** ** A runner that has crashed *)

(** What one round of [expire_each] does. *)
Lemma mark_runs now taskID d :
  run_prog now (MarkSystemTaskLeaseExpired taskID) d =
  (Ok tt, (update_tasks (λ _ t _, bool_decide (st_TaskID t = taskID) && is_running t)
     (λ t, t <| st_Status := SystemTaskStatusFailed |> <| st_ActiveKey := None |>
             <| st_Error := "task lease expired" |> <| st_UpdatedAt := now |>) d).2).
Proof. reflexivity. Qed.

(** The rows of [d'] are those of [d], evolved. *)
Definition rows_from (d d' : taskdb) : Prop :=
  ∀ i t', system_tasks d' !! i = Some t' → ∃ t, system_tasks d !! i = Some t ∧ row_evolves t t'.

Lemma expire_each_runs now locks d :
  task_inv d →
  ∃ d', run_prog now (expire_each now locks) d = (Ok tt, d') ∧ task_inv d' ∧ next_task_id d' = next_task_id d ∧ rows_evolve d d' ∧ rows_from d d' ∧
    (∀ ty, system_task_locks d !! ty = None → system_task_locks d' !! ty = None) ∧
    (∀ ty l, (ty, l) ∈ locks → system_task_locks d !! ty = Some l → lk_LockedUntil l < now → system_task_locks d' !! ty = None) ∧
    (∀ ty l i t, (ty, l) ∈ locks → system_tasks d !! i = Some t → is_running t = true → st_TaskID t = lk_TaskID l →
       (st_Status <$> system_tasks d' !! i) = Some SystemTaskStatusFailed).
Proof.
  revert d. induction locks as [|[ty0 l0] locks IH]; intros d Hinv.
  { exists d. cbn [expire_each]. split_and!; try done; [intros i t' Ht'; by exists t'|..]; intros *; set_solver. }
  cbn [expire_each]. rewrite run_prog_bind, mark_runs. set (cond := λ (_ : Z) t (_ : taskdb), _) at 1. set (fin := λ t : SystemTask, _).
  set (d1 := (update_tasks cond fin d).2). rewrite run_prog_bind, run_prog_query. set (gone := λ (k : string) l, _).
  set (d2 := (delete_locks gone d1).2).
  destruct (update_tasks_inv cond fin d (fair_mark _ _) Hinv) as [Hinv1 Hev1]. fold d1 in Hinv1, Hev1.
  assert (task_inv d2) as Hinv2 by (refine (proj1 (locks_inv d1 d2 _ _ Hinv1)); done).
  destruct (IH d2 Hinv2) as (d' & E & Hinv' & Hnext & Hev & Hfrom & Hnone & Hgone & Hfail). exists d'.
  assert (∀ ty, system_task_locks d !! ty = None → system_task_locks d2 !! ty = None) as Hnone2.
  { intros ty Hn. apply eq_None_not_Some. intros [l [Hl _]%lookup_delete_locks].
    change (system_task_locks d1) with (system_task_locks d) in Hl. congruence. }
  split_and!; [exact E|done|exact Hnext| | | | |].
  - etrans; [exact Hev1|exact Hev].
  - intros i t' Ht'. destruct (Hfrom i t' Ht') as (t1 & Ht1 & Hev2). change (system_tasks d2) with (system_tasks d1) in Ht1.
    unfold d1 in Ht1. rewrite lookup_update_tasks in Ht1. destruct (system_tasks d !! i) as [t|] eqn:Et; [|done]. exists t. split; [done|].
    destruct (Hev1 i t Et) as (t2 & Ht2 & Hev3). unfold d1 in Ht2. rewrite lookup_update_tasks, Et in Ht2. etrans; [exact Hev3|].
    cbn in Ht1, Ht2. congruence.
  - intros ty Hn. auto.
  - intros ty l Hin Hl Hlate. destruct (system_task_locks d2 !! ty) as [l'|] eqn:E2; [|auto].
    pose proof E2 as [E1 Hg]%lookup_delete_locks. change (system_task_locks d1) with (system_task_locks d) in E1.
    rewrite Hl in E1. injection E1 as <-. apply elem_of_cons in Hin as [[= -> ->]|Hin]; [|by apply (Hgone ty l)].
    unfold gone in Hg. rewrite !bool_decide_true in Hg by done. cbn in Hg. apply Z.ltb_ge in Hg. lia.
  - intros ty l i t Hin Ht Hr Eid.
    assert (system_tasks d2 !! i = Some (if cond i t d then fin t else t)) as H2.
    { change (system_tasks d2) with (system_tasks d1). unfold d1. by rewrite lookup_update_tasks, Ht. }
    destruct (cond i t d) eqn:Ec.
    + destruct (Hev i _ H2) as (t' & -> & _ & _ & Hover). cbn. by rewrite Hover.
    + apply elem_of_cons in Hin as [[= -> ->]|Hin]; [|by apply (Hfail ty l i t)].
      unfold cond in Ec. by rewrite bool_decide_true, Hr in Ec.
Qed.

Lemma select_nothing cond d :
  (∀ i t, system_tasks d !! i = Some t → cond t = false) → select_tasks cond d = [].
Proof.
  intros H. destruct (select_tasks cond d) as [|[i t] l] eqn:E; [done|].
  assert ((i, t) ∈ select_tasks cond d) as [Ht Hc]%elem_of_select by (rewrite E; by left). cbn in *. by rewrite (H i t Ht) in Hc.
Qed.

Lemma select_only cond d i t :
  system_tasks d !! i = Some t → cond t = true →
  (∀ j u, system_tasks d !! j = Some u → cond u = true → j = i) → head (select_tasks cond d) = Some (i, t).
Proof.
  intros Ht Hc Hu. assert ((i, t) ∈ select_tasks cond d) as Hin by (by apply elem_of_select).
  destruct (select_tasks cond d) as [|[j u] l] eqn:E; [by apply not_elem_of_nil in Hin|].
  assert ((j, u) ∈ select_tasks cond d) as [Hj Hcu]%elem_of_select by (rewrite E; by left). cbn in *.
  pose proof (Hu j u Hj Hcu) as ->. congruence.
Qed.

(** A type without an active row gets a new task. *)
Lemma enqueue_creates now d ty fresh payload state :
  task_inv d → (∀ i t, system_tasks d !! i = Some t → st_Type t = ty → task_active t = false) →
  (∀ i t, system_tasks d !! i = Some t → st_TaskID t ≠ fresh) →
  let t := MkSystemTask fresh ty SystemTaskStatusPending (Some ty) payload state EmptyString EmptyString EmptyString now now in
  let d' := d <| system_tasks ::= <[next_task_id d := t]> |> <| next_task_id ::= Z.succ |> in
  run_prog now (op_prog (OpEnqueue (Ok fresh) ty (Ok payload) (Ok state))) d = (Ok [(ty, (next_task_id d, t))], d').
Proof.
  intros Hinv Hact Hfresh t d'. cbn [op_prog]. unfold EnqueueSystemTask, GetActiveSystemTask. rewrite !run_prog_bind, run_prog_query.
  rewrite select_nothing; cbn [last].
  2: { intros i u Hu. destruct (bool_decide_reflect (st_Type u = ty)) as [E|]; [cbn; by apply (Hact i)|done]. }
  rewrite run_prog_bind, run_prog_attempt. unfold CreateSystemTask. rewrite !run_prog_bind. cbn [run_prog of_res].
  rewrite !run_prog_bind. cbn [run_prog of_res]. rewrite !run_prog_bind. cbn [run_prog of_res clock].
  rewrite run_prog_bind. cbn [run_prog clock]. rewrite run_prog_query. unfold insert_task. fold t.
  destruct (task_conflicts t d) eqn:Ec; [|reflexivity].
  unfold task_conflicts in Ec. apply existsb_exists in Ec as ([i u] & Hu%list_elem_of_In%elem_of_map_to_list & Ec).
  apply orb_true_iff in Ec as [Ec|Ec]; apply bool_decide_eq_true in Ec; cbn in Ec.
  - by destruct (Hfresh i u Hu).
  - destruct Ec as [_ Ec]. rewrite (ti_key _ Hinv i u Hu) in Ec. unfold key_of in Ec. destruct (task_active u) eqn:Ea; [|done].
    injection Ec as Ec. by rewrite (Hact i u Hu Ec) in Ea.
Qed.

Lemma update_tasks_some cond set d i t :
  system_tasks d !! i = Some t → cond i t d = true → ∃ n, update_tasks cond set d = (Ok n, (update_tasks cond set d).2) ∧ (n =? 0) = false.
Proof.
  intros Ht Hc. eexists. split; [reflexivity|]. apply Z.eqb_neq. intros E. rewrite (no_rows (λ i t, cond i t d)) in E.
  by rewrite (E i t Ht) in Hc.
Qed.

(** A pending task without a lease is claimed. *)
Lemma claim_runs now d ty runner until i t :
  system_tasks d !! i = Some t → is_pending ty t = true → system_task_locks d !! ty = None →
  let t' := t <| st_Status := SystemTaskStatusRunning |> <| st_LockedBy := runner |> <| st_UpdatedAt := now |> in
  ∃ d', run_prog now (ClaimSystemTask i ty runner until) d = (Ok (Some (i, t')), d') ∧ system_tasks d' !! i = Some t' ∧
    system_task_locks d' !! ty = Some (MkSystemTaskLock (st_TaskID t) runner until now).
Proof.
  intros Ht Hp Hl t'. set (lock := MkSystemTaskLock (st_TaskID t) runner until now).
  set (d1 := d <| system_task_locks ::= <[ty := lock]> |>). set (cond := λ i' t (_ : taskdb), (i' =? i) && is_pending ty t).
  set (set := λ t, t <| st_Status := SystemTaskStatusRunning |> <| st_LockedBy := runner |> <| st_UpdatedAt := now |>).
  destruct (update_tasks_some cond set d1 i t Ht) as (n & En & Hn); [unfold cond; cbn; by rewrite Z.eqb_refl|].
  assert (system_tasks (update_tasks cond set d1).2 !! i = Some t') as Hrow.
  { rewrite lookup_update_tasks. change (system_tasks d1) with (system_tasks d). rewrite Ht. unfold cond. cbn. by rewrite Z.eqb_refl, Hp. }
  exists (update_tasks cond set d1).2. split_and!; [|exact Hrow|].
  - unfold ClaimSystemTask. rewrite run_prog_bind. cbn [run_prog clock]. rewrite run_prog_bind, run_prog_attempt, run_prog_query.
    unfold find_task at 1. rewrite Ht, Hp. rewrite run_prog_bind. unfold acquireSystemTaskLock.
    rewrite run_prog_bind, run_prog_attempt, run_prog_query. unfold insert_lock. rewrite Hl. fold lock. fold d1.
    cbn [run_prog mret prog_mret negb]. rewrite run_prog_bind.
    rewrite (bool_decide_false (EmptyString ≠ EmptyString)) by (intros H; by apply H). cbn [andb run_prog mret prog_mret].
    rewrite run_prog_bind, run_prog_attempt, run_prog_query. fold cond set. rewrite En, Hn.
    rewrite run_prog_bind, run_prog_query. unfold find_task. by rewrite Hrow.
  - change (system_task_locks (update_tasks cond set d1).2) with (<[ty := lock]> (system_task_locks d)). apply lookup_insert_eq.
Qed.

Lemma claim_pass_runs now d h runner i t :
  task_inv d → system_tasks d !! i = Some t → is_pending (h_Type h) t = true → system_task_locks d !! h_Type h = None →
  in_i64 (now + systemTaskLockTTL) →
  let t' := t <| st_Status := SystemTaskStatusRunning |> <| st_LockedBy := runner |> <| st_UpdatedAt := now |> in
  ∃ d', run_prog now (op_prog (OpClaimPass [h] runner)) d = (Ok [(h_Type h, (i, t'))], d') ∧ system_tasks d' !! i = Some t' ∧
    system_task_locks d' !! h_Type h = Some (MkSystemTaskLock (st_TaskID t) runner (now + systemTaskLockTTL) now).
Proof.
  intros Hinv Ht Hp Hl Hnow t'. set (ty := h_Type h) in *.
  destruct (claim_runs now d ty runner (now + systemTaskLockTTL) i t Ht Hp Hl) as (d' & E & Hrow & Hlock). exists d'. split; [|done].
  cbn [op_prog]. unfold runSystemTaskClaimPass. rewrite run_prog_bind, run_prog_attempt.
  cbn [FindEarliestPendingSystemTasks fmap list_fmap]. fold ty. rewrite run_prog_query. cbn [omap list_omap].
  rewrite (select_only (is_pending ty) d i t Ht Hp); cbn [fmap option_fmap option_map].
  2: { intros j u Hu Hpu. unfold is_pending in Hp, Hpu. apply andb_true_iff in Hp as [E1%bool_decide_eq_true S1%bool_decide_eq_true].
       apply andb_true_iff in Hpu as [E2%bool_decide_eq_true S2%bool_decide_eq_true].
       apply (ti_active _ Hinv j i u t Hu Ht); [unfold task_active; by rewrite S2|unfold task_active; by rewrite S1|congruence]. }
  cbn [list_to_map foldr]. cbn [claim_each]. fold ty. cbn [fst snd]. rewrite lookup_insert_eq.
  rewrite !run_prog_bind. cbn [run_prog systemTaskLockUntil clock mbind prog_mbind prog_bind mret prog_mret].
  rewrite (i64_id _ Hnow). rewrite run_prog_bind, run_prog_attempt, E. reflexivity.
Qed.

(** A runner that crashes is replaced.  When the lease of a running task
    has expired, one clean-up fails the task and removes the lease, whatever
    other rows there are; the type can then be enqueued again, and the next
    claim pass of any runner dispatches the new task under a lease of its
    own. *)
Theorem crashed_runner_is_replaced (now : Z) (d : taskdb) (i : Z) (t0 : SystemTask) (l0 : SystemTaskLock)
    (h : SystemTaskHandler) (fresh runner payload state : string)
    (Hinv : task_inv d) (Hrow : system_tasks d !! i = Some t0) (Hrun : is_running t0 = true) (Hh : h_Type h = st_Type t0)
    (Hlock : system_task_locks d !! st_Type t0 = Some l0) (Hid : lk_TaskID l0 = st_TaskID t0)
    (Hlate : lk_LockedUntil l0 < now) (Hnow : in_i64 (now + systemTaskLockTTL))
    (Hfresh : ∀ j t, system_tasks d !! j = Some t → st_TaskID t ≠ fresh) :
  ∃ d1 d2 d3 new claimed,
    run_prog now (op_prog OpExpireStale) d = (Ok [], d1) ∧
    (st_Status <$> system_tasks d1 !! i) = Some SystemTaskStatusFailed ∧ system_task_locks d1 !! st_Type t0 = None ∧
    run_prog now (op_prog (OpEnqueue (Ok fresh) (st_Type t0) (Ok payload) (Ok state))) d1 = (Ok [(st_Type t0, new)], d2) ∧
    run_prog now (op_prog (OpClaimPass [h] runner)) d2 = (Ok [(st_Type t0, claimed)], d3) ∧
    claimed.1 = new.1 ∧ st_TaskID claimed.2 = fresh ∧ st_Status claimed.2 = SystemTaskStatusRunning ∧
    system_task_locks d3 !! st_Type t0 = Some (MkSystemTaskLock fresh runner (now + systemTaskLockTTL) now).
Proof.
  set (locks := filter (λ e, (lk_LockedUntil e.2 <? now) = true) (map_to_list (system_task_locks d))).
  assert ((st_Type t0, l0) ∈ locks) as Hin
    by (apply list_elem_of_filter; split; [by apply Z.ltb_lt|by apply elem_of_map_to_list]).
  destruct (expire_each_runs now locks d Hinv) as (d1 & E1 & Hinv1 & _ & _ & Hfrom & _ & Hgone & Hfail).
  pose proof (Hgone _ _ Hin Hlock Hlate) as Hl1. pose proof (Hfail _ _ _ _ Hin Hrow Hrun (eq_sym Hid)) as Hf1.
  assert (∀ j t, system_tasks d1 !! j = Some t → st_Type t = st_Type t0 → task_active t = false) as Hact.
  { intros j t Hj Ety. destruct (task_active t) eqn:Ea; [|done]. destruct (Hfrom j t Hj) as (u & Hu & Eu & _ & Hover).
    assert (j = i) as ->.
    { apply (ti_active _ Hinv j i u t0 Hu Hrow); [|by apply t0_active|congruence].
      destruct (task_active u) eqn:E; [done|]. rewrite (Hover eq_refl) in Ea. congruence. }
    rewrite Hj in Hf1. injection Hf1 as Hf1. unfold task_active in Ea. by rewrite Hf1 in Ea. }
  assert (∀ j t, system_tasks d1 !! j = Some t → st_TaskID t ≠ fresh) as Hfresh1.
  { intros j t Hj. destruct (Hfrom j t Hj) as (u & Hu & Eu & _). pose proof (Hfresh j u Hu). congruence. }
  pose proof (enqueue_creates now d1 (st_Type t0) fresh payload state Hinv1 Hact Hfresh1) as E2. cbv zeta in E2.
  set (new := MkSystemTask fresh _ _ _ _ _ _ _ _ _ _) in E2. set (d2 := d1 <| system_tasks ::= _ |> <| next_task_id ::= _ |>) in E2.
  assert (task_inv d2) as Hinv2.
  { pose proof (safe_alone _ _ _ _ _ now d1 (keeps_op (OpEnqueue (Ok fresh) (st_Type t0) (Ok payload) (Ok state))) I Hinv1) as [H _].
    by rewrite E2 in H. }
  destruct (claim_pass_runs now d2 h runner (next_task_id d1) new) as (d3 & E3 & _ & Hl3); [done|apply lookup_insert_eq| | |done|].
  - unfold is_pending. by rewrite Hh, !bool_decide_true.
  - by rewrite Hh.
  - rewrite Hh in E3, Hl3. exists d1, d2, d3. do 2 eexists. split_and!; [|exact Hf1|exact Hl1|exact E2|exact E3|done..|exact Hl3].
    cbn [op_prog]. rewrite run_prog_bind. cbn [run_prog clock]. rewrite run_prog_bind. unfold ExpireStaleSystemTaskLocks.
    rewrite run_prog_bind, run_prog_query. fold locks. by rewrite E1.
Qed.

(** ** A type that is blocked for ever *)

Definition handler (ty : string) : SystemTaskHandler := MkHandler ty (Some (true, 30, Ok EmptyString)).
Definition sample_task (status : SystemTaskStatus) (runner : string) : SystemTask :=
  MkSystemTask "systask_1" "billing_recovery" status (Some "billing_recovery") EmptyString EmptyString EmptyString EmptyString
    runner 100 100.
Definition pending_config : task_config := MkConfig (MkTaskdb {[1 := sample_task SystemTaskStatusPending EmptyString]} ∅ 2) 100 [].

(** Runner A takes the lease of a pending task and stalls for 61 seconds
    before it marks the task as running; runner B takes the expired lease
    over; A marks the task, B finds it taken and deletes its own lease. *)
Definition stalled_claim : list (action task_op) :=
  let pass runner := Spawn (OpClaimPass [handler "billing_recovery"] runner) in
  pass "A" :: replicate 5 (Step 0) ++ Tick 61 :: pass "B" :: replicate 7 (Step 1) ++ replicate 2 (Step 0) ++ replicate 2 (Step 1).

Lemma one_row_inv i t n :
  i < n → st_ActiveKey t = key_of t → ∀ locks, task_inv (MkTaskdb {[i := t]} locks n).
Proof.
  intros Hn Hk locks. split; cbn.
  - intros j u [<- <-]%lookup_singleton_Some. done.
  - intros j u [<- <-]%lookup_singleton_Some. done.
  - intros j k u v [<- <-]%lookup_singleton_Some [<- <-]%lookup_singleton_Some. done.
  - intros j k u v [<- <-]%lookup_singleton_Some [<- <-]%lookup_singleton_Some. done.
Qed.

(** A claim that stalls longer than its lease blocks its task type for
    ever.  After [stalled_claim] both claim passes have returned, A has
    dispatched the task, and no lease names it.  From then on, whatever any
    nodes do in any interleaving, A's own heartbeats and its completion
    included, the row stays running, and no pass, scheduler or enqueue ever
    dispatches or creates a task of the type again: the clean-up only looks
    for rows that a lease names. *)
Theorem stalled_claim_blocks_type (acts : list (action task_op)) :
  let c := run_actions op_prog stalled_claim pending_config in
  let stuck := sample_task SystemTaskStatusRunning "A" in
  let c' := run_actions op_prog acts (MkConfig (c_db c) (c_now c) []) in
  (snd <$> c_procs c) = [Ret (Ok [("billing_recovery", (1, stuck))]); Ret (Ok [])] ∧
  system_tasks (c_db c') !! 1 = Some stuck ∧
  (∀ k op l, c_procs c' !! k = Some (op, Ret (Ok l)) → Forall (λ e, e.1 ≠ "billing_recovery") l).
Proof.
  intros c stuck c'. split; [by vm_compute|].
  assert (c_db c = MkTaskdb {[1 := stuck]} ∅ 2) as Edb by (by vm_compute).
  destruct (interleaving_safe op_prog (guarded 1 stuck None) anywhere (in_lease None)
    (λ _, post (Forall (λ e, e.1 ≠ st_Type stuck))) (still_safe _ _) acts (MkConfig (c_db c) (c_now c) [])) as [Hc' _].
  - split; [|done]. cbn [c_db]. rewrite Edb. split_and!; [by apply one_row_inv|done|done|done].
  - intros z _ l [=].
  - apply Forall_forall. intros op _. apply guards_op; done.
  - fold c' in Hc'. pose proof Hc' as [(_ & H0 & _) _]. split; [done|].
    intros k op l Hk. exact (finished_result _ _ _ _ c' k op (Ok l) Hc' Hk).
Qed.

(** A clean-up fails a task whose lease is good.  Runner A takes the lease of a
    pending task and stalls; a clean-up lists the expired lease; runner B takes
    it over and dispatches the task; the clean-up then marks the running row as
    failed by its task id alone, while the lease of B has a minute to go. *)
Definition late_cleanup : list (action task_op) :=
  let pass runner := Spawn (OpClaimPass [handler "billing_recovery"] runner) in
  pass "A" :: replicate 5 (Step 0) ++ Tick 61 :: Spawn OpExpireStale :: replicate 2 (Step 1) ++
    pass "B" :: replicate 12 (Step 2) ++ replicate 4 (Step 1).
Lemma late_cleanup_fails_live_task :
  let c := run_actions op_prog late_cleanup pending_config in
  (st_Status <$> system_tasks (c_db c) !! 1) = Some SystemTaskStatusFailed ∧
  system_task_locks (c_db c) !! "billing_recovery" = Some (MkSystemTaskLock "systask_1" "B" 221 161) ∧ c_now c = 161.
Proof. by vm_compute. Qed.

(** ** Witnesses *)

Definition empty_config : task_config := MkConfig (MkTaskdb ∅ ∅ 1) 100 [].

(** Two nodes see no active task and both try to create one. *)
Definition racing_enqueues : list (action task_op) :=
  let enqueue id := Spawn (OpEnqueue (Ok id) "log_cleanup" (Ok EmptyString) (Ok EmptyString)) in
  [enqueue "x"; enqueue "y"; Step 0; Step 1; Step 0; Step 1; Step 0; Step 1; Step 1]%nat.

Lemma one_active_task_per_type_witness :
  let d := c_db (run_actions op_prog racing_enqueues empty_config) in
  (st_TaskID <$> (snd <$> map_to_list (system_tasks d))) = ["x"] ∧
  (∀ i j t u, system_tasks d !! i = Some t → system_tasks d !! j = Some u →
     task_active t = true → task_active u = true → st_Type t = st_Type u → i = j).
Proof.
  intros d. split; [by vm_compute|].
  exact (proj1 (one_active_task_per_type [] racing_enqueues empty_config
    ltac:(split; intros; done) eq_refl)).
Defined.

Definition running_config : task_config :=
  MkConfig (MkTaskdb {[1 := sample_task SystemTaskStatusRunning "A"]}
              {["billing_recovery" := MkSystemTaskLock "systask_1" "A" 160 100]} 2) 120 [].

Lemma lease_excludes_other_runners_witness :
  let acts := [Spawn (OpClaimPass [handler "billing_recovery"] "B"); Spawn OpExpireStale;
               Spawn (OpFinish "systask_1" "B" true (Ok "done") EmptyString); Tick 40;
               Step 0; Step 1; Step 2; Step 1; Step 2]%nat in
  let c' := run_actions op_prog acts running_config in
  c_now c' = 160 ∧ (snd <$> c_procs c') = [Ret (Ok []); Ret (Ok []); Ret (Err ErrSystemTaskLockLost)] ∧
  system_tasks (c_db c') !! 1 = Some (sample_task SystemTaskStatusRunning "A").
Proof.
  intros acts c'. split; [by vm_compute|]. split; [by vm_compute|].
  refine (proj1 (lease_excludes_other_runners running_config acts 1 _ (MkSystemTaskLock "systask_1" "A" 160 100)
    _ eq_refl eq_refl eq_refl eq_refl eq_refl eq_refl _ _ _)).
  - by apply one_row_inv.
  - intros ty l Hl _. cbn in Hl. apply lookup_singleton_Some in Hl as [<- _]. done.
  - repeat constructor; discriminate.
  - by vm_compute.
Defined.

Lemma crashed_runner_is_replaced_witness :
  let d := c_db running_config in
  let d1 := (run_prog 200 (op_prog OpExpireStale) d).2 in
  let enqueue := OpEnqueue (Ok "systask_2") "billing_recovery" (Ok EmptyString) (Ok EmptyString) in
  (st_Status <$> system_tasks d1 !! 1) = Some SystemTaskStatusFailed ∧
  ∃ new, (run_prog 200 (op_prog enqueue) d1).1 = Ok [("billing_recovery", new)].
Proof.
  assert (task_inv (c_db running_config)) as Hinv by (by apply one_row_inv).
  assert (∀ j t, system_tasks (c_db running_config) !! j = Some t → st_TaskID t ≠ "systask_2") as Hfresh.
  { intros j t Hj. cbn in Hj. apply lookup_singleton_Some in Hj as [_ <-]. done. }
  assert (in_i64 (200 + systemTaskLockTTL)) as Hnow by (by vm_compute).
  destruct (crashed_runner_is_replaced 200 (c_db running_config) 1 (sample_task SystemTaskStatusRunning "A")
    (MkSystemTaskLock "systask_1" "A" 160 100) (handler "billing_recovery") "systask_2" "B" EmptyString EmptyString
    Hinv eq_refl eq_refl eq_refl eq_refl eq_refl eq_refl Hnow Hfresh)
    as (e1 & e2 & e3 & new & claimed & E1 & Hf & _ & E2 & _).
  cbv zeta. rewrite E1. cbn [snd]. split; [exact Hf|]. exists new. cbn [st_Type sample_task] in E2. by rewrite E2.
Defined.
