(* ===== verification/UserSession.v ===== *)
(** * Login sessions

    src/model/user_session.go: the server-side rows behind access tokens, and
    the snapshots of them that are cached in Redis.  A session is created,
    rotated, moved to a new security version and revoked; a revocation
    publishes a deny fence before the row changes and a tombstone after, and
    an active snapshot carries a deadline that was taken before the row was
    read.

    Everything is a [prog]: functions of many nodes interleave statement by
    statement.  A statement and its reply are two steps, so that a failure may
    hit before or after the effect.  Times are in nanoseconds; [s_clock] is the
    clock of the nodes and of Redis.  [s_issued], [s_left] and [s_sealed] are
    history: no operation reads them, except that a SID is never issued twice
    (SIDs are random UUIDs).  The cache key of a SID is a digest of it; digests
    of different SIDs are taken to be different. *)

From stdpp Require Import sorting.
From S2P Require Import Prelude GoStrings Interleave.
#[local] Open Scope string_scope.
#[local] Open Scope Z_scope.

(** ** Time *)

Definition second : Z := 1000000000.
Definition millisecond : Z := 1000000.
Definition Unix (t : Z) : Z := t / second.
Definition UnixMilli (t : Z) : Z := t / millisecond.
(** [time.Unix(s, 0)] *)
Definition at_second (s : Z) : Z := s * second.

(** Whether Redis has dropped a key that expires at [when], at [now]
    milliseconds.  What happens at that very millisecond is up to Redis. *)
Class RedisClock := redis_expired : Z → Z → bool.
Class RedisClockLaws `{RedisClock} := {
  redis_keeps : ∀ when now, now < when → redis_expired when now = false;
  redis_drops : ∀ when now, when < now → redis_expired when now = true
}.

(** ** Data *)

Definition UserSessionStatusActive : string := "active".
Definition UserSessionStatusRevoking : string := "revoking".
Definition UserSessionStatusRevoked : string := "revoked".
Definition userSessionCacheSchema : Z := 1.
Definition userSessionListLimit : nat := 100.
Definition userSessionRevokeBatchSize : nat := 500.
Definition userSessionCleanupScanLimit : nat := 1000.
Definition userSessionCleanupBatchSize : nat := 500.

Definition ErrUserSessionInvalid : error := ErrNew "user session is invalid".
Definition ErrUserSessionInactive : error := ErrNew "user session is inactive".
Definition ErrUserSessionRefreshInvalid : error := ErrNew "user session refresh token is invalid".
Definition ErrUserSessionRefreshReuse : error := ErrNew "user session refresh token was reused".
Definition errUserSessionCacheObservationStale : error := ErrNew "user session cache observation is stale".

Record UserSession := MkUserSession {
  us_SID : string; us_UserID : Z; us_Version : Z; us_UserAuthVersion : Z; us_Status : string;
  us_RefreshHash : string; us_PreviousRefreshHash : string; us_PreviousValidUntil : Z;
  us_LoginMethod : string; us_IP : string; us_UserAgent : string;
  us_CreatedAt : Z; us_LastActiveAt : Z; us_ExpiresAt : Z; us_RevokedAt : Z; us_RevokedReason : string
}.
#[global] Instance eta_UserSession : Eta UserSession := λ r,
  MkUserSession (us_SID r) (us_UserID r) (us_Version r) (us_UserAuthVersion r) (us_Status r)
    (us_RefreshHash r) (us_PreviousRefreshHash r) (us_PreviousValidUntil r) (us_LoginMethod r) (us_IP r) (us_UserAgent r)
    (us_CreatedAt r) (us_LastActiveAt r) (us_ExpiresAt r) (us_RevokedAt r) (us_RevokedReason r).
#[global] Instance UserSession_eq_dec : EqDecision UserSession.
Proof. solve_decision. Defined.

Record userSessionCacheEntry := MkEntry {
  ce_SID : string; ce_UserID : Z; ce_Version : Z; ce_UserAuthVersion : Z; ce_Status : string;
  ce_LoginMethod : string; ce_IP : string; ce_UserAgent : string;
  ce_CreatedAt : Z; ce_LastActiveAt : Z; ce_ExpiresAt : Z; ce_RevokedAt : Z; ce_RevokedReason : string; ce_CacheSchema : Z
}.
#[global] Instance eta_userSessionCacheEntry : Eta userSessionCacheEntry := λ r,
  MkEntry (ce_SID r) (ce_UserID r) (ce_Version r) (ce_UserAuthVersion r) (ce_Status r) (ce_LoginMethod r) (ce_IP r)
    (ce_UserAgent r) (ce_CreatedAt r) (ce_LastActiveAt r) (ce_ExpiresAt r) (ce_RevokedAt r) (ce_RevokedReason r)
    (ce_CacheSchema r).

Definition cacheEntry (s : UserSession) : userSessionCacheEntry :=
  MkEntry (us_SID s) (us_UserID s) (us_Version s) (us_UserAuthVersion s) (us_Status s) (us_LoginMethod s) (us_IP s)
    (us_UserAgent s) (us_CreatedAt s) (us_LastActiveAt s) (us_ExpiresAt s) (us_RevokedAt s) (us_RevokedReason s)
    userSessionCacheSchema.
Definition session (e : userSessionCacheEntry) : UserSession :=
  MkUserSession (ce_SID e) (ce_UserID e) (ce_Version e) (ce_UserAuthVersion e) (ce_Status e) "" "" 0 (ce_LoginMethod e) (ce_IP e)
    (ce_UserAgent e) (ce_CreatedAt e) (ce_LastActiveAt e) (ce_ExpiresAt e) (ce_RevokedAt e) (ce_RevokedReason e).

(** [AfterFind] *)
Definition after_find (s : UserSession) : UserSession := s <| us_PreviousRefreshHash ::= TrimSpace |>.

Record cached := MkCached { ca_Entry : userSessionCacheEntry; ca_When : Z }.

Record sdb := MkSdb {
  user_sessions : gmap string UserSession;
  auth_versions : gmap Z Z;
  s_cache : gmap string cached;
  s_clock : Z;
  s_issued : gmap string (Z * Z);
  s_left : gmap string Z;
  s_sealed : gset string
}.
#[global] Instance eta_sdb : Eta sdb := λ d,
  MkSdb (user_sessions d) (auth_versions d) (s_cache d) (s_clock d) (s_issued d) (s_left d) (s_sealed d).

#[global] Instance ticks_sdb : Ticks sdb := λ dt d, d <| s_clock ::= (λ t, t + Z.of_N dt) |>.

(** ** Statements *)

Definition is_active (s : UserSession) : bool := bool_decide (us_Status s = UserSessionStatusActive).
Definition active_in (d : sdb) (sid : string) : bool :=
  match user_sessions d !! sid with Some s => is_active s | None => false end.

(** The history of a statement: expiry and version of every session that was
    ever in the table, and when a session left the state active. *)
Definition note (d d' : sdb) : sdb :=
  d' <| s_issued := ((λ s, (us_ExpiresAt s, us_Version s)) <$> user_sessions d') ∪ s_issued d |>
     <| s_left := s_left d ∪ map_imap (λ sid s, if is_active s && negb (active_in d' sid) then Some (s_clock d) else None)
                             (user_sessions d) |>.

Definition execute {A} (f : M sdb A) : prog sdb A := r ← query f; query (λ d, (Ok tt, d));; mret r.
Definition statement {A} (f : M sdb A) : prog sdb A := execute (λ d, let '(r, d') := f d in (r, note d d')).

Definition first_session (sid : string) (cond : UserSession → bool) : M sdb UserSession := λ d,
  match user_sessions d !! sid with
  | Some s => if cond s then (Ok (after_find s), d) else (Err ErrRecordNotFound, d)
  | None => (Err ErrRecordNotFound, d)
  end.
Definition update_session (sid : string) (cond : UserSession → bool) (set : UserSession → UserSession) : M sdb Z := λ d,
  match user_sessions d !! sid with
  | Some s => if cond s then (Ok 1, d <| user_sessions ::= <[sid := set s]> |>) else (Ok 0, d)
  | None => (Ok 0, d)
  end.
Definition create_session (s : UserSession) : M sdb unit := λ d,
  if decide (is_Some (user_sessions d !! us_SID s) ∨ is_Some (s_issued d !! us_SID s))
  then (Err (ErrNew "duplicate key"), d)
  else (Ok tt, d <| user_sessions ::= <[us_SID s := s]> |>).
Definition count_sessions (cond : UserSession → bool) : M sdb Z := λ d,
  (Ok (Z.of_nat (length (filter (λ p, cond p.2 = true) (map_to_list (user_sessions d))))), d).

Definition revoke_row (now : Z) (reason : string) (s : UserSession) : UserSession :=
  s <| us_Status := UserSessionStatusRevoked |> <| us_RevokedAt := now |> <| us_RevokedReason := reason |>.

Section sessions.
Context `{RedisClock}.

(** ** Redis *)

Definition cache_live (d : sdb) (sid : string) : option userSessionCacheEntry :=
  match s_cache d !! sid with
  | Some c => if redis_expired (ca_When c) (UnixMilli (s_clock d)) then None else Some (ca_Entry c)
  | None => None
  end.

Definition entry_active (e : userSessionCacheEntry) : bool := bool_decide (ce_Status e = UserSessionStatusActive).
Definition entry_denied (e : userSessionCacheEntry) : bool :=
  bool_decide (ce_Status e = UserSessionStatusRevoking) || bool_decide (ce_Status e = UserSessionStatusRevoked).

(** The script of [writeUserSessionCache].  An expiry that is not in the future
    deletes the key. *)
Definition session_script (e : userSessionCacheEntry) (redisExpiration : Z) : M sdb Z := λ d,
  let sid := ce_SID e in
  let current := cache_live d sid in
  let current_version := match current with Some c => ce_Version c | None => 0 end in
  if entry_active e && (match current with Some c => entry_denied c | None => false end) then (Ok 0, d)
  else if ce_Version e <? current_version then (Ok 0, d)
  else
    let now := UnixMilli (s_clock d) in
    let when := if entry_active e then redisExpiration else now + redisExpiration in
    if when <=? now then (Ok 1, d <| s_cache ::= delete sid |>)
    else (Ok 1, d <| s_cache ::= <[sid := MkCached e when]> |>
                  <| s_sealed ::= (λ X, if negb (entry_active e) && bool_decide (is_Some (s_left d !! sid))
                                        then {[sid]} ∪ X else X) |>).

(** [RedisHGetObj] *)
Definition redis_get (sid : string) : M sdb userSessionCacheEntry := λ d,
  (match cache_live d sid with Some e => Ok e | None => Err (ErrNew "key not found in Redis") end, d).

(** ** Options *)

Record session_options := MkSessionOptions {
  RedisEnabled : bool;
  RedisKeyCacheSeconds : Z;
  UserSessionRevokedRetentionDays : Z;
  UserSessionIssuanceWindowSeconds : Z
}.
Context (o : session_options).

(** user_cache.go *)
Definition userCacheTTLSeconds : Z := let ttl := RedisKeyCacheSeconds o in if ttl <=? 0 then 60 else ttl.
Definition cache_ttl : Z := userCacheTTLSeconds * second.
Definition userSessionCacheDeadline : prog sdb Z := now ← clock; mret (now + cache_ttl).

(** ** The cache *)

(** The argument of PEXPIREAT (active) or PEXPIRE (deny).  No deadline is the
    zero time. *)
Definition cache_expiration (entry : userSessionCacheEntry) (cacheDeadline : option Z) (now : Z) : res Z :=
  let sessionExpiresAt := at_second (ce_ExpiresAt entry) in
  let sessionTTL := sessionExpiresAt - now in
  if entry_active entry then
    match cacheDeadline with
    | None => Err ErrUserSessionInvalid
    | Some deadline =>
        if deadline - now <=? 0 then Err errUserSessionCacheObservationStale
        else if sessionTTL <=? 0 then Err ErrUserSessionInactive
        else
          let cacheExpiresAt := if sessionExpiresAt <? deadline then sessionExpiresAt else deadline in
          if cacheExpiresAt - now <? millisecond then Err errUserSessionCacheObservationStale
          else Ok (UnixMilli cacheExpiresAt)
    end
  else
    let ttl := Z.min sessionTTL cache_ttl in
    let ttl := if ttl <=? 0 then second else ttl in
    let redisExpiration := Z.quot ttl millisecond in
    Ok (if redisExpiration <=? 0 then 1 else redisExpiration).

Definition writeUserSessionCache (entry : userSessionCacheEntry) (cacheDeadline : option Z) : prog sdb unit :=
  if negb (RedisEnabled o) then mret tt
  else
    now ← clock;
    redisExpiration ← of_res (cache_expiration entry cacheDeadline now);
    result ← execute (session_script entry redisExpiration);
    if result =? 0 then throw ErrUserSessionInactive
    else
      match entry_active entry, cacheDeadline with
      | true, Some deadline =>
          completedAt ← clock;
          if negb (completedAt <? deadline) then throw errUserSessionCacheObservationStale
          else if negb (completedAt <? at_second (ce_ExpiresAt entry)) then throw ErrUserSessionInactive
          else mret tt
      | _, _ => mret tt
      end.

Definition getUserSessionCache (sid : string) : prog sdb userSessionCacheEntry :=
  entry ← execute (redis_get sid);
  if negb (ce_CacheSchema entry =? userSessionCacheSchema) || negb (bool_decide (ce_SID entry = sid)) ||
     (ce_UserID entry <=? 0) || (ce_Version entry <=? 0) || (ce_UserAuthVersion entry <=? 0)
  then throw (ErrNew "user session cache schema is stale")
  else
    now ← clock;
    if negb (entry_active entry) || negb (ce_RevokedAt entry =? 0) || (ce_ExpiresAt entry <=? Unix now)
    then throw ErrUserSessionInactive
    else mret entry.

Definition confirmUserSessionActiveSnapshot (s : UserSession) : prog sdb unit :=
  if bool_decide (us_SID s = "") || (us_UserID s <=? 0) || (us_Version s <=? 0) || (us_UserAuthVersion s <=? 0)
  then throw ErrUserSessionInvalid
  else
    now ← clock;
    count ← statement (count_sessions (λ r,
      bool_decide (us_SID r = us_SID s) && (us_UserID r =? us_UserID s) && is_active r && (us_RevokedAt r =? 0) &&
      (Unix now <? us_ExpiresAt r) && (us_Version r =? us_Version s) && (us_UserAuthVersion r =? us_UserAuthVersion s)));
    if count =? 1 then mret tt else throw ErrUserSessionInactive.

Definition writeUserSessionDenyFence (s : UserSession) (status : string) (now : Z) (reason : string) : prog sdb unit :=
  if negb (RedisEnabled o) then mret tt
  else writeUserSessionCache
         (cacheEntry s <| ce_Status := status |> <| ce_RevokedAt := now |> <| ce_RevokedReason := reason |>) None.

(** [common.SysLog] of an error that is not returned. *)
Definition logged (p : prog sdb unit) : prog sdb unit := attempt p;; mret tt.

(** An active snapshot is published.  A stale observation is checked against
    the row; what else is returned depends on the caller. *)
Definition publish_active (s : UserSession) (cacheDeadline : Z) (returned : error → bool) : prog sdb unit :=
  r ← attempt (writeUserSessionCache (cacheEntry s) (Some cacheDeadline));
  match r with
  | Ok _ => mret tt
  | Err e =>
      if error_is e errUserSessionCacheObservationStale then confirmUserSessionActiveSnapshot s
      else if returned e then throw e
      else mret tt
  end.
Definition only_inactive (e : error) : bool := error_is e ErrUserSessionInactive.

(** ** Creating and reading *)

Definition CreateUserSession (s : UserSession) : prog sdb UserSession :=
  now ← clock;
  if bool_decide (us_SID s = "") || (us_UserID s <=? 0) || (us_UserAuthVersion s <=? 0) ||
     bool_decide (us_RefreshHash s = "") || (us_ExpiresAt s <=? Unix now)
  then throw ErrUserSessionInvalid
  else
    let s := if us_Version s <=? 0 then s <| us_Version := 1 |> else s in
    let s := if bool_decide (us_Status s = "") then s <| us_Status := UserSessionStatusActive |> else s in
    if negb (is_active s) || negb (us_RevokedAt s =? 0) then throw ErrUserSessionInvalid
    else
      let s := if us_LastActiveAt s =? 0 then s <| us_LastActiveAt := Unix now |> else s in
      let s := if us_CreatedAt s =? 0 then s <| us_CreatedAt := Unix now |> else s in
      cacheDeadline ← userSessionCacheDeadline;
      statement (create_session s);;
      publish_active s cacheDeadline only_inactive;;
      mret s.

(** A time that was not given. *)
Definition or_now (now : Z) : prog sdb Z := if now <=? 0 then z ← clock; mret (Unix z) else mret now.

Definition CountActiveUserSessions (userID now : Z) : prog sdb Z :=
  if userID <=? 0 then throw ErrUserSessionInvalid
  else
    now ← or_now now;
    statement (count_sessions (λ s, (us_UserID s =? userID) && is_active s && (now <? us_ExpiresAt s))).

Definition CountUserSessionsCreatedSince (userID createdAfter : Z) : prog sdb Z :=
  if (userID <? 0) || (createdAfter <=? 0) then throw ErrUserSessionInvalid
  else statement (count_sessions (λ s,
         (createdAfter <? us_CreatedAt s) && (if 0 <? userID then us_UserID s =? userID else true))).

Definition GetUserSessionBySID (sid : string) : prog sdb UserSession :=
  if bool_decide (sid = "") then throw ErrUserSessionInvalid
  else statement (first_session sid (λ _, true)).

Definition GetUserSessionCached (sid : string) : prog sdb UserSession :=
  if bool_decide (sid = "") then throw ErrUserSessionInvalid
  else
    cached ← (if RedisEnabled o then attempt (getUserSessionCache sid) else mret (Err ErrRecordNotFound));
    match cached with
    | Ok entry => mret (session entry)
    | Err e =>
        if RedisEnabled o && error_is e ErrUserSessionInactive then throw e
        else
          cacheDeadline ← userSessionCacheDeadline;
          s ← GetUserSessionBySID sid;
          now ← clock;
          if negb (is_active s) || negb (us_RevokedAt s =? 0) || (us_ExpiresAt s <=? Unix now) then
            (if RedisEnabled o
             then logged (writeUserSessionCache (cacheEntry s <| ce_Status := UserSessionStatusRevoked |>) None)
             else mret tt);;
            throw ErrUserSessionInactive
          else
            (if RedisEnabled o then publish_active s cacheDeadline only_inactive else mret tt);;
            mret s
    end.

(** [ORDER BY last_active_at DESC, created_at DESC] *)
Definition recent_first (a b : UserSession) : Prop :=
  us_LastActiveAt b < us_LastActiveAt a ∨ us_LastActiveAt a = us_LastActiveAt b ∧ us_CreatedAt b <= us_CreatedAt a.
#[global] Instance recent_first_dec : RelDecision recent_first.
Proof. intros a b. unfold recent_first. apply _. Defined.
Definition select_sessions (cond : UserSession → bool) (d : sdb) : list UserSession :=
  filter (λ s, cond s = true) (map_to_list (user_sessions d)).*2.

Definition find_sessions (limit : nat) (cond : UserSession → bool) : M sdb (list UserSession) := λ d,
  (Ok (after_find <$> take limit (merge_sort recent_first (select_sessions cond d))), d).
Definition auth_version (userID : Z) : M sdb Z := λ d, (Ok (default 0 (auth_versions d !! userID)), d).

Definition live_session (userID authVersion now : Z) (s : UserSession) : bool :=
  (us_UserID s =? userID) && (us_UserAuthVersion s =? authVersion) && is_active s && (now <? us_ExpiresAt s).

Definition ListActiveUserSessions (userID : Z) (currentSID : string) (now : Z) : prog sdb (list UserSession) :=
  if userID <=? 0 then throw ErrUserSessionInvalid
  else
    now ← or_now now;
    authVersion ← statement (auth_version userID);
    if authVersion <=? 0 then throw ErrUserSessionInvalid
    else
      current ← (if bool_decide (currentSID = "") then mret []
                 else statement (find_sessions 1 (λ s, live_session userID authVersion now s && bool_decide (us_SID s = currentSID))));
      others ← statement (find_sessions (userSessionListLimit - length current) (λ s,
                 live_session userID authVersion now s &&
                 (bool_decide (currentSID = "") || negb (bool_decide (us_SID s = currentSID)))));
      mret (current ++ others)%list.

(** ** Rotating the refresh token *)

(** [return &session, ErrUserSessionRefreshRace] carries the session too. *)
Inductive rotation :=
  | Rotated (s : UserSession)
  | RefreshRace (s : UserSession).

(** [hmac.Equal] *)
Definition hash_eq (a b : string) : bool := bool_decide (a = b).

Definition rotate_row (presentedHash nextHash : string) (validUntil now : Z) (s : UserSession) : UserSession :=
  s <| us_PreviousRefreshHash := presentedHash |> <| us_PreviousValidUntil := validUntil |>
    <| us_RefreshHash := nextHash |> <| us_LastActiveAt := now |>.

(** A known previous token outside its grace window: the family is revoked. *)
Definition revoke_reused (userID : Z) (sid : string) (now : Z) (s : UserSession) : prog sdb rotation :=
  writeUserSessionDenyFence s UserSessionStatusRevoking now "refresh_reuse";;
  n ← statement (update_session sid (λ r, (us_UserID r =? userID) && is_active r && (us_RevokedAt r =? 0) && (now <? us_ExpiresAt r))
                   (revoke_row now "refresh_reuse"));
  if n =? 0 then throw ErrUserSessionInactive
  else
    logged (writeUserSessionCache (cacheEntry (revoke_row now "refresh_reuse" s)) None);;
    throw ErrUserSessionRefreshReuse.

Fixpoint rotate_loop (tries : nat) (userID : Z) (sid presentedHash nextHash : string) (now graceSeconds : Z)
    : prog sdb rotation :=
  match tries with
  | O => throw ErrUserSessionRefreshInvalid
  | S tries =>
      cacheDeadline ← userSessionCacheDeadline;
      s ← statement (first_session sid (λ r, us_UserID r =? userID));
      if negb (is_active s) || negb (us_RevokedAt s =? 0) || (us_ExpiresAt s <=? now) then throw ErrUserSessionInactive
      else if hash_eq (us_RefreshHash s) presentedHash then
        let validUntil := i64 (now + graceSeconds) in
        n ← statement (update_session sid (λ r,
              (us_UserID r =? userID) && is_active r && (us_RevokedAt r =? 0) && (now <? us_ExpiresAt r) &&
              bool_decide (us_RefreshHash r = presentedHash))
              (rotate_row (us_RefreshHash s) nextHash validUntil now));
        if n =? 0 then rotate_loop tries userID sid presentedHash nextHash now graceSeconds
        else
          let s := rotate_row (us_RefreshHash s) nextHash validUntil now s in
          publish_active s cacheDeadline only_inactive;;
          mret (Rotated s)
      else if bool_decide (us_PreviousRefreshHash s = "") || negb (hash_eq (us_PreviousRefreshHash s) presentedHash)
      then throw ErrUserSessionRefreshInvalid
      else if now <=? us_PreviousValidUntil s then mret (RefreshRace s)
      else revoke_reused userID sid now s
  end.

Definition RotateUserSessionRefresh (userID : Z) (sid presentedHash nextHash : string) (now grace : Z) : prog sdb rotation :=
  if (userID <=? 0) || bool_decide (sid = "") || bool_decide (presentedHash = "") || bool_decide (nextHash = "") ||
     hash_eq presentedHash nextHash
  then throw ErrUserSessionInvalid
  else
    now ← or_now now;
    let graceSeconds := Z.quot grace second in
    if graceSeconds <? 0 then throw ErrUserSessionInvalid
    else rotate_loop 3 userID sid presentedHash nextHash now graceSeconds.

(** ** Revoking *)

Definition session_over (now : Z) (s : UserSession) : bool :=
  negb (is_active s) || negb (us_RevokedAt s =? 0) || (us_ExpiresAt s <=? now).

(** The transaction of [RevokeUserSession]; whether a row was revoked. *)
Definition revoke_tx (userID : Z) (sid : string) (now : Z) (reason : string) : M sdb bool :=
  current ← first_session sid (λ r, us_UserID r =? userID);
  if session_over now current then mret false
  else n ← update_session sid is_active (revoke_row now reason); mret (n =? 1).

Definition RevokeUserSession (userID : Z) (sid reason : string) : prog sdb bool :=
  if (userID <=? 0) || bool_decide (sid = "") then throw ErrUserSessionInvalid
  else
    now ← clock;
    let now := Unix now in
    r ← attempt (statement (first_session sid (λ r, us_UserID r =? userID)));
    match r with
    | Err e => if error_is e ErrRecordNotFound then mret false else throw e
    | Ok candidate =>
        if session_over now candidate then mret false
        else
          writeUserSessionDenyFence candidate UserSessionStatusRevoking now reason;;
          revoked ← statement (revoke_tx userID sid now reason);
          (if revoked : bool then logged (writeUserSessionCache (cacheEntry (revoke_row now reason candidate)) None)
           else mret tt);;
          mret revoked
    end.

(** The row is locked while the fence is published, where the database locks
    rows; here it may change in between. *)
Definition RevokeUserSessionByRefreshHash (sid presentedHash reason : string) : prog sdb bool :=
  if bool_decide (sid = "") || bool_decide (presentedHash = "") then throw ErrUserSessionInvalid
  else
    now ← clock;
    let now := Unix now in
    r ← attempt (statement (first_session sid (λ _, true)));
    match r with
    | Err e => if error_is e ErrRecordNotFound then mret false else throw e
    | Ok s =>
        let validCurrent := hash_eq (us_RefreshHash s) presentedHash in
        let validPrevious := negb (bool_decide (us_PreviousRefreshHash s = "")) && (now <=? us_PreviousValidUntil s) &&
                             hash_eq (us_PreviousRefreshHash s) presentedHash in
        if session_over now s then mret false
        else if negb validCurrent && negb validPrevious then mret false
        else
          writeUserSessionDenyFence s UserSessionStatusRevoking now reason;;
          n ← statement (update_session sid is_active (revoke_row now reason));
          (if n =? 1 then logged (writeUserSessionCache (cacheEntry (revoke_row now reason s)) None) else mret tt);;
          mret (n =? 1)
    end.

(** The transaction of [AdvanceUserSessionAuthVersion]. *)
Definition advance_tx (userID : Z) (sid : string) (now expectedSessionVersion expectedUserAuthVersion nextUserAuthVersion : Z)
    : M sdb UserSession :=
  s ← first_session sid (λ r, us_UserID r =? userID);
  if negb (is_active s) || (us_ExpiresAt s <=? now) || negb (us_Version s =? expectedSessionVersion) ||
     negb (us_UserAuthVersion s =? expectedUserAuthVersion)
  then fail ErrUserSessionInactive
  else
    let advance r := r <| us_Version := i64 (us_Version s + 1) |> <| us_UserAuthVersion := nextUserAuthVersion |>
                       <| us_LastActiveAt := now |> in
    n ← update_session sid (λ r, is_active r && (us_Version r =? expectedSessionVersion) &&
                                 (us_UserAuthVersion r =? expectedUserAuthVersion)) advance;
    if n =? 1 then mret (advance s) else fail ErrUserSessionInactive.

Definition AdvanceUserSessionAuthVersion (userID : Z) (sid : string)
    (expectedSessionVersion expectedUserAuthVersion nextUserAuthVersion : Z) : prog sdb UserSession :=
  if (userID <=? 0) || bool_decide (sid = "") || (expectedSessionVersion <=? 0) || (expectedUserAuthVersion <=? 0) ||
     (nextUserAuthVersion <=? expectedUserAuthVersion)
  then throw ErrUserSessionInvalid
  else
    cacheDeadline ← userSessionCacheDeadline;
    now ← clock;
    s ← statement (advance_tx userID sid (Unix now) expectedSessionVersion expectedUserAuthVersion nextUserAuthVersion);
    publish_active s cacheDeadline (λ _, true);;
    mret s.

(** ** Revoking many *)

(** A loop that has used up its bound: it is still running. *)
Definition still_running : error := ErrNew "still running".

Definition by_sid (a b : UserSession) : Prop := String.leb (us_SID a) (us_SID b) = true.
#[global] Instance by_sid_dec : RelDecision by_sid.
Proof. intros a b. unfold by_sid. apply _. Defined.

Definition revocable (userID : Z) (excludedSID : string) (now : Z) (s : UserSession) : bool :=
  (us_UserID s =? userID) && is_active s && (now <? us_ExpiresAt s) &&
  (bool_decide (excludedSID = "") || negb (bool_decide (us_SID s = excludedSID))).
Definition revoke_candidates (userID : Z) (excludedSID : string) (now : Z) : M sdb (list UserSession) := λ d,
  (Ok (after_find <$> take userSessionRevokeBatchSize (merge_sort by_sid (select_sessions (revocable userID excludedSID now) d))), d).

(** The transaction of a batch: the rows that were still active. *)
Definition revoke_batch_tx (sids : list string) (now : Z) (reason : string) : M sdb (list UserSession) := λ d,
  let hit s := bool_decide (us_SID s ∈ sids) && is_active s in
  (Ok (after_find <$> select_sessions hit d),
   d <| user_sessions ::= fmap (λ s, if hit s then revoke_row now reason s else s) |>).

Fixpoint each {A} (f : A → prog sdb unit) (l : list A) : prog sdb unit :=
  match l with [] => mret tt | a :: l => f a;; each f l end.

(** The number of rows, and the error that stopped the loop. *)
Fixpoint revoke_loop (fuel : nat) (userID : Z) (excludedSID : string) (now : Z) (reason : string) (totalAffected : Z)
    : prog sdb (Z * option error) :=
  match fuel with
  | O => throw still_running
  | S fuel =>
      r ← attempt (statement (revoke_candidates userID excludedSID now));
      match r with
      | Err e => mret (totalAffected, Some e)
      | Ok [] => mret (totalAffected, None)
      | Ok candidates =>
          r ← attempt (each (λ s, writeUserSessionDenyFence s UserSessionStatusRevoking now reason) candidates);
          match r with
          | Err e => mret (totalAffected, Some e)
          | Ok _ =>
              r ← attempt (statement (revoke_batch_tx (us_SID <$> candidates) now reason));
              match r with
              | Err e => mret (totalAffected, Some e)
              | Ok revoked =>
                  each (λ s, logged (writeUserSessionCache (cacheEntry (revoke_row now reason s)) None)) revoked;;
                  revoke_loop fuel userID excludedSID now reason (i64 (totalAffected + Z.of_nat (length revoked)))
              end
          end
      end
  end.

Definition revokeUserSessions (fuel : nat) (userID : Z) (excludedSID reason : string) : prog sdb (Z * option error) :=
  if userID <=? 0 then mret (0, Some ErrUserSessionInvalid)
  else now ← clock; revoke_loop fuel userID excludedSID (Unix now) reason 0.
Definition RevokeOtherUserSessions (fuel : nat) (userID : Z) (currentSID reason : string) := revokeUserSessions fuel userID currentSID reason.
Definition RevokeAllUserSessions (fuel : nat) (userID : Z) (reason : string) := revokeUserSessions fuel userID "" reason.

(** ** Cleaning up *)

Definition expired_row (expiredBefore issuanceCutoff revokedBefore : Z) (s : UserSession) : bool :=
  (us_ExpiresAt s <? expiredBefore) && (us_CreatedAt s <=? issuanceCutoff) &&
  (negb (bool_decide (us_Status s = UserSessionStatusRevoked)) || (us_RevokedAt s <=? 0) || (us_RevokedAt s <? revokedBefore)).
Definition old_revoked_row (revokedBefore issuanceCutoff : Z) (s : UserSession) : bool :=
  bool_decide (us_Status s = UserSessionStatusRevoked) && (0 <? us_RevokedAt s) && (us_RevokedAt s <? revokedBefore) &&
  (us_CreatedAt s <=? issuanceCutoff).

Definition below (key : UserSession → Z) (a b : UserSession) : Prop := key a <= key b.
#[global] Instance below_dec key : RelDecision (below key).
Proof. intros a b. unfold below. apply _. Defined.

Definition pluck_sids (cond : UserSession → bool) (key : UserSession → Z) : M sdb (list string) := λ d,
  (Ok (us_SID <$> take userSessionCleanupScanLimit (merge_sort (below key) (select_sessions cond d))), d).
Definition delete_sessions (sids : list string) (cond : UserSession → bool) : M sdb unit := λ d,
  (Ok tt, d <| user_sessions := filter (λ p, (bool_decide (us_SID p.2 ∈ sids) && cond p.2) = false) (user_sessions d) |>).

(** [for start := 0; start < len(sids); start += n] *)
Fixpoint chunks (fuel n : nat) (l : list string) : list (list string) :=
  match fuel, l with
  | O, _ | _, [] => []
  | S fuel, _ => take n l :: chunks fuel n (drop n l)
  end.

Fixpoint cleanup_loop (fuel : nat) (cond : UserSession → bool) (key : UserSession → Z) : prog sdb unit :=
  match fuel with
  | O => throw still_running
  | S fuel =>
      sids ← statement (pluck_sids cond key);
      match sids with
      | [] => mret tt
      | _ =>
          each (λ batch, statement (delete_sessions batch cond)) (chunks (length sids) userSessionCleanupBatchSize sids);;
          cleanup_loop fuel cond key
      end
  end.

Definition deleteExpiredUserSessionsBefore (fuel : nat) (expiredBefore issuanceCutoff revokedBefore : Z) : prog sdb unit :=
  cleanup_loop fuel (expired_row expiredBefore issuanceCutoff revokedBefore) us_ExpiresAt.
Definition deleteRevokedUserSessionsBefore (fuel : nat) (revokedBefore issuanceCutoff : Z) : prog sdb unit :=
  cleanup_loop fuel (old_revoked_row revokedBefore issuanceCutoff) us_RevokedAt.

(** The cutoffs of both; [k] is the deletion. *)
Definition with_cutoffs (now : Z) (k : Z → Z → Z → prog sdb unit) : prog sdb unit :=
  now ← or_now now;
  if (UserSessionRevokedRetentionDays o <=? 0) || (UserSessionIssuanceWindowSeconds o <=? 0) then throw ErrUserSessionInvalid
  else k now (i64 (now - UserSessionIssuanceWindowSeconds o)) (i64 (now - i64 (UserSessionRevokedRetentionDays o * 24 * 60 * 60))).
Definition DeleteExpiredUserSessions (fuel : nat) (now : Z) : prog sdb unit :=
  with_cutoffs now (λ now issuanceCutoff revokedBefore, deleteExpiredUserSessionsBefore fuel now issuanceCutoff revokedBefore).
Definition DeleteOldRevokedUserSessions (fuel : nat) (now : Z) : prog sdb unit :=
  with_cutoffs now (λ _ issuanceCutoff revokedBefore, deleteRevokedUserSessionsBefore fuel revokedBefore issuanceCutoff).
End sessions.
