(* ===== verification/SessionFence.v ===== *)
(** * What the fences of login sessions guarantee

    Theorems on UserSession, for every interleaving of its operations and of
    failures before or after any statement: a cached snapshot of a revoked
    session dies with the cache window, a published tombstone is not undone by
    a delayed fill, a refresh token is rotated once, and a mass revocation and
    the clean-up reach their end. *)

From stdpp Require Import sorting.
From S2P Require Import Prelude GoStrings Interleave UserSession.
#[local] Open Scope string_scope.
#[local] Open Scope Z_scope.

Ltac ms := unfold UnixMilli, Unix, at_second, millisecond, second in *; Z.to_euclidean_division_equations; lia.

(** ** The invariant *)

(** When a session left the state active; now, as long as it has not. *)
Definition leave (d : sdb) (sid : string) : Z := default (s_clock d) (s_left d !! sid).
(** A session that expires at [e] was issued and has reached version [v]. *)
Definition known (d : sdb) (sid : string) (e v : Z) : Prop := ∃ v', s_issued d !! sid = Some (e, v') ∧ v <= v'.

(** How operations and time move the data. *)
Record sessions_move (d d' : sdb) : Prop := {
  g_clock : s_clock d <= s_clock d';
  g_leave : ∀ sid, leave d sid <= leave d' sid;
  g_left : ∀ sid t, s_left d !! sid = Some t → s_left d' !! sid = Some t;
  g_known : ∀ sid e v, known d sid e v → known d' sid e v;
  g_sealed : s_sealed d ⊆ s_sealed d'
}.
#[global] Instance sessions_move_preorder : PreOrder sessions_move.
Proof.
  split; [by split|]. intros d1 d2 d3 [A1 A2 A3 A4 A5] [B1 B2 B3 B4 B5].
  split; [lia|intros sid; specialize (A2 sid); specialize (B2 sid); lia|auto|auto|set_solver].
Qed.

Lemma union_None {A} (x : option A) : None ∪ x = x.
Proof. by destruct x. Qed.

Section fence.
Context `{RedisClockLaws} (o : session_options).
Let TTL : Z := cache_ttl o.
Let TTLms : Z := userCacheTTLSeconds o * 1000.

Lemma ttl_pos : 0 < userCacheTTLSeconds o.
Proof. unfold userCacheTTLSeconds. destruct (_ <=? 0) eqn:E; [lia|]. apply Z.leb_gt in E. lia. Qed.
Lemma ttl_ms : TTL = TTLms * millisecond.
Proof. unfold TTL, TTLms, cache_ttl, millisecond, second. lia. Qed.

(** A session that left at [t] and expires at second [e] is sealed: up to a
    millisecond before it expires, no active snapshot is cached, and a deny
    entry stays until every snapshot of the row is out of date. *)
Definition tombed (d : sdb) (sid : string) (t e : Z) : Prop :=
  e * 1000 - 1 <= UnixMilli (s_clock d) ∨
  (∀ c, s_cache d !! sid = Some c → entry_active (ca_Entry c) = false) ∧
  (UnixMilli t + TTLms <= UnixMilli (s_clock d) ∨
   ∃ c, s_cache d !! sid = Some c ∧ Z.min (UnixMilli t + TTLms) (e * 1000 - 1) <= ca_When c).

Record sessions_ok (d : sdb) : Prop := {
  w_key : ∀ sid s, user_sessions d !! sid = Some s → us_SID s = sid;
  w_pos : ∀ sid s, user_sessions d !! sid = Some s → 0 < us_Version s;
  w_issued : ∀ sid s, user_sessions d !! sid = Some s → s_issued d !! sid = Some (us_ExpiresAt s, us_Version s);
  w_left : ∀ sid t, s_left d !! sid = Some t → t <= s_clock d ∧ active_in d sid = false ∧ is_Some (s_issued d !! sid);
  w_dead : ∀ sid, is_Some (s_issued d !! sid) → active_in d sid = false → is_Some (s_left d !! sid);
  w_cache : ∀ sid c, s_cache d !! sid = Some c →
    ce_SID (ca_Entry c) = sid ∧ known d sid (ce_ExpiresAt (ca_Entry c)) (ce_Version (ca_Entry c)) ∧
    (if entry_active (ca_Entry c) then ca_When c * millisecond <= leave d sid + TTL else entry_denied (ca_Entry c) = true);
  w_sealed : ∀ sid, sid ∈ s_sealed d → ∃ t e v, s_left d !! sid = Some t ∧ s_issued d !! sid = Some (e, v) ∧ tombed d sid t e
}.

(** ** Time *)

Lemma session_tick_ok dt d : sessions_ok d → sessions_ok (tick dt d) ∧ sessions_move d (tick dt d) ∧
  s_clock (tick dt d) = s_clock d + Z.of_N dt.
Proof.
  intros Hw. assert (sessions_move d (tick dt d)) as Hg.
  { split; cbn; [lia| |done|done|done]. intros sid. unfold leave. cbn. destruct (s_left d !! sid); cbn; lia. }
  split_and!; [|done|done]. split; try apply Hw.
  - intros sid t Ht. destruct (w_left _ Hw sid t Ht) as (? & ? & ?). split_and!; [cbn; lia|done..].
  - intros sid c Hc. destruct (w_cache _ Hw sid c Hc) as (? & ? & Hr). split_and!; [done|done|].
    destruct (entry_active _); [|done]. pose proof (g_leave _ _ Hg sid). lia.
  - intros sid Hs. destruct (w_sealed _ Hw sid Hs) as (t & e & v & H1 & H2 & H3). exists t, e, v. split_and!; [done|done|].
    assert (UnixMilli (s_clock d) <= UnixMilli (s_clock (tick dt d))) by (cbn; ms).
    destruct H3 as [H3|[H3 [H5|H5]]]; [left; lia|right; split; [done|left; lia]|right; split; [done|by right]].
Qed.

(** ** Statements on the table *)

(** What a statement may do to the table: rows keep their expiry, versions do
    not fall, nothing becomes active again and a new row has a fresh SID. *)
Definition table_step (d : sdb) (T' : gmap string UserSession) : Prop :=
  ∀ sid s', T' !! sid = Some s' → us_SID s' = sid ∧
    match user_sessions d !! sid with
    | Some s => us_ExpiresAt s' = us_ExpiresAt s ∧ us_Version s <= us_Version s' ∧ (is_active s' = true → is_active s = true)
    | None => s_issued d !! sid = None ∧ is_active s' = true ∧ 0 < us_Version s'
    end.

Section statements.
Context (d : sdb) (T' : gmap string UserSession) (Hw : sessions_ok d) (HT : table_step d T').
Let n := note d (d <| user_sessions := T' |>).

Lemma note_left sid : s_left n !! sid =
  match s_left d !! sid with
  | Some t => Some t
  | None => if active_in d sid && negb (active_in n sid) then Some (s_clock d) else None
  end.
Proof.
  unfold n, note. cbn. rewrite lookup_union. destruct (s_left d !! sid) as [t|] eqn:E; [by rewrite union_Some_l|].
  rewrite union_None, map_lookup_imap. unfold active_in. cbn. by destruct (user_sessions d !! sid) as [s|]; cbn; [destruct (is_active s)|].
Qed.
Lemma note_issued sid : s_issued n !! sid =
  match T' !! sid with Some s => Some (us_ExpiresAt s, us_Version s) | None => s_issued d !! sid end.
Proof.
  unfold n, note. cbn. rewrite lookup_union, lookup_fmap. destruct (T' !! sid) as [s|]; cbn; [by rewrite union_Some_l|by rewrite union_None].
Qed.

Lemma note_known sid e v : known d sid e v → known n sid e v.
Proof.
  intros (v' & Hi & Hv). unfold known. rewrite note_issued. destruct (T' !! sid) as [s'|] eqn:E; [|eauto].
  destruct (HT _ _ E) as [_ Hs]. destruct (user_sessions d !! sid) as [s|] eqn:Es; [|destruct Hs; congruence].
  pose proof (w_issued _ Hw _ _ Es) as Hi'. rewrite Hi in Hi'. injection Hi' as -> ->. destruct Hs as (-> & Hv' & _). eauto with lia.
Qed.

Lemma note_leave sid : leave d sid <= leave n sid.
Proof. unfold leave. rewrite note_left. destruct (s_left d !! sid); cbn; [lia|]. by destruct (_ && _). Qed.

Lemma note_move : sessions_move d n.
Proof.
  split; [done|apply note_leave| |apply note_known|done]. intros sid t E. by rewrite note_left, E.
Qed.

Lemma note_inactive sid : is_Some (s_issued d !! sid) → active_in d sid = false → active_in n sid = false.
Proof.
  intros [x Hi] Ha. unfold active_in in *. unfold n, note. cbn. destruct (T' !! sid) as [s'|] eqn:E; [|done].
  destruct (HT _ _ E) as [_ Hs]. destruct (user_sessions d !! sid) as [s|]; [|destruct Hs; congruence].
  destruct Hs as (_ & _ & Hs). destruct (is_active s'); [|done]. rewrite Hs in Ha; done.
Qed.

Lemma note_ok : sessions_ok n.
Proof.
  split.
  - intros sid s Hs. by destruct (HT sid s Hs).
  - intros sid s Hs. destruct (HT sid s Hs) as [_ Hstep]. destruct (user_sessions d !! sid) as [r|] eqn:Er; [|by destruct Hstep as (_ & _ & ?)].
    pose proof (w_pos _ Hw _ _ Er). lia.
  - intros sid s Hs. rewrite note_issued. change (T' !! sid = Some s) in Hs. by rewrite Hs.
  - intros sid t. rewrite note_left. destruct (s_left d !! sid) as [t'|] eqn:E.
    + intros [= <-]. destruct (w_left _ Hw _ _ E) as (? & ? & ?). split_and!; [done|by apply note_inactive|].
      rewrite note_issued. destruct (T' !! sid); [by eexists|done].
    + destruct (_ && _) eqn:Ea; [|done]. intros [= <-]. apply andb_prop in Ea as [Ea En%negb_true_iff]. split_and!; [done|done|].
      rewrite note_issued. destruct (T' !! sid); [by eexists|]. unfold active_in in Ea.
      destruct (user_sessions d !! sid) as [s|] eqn:Es; [|done]. rewrite (w_issued _ Hw _ _ Es). by eexists.
  - intros sid Hi Ha. rewrite note_left. destruct (s_left d !! sid) as [t|] eqn:E; [by eexists|]. rewrite Ha.
    destruct (active_in d sid) eqn:Ea; [by eexists|]. cbn. exfalso.
    destruct (decide (is_Some (s_issued d !! sid))) as [Hd|Hd].
    + apply (w_dead _ Hw) in Hd as [? ?]; [congruence|done].
    + apply eq_None_not_Some in Hd. rewrite note_issued in Hi. unfold active_in, n, note in Ha. cbn in Ha.
      destruct (T' !! sid) as [s'|] eqn:Es; [|rewrite Hd in Hi; by destruct Hi]. destruct (HT _ _ Es) as [_ Hs].
      destruct (user_sessions d !! sid) as [s|] eqn:E1; [by rewrite (w_issued _ Hw _ _ E1) in Hd|]. destruct Hs as (_ & Ea1 & _). congruence.
  - intros sid c Hc. destruct (w_cache _ Hw sid c Hc) as (H1 & H2 & H3). split_and!; [done|by apply note_known|].
    destruct (entry_active _); [|done]. pose proof (note_leave sid). lia.
  - intros sid Hs. destruct (w_sealed _ Hw sid Hs) as (t & e & v & H1 & H2 & H3).
    destruct (note_known sid e v) as (v' & Hi & _); [by exists v|]. exists t, e, v'. split_and!; [by rewrite note_left, H1|done|exact H3].
Qed.
End statements.

(** ** The script *)

(** What the expiry argument must satisfy when the script runs. *)
Definition expiration_ok (d : sdb) (e : userSessionCacheEntry) (x : Z) : Prop :=
  if entry_active e then x * millisecond <= leave d (ce_SID e) + TTL
  else entry_denied e = true ∧ 1 <= x ∧ (TTLms <= x ∨ ce_ExpiresAt e * 1000 - 1 <= UnixMilli (s_clock d) + x).

Lemma expiration_stable e x : stable sessions_move (λ d, expiration_ok d e x).
Proof.
  intros d d' Hg. unfold expiration_ok. destruct (entry_active e).
  - pose proof (g_leave _ _ Hg (ce_SID e)). lia.
  - intros (H1 & H2 & H3). split_and!; [done..|]. destruct H3; [by left|right].
    pose proof (g_clock _ _ Hg). assert (UnixMilli (s_clock d) <= UnixMilli (s_clock d')) by ms. lia.
Qed.

Lemma denied_inactive e : entry_denied e = true → entry_active e = false.
Proof.
  unfold entry_denied, entry_active, UserSessionStatusActive, UserSessionStatusRevoking, UserSessionStatusRevoked.
  repeat case_bool_decide; cbn; congruence.
Qed.

Section script.
Context (d : sdb) (Hw : sessions_ok d) (e : userSessionCacheEntry) (x : Z).
Context (Hk : known d (ce_SID e) (ce_ExpiresAt e) (ce_Version e)) (Hx : expiration_ok d e x).
Let now := UnixMilli (s_clock d).

(** A change of one cache entry keeps the invariant if the entry is right and
    the tombstones of sealed sessions still stand. *)
Lemma cache_change_ok C S :
  (∀ sid c, C !! sid = Some c → s_cache d !! sid = Some c ∨
     sid = ce_SID e ∧ ca_Entry c = e ∧ (entry_active e = true → ca_When c = x)) →
  s_sealed d ⊆ S →
  (∀ sid, sid ∈ S → ∃ t ex v, s_left d !! sid = Some t ∧ s_issued d !! sid = Some (ex, v) ∧ tombed (d <| s_cache := C |>) sid t ex) →
  sessions_ok (d <| s_cache := C |> <| s_sealed := S |>) ∧ sessions_move d (d <| s_cache := C |> <| s_sealed := S |>).
Proof.
  intros HC HS Ht. split; [|by split]. split; try apply Hw; [|exact Ht].
  intros sid c Hc. destruct (HC sid c Hc) as [Hc'|(-> & E & Ew)]; [exact (w_cache _ Hw sid c Hc')|].
  rewrite E. split_and!; [done|exact Hk|]. unfold expiration_ok in Hx. destruct (entry_active e); [rewrite Ew by done; exact Hx|by destruct Hx].
Qed.

Lemma tombed_other C sid t ex : C !! sid = s_cache d !! sid → tombed d sid t ex → tombed (d <| s_cache := C |>) sid t ex.
Proof. intros E. unfold tombed. cbn. by rewrite E. Qed.

(** A live tombstone refuses an active snapshot, and once it is gone every
    active snapshot is too old to be stored. *)
Lemma tombed_refuses t ex v :
  s_left d !! ce_SID e = Some t → s_issued d !! ce_SID e = Some (ex, v) → tombed d (ce_SID e) t ex → entry_active e = true →
  ex * 1000 - 1 <= now ∨ (UnixMilli t + TTLms <= now ∧ x <= now) ∨ ∃ c, cache_live d (ce_SID e) = Some c ∧ entry_denied c = true.
Proof.
  intros Hl Hi [Ht|[Hd Ht]] Ha; [by left|]. unfold expiration_ok, leave in Hx. rewrite Ha, Hl in Hx. cbn in Hx.
  rewrite ttl_ms in Hx. assert (x <= UnixMilli t + TTLms) as Hxt by ms. fold now in Ht.
  destruct Ht as [Ht|(c & Hc & Ht)]; [right; left; lia|]. destruct (w_cache _ Hw _ _ Hc) as (_ & _ & Hden).
  rewrite (Hd _ Hc) in Hden. destruct (decide (now < ca_When c)); [|destruct (decide (ex * 1000 - 1 <= now)); [by left|right; left; lia]].
  right; right. exists (ca_Entry c). split; [|done]. unfold cache_live. by rewrite Hc, redis_keeps.
Qed.

(** A deny entry that is written after the session left is its tombstone. *)
Lemma tombstone_stands t ex v C c :
  s_left d !! ce_SID e = Some t → s_issued d !! ce_SID e = Some (ex, v) → entry_active e = false →
  C !! ce_SID e = Some c → ca_Entry c = e → ca_When c = now + x → tombed (d <| s_cache := C |>) (ce_SID e) t ex.
Proof.
  intros Hl Hi Ha Hc Ec Ew. destruct (w_left _ Hw _ _ Hl) as (Htc & _). assert (UnixMilli t <= now) by (unfold now; ms).
  unfold expiration_ok in Hx. rewrite Ha in Hx. destruct Hx as (_ & _ & Hx').
  destruct Hk as (v' & Hi' & _). rewrite Hi in Hi'. injection Hi' as -> _. right. cbn. split.
  - intros c' Hc'. rewrite Hc in Hc'. injection Hc' as <-. by rewrite Ec.
  - right. exists c. split; [done|]. rewrite Ew. fold now in Hx'. lia.
Qed.

Lemma script_ok :
  let d' := (session_script e x d).2 in sessions_ok d' ∧ sessions_move d d' ∧ s_clock d' = s_clock d.
Proof.
  cbv zeta. unfold session_script. destruct (entry_active e && _) eqn:Eref; [done|]. destruct (_ <? _); [done|]. fold now.
  set (when := if entry_active e then x else now + x).
  destruct (when <=? now) eqn:Ew; [apply Z.leb_le in Ew|apply Z.leb_gt in Ew]; cbn [snd].
  - assert (entry_active e = true) as Ha.
    { unfold when, expiration_ok in *. destruct (entry_active e); [done|]. lia. }
    destruct (cache_change_ok (delete (ce_SID e) (s_cache d)) (s_sealed d)) as [H1 H2]; [|done| |done].
    + intros sid c [_ Hc]%lookup_delete_Some. by left.
    + intros sid Hs. destruct (w_sealed _ Hw sid Hs) as (t & ex & v & H1 & H2 & H3). exists t, ex, v. split_and!; [done|done|].
      destruct (decide (sid = ce_SID e)) as [->|Hne]; [|apply tombed_other; [by rewrite lookup_delete_ne|done]].
      destruct (tombed_refuses t ex v H1 H2 H3 Ha) as [Ht|[[Ht _]|(c & Hc & Hden)]]; [by left| |].
      * right. cbn. rewrite lookup_delete_eq. split; [done|]. by left.
      * rewrite Ha, Hc, Hden in Eref. done.
  - destruct (cache_change_ok (<[ce_SID e := MkCached e when]> (s_cache d))
      (if negb (entry_active e) && bool_decide (is_Some (s_left d !! ce_SID e)) then {[ce_SID e]} ∪ s_sealed d else s_sealed d))
      as [H1 H2]; [| | |done].
    + intros sid c [[<- <-]|[_ Hc]]%lookup_insert_Some; [right|by left]. split_and!; [done|done|]. cbn. unfold when. by intros ->.
    + destruct (negb _ && _); [apply union_subseteq_r|done].
    + intros sid Hs. destruct (decide (sid = ce_SID e)) as [->|Hne].
      * destruct (entry_active e) eqn:Ha; cbn in Hs.
        -- destruct (w_sealed _ Hw _ Hs) as (t & ex & v & H1 & H2 & H3). exists t, ex, v. split_and!; [done|done|].
           destruct (tombed_refuses t ex v H1 H2 H3 Ha) as [Ht|[[_ Ht]|(c & Hc & Hden)]]; [by left|unfold when in Ew; lia|].
           rewrite Hc, Hden in Eref. done.
        -- assert (is_Some (s_left d !! ce_SID e)) as [t Ht].
           { case_bool_decide as Hl; [done|]. destruct (w_sealed _ Hw _ Hs) as (t & ? & ? & ? & _). by eexists. }
           destruct Hk as (v & Hi & _). exists t, (ce_ExpiresAt e), v. split_and!; [done|done|].
           by eapply tombstone_stands; [| | |apply lookup_insert_eq|..].
      * assert (sid ∈ s_sealed d) as Hs'.
        { destruct (negb _ && _) in Hs; [|done]. by apply elem_of_union in Hs as [?%elem_of_singleton|?]. }
        destruct (w_sealed _ Hw sid Hs') as (t & ex & v & H1 & H2 & H3). exists t, ex, v. split_and!; [done|done|].
        apply tombed_other; [by rewrite lookup_insert_ne|done].
Qed.
End script.

(** ** Programs *)

#[local] Abbreviation triple := (triple sessions_ok sessions_move s_clock).
#[local] Abbreviation stable := (stable sessions_move).
(** A program that keeps the invariant and promises nothing else. *)
#[local] Abbreviation fine P p := (triple P (λ _ _, True) p).

Lemma stable_and P Q : stable P → stable Q → stable (λ d, P d ∧ Q d).
Proof. intros HP HQ d d' Hg [? ?]. split; [by eapply HP|by eapply HQ]. Qed.
Lemma stable_pure (φ : Prop) : stable (λ _, φ).
Proof. by intros d d' _. Qed.
Lemma stable_clock z : stable (λ d, z <= s_clock d).
Proof. intros d d' Hg. pose proof (g_clock _ _ Hg). lia. Qed.
Lemma stable_known sid e v : stable (λ d, known d sid e v).
Proof. intros d d' Hg. apply (g_known _ _ Hg). Qed.
Lemma stable_leave sid z : stable (λ d, z <= leave d sid + TTL).
Proof. intros d d' Hg. pose proof (g_leave _ _ Hg sid). lia. Qed.

(** Step: what is known stays known, and the result is added to it. *)
Lemma fine_bind {A B} P (Q : res A → sdb → Prop) F (R : res B → sdb → Prop) p k :
  stable F → triple P Q p → (∀ d, sessions_ok d → F d → P d) →
  (∀ a, triple (λ d, Q (Ok a) d ∧ F d) R (k a)) → (∀ e d, R (Err e) d) → triple F R (p ≫= k).
Proof.
  intros HF Hp HP Hk HR. apply (prog_triple_weaken _ _ _ _ (λ d, P d ∧ F d)); [|naive_solver].
  eapply prog_triple_bind; [by apply triple_frame|done|]. intros e d _ _. apply HR.
Qed.

Lemma triple_execute {A} P (Q : res A → sdb → Prop) f :
  (∀ r, stable (Q r)) → (∀ msg d, Q (Err (ErrDriver msg)) d) →
  (∀ d, sessions_ok d → P d →
     sessions_ok (f d).2 ∧ sessions_move d (f d).2 ∧ s_clock (f d).2 = s_clock d ∧ Q (f d).1 (f d).2) →
  triple P Q (execute f).
Proof.
  intros HQ He Hf. unfold execute. eapply prog_triple_bind; [apply (triple_query _ _ _ _ Q); auto| |done]. intros a.
  apply (prog_triple_bind _ _ _ _ (λ r d, match r with Ok _ => Q (Ok a) d | Err e => Q (Err e) d end));
    [|intros []; by apply prog_triple_ret|done].
  apply triple_query; [intros []; apply HQ| |auto]. intros d Hd HP. split_and!; done.
Qed.

(** Statements that change the table only, as they may. *)
Definition tabular {A} (f : M sdb A) : Prop :=
  ∀ d, sessions_ok d → ∃ T', (f d).2 = d <| user_sessions := T' |> ∧ table_step d T'.

Lemma table_same d : sessions_ok d → table_step d (user_sessions d).
Proof. intros Hw sid s Hs. rewrite Hs. split; [by apply (w_key _ Hw)|]. split_and!; [done|lia|done]. Qed.
Lemma tabular_read {A} (f : M sdb A) : (∀ d, (f d).2 = d) → tabular f.
Proof. intros Hf d Hw. exists (user_sessions d). rewrite Hf. split; [by destruct d|by apply table_same]. Qed.

Lemma triple_statement {A} P (Q : res A → sdb → Prop) f :
  tabular f → (∀ r, stable (Q r)) → (∀ msg d, Q (Err (ErrDriver msg)) d) →
  (∀ d, sessions_ok d → P d → Q (f d).1 (note d (f d).2)) → triple P Q (statement f).
Proof.
  intros Hf HQ He Hp. apply triple_execute; [done|done|]. intros d Hw HP. destruct (Hf d Hw) as (T' & E & HT). specialize (Hp d Hw HP).
  destruct (f d) as [r d']. cbn in *. subst d'. split_and!; [by apply note_ok|by apply note_move|done|done].
Qed.
Lemma triple_read {A} P (Q : res A → sdb → Prop) (f : M sdb A) :
  (∀ d, (f d).2 = d) → (∀ r, stable (Q r)) → (∀ msg d, Q (Err (ErrDriver msg)) d) →
  (∀ d, sessions_ok d → P d → Q (f d).1 d) → triple P Q (statement f).
Proof.
  intros Hf HQ He Hp. apply triple_statement; [by apply tabular_read|done|done|]. intros d Hw HP. rewrite Hf.
  eapply HQ; [|by apply Hp]. pose proof (note_move d (user_sessions d) Hw (table_same d Hw)) as Hm. by destruct d.
Qed.
Lemma fine_statement {A} P (f : M sdb A) : tabular f → fine P (statement f).
Proof. intros Hf. by apply triple_statement. Qed.

(** *** The cache *)

(** What the writer of an entry knows about it. *)
Definition writable (e : userSessionCacheEntry) (deadline : option Z) (d : sdb) : Prop :=
  known d (ce_SID e) (ce_ExpiresAt e) (ce_Version e) ∧
  (if entry_active e then ∀ x, deadline = Some x → x <= leave d (ce_SID e) + TTL else entry_denied e = true).
Lemma writable_stable e dl : stable (writable e dl).
Proof.
  intros d d' Hg [H1 H2]. split; [by apply (g_known _ _ Hg)|]. destruct (entry_active e); [|done].
  intros x Hx. specialize (H2 x Hx). pose proof (g_leave _ _ Hg (ce_SID e)). lia.
Qed.

Lemma expiration_fits e dl g x d :
  cache_expiration o e dl g = Ok x → g <= s_clock d → writable e dl d → expiration_ok d e x.
Proof.
  unfold cache_expiration, expiration_ok. intros Hx Hg [_ Hwr]. destruct (entry_active e).
  - destruct dl as [dl|]; [|done]. specialize (Hwr dl eq_refl). destruct (dl - g <=? 0); [done|]. destruct (_ <=? 0); [done|].
    destruct (_ <? dl) eqn:E1; [apply Z.ltb_lt in E1|]; (destruct (_ <? millisecond); [done|]; injection Hx as <-; ms).
  - split; [done|]. pose proof ttl_pos. pose proof ttl_ms as Et. injection Hx as <-. fold TTL.
    destruct (Z.min _ TTL <=? 0) eqn:E1; [apply Z.leb_le in E1|apply Z.leb_gt in E1].
    + change (Z.quot second millisecond) with 1000. cbn [Z.leb Z.compare]. split; [lia|]. right. unfold TTLms in Et. ms.
    + set (q := Z.quot _ _). assert (q = Z.min (at_second (ce_ExpiresAt e) - g) TTL / millisecond) as Eq.
      { unfold q. apply Z.quot_div_nonneg; unfold millisecond; lia. }
      destruct (q <=? 0) eqn:E2; [apply Z.leb_le in E2|apply Z.leb_gt in E2]; (split; [lia|]).
      * right. ms.
      * destruct (decide (TTL <= at_second (ce_ExpiresAt e) - g)); [left|right]; rewrite Eq; [rewrite Z.min_r by lia|rewrite Z.min_l by lia]; ms.
Qed.

Lemma fine_ret {A} P (r : res A) : fine P (Ret r).
Proof. done. Qed.

Lemma triple_time P : triple P (λ r d, ∀ z, r = Ok z → z <= s_clock d) clock.
Proof. apply triple_clock; [intros z d d' Hg Hz z' E; specialize (Hz z' E); by eapply stable_clock|by intros d _ _ z [= <-]]. Qed.

Lemma fine_write e dl : fine (writable e dl) (writeUserSessionCache o e dl).
Proof.
  unfold writeUserSessionCache. destruct (negb _); [apply fine_ret|].
  eapply fine_bind; [apply writable_stable|apply (triple_time (λ _, True))|done| |done]. intros now.
  destruct (cache_expiration o e dl now) as [x|err] eqn:Ex; [|apply fine_ret]. cbn [of_res prog_bind mbind prog_mbind].
  apply (prog_triple_weaken _ _ _ _ (λ d, known d (ce_SID e) (ce_ExpiresAt e) (ce_Version e) ∧ expiration_ok d e x)).
  2: { intros d _ [Ht Hwr]. split; [by destruct Hwr|]. eapply expiration_fits; [done|by apply Ht|done]. }
  apply (fine_bind (λ d, known d (ce_SID e) (ce_ExpiresAt e) (ce_Version e) ∧ expiration_ok d e x) (λ _ _, True)); [| |done| |done].
  - apply stable_and; [apply stable_known|apply expiration_stable].
  - apply triple_execute; [done|done|]. intros d Hw [Hk Hx]. destruct (script_ok d Hw e x Hk Hx) as (? & ? & ?). done.
  - intros r. destruct (r =? 0); [apply fine_ret|]. destruct (entry_active e); [|apply fine_ret]. destruct dl as [dl|]; [|apply fine_ret].
    eapply (prog_triple_bind _ _ _ _ (λ _ _, True)); [by apply triple_clock| |done]. intros z.
    destruct (negb _); [apply fine_ret|]. by destruct (negb _).
Qed.

Lemma fine_attempt {A} P (p : prog sdb A) : fine P p → fine P (attempt p).
Proof. intros Hp. by apply (triple_attempt _ _ _ P (λ _ _, True)). Qed.
Lemma fine_logged P p : fine P p → fine P (logged p).
Proof. intros Hp. unfold logged. eapply prog_triple_bind; [by apply fine_attempt| |done]. intros a. apply fine_ret. Qed.

Lemma fine_confirm P s : fine P (confirmUserSessionActiveSnapshot s).
Proof.
  unfold confirmUserSessionActiveSnapshot. destruct (_ || _); [apply fine_ret|].
  eapply (prog_triple_bind _ _ _ _ (λ _ _, True)); [by apply triple_clock| |done]. intros now.
  eapply (prog_triple_bind _ _ _ _ (λ _ _, True)); [by apply fine_statement, tabular_read| |done]. intros n. by destruct (n =? 1).
Qed.

(** A snapshot of a row and the deadline that was taken before it was read. *)
Definition snapshot (dl : Z) (s : UserSession) (d : sdb) : Prop :=
  known d (us_SID s) (us_ExpiresAt s) (us_Version s) ∧ (is_active s = true → dl <= leave d (us_SID s) + TTL).
Lemma snapshot_stable dl s : stable (snapshot dl s).
Proof.
  intros d d' Hg [H1 H2]. split; [by apply (g_known _ _ Hg)|]. intros Ha. specialize (H2 Ha).
  pose proof (g_leave _ _ Hg (us_SID s)). lia.
Qed.

Lemma fine_publish s dl returned : is_active s = true → fine (snapshot dl s) (publish_active o s dl returned).
Proof.
  intros Ha. unfold publish_active. eapply (prog_triple_bind _ _ _ _ (λ _ _, True)); [| |done].
  - apply fine_attempt. eapply prog_triple_weaken; [apply fine_write|]. intros d Hw [Hk Hf]. split; [done|].
    unfold entry_active, cacheEntry. cbn. unfold is_active in Ha. rewrite Ha. intros x [= <-]. by apply Hf.
  - intros [u|e]; [apply fine_ret|]. destruct (error_is _ _); [apply fine_confirm|]. by destruct (returned e).
Qed.

(** Denying a session that is known. *)
Definition recorded (s : UserSession) (d : sdb) : Prop := known d (us_SID s) (us_ExpiresAt s) (us_Version s).
Lemma recorded_fence s status now reason :
  status = UserSessionStatusRevoking → fine (recorded s) (writeUserSessionDenyFence o s status now reason).
Proof.
  intros ->. unfold writeUserSessionDenyFence. destruct (negb _); [apply fine_ret|].
  eapply prog_triple_weaken; [apply fine_write|]. by intros d Hw Hk.
Qed.
Lemma recorded_tombstone s e :
  ce_SID e = us_SID s → ce_ExpiresAt e = us_ExpiresAt s → ce_Version e = us_Version s → ce_Status e = UserSessionStatusRevoked →
  fine (recorded s) (logged (writeUserSessionCache o e None)).
Proof.
  intros E1 E2 E3 E4. apply fine_logged. eapply prog_triple_weaken; [apply fine_write|]. intros d Hw Hk.
  unfold writable, entry_active, entry_denied. by rewrite E1, E2, E3, E4.
Qed.
Lemma fine_fence s status now reason dl :
  status = UserSessionStatusRevoking → fine (snapshot dl s) (writeUserSessionDenyFence o s status now reason).
Proof. intros E. eapply prog_triple_weaken; [by apply recorded_fence|]. by intros d _ [Hk _]. Qed.
Lemma fine_tombstone s dl e :
  ce_SID e = us_SID s → ce_ExpiresAt e = us_ExpiresAt s → ce_Version e = us_Version s → ce_Status e = UserSessionStatusRevoked →
  fine (snapshot dl s) (logged (writeUserSessionCache o e None)).
Proof. intros. eapply prog_triple_weaken; [by apply (recorded_tombstone s)|]. by intros d _ [Hk _]. Qed.

Lemma first_session_inv sid cond d s d' :
  first_session sid cond d = (Ok s, d') → d' = d ∧ ∃ r, user_sessions d !! sid = Some r ∧ cond r = true ∧ s = after_find r.
Proof. unfold first_session. destruct (_ !! sid) as [r|]; [destruct (cond r) eqn:E|]; intros [= <- <-]; eauto. Qed.

(** Reading a row after the deadline was taken. *)
Lemma first_snapshot d sid cond dl s d1 :
  sessions_ok d → dl <= s_clock d + TTL → first_session sid cond d = (Ok s, d1) → us_SID s = sid ∧ snapshot dl s d.
Proof.
  intros Hw Hdl (_ & r & Er & _ & ->)%first_session_inv. cbn. pose proof (w_key _ Hw _ _ Er) as Ek. split; [done|]. split; cbn.
  - exists (us_Version r). rewrite Ek. split; [by apply (w_issued _ Hw)|lia].
  - change (is_active r = true → dl <= leave d (us_SID r) + TTL). intros Ha. unfold leave. rewrite Ek.
    destruct (s_left d !! sid) as [t|] eqn:El; [|exact Hdl]. destruct (w_left _ Hw _ _ El) as (_ & Hin & _).
    unfold active_in in Hin. rewrite Er, Ha in Hin. done.
Qed.
Lemma first_session_db sid cond d : (first_session sid cond d).2 = d.
Proof. unfold first_session. destruct (_ !! sid) as [s|]; [by destruct (cond s)|done]. Qed.

Lemma triple_first sid cond dl :
  triple (λ d, dl <= s_clock d + TTL) (λ r d, ∀ s, r = Ok s → us_SID s = sid ∧ snapshot dl s d)
    (statement (first_session sid cond)).
Proof.
  apply triple_read; [apply first_session_db| |done|].
  - intros r d d' Hg Hr s E. destruct (Hr s E). split; [done|]. by eapply snapshot_stable.
  - intros d Hw Hdl s E. eapply first_snapshot; [done|done|by rewrite <- E, <- surjective_pairing].
Qed.

(** ** Statements that change rows *)

Definition row_step (s s' : UserSession) : Prop :=
  us_SID s' = us_SID s ∧ us_ExpiresAt s' = us_ExpiresAt s ∧ us_Version s <= us_Version s' ∧
  (is_active s' = true → is_active s = true).
Lemma revoke_row_step now reason s : row_step s (revoke_row now reason s).
Proof. unfold row_step, revoke_row. cbn. split_and!; [done|done|lia|done]. Qed.

Lemma table_insert d sid s s' :
  sessions_ok d → user_sessions d !! sid = Some s → row_step s s' → table_step d (<[sid := s']> (user_sessions d)).
Proof.
  intros Hw Hs (E1 & E2 & E3 & E4) k r [[<- <-]|[_ Hr]]%lookup_insert_Some; [|by apply (table_same d Hw)].
  rewrite Hs, E1. split; [by apply (w_key _ Hw)|done].
Qed.

Lemma tabular_update sid cond set : (∀ s, row_step s (set s)) → tabular (update_session sid cond set).
Proof.
  intros Hset d Hw. unfold update_session. destruct (user_sessions d !! sid) as [s|] eqn:E; [destruct (cond s)|].
  - exists (<[sid := set s]> (user_sessions d)). split; [done|]. by eapply table_insert.
  - exists (user_sessions d). split; [by destruct d|by apply table_same].
  - exists (user_sessions d). split; [by destruct d|by apply table_same].
Qed.

Lemma tabular_create s : is_active s = true → 0 < us_Version s → tabular (create_session s).
Proof.
  intros Ha Hv d Hw. unfold create_session. case_decide as Hd; [exists (user_sessions d); split; [by destruct d|by apply table_same]|].
  exists (<[us_SID s := s]> (user_sessions d)). split; [done|].
  intros k r [[<- <-]|[_ Hr]]%lookup_insert_Some; [|by apply (table_same d Hw)]. split; [done|].
  destruct (user_sessions d !! us_SID s) eqn:E; [exfalso; apply Hd; left; by eexists|]. split; [|done].
  destruct (s_issued d !! us_SID s) eqn:E1; [exfalso; apply Hd; right; by eexists|done].
Qed.

Lemma tabular_revoke_tx userID sid now reason : tabular (revoke_tx userID sid now reason).
Proof.
  intros d Hw. unfold revoke_tx, mbind, M_bind. destruct (first_session _ _ d) as [[s|e] d1] eqn:E.
  - apply first_session_inv in E as [-> _]. destruct (session_over now s); [exists (user_sessions d); split; [by destruct d|by apply table_same]|].
    destruct (tabular_update sid is_active (revoke_row now reason) (revoke_row_step _ _) d Hw) as (T' & E & HT). exists T'.
    destruct (update_session _ _ _ d) as [[n|e] d2]; done.
  - exists (user_sessions d). split; [|by apply table_same]. unfold first_session in E.
    destruct (user_sessions d !! sid) as [r|]; [destruct (_ =? _)|]; simplify_eq; by destruct d1.
Qed.

Lemma tabular_batch sids now reason : tabular (revoke_batch_tx sids now reason).
Proof.
  intros d Hw. eexists. split; [reflexivity|]. intros sid s'. rewrite lookup_fmap. intros (s & Hs & ->)%fmap_Some. rewrite Hs.
  pose proof (w_key _ Hw _ _ Hs) as Ek. destruct (_ && _); [|split; [done|]; split_and!; [done|lia|done]].
  destruct (revoke_row_step now reason s) as (E1 & E2 & E3 & E4). split; [congruence|done].
Qed.

Lemma tabular_delete sids cond : tabular (delete_sessions sids cond).
Proof.
  intros d Hw. eexists. split; [reflexivity|]. intros sid s' [Hs _]%map_lookup_filter_Some. by apply (table_same d Hw).
Qed.

(** ** Operations *)

Lemma triple_deadline P : triple P (λ r d, ∀ z, r = Ok z → z <= s_clock d + TTL) (userSessionCacheDeadline o).
Proof.
  unfold userSessionCacheDeadline. eapply prog_triple_bind; [apply triple_time| |done]. intros z. apply prog_triple_ret.
  intros d _ Hz z' [= <-]. specialize (Hz z eq_refl). unfold TTL. lia.
Qed.

Lemma fine_create s : fine (λ _, True) (CreateUserSession o s).
Proof.
  unfold CreateUserSession. eapply (prog_triple_bind _ _ _ _ (λ _ _, True)); [by apply triple_clock| |done]. intros now.
  destruct (_ || _); [apply fine_ret|]. cbv zeta. destruct (negb (is_active _) || _) eqn:Ea; [apply fine_ret|].
  apply orb_false_iff in Ea as [Ea%negb_false_iff _]. set (s1 := if bool_decide _ then _ else _) in *.
  set (s2 := if us_LastActiveAt _ =? 0 then _ else _). set (s3 := if us_CreatedAt _ =? 0 then _ else _).
  assert (is_active s3 = true) as Ha.
  { unfold s3, s2. repeat (match goal with |- context [if ?b then _ else _] => destruct b end); exact Ea. }
  assert (0 < us_Version s3) as Hv.
  { assert (us_Version s3 = if us_Version s <=? 0 then 1 else us_Version s) as ->.
    { unfold s3, s2, s1. repeat (match goal with |- context [if ?b then _ else _] => destruct b end); done. }
    destruct (us_Version s <=? 0) eqn:E; [lia|]. apply Z.leb_gt in E. lia. }
  clearbody s3. clear s1 s2 Ea. eapply prog_triple_bind; [apply triple_deadline| |done]. intros dl.
  apply (prog_triple_bind _ _ _ _ (λ r d, ∀ u, r = Ok u → snapshot dl s3 d)); [| |done].
  - apply triple_statement; [by apply tabular_create| |done|].
    + intros r d d' Hg Hr u E. eapply snapshot_stable; [done|by eapply Hr].
    + intros d Hw Hdl u. unfold create_session. case_decide as Hd; [done|]. intros _. cbn [snd].
      change (snapshot dl s3 (note d (d <| user_sessions := <[us_SID s3 := s3]> (user_sessions d) |>))).
      split.
      * exists (us_Version s3). rewrite note_issued, lookup_insert_eq. split; [done|lia].
      * intros _. unfold leave. rewrite note_left. destruct (s_left d !! us_SID s3) as [t|] eqn:El.
        { exfalso. apply Hd. right. by apply (w_left _ Hw _ _ El). }
        unfold active_in at 2. cbn. rewrite lookup_insert_eq, Ha, andb_false_r. cbn. by apply Hdl.
  - intros u. apply (prog_triple_weaken _ _ _ _ (snapshot dl s3)); [|naive_solver].
    eapply (prog_triple_bind _ _ _ _ (λ _ _, True)); [by apply fine_publish| |done]. intros _. apply fine_ret.
Qed.

Lemma fine_clock {A} P (k : Z → prog sdb A) : (∀ z, fine P (k z)) → stable P → fine P (z ← clock; k z).
Proof.
  intros Hk HP. eapply (fine_bind (λ _, True) (λ _ _, True)); [done|by apply triple_clock|done| |done]. intros z.
  eapply prog_triple_weaken; [apply Hk|]. naive_solver.
Qed.
Lemma fine_or_now {A} (now : Z) (k : Z → prog sdb A) : (∀ z, fine (λ _, True) (k z)) → fine (λ _, True) (z ← or_now now; k z).
Proof.
  intros Hk. unfold or_now. eapply (prog_triple_bind _ _ _ _ (λ _ _, True)); [|done|done].
  destruct (now <=? 0); [|apply fine_ret]. by apply fine_clock.
Qed.

(** After a statement that changes rows. *)
Lemma fine_after {A B} P (f : M sdb A) (k : A → prog sdb B) :
  stable P → tabular f → (∀ a, fine P (k a)) → fine P (a ← statement f; k a).
Proof.
  intros HP Hf Hk. eapply (fine_bind (λ _, True) (λ _ _, True)); [done|by apply fine_statement|done| |done]. intros a.
  eapply prog_triple_weaken; [apply Hk|]. naive_solver.
Qed.
Lemma fine_then {A B} P (p : prog sdb A) (k : A → prog sdb B) :
  stable P → fine P p → (∀ a, fine P (k a)) → fine P (p ≫= k).
Proof.
  intros HP Hp Hk. eapply (fine_bind P (λ _ _, True)); [done|done|done| |done]. intros a.
  eapply prog_triple_weaken; [apply Hk|]. naive_solver.
Qed.

Lemma fine_reused userID sid now s dl : fine (snapshot dl s) (revoke_reused o userID sid now s).
Proof.
  unfold revoke_reused. apply fine_then; [apply snapshot_stable|by apply fine_fence|]. intros _.
  apply fine_after; [apply snapshot_stable|by apply tabular_update, revoke_row_step|]. intros n. destruct (n =? 0); [apply fine_ret|].
  apply fine_then; [apply snapshot_stable|by apply fine_tombstone|]. intros _. apply fine_ret.
Qed.

Lemma fine_rotate_loop tries userID sid h h' now g : fine (λ _, True) (rotate_loop o tries userID sid h h' now g).
Proof.
  induction tries as [|tries IH]; [apply fine_ret|]. cbn [rotate_loop].
  eapply prog_triple_bind; [apply triple_deadline| |done]. intros dl.
  eapply prog_triple_bind; [eapply prog_triple_weaken; [apply (triple_first sid _ dl)|naive_solver]| |done]. intros s.
  apply (prog_triple_weaken _ _ _ _ (snapshot dl s)); [|intros d _ Hs; by apply (Hs s)].
  destruct (_ || _ || _) eqn:Eo; [apply fine_ret|]. apply orb_false_iff in Eo as [[Ea%negb_false_iff _]%orb_false_iff _].
  destruct (hash_eq _ _).
  - cbv zeta. apply fine_after; [apply snapshot_stable| |].
    + apply tabular_update. intros r. unfold row_step, rotate_row. cbn. split_and!; [done|done|lia|done].
    + intros n. destruct (n =? 0); [eapply prog_triple_weaken; [apply IH|done]|].
      apply fine_then; [apply snapshot_stable| |intros; apply fine_ret].
      eapply prog_triple_weaken; [by apply (fine_publish _ dl)|]. by intros d _ Hs.
  - destruct (_ || _); [apply fine_ret|]. destruct (_ <=? _); [apply fine_ret|]. apply fine_reused.
Qed.

Lemma fine_rotate userID sid h h' now grace : fine (λ _, True) (RotateUserSessionRefresh o userID sid h h' now grace).
Proof.
  unfold RotateUserSessionRefresh. destruct (_ || _); [apply fine_ret|]. apply fine_or_now. intros z. cbv zeta.
  destruct (_ <? 0); [apply fine_ret|]. apply fine_rotate_loop.
Qed.

Lemma stable_time z : stable (λ d, z + TTL <= s_clock d + TTL).
Proof. intros d d' Hg. pose proof (g_clock _ _ Hg). lia. Qed.

(** Read a row, whether it is there or not. *)
Lemma fine_try_first {A} sid cond z (k : res UserSession → prog sdb A) :
  (∀ e, fine (λ _, True) (k (Err e))) → (∀ s, fine (snapshot (z + TTL) s) (k (Ok s))) →
  fine (λ d, z <= s_clock d) (r ← attempt (statement (first_session sid cond)); k r).
Proof.
  intros He Hs.
  eapply (prog_triple_bind _ _ _ _ (λ r d, ∀ s, r = Ok (Ok s) → snapshot (z + TTL) s d)); [| |done].
  - apply triple_attempt. eapply triple_post; [eapply prog_triple_weaken; [apply (triple_first sid cond (z + TTL))|]|].
    + intros d _ Hz. cbv beta. lia.
    + intros r d _ Hr s [= ->]. by apply Hr.
  - intros [s|e]; [eapply prog_triple_weaken; [apply Hs|]; naive_solver|eapply prog_triple_weaken; [apply He|done]].
Qed.

Lemma fine_revoke userID sid reason : fine (λ _, True) (RevokeUserSession o userID sid reason).
Proof.
  unfold RevokeUserSession. destruct (_ || _); [apply fine_ret|]. eapply prog_triple_bind; [apply triple_time| |done]. intros z. cbv zeta.
  apply (prog_triple_weaken _ _ _ _ (λ d, z <= s_clock d)); [|naive_solver]. apply fine_try_first.
  - intros e. by destruct (error_is _ _).
  - intros s. destruct (session_over _ s); [apply fine_ret|].
    apply fine_then; [apply snapshot_stable|by apply fine_fence|]. intros _.
    apply fine_after; [apply snapshot_stable|apply tabular_revoke_tx|]. intros b.
    apply fine_then; [apply snapshot_stable| |intros; apply fine_ret]. destruct b; [by apply fine_tombstone|apply fine_ret].
Qed.

Lemma fine_revoke_by_hash sid h reason : fine (λ _, True) (RevokeUserSessionByRefreshHash o sid h reason).
Proof.
  unfold RevokeUserSessionByRefreshHash. destruct (_ || _); [apply fine_ret|]. eapply prog_triple_bind; [apply triple_time| |done].
  intros z. cbv zeta. apply (prog_triple_weaken _ _ _ _ (λ d, z <= s_clock d)); [|naive_solver]. apply fine_try_first.
  - intros e. by destruct (error_is _ _).
  - intros s. destruct (session_over _ s); [apply fine_ret|]. destruct (negb _ && negb _); [apply fine_ret|].
    apply fine_then; [apply snapshot_stable|by apply fine_fence|]. intros _.
    apply fine_after; [apply snapshot_stable|by apply tabular_update, revoke_row_step|]. intros n.
    apply fine_then; [apply snapshot_stable| |intros; apply fine_ret]. destruct (n =? 1); [by apply fine_tombstone|apply fine_ret].
Qed.

(** A version below the last 64-bit number is advanced by one. *)
Lemma advance_tx_inv userID sid now v av nv d :
  sessions_ok d → 0 < v < max_i64 →
  match advance_tx userID sid now v av nv d with
  | (Ok s, d') => ∃ r, user_sessions d !! sid = Some r ∧ is_active r = true ∧ us_Version r = v ∧
      us_SID s = sid ∧ us_ExpiresAt s = us_ExpiresAt r ∧ us_Version s = v + 1 ∧ is_active s = true ∧
      ∃ r', row_step r r' ∧ us_Version r' = v + 1 ∧ is_active r' = true ∧ d' = d <| user_sessions := <[sid := r']> (user_sessions d) |>
  | (Err _, d') => d' = d
  end.
Proof.
  intros Hw Hv. unfold advance_tx, mbind, M_bind. destruct (first_session _ _ d) as [[s|e] d1] eqn:E.
  2: { unfold first_session in E. destruct (user_sessions d !! sid) as [r|]; [destruct (_ =? _)|]; by simplify_eq. }
  apply first_session_inv in E as [-> (r & Hr & _ & ->)]. destruct (_ || _ || _ || _) eqn:Eo; [done|].
  apply orb_false_iff in Eo as [[[Ea%negb_false_iff _]%orb_false_iff Ev%negb_false_iff%Z.eqb_eq]%orb_false_iff Eav%negb_false_iff%Z.eqb_eq].
  cbn in Ev, Eav. change (is_active r = true) in Ea. unfold update_session. rewrite Hr, Ea, Ev, Eav, !Z.eqb_refl. cbn.
  rewrite (i64_id (us_Version r + 1)) by (unfold in_i64, min_i64, max_i64 in *; lia).
  exists r. pose proof (w_key _ Hw _ _ Hr). split_and!; try done; [lia|]. eexists. split; [|split; [|split; [|reflexivity]]]; [|cbn; lia|done].
  unfold row_step. cbn. split_and!; [done|done|lia|done].
Qed.

Lemma fine_advance userID sid v av nv :
  v < max_i64 → fine (λ _, True) (AdvanceUserSessionAuthVersion o userID sid v av nv).
Proof.
  intros Hmax. unfold AdvanceUserSessionAuthVersion. destruct (_ || _) eqn:Eg; [apply fine_ret|].
  apply orb_false_iff in Eg as [[[_ Hv%Z.leb_gt]%orb_false_iff _]%orb_false_iff _].
  eapply prog_triple_bind; [apply triple_deadline| |done]. intros dl.
  apply (prog_triple_weaken _ _ _ _ (λ d, dl <= s_clock d + TTL)); [|naive_solver].
  assert (stable (λ d, dl <= s_clock d + TTL)) as Hst by (intros d d' Hg; pose proof (g_clock _ _ Hg); lia).
  eapply (fine_bind (λ _, True) (λ _ _, True)); [done|by apply triple_clock|done| |done]. intros now.
  apply (prog_triple_weaken _ _ _ _ (λ d, dl <= s_clock d + TTL)); [|naive_solver].
  apply (prog_triple_bind _ _ _ _ (λ r d, ∀ s, r = Ok s → is_active s = true ∧ snapshot dl s d)); [| |done].
  - apply triple_statement.
    + intros d Hw. pose proof (advance_tx_inv userID sid (Unix now) v av nv d Hw (conj Hv Hmax)) as Hinv.
      destruct (advance_tx _ _ _ _ _ _ d) as [[s|e] d']; cbn in *; [|subst d'; exists (user_sessions d); split; [by destruct d|by apply table_same]].
      destruct Hinv as (r & Hr & _ & _ & _ & _ & _ & _ & r' & Hstep & _ & _ & ->). eexists. split; [done|]. by eapply table_insert.
    + intros r d d' Hg Hr s E. destruct (Hr s E). split; [done|]. by eapply snapshot_stable.
    + done.
    + intros d Hw Hdl s. pose proof (advance_tx_inv userID sid (Unix now) v av nv d Hw (conj Hv Hmax)) as Hinv.
      destruct (advance_tx _ _ _ _ _ _ d) as [[s'|e] d']; [|done]. cbn [fst snd]. intros [= <-].
      destruct Hinv as (r & Hr & Ha & Ev & E1 & E2 & E3 & E4 & r' & (S1 & S2 & S3 & S4) & Ev' & Ha' & ->). split; [done|]. split.
      * exists (v + 1). rewrite note_issued, E1, lookup_insert_eq, E2, E3, S2, Ev'. split; [done|lia].
      * intros _. unfold leave. rewrite note_left, E1. destruct (s_left d !! sid) as [t|] eqn:El.
        { destruct (w_left _ Hw _ _ El) as (_ & Hin & _). unfold active_in in Hin. rewrite Hr, Ha in Hin. done. }
        unfold active_in at 2. cbn. rewrite lookup_insert_eq, Ha', andb_false_r. cbn. exact Hdl.
  - intros s. apply (prog_triple_weaken _ _ _ _ (λ d, is_active s = true ∧ snapshot dl s d)); [|naive_solver].
    apply (prog_triple_pure _ _ _ (is_active s = true)). intros Ha.
    apply fine_then; [apply snapshot_stable|by apply fine_publish|]. intros _. apply fine_ret.
Qed.

(** *** Many sessions *)

Definition all_recorded (l : list UserSession) (d : sdb) : Prop := Forall (λ s, recorded s d) l.
Lemma all_recorded_stable l : stable (all_recorded l).
Proof. intros d d' Hg Hl. eapply Forall_impl; [exact Hl|]. intros s. by apply stable_known. Qed.

Lemma select_sessions_rows cond d s : s ∈ select_sessions cond d ↔ cond s = true ∧ ∃ sid, user_sessions d !! sid = Some s.
Proof.
  unfold select_sessions. rewrite list_elem_of_filter, list_elem_of_fmap. split.
  - intros [Hc ([sid r] & -> & Hr%elem_of_map_to_list)]. eauto.
  - intros [Hc [sid Hr]]. split; [done|]. exists (sid, s). split; [done|]. by apply elem_of_map_to_list.
Qed.
Lemma recorded_rows d l : sessions_ok d → (∀ s, s ∈ l → ∃ sid, user_sessions d !! sid = Some s) → all_recorded (after_find <$> l) d.
Proof.
  intros Hw Hl. apply Forall_fmap, Forall_forall. intros s Hs. destruct (Hl s Hs) as [sid Hr]. unfold recorded, known. cbn.
  rewrite (w_key _ Hw _ _ Hr), (w_issued _ Hw _ _ Hr). eauto with lia.
Qed.

Lemma fine_each {A} (f : A → prog sdb unit) P (l : list A) :
  stable P → (∀ a, a ∈ l → fine P (f a)) → fine P (each f l).
Proof.
  intros HP. induction l as [|a l IH]; intros Hf; [apply fine_ret|]. cbn [each].
  apply fine_then; [done|apply Hf; by left|]. intros _. apply IH. intros b Hb. apply Hf. by right.
Qed.

Lemma fine_revoke_loop fuel userID ex now reason total : fine (λ _, True) (revoke_loop o fuel userID ex now reason total).
Proof.
  revert total. induction fuel as [|fuel IH]; intros total; [apply fine_ret|]. cbn [revoke_loop].
  apply (prog_triple_bind _ _ _ _ (λ r d, ∀ l, r = Ok (Ok l) → all_recorded l d)); [| |done].
  { apply triple_attempt. apply triple_read; [done| |done|].
    - intros r d d' Hg Hr l E. eapply all_recorded_stable; [done|by apply Hr].
    - intros d Hw _ l [= <-]. apply recorded_rows; [done|]. intros s Hs. apply elem_of_take in Hs as (i & Hi & _).
      apply list_elem_of_lookup_2 in Hi. rewrite merge_sort_Permutation in Hi. by apply select_sessions_rows in Hi as [_ ?]. }
  intros [[|c cs]|e]; [apply fine_ret| |apply fine_ret].
  apply (prog_triple_weaken _ _ _ _ (all_recorded (c :: cs))); [|naive_solver].
  apply fine_then; [apply all_recorded_stable| |].
  { apply fine_attempt, fine_each; [apply all_recorded_stable|]. intros s Hs.
    eapply prog_triple_weaken; [by apply recorded_fence|]. intros d _ Hall. by eapply (proj1 (Forall_forall _ _)) in Hall. }
  intros [_|e]; [|apply fine_ret]. apply (prog_triple_weaken _ _ _ _ (λ _, True)); [|done].
  apply (prog_triple_bind _ _ _ _ (λ r d, ∀ l, r = Ok (Ok l) → all_recorded l d)); [| |done].
  { apply triple_attempt. apply triple_statement; [apply tabular_batch| |done|].
    - intros r d d' Hg Hr l E. eapply all_recorded_stable; [done|by apply Hr].
    - intros d Hw _ l [= <-]. destruct (tabular_batch (us_SID <$> c :: cs) now reason d Hw) as (T' & ET & HT).
      rewrite ET. eapply all_recorded_stable; [by apply note_move|].
      apply recorded_rows; [done|]. intros s Hs. by apply select_sessions_rows in Hs as [_ ?]. }
  intros [revoked|e]; [|apply fine_ret]. apply (prog_triple_weaken _ _ _ _ (all_recorded revoked)); [|naive_solver].
  apply fine_then; [apply all_recorded_stable| |].
  { apply fine_each; [apply all_recorded_stable|]. intros s Hs. eapply prog_triple_weaken; [by apply (recorded_tombstone s)|].
    intros d _ Hall. by eapply (proj1 (Forall_forall _ _)) in Hall. }
  intros _. eapply prog_triple_weaken; [apply IH|done].
Qed.

Lemma fine_revoke_all fuel userID ex reason : fine (λ _, True) (revokeUserSessions o fuel userID ex reason).
Proof. unfold revokeUserSessions. destruct (_ <=? 0); [apply fine_ret|]. apply fine_clock; [|done]. intros z. apply fine_revoke_loop. Qed.

Lemma fine_cleanup fuel cond key : fine (λ _, True) (cleanup_loop fuel cond key).
Proof.
  induction fuel as [|fuel IH]; [apply fine_ret|]. cbn [cleanup_loop].
  apply fine_after; [done|by apply tabular_read|]. intros [|sid sids]; [apply fine_ret|].
  apply fine_then; [done| |intros _; apply IH]. apply fine_each; [done|]. intros b _. apply fine_statement, tabular_delete.
Qed.
Lemma fine_cutoffs now k : (∀ a b c, fine (λ _, True) (k a b c)) → fine (λ _, True) (with_cutoffs o now k).
Proof. intros Hk. unfold with_cutoffs. apply fine_or_now. intros z. by destruct (_ || _). Qed.

(** *** Serving a session *)

(** The session is about to expire anyway. *)
Definition late (d : sdb) (sid : string) : Prop :=
  ∃ e v, s_issued d !! sid = Some (e, v) ∧ e * 1000 - 1 <= UnixMilli (s_clock d).
Lemma late_stable sid : stable (λ d, late d sid).
Proof.
  intros d d' Hg (e & v & Hi & Hl). destruct (g_known _ _ Hg sid e v) as (v' & Hi' & _); [by exists v|].
  exists e, v'. split; [done|]. pose proof (g_clock _ _ Hg). ms.
Qed.

Section serve.
Context (t0 : Z) (sealed : bool) (sid : string).

(** A call that starts at [t0], on a session that is sealed or not. *)
Definition asks (d : sdb) : Prop := t0 <= s_clock d ∧ (sealed = true → sid ∈ s_sealed d).
(** It may be served: the session was active within the cache window before the
    call, and is not sealed, up to its last millisecond. *)
Definition servable (d : sdb) : Prop := t0 < leave d sid + TTL + millisecond ∧ (sealed = true → late d sid).

Lemma asks_stable : stable asks.
Proof. intros d d' Hg [H1 H2]. pose proof (g_clock _ _ Hg). split; [lia|]. intros E. by apply (g_sealed _ _ Hg), H2. Qed.
Lemma servable_stable : stable servable.
Proof.
  intros d d' Hg [H1 H2]. pose proof (g_leave _ _ Hg sid). split; [lia|]. intros E. eapply late_stable; [done|by apply H2].
Qed.

Lemma live_entry_servable d e :
  sessions_ok d → asks d → cache_live d sid = Some e → ce_SID e = sid ∧ (entry_active e = true → servable d).
Proof.
  intros Hw [Ht Hs] Hl. unfold cache_live in Hl. destruct (s_cache d !! sid) as [c|] eqn:Ec; [|done].
  destruct (redis_expired _ _) eqn:Er; [done|]. injection Hl as <-. destruct (w_cache _ Hw _ _ Ec) as (E1 & _ & E2).
  split; [done|]. intros Ha. rewrite Ha in E2. split.
  - destruct (decide (ca_When c < UnixMilli (s_clock d))) as [Hlt|Hge]; [rewrite (redis_drops _ _ Hlt) in Er; done|]. ms.
  - intros E. destruct (w_sealed _ Hw sid (Hs E)) as (t & ex & v & _ & Hi & [Hlate|[Hden _]]); [by exists ex, v|].
    rewrite (Hden _ Ec) in Ha. done.
Qed.

Lemma active_row_servable d r :
  sessions_ok d → asks d → user_sessions d !! sid = Some r → is_active r = true → servable d.
Proof.
  intros Hw [Ht Hs] Hr Ha. assert (active_in d sid = true) as Hin by (unfold active_in; by rewrite Hr). split.
  - unfold leave. destruct (s_left d !! sid) as [t|] eqn:El; [destruct (w_left _ Hw _ _ El) as (_ & ? & _); congruence|].
    cbn. pose proof ttl_pos. unfold TTL, cache_ttl, millisecond, second. lia.
  - intros E. destruct (w_sealed _ Hw sid (Hs E)) as (t & ex & v & El & _). destruct (w_left _ Hw _ _ El) as (_ & ? & _). congruence.
Qed.

Definition serves {A} (sid_of : A → string) (r : res A) (d : sdb) : Prop := ∀ a, r = Ok a → sid_of a = sid ∧ servable d.

Lemma serves_stable {A} (sid_of : A → string) r : stable (serves sid_of r).
Proof. intros d d' Hg Hr a E. destruct (Hr a E). split; [done|]. by eapply servable_stable. Qed.

Lemma triple_get_cache : triple asks (serves ce_SID) (getUserSessionCache sid).
Proof.
  unfold getUserSessionCache.
  eapply (prog_triple_bind _ _ _ _ (λ r d, ∀ e, r = Ok e → ce_SID e = sid ∧ (entry_active e = true → servable d))); [| |done].
  - apply triple_execute; [|done|].
    + intros r d d' Hg Hr e E. destruct (Hr e E) as [? Hs]. split; [done|]. intros Ha. eapply servable_stable; [done|by apply Hs].
    + intros d Hw Ha. split_and!; [done|done|done|]. intros e. unfold redis_get. cbn.
      destruct (cache_live d sid) as [e'|] eqn:El; [|done]. intros [= <-]. by apply live_entry_servable.
  - intros e. destruct (_ || _); [by apply prog_triple_ret|].
    apply (prog_triple_weaken _ _ _ _ (λ d, ce_SID e = sid ∧ (entry_active e = true → servable d))); [|intros d _ He; by apply (He e)].
    apply (fine_bind (λ _, True) (λ _ _, True)); [|by apply triple_clock|done| |done].
    + intros d d' Hg [? Hs]. split; [done|]. intros Ha. eapply servable_stable; [done|by apply Hs].
    + intros now. destruct (entry_active e) eqn:Ea; cbn [negb orb]; [|by apply prog_triple_ret].
      destruct (_ || _); [by apply prog_triple_ret|]. apply prog_triple_ret. intros d _ (_ & Es & Hs) a [= <-]. auto.
Qed.

Lemma triple_get_row dl :
  triple (λ d, asks d ∧ dl <= s_clock d + TTL)
    (λ r d, ∀ s, r = Ok s → us_SID s = sid ∧ snapshot dl s d ∧ (is_active s = true → servable d)) (GetUserSessionBySID sid).
Proof.
  unfold GetUserSessionBySID. destruct (bool_decide _); [by apply prog_triple_ret|].
  eapply triple_post.
  - apply (prog_triple_weaken _ _ _ _ (λ d, dl <= s_clock d + TTL ∧ asks d)); [|naive_solver].
    apply (triple_read _ (λ r d, (∀ s, r = Ok s → us_SID s = sid ∧ snapshot dl s d) ∧ (∀ s, r = Ok s → is_active s = true → servable d))).
    + apply first_session_db.
    + intros r d d' Hg [H1 H2]. split; intros s E; [destruct (H1 s E); split; [done|by eapply snapshot_stable]|].
      intros Ha. eapply servable_stable; [done|by eapply H2].
    + done.
    + intros d Hw [Hdl Ha]. split.
      * intros s E. eapply first_snapshot; [done|done|by rewrite <- E, <- surjective_pairing].
      * intros s E Hact. destruct (first_session sid (λ _, true) d) as [r d1] eqn:Ef. cbn in E. subst r.
        apply first_session_inv in Ef as (_ & r & Hr & _ & ->). by eapply active_row_servable.
  - intros r d _ [H1 H2] s E. destruct (H1 s E). split_and!; [done|done|]. by apply H2.
Qed.

Lemma triple_get : triple asks (serves us_SID) (GetUserSessionCached o sid).
Proof.
  unfold GetUserSessionCached. destruct (bool_decide _); [by apply prog_triple_ret|].
  apply (fine_bind asks (λ r d, ∀ e, r = Ok (Ok e) → ce_SID e = sid ∧ servable d)); [apply asks_stable| |done| |done].
  { destruct (RedisEnabled o); [|by apply prog_triple_ret]. apply triple_attempt. eapply triple_post; [apply triple_get_cache|].
    intros r d _ Hr e [= ->]. by apply Hr. }
  intros [e|err].
  { apply prog_triple_ret. intros d _ [Hr _] s [= <-]. by destruct (Hr e eq_refl). }
  destruct (_ && _); [by apply prog_triple_ret|]. apply (prog_triple_weaken _ _ _ _ asks); [|naive_solver].
  apply (fine_bind (λ _, True) (λ r d, ∀ z, r = Ok z → z <= s_clock d + TTL)); [apply asks_stable|apply triple_deadline|done| |done].
  intros dl.
  eapply prog_triple_bind; [eapply prog_triple_weaken; [apply (triple_get_row dl)|naive_solver]| |done]. intros s.
  apply (prog_triple_weaken _ _ _ _ (λ d, us_SID s = sid ∧ snapshot dl s d ∧ (is_active s = true → servable d))); [|intros d _ Hs; by apply (Hs s)].
  assert (stable (λ d, us_SID s = sid ∧ snapshot dl s d ∧ (is_active s = true → servable d))) as Hst.
  { intros d d' Hg (? & ? & Hs). split_and!; [done|by eapply snapshot_stable|]. intros Ha. eapply servable_stable; [done|by apply Hs]. }
  apply (fine_bind (λ _, True) (λ _ _, True)); [done|by apply triple_clock|done| |done]. intros now.
  destruct (is_active s) eqn:Ea; cbn [negb orb]; [destruct (_ || _)|].
  - eapply (prog_triple_bind _ _ _ _ (λ _ _, True)); [|by intros; apply prog_triple_ret|done].
    destruct (RedisEnabled o); [|apply fine_ret]. eapply prog_triple_weaken; [by apply (fine_tombstone s dl)|naive_solver].
  - apply (fine_bind (snapshot dl s) (λ _ _, True)); [by apply stable_and| |naive_solver| |done].
    + destruct (RedisEnabled o); [by apply fine_publish|apply fine_ret].
    + intros _. apply prog_triple_ret. intros d _ (_ & _ & E & _ & Hs) a [= <-]. auto.
  - eapply (prog_triple_bind _ _ _ _ (λ _ _, True)); [|by intros; apply prog_triple_ret|done].
    destruct (RedisEnabled o); [|apply fine_ret]. eapply prog_triple_weaken; [by apply (fine_tombstone s dl)|naive_solver].
Qed.
End serve.
End fence.

(** ** Runs *)

Inductive session_op :=
  | OpCreate (s : UserSession)
  | OpGet (sid : string)
  | OpCountActive (userID now : Z)
  | OpCountCreated (userID createdAfter : Z)
  | OpList (userID : Z) (currentSID : string) (now : Z)
  | OpRotate (userID : Z) (sid presentedHash nextHash : string) (now grace : Z)
  | OpRevoke (userID : Z) (sid reason : string)
  | OpRevokeByHash (sid presentedHash reason : string)
  | OpAdvance (userID : Z) (sid : string) (version authVersion nextAuthVersion : Z)
  | OpRevokeMany (fuel : nat) (userID : Z) (excludedSID reason : string)
  | OpDeleteExpired (fuel : nat) (now : Z)
  | OpDeleteRevoked (fuel : nat) (now : Z).

(** What a caller gets: a session that passes, a session with a new refresh
    token, or something else. *)
Inductive outcome :=
  | Served (s : UserSession)
  | Refreshed (r : rotation)
  | Done.

Section runs.
Context `{RedisClockLaws} (o : session_options).

Definition session_prog (op : session_op) : prog sdb outcome :=
  match op with
  | OpCreate s => _ ← CreateUserSession o s; mret Done
  | OpGet sid => s ← GetUserSessionCached o sid; mret (Served s)
  | OpCountActive u now => _ ← CountActiveUserSessions u now; mret Done
  | OpCountCreated u after => _ ← CountUserSessionsCreatedSince u after; mret Done
  | OpList u sid now => _ ← ListActiveUserSessions u sid now; mret Done
  | OpRotate u sid h h' now grace => r ← RotateUserSessionRefresh o u sid h h' now grace; mret (Refreshed r)
  | OpRevoke u sid reason => _ ← RevokeUserSession o u sid reason; mret Done
  | OpRevokeByHash sid h reason => _ ← RevokeUserSessionByRefreshHash o sid h reason; mret Done
  | OpAdvance u sid v av nv => _ ← AdvanceUserSessionAuthVersion o u sid v av nv; mret Done
  | OpRevokeMany fuel u ex reason => _ ← revokeUserSessions o fuel u ex reason; mret Done
  | OpDeleteExpired fuel now => _ ← DeleteExpiredUserSessions o fuel now; mret Done
  | OpDeleteRevoked fuel now => _ ← DeleteOldRevokedUserSessions o fuel now; mret Done
  end.

(** A session version is below the last 64-bit number when it is advanced. *)
Definition session_op_ok (op : session_op) : Prop :=
  match op with OpAdvance _ _ v _ _ => v < max_i64 | _ => True end.

#[local] Abbreviation triple := (triple (sessions_ok o) sessions_move s_clock).
#[local] Abbreviation fine P p := (triple P (λ _ _, True) p).

Lemma fine_count {A} (f : M sdb A) : (∀ d, (f d).2 = d) → fine (λ _, True) (statement f).
Proof. intros Hf. by apply fine_statement, tabular_read. Qed.

Lemma fine_list u sid now : fine (λ _, True) (ListActiveUserSessions u sid now).
Proof.
  unfold ListActiveUserSessions. destruct (_ <=? 0); [done|]. apply fine_or_now. intros z.
  apply fine_then; [done|by apply fine_count|]. intros av. destruct (av <=? 0); [done|].
  apply fine_then; [done|destruct (bool_decide _); [done|by apply fine_count]|]. intros l.
  apply fine_then; [done|by apply fine_count|done].
Qed.

Lemma fine_done {A B} (p : prog sdb A) (k : A → B) : fine (λ _, True) p → fine (λ _, True) (a ← p; mret (k a)).
Proof. intros Hp. by apply fine_then. Qed.

(** A call, started at [t0] when the sessions [S] were sealed. *)
Definition call_post (t0 : Z) (S : gset string) (op : session_op) (r : res outcome) (d : sdb) : Prop :=
  match op with
  | OpGet sid => ∀ s, r = Ok (Served s) → servable o t0 (bool_decide (sid ∈ S)) sid d
  | _ => True
  end.

Lemma get_starts t0 S sid :
  triple (asks t0 (bool_decide (sid ∈ S)) sid) (call_post t0 S (OpGet sid)) (session_prog (OpGet sid)).
Proof.
  eapply prog_triple_bind; [apply triple_get| |done]. intros s. apply prog_triple_ret. intros d _ Hs s' [= <-].
  by destruct (Hs s eq_refl).
Qed.

Lemma session_op_starts t0 S op d :
  session_op_ok op → t0 <= s_clock d → S ⊆ s_sealed d →
  ∃ P, stable sessions_move P ∧ P d ∧ triple P (call_post t0 S op) (session_prog op).
Proof.
  intros Hop Ht HS. destruct op as [s|sid| | | | | | | | | |].
  2: { exists (asks t0 (bool_decide (sid ∈ S)) sid). split_and!; [apply (asks_stable o)| |apply get_starts].
       split; [done|]. intros E%bool_decide_eq_true. auto. }
  all: exists (λ _, True); split; [done|split; [done|]]; cbn [session_prog session_op_ok] in *; apply fine_done.
  - apply fine_create.
  - unfold CountActiveUserSessions. destruct (_ <=? 0); [done|]. apply fine_or_now. intros z. by apply fine_count.
  - unfold CountUserSessionsCreatedSince. destruct (_ || _); [done|]. by apply fine_count.
  - apply fine_list.
  - apply fine_rotate.
  - apply fine_revoke.
  - apply fine_revoke_by_hash.
  - by apply fine_advance.
  - apply fine_revoke_all.
  - apply fine_cutoffs. intros. apply fine_cleanup.
  - apply fine_cutoffs. intros. apply fine_cleanup.
Qed.

Definition post_after (n : nat) (t0 : Z) (S : gset string) (i : nat) (op : session_op) (r : res outcome) (d : sdb) : Prop :=
  if decide (i < n)%nat then True else call_post t0 S op r d.

(** Where calls of a run without processes lead. *)
Definition reached (d : sdb) (acts : list (action session_op)) : config sdb session_op outcome :=
  run_actions session_prog acts (MkConfig d (s_clock d) []).

Lemma reached_fine d acts :
  sessions_ok o d → Forall session_op_ok (spawned acts) →
  config_triple (sessions_ok o) sessions_move s_clock (λ _ _ _ _, True) (reached d acts).
Proof.
  intros Hd Hs. refine (proj1 (interleaving_triple session_prog (sessions_ok o) sessions_move s_clock (session_tick_ok o) _ acts _ _ _)).
  - split_and!; [done|done|]. by intros i op p Hp.
  - eapply Forall_impl; [exact Hs|]. intros op Hop i d' _ Hw Hg.
    destruct (session_op_starts (s_clock d) ∅ op d') as (P & H1 & H2 & H3); [done|apply (g_clock _ _ Hg)|set_solver|].
    exists P. split_and!; [done|done|]. by eapply triple_post.
Qed.

(** Two stretches of a run: a call that starts in the second one and is served. *)
Lemma served_after d acts1 acts2 i sid s :
  sessions_ok o d → Forall session_op_ok (spawned (acts1 ++ acts2)%list) →
  let c := reached d acts1 in
  let c' := run_actions session_prog acts2 c in
  (length (c_procs c) <= i)%nat → c_procs c' !! i = Some (OpGet sid, Ret (Ok (Served s))) →
  servable o (c_now c) (bool_decide (sid ∈ s_sealed (c_db c))) sid (c_db c') ∧ sessions_move (c_db c) (c_db c').
Proof.
  intros Hd Hs c c' Hi Hp. unfold spawned in Hs. rewrite omap_app in Hs. apply Forall_app in Hs as [Hs1 Hs2].
  pose proof (reached_fine d acts1 Hd Hs1) as (Hw & Hclk & Hprocs). fold c in Hw, Hclk, Hprocs.
  set (Q := post_after (length (c_procs c)) (c_now c) (s_sealed (c_db c))).
  destruct (interleaving_triple session_prog (sessions_ok o) sessions_move s_clock (session_tick_ok o) Q acts2 c) as [Hc' Hg].
  - split_and!; [done|done|]. intros j op p Hj. destruct (Hprocs j op p Hj) as (P & H1 & H2 & H3). exists P. split_and!; [done|done|].
    eapply triple_post; [exact H3|]. intros r d' _ _. apply lookup_lt_Some in Hj. unfold Q, post_after. by destruct (decide _).
  - eapply Forall_impl; [exact Hs2|]. intros op Hop j d' Hj Hw' Hg'.
    destruct (session_op_starts (c_now c) (s_sealed (c_db c)) op d') as (P & H1 & H2 & H3);
      [done|rewrite <- Hclk; apply (g_clock _ _ Hg')|apply (g_sealed _ _ Hg')|].
    exists P. split_and!; [done|done|]. eapply triple_post; [exact H3|]. intros r d'' _ Hr. unfold Q, post_after. by destruct (decide _).
  - split; [|done]. pose proof (finished_triple _ _ _ _ _ i (OpGet sid) (Ok (Served s)) Hc' Hp) as Hq.
    unfold Q, post_after in Hq. rewrite decide_False in Hq by lia. by apply (Hq s).
Qed.

(** C13: a revoked session dies with the cache window.  Let a session have left
    the state active at [t].  In every interleaving of all operations, with any
    statement or reply lost, a call of [GetUserSessionCached] that starts a
    cache window and a millisecond later does not return the session: no
    delayed cache fill keeps it alive. *)
Theorem revoked_session_dies_with_window d acts1 acts2 i sid t
    (Hok : sessions_ok o d) (Hops : Forall session_op_ok (spawned (acts1 ++ acts2)%list))
    (Hleft : s_left (c_db (reached d acts1)) !! sid = Some t)
    (Hwindow : t + cache_ttl o + millisecond <= c_now (reached d acts1))
    (Hcall : (length (c_procs (reached d acts1)) <= i)%nat) :
  ∀ s, c_procs (run_actions session_prog acts2 (reached d acts1)) !! i ≠ Some (OpGet sid, Ret (Ok (Served s))).
Proof.
  intros s Hp. destruct (served_after d acts1 acts2 i sid s) as [[Hserve _] Hg]; [done..|].
  unfold leave in Hserve. rewrite (g_left _ _ Hg _ _ Hleft) in Hserve. cbn in Hserve. lia.
Qed.

(** C14: a tombstone is final.  Once a deny entry has been stored for a session
    that has left the state active, no later call of [GetUserSessionCached]
    returns the session, however cache fills that read the row before are
    delayed; the last millisecond before the session expires is excepted. *)
Theorem sealed_session_never_served d acts1 acts2 i sid
    (Hok : sessions_ok o d) (Hops : Forall session_op_ok (spawned (acts1 ++ acts2)%list))
    (Hsealed : sid ∈ s_sealed (c_db (reached d acts1)))
    (Hcall : (length (c_procs (reached d acts1)) <= i)%nat) :
  let c' := run_actions session_prog acts2 (reached d acts1) in
  ¬ late (c_db c') sid → ∀ s, c_procs c' !! i ≠ Some (OpGet sid, Ret (Ok (Served s))).
Proof.
  intros c' Hlate s Hp. destruct (served_after d acts1 acts2 i sid s) as [[_ Hserve] _]; [done..|].
  apply Hlate, Hserve. by apply bool_decide_eq_true.
Qed.
End runs.

(** *** Runs on concrete data *)

#[export] Instance redis_clock : RedisClock := λ when now, when <? now.
#[export] Instance redis_clock_laws : RedisClockLaws.
Proof. split; intros when now ?; unfold redis_expired, redis_clock; [apply Z.ltb_ge|apply Z.ltb_lt]; lia. Qed.

Definition minute_options : session_options := MkSessionOptions true 60 30 86400.
Definition no_sessions : sdb := MkSdb ∅ {[7 := 1]} ∅ 1700000000500000000 ∅ ∅ ∅.
Lemma no_sessions_ok : sessions_ok minute_options no_sessions.
Proof.
  split; cbn; try (intros sid ? Hs; rewrite lookup_empty in Hs; done).
  - intros sid [? Hs]. rewrite lookup_empty in Hs. done.
  - intros sid Hs. set_solver.
Qed.

Definition login : UserSession :=
  MkUserSession "s1" 7 1 1 "active" "h1" "" 0 "password" "ip" "agent" 0 0 1700086400 0 "".
(** A session is created; a reader misses the cache, reads the row and stalls;
    the session is revoked. *)
Definition stalled_fill : list (action session_op) :=
  Spawn (OpCreate login) :: replicate 12 (Step 0) ++
  Spawn (OpGet "s1") :: Fault 1 "redis down" :: replicate 4 (Step 1) ++
  Spawn (OpRevoke 7 "s1" "logout") :: replicate 20 (Step 2).
(** The reader goes on and another call arrives. *)
Definition late_call : list (action session_op) := replicate 12 (Step 1) ++ Spawn (OpGet "s1") :: replicate 20 (Step 3).

Lemma revoked_session_dies_with_window_witness :
  let acts1 := (stalled_fill ++ [Tick 61000000000])%list in
  let c' := run_actions (session_prog minute_options) late_call (reached minute_options no_sessions acts1) in
  c_procs c' !! 3%nat = Some (OpGet "s1", Ret (Err ErrUserSessionInactive)) ∧
  ∀ s, c_procs c' !! 3%nat ≠ Some (OpGet "s1", Ret (Ok (Served s))).
Proof.
  intros acts1 c'. split; [by vm_compute|].
  assert (Forall session_op_ok (spawned (acts1 ++ late_call)%list)) as Hops by (by repeat constructor).
  assert (s_left (c_db (reached minute_options no_sessions acts1)) !! "s1" = Some 1700000000500000000) as Hleft by (by vm_compute).
  assert (1700000000500000000 + cache_ttl minute_options + millisecond <= c_now (reached minute_options no_sessions acts1))
    as Hwindow by (by vm_compute).
  assert (length (c_procs (reached minute_options no_sessions acts1)) <= 3)%nat as Hcall by (vm_compute; lia).
  exact (revoked_session_dies_with_window minute_options no_sessions acts1 late_call 3 "s1" _ no_sessions_ok Hops Hleft Hwindow Hcall).
Defined.

Lemma sealed_session_never_served_witness :
  let c' := run_actions (session_prog minute_options) late_call (reached minute_options no_sessions stalled_fill) in
  c_procs c' !! 3%nat = Some (OpGet "s1", Ret (Err ErrUserSessionInactive)) ∧
  ∀ s, c_procs c' !! 3%nat ≠ Some (OpGet "s1", Ret (Ok (Served s))).
Proof.
  intros c'. split; [by vm_compute|].
  assert (Forall session_op_ok (spawned (stalled_fill ++ late_call)%list)) as Hops by (by repeat constructor).
  assert (bool_decide ("s1" ∈ s_sealed (c_db (reached minute_options no_sessions stalled_fill))) = true) as Hsealed by (by vm_compute).
  apply bool_decide_eq_true in Hsealed.
  assert (length (c_procs (reached minute_options no_sessions stalled_fill)) <= 3)%nat as Hcall by (vm_compute; lia).
  assert (¬ late (c_db c') "s1") as Hlate.
  { assert (s_issued (c_db c') !! "s1" = Some (1700086400, 1)) as Ei by (by vm_compute).
    assert ((1700086400 * 1000 - 1 <=? UnixMilli (s_clock (c_db c'))) = false) as Ec by (by vm_compute).
    clearbody c'. intros (e & v & Hi & Hl). rewrite Ei in Hi. injection Hi as <- <-. apply Z.leb_gt in Ec. lia. }
  exact (sealed_session_never_served minute_options no_sessions stalled_fill late_call 3 "s1" no_sessions_ok Hops Hsealed Hcall Hlate).
Defined.
