(* ===== verification/SessionTokens.v ===== *)
(** * Refresh tokens are used once, and mass revocation ends

    Theorems on UserSession.  In every interleaving a refresh hash is rotated
    as often as it was installed.  A run of [revokeUserSessions] that is not
    disturbed terminates, revokes exactly the active sessions of the user and
    leaves a tombstone for each; the clean-up deletes exactly the rows it is
    asked to. *)

From stdpp Require Import sorting.
From S2P Require Import Prelude GoStrings Interleave UserSession SessionFence.
#[local] Open Scope string_scope.
#[local] Open Scope Z_scope.

(** ** One rotation *)

Section once.
Context `{RedisClock} (o : session_options) (sid h : string).

(** Whether the hash can still be presented: it is the current one, or the
    session does not exist yet. *)
Definition holds (d : sdb) : nat :=
  match user_sessions d !! sid with
  | Some s => if decide (us_RefreshHash s = h) then 1 else 0
  | None => if decide (is_Some (s_issued d !! sid)) then 0 else 1
  end.
Definition rows_issued (d : sdb) : Prop := ∀ k s, user_sessions d !! k = Some s → is_Some (s_issued d !! k).

(** Programs whose statements install no hash. *)
Fixpoint calm {A} (p : prog sdb A) : Prop :=
  match p with
  | Ret _ => True
  | Now k => ∀ z, calm (k z)
  | Query f k => (∀ d, rows_issued d → rows_issued (f d).2 ∧ (holds (f d).2 <= holds d)%nat) ∧ (∀ r, calm (k r))
  end.

Lemma calm_bind {A B} (p : prog sdb A) (k : A → prog sdb B) : calm p → (∀ a, calm (k a)) → calm (p ≫= k).
Proof.
  intros Hp Hk. unfold mbind, prog_mbind. induction p as [[a|e]|k' IH|X f k' IH]; cbn in *; [auto|done|auto|].
  destruct Hp as [H1 H2]. auto.
Qed.
Lemma calm_attempt {A} (p : prog sdb A) : calm p → calm (attempt p).
Proof. induction p as [r|k IH|X f k IH]; cbn; [done|auto|]. intros [H1 H2]. auto. Qed.
Lemma calm_pays {A} (p : prog sdb A) (cost : res A → nat) n :
  calm p → (∀ r, (cost r <= n)%nat) → pays rows_issued holds cost n p.
Proof.
  intros Hp Hc. induction p as [r|k IH|X f k IH]; cbn in *; [auto|auto|]. destruct Hp as [H1 H2]. split; [|auto].
  intros d Hd. destruct (H1 d Hd). split; [done|]. exists n. split; [lia|auto].
Qed.
Lemma calm_execute {A} (f : M sdb A) :
  (∀ d, rows_issued d → rows_issued (f d).2 ∧ (holds (f d).2 <= holds d)%nat) → calm (execute f).
Proof. intros Hf. unfold execute. apply calm_bind; [by split|]. intros a. apply calm_bind; [by split|done]. Qed.
Lemma calm_same {A} (f : M sdb A) :
  (∀ d, user_sessions (f d).2 = user_sessions d ∧ s_issued (f d).2 = s_issued d) → calm (execute f).
Proof.
  intros Hf. apply calm_execute. intros d Hd. destruct (Hf d) as [E1 E2]. unfold holds, rows_issued. rewrite E1, E2. done.
Qed.

(** Statements that keep the hashes of rows. *)
Definition keeps_hashes {A} (f : M sdb A) : Prop := ∀ d, ∃ T', (f d).2 = d <| user_sessions := T' |> ∧
  ∀ k s', T' !! k = Some s' →
    match user_sessions d !! k with Some s => us_RefreshHash s' = us_RefreshHash s | None => s_issued d !! k = None end.

Lemma note_rows_issued d T' : rows_issued d → rows_issued (note d (d <| user_sessions := T' |>)).
Proof.
  intros Hd k s Hs. change (T' !! k = Some s) in Hs. rewrite note_issued, Hs. by eexists.
Qed.
(** The number after a statement, by what it did to the row. *)
Lemma holds_note d T' :
  rows_issued d →
  holds (note d (d <| user_sessions := T' |>)) =
  match T' !! sid with
  | Some s => if decide (us_RefreshHash s = h) then 1%nat else 0%nat
  | None => if decide (is_Some (s_issued d !! sid)) then 0%nat else 1%nat
  end.
Proof.
  intros Hd. unfold holds. rewrite note_issued. cbn [user_sessions note]. change (user_sessions (note d (d <| user_sessions := T' |>))) with T'.
  by destruct (T' !! sid).
Qed.

Lemma keeps_hashes_calm {A} (f : M sdb A) : keeps_hashes f → calm (statement f).
Proof.
  intros Hf. apply calm_execute. intros d Hd. destruct (Hf d) as (T' & E & HT). destruct (f d) as [r d']. cbn in *. subst d'.
  split; [by apply note_rows_issued|]. rewrite holds_note by done. unfold holds. destruct (T' !! sid) as [s'|] eqn:E'.
  - specialize (HT _ _ E'). destruct (user_sessions d !! sid) as [s|]; [by rewrite HT|]. rewrite HT.
    rewrite (decide_False (P := is_Some None)) by (by intros []). destruct (decide _); lia.
  - destruct (user_sessions d !! sid) as [s|] eqn:Es; [|done]. rewrite decide_True by (by eapply Hd). lia.
Qed.

Lemma hashes_same d : ∀ k s', user_sessions d !! k = Some s' →
  match user_sessions d !! k with Some s => us_RefreshHash s' = us_RefreshHash s | None => s_issued d !! k = None end.
Proof. by intros k s' ->. Qed.
Lemma read_keeps_hash {A} (f : M sdb A) : (∀ d, (f d).2 = d) → keeps_hashes f.
Proof. intros Hf d. exists (user_sessions d). rewrite Hf. split; [by destruct d|apply hashes_same]. Qed.
Lemma keeps_update k cond set : (∀ s, us_RefreshHash (set s) = us_RefreshHash s) → keeps_hashes (update_session k cond set).
Proof.
  intros Hset d. unfold update_session. destruct (user_sessions d !! k) as [s|] eqn:E; [destruct (cond s)|];
    [eexists; split; [done|]|exists (user_sessions d); split; [by destruct d|apply hashes_same]..].
  intros j r [[<- <-]|[_ Hr]]%lookup_insert_Some; [rewrite E; apply Hset|by rewrite Hr].
Qed.
Lemma create_keeps_hash s : keeps_hashes (create_session s).
Proof.
  intros d. unfold create_session. case_decide as Hd; [exists (user_sessions d); split; [by destruct d|apply hashes_same]|].
  eexists. split; [done|]. intros j r [[<- <-]|[_ Hr]]%lookup_insert_Some; [|by rewrite Hr].
  apply Decidable.not_or in Hd as [H1%eq_None_not_Some H2%eq_None_not_Some]. by rewrite H1.
Qed.
Lemma keeps_revoke_tx u k now reason : keeps_hashes (revoke_tx u k now reason).
Proof.
  intros d. unfold revoke_tx, mbind, M_bind. pose proof (first_session_db k (λ r, us_UserID r =? u) d) as Ed.
  destruct (first_session _ _ d) as [[s|e] d1]; cbn in Ed; subst d1; [|exists (user_sessions d); split; [by destruct d|apply hashes_same]].
  destruct (session_over now s); [exists (user_sessions d); split; [by destruct d|apply hashes_same]|].
  destruct (keeps_update k is_active (revoke_row now reason) (λ _, eq_refl) d) as (T' & E & HT). exists T'.
  by destruct (update_session _ _ _ d) as [[n|e] d2].
Qed.
Lemma keeps_batch sids now reason : keeps_hashes (revoke_batch_tx sids now reason).
Proof.
  intros d. eexists. split; [done|]. intros k s'. rewrite lookup_fmap. intros (s & Hs & ->)%fmap_Some. rewrite Hs. by destruct (_ && _).
Qed.
Lemma keeps_delete sids cond : keeps_hashes (delete_sessions sids cond).
Proof. intros d. eexists. split; [done|]. intros k s' [Hs _]%map_lookup_filter_Some. by rewrite Hs. Qed.
Lemma keeps_advance u k now v av nv : keeps_hashes (advance_tx u k now v av nv).
Proof.
  intros d. unfold advance_tx, mbind, M_bind. pose proof (first_session_db k (λ r, us_UserID r =? u) d) as Ed.
  destruct (first_session _ _ d) as [[s|e] d1]; cbn in Ed; subst d1; [|exists (user_sessions d); split; [by destruct d|apply hashes_same]].
  destruct (_ || _); [exists (user_sessions d); split; [by destruct d|apply hashes_same]|]. cbv zeta.
  match goal with |- context [update_session k ?c ?f d] => destruct (keeps_update k c f (λ _, eq_refl) d) as (T' & E & HT) end.
  exists T'. destruct (update_session _ _ _ d) as [[n|e] d2]; [by destruct (n =? 1)|done].
Qed.

(** *** The programs *)

Create HintDb calm.
#[local] Hint Resolve read_keeps_hash create_keeps_hash keeps_revoke_tx keeps_batch keeps_delete keeps_advance first_session_db : calm.
#[local] Hint Extern 1 (keeps_hashes (update_session _ _ _)) => apply keeps_update; by intros : calm.
#[local] Hint Extern 1 (keeps_hashes _) => apply read_keeps_hash; done : calm.
Ltac calm_step :=
  first
    [ done
    | match goal with H : _ |- _ => apply H end
    | match goal with |- calm (statement _) => apply keeps_hashes_calm; solve [auto with calm] end
    | match goal with |- calm (_ ≫= _) => apply calm_bind; [|intros ?] end
    | match goal with |- calm (attempt _) => apply calm_attempt end
    | match goal with
      | |- calm (clock) => by intros ?
      | |- calm (if ?b then _ else _) => destruct b
      | |- calm (match ?x with _ => _ end) => destruct x
      end ].
Ltac calm_tac := repeat calm_step.

Lemma calm_script e x : calm (execute (session_script e x)).
Proof.
  apply calm_same. intros d. unfold session_script. destruct (_ && _); [done|]. destruct (_ <? _); [done|].
  by destruct (_ <=? _).
Qed.
Lemma calm_write e dl : calm (writeUserSessionCache o e dl).
Proof. unfold writeUserSessionCache, of_res. pose proof calm_script. calm_tac. Qed.
Lemma calm_confirm s : calm (confirmUserSessionActiveSnapshot s).
Proof. unfold confirmUserSessionActiveSnapshot. calm_tac. Qed.
Lemma calm_publish s dl f : calm (publish_active o s dl f).
Proof. unfold publish_active. apply calm_bind; [apply calm_attempt, calm_write|]. intros r. pose proof calm_confirm. calm_tac. Qed.
Lemma calm_logged p : calm p → calm (logged p).
Proof. intros Hp. unfold logged. calm_tac. Qed.
Lemma calm_fence s status now reason : calm (writeUserSessionDenyFence o s status now reason).
Proof. unfold writeUserSessionDenyFence. calm_step; [done|apply calm_write]. Qed.
Lemma calm_each {A} (f : A → prog sdb unit) l : (∀ a, calm (f a)) → calm (each f l).
Proof. intros Hf. induction l as [|a l IH]; [done|]. cbn [each]. by apply calm_bind. Qed.
#[local] Hint Resolve calm_write calm_confirm calm_publish calm_fence : calm.
#[local] Hint Extern 1 (calm (logged _)) => apply calm_logged : calm.
Ltac calm_all := repeat first [calm_step | solve [auto with calm] | apply calm_each; intros ?].

Lemma calm_or_now now : calm (or_now now).
Proof. unfold or_now. calm_all. Qed.
#[local] Hint Resolve calm_or_now : calm.
Lemma calm_get_cached k : calm (GetUserSessionCached o k).
Proof.
  unfold GetUserSessionCached, getUserSessionCache, userSessionCacheDeadline, GetUserSessionBySID.
  assert (calm (execute (redis_get k))) by (by apply calm_same). calm_all.
Qed.
Lemma calm_revoke_loop fuel u ex now reason n : calm (revoke_loop o fuel u ex now reason n).
Proof. revert n. induction fuel as [|fuel IH]; intros n; [done|]. cbn [revoke_loop]. calm_all; auto. Qed.
Lemma calm_cleanup fuel cond key : calm (cleanup_loop fuel cond key).
Proof. induction fuel as [|fuel IH]; [done|]. cbn [cleanup_loop]. calm_all. Qed.
#[local] Hint Resolve calm_get_cached calm_revoke_loop calm_cleanup : calm.

(** Every operation but the rotation. *)
Lemma calm_op op : match op with OpRotate _ _ _ _ _ _ => True | _ => calm (session_prog o op) end.
Proof.
  destruct op; cbn [session_prog]; try done;
    unfold CreateUserSession, userSessionCacheDeadline, CountActiveUserSessions, CountUserSessionsCreatedSince, ListActiveUserSessions,
      RevokeUserSession, RevokeUserSessionByRefreshHash, AdvanceUserSessionAuthVersion, revokeUserSessions,
      DeleteExpiredUserSessions, DeleteOldRevokedUserSessions, with_cutoffs, deleteExpiredUserSessionsBefore,
      deleteRevokedUserSessionsBefore; cbv zeta; calm_all.
Qed.

(** *** The rotation *)

Definition presents (sid' presented : string) : nat := if decide (sid' = sid ∧ presented = h) then 1 else 0.
Definition rotation_cost (sid' presented : string) (r : res rotation) : nat :=
  match r with Ok (Rotated _) => presents sid' presented | _ => 0 end.

(** A statement and what follows it. *)
Lemma pays_statement {A B} (f : M sdb A) (k : A → prog sdb B) cost n :
  (∀ e, cost (Err e) = 0%nat) →
  (∀ d, rows_issued d → rows_issued (note d (f d).2) ∧ ∃ n', (holds (note d (f d).2) + n' <= holds d + n)%nat ∧
     match (f d).1 with Ok a => pays rows_issued holds cost n' (k a) | Err _ => True end) →
  pays rows_issued holds cost n (a ← statement f; k a).
Proof.
  intros Hc Hf. split; [|intros msg; cbn; rewrite Hc; lia]. intros d Hd. destruct (Hf d Hd) as (H1 & n' & H2 & H3).
  destruct (f d) as [r d']. cbn in *. split; [done|]. exists n'. split; [done|]. destruct r as [a|e]; cbn; [|rewrite Hc; lia].
  split; [|intros msg; rewrite Hc; lia]. intros d1 Hd1. split; [done|]. by exists n'.
Qed.

(** The compare-and-swap: the presented hash is gone, the next one is there. *)
Lemma swap_holds d u k p p' q vu now r :
  rows_issued d → p ≠ p' → user_sessions d !! k = Some r → us_RefreshHash r = p →
  (holds (note d (d <| user_sessions := <[k := rotate_row q p' vu now r]> (user_sessions d) |>)) + presents k p
     <= holds d + presents k p' + u)%nat.
Proof.
  intros Hd Hne Hr Hp. rewrite holds_note by done. unfold presents, holds. destruct (decide (k = sid)) as [->|Hk].
  - rewrite lookup_insert_eq, Hr. cbn. repeat case_decide; try lia; exfalso; naive_solver.
  - rewrite lookup_insert_ne by done.
    rewrite (decide_False (P := k = sid ∧ p = h)), (decide_False (P := k = sid ∧ p' = h)) by (by intros []). lia.
Qed.

Lemma rotate_loop_pays tries u k p p' now g :
  p ≠ p' → pays rows_issued holds (rotation_cost k p) (presents k p') (rotate_loop o tries u k p p' now g).
Proof.
  intros Hne. induction tries as [|tries IH]; [cbn; lia|]. cbn [rotate_loop].
  intros z. cbn [prog_bind]. apply pays_statement; [done|]. intros d Hd.
  assert (calm (statement (first_session k (λ r, us_UserID r =? u)))) as [Hcalm _]. { apply keeps_hashes_calm. auto with calm. }
  destruct (Hcalm d Hd) as [H1 H2]. clear Hcalm. destruct (first_session _ _ d) as [r d'] eqn:Ef. cbn in H1, H2 |- *.
  split; [done|]. exists (presents k p'). split; [lia|]. destruct r as [s|e]; [|done]. clear - Hne IH.
  destruct (_ || _ || _); [cbn; lia|]. unfold hash_eq at 1. case_bool_decide as Eh.
  - cbv zeta. apply pays_statement; [done|]. intros d Hd. unfold update_session.
    assert (rows_issued (note d d) ∧ (holds (note d d) <= holds d)%nat) as [Hn1 Hn2].
    { replace (note d d) with (note d (d <| user_sessions := user_sessions d |>)) by (by destruct d).
      split; [by apply note_rows_issued|]. rewrite holds_note by done. unfold holds. by destruct (user_sessions d !! sid). }
    destruct (user_sessions d !! k) as [r|] eqn:Er; [destruct (_ && _) eqn:Ec|]; cbn [fst snd].
    + apply andb_prop in Ec as [_ Ec%bool_decide_eq_true]. split; [by apply note_rows_issued|]. exists (presents k p).
      split; [refine (Nat.le_trans _ _ _ (swap_holds d 0 k p p' (us_RefreshHash s) (i64 (now + g)) now r Hd Hne Er Ec) _); lia|].
      cbn [Z.eqb]. apply calm_pays; [|intros [[]|]; cbn; lia]. apply calm_bind; [apply calm_publish|done].
    + split; [done|]. exists (presents k p'). split; [lia|]. exact IH.
    + split; [done|]. exists (presents k p'). split; [lia|]. exact IH.
  - destruct (_ || _); [cbn; lia|]. destruct (_ <=? _); [cbn; lia|].
    apply (pays_mono _ _ _ 0); [lia|]. unfold revoke_reused.
    apply (pays_bind _ _ (λ _, 0%nat)); [apply calm_pays; [apply calm_fence|done]| |done]. intros _ n _.
    apply (pays_mono _ _ _ 0); [lia|].
    apply (pays_bind _ _ (λ _, 0%nat)); [apply calm_pays; [apply keeps_hashes_calm; auto with calm|done]| |done]. intros m n' _.
    apply (pays_mono _ _ _ 0); [lia|]. destruct (m =? 0); [cbn; lia|].
    apply (pays_bind _ _ (λ _, 0%nat)); [apply calm_pays; [apply calm_logged, calm_write|done]| |done]. intros _ n'' _. cbn. lia.
Qed.

Definition rotated_by (op : session_op) (r : res outcome) : nat :=
  match op, r with OpRotate _ k p _ _ _, Ok (Refreshed (Rotated _)) => presents k p | _, _ => 0 end.
Definition installs (op : session_op) : nat := match op with OpRotate _ k _ p' _ _ => presents k p' | _ => 0 end.

Lemma session_op_pays op : pays rows_issued holds (rotated_by op) (installs op) (session_prog o op).
Proof.
  pose proof (calm_op op) as Hc. destruct op as [| | | | |u k p p' now grace| | | | | |];
    try (apply calm_pays; [exact Hc|intros []; cbn; lia]).
  cbn [session_prog installs]. unfold RotateUserSessionRefresh, hash_eq.
  destruct (_ || _ || _ || _ || bool_decide (p = p')) eqn:Eg; [cbn; lia|].
  apply orb_false_iff in Eg as [_ Hne%bool_decide_eq_false].
  apply (pays_bind _ _ (rotation_cost k p)); [|intros [] n Hn; cbn in *; lia|done].
  assert (∀ z, pays rows_issued holds (rotation_cost k p) (presents k p')
    (let graceSeconds := Z.quot grace second in
     if graceSeconds <? 0 then throw ErrUserSessionInvalid else rotate_loop o 3 u k p p' z graceSeconds)) as Hrest.
  { intros z. cbv zeta. destruct (_ <? 0); [cbn; lia|]. by apply rotate_loop_pays. }
  unfold or_now. destruct (now <=? 0); [intros z; apply Hrest|apply Hrest].
Qed.

(** C15: a refresh token is rotated once.  Whatever the interleaving and the
    failures, the calls of [RotateUserSessionRefresh] that present a hash and
    get a new one are no more than the times the hash was current at the start
    or was to be installed by a rotation (a session that does not exist yet may
    be created with it). *)
Theorem refresh_hash_rotates_once acts d (Hrows : rows_issued d) :
  (spent rotated_by (run_actions (session_prog o) acts (MkConfig d (s_clock d) []))
   <= holds d + sum_list_with installs (spawned acts))%nat.
Proof.
  apply (interleaving_pays (session_prog o) rows_issued holds rotated_by installs).
  - intros dt d' Hd'. split; [exact Hd'|]. done.
  - split; [done|]. exists []. split; [cbn; lia|constructor].
  - apply Forall_true. apply session_op_pays.
Qed.
End once.

(** Two browsers present the same token at once: one rotates it, the other
    loses the race. *)
Lemma refresh_hash_rotates_once_witness :
  let d := c_db (reached minute_options no_sessions (Spawn (OpCreate login) :: replicate 12 (Step 0))) in
  let rotate h' := OpRotate 7 "s1" "h1" h' 1700000001 0 in
  let acts := Spawn (rotate "h2") :: Spawn (rotate "h2") :: replicate 3 (Step 0) ++ replicate 20 (Step 1) ++ replicate 20 (Step 0) in
  let c := run_actions (session_prog minute_options) acts (MkConfig d (s_clock d) []) in
  spent (rotated_by "s1" "h1") c = 1%nat ∧ (spent (rotated_by "s1" "h1") c <= holds "s1" "h1" d + 0)%nat.
Proof.
  intros d rotate acts c. split; [by vm_compute|].
  assert (rows_issued d) as Hrows.
  { destruct (reached_fine minute_options no_sessions (Spawn (OpCreate login) :: replicate 12 (Step 0))) as [Hw _];
      [apply no_sessions_ok|by repeat constructor|].
    intros k s Hk. exists (us_ExpiresAt s, us_Version s). exact (w_issued _ _ Hw _ _ Hk). }
  exact (refresh_hash_rotates_once minute_options "s1" "h1" acts d Hrows).
Defined.

(** ** Mass revocation, undisturbed *)

Section alone.
Context `{RedisClockLaws} (o : session_options).

Lemma run_execute {A} now (f : M sdb A) d : run_prog now (execute f) d = f d.
Proof. unfold execute. rewrite run_prog_bind, run_prog_query. by destruct (f d) as [[a|e] d']. Qed.
Lemma run_statement {A} now (f : M sdb A) d : run_prog now (statement f) d = let '(r, d') := f d in (r, note d d').
Proof. apply run_execute. Qed.

(** The table is kept, and nothing is unsealed. *)
Record same_rows (d d' : sdb) : Prop := {
  sr_rows : user_sessions d' = user_sessions d;
  sr_issued : s_issued d' = s_issued d;
  sr_left : s_left d' = s_left d;
  sr_clock : s_clock d' = s_clock d;
  sr_sealed : s_sealed d ⊆ s_sealed d'
}.
#[global] Instance same_rows_preorder : PreOrder same_rows.
Proof. split; [by split|]. intros d1 d2 d3 [] []. split; [congruence..|set_solver]. Qed.

Lemma script_same_rows e x d : same_rows d (session_script e x d).2.
Proof.
  unfold session_script. destruct (_ && _); [done|]. destruct (_ <? _); [done|]. destruct (_ <=? _); [done|].
  split; try done. cbn. destruct (negb _ && _); [apply union_subseteq_r|done].
Qed.

(** Writing a deny entry for the current version of a session succeeds. *)
Lemma run_deny e d :
  sessions_ok o d → entry_denied e = true → 0 < ce_Version e →
  s_issued d !! ce_SID e = Some (ce_ExpiresAt e, ce_Version e) →
  ∃ d', run_prog (s_clock d) (writeUserSessionCache o e None) d = (Ok tt, d') ∧ sessions_ok o d' ∧ same_rows d d' ∧
    (RedisEnabled o = true → is_Some (s_left d !! ce_SID e) → ce_SID e ∈ s_sealed d').
Proof.
  intros Hw Hden Hpos Hi. pose proof (denied_inactive e Hden) as Ha. unfold writeUserSessionCache.
  destruct (RedisEnabled o); cbn [negb]; [|by exists d]. rewrite run_prog_bind. cbn [run_prog clock].
  destruct (cache_expiration o e None (s_clock d)) as [x|err] eqn:Ex; [|unfold cache_expiration in Ex; by rewrite Ha in Ex].
  assert (known d (ce_SID e) (ce_ExpiresAt e) (ce_Version e)) as Hk by (exists (ce_Version e); split; [done|lia]).
  assert (expiration_ok o d e x) as Hx.
  { eapply expiration_fits; [done|reflexivity|]. split; [done|]. by rewrite Ha. }
  rewrite !run_prog_bind. cbn [of_res run_prog]. rewrite run_prog_bind, run_execute.
  destruct (script_ok o d Hw e x Hk Hx) as (Hw' & _ & _). pose proof (script_same_rows e x d) as Hsame.
  assert ((session_script e x d).1 = Ok 1 ∧ (is_Some (s_left d !! ce_SID e) → ce_SID e ∈ s_sealed (session_script e x d).2)) as [E1 E2].
  { clear Hw' Hsame. unfold session_script. rewrite Ha. cbn [andb negb].
    destruct (_ <? _) eqn:Ev.
    - exfalso. apply Z.ltb_lt in Ev. unfold cache_live in Ev. destruct (s_cache d !! ce_SID e) as [c|] eqn:Ec; [|lia].
      destruct (redis_expired _ _); [lia|]. destruct (w_cache _ _ Hw _ _ Ec) as (_ & (v & Hi' & Hv) & _).
      rewrite Hi in Hi'. injection Hi' as _ <-. lia.
    - destruct (_ <=? _) eqn:El; [|].
      + exfalso. apply Z.leb_le in El. unfold expiration_ok in Hx. rewrite Ha in Hx. lia.
      + split; [done|]. intros Hl. cbn. rewrite bool_decide_eq_true_2 by done. set_solver. }
  destruct (session_script e x d) as [r d']. cbn in *. subst r. rewrite Ha. cbn. exists d'. auto.
Qed.

(** Deny entries for rows of the table, one after the other. *)
Lemma run_each_deny (f : UserSession → prog sdb unit) (entry : UserSession → userSessionCacheEntry) l d :
  (∀ s d, sessions_ok o d → entry_denied (entry s) = true → 0 < ce_Version (entry s) →
     s_issued d !! ce_SID (entry s) = Some (ce_ExpiresAt (entry s), ce_Version (entry s)) →
     ∃ d', run_prog (s_clock d) (f s) d = (Ok tt, d') ∧ sessions_ok o d' ∧ same_rows d d' ∧
       (RedisEnabled o = true → is_Some (s_left d !! ce_SID (entry s)) → ce_SID (entry s) ∈ s_sealed d')) →
  sessions_ok o d →
  (∀ s, s ∈ l → entry_denied (entry s) = true ∧ 0 < ce_Version (entry s) ∧
     s_issued d !! ce_SID (entry s) = Some (ce_ExpiresAt (entry s), ce_Version (entry s))) →
  ∃ d', run_prog (s_clock d) (each f l) d = (Ok tt, d') ∧ sessions_ok o d' ∧ same_rows d d' ∧
    (RedisEnabled o = true → ∀ s, s ∈ l → is_Some (s_left d !! ce_SID (entry s)) → ce_SID (entry s) ∈ s_sealed d').
Proof.
  intros Hf. revert d. induction l as [|s l IH]; intros d Hw Hl.
  { exists d. split_and!; [done|done|done|]. intros _ s Hs. by apply not_elem_of_nil in Hs. }
  cbn [each]. destruct (Hl s) as (H1 & H2 & H3); [by left|].
  destruct (Hf s d Hw H1 H2 H3) as (d1 & E1 & Hw1 & S1 & L1). rewrite run_prog_bind, E1.
  destruct (IH d1 Hw1) as (d2 & E2 & Hw2 & S2 & L2).
  { intros r Hr. rewrite (sr_issued _ _ S1). apply Hl. by right. }
  rewrite (sr_clock _ _ S1) in E2. exists d2. split_and!; [done|done|by etrans|].
  intros Hen r [->|Hr]%elem_of_cons Hleft; [by apply (sr_sealed _ _ S2), L1|]. apply L2; [done|done|].
  by rewrite (sr_left _ _ S1).
Qed.

Lemma run_logged_deny e d :
  sessions_ok o d → entry_denied e = true → 0 < ce_Version e → s_issued d !! ce_SID e = Some (ce_ExpiresAt e, ce_Version e) →
  ∃ d', run_prog (s_clock d) (logged (writeUserSessionCache o e None)) d = (Ok tt, d') ∧ sessions_ok o d' ∧ same_rows d d' ∧
    (RedisEnabled o = true → is_Some (s_left d !! ce_SID e) → ce_SID e ∈ s_sealed d').
Proof.
  intros Hw H1 H2 H3. destruct (run_deny e d Hw H1 H2 H3) as (d' & E & Hrest). exists d'. split; [|exact Hrest].
  unfold logged. rewrite run_prog_bind, run_prog_attempt, E. done.
Qed.

(** *** A batch *)

Lemma select_nodup d cond : sessions_ok o d → NoDup (select_sessions cond d).
Proof.
  intros Hw. apply NoDup_filter, (NoDup_fmap_1 us_SID). rewrite <- list_fmap_compose.
  rewrite (list_fmap_ext _ fst); [apply NoDup_fst_map_to_list|]. intros i [k s] Hi.
  apply (w_key _ _ Hw), elem_of_map_to_list, list_elem_of_lookup. eauto.
Qed.
Lemma row_by_sid d s s' : sessions_ok o d → (∃ k, user_sessions d !! k = Some s) → (∃ k, user_sessions d !! k = Some s') →
  us_SID s = us_SID s' → s = s'.
Proof.
  intros Hw [k Hk] [k' Hk'] E. pose proof (w_key _ _ Hw _ _ Hk). pose proof (w_key _ _ Hw _ _ Hk'). congruence.
Qed.

(** A statement that reads adds nothing to the history. *)
Lemma note_read d : sessions_ok o d → note d d = d.
Proof.
  intros Hw. assert (s_issued (note d d) = s_issued d) as E1.
  { apply map_eq. intros k. unfold note. cbn. rewrite lookup_union, lookup_fmap. destruct (user_sessions d !! k) as [s|] eqn:E; cbn;
      [rewrite union_Some_l; by rewrite (w_issued _ _ Hw _ _ E)|apply union_None]. }
  assert (s_left (note d d) = s_left d) as E2.
  { apply map_eq. intros k. unfold note. cbn. rewrite lookup_union, map_lookup_imap. unfold active_in.
    destruct (user_sessions d !! k) as [s|]; cbn; [rewrite andb_negb_r|]; by destruct (s_left d !! k). }
  unfold note in *. cbn in E1, E2. rewrite E1, E2. by destruct d.
Qed.

Section batch.
Context (userID : Z) (ex : string) (now : Z) (reason : string) (d : sdb) (Hw : sessions_ok o d).
Let rev := revocable userID ex now.
Let C := take userSessionRevokeBatchSize (merge_sort by_sid (select_sessions rev d)).
Let hit s := bool_decide (us_SID s ∈ us_SID <$> C) && is_active s.
Let d' := d <| user_sessions ::= fmap (λ s, if hit s then revoke_row now reason s else s) |>.

Lemma batch_rows s : s ∈ C → rev s = true ∧ ∃ k, user_sessions d !! k = Some s.
Proof.
  intros Hs. apply elem_of_take in Hs as (i & Hi & _). apply list_elem_of_lookup_2 in Hi.
  rewrite merge_sort_Permutation in Hi. by apply select_sessions_rows in Hi.
Qed.
Lemma batch_nodup : NoDup C.
Proof. eapply sublist_NoDup; [|apply sublist_take]. rewrite merge_sort_Permutation. by apply select_nodup. Qed.
Lemma rev_active s : rev s = true → is_active s = true.
Proof. unfold rev, revocable. intros [[[_ Ha]%andb_prop _]%andb_prop _]%andb_prop. done. Qed.
Lemma revoked_not_rev s : rev (revoke_row now reason s) = false.
Proof. unfold rev, revocable, revoke_row, is_active. cbn. by rewrite andb_false_r. Qed.

Lemma hit_spec s k : user_sessions d !! k = Some s → hit s = true ↔ s ∈ C.
Proof.
  intros Hk. unfold hit. rewrite andb_true_iff, bool_decide_eq_true, list_elem_of_fmap. split.
  - intros [(s' & E & Hs') _]. destruct (batch_rows s' Hs') as [_ Hrow]. by rewrite (row_by_sid d s s' Hw (ex_intro _ k Hk) Hrow E).
  - intros Hs. split; [eauto|]. apply rev_active. by apply batch_rows.
Qed.

(** The transaction revokes exactly the candidates. *)
Lemma batch_hits : select_sessions hit d ≡ₚ C.
Proof.
  apply NoDup_Permutation; [by apply select_nodup|apply batch_nodup|]. intros s. rewrite select_sessions_rows. split.
  - intros [Hh [k Hk]]. by apply (hit_spec s k).
  - intros Hs. destruct (batch_rows s Hs) as [_ [k Hk]]. split; [by apply (hit_spec s k)|eauto].
Qed.

Lemma batch_lookup k : user_sessions d' !! k = (λ s, if hit s then revoke_row now reason s else s) <$> user_sessions d !! k.
Proof. apply lookup_fmap. Qed.

(** What is left to do. *)
Lemma batch_rest (Hw' : sessions_ok o (note d d')) : select_sessions rev d ≡ₚ (C ++ select_sessions rev (note d d'))%list.
Proof.
  assert (∀ s, s ∈ select_sessions rev (note d d') ↔ rev s = true ∧ (s ∉ C) ∧ ∃ k, user_sessions d !! k = Some s) as Hrest.
  { intros s. rewrite select_sessions_rows. change (user_sessions (note d d')) with (user_sessions d'). split.
    - intros [Hr [k Hk]]. rewrite batch_lookup in Hk. apply fmap_Some in Hk as (r & Hk & ->).
      destruct (hit r) eqn:Eh; [by rewrite revoked_not_rev in Hr|]. split_and!; [done| |eauto].
      intros Hin%(hit_spec r k Hk). congruence.
    - intros (Hr & Hn & k & Hk). split; [done|]. exists k. rewrite batch_lookup, Hk. cbn.
      destruct (hit s) eqn:Eh; [|done]. apply (hit_spec s k Hk) in Eh. done. }
  apply NoDup_Permutation; [by apply select_nodup| |].
  - apply NoDup_app. split_and!; [apply batch_nodup| |by apply select_nodup]. intros s Hs (_ & Hn & _)%Hrest. done.
  - intros s. rewrite elem_of_app, Hrest, select_sessions_rows. split.
    + intros [Hr Hk]. destruct (decide (s ∈ C)); [by left|by right].
    + intros [Hs|(? & _ & ?)]; [by apply batch_rows|done].
Qed.
End batch.

(** *** The loop *)

Lemma row_issued d s : sessions_ok o d → (∃ k, user_sessions d !! k = Some s) →
  0 < us_Version s ∧ s_issued d !! us_SID s = Some (us_ExpiresAt s, us_Version s).
Proof.
  intros Hw [k Hk]. rewrite (w_key _ _ Hw _ _ Hk). split; [by eapply w_pos|by apply (w_issued _ _ Hw)].
Qed.

(** One pass over a batch that is not empty. *)
Lemma run_batch userID ex reason d fuel total :
  sessions_ok o d → let now := Unix (s_clock d) in let rev := revocable userID ex now in
  select_sessions rev d ≠ [] →
  ∃ d1 n, run_prog (s_clock d) (revoke_loop o (S fuel) userID ex now reason total) d =
      run_prog (s_clock d) (revoke_loop o fuel userID ex now reason (i64 (total + Z.of_nat n))) d1 ∧
    sessions_ok o d1 ∧ s_clock d1 = s_clock d ∧ (0 < n)%nat ∧
    length (select_sessions rev d) = (n + length (select_sessions rev d1))%nat ∧
    (∀ k, user_sessions d1 !! k = user_sessions d !! k ∨
       ∃ s, user_sessions d !! k = Some s ∧ rev s = true ∧ user_sessions d1 !! k = Some (revoke_row now reason s) ∧
         (RedisEnabled o = true → k ∈ s_sealed d1)) ∧
    s_sealed d ⊆ s_sealed d1.
Proof.
  intros Hw now rev Hne. cbn [revoke_loop].
  set (C := take userSessionRevokeBatchSize (merge_sort by_sid (select_sessions rev d))).
  assert (∀ s, s ∈ C → rev s = true ∧ ∃ k, user_sessions d !! k = Some s) as HC by (by apply batch_rows).
  rewrite run_prog_bind, run_prog_attempt, run_statement. unfold revoke_candidates. fold rev C. rewrite note_read by done.
  assert (C ≠ []) as HC0.
  { intros E. apply (f_equal length) in E. unfold C in E. rewrite length_take in E.
    rewrite (Permutation_length (merge_sort_Permutation _ _)) in E. destruct (select_sessions rev d); [done|cbn in E; lia]. }
  destruct (after_find <$> C) as [|c0 cs] eqn:EC; [by apply fmap_nil_inv in EC|]. rewrite <- EC. clear c0 cs EC.
  (* the fences *)
  destruct (run_each_deny (λ s, writeUserSessionDenyFence o s UserSessionStatusRevoking now reason)
    (λ s, cacheEntry s <| ce_Status := UserSessionStatusRevoking |> <| ce_RevokedAt := now |> <| ce_RevokedReason := reason |>)
    (after_find <$> C) d) as (df & Ef & Hwf & Sf & _).
  { intros s d0 Hd0 H1 H2 H3. pose proof (run_deny _ d0 Hd0 H1 H2 H3) as Hrun. unfold writeUserSessionDenyFence.
    unfold writeUserSessionCache in *. by destruct (RedisEnabled o). }
  { done. }
  { intros s (r & -> & Hr)%list_elem_of_fmap. destruct (row_issued d r Hw) as [? ?]; [by apply HC|]. done. }
  rewrite run_prog_bind, run_prog_attempt, Ef.
  (* the transaction *)
  rewrite run_prog_bind, run_prog_attempt, run_statement. unfold revoke_batch_tx.
  assert (us_SID <$> (after_find <$> C) = us_SID <$> C) as -> by (rewrite <- list_fmap_compose; by apply list_fmap_ext).
  set (hit := λ s, bool_decide (us_SID s ∈ us_SID <$> C) && is_active s).
  set (db := df <| user_sessions ::= fmap (λ s, if hit s then revoke_row now reason s else s) |>). set (dn := note df db).
  assert (take userSessionRevokeBatchSize (merge_sort by_sid (select_sessions rev df)) = C) as ECf
    by (unfold C, select_sessions; by rewrite (sr_rows _ _ Sf)).
  assert (sessions_ok o dn) as Hwn.
  { destruct (tabular_batch o (us_SID <$> C) now reason df Hwf) as (T' & ET & HT). 
    change (sessions_ok o (note df (revoke_batch_tx (us_SID <$> C) now reason df).2)). rewrite ET. by apply note_ok. }
  assert (select_sessions hit df ≡ₚ C) as Hhits by (pose proof (batch_hits userID ex now df Hwf) as Hp; unfold rev in ECf; by rewrite ECf in Hp).
  assert (∀ s k, user_sessions df !! k = Some s → hit s = true ↔ s ∈ C) as Hspec.
  { intros s k Hk. pose proof (hit_spec userID ex now df Hwf s k Hk) as Hp. unfold rev in ECf. by rewrite ECf in Hp. }
  assert (∀ k, user_sessions dn !! k = (λ s, if hit s then revoke_row now reason s else s) <$> user_sessions df !! k) as Hdn
    by (intros k; apply lookup_fmap).
  (* the tombstones *)
  assert (∀ s, s ∈ select_sessions hit df → ∃ k, user_sessions dn !! k = Some (revoke_row now reason s) ∧ k = us_SID s) as Hrows.
  { intros s [Hs [k Hk]]%select_sessions_rows. exists k. rewrite Hdn, Hk. cbn. rewrite Hs. split; [done|]. symmetry. by apply (w_key _ _ Hwf). }
  destruct (run_each_deny (λ s, logged (writeUserSessionCache o (cacheEntry (revoke_row now reason s)) None))
    (λ s, cacheEntry (revoke_row now reason s)) (after_find <$> select_sessions hit df) dn) as (d1 & E1 & Hw1 & S1 & L1).
  { intros s d0. apply run_logged_deny. }
  { done. }
  { intros s (r & -> & Hr)%list_elem_of_fmap. destruct (Hrows r Hr) as (k & Hk & _).
    destruct (row_issued dn _ Hwn (ex_intro _ k Hk)) as [? ?]. done. }
  rewrite run_prog_bind. assert (s_clock dn = s_clock d) as Ecn by (cbn; apply (sr_clock _ _ Sf)). rewrite Ecn in E1.
  assert (length (after_find <$> select_sessions hit df) = length C) as Elen by (rewrite length_fmap; by apply Permutation_length).
  exists d1, (length C). match goal with |- context [note df ?x] => change (note df x) with dn end. rewrite Elen, E1.
  pose proof (batch_rest userID ex now reason df Hwf) as Hrest. cbv zeta in Hrest. unfold rev in ECf. rewrite ECf in Hrest.
  specialize (Hrest Hwn). fold rev in Hrest. split_and!.
  - done.
  - done.
  - rewrite (sr_clock _ _ S1). done.
  - destruct C; [done|cbn; lia].
  - transitivity (length (select_sessions rev df)); [unfold select_sessions; by rewrite (sr_rows _ _ Sf)|].
    rewrite (Permutation_length Hrest), length_app. f_equal. unfold select_sessions. rewrite (sr_rows _ _ S1). done.
  - intros k. rewrite (sr_rows _ _ S1), Hdn, <- (sr_rows _ _ Sf). destruct (user_sessions df !! k) as [s|] eqn:Ek; [|by left].
    cbn. destruct (hit s) eqn:Eh; [|by left]. right. exists s. apply (Hspec s k Ek) in Eh as Hs. split_and!; [done|by apply HC|done|].
    intros Hen. pose proof (w_key _ _ Hwf _ _ Ek) as Esid.
    assert (s ∈ select_sessions hit df) as Hin by (by rewrite Hhits).
    specialize (L1 Hen (after_find s)). cbn in L1. rewrite Esid in L1. apply L1.
    + apply list_elem_of_fmap. eauto.
    + assert (user_sessions dn !! k = Some (revoke_row now reason s)) as Hkn by (rewrite Hdn, Ek; cbn; by rewrite Eh).
      apply (w_dead _ _ Hwn); [rewrite (w_issued _ _ Hwn _ _ Hkn); by eexists|]. unfold active_in. by rewrite Hkn.
  - etrans; [apply (sr_sealed _ _ Sf)|]. etrans; [|apply (sr_sealed _ _ S1)]. done.
Qed.

Lemma run_loop userID ex reason fuel d total :
  sessions_ok o d → let now := Unix (s_clock d) in let rev := revocable userID ex now in
  (length (select_sessions rev d) < fuel)%nat → 0 <= total → total + Z.of_nat (length (select_sessions rev d)) <= max_i64 →
  ∃ d', run_prog (s_clock d) (revoke_loop o fuel userID ex now reason total) d =
      (Ok (total + Z.of_nat (length (select_sessions rev d)), None), d') ∧
    (∀ k, user_sessions d' !! k = (λ s, if rev s then revoke_row now reason s else s) <$> user_sessions d !! k) ∧
    (RedisEnabled o = true → ∀ k s, user_sessions d !! k = Some s → rev s = true → k ∈ s_sealed d') ∧
    s_sealed d ⊆ s_sealed d'.
Proof.
  revert d total. induction fuel as [|fuel IH]; intros d total Hw now rev Hfuel Htot Hmax; [lia|].
  destruct (decide (select_sessions rev d = [])) as [E0|Hne].
  - exists d. cbn [revoke_loop]. rewrite run_prog_bind, run_prog_attempt, run_statement. unfold revoke_candidates. fold rev.
    rewrite note_read by done. assert (∀ k s, user_sessions d !! k = Some s → rev s = false) as Hnone.
    { intros k s Hk. destruct (rev s) eqn:E; [|done]. exfalso. apply (not_elem_of_nil s). rewrite <- E0. apply select_sessions_rows. eauto. }
    rewrite E0. cbn. split_and!; [by rewrite Z.add_0_r| | |done].
    + intros k. destruct (user_sessions d !! k) as [s|] eqn:Ek; [|done]. cbn. by rewrite (Hnone k s Ek).
    + intros _ k s Hk Hr. rewrite (Hnone k s Hk) in Hr. done.
  - destruct (run_batch userID ex reason d fuel total Hw Hne) as (d1 & n & E1 & Hw1 & Ec & Hn & Hlen & Hrows & Hseal).
    fold now in E1, Hrows, Hlen. fold rev in Hrows, Hlen. rewrite i64_id in E1 by (unfold in_i64, min_i64, max_i64 in *; lia).
    specialize (IH d1 (total + Z.of_nat n) Hw1). rewrite Ec in IH. fold now in IH. cbv zeta in IH. fold rev in IH.
    destruct IH as (d' & E2 & Hr2 & Hs2 & Hm2); [lia|lia|lia|]. exists d'. rewrite E1, E2. split_and!.
    + do 3 f_equal. lia.
    + intros k. rewrite Hr2. destruct (Hrows k) as [->|(s & Hs & Hrev & -> & _)]; [done|].
      rewrite Hs. cbn. rewrite Hrev. unfold rev at 1. by rewrite revoked_not_rev.
    + intros Hen k s Hk Hrev. destruct (Hrows k) as [E|(s' & Hs & _ & _ & Hse)]; [|by apply Hm2, Hse]. apply (Hs2 Hen k s); [congruence|done].
    + by etrans.
Qed.

(** C16: a mass revocation that is not disturbed ends.  With a bound above the
    number of the user's active sessions the loop of [revokeUserSessions]
    returns their number without an error; it has revoked exactly these rows,
    all but the excepted one, has changed no other, and each of them has its
    tombstone in the cache. *)
Theorem mass_revocation_completes d userID ex reason fuel
    (Hok : sessions_ok o d) (Huser : 0 < userID)
    (Hfuel : (length (select_sessions (revocable userID ex (Unix (s_clock d))) d) < fuel)%nat)
    (Hcount : Z.of_nat (length (select_sessions (revocable userID ex (Unix (s_clock d))) d)) <= max_i64) :
  let now := Unix (s_clock d) in let rev := revocable userID ex now in
  ∃ d', run_prog (s_clock d) (revokeUserSessions o fuel userID ex reason) d =
      (Ok (Z.of_nat (length (select_sessions rev d)), None), d') ∧
    (∀ sid, user_sessions d' !! sid = (λ s, if rev s then revoke_row now reason s else s) <$> user_sessions d !! sid) ∧
    (RedisEnabled o = true → ∀ sid s, user_sessions d !! sid = Some s → rev s = true → sid ∈ s_sealed d').
Proof.
  intros now rev. unfold revokeUserSessions. rewrite (proj2 (Z.leb_gt userID 0)) by done. rewrite run_prog_bind. cbn [run_prog clock].
  destruct (run_loop userID ex reason fuel d 0 Hok) as (d' & E & Hr & Hs & _); [done|lia|lia|]. exists d'. eauto.
Qed.
End alone.

Lemma found {A} (x : option A) (f : A → bool) : match x with Some a => f a | None => false end = true → ∃ a, x = Some a ∧ f a = true.
Proof. destruct x; [eauto|done]. Qed.

(** Three sessions, one of another user and one excepted. *)
Definition three_logins : sdb := c_db (reached minute_options no_sessions (concat (imap (λ i s, Spawn (OpCreate s) :: replicate 12 (Step i))
  [login; login <| us_SID := "s2" |>; login <| us_SID := "s3" |> <| us_UserID := 8 |>; login <| us_SID := "s4" |>]))).

Lemma mass_revocation_completes_witness :
  ∃ d', run_prog (s_clock three_logins) (revokeUserSessions minute_options 10 7 "s1" "password changed") three_logins = (Ok (2, None), d') ∧
    "s4" ∈ s_sealed d'.
Proof.
  assert (sessions_ok minute_options three_logins) as Hok.
  { destruct (reached_fine minute_options no_sessions (concat (imap (λ i s, Spawn (OpCreate s) :: replicate 12 (Step i))
      [login; login <| us_SID := "s2" |>; login <| us_SID := "s3" |> <| us_UserID := 8 |>; login <| us_SID := "s4" |>]))) as [Hw _];
      [apply no_sessions_ok|by repeat constructor|exact Hw]. }
  assert (length (select_sessions (revocable 7 "s1" (Unix (s_clock three_logins))) three_logins) = 2%nat) as Elen by (by vm_compute).
  assert (match user_sessions three_logins !! "s4" with
          | Some s => revocable 7 "s1" (Unix (s_clock three_logins)) s | None => false end = true) as E4 by (by vm_compute).
  revert Hok Elen E4. generalize three_logins as d. intros d Hok Elen (s & Es & Er)%found.
  destruct (mass_revocation_completes minute_options d 7 "s1" "password changed" 10 Hok) as (d' & E & _ & Hs);
    [lia|rewrite Elen; lia|rewrite Elen; unfold max_i64; lia|].
  exists d'. split; [by rewrite E, Elen|]. exact (Hs eq_refl "s4" s Es Er).
Defined.
