(* ===== verification/RouteHealth.v ===== *)
(** * The circuit breaker of a route

    src/service/route_health.go with the row type of src/model/routing.go: a
    row per channel, model and key scope that opens after failures, admits one
    probe when its cool-down is over and closes on a success.

    Requests of every node share the table, and [routeHealthScopeUsable] reads
    a row and writes it in separate statements, so the functions are [prog]s
    and the theorems are about their interleavings.  An observation holds the
    row's lock from its read to its write and is one statement; only when there
    is no row yet are the read and the insert separate.  An instant is in
    nanoseconds. *)

From stdpp Require Import sorting.
From S2P Require Import Prelude GoStrings Interleave.
#[local] Open Scope string_scope.
#[local] Open Scope Z_scope.

(** ** Instants and durations *)

Definition Second : Z := 1000000000.
Definition Minute : Z := 60 * Second.
(** [t.Unix()] *)
Definition Unix (t : Z) : Z := t / Second.

(** ** Rows *)

Definition RouteHealthStateClosed : string := "closed".
Definition RouteHealthStateOpen : string := "open".
Definition RouteHealthStateHalfOpen : string := "half_open".

Record ChannelHealth := MkChannelHealth {
  ch_ID : Z; ch_ChannelID : Z; ch_Model : string; ch_KeyScope : string; ch_State : string;
  ch_FailureCount : Z; ch_CooldownUntil : Z; ch_HealthEpoch : Z; ch_LastLatencyMS : Z;
  ch_FirstTokenLatencyMS : Z; ch_UpdatedAt : Z
}.
#[global] Instance eta_ChannelHealth : Eta ChannelHealth := λ r,
  MkChannelHealth (ch_ID r) (ch_ChannelID r) (ch_Model r) (ch_KeyScope r) (ch_State r) (ch_FailureCount r)
    (ch_CooldownUntil r) (ch_HealthEpoch r) (ch_LastLatencyMS r) (ch_FirstTokenLatencyMS r) (ch_UpdatedAt r).

(** The zero value with the three columns of the unique index. *)
Definition new_health (channelID : Z) (model keyScope : string) : ChannelHealth :=
  MkChannelHealth 0 channelID model keyScope "" 0 0 0 0 0 0.

Definition Normalize (now : Z) (h : ChannelHealth) : ChannelHealth :=
  let h := if bool_decide (ch_State h = "") then h <| ch_State := RouteHealthStateClosed |> else h in
  let h := if ch_HealthEpoch h <=? 0 then h <| ch_HealthEpoch := 1 |> else h in
  if ch_UpdatedAt h =? 0 then h <| ch_UpdatedAt := Unix now |> else h.

(** The table, by primary key. *)
Record healthdb := MkHealthdb { channel_healths : gmap Z ChannelHealth; next_health_id : Z }.
#[global] Instance eta_healthdb : Eta healthdb := λ r, MkHealthdb (channel_healths r) (next_health_id r).

(** ** Errors and their classes *)

Inductive RouteErrorClass :=
  | RouteErrorInput | RouteErrorPermission | RouteErrorKey | RouteErrorTransient
  | RouteErrorModel | RouteErrorStreamStarted | RouteErrorAdmission | RouteErrorUnknown.
#[global] Instance RouteErrorClass_eq_dec : EqDecision RouteErrorClass.
Proof. solve_decision. Defined.

Record RouteErrorClassification := MkClassification {
  rc_Class : RouteErrorClass; rc_Retryable : bool; rc_Failoverable : bool;
  rc_MarkKey : bool; rc_MarkCapability : bool; rc_MarkChannelModel : bool
}.

Definition ClassifyRouteError `{GoText} (status : Z) (providerCode message : string) (streamStarted : bool) : RouteErrorClassification :=
  if streamStarted then MkClassification RouteErrorStreamStarted false false false false false else
  let code := ToLower (TrimSpace providerCode) in
  let text := ToLower (TrimSpace message) in
  if Contains code "route_lease" || Contains code "route_admission" || Contains text "route lease"
  then MkClassification RouteErrorAdmission false false false false false
  else if Contains code "invalid_api_key" || Contains code "invalid_credential" || Contains code "authentication_error"
       || Contains text "invalid api key" || Contains text "incorrect api key"
  then MkClassification RouteErrorKey true true true false false
  else if Contains code "model_not_found" || Contains code "unsupported_model" || Contains code "model_not_supported"
       || Contains code "invalid_model" || Contains text "model not found" || Contains text "unsupported model"
       || Contains text "invalid model"
  then MkClassification RouteErrorModel false true false true false
  else if (status =? 400) || (status =? 422) || Contains code "invalid_request"
  then MkClassification RouteErrorInput false false false false false
  else if status =? 401 then MkClassification RouteErrorKey true true true false false
  else if (status =? 403) || Contains code "permission"
  then MkClassification RouteErrorPermission false false false false false
  else if (status =? 408) || (status =? 409) || (status =? 425) || (status =? 429) || (500 <=? status)
       || Contains code "rate_limit" || Contains code "timeout"
  then MkClassification RouteErrorTransient true true false false true
  else MkClassification RouteErrorUnknown (500 <=? status) (500 <=? status) false false (500 <=? status).

Definition CanRouteFailover (class : RouteErrorClassification) (streamStarted hasValidOutput : bool) : bool :=
  if streamStarted || hasValidOutput then false else rc_Failoverable class.

(** ** Policies *)

Record RouteHealthPolicy := MkPolicy { FailureThreshold : Z; Cooldown : Z }.
#[global] Instance eta_policy : Eta RouteHealthPolicy := λ r, MkPolicy (FailureThreshold r) (Cooldown r).

Definition DefaultRouteHealthPolicy : RouteHealthPolicy := MkPolicy 3 (30 * Second).
Definition routeKeyHealthPolicy : RouteHealthPolicy := MkPolicy 1 (5 * Minute).
Definition routeCapabilityHealthPolicy : RouteHealthPolicy := MkPolicy 1 (5 * Minute).

Definition normalized (p : RouteHealthPolicy) : RouteHealthPolicy :=
  let p := if FailureThreshold p <=? 0 then p <| FailureThreshold := 3 |> else p in
  if Cooldown p <=? 0 then p <| Cooldown := 30 * Second |> else p.

(** ** Observations of one row *)

Definition ObserveRouteHealthFailureWithRetryAfter (health : ChannelHealth) (policy : RouteHealthPolicy) (now retryAfter : Z) : ChannelHealth :=
  let policy := normalized policy in
  let health := Normalize now health in
  let health := health <| ch_FailureCount ::= λ n, i64 (n + 1) |> in
  let health :=
    if bool_decide (ch_State health = RouteHealthStateHalfOpen) || (FailureThreshold policy <=? ch_FailureCount health) || (0 <? retryAfter)
    then
      let health := health <| ch_State := RouteHealthStateOpen |> <| ch_CooldownUntil := Unix (now + Cooldown policy) |> in
      let health := if Cooldown policy <? retryAfter then health <| ch_CooldownUntil := Unix (now + retryAfter) |> else health in
      health <| ch_HealthEpoch ::= λ n, i64 (n + 1) |>
    else health in
  health <| ch_UpdatedAt := Unix now |>.

Definition ObserveRouteHealthFailure (health : ChannelHealth) (policy : RouteHealthPolicy) (now : Z) : ChannelHealth :=
  ObserveRouteHealthFailureWithRetryAfter health policy now 0.

Definition ObserveRouteHealthSuccess (health : ChannelHealth) (now : Z) : ChannelHealth :=
  let health := Normalize now health in
  let stateChanged := negb (bool_decide (ch_State health = RouteHealthStateClosed)) || negb (ch_FailureCount health =? 0)
                      || negb (ch_CooldownUntil health =? 0) in
  let health := health <| ch_State := RouteHealthStateClosed |> <| ch_FailureCount := 0 |> <| ch_CooldownUntil := 0 |> in
  let health := if stateChanged then health <| ch_HealthEpoch ::= λ n, i64 (n + 1) |> else health in
  health <| ch_UpdatedAt := Unix now |>.

Definition EnterRouteHealthHalfOpen (health : ChannelHealth) (now : Z) : ChannelHealth :=
  let health := Normalize now health in
  if bool_decide (ch_State health = RouteHealthStateOpen) && (ch_CooldownUntil health <=? Unix now)
  then health <| ch_State := RouteHealthStateHalfOpen |> <| ch_HealthEpoch ::= λ n, i64 (n + 1) |> <| ch_UpdatedAt := Unix now |>
  else health.

(** May the row be used without claiming anything? *)
Definition CanUseRouteHealth (health : ChannelHealth) (now : Z) : bool :=
  if bool_decide (ch_State health = "") || bool_decide (ch_State health = RouteHealthStateClosed) then true
  else if bool_decide (ch_State health = RouteHealthStateHalfOpen) then false
  else (0 <? ch_CooldownUntil health) && (ch_CooldownUntil health <=? Unix now).

Definition RouteHealthReadOnlyUsable (health : ChannelHealth) (now : Z) : bool := CanUseRouteHealth health now.

(** ** Statements *)

Definition health_by_id (a b : Z * ChannelHealth) : Prop := a.1 <= b.1.
#[global] Instance health_by_id_dec : RelDecision health_by_id.
Proof. intros a b. unfold health_by_id. apply _. Defined.

(** [channel_id = ? AND model = ? AND key_scope = ?] *)
Definition in_scope (channelID : Z) (model keyScope : string) (h : ChannelHealth) : bool :=
  (ch_ChannelID h =? channelID) && bool_decide (ch_Model h = model) && bool_decide (ch_KeyScope h = keyScope).

(** [First]: the matching row with the smallest key. *)
Definition first_health (cond : ChannelHealth → bool) (d : healthdb) : option (Z * ChannelHealth) :=
  head (merge_sort health_by_id (filter (λ e, cond e.2 = true) (map_to_list (channel_healths d)))).

(** [WHERE id = ? AND cond] through [Updates]: the number of rows. *)
Definition update_health (id : Z) (cond : ChannelHealth → bool) (set : ChannelHealth → ChannelHealth) : M healthdb Z := λ d,
  match channel_healths d !! id with
  | Some h => if cond h then (Ok 1, d <| channel_healths ::= <[id := set h]> |>) else (Ok 0, d)
  | None => (Ok 0, d)
  end.

(** [Create], under the unique index. *)
Definition create_health (h : ChannelHealth) : M healthdb ChannelHealth := λ d,
  match first_health (in_scope (ch_ChannelID h) (ch_Model h) (ch_KeyScope h)) d with
  | Some _ => (Err (ErrNew "duplicate key"), d)
  | None => (Ok (h <| ch_ID := next_health_id d |>),
             d <| channel_healths ::= <[next_health_id d := h <| ch_ID := next_health_id d |>]> |> <| next_health_id ::= Z.succ |>)
  end.

(** ** The service *)

Section service.
Context `{GoText}.

Definition ErrRouteHealthUnavailable : error := ErrNew "route health database is unavailable".

Definition RouteKeyScope (key : string) : string := "key:" +:+ sha256_hex key.

Definition loadRouteHealthScope (channelID : Z) (requestModel keyScope : string) : prog healthdb ChannelHealth :=
  if channelID <=? 0 then throw ErrRouteHealthUnavailable else
  query (λ d, (Ok (match first_health (in_scope channelID (NormalizeModel requestModel) keyScope) d with
                   | Some (id, h) => h <| ch_ID := id |>
                   | None => new_health channelID (NormalizeModel requestModel) keyScope
                               <| ch_State := RouteHealthStateClosed |> <| ch_HealthEpoch := 1 |>
                   end), d)).

Definition LoadRouteHealth (channelID : Z) (requestModel : string) : prog healthdb ChannelHealth :=
  loadRouteHealthScope channelID requestModel "".

(** [state = ? AND cooldown_until > 0 AND cooldown_until <= ?] *)
Definition cooled_down (state : string) (now : Z) (h : ChannelHealth) : bool :=
  bool_decide (ch_State h = state) && (0 <? ch_CooldownUntil h) && (ch_CooldownUntil h <=? Unix now).

(** The update that makes an abandoned probe's row open again. *)
Definition rearm_probe (id now : Z) : M healthdb Z :=
  update_health id (cooled_down RouteHealthStateHalfOpen now) (λ h,
    h <| ch_State := RouteHealthStateOpen |> <| ch_CooldownUntil := 0 |> <| ch_HealthEpoch ::= Z.succ |> <| ch_UpdatedAt := Unix now |>).

(** The update that claims the probe. *)
Definition claim_probe (id now : Z) : M healthdb Z :=
  update_health id (cooled_down RouteHealthStateOpen now) (λ h,
    h <| ch_State := RouteHealthStateHalfOpen |> <| ch_CooldownUntil := Unix (now + Cooldown DefaultRouteHealthPolicy) |>
      <| ch_HealthEpoch ::= Z.succ |> <| ch_UpdatedAt := Unix now |>).

(** The loop, two rounds at most. *)
Fixpoint usable_attempts (attempts : nat) (channelID : Z) (requestModel keyScope : string) (now : Z) : prog healthdb (bool * Z) :=
  match attempts with
  | O => mret (false, 0)
  | S attempts =>
      health ← loadRouteHealthScope channelID requestModel keyScope;
      if bool_decide (ch_State health = "") || bool_decide (ch_State health = RouteHealthStateClosed)
      then mret (true, ch_HealthEpoch health)
      else if bool_decide (ch_State health = RouteHealthStateHalfOpen) then
        if Unix now <? ch_CooldownUntil health then mret (false, ch_HealthEpoch health) else
        rows ← query (rearm_probe (ch_ID health) now);
        if negb (rows =? 1) then mret (false, ch_HealthEpoch health)
        else usable_attempts attempts channelID requestModel keyScope now
      else if negb (bool_decide (ch_State health = RouteHealthStateOpen)) || (ch_CooldownUntil health <=? 0)
              || (Unix now <? ch_CooldownUntil health)
      then mret (false, ch_HealthEpoch health)
      else
        rows ← query (claim_probe (ch_ID health) now);
        if rows =? 1 then mret (true, i64 (ch_HealthEpoch health + 1)) else mret (false, ch_HealthEpoch health)
  end.

Definition routeHealthScopeUsable (channelID : Z) (requestModel keyScope : string) (now : Z) : prog healthdb (bool * Z) :=
  usable_attempts 2 channelID requestModel keyScope now.

Definition RouteHealthUsable (channelID : Z) (requestModel : string) (now : Z) : prog healthdb (bool * Z) :=
  routeHealthScopeUsable channelID requestModel "" now.

Definition RouteKeyHealthUsable (channelID : Z) (requestModel key : string) (now : Z) : prog healthdb (bool * Z) :=
  if blank key then mret (false, 0) else routeHealthScopeUsable channelID requestModel (RouteKeyScope key) now.

(** The locked read of an observation and, for a row that exists, its save. *)
Definition observe_row (channelID : Z) (model keyScope : string) (observe : ChannelHealth → ChannelHealth) : M healthdb (option ChannelHealth) := λ d,
  match first_health (in_scope channelID model keyScope) d with
  | Some (id, h) =>
      let health := observe (h <| ch_ID := id |>) in
      (Ok (Some health), d <| channel_healths ::= <[id := health]> |>)
  | None => (Ok None, d)
  end.

Definition persistRouteHealthObservation (channelID : Z) (requestModel keyScope : string) (observe : ChannelHealth → ChannelHealth) : prog healthdb ChannelHealth :=
  if channelID <=? 0 then throw ErrRouteHealthUnavailable else
  let modelName := NormalizeModel requestModel in
  found ← query (observe_row channelID modelName keyScope observe);
  match found with
  | Some health => mret health
  | None => query (create_health (observe (new_health channelID modelName keyScope)))
  end.

Definition persistRouteHealthFailureWithRetryAfter (channelID : Z) (requestModel keyScope : string) (policy : RouteHealthPolicy)
    (now retryAfter : Z) : prog healthdb ChannelHealth :=
  persistRouteHealthObservation channelID requestModel keyScope
    (λ health, ObserveRouteHealthFailureWithRetryAfter health policy now retryAfter).

Definition PersistRouteHealthFailure (channelID : Z) (requestModel : string) (policy : RouteHealthPolicy) (now : Z) : prog healthdb ChannelHealth :=
  persistRouteHealthObservation channelID requestModel "" (λ health, ObserveRouteHealthFailure health policy now).

Definition PersistRouteHealthSuccessWithMetrics (channelID : Z) (requestModel : string) (now latencyMS ttftMS : Z) : prog healthdb ChannelHealth :=
  persistRouteHealthObservation channelID requestModel "" (λ health,
    let health := if 0 <=? latencyMS then health <| ch_LastLatencyMS := latencyMS |> else health in
    let health := if 0 <? ttftMS then health <| ch_FirstTokenLatencyMS := ttftMS |> else health in
    ObserveRouteHealthSuccess health now).

Definition PersistRouteHealthSuccess (channelID : Z) (requestModel : string) (now : Z) : prog healthdb ChannelHealth :=
  PersistRouteHealthSuccessWithMetrics channelID requestModel now 0 0.

Definition observeLiveRouteError (channelID : Z) (requestModel keyScope : string) (status : Z) (providerCode message : string)
    (streamStarted : bool) (retryAfter : Z) : prog healthdb unit :=
  let classification := ClassifyRouteError status providerCode message streamStarted in
  if negb (rc_MarkChannelModel classification) && negb (rc_MarkCapability classification) && negb (rc_MarkKey classification)
  then mret tt
  else if rc_MarkKey classification then
    if bool_decide (keyScope = "") then mret tt else
    now ← clock;
    _ ← persistRouteHealthFailureWithRetryAfter channelID requestModel keyScope routeKeyHealthPolicy now 0;
    mret tt
  else if rc_MarkCapability classification then
    now ← clock;
    _ ← persistRouteHealthFailureWithRetryAfter channelID requestModel "" routeCapabilityHealthPolicy now 0;
    mret tt
  else if negb (rc_MarkChannelModel classification) then mret tt
  else
    let retryAfter := if bool_decide (rc_Class classification = RouteErrorTransient) then retryAfter else 0 in
    now ← clock;
    _ ← persistRouteHealthFailureWithRetryAfter channelID requestModel "" DefaultRouteHealthPolicy now retryAfter;
    mret tt.

Definition ObserveLiveRouteErrorForKeyWithRetryAfter (channelID : Z) (requestModel key : string) (status : Z)
    (providerCode message : string) (streamStarted : bool) (retryAfter : Z) : prog healthdb unit :=
  observeLiveRouteError channelID requestModel (if blank key then "" else RouteKeyScope key) status providerCode message
    streamStarted retryAfter.

Definition ObserveLiveRouteSuccessWithMetrics (channelID : Z) (requestModel : string) (latencyMS ttftMS : Z) : prog healthdb unit :=
  now ← clock;
  _ ← PersistRouteHealthSuccessWithMetrics channelID requestModel now latencyMS ttftMS;
  mret tt.

Definition ObserveLiveRouteSuccessForKey (channelID : Z) (requestModel key : string) (latencyMS ttftMS : Z) : prog healthdb unit :=
  _ ← ObserveLiveRouteSuccessWithMetrics channelID requestModel latencyMS ttftMS;
  if blank key then mret tt else
  now ← clock;
  let keyScope := RouteKeyScope key in
  existing ← query (λ d, (Ok (first_health (in_scope channelID (NormalizeModel requestModel) keyScope) d), d));
  match existing with
  | None => mret tt
  | Some _ =>
      _ ← persistRouteHealthObservation channelID requestModel keyScope (λ health, ObserveRouteHealthSuccess health now);
      mret tt
  end.
End service.

(** ** Requests and observations, interleaved *)

Inductive health_op :=
  | OpUsable (channelID : Z) (requestModel keyScope : string) (now : Z)
  | OpError (channelID : Z) (requestModel key : string) (status : Z) (providerCode message : string)
      (streamStarted : bool) (retryAfter : Z)
  | OpSuccess (channelID : Z) (requestModel key : string) (latencyMS ttftMS : Z).

Definition op_prog `{GoText} (op : health_op) : prog healthdb (bool * Z) :=
  match op with
  | OpUsable channelID requestModel keyScope now => routeHealthScopeUsable channelID requestModel keyScope now
  | OpError channelID requestModel key status providerCode message streamStarted retryAfter =>
      _ ← ObserveLiveRouteErrorForKeyWithRetryAfter channelID requestModel key status providerCode message streamStarted retryAfter;
      mret (false, 0)
  | OpSuccess channelID requestModel key latencyMS ttftMS =>
      _ ← ObserveLiveRouteSuccessForKey channelID requestModel key latencyMS ttftMS;
      mret (false, 0)
  end.

Definition closed_state (h : ChannelHealth) : bool :=
  bool_decide (ch_State h = "") || bool_decide (ch_State h = RouteHealthStateClosed).

(** A probe may be claimed, now or after the cool-down. *)
Definition claimable (h : ChannelHealth) : bool :=
  bool_decide (ch_State h = RouteHealthStateOpen) && (0 <? ch_CooldownUntil h).

Lemma first_health_Some cond d id h :
  first_health cond d = Some (id, h) → channel_healths d !! id = Some h ∧ cond h = true.
Proof.
  unfold first_health. intros E%head_Some_elem_of. rewrite merge_sort_Permutation in E.
  apply list_elem_of_filter in E as [? ?%elem_of_map_to_list]. done.
Qed.

Lemma first_health_None cond d id h :
  first_health cond d = None → channel_healths d !! id = Some h → cond h = false.
Proof.
  unfold first_health. intros E%head_None Hl. destruct (cond h) eqn:Ec; [|done]. exfalso.
  assert ((id, h) ∈ merge_sort health_by_id (filter (λ e, cond e.2 = true) (map_to_list (channel_healths d)))) as Hin.
  { rewrite merge_sort_Permutation. apply list_elem_of_filter. by rewrite elem_of_map_to_list. }
  rewrite E in Hin. by apply not_elem_of_nil in Hin.
Qed.

Lemma in_scope_true c m k h : in_scope c m k h = true ↔ ch_ChannelID h = c ∧ ch_Model h = m ∧ ch_KeyScope h = k.
Proof. unfold in_scope. rewrite !andb_true_iff, Z.eqb_eq, !bool_decide_eq_true. tauto. Qed.

(** An observation keeps the columns of the unique index. *)
Definition keeps_scope (f : ChannelHealth → ChannelHealth) : Prop :=
  ∀ h, ch_ChannelID (f h) = ch_ChannelID h ∧ ch_Model (f h) = ch_Model h ∧ ch_KeyScope (f h) = ch_KeyScope h.

Lemma Normalize_scope now : keeps_scope (Normalize now).
Proof. intros h. unfold Normalize. by repeat (case_match; rsimpl). Qed.

Lemma failure_scope policy now retryAfter : keeps_scope (λ h, ObserveRouteHealthFailureWithRetryAfter h policy now retryAfter).
Proof.
  intros h. destruct (Normalize_scope now h) as (<- & <- & <-). unfold ObserveRouteHealthFailureWithRetryAfter.
  generalize (normalized policy), (Normalize now h). clear. intros p h.
  destruct (_ || _); [destruct (_ <? retryAfter)|]; done.
Qed.

Lemma success_scope now : keeps_scope (λ h, ObserveRouteHealthSuccess h now).
Proof.
  intros h. destruct (Normalize_scope now h) as (<- & <- & <-). unfold ObserveRouteHealthSuccess.
  generalize (Normalize now h). clear. intros h. by destruct (_ || _).
Qed.

Lemma in_scope_kept f c m k h : keeps_scope f → in_scope c m k (f h) = in_scope c m k h.
Proof. intros Hf. destruct (Hf h) as (E1 & E2 & E3). unfold in_scope. by rewrite E1, E2, E3. Qed.

(** A failure never closes a row. *)
Lemma failure_not_closed h policy now retryAfter :
  closed_state h = false → closed_state (ObserveRouteHealthFailureWithRetryAfter h policy now retryAfter) = false.
Proof.
  intros Hc. assert (ch_State (Normalize now h) = ch_State h) as En.
  { unfold closed_state in Hc. apply orb_false_iff in Hc as [Hc%bool_decide_eq_false _].
    unfold Normalize. rewrite bool_decide_eq_false_2 by done. by repeat (case_match; rsimpl). }
  unfold closed_state in *. rewrite <- En in Hc. revert Hc. clear En. unfold ObserveRouteHealthFailureWithRetryAfter.
  generalize (normalized policy), (Normalize now h). clear. intros p h Hc.
  destruct (_ || (0 <? retryAfter)); [destruct (_ <? retryAfter)|]; done.
Qed.

(** ** At most one probe per recorded failure *)

Section probes.
Context `{GoText} (channelID : Z) (model keyScope : string) (id0 : Z).

(** The scope has one row, [id0], which is not closed; keys are fresh. *)
Definition one_row (d : healthdb) : Prop :=
  (∃ h, channel_healths d !! id0 = Some h ∧ in_scope channelID model keyScope h = true ∧ closed_state h = false) ∧
  (∀ id h, channel_healths d !! id = Some h → in_scope channelID model keyScope h = true → id = id0) ∧
  (∀ id, is_Some (channel_healths d !! id) → id < next_health_id d).

(** The row permits one claim. *)
Definition permits (d : healthdb) : nat :=
  match channel_healths d !! id0 with Some h => if claimable h then 1 else 0 | None => 0 end%nat.

(** A request that was admitted to the scope. *)
Definition admission (op : health_op) (r : res (bool * Z)) : nat :=
  match op, r with
  | OpUsable c m k _, Ok (true, _) => if bool_decide ((c, NormalizeModel m, k) = (channelID, model, keyScope)) then 1 else 0
  | _, _ => 0
  end%nat.

(** A reported error, and a success that may close the row. *)
Definition reports (op : health_op) : nat :=
  match op with OpError c m _ _ _ _ _ _ => if bool_decide ((c, NormalizeModel m) = (channelID, model)) then 1 else 0 | _ => 0 end%nat.
Definition resets (op : health_op) : bool :=
  match op with OpSuccess c m _ _ _ => bool_decide ((c, NormalizeModel m) = (channelID, model)) | _ => false end.

(** Replacing a row by one of the same scope. *)
Lemma one_row_insert d id h h' :
  one_row d → channel_healths d !! id = Some h →
  (∀ c m k, in_scope c m k h' = in_scope c m k h) → (id = id0 → closed_state h' = false) →
  one_row (d <| channel_healths ::= <[id := h']> |>).
Proof.
  intros ((h0 & E0 & Hs0 & Hc0) & Huniq & Hfresh) E Hs Hc. unfold one_row. rsimpl. split_and!.
  - destruct (decide (id = id0)) as [->|Hne].
    + exists h'. rewrite lookup_insert_eq, Hs. simplify_eq. auto.
    + exists h0. by rewrite lookup_insert_ne.
  - intros i x Hi Hx. destruct (decide (id = i)) as [->|Hne].
    + rewrite lookup_insert_eq in Hi. simplify_eq. rewrite Hs in Hx. eauto.
    + rewrite lookup_insert_ne in Hi by done. eauto.
  - intros i Hi. apply Hfresh. destruct (decide (id = i)) as [->|Hne]; [by eexists|].
    by rewrite lookup_insert_ne in Hi.
Qed.

Lemma permits_insert d id h' :
  permits (d <| channel_healths ::= <[id := h']> |>) = if decide (id = id0) then (if claimable h' then 1 else 0)%nat else permits d.
Proof.
  unfold permits. rsimpl. case_decide as Hid; [subst; by rewrite lookup_insert_eq|by rewrite lookup_insert_ne].
Qed.

(** A new row of another scope. *)
Lemma one_row_create d h :
  one_row d → in_scope channelID model keyScope h = false →
  one_row (d <| channel_healths ::= <[next_health_id d := h]> |> <| next_health_id ::= Z.succ |>) ∧
  permits (d <| channel_healths ::= <[next_health_id d := h]> |> <| next_health_id ::= Z.succ |>) = permits d.
Proof.
  intros ((h0 & E0 & Hs0 & Hc0) & Huniq & Hfresh) Hs. pose proof (Hfresh id0 (ex_intro _ _ E0)) as Hlt.
  unfold one_row, permits. rsimpl. rewrite lookup_insert_ne by lia. split_and!; [eauto| | |done].
  - intros i x Hi Hx. apply lookup_insert_Some in Hi as [[_ <-]|[_ Hi]]; [congruence|eauto].
  - intros i [x Hi]. apply lookup_insert_Some in Hi as [[<- _]|[_ Hi]]; [lia|]. pose proof (Hfresh i (ex_intro _ _ Hi)). lia.
Qed.

(** An update that leaves an open or half-open row nobody can claim. *)
Definition unclaims (cond : ChannelHealth → bool) (set : ChannelHealth → ChannelHealth) : Prop :=
  keeps_scope set ∧ ∀ h, cond h = true → closed_state (set h) = false ∧ claimable (set h) = false.

Lemma rearm_unclaims now : unclaims (cooled_down RouteHealthStateHalfOpen now) (λ h,
  h <| ch_State := RouteHealthStateOpen |> <| ch_CooldownUntil := 0 |> <| ch_HealthEpoch ::= Z.succ |> <| ch_UpdatedAt := Unix now |>).
Proof. by split. Qed.

Lemma claim_unclaims now : unclaims (cooled_down RouteHealthStateOpen now) (λ h,
  h <| ch_State := RouteHealthStateHalfOpen |> <| ch_CooldownUntil := Unix (now + Cooldown DefaultRouteHealthPolicy) |>
    <| ch_HealthEpoch ::= Z.succ |> <| ch_UpdatedAt := Unix now |>).
Proof. by split. Qed.

Lemma update_unclaims id cond set d :
  unclaims cond set → one_row d →
  one_row (update_health id cond set d).2 ∧ (permits (update_health id cond set d).2 <= permits d)%nat ∧
  (id = id0 → (update_health id cond set d).1 = Ok 1 → (∀ h, cond h = true → claimable h = true) →
   (permits (update_health id cond set d).2 + 1 <= permits d)%nat).
Proof.
  intros [Hk Hset] Hd. unfold update_health. destruct (channel_healths d !! id) as [h|] eqn:E; [|done].
  destruct (cond h) eqn:Ec; [|done]. destruct (Hset h Ec) as [H1 H2]. cbn [fst snd]. split_and!.
  - eapply one_row_insert; [done|exact E| |done]. intros. by apply in_scope_kept.
  - rewrite permits_insert, H2. case_decide; lia.
  - intros -> _ Hcl. rewrite permits_insert, H2, decide_True by done. unfold permits. rewrite E, Hcl by done. lia.
Qed.

Lemma load_pays mine c m k held :
  mine = bool_decide ((c, NormalizeModel m, k) = (channelID, model, keyScope)) →
  pays one_row permits (λ r, match r with
    | Ok h => if mine && (closed_state h || negb (ch_ID h =? id0)) then 1%nat else 0%nat | Err _ => 0%nat end) held
    (loadRouteHealthScope c m k).
Proof.
  intros ->. unfold loadRouteHealthScope. destruct (c <=? 0) eqn:Ec; [cbn; lia|]. apply pays_read; [|cbn; lia].
  intros d ((h0 & E0 & Hs0 & Hc0) & Huniq & _). case_bool_decide as Em; [|cbn; lia]. injection Em as -> <- <-.
  destruct (first_health _ d) as [[id h]|] eqn:Ef.
  - apply first_health_Some in Ef as [Ef Hs]. pose proof (Huniq id h Ef Hs) as ->. simplify_eq.
    replace (closed_state _) with (closed_state h0) by done. rewrite Hc0. cbn. rewrite Z.eqb_refl. cbn. lia.
  - pose proof (first_health_None _ _ _ _ Ef E0). congruence.
Qed.

Lemma claim_pays (mine : bool) h now held :
  ((if mine && negb (ch_ID h =? id0)%Z then 1 else 0) <= held)%nat →
  pays one_row permits (λ r, match r with Ok rows => if mine && (rows =? 1) then 1%nat else 0%nat | Err _ => 0%nat end) held
    (query (claim_probe (ch_ID h) now)).
Proof.
  intros Hheld. split; [|cbn; lia]. intros d Hd.
  destruct (update_unclaims (ch_ID h) _ _ d (claim_unclaims now) Hd) as (Hd' & Hp & Hc).
  change (update_health _ _ _) with (claim_probe (ch_ID h) now) in *. split; [exact Hd'|].
  destruct ((claim_probe (ch_ID h) now d).1) as [rows|e]; [|exists held; cbn; lia].
  destruct (mine && (rows =? 1)) eqn:Em; [|exists held; cbn; rewrite Em; lia].
  apply andb_true_iff in Em as [-> Er%Z.eqb_eq]. subst rows. cbn in Hheld. destruct (ch_ID h =? id0) eqn:Ei.
  - apply Z.eqb_eq in Ei. exists (held + 1)%nat. cbn. split; [|lia].
    cut (permits (claim_probe (ch_ID h) now d).2 + 1 <= permits d)%nat; [lia|]. apply Hc; [done|done|].
    intros x. unfold cooled_down, claimable. intros [-> _]%andb_true_iff. done.
  - exists held. cbn in *. lia.
Qed.

Lemma usable_pays attempts c m k now :
  pays one_row permits (admission (OpUsable c m k now)) 0 (usable_attempts attempts c m k now).
Proof.
  set (mine := bool_decide ((c, NormalizeModel m, k) = (channelID, model, keyScope))).
  set (cost := admission (OpUsable c m k now)).
  assert (∀ e, cost (Ok (true, e)) = if mine then 1 else 0)%nat as Htrue by done.
  assert (∀ e, cost (Ok (false, e)) = 0%nat) as Hfalse by done.
  assert (∀ e, cost (Err e) = 0%nat) as Herr by done. clearbody cost.
  assert (∃ b, b = mine) as [b Hmine] by eauto. rewrite <- Hmine in Htrue. subst mine.
  induction attempts as [|attempts IH]; cbn [usable_attempts]; [cbn; rewrite Hfalse; lia|].
  eapply pays_bind; [by apply (load_pays b)|intros h held Hheld|done].
  cbv beta iota in Hheld. fold (closed_state h). destruct (closed_state h) eqn:Ecl.
  { cbn. rewrite Htrue. rewrite orb_true_l, andb_true_r in Hheld. done. }
  rewrite orb_false_l in Hheld. destruct (bool_decide (ch_State h = RouteHealthStateHalfOpen)).
  - destruct (_ <? _); [cbn; rewrite Hfalse; lia|].
    apply (pays_bind _ _ (λ _, 0%nat)); [|intros rows held' _; destruct (negb (rows =? 1)); [cbn; rewrite Hfalse; lia|]|done].
    + split; [|cbn; lia]. intros d Hd. destruct (update_unclaims (ch_ID h) _ _ d (rearm_unclaims now) Hd) as (Hd' & Hp & _).
      split; [exact Hd'|]. exists held. split; [|cbn; lia]. unfold rearm_probe. lia.
    + eapply pays_mono; [|exact IH]. lia.
  - destruct (_ || _); [cbn; rewrite Hfalse; lia|].
    eapply pays_bind; [by apply (claim_pays b)|intros rows held' Hh; cbn in Hh|done].
    destruct (rows =? 1); cbn; rewrite ?Htrue, ?Hfalse; [|lia]. by rewrite andb_true_r in Hh.
Qed.

(** ** Observations *)

Lemma persist_pays b c m k observe :
  keeps_scope observe →
  ((c, NormalizeModel m, k) = (channelID, model, keyScope) → (1 <= b)%nat ∧ ∀ h, closed_state h = false → closed_state (observe h) = false) →
  pays one_row permits (λ _, 0%nat) b (persistRouteHealthObservation c m k observe).
Proof.
  intros Hk Hmine. unfold persistRouteHealthObservation. destruct (c <=? 0); [cbn; lia|].
  apply (pays_bind _ _ (λ _, 0%nat)); [split; [|cbn; lia]|intros [h|] b' _; [cbn; lia|split; [|cbn; lia]]|done].
  - intros d Hd. unfold observe_row. destruct (first_health _ d) as [[id h]|] eqn:Ef; [|cbn; eauto with lia].
    apply first_health_Some in Ef as [Ef Hs]. cbn [fst snd].
    assert (id = id0 → (c, NormalizeModel m, k) = (channelID, model, keyScope)) as Hid.
    { intros ->. destruct Hd as ((h0 & E0 & Hs0 & _) & _). rewrite E0 in Ef. injection Ef as ->.
      apply in_scope_true in Hs as (<- & <- & <-). by apply in_scope_true in Hs0 as (<- & <- & <-). }
    split.
    + eapply one_row_insert; [done|exact Ef| |].
      * intros c' m' k'. rewrite in_scope_kept by done. done.
      * intros Hi. destruct (Hmine (Hid Hi)) as [_ Hc]. apply Hc. destruct Hd as ((h0 & E0 & _ & Hc0) & _).
        subst id. rewrite E0 in Ef. injection Ef as ->. exact Hc0.
    + exists 0%nat. split; [|cbn; lia]. rewrite permits_insert. case_decide as Hi; [|lia].
      destruct (Hmine (Hid Hi)) as [Hb _]. destruct (claimable _); lia.
  - intros d Hd. unfold create_health. destruct (Hk (new_health c (NormalizeModel m) k)) as (-> & -> & ->). cbn [ch_ChannelID ch_Model ch_KeyScope new_health].
    destruct (first_health _ d) eqn:Ef; [cbn; eauto with lia|]. cbn [fst snd].
    destruct (one_row_create d (observe (new_health c (NormalizeModel m) k) <| ch_ID := next_health_id d |>)) as [H1 H2]; [done| |].
    + change (in_scope channelID model keyScope (observe (new_health c (NormalizeModel m) k)) = false).
      rewrite in_scope_kept by done. destruct Hd as ((h0 & E0 & Hs0 & _) & _). pose proof (first_health_None _ _ _ _ Ef E0) as Hn.
      apply not_true_iff_false. intros (E1 & E2 & E3)%in_scope_true. cbn [new_health ch_ChannelID ch_Model ch_KeyScope] in E1, E2, E3.
      rewrite E1, E2, E3 in Hn. congruence.
    + split; [exact H1|]. exists b'. rewrite H2. cbn. lia.
Qed.

Lemma attempted_pays {A} b (p : prog healthdb A) r :
  (r : res (bool * Z)) = Ok (false, 0) → pays one_row permits (λ _, 0%nat) b p →
  ∀ op, pays one_row permits (admission op) b (p ≫= λ _, of_res r).
Proof. intros -> Hp op. eapply pays_bind; [exact Hp| |]; [intros; destruct op; cbn; lia|by destruct op]. Qed.

Lemma error_pays c m key status code msg started retryAfter b :
  ((c, NormalizeModel m) = (channelID, model) → (1 <= b)%nat) →
  pays one_row permits (λ _, 0%nat) b (ObserveLiveRouteErrorForKeyWithRetryAfter c m key status code msg started retryAfter).
Proof.
  intros Hb. unfold ObserveLiveRouteErrorForKeyWithRetryAfter, observeLiveRouteError.
  assert (∀ k policy ra, pays one_row permits (λ _, 0%nat) b
    (now ← clock; _ ← persistRouteHealthFailureWithRetryAfter c m k policy now ra; mret tt)) as Hp.
  { intros k policy ra z. change (pays one_row permits (λ _, 0%nat) b (persistRouteHealthFailureWithRetryAfter c m k policy z ra ≫= λ _, mret tt)).
    eapply pays_bind; [|intros; cbn; lia|done]. apply persist_pays; [apply failure_scope|].
    intros E. split; [apply Hb; congruence|]. intros h. apply failure_not_closed. }
  repeat case_match; solve [apply Hp|cbn; lia].
Qed.

Lemma success_pays c m key latency ttft b :
  (c, NormalizeModel m) ≠ (channelID, model) →
  pays one_row permits (λ _, 0%nat) b (ObserveLiveRouteSuccessForKey c m key latency ttft).
Proof.
  intros Hne. assert (∀ k observe b, keeps_scope observe → pays one_row permits (λ _, 0%nat) b (persistRouteHealthObservation c m k observe)) as Hp.
  { intros k observe b' Hk. apply persist_pays; [done|]. intros E. exfalso. apply Hne. congruence. }
  unfold ObserveLiveRouteSuccessForKey. apply (pays_bind _ _ (λ _, 0%nat)); [|intros ? b' _|done].
  - intros z. change (pays one_row permits (λ _, 0%nat) b (PersistRouteHealthSuccessWithMetrics c m z latency ttft ≫= λ _, mret tt)).
    eapply pays_bind; [|intros; cbn; lia|done]. apply Hp. intros h. 
    destruct (0 <=? latency), (0 <? ttft); exact (success_scope z _).
  - destruct (blank key); [cbn; lia|]. intros z. cbn [prog_bind clock mbind prog_mbind].
    apply (pays_bind _ _ (λ _, 0%nat)); [apply pays_read; cbn; lia|intros [x|] b2 _; [|cbn; lia]|done].
    eapply pays_bind; [apply Hp, success_scope|intros; cbn; lia|done].
Qed.

Lemma op_pays op : resets op = false → pays one_row permits (admission op) (reports op) (op_prog op).
Proof.
  destruct op as [c m k now|c m key status code msg started ra|c m key lat ttft]; intros Hr; cbn [op_prog].
  - apply usable_pays.
  - apply (attempted_pays _ _ _ eq_refl). apply error_pays. intros E. cbn. by rewrite bool_decide_eq_true_2.
  - apply (attempted_pays _ _ _ eq_refl). apply success_pays. by apply bool_decide_eq_false in Hr.
Qed.
End probes.

(** C31: In any interleaving of requests and error reports over the nodes, at
    any clocks and with any statement failing, the requests admitted to a route
    that is not closed are at most the claim its row permits (one when it is
    open with a cool-down, none when a probe is running) plus one for each
    reported error of its channel and model: concurrent requests never
    stampede a recovering route. *)
Theorem probes_bounded_by_failures `{GoText} channelID model keyScope id acts c :
  one_row channelID model keyScope id (c_db c) → c_procs c = [] →
  Forall (λ op, resets channelID model op = false) (spawned acts) →
  (spent (admission channelID model keyScope) (run_actions op_prog acts c)
   <= permits id (c_db c) + sum_list_with (reports channelID model) (spawned acts))%nat.
Proof.
  intros Hd Hp Hs. apply (interleaving_pays op_prog (one_row channelID model keyScope id) (permits id)).
  - apply still_pays.
  - split; [done|]. exists []. rewrite Hp. cbn. split; [lia|constructor].
  - eapply Forall_impl; [exact Hs|]. intros op. apply op_pays.
Qed.

(** A request without an outcome: nothing is observed after it. *)
Definition only_asks (op : health_op) : Prop := match op with OpUsable _ _ _ _ => True | _ => False end.

Lemma asks_report_nothing `{GoText} channelID model acts :
  Forall only_asks acts →
  Forall (λ op, resets channelID model op = false) acts ∧ sum_list_with (reports channelID model) acts = 0%nat.
Proof. induction 1 as [|op l Hop _ [IH1 IH2]]; [done|]. destruct op; try done. split; [by constructor|exact IH2]. Qed.

(** Once a request has claimed the probe of a route and ends without
    reporting an outcome (a crash, a cancelled client, or another candidate
    preferred over it), no later request is admitted, however much time
    passes: the re-armed row is open with no cool-down, which nothing but an
    observation leaves. *)
Theorem abandoned_probe_blocks_route `{GoText} channelID requestModel keyScope id d now e acts :
  one_row channelID (NormalizeModel requestModel) keyScope id d →
  (run_prog now (routeHealthScopeUsable channelID requestModel keyScope now) d).1 = Ok (true, e) →
  Forall only_asks (spawned acts) →
  spent (admission channelID (NormalizeModel requestModel) keyScope)
    (run_actions op_prog acts (MkConfig (run_prog now (routeHealthScopeUsable channelID requestModel keyScope now) d).2 now [])) = 0%nat.
Proof.
  intros Hd Hr Hasks. set (model := NormalizeModel requestModel) in *.
  destruct (pays_alone (one_row channelID model keyScope id) (permits id) _ 0 _ now d
    (usable_pays channelID model keyScope id 2 channelID requestModel keyScope now) Hd) as [Hd' Hp].
  change (usable_attempts 2 channelID requestModel keyScope now) with (routeHealthScopeUsable channelID requestModel keyScope now) in *.
  rewrite Hr in Hp. unfold admission in Hp. rewrite bool_decide_eq_true_2 in Hp by done.
  assert (permits id d <= 1)%nat as H1 by (unfold permits; repeat case_match; lia).
  destruct (asks_report_nothing channelID model (spawned acts) Hasks) as [Hs0 Hs1].
  set (d' := (run_prog now _ d).2) in *. clearbody d'.
  cut (spent (admission channelID model keyScope) (run_actions op_prog acts (MkConfig d' now []))
    <= 0 + sum_list_with (reports channelID model) (spawned acts))%nat; [lia|].
  apply (interleaving_pays op_prog (one_row channelID model keyScope id) (permits id)).
  - apply still_pays.
  - split; [done|]. exists []. cbn. split; [lia|constructor].
  - eapply Forall_impl; [exact Hs0|]. intros op. apply op_pays.
Qed.

(** ** A cool-down is waited for *)

(** The row of a scope. *)
Definition only_row (channelID : Z) (model keyScope : string) (id : Z) (h : ChannelHealth) (d : healthdb) : Prop :=
  channel_healths d !! id = Some h ∧ in_scope channelID model keyScope h = true ∧
  (∀ id' h', channel_healths d !! id' = Some h' → in_scope channelID model keyScope h' = true → id' = id).

Lemma first_health_only c m k id h d : only_row c m k id h d → first_health (in_scope c m k) d = Some (id, h).
Proof.
  intros (E & Hs & Hu). destruct (first_health _ d) as [[i x]|] eqn:Ef.
  - apply first_health_Some in Ef as [Ef Hx]. pose proof (Hu i x Ef Hx) as ->. congruence.
  - pose proof (first_health_None _ _ _ _ Ef E). congruence.
Qed.

Lemma only_row_insert c m k id h d h' :
  only_row c m k id h d → in_scope c m k h' = true → only_row c m k id h' (d <| channel_healths ::= <[id := h']> |>).
Proof.
  intros (E & Hs & Hu) Hs'. unfold only_row. rsimpl. rewrite lookup_insert_eq. split_and!; [done|done|].
  intros i x Hi Hx. apply lookup_insert_Some in Hi as [[<- _]|[_ Hi]]; [done|eauto].
Qed.

(** What a failure that opens a row leaves. *)
Definition opens (policy : RouteHealthPolicy) (retryAfter : Z) (h : ChannelHealth) : bool :=
  bool_decide (ch_State h = RouteHealthStateHalfOpen) || (FailureThreshold (normalized policy) <=? i64 (ch_FailureCount h + 1)) || (0 <? retryAfter).
Definition cooldown_end (policy : RouteHealthPolicy) (now retryAfter : Z) : Z :=
  Unix (now + Z.max (Cooldown (normalized policy)) retryAfter).

Lemma failure_opens h policy now retryAfter :
  opens policy retryAfter (Normalize now h) = true →
  let h' := ObserveRouteHealthFailureWithRetryAfter h policy now retryAfter in
  ch_State h' = RouteHealthStateOpen ∧ ch_CooldownUntil h' = cooldown_end policy now retryAfter ∧
  ch_HealthEpoch h' = i64 (ch_HealthEpoch (Normalize now h) + 1).
Proof.
  intros Ho h'. subst h'. revert Ho. unfold opens, cooldown_end, ObserveRouteHealthFailureWithRetryAfter.
  generalize (normalized policy), (Normalize now h). clear. intros p h Ho.
  lazymatch goal with |- context [?x || (0 <? retryAfter)] => replace (x || (0 <? retryAfter)) with true by (symmetry; exact Ho) end.
  destruct (Z.ltb_spec (Cooldown p) retryAfter); [rewrite Z.max_r by lia|rewrite Z.max_l by lia]; done.
Qed.

Lemma normalized_cooldown policy : 0 < Cooldown (normalized policy).
Proof. unfold normalized. repeat case_match; rsimpl; unfold Second in *; lia. Qed.

Lemma cooldown_end_positive policy now retryAfter : Second <= now → 0 < cooldown_end policy now retryAfter.
Proof.
  intros Hn. pose proof (normalized_cooldown policy). unfold cooldown_end, Unix.
  apply Z.lt_le_trans with 1; [lia|]. apply Z.div_le_lower_bound; unfold Second in *; lia.
Qed.

(** A request on an open row with a cool-down. *)
Lemma usable_open `{GoText} c m k id h d t :
  0 < c → only_row c (NormalizeModel m) k id h d → ch_State h = RouteHealthStateOpen → 0 < ch_CooldownUntil h →
  (run_prog t (routeHealthScopeUsable c m k t) d).1 =
  Ok (if Unix t <? ch_CooldownUntil h then (false, ch_HealthEpoch h) else (true, i64 (ch_HealthEpoch h + 1))).
Proof.
  intros Hc Hrow Hs Hcd. unfold routeHealthScopeUsable. cbn [usable_attempts]. rewrite run_prog_bind.
  unfold loadRouteHealthScope. destruct (Z.leb_spec c 0); [lia|]. rewrite run_prog_query.
  cbv beta iota. rewrite (first_health_only _ _ _ _ _ _ Hrow). cbv beta iota.
  set (h1 := h <| ch_ID := id |>). assert (ch_State h1 = RouteHealthStateOpen) as Hs1 by exact Hs.
  assert (ch_CooldownUntil h = ch_CooldownUntil h1) as Hcu by done. rewrite Hcu in *. change (ch_HealthEpoch h) with (ch_HealthEpoch h1).
  assert (ch_ID h1 = id) as Hid by done. assert (channel_healths d !! id = Some h) as E by apply Hrow.
  clearbody h1. rewrite Hs1, (bool_decide_eq_false_2 (_ = EmptyString)), !(bool_decide_eq_false_2 (RouteHealthStateOpen = _)) by done.
  cbn [orb]. rewrite (bool_decide_eq_true_2 _ eq_refl). cbn [negb orb]. destruct (Z.leb_spec (ch_CooldownUntil h1) 0); [lia|]. cbn [orb].
  destruct (Unix t <? ch_CooldownUntil h1) eqn:Et; [done|]. rewrite run_prog_bind, run_prog_query.
  unfold claim_probe, update_health. rewrite Hid, E.
  replace (cooled_down RouteHealthStateOpen t h) with true; [done|]. symmetry. unfold cooled_down. rewrite Hs, Hcu.
  rewrite (bool_decide_eq_true_2 _ eq_refl). apply andb_true_iff. split; lia.
Qed.

Lemma Normalize_ID now h id : Normalize now (h <| ch_ID := id |>) = Normalize now h <| ch_ID := id |>.
Proof.
  unfold Normalize. change (ch_State (h <| ch_ID := id |>)) with (ch_State h). destruct (bool_decide (ch_State h = EmptyString));
    destruct h as [? ? ? ? ? ? ? epoch ? ? updated]; cbv [upd]; cbn; destruct (epoch <=? 0); cbn; destruct (updated =? 0); done.
Qed.

(** A failure that opens a route (of a probe, at the threshold, or with the
    provider's Retry-After) refuses every request until the longer of the
    policy's cool-down and Retry-After has passed, and admits the next one as
    the probe of a new health epoch. *)
Theorem opened_route_waits_for_cooldown `{GoText} channelID requestModel keyScope id h d policy now retryAfter t :
  0 < channelID → Second <= now → only_row channelID (NormalizeModel requestModel) keyScope id h d →
  opens policy retryAfter (Normalize now h) = true →
  let opened := (run_prog now (persistRouteHealthFailureWithRetryAfter channelID requestModel keyScope policy now retryAfter) d).2 in
  let epoch := i64 (ch_HealthEpoch (Normalize now h) + 1) in
  (run_prog t (routeHealthScopeUsable channelID requestModel keyScope t) opened).1 =
  Ok (if Unix t <? cooldown_end policy now retryAfter then (false, epoch) else (true, i64 (epoch + 1))).
Proof.
  intros Hc Hn Hrow Ho opened epoch.
  set (h' := ObserveRouteHealthFailureWithRetryAfter (h <| ch_ID := id |>) policy now retryAfter).
  assert (opened = d <| channel_healths ::= <[id := h']> |>) as ->.
  { unfold opened, persistRouteHealthFailureWithRetryAfter, persistRouteHealthObservation.
    destruct (Z.leb_spec channelID 0); [lia|]. rewrite run_prog_bind, run_prog_query. unfold observe_row.
    by rewrite (first_health_only _ _ _ _ _ _ Hrow). }
  destruct (failure_opens (h <| ch_ID := id |>) policy now retryAfter) as (Hs & Hcd & He).
  { rewrite Normalize_ID. exact Ho. }
  fold h' in Hs, Hcd, He. rewrite (usable_open _ _ _ id h').
  - rewrite Hcd, He. by rewrite Normalize_ID.
  - done.
  - apply (only_row_insert _ _ _ _ h); [done|]. unfold h'. rewrite (in_scope_kept _ _ _ _ _ (failure_scope policy now retryAfter)).
    by destruct Hrow as (_ & ? & _).
  - done.
  - rewrite Hcd. by apply cooldown_end_positive.
Qed.

(** ** Witnesses *)

#[local] Instance plain_text : GoText := MkGoText (λ s, s) (λ s, s) (λ s, s).

(** A route of channel 2, open until second 1000. *)
Definition route_row : ChannelHealth := MkChannelHealth 7 2 "gpt-5" "" RouteHealthStateOpen 3 1000 4 0 0 970.
Definition open_route : healthdb := MkHealthdb {[ 7 := route_row ]} 8.

Lemma open_route_lookup i h : channel_healths open_route !! i = Some h → i = 7.
Proof. unfold open_route. cbn [channel_healths]. intros [<- _]%lookup_singleton_Some. done. Qed.

Lemma open_route_one_row : one_row 2 "gpt-5" "" 7 open_route.
Proof.
  split_and!.
  - eexists. split; [apply lookup_insert_eq|done].
  - intros i h E _. by apply open_route_lookup in E.
  - intros i [h ->%open_route_lookup]. done.
Qed.

(** Two requests that read the row before either has written it. *)
Definition racing_requests : list (action health_op) :=
  [Spawn (OpUsable 2 "GPT-5" "" (1000 * Second)); Spawn (OpUsable 2 "gpt-5:free" "" (1001 * Second));
   Step 0; Step 1; Step 1; Step 0].

Lemma probes_bounded_by_failures_witness :
  let c := MkConfig open_route (1000 * Second) [] in
  spent (admission 2 "gpt-5" "") (run_actions op_prog racing_requests c) = 1%nat ∧
  (spent (admission 2 "gpt-5" "") (run_actions op_prog racing_requests c) <=
   permits 7 (c_db c) + sum_list_with (reports 2 "gpt-5") (spawned racing_requests))%nat.
Proof.
  split; [vm_compute; reflexivity|].
  apply probes_bounded_by_failures; [exact open_route_one_row|reflexivity|repeat constructor].
Defined.

(** The probe is claimed at second 1000 and abandoned; requests follow after a
    minute and after an hour. *)
Definition later_requests : list (action health_op) :=
  [Spawn (OpUsable 2 "gpt-5" "" (1060 * Second)); Step 0; Step 0; Step 0;
   Spawn (OpUsable 2 "gpt-5" "" (4600 * Second)); Step 1; Step 1].

Lemma abandoned_probe_blocks_route_witness :
  let claim := run_prog (1000 * Second) (routeHealthScopeUsable 2 "gpt-5" "" (1000 * Second)) open_route in
  claim.1 = Ok (true, 5) ∧
  spent (admission 2 "gpt-5" "") (run_actions op_prog later_requests (MkConfig claim.2 (1000 * Second) [])) = 0%nat ∧
  c_procs (run_actions op_prog later_requests (MkConfig claim.2 (1000 * Second) [])) =
    [(OpUsable 2 "gpt-5" "" (1060 * Second), Ret (Ok (false, 6))); (OpUsable 2 "gpt-5" "" (4600 * Second), Ret (Ok (false, 6)))].
Proof.
  split; [vm_compute; reflexivity|]. split; [|vm_compute; reflexivity].
  pose proof (abandoned_probe_blocks_route 2 "gpt-5" "" 7 open_route (1000 * Second) 5 later_requests) as Hw.
  replace (NormalizeModel "gpt-5") with "gpt-5" in Hw by (vm_compute; reflexivity).
  exact (Hw open_route_one_row ltac:(vm_compute; reflexivity) ltac:(repeat constructor)).
Defined.

(** The probe fails at second 1000 with a Retry-After of two minutes. *)
Lemma opened_route_waits_for_cooldown_witness :
  opens DefaultRouteHealthPolicy (120 * Second) (Normalize (1000 * Second) route_row) = true ∧
  let opened := (run_prog (1000 * Second) (persistRouteHealthFailureWithRetryAfter 2 "gpt-5" "" DefaultRouteHealthPolicy
                   (1000 * Second) (120 * Second)) open_route).2 in
  (run_prog (1119 * Second) (routeHealthScopeUsable 2 "gpt-5" "" (1119 * Second)) opened).1 = Ok (false, 5).
Proof.
  split; [vm_compute; reflexivity|]. cbv zeta.
  etransitivity; [apply (opened_route_waits_for_cooldown 2 "gpt-5" "" 7 route_row)|vm_compute; reflexivity].
  - reflexivity.
  - vm_compute. discriminate.
  - split_and!; [apply lookup_insert_eq|reflexivity|]. intros i h E _. by apply open_route_lookup in E.
  - vm_compute. reflexivity.
Defined.
