(* ===== verification/RouteLease.v ===== *)
(** * Admission leases of routes

    src/service/route_lease.go: a request that uses a channel holds a lease in
    the channel's pool, a Redis sorted set whose members are lease ids scored
    with the instant they expire.  The three Lua scripts run on one key space
    ([leases]) with key expiry; each is one atomic step, so concurrent callers
    are sequences of calls ([lease_op]) with time passing in between.

    Redis' clock is in milliseconds.  A key expires when the clock is past its
    deadline (Redis: [now > when]); the scripts drop a member when the clock
    has reached its score.  A command on a key of another type raises an error
    that ends the script and keeps what it wrote.  The counters of failed calls
    are left out. *)

From S2P Require Import Prelude GoStrings.
#[local] Open Scope string_scope.
#[local] Open Scope Z_scope.

(** ** Redis *)

Inductive hval := HStr (s : string) | HNum (z : Z).
#[global] Instance hval_eq_dec : EqDecision hval.
Proof. solve_decision. Defined.

Inductive lvalue := LStr (s : string) | LHash (h : gmap string hval) | LZset (z : gmap string Z).

(** A key with its deadline. *)
Record entry := MkEntry { e_value : lvalue; e_expire : option Z }.

Record leases := MkLeases { l_keys : gmap string entry; l_now : Z }.
#[global] Instance eta_leases : Eta leases := λ r, MkLeases (l_keys r) (l_now r).

Definition live (now : Z) (e : entry) : bool := match e_expire e with Some t => now <=? t | None => true end.

Definition peek (k : string) (s : leases) : option entry :=
  match l_keys s !! k with Some e => if live (l_now s) e then Some e else None | None => None end.

Definition wrongtype {A} : M leases A := fail (ErrDriver "WRONGTYPE").
Definition write (k : string) (e : entry) : M leases unit := λ s, (Ok tt, s <| l_keys ::= <[k := e]> |>).
Definition DEL (k : string) : M leases unit := λ s, (Ok tt, s <| l_keys ::= delete k |>).
Definition EXISTS (k : string) : M leases bool := λ s, (Ok (bool_decide (is_Some (peek k s))), s).

(** The sorted set and the hash of a key, with its deadline. *)
Definition get_zset (k : string) : M leases (gmap string Z * option Z) := λ s,
  match peek k s with
  | None => (Ok (∅, None), s)
  | Some (MkEntry (LZset z) e) => (Ok (z, e), s)
  | Some _ => wrongtype s
  end.
Definition get_hash (k : string) : M leases (gmap string hval * option Z) := λ s,
  match peek k s with
  | None => (Ok (∅, None), s)
  | Some (MkEntry (LHash h) e) => (Ok (h, e), s)
  | Some _ => wrongtype s
  end.

Definition GET (k : string) : M leases (option string) := λ s,
  match peek k s with
  | None => (Ok None, s)
  | Some (MkEntry (LStr v) _) => (Ok (Some v), s)
  | Some _ => wrongtype s
  end.
Definition HGET (k f : string) : M leases (option hval) := '(h, _) ← get_hash k; mret (h !! f).
Definition HSET (k : string) (fs : list (string * hval)) : M leases unit :=
  '(h, e) ← get_hash k; write k (MkEntry (LHash (list_to_map fs ∪ h)) e).

Definition ZCARD (k : string) : M leases Z := '(z, _) ← get_zset k; mret (Z.of_nat (size z)).
(** [ZRANGEBYSCORE k -inf max] *)
Definition ZRANGE_UPTO (k : string) (max : Z) : M leases (list string) :=
  '(z, _) ← get_zset k; mret ((filter (λ p, p.2 <= max) (map_to_list z)).*1).
Definition ZADD (k : string) (score : Z) (member : string) : M leases unit :=
  '(z, e) ← get_zset k; write k (MkEntry (LZset (<[member := score]> z)) e).
(** A set without members does not exist. *)
Definition ZREM (k member : string) : M leases unit :=
  '(z, e) ← get_zset k;
  if bool_decide (delete member z = ∅) then DEL k else write k (MkEntry (LZset (delete member z)) e).

Definition PEXPIRE (k : string) (ms : Z) : M leases unit := λ s,
  match peek k s with
  | None => (Ok tt, s)
  | Some e => if ms <=? 0 then DEL k s else write k (MkEntry (e_value e) (Some (l_now s + ms))) s
  end.
Definition SET_PX (k v : string) (ms : Z) : M leases unit := λ s,
  if ms <=? 0 then (Err (ErrDriver "ERR invalid expire time in 'set' command"), s)
  else write k (MkEntry (LStr v) (Some (l_now s + ms))) s.

Fixpoint each {A} (l : list A) (f : A → M leases unit) : M leases unit :=
  match l with [] => mret tt | x :: l => _ ← f x; each l f end.

(** ** Keys *)

Definition routeLeasePrefix : string := "route:lease:v1".
Definition UserRouteLeaseKey (userID : Z) : string := routeLeasePrefix +:+ ":user:" +:+ pretty userID.
Definition TokenRouteLeaseKey (tokenID : Z) : string := routeLeasePrefix +:+ ":token:" +:+ pretty tokenID.
Definition ChannelRouteLeaseKey (channelID : Z) : string := routeLeasePrefix +:+ ":channel:" +:+ pretty channelID.
Definition routeLeaseMetaKey (leaseID : string) : string := routeLeasePrefix +:+ ":meta:" +:+ leaseID.
Definition routeLeaseRequestKey (requestID : string) : string := routeLeasePrefix +:+ ":request:" +:+ requestID.

(** ** The scripts *)

(** The keys with their positions, from [i]. *)
Fixpoint numbered (i : nat) (keys : list string) : list (nat * string) :=
  match keys with [] => [] | k :: keys => (i, k) :: numbered (S i) keys end.
Definition resource_field (i : nat) : string := "resource:" +:+ pretty i.

(** The first loop of the acquire script: [true] when a pool is full. *)
Fixpoint find_full (now : Z) (keys : list string) (capacities : list Z) : M leases bool :=
  match keys, capacities with
  | k :: keys, capacity :: capacities =>
      expired ← ZRANGE_UPTO k now;
      _ ← each expired (ZREM k);
      n ← ZCARD k;
      if capacity <=? n then mret true else find_full now keys capacities
  | _, _ => mret false
  end.

Definition routeLeaseAcquireScript (keys : list string) (meta_key request_key : string) (capacities : list Z)
    (lease_id request_id : string) (ttl_ms : Z) : M leases Z :=
  now_ms ← gets l_now;
  has_meta ← EXISTS meta_key;
  has_request ← EXISTS request_key;
  if has_meta || has_request then mret 0 else
  let expiry := now_ms + ttl_ms in
  full ← find_full now_ms keys capacities;
  if (full : bool) then mret (-1) else
  _ ← each keys (λ k, ZADD k expiry lease_id);
  _ ← HSET meta_key [("lease_id", HStr lease_id); ("request_id", HStr request_id); ("expires_at", HNum expiry)];
  _ ← HSET meta_key [("resource_count", HNum (Z.of_nat (length keys)))];
  _ ← each (numbered 1 keys) (λ p, HSET meta_key [(resource_field p.1, HStr p.2)]);
  _ ← PEXPIRE meta_key ttl_ms;
  _ ← SET_PX request_key lease_id ttl_ms;
  mret 1.

(** [HGET(meta_key, 'resource:' .. i) == KEYS[i]] for all [i]. *)
Fixpoint resources_match (meta_key : string) (keys : list (nat * string)) : M leases bool :=
  match keys with
  | [] => mret true
  | (i, k) :: keys =>
      v ← HGET meta_key (resource_field i);
      if bool_decide (v = Some (HStr k)) then resources_match meta_key keys else mret false
  end.

(** The checks the release and the renew script start with. *)
Definition owns_lease (keys : list string) (meta_key request_key lease_id request_id : string) : M leases bool :=
  l ← HGET meta_key "lease_id";
  if negb (bool_decide (l = Some (HStr lease_id))) then mret false else
  r ← HGET meta_key "request_id";
  if negb (bool_decide (r = Some (HStr request_id))) then mret false else
  v ← GET request_key;
  if negb (bool_decide (v = Some lease_id)) then mret false else
  n ← HGET meta_key "resource_count";
  if negb (bool_decide (default (HNum 0) n = HNum (Z.of_nat (length keys)))) then mret false else
  resources_match meta_key (numbered 1 keys).

Definition routeLeaseReleaseScript (keys : list string) (meta_key request_key lease_id request_id : string) : M leases Z :=
  owns ← owns_lease keys meta_key request_key lease_id request_id;
  if negb owns then mret 0 else
  _ ← each keys (λ k, ZREM k lease_id);
  _ ← DEL meta_key;
  _ ← DEL request_key;
  mret 1.

Definition routeLeaseRenewScript (keys : list string) (meta_key request_key lease_id request_id : string) (ttl_ms : Z) : M leases Z :=
  owns ← owns_lease keys meta_key request_key lease_id request_id;
  if negb owns then mret 0 else
  now_ms ← gets l_now;
  _ ← HSET meta_key [("expires_at", HNum (now_ms + ttl_ms))];
  _ ← PEXPIRE meta_key ttl_ms;
  _ ← PEXPIRE request_key ttl_ms;
  _ ← each keys (λ k, ZADD k (now_ms + ttl_ms) lease_id);
  mret 1.

(** ** The service

    Durations are in nanoseconds; [now] is the caller's clock. *)

Definition ErrRouteLeaseUnavailable : error := ErrNew "route lease redis is unavailable".
Definition ErrRouteLeaseConflict : error := ErrNew "route lease is already owned".
Definition ErrRouteLeaseCapacity : error := ErrNew "route lease capacity is full".
Definition ErrRouteLeaseOwnership : error := ErrNew "route lease ownership mismatch".
Definition ErrRouteLeaseRuntime : error := ErrNew "route lease runtime state changed".

Record RouteLeaseResource := MkResource { rr_Key : string; rr_Capacity : Z }.
Record RouteLease := MkLease {
  rl_LeaseID : string; rl_RequestID : string; rl_ChannelID : Z; rl_Resources : list RouteLeaseResource; rl_ExpiresAt : Z
}.

(** [d.Milliseconds()] *)
Definition Milliseconds (d : Z) : Z := Z.quot d 1000000.

(** The loop over the resources: usable and without duplicates. *)
Fixpoint resources_ok (seen : list string) (resources : list RouteLeaseResource) : bool :=
  match resources with
  | [] => true
  | r :: resources =>
      if blank (rr_Key r) || (rr_Capacity r <=? 0) then false
      else if bool_decide (rr_Key r ∈ seen) then false else resources_ok (rr_Key r :: seen) resources
  end.

(** [script.Run(...).Int()]; an error keeps its text behind the sentinel's. *)
Definition run_script (script : M leases Z) : M leases Z :=
  r ← try script;
  match r with
  | Ok n => mret n
  | Err e => fail (ErrWrap (error_string ErrRouteLeaseUnavailable) e)
  end.

Definition AcquireRouteLease (now : Z) (requestID leaseID : string) (ttl : Z) (resources : list RouteLeaseResource) : M leases RouteLease :=
  if blank requestID || blank leaseID || (ttl <=? 0) || bool_decide (resources = []) then fail ErrRouteLeaseUnavailable else
  if negb (resources_ok [] resources) then fail ErrRouteLeaseUnavailable else
  result ← run_script (routeLeaseAcquireScript (rr_Key <$> resources) (routeLeaseMetaKey leaseID) (routeLeaseRequestKey requestID)
             (rr_Capacity <$> resources) leaseID requestID (Milliseconds ttl));
  if result =? 0 then fail ErrRouteLeaseConflict
  else if result =? -1 then fail ErrRouteLeaseCapacity
  else mret (MkLease leaseID requestID 0 resources (now + ttl)).

Definition ReleaseRouteLease (lease : RouteLease) : M leases unit :=
  if blank (rl_LeaseID lease) || blank (rl_RequestID lease) || bool_decide (rl_Resources lease = []) then fail ErrRouteLeaseUnavailable else
  result ← run_script (routeLeaseReleaseScript (rr_Key <$> rl_Resources lease) (routeLeaseMetaKey (rl_LeaseID lease))
             (routeLeaseRequestKey (rl_RequestID lease)) (rl_LeaseID lease) (rl_RequestID lease));
  if result =? 0 then fail ErrRouteLeaseOwnership else mret tt.

Definition RenewRouteLease (now : Z) (lease : RouteLease) (ttl : Z) : M leases Z :=
  if blank (rl_LeaseID lease) || blank (rl_RequestID lease) || (ttl <=? 0) then fail ErrRouteLeaseUnavailable else
  result ← run_script (routeLeaseRenewScript (rr_Key <$> rl_Resources lease) (routeLeaseMetaKey (rl_LeaseID lease))
             (routeLeaseRequestKey (rl_RequestID lease)) (rl_LeaseID lease) (rl_RequestID lease) (Milliseconds ttl));
  if result =? 0 then fail ErrRouteLeaseOwnership else mret (now + ttl).

(** ** Calls of all nodes, in the order Redis executes them *)

Inductive lease_op :=
  | OpAcquire (now : Z) (requestID leaseID : string) (ttl : Z) (resources : list RouteLeaseResource)
  | OpRelease (lease : RouteLease)
  | OpRenew (now : Z) (lease : RouteLease) (ttl : Z)
  | OpTick (ms : N).

Definition lease_step (op : lease_op) (s : leases) : leases :=
  match op with
  | OpAcquire now requestID leaseID ttl resources => exec (AcquireRouteLease now requestID leaseID ttl resources) s
  | OpRelease lease => exec (ReleaseRouteLease lease) s
  | OpRenew now lease ttl => exec (RenewRouteLease now lease ttl) s
  | OpTick ms => s <| l_now ::= λ t, t + Z.of_N ms |>
  end.

Definition lease_run (ops : list lease_op) (s : leases) : leases := foldl (λ s op, lease_step op s) s ops.

(** The members of a pool that have not expired. *)
Definition zset_at (k : string) (s : leases) : gmap string Z :=
  match l_keys s !! k with Some (MkEntry (LZset z) _) => z | _ => ∅ end.
Definition holders (k : string) (s : leases) : gmap string Z := filter (λ p, l_now s < p.2) (zset_at k s).

(** The keys of the pools. *)
Definition is_pool (k : string) : Prop :=
  ∃ id, k = UserRouteLeaseKey id ∨ k = TokenRouteLeaseKey id ∨ k = ChannelRouteLeaseKey id.

Lemma pool_not_meta k L : is_pool k → k ≠ routeLeaseMetaKey L.
Proof. intros (id & [-> | [-> | ->]]); discriminate. Qed.
Lemma pool_not_request k R : is_pool k → k ≠ routeLeaseRequestKey R.
Proof. intros (id & [-> | [-> | ->]]); discriminate. Qed.
Lemma meta_not_request L R : routeLeaseMetaKey L ≠ routeLeaseRequestKey R.
Proof. discriminate. Qed.
Lemma meta_inj L L' : routeLeaseMetaKey L = routeLeaseMetaKey L' → L = L'.
Proof. unfold routeLeaseMetaKey. intros E. by apply (inj (String.append routeLeasePrefix)), (inj (String.append ":meta:")) in E. Qed.

(** ** The invariant *)

(** What the hash of a lease says. *)
Definition records (h : gmap string hval) (L R : string) (keys : list string) : Prop :=
  h !! "lease_id" = Some (HStr L) ∧ h !! "request_id" = Some (HStr R) ∧
  h !! "resource_count" = Some (HNum (Z.of_nat (length keys))) ∧
  ∀ i k, keys !! i = Some k → h !! resource_field (S i) = Some (HStr k).

(** A pool is absent or a sorted set that never expires. *)
Definition pool_shape (s : leases) : Prop :=
  ∀ k e, is_pool k → l_keys s !! k = Some e → ∃ z, e = MkEntry (LZset z) None.

(** A lease is recorded with its deadline, and until then is a member of its
    pools with that score. *)
Definition metas_ok (s : leases) : Prop :=
  ∀ L e, l_keys s !! routeLeaseMetaKey L = Some e →
  ∃ R h keys w, e = MkEntry (LHash h) (Some w) ∧ records h L R keys ∧ Forall is_pool keys ∧
    (l_now s < w → Forall (λ k, zset_at k s !! L = Some w) keys).

Definition requests_ok (s : leases) : Prop :=
  ∀ R e, l_keys s !! routeLeaseRequestKey R = Some e → ∃ v w, e = MkEntry (LStr v) (Some w).

Definition leases_ok (s : leases) : Prop := pool_shape s ∧ metas_ok s ∧ requests_ok s.

(** ** Commands on a pool *)

(** [s'] differs from [s] in the members of pools only: [z k] are those of [k]. *)
Definition pools_become (z : string → gmap string Z) (s s' : leases) : Prop :=
  l_now s' = l_now s ∧ (∀ k, ¬ is_pool k → l_keys s' !! k = l_keys s !! k) ∧ pool_shape s' ∧ ∀ k, is_pool k → zset_at k s' = z k.

Lemma get_zset_pool s k : pool_shape s → is_pool k → get_zset k s = (Ok (zset_at k s, None), s).
Proof.
  intros Hs Hk. unfold get_zset, peek, zset_at. destruct (l_keys s !! k) as [e|] eqn:E; [|done].
  destruct (Hs k e Hk E) as [z ->]. done.
Qed.

Lemma write_pool s k z :
  pool_shape s → is_pool k →
  pools_become (λ k', if decide (k' = k) then z else zset_at k' s) s (s <| l_keys ::= <[k := MkEntry (LZset z) None]> |>).
Proof.
  intros Hs Hk. split_and!; [done| | |].
  - intros k' Hk'. rsimpl. rewrite lookup_insert_ne; [done|]. by intros ->.
  - intros k' e Hk' He. rsimpl. apply lookup_insert_Some in He as [[<- <-]|[_ He]]; [by eexists|eauto].
  - intros k' Hk'. unfold zset_at. rsimpl. case_decide as E; [subst; by rewrite lookup_insert_eq|by rewrite lookup_insert_ne].
Qed.

Lemma delete_pool s k :
  pool_shape s → is_pool k →
  pools_become (λ k', if decide (k' = k) then ∅ else zset_at k' s) s (s <| l_keys ::= delete k |>).
Proof.
  intros Hs Hk. split_and!; [done| | |].
  - intros k' Hk'. rsimpl. rewrite lookup_delete_ne; [done|]. by intros ->.
  - intros k' e Hk' He. rsimpl. apply lookup_delete_Some in He as [_ He]. eauto.
  - intros k' Hk'. unfold zset_at. rsimpl. case_decide as E; [subst; by rewrite lookup_delete_eq|by rewrite lookup_delete_ne].
Qed.

Lemma ZADD_pool s k x L :
  pool_shape s → is_pool k →
  ∃ s', ZADD k x L s = (Ok tt, s') ∧ pools_become (λ k', if decide (k' = k) then <[L := x]> (zset_at k s) else zset_at k' s) s s'.
Proof.
  intros Hs Hk. unfold ZADD. rewrite (bind_ok _ _ _ _ _ (get_zset_pool s k Hs Hk)). eexists. split; [done|]. by apply write_pool.
Qed.

Lemma ZREM_pool s k L :
  pool_shape s → is_pool k →
  ∃ s', ZREM k L s = (Ok tt, s') ∧ pools_become (λ k', if decide (k' = k) then delete L (zset_at k s) else zset_at k' s) s s'.
Proof.
  intros Hs Hk. unfold ZREM. rewrite (bind_ok _ _ _ _ _ (get_zset_pool s k Hs Hk)). case_bool_decide as E.
  - eexists. split; [done|]. rewrite E. by apply delete_pool.
  - eexists. split; [done|]. by apply write_pool.
Qed.

Lemma pools_become_ext z z' s s' : (∀ k, is_pool k → z k = z' k) → pools_become z s s' → pools_become z' s s'.
Proof. intros Hz (? & ? & ? & H). split_and!; [done..|]. intros k Hk. rewrite H by done. auto. Qed.

Lemma pools_become_refl s : pool_shape s → pools_become (λ k, zset_at k s) s s.
Proof. done. Qed.

Lemma pools_become_trans z z' s s1 s2 : pools_become z s s1 → pools_become z' s1 s2 → pools_become z' s s2.
Proof.
  intros (Hn & Ho & _ & _) (Hn' & Ho' & ? & ?). split_and!; [congruence| |done..].
  intros k Hk. by rewrite Ho', Ho.
Qed.

Lemma pools_become_shape z s s' : pools_become z s s' → pool_shape s'.
Proof. by intros (_ & _ & ? & _). Qed.

(** The same update of several pools. *)
Lemma each_pool (f : string → M leases unit) (g : gmap string Z → gmap string Z) keys s :
  (∀ s k, pool_shape s → is_pool k → ∃ s', f k s = (Ok tt, s') ∧
    pools_become (λ k', if decide (k' = k) then g (zset_at k s) else zset_at k' s) s s') →
  (∀ z, g (g z) = g z) → Forall is_pool keys → pool_shape s →
  ∃ s', each keys f s = (Ok tt, s') ∧ pools_become (λ k, if decide (k ∈ keys) then g (zset_at k s) else zset_at k s) s s'.
Proof.
  intros Hf Hg Hkeys. revert s. induction Hkeys as [|k keys Hk _ IH]; intros s Hs; cbn [each].
  { exists s. split; [done|]. eapply pools_become_ext; [|by apply pools_become_refl]. done. }
  destruct (Hf s k Hs Hk) as (s1 & E1 & H1). destruct (IH s1 (pools_become_shape _ _ _ H1)) as (s2 & E2 & H2).
  exists s2. rewrite (bind_ok _ _ _ _ _ E1). split; [exact E2|].
  eapply pools_become_trans; [exact H1|]. eapply pools_become_ext; [|exact H2]. intros k' Hk'. cbn.
  destruct H1 as (_ & _ & _ & H1). rewrite H1 by done.
  destruct (decide (k' = k)) as [Hkk|Hkk], (decide (k' ∈ keys)) as [Hin|Hin], (decide (k' ∈ k :: keys)) as [Hin'|Hin'];
    rewrite elem_of_cons in Hin'; try (exfalso; tauto); subst; rewrite ?Hg; done.
Qed.

Lemma each_ZADD keys x L s :
  Forall is_pool keys → pool_shape s →
  ∃ s', each keys (λ k, ZADD k x L) s = (Ok tt, s') ∧
    pools_become (λ k, if decide (k ∈ keys) then <[L := x]> (zset_at k s) else zset_at k s) s s'.
Proof. apply (each_pool _ (insert L x)); [intros; by apply ZADD_pool|]. intros z. apply insert_insert_eq. Qed.

Lemma each_ZREM keys L s :
  Forall is_pool keys → pool_shape s →
  ∃ s', each keys (λ k, ZREM k L) s = (Ok tt, s') ∧
    pools_become (λ k, if decide (k ∈ keys) then delete L (zset_at k s) else zset_at k s) s s'.
Proof. apply (each_pool _ (delete L)); [intros; by apply ZREM_pool|]. intros z. apply delete_delete_eq. Qed.

(** Several members removed from one pool. *)
Lemma each_member k l s :
  is_pool k → pool_shape s →
  ∃ s', each l (ZREM k) s = (Ok tt, s') ∧
    pools_become (λ k', if decide (k' = k) then filter (λ p, p.1 ∉ l) (zset_at k s) else zset_at k' s) s s'.
Proof.
  intros Hk. revert s. induction l as [|m l IH]; intros s Hs; cbn [each].
  { exists s. split; [done|]. eapply pools_become_ext; [|by apply pools_become_refl]. intros k' _.
    case_decide; [subst|done]. symmetry. apply map_filter_id. intros i x _. apply not_elem_of_nil. }
  destruct (ZREM_pool s k m Hs Hk) as (s1 & E1 & H1). destruct (IH s1 (pools_become_shape _ _ _ H1)) as (s2 & E2 & H2).
  exists s2. rewrite (bind_ok _ _ _ _ _ E1). split; [exact E2|].
  eapply pools_become_trans; [exact H1|]. eapply pools_become_ext; [|exact H2]. intros k' Hk'. cbn.
  destruct H1 as (_ & _ & _ & H1). rewrite !H1 by done. case_decide as E; [|done]. subst. rewrite decide_True by done.
  rewrite map_filter_delete. apply map_eq. intros i. rewrite lookup_delete, !map_lookup_filter.
  destruct (zset_at k s !! i) as [x|]; cbn; [|by case_decide].
  repeat case_guard; cbn in *; case_decide; rewrite ?elem_of_cons in *; naive_solver.
Qed.

(** ** The acquire script's first loop *)

Lemma expired_members (z : gmap string Z) now :
  filter (λ p, p.1 ∉ (filter (λ p, p.2 <= now) (map_to_list z)).*1) z = filter (λ p, now < p.2) z.
Proof.
  apply map_filter_ext. intros m x Hx. cbn. rewrite list_elem_of_fmap. split.
  - intros Hn. apply Z.nle_gt. intros Hle. apply Hn. exists (m, x). split; [done|].
    apply list_elem_of_filter. by rewrite elem_of_map_to_list.
  - intros Hlt ([m' x'] & -> & [Hle Hin]%list_elem_of_filter). cbn in *. apply elem_of_map_to_list in Hin. simplify_eq. lia.
Qed.

Lemma purge_pool k s :
  is_pool k → pool_shape s →
  ∃ s', (expired ← ZRANGE_UPTO k (l_now s); each expired (ZREM k)) s = (Ok tt, s') ∧
    pools_become (λ k', if decide (k' = k) then holders k s else zset_at k' s) s s'.
Proof.
  intros Hk Hs. unfold ZRANGE_UPTO.
  destruct (each_member k (filter (λ p, p.2 <= l_now s) (map_to_list (zset_at k s))).*1 s Hk Hs) as (s' & E & H).
  exists s'. split.
  - erewrite bind_ok; [exact E|]. by rewrite (bind_ok _ _ _ _ _ (get_zset_pool s k Hs Hk)).
  - unfold holders. rewrite <- expired_members. exact H.
Qed.

(** Nothing but expired members is gone. *)
Definition purged (s : leases) (z : string → gmap string Z) : Prop :=
  ∀ k, is_pool k → z k = zset_at k s ∨ z k = holders k s.

Lemma holders_purged k s s' z :
  is_pool k → purged s z → pools_become z s s' → holders k s' = holders k s.
Proof.
  intros Hk Hp (Hn & _ & _ & Hz). unfold holders at 1. rewrite Hn, Hz by done.
  destruct (Hp k Hk) as [->| ->]; [done|]. unfold holders. rewrite map_filter_filter. apply map_filter_ext. naive_solver.
Qed.

Lemma find_full_ok keys capacities s :
  Forall is_pool keys → length capacities = length keys → pool_shape s →
  ∃ b s' z, find_full (l_now s) keys capacities s = (Ok b, s') ∧ pools_become z s s' ∧ purged s z ∧
    (b = false → ∀ i k c, keys !! i = Some k → capacities !! i = Some c → z k = holders k s ∧ Z.of_nat (size (holders k s)) < c).
Proof.
  intros Hkeys. revert capacities s. induction Hkeys as [|k keys Hk Hkeys IH]; intros [|c caps] s Hlen Hs; try done; cbn [find_full].
  { exists false, s, (λ k, zset_at k s). split_and!; [done|by apply pools_become_refl|by left|done]. }
  destruct (purge_pool k s Hk Hs) as (s1 & E1 & H1). pose proof H1 as (Hn1 & _ & Hs1 & Hz1).
  assert (purged s (λ k', if decide (k' = k) then holders k s else zset_at k' s)) as Hp1.
  { intros k' _. case_decide; [subst; by right|by left]. }
  assert (∀ A (m : list string → M leases unit) (f : M leases A) x, (ZRANGE_UPTO k (l_now s) ≫= λ l, m l ≫= λ _, f) x = ((ZRANGE_UPTO k (l_now s) ≫= m) ≫= λ _, f) x) as Hassoc.
  { intros A m f x. unfold mbind, M_bind. by destruct (ZRANGE_UPTO k (l_now s) x) as [[]]. }
  rewrite Hassoc, (bind_ok _ _ _ _ _ E1).
  assert (ZCARD k s1 = (Ok (Z.of_nat (size (holders k s))), s1)) as EZ.
  { unfold ZCARD. rewrite (bind_ok _ _ _ _ _ (get_zset_pool s1 k Hs1 Hk)), Hz1, decide_True by done. done. }
  rewrite (bind_ok _ _ _ _ _ EZ). destruct (Z.leb_spec c (Z.of_nat (size (holders k s)))) as [Hc|Hc].
  { exists true, s1. eexists. split_and!; [done|exact H1|exact Hp1|done]. }
  destruct (IH caps s1 ltac:(cbn in Hlen; lia) Hs1) as (b & s2 & z2 & E2 & H2 & Hp2 & Hb).
  rewrite Hn1 in E2. exists b, s2, z2. split_and!; [exact E2|by eapply pools_become_trans| |].
  - intros k' Hk'. destruct (Hp2 k' Hk') as [->| ->]; [rewrite Hz1 by done; by apply Hp1|].
    right. by eapply holders_purged.
  - intros -> [|i] k' c' Hi Hi'.
    + injection Hi as <-. injection Hi' as <-. split; [|done]. destruct (Hp2 k Hk) as [->| ->].
      * by rewrite Hz1, decide_True.
      * by eapply holders_purged.
    + change (keys !! i = Some k') in Hi. change (caps !! i = Some c') in Hi'.
      destruct (Hb eq_refl i k' c' Hi Hi') as [Hz Hlt].
      rewrite (holders_purged k' s s1 _ (Forall_lookup_1 _ _ _ _ Hkeys Hi) Hp1 H1) in Hz, Hlt. done.
Qed.

(** ** The hash of a lease *)

Definition with_hash (k : string) (h : gmap string hval) (e : option Z) (s : leases) : leases :=
  s <| l_keys ::= <[k := MkEntry (LHash h) e]> |>.

Lemma peek_with_hash k h e s : live (l_now s) (MkEntry (LHash h) e) = true → peek k (with_hash k h e s) = Some (MkEntry (LHash h) e).
Proof. intros Hl. unfold peek, with_hash. rsimpl. rewrite lookup_insert_eq. by rewrite Hl. Qed.

Lemma HSET_new k fs s : peek k s = None → HSET k fs s = (Ok tt, with_hash k (list_to_map fs) None s).
Proof.
  intros Hp. unfold HSET, get_hash, mbind, M_bind. rewrite Hp. unfold write, with_hash. by rewrite (right_id_L ∅ (∪)).
Qed.

Lemma HSET_more k fs h e s :
  live (l_now s) (MkEntry (LHash h) e) = true →
  HSET k fs (with_hash k h e s) = (Ok tt, with_hash k (list_to_map fs ∪ h) e s).
Proof.
  intros Hl. unfold HSET, get_hash, mbind, M_bind. rewrite peek_with_hash by done.
  unfold write, with_hash. rsimpl. by rewrite insert_insert_eq.
Qed.

Definition resource_fields (h : gmap string hval) (ps : list (nat * string)) : gmap string hval :=
  foldl (λ h p, list_to_map [(resource_field p.1, HStr p.2)] ∪ h) h ps.

Lemma each_HSET k ps h s :
  each ps (λ p, HSET k [(resource_field p.1, HStr p.2)]) (with_hash k h None s) = (Ok tt, with_hash k (resource_fields h ps) None s).
Proof.
  revert h. induction ps as [|p ps IH]; intros h; cbn [each]; [done|].
  rewrite (bind_ok _ _ _ _ _ (HSET_more k _ h None s eq_refl)). apply IH.
Qed.

Lemma resource_field_inj i j : resource_field i = resource_field j → i = j.
Proof. unfold resource_field. intros E. apply (inj (String.append "resource:")) in E. by apply (inj pretty) in E. Qed.

Lemma resource_fields_other f n keys h :
  (∀ i, (n <= i)%nat → f ≠ resource_field i) → resource_fields h (numbered n keys) !! f = h !! f.
Proof.
  revert n h. induction keys as [|k keys IH]; intros n h Hf; [done|]. cbn. unfold resource_fields in IH. rewrite IH by (intros; apply Hf; lia).
  rewrite insert_empty, lookup_union_r; [done|]. rewrite lookup_singleton_ne; [done|]. intros E. by apply (Hf n).
Qed.

Lemma resource_fields_lookup n keys h i k :
  keys !! i = Some k → resource_fields h (numbered n keys) !! resource_field (n + i) = Some (HStr k).
Proof.
  revert n h i. induction keys as [|k0 keys IH]; intros n h [|i] E; [done|done| |].
  - injection E as ->. cbn. rewrite Nat.add_0_r. fold (resource_fields (list_to_map [(resource_field n, HStr k)] ∪ h) (numbered (S n) keys)).
    rewrite resource_fields_other; [by rewrite lookup_union, lookup_insert_eq, union_Some_l|].
    intros j Hj ?%resource_field_inj. lia.
  - change (keys !! i = Some k) in E. rewrite Nat.add_succ_r. apply (IH (S n)). exact E.
Qed.

(** The hash the acquire script builds. *)
Definition lease_hash (L R : string) (expiry : Z) (keys : list string) : gmap string hval :=
  resource_fields (list_to_map [("resource_count", HNum (Z.of_nat (length keys)))] ∪
    list_to_map [("lease_id", HStr L); ("request_id", HStr R); ("expires_at", HNum expiry)]) (numbered 1 keys).

Lemma lease_hash_records L R expiry keys : records (lease_hash L R expiry keys) L R keys.
Proof.
  unfold lease_hash. split_and!; [rewrite resource_fields_other by (intros; discriminate); reflexivity..|].
  intros i k Hi. by apply (resource_fields_lookup 1).
Qed.

Lemma records_expiry h L R keys x : records h L R keys → records (list_to_map [("expires_at", HNum x)] ∪ h) L R keys.
Proof.
  intros (H1 & H2 & H3 & H4). split_and!; [..|intros i k Hi; specialize (H4 i k Hi)];
    rewrite lookup_union_r; try done; cbn; rewrite insert_empty; by apply lookup_singleton_ne.
Qed.

(** ** Preservation *)

(** A write or deletion outside the pools leaves their members alone. *)
Lemma zset_at_other k k' e s : is_pool k → k ≠ k' → zset_at k (s <| l_keys ::= <[k' := e]> |>) = zset_at k s.
Proof. intros Hk Hne. unfold zset_at. rsimpl. by rewrite lookup_insert_ne. Qed.
Lemma zset_at_delete k k' s : is_pool k → k ≠ k' → zset_at k (s <| l_keys ::= delete k' |>) = zset_at k s.
Proof. intros Hk Hne. unfold zset_at. rsimpl. by rewrite lookup_delete_ne. Qed.

Lemma leases_ok_delete s k' :
  leases_ok s → (∀ k, is_pool k → k ≠ k') → leases_ok (s <| l_keys ::= delete k' |>).
Proof.
  intros (Hp & Hm & Hr) Hk. split_and!.
  - intros k e Hpool E. rsimpl. apply lookup_delete_Some in E as [_ E]. eauto.
  - intros L e E. rsimpl. apply lookup_delete_Some in E as [_ E].
    destruct (Hm L e E) as (R & h & keys & w & -> & Hrec & Hkeys & Hz). exists R, h, keys, w. split_and!; [done..|].
    intros Hw. specialize (Hz Hw). rewrite Forall_forall in Hz, Hkeys |- *. intros k Hin. rewrite <- (Hz k Hin).
    f_equal. apply zset_at_delete; auto.
  - intros R e E. rsimpl. apply lookup_delete_Some in E as [_ E]. eauto.
Qed.

Lemma leases_ok_request s R v w :
  leases_ok s → leases_ok (s <| l_keys ::= <[routeLeaseRequestKey R := MkEntry (LStr v) (Some w)]> |>).
Proof.
  intros (Hp & Hm & Hr). split_and!.
  - intros k e Hpool E. rsimpl. rewrite lookup_insert_ne in E by (intros E'; by apply (pool_not_request k R)). eauto.
  - intros L e E. rsimpl. rewrite lookup_insert_ne in E by (intros E'; by apply (meta_not_request L R)).
    destruct (Hm L e E) as (R' & h & keys & w' & -> & Hrec & Hkeys & Hz). exists R', h, keys, w'. split_and!; [done..|].
    intros Hw. specialize (Hz Hw). rewrite Forall_forall in Hz, Hkeys |- *. intros k Hin. rewrite <- (Hz k Hin).
    f_equal. apply zset_at_other; [auto|]. apply pool_not_request. auto.
  - intros R' e E. rsimpl. apply lookup_insert_Some in E as [[_ <-]|[_ E]]; eauto.
Qed.

Lemma leases_ok_meta s L h R keys w :
  leases_ok s → records h L R keys → Forall is_pool keys → (l_now s < w → Forall (λ k, zset_at k s !! L = Some w) keys) →
  leases_ok (with_hash (routeLeaseMetaKey L) h (Some w) s).
Proof.
  intros (Hp & Hm & Hr) Hrec Hkeys Hz. unfold with_hash. split_and!.
  - intros k e Hpool E. rsimpl. rewrite lookup_insert_ne in E by (intros E'; by apply (pool_not_meta k L)). eauto.
  - intros L' e E. rsimpl. apply lookup_insert_Some in E as [[->%meta_inj <-]|[_ E]].
    + exists R, h, keys, w. split_and!; [done..|]. intros Hw. specialize (Hz Hw). rewrite Forall_forall in Hz, Hkeys |- *.
      intros k Hin. rewrite <- (Hz k Hin). f_equal. apply zset_at_other; [auto|]. apply pool_not_meta. auto.
    + destruct (Hm L' e E) as (R' & h' & keys' & w' & -> & Hrec' & Hkeys' & Hz'). exists R', h', keys', w'. split_and!; [done..|].
      intros Hw. specialize (Hz' Hw). rewrite Forall_forall in Hz', Hkeys' |- *. intros k Hin. rewrite <- (Hz' k Hin).
      f_equal. apply zset_at_other; [auto|]. apply pool_not_meta. auto.
  - intros R' e E. rsimpl. rewrite lookup_insert_ne in E by (intros E'; by apply (meta_not_request L R')). eauto.
Qed.

(** Pools change, and every lease that has not expired keeps its places. *)
Lemma leases_ok_pools s s' z :
  leases_ok s → pools_become z s s' →
  (∀ L h w k, l_keys s !! routeLeaseMetaKey L = Some (MkEntry (LHash h) (Some w)) → l_now s < w → is_pool k →
    zset_at k s !! L = Some w → z k !! L = Some w) →
  leases_ok s'.
Proof.
  intros (Hp & Hm & Hr) (Hn & Ho & Hshape & Hz) Hkeep. split_and!; [done| |].
  - intros L e E. rewrite Ho in E by (intros Hpool; by eapply pool_not_meta).
    destruct (Hm L e E) as (R & h & keys & w & -> & Hrec & Hkeys & Hmem). exists R, h, keys, w. split_and!; [done..|].
    rewrite Hn. intros Hw. specialize (Hmem Hw). rewrite Forall_forall in Hmem, Hkeys |- *. intros k Hin.
    rewrite Hz by auto. eapply Hkeep; eauto.
  - intros R e E. rewrite Ho in E by (intros Hpool; by eapply pool_not_request). eauto.
Qed.

Lemma leases_ok_purged s s' z : leases_ok s → pools_become z s s' → purged s z → leases_ok s'.
Proof.
  intros Hok Hb Hp. eapply leases_ok_pools; [done..|]. intros L h w k _ Hw Hk E.
  destruct (Hp k Hk) as [->| ->]; [done|]. apply map_lookup_filter_Some. by split.
Qed.

(** ** Ownership *)

Lemma resources_match_ok meta h e keys n s :
  peek meta s = Some (MkEntry (LHash h) e) →
  ∃ b, resources_match meta (numbered n keys) s = (Ok b, s) ∧
    (b = true → ∀ i k, keys !! i = Some k → h !! resource_field (n + i) = Some (HStr k)).
Proof.
  intros Hp. revert n. induction keys as [|k keys IH]; intros n; cbn [numbered resources_match].
  { exists true. split; [done|]. intros _ i k E. done. }
  assert (∀ f, HGET meta f s = (Ok (h !! f), s)) as HH.
  { intros f. unfold HGET, get_hash, mbind, M_bind. by rewrite Hp. }
  rewrite (bind_ok _ _ _ _ _ (HH _)). case_bool_decide as Ek; [|by exists false].
  destruct (IH (S n)) as (b & Eb & Hb). exists b. split; [exact Eb|]. intros -> [|i] k' Ei.
  - injection Ei as <-. by rewrite Nat.add_0_r.
  - change (keys !! i = Some k') in Ei. rewrite Nat.add_succ_r. by apply (Hb eq_refl).
Qed.

(** The keys a lease is released or renewed with are the recorded ones. *)
Lemma records_keys h L R keys keys' :
  records h L R keys' → h !! "resource_count" = Some (HNum (Z.of_nat (length keys))) →
  (∀ i k, keys !! i = Some k → h !! resource_field (1 + i) = Some (HStr k)) → keys' = keys.
Proof.
  intros (_ & _ & Hc & Hf) Hc' Hf'. assert (length keys' = length keys) as Hlen by (rewrite Hc in Hc'; injection Hc'; lia).
  apply list_eq. intros i. destruct (keys !! i) as [k|] eqn:E.
  - destruct (lookup_lt_is_Some_2 keys' i) as [k' E']; [rewrite Hlen; by eapply lookup_lt_Some|].
    rewrite E'. pose proof (Hf i k' E') as H1. pose proof (Hf' i k E) as H2. cbn in H2. congruence.
  - apply lookup_ge_None in E. apply lookup_ge_None. lia.
Qed.

Lemma owns_lease_ok keys L R s :
  leases_ok s →
  ∃ b, owns_lease keys (routeLeaseMetaKey L) (routeLeaseRequestKey R) L R s = (Ok b, s) ∧
    (b = true → ∃ h w w', l_keys s !! routeLeaseMetaKey L = Some (MkEntry (LHash h) (Some w)) ∧ l_now s <= w ∧ records h L R keys ∧
       Forall is_pool keys ∧ (l_now s < w → Forall (λ k, zset_at k s !! L = Some w) keys) ∧
       l_keys s !! routeLeaseRequestKey R = Some (MkEntry (LStr L) (Some w')) ∧ l_now s <= w').
Proof.
  intros (Hp & Hm & Hr). unfold owns_lease. set (meta := routeLeaseMetaKey L).
  destruct (peek meta s) as [e|] eqn:Epeek.
  2:{ exists false. split; [|done]. assert (HGET meta "lease_id" s = (Ok None, s)) as EH.
      { unfold HGET, get_hash, mbind, M_bind. by rewrite Epeek. }
      by rewrite (bind_ok _ _ _ _ _ EH). }
  assert (l_keys s !! meta = Some e ∧ live (l_now s) e = true) as [Emeta Elive].
  { unfold peek in Epeek. destruct (l_keys s !! meta) as [e'|]; [|done]. destruct (live (l_now s) e') eqn:El; [|done]. by simplify_eq. }
  destruct (Hm L e Emeta) as (R' & h & keys' & w & -> & Hrec & Hkeys & Hz).
  assert (∀ f, HGET meta f s = (Ok (h !! f), s)) as HH.
  { intros f. unfold HGET, get_hash, mbind, M_bind. by rewrite Epeek. }
  rewrite (bind_ok _ _ _ _ _ (HH _)). case_bool_decide as E1; [|by exists false]. cbn [negb].
  rewrite (bind_ok _ _ _ _ _ (HH _)). case_bool_decide as E2; [|by exists false]. cbn [negb].
  destruct Hrec as (_ & ER & Hrec'). rewrite E2 in ER. injection ER as ->.
  assert (∃ v, GET (routeLeaseRequestKey R') s = (Ok v, s) ∧ (v = Some L → ∃ w', l_keys s !! routeLeaseRequestKey R' = Some (MkEntry (LStr L) (Some w')) ∧ l_now s <= w')) as (v & EG & Hv).
  { unfold GET, peek. destruct (l_keys s !! routeLeaseRequestKey R') as [e|] eqn:Er; [|by exists None].
    destruct (Hr R' e Er) as (v & w' & ->). cbn. destruct (Z.leb_spec (l_now s) w'); [|by exists None].
    exists (Some v). split; [done|]. intros [= ->]. eauto. }
  rewrite (bind_ok _ _ _ _ _ EG). case_bool_decide as E3; [|by exists false]. cbn [negb]. destruct (Hv E3) as (w' & Er & Hw').
  rewrite (bind_ok _ _ _ _ _ (HH _)). case_bool_decide as E4; [|by exists false]. cbn [negb].
  destruct (resources_match_ok meta h (Some w) keys 1 s Epeek) as (b & Eb & Hb). exists b. split; [exact Eb|]. intros ->.
  pose proof (proj1 Hrec') as Hc.
  rewrite Hc in E4. cbn in E4.
  assert (keys' = keys) as ->. { eapply records_keys; [split; [exact E1|split; [exact E2|exact Hrec']]| |by apply Hb]. by rewrite Hc, E4. }
  cbn in Elive. exists h, w, w'. split_and!; try done; lia.
Qed.

(** ** What the acquire script does *)

Section acquire.
Context (keys : list string) (capacities : list Z) (L R : string) (ttl : Z).
Abbreviation meta := (routeLeaseMetaKey L).
Abbreviation request := (routeLeaseRequestKey R).

Inductive acquired (s : leases) : res Z → leases → Prop :=
  | acquired_conflict : acquired s (Ok 0) s
  | acquired_full z s1 : pools_become z s s1 → purged s z → acquired s (Ok (-1)) s1
  | acquired_done z s1 r s' :
      peek meta s = None → peek request s = None → purged s z →
      (∀ i k c, keys !! i = Some k → capacities !! i = Some c → z k = holders k s ∧ Z.of_nat (size (holders k s)) < c) →
      pools_become (λ k, if decide (k ∈ keys) then <[L := l_now s + ttl]> (z k) else z k) s s1 →
      (if ttl <=? 0 then is_ok r = false ∧ s' = s1 <| l_keys ::= delete meta |>
       else r = Ok 1 ∧ s' = with_hash meta (lease_hash L R (l_now s + ttl) keys) (Some (l_now s + ttl)) s1
                           <| l_keys ::= <[request := MkEntry (LStr L) (Some (l_now s + ttl))]> |>) →
      acquired s r s'.

Lemma EXISTS_peek k s : EXISTS k s = (Ok (bool_decide (is_Some (peek k s))), s).
Proof using Type. done. Qed.

(** The hash and the request key, written when neither existed. *)
Lemma write_lease s1 :
  peek meta s1 = None → ∃ r s',
  (_ ← HSET meta [("lease_id", HStr L); ("request_id", HStr R); ("expires_at", HNum (l_now s1 + ttl))];
   _ ← HSET meta [("resource_count", HNum (Z.of_nat (length keys)))];
   _ ← each (numbered 1 keys) (λ p, HSET meta [(resource_field p.1, HStr p.2)]);
   _ ← PEXPIRE meta ttl;
   _ ← SET_PX request L ttl;
   mret 1) s1 = (r, s') ∧
  (if ttl <=? 0 then is_ok r = false ∧ s' = s1 <| l_keys ::= delete meta |>
   else r = Ok 1 ∧ s' = with_hash meta (lease_hash L R (l_now s1 + ttl) keys) (Some (l_now s1 + ttl)) s1
                       <| l_keys ::= <[request := MkEntry (LStr L) (Some (l_now s1 + ttl))]> |>).
Proof using Type.
  intros Hm. rewrite (bind_ok _ _ _ _ _ (HSET_new _ _ _ Hm)), (bind_ok _ _ _ _ _ (HSET_more _ _ _ None s1 eq_refl)).
  rewrite (bind_ok _ _ _ _ _ (each_HSET _ _ _ _)). fold (lease_hash L R (l_now s1 + ttl) keys).
  unfold PEXPIRE, SET_PX, mbind, M_bind. rewrite peek_with_hash by done.
  destruct (ttl <=? 0); cbn [DEL write fst snd mret M_ret].
  - do 2 eexists. split; [done|]. split; [done|]. unfold with_hash. rsimpl. by rewrite delete_insert_eq.
  - do 2 eexists. split; [done|]. split; [done|]. unfold with_hash. rsimpl. by rewrite insert_insert_eq.
Qed.

Lemma acquire_script_outcome s :
  pool_shape s → Forall is_pool keys → length capacities = length keys →
  ∃ r s', routeLeaseAcquireScript keys meta request capacities L R ttl s = (r, s') ∧ acquired s r s'.
Proof using Type.
  intros Hs Hkeys Hlen. unfold routeLeaseAcquireScript.
  rewrite (bind_ok _ _ _ _ _ (eq_refl : gets l_now s = (Ok (l_now s), s))).
  rewrite (bind_ok _ _ _ _ _ (EXISTS_peek meta s)), (bind_ok _ _ _ _ _ (EXISTS_peek request s)).
  destruct (bool_decide (is_Some (peek meta s)) || bool_decide (is_Some (peek request s))) eqn:Ex.
  { do 2 eexists. split; [done|constructor]. }
  apply orb_false_iff in Ex as [Em%bool_decide_eq_false Er%bool_decide_eq_false].
  apply eq_None_not_Some in Em, Er.
  destruct (find_full_ok keys capacities s Hkeys Hlen Hs) as (b & s1 & z & E1 & H1 & Hp & Hb).
  rewrite (bind_ok _ _ _ _ _ E1). destruct b. { do 2 eexists. split; [done|by econstructor]. }
  destruct (each_ZADD keys (l_now s + ttl) L s1 Hkeys (pools_become_shape _ _ _ H1)) as (s2 & E2 & H2).
  rewrite (bind_ok _ _ _ _ _ E2).
  pose proof (pools_become_trans _ _ _ _ _ H1 H2) as H12.
  assert (peek meta s2 = None) as Em2.
  { unfold peek in *. destruct H12 as (-> & -> & _); [done|]. intros Hk. by eapply pool_not_meta. }
  destruct (write_lease s2 Em2) as (r & s' & E3 & H3). destruct H12 as (Hn & H12). rewrite Hn in E3, H3.
  exists r, s'. split; [exact E3|]. apply (acquired_done s z s2 r s'); [done|done|done|by apply Hb| |done].
  eapply pools_become_ext; [|split; [exact Hn|exact H12]]. intros k Hk. destruct H1 as (_ & _ & _ & H1). by rewrite H1.
Qed.

Lemma acquired_ok s r s' :
  leases_ok s → Forall is_pool keys → acquired s r s' → leases_ok s'.
Proof using Type.
  intros Hok Hkeys [|z s1 Hb Hp|z s1 r' s'' Em Er Hp Hcap Hb Hend]; [done|by eapply leases_ok_purged|].
  assert (leases_ok s1) as Hok1.
  { eapply leases_ok_pools; [exact Hok|exact Hb|]. intros L' h w k E Hw Hk Hz.
    assert (z k !! L' = Some w) as Hz'.
    { destruct (Hp k Hk) as [->| ->]; [done|]. apply map_lookup_filter_Some. by split. }
    cbv beta. case_decide; [|done]. rewrite lookup_insert_ne; [done|]. intros <-. unfold peek in Em. rewrite E in Em. cbn in Em.
    destruct (Z.leb_spec (l_now s) w); [done|lia]. }
  destruct (ttl <=? 0).
  - destruct Hend as [_ ->]. apply leases_ok_delete; [done|]. intros k Hk. by apply pool_not_meta.
  - destruct Hend as [_ ->]. apply leases_ok_request. eapply leases_ok_meta; [done|apply lease_hash_records|done|].
    intros _. rewrite Forall_forall in Hkeys |- *. intros k Hin. destruct Hb as (_ & _ & _ & ->); [|auto].
    rewrite decide_True by done. apply lookup_insert_eq.
Qed.

(** The members of the pools at the end, and the clock. *)
Lemma acquired_pools s r s' :
  acquired s r s' → l_now s' = l_now s ∧ ∃ z, purged s z ∧ ∀ k, is_pool k →
    zset_at k s' = z k ∨
    (k ∈ keys ∧ zset_at k s' = <[L := l_now s + ttl]> (z k) ∧
     ∀ i c, keys !! i = Some k → capacities !! i = Some c → z k = holders k s ∧ Z.of_nat (size (holders k s)) < c).
Proof using Type.
  intros [|z s1 Hb Hp|z s1 r' s'' Em Er Hp Hcap Hb Hend].
  - split; [done|]. exists (λ k, zset_at k s). split; [by left|]. by left.
  - destruct Hb as (Hn & _ & _ & Hz). split; [done|]. exists z. split; [done|]. auto.
  - assert (l_now s'' = l_now s1 ∧ ∀ k, is_pool k → zset_at k s'' = zset_at k s1) as [Hn Hsame].
    { destruct (ttl <=? 0); destruct Hend as [_ ->]; (split; [done|]); intros k Hk.
      - apply zset_at_delete; [done|by apply pool_not_meta].
      - rewrite zset_at_other by (done || by apply pool_not_request). apply zset_at_other; [done|by apply pool_not_meta]. }
    destruct Hb as (Hn1 & _ & _ & Hz). split; [congruence|]. exists z. split; [done|]. intros k Hk. rewrite Hsame, Hz by done.
    case_decide; [right|by left]. split_and!; [done|done|]. eauto.
Qed.
End acquire.

(** A pool that is over no capacity before is over none after. *)
Definition within (cap : string → Z) (s : leases) : Prop := ∀ k, is_pool k → Z.of_nat (size (holders k s)) <= cap k.

Lemma holders_filter_le (z : gmap string Z) (P : string * Z → Prop) `{∀ x, Decision (P x)} : (size (filter P z) <= size z)%nat.
Proof. apply map_subseteq_size, map_filter_subseteq. Qed.

Lemma size_insert_le (z : gmap string Z) m x : (size (<[m := x]> z) <= S (size z))%nat.
Proof. rewrite map_size_insert. case_match; unfold id; lia. Qed.

Lemma acquired_within cap keys capacities L R ttl s r s' :
  within cap s → length capacities = length keys →
  (∀ i k c, keys !! i = Some k → capacities !! i = Some c → c <= cap k) →
  acquired keys capacities L R ttl s r s' → within cap s'.
Proof.
  intros Hw Hlen Hc Ha k Hk. destruct (acquired_pools keys capacities L R ttl s r s' Ha) as (Hn & z & Hp & Hz).
  unfold holders. rewrite Hn. destruct (Hz k Hk) as [->|(Hin & -> & Hcap)].
  - etrans; [|apply Hw, Hk]. apply Nat2Z.inj_le. destruct (Hp k Hk) as [->| ->]; [done|]. apply holders_filter_le.
  - apply list_elem_of_lookup in Hin as [i Hi]. destruct (lookup_lt_is_Some_2 capacities i) as [c Hic].
    { rewrite Hlen. by eapply lookup_lt_Some. }
    destruct (Hcap i c Hi Hic) as [-> Hlt]. pose proof (Hc i k c Hi Hic).
    pose proof (holders_filter_le (<[L := l_now s + ttl]> (holders k s)) (λ p, l_now s < p.2)).
    pose proof (size_insert_le (holders k s) L (l_now s + ttl)). lia.
Qed.

(** ** What the other two scripts do *)

(** The keys of a lease, left out. *)
Definition forget (L R : string) (s : leases) : leases :=
  s <| l_keys ::= delete (routeLeaseMetaKey L) |> <| l_keys ::= delete (routeLeaseRequestKey R) |>.

Lemma forget_ok L R s : leases_ok s → leases_ok (forget L R s).
Proof.
  intros Hok. apply leases_ok_delete; [apply leases_ok_delete; [done|]|]; intros k Hk; [by apply pool_not_meta|by apply pool_not_request].
Qed.

Lemma zset_at_forget L R s k : is_pool k → zset_at k (forget L R s) = zset_at k s.
Proof.
  intros Hk. unfold forget. rewrite zset_at_delete by (done || by apply pool_not_request).
  apply zset_at_delete; [done|by apply pool_not_meta].
Qed.

(** Pools that change together with the keys of [L] and [R]. *)
Lemma forget_pools L R z s s' :
  l_now s' = l_now s → pool_shape s' → (∀ k, is_pool k → zset_at k s' = z k) →
  (∀ k, ¬ is_pool k → k ≠ routeLeaseMetaKey L → k ≠ routeLeaseRequestKey R → l_keys s' !! k = l_keys s !! k) →
  pools_become z (forget L R s) (forget L R s').
Proof.
  intros Hn Hs Hz Ho. split_and!; [done| | |].
  - intros k Hk. unfold forget. rsimpl. rewrite !lookup_delete. repeat case_decide; auto.
  - intros k e Hk E. unfold forget in E. rsimpl. rewrite !lookup_delete in E. repeat case_decide; try done. eauto.
  - intros k Hk. rewrite zset_at_forget by done. auto.
Qed.

(** The leases other than [L] are not affected by changes of [L]'s places. *)
Lemma forget_leases_ok L R z s s' :
  leases_ok s → pools_become z (forget L R s) (forget L R s') →
  (∀ k L', is_pool k → L' ≠ L → z k !! L' = zset_at k s !! L') → leases_ok (forget L R s').
Proof.
  intros Hok Hb Hz. eapply leases_ok_pools; [by apply forget_ok|exact Hb|].
  intros L' h w k E _ Hk Hm. rewrite zset_at_forget in Hm by done. rewrite Hz; [done|done|].
  intros ->. unfold forget in E. rsimpl. rewrite !lookup_delete in E. repeat case_decide; done.
Qed.

Lemma release_outcome keys L R s :
  leases_ok s → ∃ n s', routeLeaseReleaseScript keys (routeLeaseMetaKey L) (routeLeaseRequestKey R) L R s = (Ok n, s') ∧
    leases_ok s' ∧ l_now s' = l_now s ∧
    ((n = 0 ∧ s' = s ∧ result (owns_lease keys (routeLeaseMetaKey L) (routeLeaseRequestKey R) L R) s = Ok false) ∨
     (n = 1 ∧ Forall is_pool keys ∧ l_keys s' !! routeLeaseMetaKey L = None ∧ l_keys s' !! routeLeaseRequestKey R = None ∧
      ∀ k, is_pool k → zset_at k s' = if decide (k ∈ keys) then delete L (zset_at k s) else zset_at k s)).
Proof.
  intros Hok. unfold routeLeaseReleaseScript. destruct (owns_lease_ok keys L R s Hok) as (b & Eb & Hb).
  rewrite (bind_ok _ _ _ _ _ Eb). destruct b; cbn [negb]; [|exists 0, s; split_and!; try done; left; unfold result; by rewrite Eb].
  destruct (Hb eq_refl) as (h & w & w' & Em & Hw & Hrec & Hkeys & Hz & Er & Hw').
  destruct (each_ZREM keys L s Hkeys (proj1 Hok)) as (s1 & E1 & (Hn & Ho & Hs1 & Hz1)).
  rewrite (bind_ok _ _ _ _ _ E1). exists 1, (forget L R s1). split; [done|]. split_and!; [|done|right].
  - eapply (forget_leases_ok L R _ s s1 Hok); [apply (forget_pools L R _ s s1 Hn Hs1 Hz1); auto|].
    intros k L' Hk Hne. cbv beta. case_decide; [by rewrite lookup_delete_ne|done].
  - split_and!; [done|done| | |].
    + unfold forget. rsimpl. rewrite lookup_delete_ne by done. apply lookup_delete_eq.
    + unfold forget. rsimpl. apply lookup_delete_eq.
    + intros k Hk. rewrite zset_at_forget by done. auto.
Qed.

(** The keys of a lease with a new deadline. *)
Definition relet (L R : string) (h : gmap string hval) (x : Z) (s : leases) : leases :=
  with_hash (routeLeaseMetaKey L) h (Some x) s <| l_keys ::= <[routeLeaseRequestKey R := MkEntry (LStr L) (Some x)]> |>.

Lemma renew_keys L R ttl h w w' s :
  l_keys s !! routeLeaseMetaKey L = Some (MkEntry (LHash h) (Some w)) → l_now s <= w →
  l_keys s !! routeLeaseRequestKey R = Some (MkEntry (LStr L) (Some w')) → l_now s <= w' →
  ∃ s1, (_ ← HSET (routeLeaseMetaKey L) [("expires_at", HNum (l_now s + ttl))];
         _ ← PEXPIRE (routeLeaseMetaKey L) ttl; PEXPIRE (routeLeaseRequestKey R) ttl) s = (Ok tt, s1) ∧
    s1 = if ttl <=? 0 then forget L R s
         else relet L R (list_to_map [("expires_at", HNum (l_now s + ttl))] ∪ h) (l_now s + ttl) s.
Proof.
  intros Em Hw Er Hw'. assert (s = with_hash (routeLeaseMetaKey L) h (Some w) s) as Es.
  { destruct s as [m now]. unfold with_hash. rsimpl. by rewrite insert_id. }
  assert (∀ e, live (l_now s) (MkEntry e (Some w)) = true) as Hl by (intros; cbn; lia).
  eexists. split; [|reflexivity]. rewrite Es at 2. rewrite (bind_ok _ _ _ _ _ (HSET_more _ _ _ _ _ (Hl _))).
  unfold PEXPIRE, mbind, M_bind. rewrite peek_with_hash by apply Hl. destruct (ttl <=? 0) eqn:Et.
  - cbn [DEL]. unfold with_hash, peek, forget. rsimpl. rewrite delete_insert_eq, lookup_delete_ne, Er by done.
    unfold live. cbn. by rewrite (proj2 (Z.leb_le _ _) Hw').
  - cbn [write]. unfold with_hash, peek, relet, with_hash. rsimpl. rewrite insert_insert_eq, lookup_insert_ne, Er by done.
    unfold live. cbn. by rewrite (proj2 (Z.leb_le _ _) Hw').
Qed.

(** The state the keys are in when the pools are written. *)
Lemma renewed_keys L R h ttl s s1 :
  s1 = (if ttl <=? 0 then forget L R s else relet L R h (l_now s + ttl) s) →
  l_now s1 = l_now s ∧ (∀ k, k ≠ routeLeaseMetaKey L → k ≠ routeLeaseRequestKey R → l_keys s1 !! k = l_keys s !! k) ∧
  l_keys s1 !! routeLeaseMetaKey L = (if ttl <=? 0 then None else Some (MkEntry (LHash h) (Some (l_now s + ttl)))) ∧
  l_keys s1 !! routeLeaseRequestKey R = (if ttl <=? 0 then None else Some (MkEntry (LStr L) (Some (l_now s + ttl)))).
Proof.
  intros ->. destruct (ttl <=? 0); [unfold forget|unfold relet, with_hash]; rsimpl; split_and!; try done.
  - intros k Hm Hr. by rewrite !lookup_delete_ne.
  - rewrite lookup_delete_ne by done. apply lookup_delete_eq.
  - apply lookup_delete_eq.
  - intros k Hm Hr. by rewrite !lookup_insert_ne.
  - rewrite lookup_insert_ne by done. apply lookup_insert_eq.
  - apply lookup_insert_eq.
Qed.

Lemma relet_forget L R h x s :
  l_keys s !! routeLeaseMetaKey L = Some (MkEntry (LHash h) (Some x)) →
  l_keys s !! routeLeaseRequestKey R = Some (MkEntry (LStr L) (Some x)) → s = relet L R h x (forget L R s).
Proof.
  intros Em Er. destruct s as [m now]. unfold relet, with_hash, forget. rsimpl. f_equal. apply map_eq. intros k.
  rewrite !lookup_insert, !lookup_delete. repeat case_decide; subst; congruence.
Qed.

Lemma forget_absent L R s :
  l_keys s !! routeLeaseMetaKey L = None → l_keys s !! routeLeaseRequestKey R = None → forget L R s = s.
Proof. intros Em Er. destruct s as [m now]. unfold forget. rsimpl. f_equal. rewrite (delete_id _ _ Em). by apply delete_id. Qed.

Lemma renew_outcome keys L R ttl s :
  leases_ok s → ∃ n s', routeLeaseRenewScript keys (routeLeaseMetaKey L) (routeLeaseRequestKey R) L R ttl s = (Ok n, s') ∧
    leases_ok s' ∧ l_now s' = l_now s ∧
    ((n = 0 ∧ s' = s) ∨
     (n = 1 ∧ (∃ h w, l_keys s !! routeLeaseMetaKey L = Some (MkEntry (LHash h) (Some w)) ∧ l_now s <= w ∧
                      (l_now s < w → Forall (λ k, zset_at k s !! L = Some w) keys)) ∧
      ∀ k, is_pool k → zset_at k s' = if decide (k ∈ keys) then <[L := l_now s + ttl]> (zset_at k s) else zset_at k s)).
Proof.
  intros Hok. unfold routeLeaseRenewScript. destruct (owns_lease_ok keys L R s Hok) as (b & Eb & Hb).
  rewrite (bind_ok _ _ _ _ _ Eb). destruct b; cbn [negb]; [|do 2 eexists; split_and!; eauto].
  destruct (Hb eq_refl) as (h & w & w' & Em & Hw & Hrec & Hkeys & Hz & Er & Hw').
  rewrite (bind_ok _ _ _ _ _ (eq_refl : gets l_now s = (Ok (l_now s), s))).
  destruct (renew_keys L R ttl h w w' s Em Hw Er Hw') as (s1 & E1 & Hs1).
  set (h' := list_to_map [("expires_at", HNum (l_now s + ttl))] ∪ h) in *.
  destruct (renewed_keys L R h' ttl s s1 Hs1) as (Hn1 & Ho1 & Em1 & Er1). clear Hs1.
  assert (∀ k, is_pool k → l_keys s1 !! k = l_keys s !! k) as Hp1.
  { intros k Hk. apply Ho1; [by apply pool_not_meta|by apply pool_not_request]. }
  assert (pool_shape s1) as Hsh1. { intros k e Hk E. rewrite Hp1 in E by done. by eapply (proj1 Hok). }
  destruct (each_ZADD keys (l_now s + ttl) L s1 Hkeys Hsh1) as (s2 & E2 & (Hn2 & Ho2 & Hs2 & Hz2)).
  assert (∀ k, is_pool k → zset_at k s2 = if decide (k ∈ keys) then <[L := l_now s + ttl]> (zset_at k s) else zset_at k s) as Hz2'.
  { intros k Hk. rewrite Hz2 by done. unfold zset_at. by rewrite Hp1. }
  exists 1, s2. split; [|split_and!; [|congruence|right; split_and!; [done|eauto 6|done]]].
  - unfold mbind, M_bind in E1 |- *. destruct (HSET _ _ s) as [[] t1]; [|done]. destruct (PEXPIRE _ ttl t1) as [[] t2]; [|done].
    rewrite E1. by rewrite E2.
  - rewrite <- (Ho2 (routeLeaseMetaKey L)) in Em1 by (intros Hk; by eapply pool_not_meta).
    rewrite <- (Ho2 (routeLeaseRequestKey R)) in Er1 by (intros Hk; by eapply pool_not_request).
    assert (leases_ok (forget L R s2)) as Hf.
    { eapply (forget_leases_ok L R _ s s2 Hok).
      - apply (forget_pools L R _ s s2); [congruence|done|exact Hz2'|]. intros k Hk Hm Hr. rewrite Ho2 by done. auto.
      - intros k L' Hk Hne. cbv beta. case_decide; [by rewrite lookup_insert_ne|done]. }
    destruct (ttl <=? 0); [by rewrite <- (forget_absent L R s2)|]. rewrite (relet_forget L R h' _ s2 Em1 Er1).
    apply leases_ok_request. eapply leases_ok_meta; [done|by apply records_expiry|done|]. intros _.
    rewrite Forall_forall in Hkeys |- *. intros k Hin. rewrite zset_at_forget, Hz2', decide_True by auto. apply lookup_insert_eq.
Qed.

(** ** Sequences of calls *)

(** No caller passes more than [cap] as the capacity of a pool; it may change
    between calls, as it is read from the channel at every acquisition. *)
Definition serves (cap : string → Z) (op : lease_op) : Prop :=
  match op with
  | OpAcquire _ _ _ _ resources => Forall (λ r, is_pool (rr_Key r) ∧ rr_Capacity r <= cap (rr_Key r)) resources
  | _ => True
  end.

(** A lease is not renewed in the very millisecond it expires. *)
Definition prompt (op : lease_op) (s : leases) : bool :=
  match op with
  | OpRenew _ lease _ =>
      match l_keys s !! routeLeaseMetaKey (rl_LeaseID lease) with
      | Some e => negb (bool_decide (e_expire e = Some (l_now s)))
      | None => true
      end
  | _ => true
  end.
Fixpoint prompt_run (ops : list lease_op) (s : leases) : bool :=
  match ops with [] => true | op :: ops => prompt op s && prompt_run ops (lease_step op s) end.

Lemma exec_run_script {A} (m : M leases Z) (k : Z → M leases A) s :
  (∀ n s, exec (k n) s = s) → exec (run_script m ≫= k) s = exec m s.
Proof.
  intros Hk. unfold run_script, exec, mbind, M_bind, try. destruct (m s) as [[n|e] s']; [|done]. exact (Hk n s').
Qed.

Lemma acquire_step now R L ttl resources s :
  exec (AcquireRouteLease now R L ttl resources) s = s ∨
  exec (AcquireRouteLease now R L ttl resources) s =
    exec (routeLeaseAcquireScript (rr_Key <$> resources) (routeLeaseMetaKey L) (routeLeaseRequestKey R) (rr_Capacity <$> resources) L R (Milliseconds ttl)) s.
Proof.
  unfold AcquireRouteLease. destruct (_ || _); [by left|]. destruct (negb _); [by left|]. right. apply exec_run_script.
  intros n s1. destruct (n =? 0); [done|]. by destruct (n =? -1).
Qed.

Lemma acquire_ok cap now R L ttl resources s :
  Forall (λ r, is_pool (rr_Key r) ∧ rr_Capacity r <= cap (rr_Key r)) resources → leases_ok s → within cap s →
  leases_ok (exec (AcquireRouteLease now R L ttl resources) s) ∧ within cap (exec (AcquireRouteLease now R L ttl resources) s).
Proof.
  intros Hres Hok Hw. destruct (acquire_step now R L ttl resources s) as [->| ->]; [done|].
  assert (Forall is_pool (rr_Key <$> resources)) as Hkeys. { rewrite Forall_fmap. eapply Forall_impl; [exact Hres|]. by intros r []. }
  destruct (acquire_script_outcome (rr_Key <$> resources) (rr_Capacity <$> resources) L R (Milliseconds ttl) s (proj1 Hok) Hkeys)
    as (r & s' & E & Ha); [by rewrite !length_fmap|]. unfold exec. rewrite E. split; [by eapply acquired_ok|].
  refine (acquired_within _ _ _ _ _ _ _ _ _ Hw _ _ Ha); [by rewrite !length_fmap|].
  intros i k c Hk Hc. apply list_lookup_fmap_Some in Hk as (r1 & -> & E1). apply list_lookup_fmap_Some in Hc as (r2 & -> & E2).
  rewrite E1 in E2. injection E2 as <-. by destruct (Forall_lookup_1 _ _ _ _ Hres E1).
Qed.

(** Members replaced by a subset of them, at the same instant. *)
Lemma within_subset cap s s' :
  within cap s → l_now s' = l_now s → (∀ k, is_pool k → zset_at k s' ⊆ zset_at k s) → within cap s'.
Proof.
  intros Hw Hn Hz k Hk. etrans; [|apply Hw, Hk]. apply Nat2Z.inj_le, map_subseteq_size. unfold holders. rewrite Hn.
  by apply map_filter_subseteq_mono, Hz.
Qed.

Lemma release_ok cap lease s :
  leases_ok s → within cap s → leases_ok (exec (ReleaseRouteLease lease) s) ∧ within cap (exec (ReleaseRouteLease lease) s).
Proof.
  intros Hok Hw. unfold ReleaseRouteLease. destruct (_ || _); [done|].
  rewrite exec_run_script by (intros n s1; by destruct (n =? 0)). unfold exec.
  destruct (release_outcome (rr_Key <$> rl_Resources lease) (rl_LeaseID lease) (rl_RequestID lease) s Hok) as (n & s' & -> & Hok' & Hn & Hd).
  split; [done|]. destruct Hd as [(_ & -> & _)|(_ & _ & _ & _ & Hz)]; [done|]. eapply within_subset; [done..|].
  intros k Hk. cbn [snd]. rewrite Hz by done. case_decide; [apply delete_subseteq|done].
Qed.

Lemma renew_ok cap now lease ttl s :
  prompt (OpRenew now lease ttl) s = true → leases_ok s → within cap s →
  leases_ok (exec (RenewRouteLease now lease ttl) s) ∧ within cap (exec (RenewRouteLease now lease ttl) s).
Proof.
  intros Hp Hok Hw. unfold RenewRouteLease. destruct (_ || _); [done|].
  rewrite exec_run_script by (intros n s1; by destruct (n =? 0)). unfold exec.
  destruct (renew_outcome (rr_Key <$> rl_Resources lease) (rl_LeaseID lease) (rl_RequestID lease) (Milliseconds ttl) s Hok)
    as (n & s' & -> & Hok' & Hn & Hd).
  split; [done|]. destruct Hd as [(_ & ->)|(_ & (h & w & Em & Hw1 & Hmem) & Hz)]; [done|]. cbn [snd].
  cbn in Hp. rewrite Em in Hp. cbn in Hp. apply negb_true_iff, bool_decide_eq_false in Hp.
  assert (l_now s < w) as Hlt. { destruct (decide (w = l_now s)) as [->|]; [done|lia]. }
  specialize (Hmem Hlt). intros k Hk. unfold holders. rewrite Hn, Hz by done. case_decide as Hin; [|apply Hw, Hk].
  rewrite Forall_forall in Hmem. specialize (Hmem k Hin). etrans; [|apply Hw, Hk]. apply Nat2Z.inj_le.
  transitivity (size (<[rl_LeaseID lease := l_now s + Milliseconds ttl]> (holders k s))).
  - apply map_subseteq_size, map_subseteq_spec. intros m x [Hx Hlt']%map_lookup_filter_Some.
    apply lookup_insert_Some in Hx as [[-> ->]|[Hne Hx]]; [apply lookup_insert_eq|].
    rewrite lookup_insert_ne by done. by apply map_lookup_filter_Some.
  - rewrite map_size_insert_Some; [done|]. exists w. apply map_lookup_filter_Some. by split.
Qed.

Lemma tick_ok cap ms s : leases_ok s → within cap s → leases_ok (lease_step (OpTick ms) s) ∧ within cap (lease_step (OpTick ms) s).
Proof.
  intros (Hp & Hm & Hr) Hw. cbn. split; [split_and!; [done| |done]|].
  - intros L e E. destruct (Hm L e E) as (R & h & keys & w & -> & Hrec & Hkeys & Hz). exists R, h, keys, w. split_and!; [done..|].
    rsimpl. intros Hlt. apply Hz. lia.
  - intros k Hk. etrans; [|apply Hw, Hk]. apply Nat2Z.inj_le, map_subseteq_size. unfold holders.
    change (zset_at k (s <| l_now ::= λ t, t + Z.of_N ms |>)) with (zset_at k s). rsimpl.
    apply map_subseteq_spec. intros m x [Hx Hlt]%map_lookup_filter_Some. apply map_lookup_filter_Some. split; [done|].
    cbn in *. lia.
Qed.

Lemma step_ok cap op s :
  serves cap op → prompt op s = true → leases_ok s → within cap s → leases_ok (lease_step op s) ∧ within cap (lease_step op s).
Proof.
  intros Hs Hp Hok Hw. destruct op as [now R L ttl resources|lease|now lease ttl|ms].
  - by apply acquire_ok.
  - by apply release_ok.
  - by apply renew_ok.
  - by apply tick_ok.
Qed.

(** C30: The requests that hold a place in a pool never exceed the largest
    capacity the pool was given, whatever the calls of all nodes to acquire,
    renew and release leases, of existing or made-up ids, and however much time
    passes in between, as long as no lease is renewed in the millisecond it
    expires. *)
Theorem pool_capacity_respected cap ops now0 k :
  (∀ k, is_pool k → 0 <= cap k) → Forall (serves cap) ops → prompt_run ops (MkLeases ∅ now0) = true → is_pool k →
  Z.of_nat (size (holders k (lease_run ops (MkLeases ∅ now0)))) <= cap k.
Proof.
  intros Hcap Hserves Hprompt Hk.
  assert (leases_ok (MkLeases ∅ now0)) as Hok. { split_and!; intros ? *; cbn; rewrite lookup_empty; done. }
  assert (within cap (MkLeases ∅ now0)) as Hw. { intros k' Hk'. exact (Hcap k' Hk'). }
  generalize dependent (MkLeases ∅ now0). induction Hserves as [|op ops Hop _ IH]; intros s Hp Hok Hw; [by apply Hw|].
  cbn in Hp. apply andb_true_iff in Hp as [Hp1 Hp2]. destruct (step_ok cap op s) as [Hok' Hw']; auto. by apply IH.
Qed.

(** ** Acquire and release *)

Lemma resources_match_true meta h e keys n s :
  peek meta s = Some (MkEntry (LHash h) e) → (∀ i k, keys !! i = Some k → h !! resource_field (n + i) = Some (HStr k)) →
  resources_match meta (numbered n keys) s = (Ok true, s).
Proof.
  intros Hp. revert n. induction keys as [|k keys IH]; intros n Hf; cbn [numbered resources_match]; [done|].
  assert (HGET meta (resource_field n) s = (Ok (Some (HStr k)), s)) as HH.
  { unfold HGET, get_hash, mbind, M_bind. rewrite Hp. specialize (Hf 0%nat k eq_refl). rewrite Nat.add_0_r in Hf. by rewrite <- Hf. }
  rewrite (bind_ok _ _ _ _ _ HH), bool_decide_eq_true_2 by done. apply IH. intros i k' Hi.
  rewrite Nat.add_succ_comm. by apply Hf.
Qed.

Lemma owns_lease_true keys meta request L R h e e' s :
  peek meta s = Some (MkEntry (LHash h) e) → records h L R keys → peek request s = Some (MkEntry (LStr L) e') →
  owns_lease keys meta request L R s = (Ok true, s).
Proof.
  intros Hm (H1 & H2 & H3 & H4) Hr. unfold owns_lease.
  assert (∀ f, HGET meta f s = (Ok (h !! f), s)) as HH.
  { intros f. unfold HGET, get_hash, mbind, M_bind. by rewrite Hm. }
  assert (GET request s = (Ok (Some L), s)) as HG. { unfold GET. by rewrite Hr. }
  rewrite !(bind_ok _ _ _ _ _ (HH _)), H1, bool_decide_eq_true_2 by done. cbn [negb].
  rewrite !(bind_ok _ _ _ _ _ (HH _)), H2, bool_decide_eq_true_2 by done. cbn [negb].
  rewrite (bind_ok _ _ _ _ _ HG), bool_decide_eq_true_2 by done. cbn [negb].
  rewrite !(bind_ok _ _ _ _ _ (HH _)), H3, bool_decide_eq_true_2 by done. cbn [negb].
  by eapply resources_match_true.
Qed.

(** A successful acquisition. *)
Lemma acquire_inv now R L ttl resources s lease s1 :
  AcquireRouteLease now R L ttl resources s = (Ok lease, s1) → leases_ok s → Forall (λ r, is_pool (rr_Key r)) resources →
  blank L = false ∧ blank R = false ∧ resources ≠ [] ∧ lease = MkLease L R 0 resources (now + ttl) ∧ leases_ok s1 ∧
  0 < Milliseconds ttl ∧ l_now s1 = l_now s ∧
  l_keys s1 !! routeLeaseMetaKey L = Some (MkEntry (LHash (lease_hash L R (l_now s + Milliseconds ttl) (rr_Key <$> resources))) (Some (l_now s + Milliseconds ttl))) ∧
  l_keys s1 !! routeLeaseRequestKey R = Some (MkEntry (LStr L) (Some (l_now s + Milliseconds ttl))) ∧
  ∃ z, purged s z ∧ ∀ k, is_pool k → zset_at k s1 = if decide (k ∈ rr_Key <$> resources) then <[L := l_now s + Milliseconds ttl]> (z k) else z k.
Proof.
  intros E Hok Hpools. unfold AcquireRouteLease in E.
  destruct (blank R || blank L || (ttl <=? 0) || bool_decide (resources = [])) eqn:Eg; [done|].
  apply orb_false_iff in Eg as [[[? ?]%orb_false_iff _]%orb_false_iff Hne%bool_decide_eq_false].
  destruct (negb _); [done|]. apply bind_inv in E as (n & s' & En & Ek).
  assert (Forall is_pool (rr_Key <$> resources)) as Hkeys by by rewrite Forall_fmap.
  destruct (acquire_script_outcome (rr_Key <$> resources) (rr_Capacity <$> resources) L R (Milliseconds ttl) s (proj1 Hok) Hkeys)
    as (r & s'' & Es & Ha); [by rewrite !length_fmap|].
  pose proof (acquired_ok _ _ _ _ _ _ _ _ Hok Hkeys Ha) as Hok1.
  unfold run_script, try, mbind, M_bind in En. rewrite Es in En. destruct r as [n'|e]; [|done]. injection En as <- <-.
  destruct (n' =? 0) eqn:E0; [done|]. destruct (n' =? -1) eqn:E1; [done|]. injection Ek as <- <-.
  inversion Ha as [|z s2 Hb Hp|z s2 r s3 Em Er Hp Hcap Hb Hend]; subst; [done|done|].
  destruct (Z.leb_spec (Milliseconds ttl) 0) as [|Hpos]; [by destruct Hend|]. destruct Hend as [_ ->].
  destruct Hb as (Hn & _ & _ & Hz). split_and!; [done..|exact Hn| | |].
  - unfold with_hash. rsimpl. rewrite lookup_insert_ne by done. apply lookup_insert_eq.
  - unfold with_hash. rsimpl. apply lookup_insert_eq.
  - exists z. split; [done|]. intros k Hk. rewrite zset_at_other by (done || by apply pool_not_request).
    unfold with_hash. rewrite zset_at_other by (done || by apply pool_not_meta). auto.
Qed.

Lemma leases_ok_tick ms s : leases_ok s → leases_ok (lease_step (OpTick ms) s).
Proof.
  intros Hok. refine (proj1 (tick_ok (λ k, Z.of_nat (size (holders k s))) ms s Hok _)). intros k _. cbv beta. lia.
Qed.

(** Expired members do not matter later. *)
Lemma holders_later k ms s s1 z :
  is_pool k → purged s z → l_now s1 = l_now s → zset_at k s1 = z k →
  holders k (lease_step (OpTick ms) s1) = holders k (lease_step (OpTick ms) s).
Proof.
  intros Hk Hp Hn Hz. unfold holders, lease_step.
  change (zset_at k (s1 <| l_now ::= λ t, t + Z.of_N ms |>)) with (zset_at k s1).
  change (zset_at k (s <| l_now ::= λ t, t + Z.of_N ms |>)) with (zset_at k s). rsimpl. rewrite Hz, Hn.
  destruct (Hp k Hk) as [->| ->]; [done|]. unfold holders. rewrite map_filter_filter. apply map_filter_ext.
  intros m x _. cbn. lia.
Qed.

Lemma release_twice keys L R s :
  l_keys s !! routeLeaseMetaKey L = None →
  routeLeaseReleaseScript keys (routeLeaseMetaKey L) (routeLeaseRequestKey R) L R s = (Ok 0, s).
Proof.
  intros Em. unfold routeLeaseReleaseScript.
  assert (HGET (routeLeaseMetaKey L) "lease_id" s = (Ok None, s)) as EH.
  { unfold HGET, get_hash, peek, mbind, M_bind. by rewrite Em. }
  assert (owns_lease keys (routeLeaseMetaKey L) (routeLeaseRequestKey R) L R s = (Ok false, s)) as EO.
  { unfold owns_lease. by rewrite (bind_ok _ _ _ _ _ EH). }
  by rewrite (bind_ok _ _ _ _ _ EO).
Qed.

Lemma release_call lease s n s' :
  blank (rl_LeaseID lease) = false → blank (rl_RequestID lease) = false → rl_Resources lease ≠ [] →
  routeLeaseReleaseScript (rr_Key <$> rl_Resources lease) (routeLeaseMetaKey (rl_LeaseID lease))
    (routeLeaseRequestKey (rl_RequestID lease)) (rl_LeaseID lease) (rl_RequestID lease) s = (Ok n, s') →
  ReleaseRouteLease lease s = (if n =? 0 then Err ErrRouteLeaseOwnership else Ok tt, s').
Proof.
  intros H1 H2 H3 E. unfold ReleaseRouteLease. rewrite H1, H2, bool_decide_eq_false_2 by done. cbn [orb].
  erewrite (bind_ok _ _ s n s'); [by destruct (n =? 0)|]. unfold run_script, try, mbind, M_bind. by rewrite E.
Qed.

(** A lease that is released before it expires gives its places back: every
    pool has the holders it would have without the lease, the caller may
    release only once, and both calls report what they did. *)
Theorem release_gives_place_back now R L ttl resources s lease s1 ms :
  leases_ok s → Forall (λ r, is_pool (rr_Key r)) resources →
  AcquireRouteLease now R L ttl resources s = (Ok lease, s1) → Z.of_N ms <= Milliseconds ttl →
  let s2 := lease_step (OpTick ms) s1 in
  let s3 := exec (ReleaseRouteLease lease) s2 in
  result (ReleaseRouteLease lease) s2 = Ok tt ∧
  result (ReleaseRouteLease lease) s3 = Err ErrRouteLeaseOwnership ∧
  ∀ k, is_pool k → holders k s3 =
    (if decide (k ∈ rr_Key <$> resources) then delete L else id) (holders k (lease_step (OpTick ms) s)).
Proof.
  intros Hok Hpools E Hms s2 s3.
  destruct (acquire_inv now R L ttl resources s lease s1 E Hok Hpools) as (HL & HR & Hne & -> & Hok1 & Hpos & Hn & Em & Er & z & Hp & Hz).
  destruct (release_outcome (rr_Key <$> resources) L R s2 (leases_ok_tick ms s1 Hok1)) as (n & s' & Es & _ & Hn' & Hd).
  assert (∀ e, live (l_now s2) (MkEntry e (Some (l_now s + Milliseconds ttl))) = true) as Hlive.
  { intros e. unfold s2, lease_step. rsimpl. rewrite Hn. lia. }
  assert (result (owns_lease (rr_Key <$> resources) (routeLeaseMetaKey L) (routeLeaseRequestKey R) L R) s2 = Ok true) as Hown.
  { unfold result. erewrite owns_lease_true; [done| |apply lease_hash_records|]; unfold peek;
      change (l_keys s2) with (l_keys s1); [by rewrite Em, Hlive|by rewrite Er, Hlive]. }
  destruct Hd as [(_ & _ & Hd)|(-> & _ & Em' & Er' & Hz')]; [congruence|].
  assert (ReleaseRouteLease (MkLease L R 0 resources (now + ttl)) s2 = (Ok tt, s')) as Erel by exact (release_call (MkLease L R 0 resources (now + ttl)) s2 1 s' HL HR Hne Es).
  assert (s3 = s') as -> by (unfold s3, exec; by rewrite Erel).
  split_and!; [unfold result; by rewrite Erel| |].
  - unfold result. rewrite (release_call (MkLease L R 0 resources (now + ttl)) s' 0 s' HL HR Hne); [done|]. by apply release_twice.
  - intros k Hk. unfold holders at 1. rewrite Hz', Hn' by done. change (zset_at k s2) with (zset_at k s1). rewrite Hz by done.
    case_decide as Hin.
    + rewrite delete_insert_eq, map_filter_delete. f_equal.
      transitivity (holders k (lease_step (OpTick ms) (s1 <| l_keys ::= <[k := MkEntry (LZset (z k)) None]> |>))).
      * unfold holders, lease_step, zset_at. rsimpl. by rewrite lookup_insert_eq.
      * eapply holders_later; [done|exact Hp|done|]. unfold zset_at. rsimpl. by rewrite lookup_insert_eq.
    + unfold id. transitivity (holders k s2); [unfold holders; change (zset_at k s2) with (zset_at k s1); by rewrite Hz, decide_False|].
      eapply holders_later; [done|exact Hp|done|]. by rewrite Hz, decide_False.
Qed.

(** ** Witnesses, and the last millisecond of a lease *)

Definition channel5 : string := ChannelRouteLeaseKey 5.
Definition lease_of (R L : string) : RouteLease := MkLease L R 5 [MkResource channel5 1] 0.
Definition acquire5 (R L : string) : lease_op := OpAcquire 0 R L (60000 * 1000000) [MkResource channel5 1].

Lemma channel5_pool : is_pool channel5.
Proof. exists 5. auto. Qed.

(** A full pool, a renewal and a release. *)
Definition some_calls : list lease_op :=
  [acquire5 "r1" "a"; acquire5 "r2" "b"; OpTick 30000; OpRenew 0 (lease_of "r1" "a") (60000 * 1000000); OpTick 60000;
   OpRelease (lease_of "r1" "a"); acquire5 "r2" "b"].

Lemma pool_capacity_respected_witness :
  size (holders channel5 (lease_run some_calls (MkLeases ∅ 1000))) = 1%nat ∧
  Z.of_nat (size (holders channel5 (lease_run some_calls (MkLeases ∅ 1000)))) <= 1.
Proof.
  split; [vm_compute; reflexivity|].
  apply (pool_capacity_respected (λ _, 1) some_calls 1000 channel5); [done| |vm_compute; reflexivity|exact channel5_pool].
  repeat constructor; (exact channel5_pool || done).
Defined.

Lemma release_gives_place_back_witness :
  ∃ s1 lease, AcquireRouteLease 0 "r1" "a" (60000 * 1000000) [MkResource channel5 1] (MkLeases ∅ 1000) = (Ok lease, s1) ∧
  size (holders channel5 s1) = 1%nat ∧
  size (holders channel5 (exec (ReleaseRouteLease lease) (lease_step (OpTick 500) s1))) = 0%nat.
Proof.
  destruct (AcquireRouteLease 0 "r1" "a" (60000 * 1000000) [MkResource channel5 1] (MkLeases ∅ 1000)) as [r s1] eqn:E.
  assert (is_ok r = true ∧ size (holders channel5 s1) = 1%nat) as [Hr Hs].
  { change r with (r, s1).1. change s1 with (r, s1).2 at 2. rewrite <- E. split; vm_compute; reflexivity. }
  destruct r as [lease|]; [|done]. exists s1, lease. split_and!; [reflexivity|exact Hs|].
  destruct (release_gives_place_back 0 "r1" "a" (60000 * 1000000) [MkResource channel5 1] (MkLeases ∅ 1000) lease s1 500) as (_ & _ & Hh).
  - split_and!; intros ? *; cbn; rewrite lookup_empty; done.
  - repeat constructor. exact channel5_pool.
  - exact E.
  - vm_compute. discriminate.
  - rewrite (Hh channel5 channel5_pool). vm_compute. reflexivity.
Defined.

(** A pool of capacity 1 gets two holders when a lease is renewed in the
    millisecond it expires: the acquire script already drops a member whose
    score equals the clock, but the keys that prove ownership still exist, so
    the renewal puts the member back next to the one that took its place. *)
Theorem last_millisecond_renewal_exceeds_capacity :
  let ops := [acquire5 "r1" "a"; OpTick 60000; acquire5 "r2" "b"] in
  let s := lease_run ops (MkLeases ∅ 1000) in
  result (RenewRouteLease 0 (lease_of "r1" "a") (60000 * 1000000)) s = Ok (60000 * 1000000) ∧
  size (holders channel5 (lease_step (OpRenew 0 (lease_of "r1" "a") (60000 * 1000000)) s)) = 2%nat.
Proof. split; vm_compute; reflexivity. Qed.
