(* ===== verification/QuotaMath.v ===== *)
(** * Quota conversions (src/common/quota_math.go, src/common/quota.go)

    Prices and ratios are [float64] products; balances are 32-bit database
    columns.  This file models the one place where the former become the
    latter.  A [float64] is a [spec_float] of the Standard Library (binary64
    data without axioms); its finite values are read as exact rationals, so
    the comparisons and the truncation below are those of IEEE 754. *)

From S2P Require Import Prelude.
From Stdlib Require Import QArith Qround SpecFloat.
#[local] Open Scope Z_scope.

(** ** binary64 values as the Go runtime sees them *)

Definition float64 : Type := spec_float.

(** The rational [± m * 2^e]. *)
Definition dyadic (s : bool) (m : positive) (e : Z) : Q :=
  let v := if s then Zneg m else Zpos m in
  if 0 <=? e then inject_Z (v * 2 ^ e) else (v # Z.to_pos (2 ^ (- e))).

(** The value of a finite float; [0] for the non-finite ones. *)
Definition float_value (x : float64) : Q :=
  match x with
  | S754_finite s m e => dyadic s m e
  | _ => 0%Q
  end.

Definition IsNaN (x : float64) : bool :=
  match x with S754_nan => true | _ => false end.
Definition is_finite (x : float64) : bool :=
  match x with S754_zero _ | S754_finite _ _ _ => true | _ => false end.

(** [x >= n] and [x <= n] against an integer constant. *)
Definition float_ge (x : float64) (n : Z) : bool :=
  match x with
  | S754_nan => false
  | S754_infinity s => negb s
  | _ => Qle_bool (inject_Z n) (float_value x)
  end.
Definition float_le (x : float64) (n : Z) : bool :=
  match x with
  | S754_nan => false
  | S754_infinity s => s
  | _ => Qle_bool (float_value x) (inject_Z n)
  end.

(** Truncation toward zero and rounding half away from zero of a rational. *)
Definition Qtrunc (q : Q) : Z := Z.quot (Qnum q) (QDen q).
Definition Qround_away (q : Q) : Z :=
  let n := (2 * Z.abs (Qnum q) + QDen q) / (2 * QDen q) in
  if Qnum q <? 0 then - n else n.

(** Go's [int(x)] for an in-range float. *)
Definition float_int (x : float64) : Z := Qtrunc (float_value x).

(** An integer of at most 53 bits as a canonical float. *)
Definition float_of_pos (s : bool) (n : positive) : float64 :=
  let d := Zpos (digits2_pos n) in
  match Zpos n * 2 ^ (53 - d) with
  | Zpos m => S754_finite s m (d - 53)
  | _ => S754_zero s
  end.

(** [math.Round]: half away from zero; floats with a non-negative exponent,
    infinities and NaN are returned as they are. *)
Definition math_Round (x : float64) : float64 :=
  match x with
  | S754_finite s m e =>
      if 0 <=? e then x
      else match Z.abs (Qround_away (float_value x)) with
           | Zpos n => float_of_pos s n
           | _ => S754_zero s
           end
  | _ => x
  end.

(** ** quota_math.go *)

Definition MaxQuota : Z := 2147483647.
Definition MinQuota : Z := -2147483648.

Inductive QuotaClampKind := QuotaClampOverflow | QuotaClampUnderflow | QuotaClampNaN.

Record QuotaClamp := MkQuotaClamp {
  Op : string;
  Kind : QuotaClampKind;
  Original : float64;
  Clamped : Z
}.

Definition saturateQuota (value : float64) (op : string) : Z * option QuotaClamp :=
  if IsNaN value then (0, Some (MkQuotaClamp op QuotaClampNaN value 0))
  else if float_ge value MaxQuota then (MaxQuota, Some (MkQuotaClamp op QuotaClampOverflow value MaxQuota))
  else if float_le value MinQuota then (MinQuota, Some (MkQuotaClamp op QuotaClampUnderflow value MinQuota))
  else (float_int value, None).

Definition strictQuota (r : Z * option QuotaClamp) : Z * option QuotaClamp :=
  match r with
  | (_, Some clamp) => (0, Some clamp)
  | (quota, None) => (quota, None)
  end.

Definition QuotaFromFloatChecked (value : float64) : Z * option QuotaClamp :=
  saturateQuota value "QuotaFromFloat".
Definition QuotaFromFloat (value : float64) : Z := (QuotaFromFloatChecked value).1.
Definition QuotaFromFloatStrict (value : float64) : Z * option QuotaClamp :=
  strictQuota (QuotaFromFloatChecked value).

Definition QuotaRoundChecked (value : float64) : Z * option QuotaClamp :=
  saturateQuota (math_Round value) "QuotaRound".
Definition QuotaRound (value : float64) : Z := (QuotaRoundChecked value).1.
Definition QuotaRoundStrict (value : float64) : Z * option QuotaClamp :=
  strictQuota (QuotaRoundChecked value).

(** shopspring/decimal is a third-party package: its operations are a class,
    the behaviour the conversion relies on is [DecimalLaws]. *)
Class Decimal (D : Type) := {
  dec_value : D → Q;
  dec_Round : D → Z → D;
  dec_Float64 : D → float64
}.

(** [Round(0)] rounds half away from zero; [Float64] is exact on integers
    that binary64 represents and keeps the sign and the order of magnitude of
    the others. *)
Class DecimalLaws (D : Type) `{Decimal D} := {
  dec_Round_0 : ∀ d, (dec_value (dec_Round d 0) == inject_Z (Qround_away (dec_value d)))%Q;
  dec_Float64_exact : ∀ d n, (dec_value d == inject_Z n)%Q → Z.abs n <= 2 ^ 53 →
    is_finite (dec_Float64 d) = true ∧ (float_value (dec_Float64 d) == inject_Z n)%Q;
  dec_Float64_big : ∀ d n, (dec_value d == inject_Z n)%Q → 2 ^ 53 < n →
    float_ge (dec_Float64 d) (2 ^ 53) = true;
  dec_Float64_small : ∀ d n, (dec_value d == inject_Z n)%Q → n < - 2 ^ 53 →
    float_le (dec_Float64 d) (- 2 ^ 53) = true
}.

(** The arithmetic that payments do with decimals.  [Div] may round. *)
Class DecimalArith (D : Type) := {
  dec_Decimal :: Decimal D;
  dec_NewFromFloat : float64 → D;
  dec_NewFromInt : Z → D;
  dec_Mul : D → D → D;
  dec_Div : D → D → D;
  dec_Floor : D → D;
  dec_Ceil : D → D
}.
Class DecimalArithLaws (D : Type) `{DecimalArith D} := {
  dec_DecimalLaws :: DecimalLaws D;
  dec_NewFromFloat_int : ∀ x n, is_finite x = true → (float_value x == inject_Z n)%Q → Z.abs n <= 2 ^ 53 →
    (dec_value (dec_NewFromFloat x) == inject_Z n)%Q;
  dec_NewFromInt_exact : ∀ n, (dec_value (dec_NewFromInt n) == inject_Z n)%Q;
  dec_Mul_exact : ∀ a b, (dec_value (dec_Mul a b) == dec_value a * dec_value b)%Q;
  dec_Ceil_spec : ∀ a, (dec_value (dec_Ceil a) == inject_Z (Qround.Qceiling (dec_value a)))%Q
}.

(** [float64(n)]: the nearest binary64 value, ties to even. *)
Definition float_of_int (n : Z) : float64 := binary_normalize 53 1024 n 0 false.

Definition QuotaFromDecimalChecked {D} `{Decimal D} (d : D) : Z * option QuotaClamp :=
  saturateQuota (dec_Float64 (dec_Round d 0)) "QuotaFromDecimal".
Definition QuotaFromDecimal {D} `{Decimal D} (d : D) : Z := (QuotaFromDecimalChecked d).1.
Definition QuotaFromDecimalStrict {D} `{Decimal D} (d : D) : Z * option QuotaClamp :=
  strictQuota (QuotaFromDecimalChecked d).

(** quota.go: [int(10 * QuotaPerUnit)], a [float64] product. *)
Definition GetTrustQuota (QuotaPerUnit : float64) : Z :=
  float_int (SFmul 53 1024 (float_of_pos false 10) QuotaPerUnit).

(** ** Rational rounding *)

Lemma Qtrunc_nonneg q : 0 <= Qnum q → Qtrunc q = Qnum q / QDen q.
Proof. intros. unfold Qtrunc. rewrite Z.quot_div_nonneg; lia. Qed.

Lemma Qtrunc_neg q : Qnum q <= 0 → Qtrunc q = - (- Qnum q / QDen q).
Proof.
  intros. unfold Qtrunc.
  replace (Qnum q) with (- (- Qnum q)) at 1 by lia.
  rewrite Z.quot_opp_l, Z.quot_div_nonneg; lia.
Qed.

(** Truncation is the integer part: between [q] and zero, less than one away. *)
Lemma Qtrunc_spec q :
  (0 <= q → inject_Z (Qtrunc q) <= q ∧ q < inject_Z (Qtrunc q + 1))%Q ∧
  (q <= 0 → q <= inject_Z (Qtrunc q) ∧ inject_Z (Qtrunc q - 1) < q)%Q.
Proof.
  unfold Qle, Qlt; simpl. split; intros Hq.
  - rewrite Qtrunc_nonneg by lia.
    pose proof (Z.div_mod (Qnum q) (QDen q)). pose proof (Z.mod_pos_bound (Qnum q) (QDen q)). nia.
  - rewrite Qtrunc_neg by lia.
    pose proof (Z.div_mod (- Qnum q) (QDen q)). pose proof (Z.mod_pos_bound (- Qnum q) (QDen q)). nia.
Qed.

Lemma Qtrunc_between q lo hi :
  (inject_Z lo < q)%Q → (q < inject_Z hi)%Q → lo <= 0 <= hi → lo <= Qtrunc q <= hi.
Proof.
  unfold Qlt; simpl. intros Hlo Hhi H0.
  destruct (Z_le_gt_dec 0 (Qnum q)).
  - rewrite Qtrunc_nonneg by lia.
    pose proof (Z.div_pos (Qnum q) (QDen q)). pose proof (Z.div_lt_upper_bound (Qnum q) (QDen q) hi). lia.
  - rewrite Qtrunc_neg by lia.
    pose proof (Z.div_pos (- Qnum q) (QDen q)). pose proof (Z.div_lt_upper_bound (- Qnum q) (QDen q) (- lo)). lia.
Qed.

Lemma Qtrunc_inside q lo hi :
  (inject_Z lo < q)%Q → (q < inject_Z hi)%Q → lo < 0 < hi → lo < Qtrunc q < hi.
Proof.
  unfold Qlt; simpl. intros Hlo Hhi H0.
  destruct (Z_le_gt_dec 0 (Qnum q)).
  - rewrite Qtrunc_nonneg by lia.
    pose proof (Z.div_pos (Qnum q) (QDen q)). pose proof (Z.div_lt_upper_bound (Qnum q) (QDen q) hi). lia.
  - rewrite Qtrunc_neg by lia.
    pose proof (Z.div_pos (- Qnum q) (QDen q)). pose proof (Z.div_lt_upper_bound (- Qnum q) (QDen q) (- lo)). lia.
Qed.

Lemma Qtrunc_mono p q : (p <= q)%Q → Qtrunc p <= Qtrunc q.
Proof.
  unfold Qle. intros H.
  assert (∀ a b c d, 0 < b → 0 < d → a * d <= c * b → a / b <= c / d) as Hdiv.
  { intros a b c d ? ? ?. apply Z.div_le_lower_bound; [lia|].
    pose proof (Z.mul_div_le a b). apply (Zmult_le_reg_r _ _ b); [lia|]. nia. }
  destruct (Z_le_gt_dec 0 (Qnum p)), (Z_le_gt_dec 0 (Qnum q)).
  - rewrite !Qtrunc_nonneg by lia. apply Hdiv; lia.
  - nia.
  - rewrite (Qtrunc_neg p), (Qtrunc_nonneg q) by lia.
    pose proof (Z.div_pos (- Qnum p) (QDen p)). pose proof (Z.div_pos (Qnum q) (QDen q)). lia.
  - rewrite !Qtrunc_neg by lia. specialize (Hdiv (- Qnum q) (QDen q) (- Qnum p) (QDen p)). lia.
Qed.

Lemma Qtrunc_comp p q : (p == q)%Q → Qtrunc p = Qtrunc q.
Proof.
  intros H. apply Z.le_antisymm; apply Qtrunc_mono; rewrite H; apply Qle_refl.
Qed.

Lemma Qtrunc_int n : Qtrunc (inject_Z n) = n.
Proof. unfold Qtrunc. simpl. apply Z.quot_1_r. Qed.

(** Rounding to nearest, ties away from zero: at most one half away, and an
    exact half is moved away from zero. *)
Lemma Qround_away_spec q :
  (inject_Z (2 * Qround_away q - 1) <= 2 * q <= inject_Z (2 * Qround_away q + 1))%Q ∧
  (0 <= q → 2 * q < inject_Z (2 * Qround_away q + 1))%Q ∧
  (q <= 0 → inject_Z (2 * Qround_away q - 1) < 2 * q)%Q.
Proof.
  unfold Qround_away, Qle, Qlt, Qmult, inject_Z. destruct q as [n d]; cbn [Qnum Qden].
  rewrite !Pos.mul_1_l, !Z.mul_1_r.
  set (k := (2 * Z.abs n + Zpos d) / (2 * Zpos d)).
  pose proof (Z.div_mod (2 * Z.abs n + Zpos d) (2 * Zpos d) ltac:(lia)) as E.
  pose proof (Z.mod_pos_bound (2 * Z.abs n + Zpos d) (2 * Zpos d) ltac:(lia)) as Bd.
  fold k in E. set (r := _ mod _) in *. clearbody k r.
  destruct (Z.ltb_spec n 0); split_and!; try nia.
  intros. assert (n = 0) as -> by lia. assert (k <= 0) by nia. nia.
Qed.

(** ** Floats that round exactly *)

Lemma pow2_pos k : 0 <= k → 0 < 2 ^ k.
Proof. intros. apply Z.pow_pos_nonneg; lia. Qed.

Lemma digits2_pos_bound n : 2 ^ (Zpos (digits2_pos n) - 1) <= Zpos n < 2 ^ Zpos (digits2_pos n).
Proof.
  induction n as [n IH|n IH|]; simpl; [| |done].
  all: rewrite Pos2Z.inj_succ; replace (Z.succ (Zpos (digits2_pos n)) - 1) with
         (Z.succ (Zpos (digits2_pos n) - 1)) by lia.
  all: rewrite !Z.pow_succ_r by lia; lia.
Qed.

Lemma float_of_pos_value s n :
  Zpos (digits2_pos n) <= 53 →
  is_finite (float_of_pos s n) = true ∧
  (float_value (float_of_pos s n) == inject_Z (if s then Zneg n else Zpos n))%Q.
Proof.
  intros Hd. unfold float_of_pos. set (d := Zpos (digits2_pos n)) in *. clearbody d.
  pose proof (pow2_pos (53 - d) ltac:(lia)) as Hp.
  destruct (Zpos n * 2 ^ (53 - d)) as [|m|m] eqn:Em; [nia| |nia].
  split; [done|]. simpl. unfold dyadic, Qeq.
  destruct (Z.leb_spec 0 (d - 53)); simpl.
  - assert (d = 53) as Ed by lia. rewrite Ed in *. simpl in *. destruct s; lia.
  - rewrite Z2Pos.id by (apply pow2_pos; lia). replace (- (d - 53)) with (53 - d) by lia.
    destruct s; lia.
Qed.

(** A canonical binary64 mantissa has at most 53 bits. *)
Lemma valid_binary_digits s m e :
  valid_binary 53 1024 (S754_finite s m e) = true → Zpos (digits2_pos m) <= 53.
Proof.
  simpl. unfold bounded, canonical_mantissa, fexp.
  rewrite andb_true_iff, Z.eqb_eq, Z.leb_le. lia.
Qed.

Lemma Qround_away_abs_small s m e :
  e < 0 → Zpos (digits2_pos m) <= 53 →
  Z.abs (Qround_away (dyadic s m e)) <= 2 ^ 52.
Proof.
  intros He Hd. pose proof (digits2_pos_bound m) as [_ Hm].
  assert (Zpos m < 2 ^ 53) as Hm53.
  { eapply Z.lt_le_trans; [exact Hm|]. apply Z.pow_le_mono_r; lia. }
  unfold Qround_away, dyadic. destruct (Z.leb_spec 0 e); [lia|]. cbn [Qnum Qden].
  rewrite Z2Pos.id by (apply pow2_pos; lia).
  replace (Z.abs (if s then Zneg m else Zpos m)) with (Zpos m) by (by destruct s).
  assert (2 <= 2 ^ (- e)) as Hp.
  { change 2 with (2 ^ 1) at 1. apply Z.pow_le_mono_r; lia. }
  assert ((2 * Zpos m + 2 ^ (- e)) / (2 * 2 ^ (- e)) <= 2 ^ 52) as Hk.
  { apply Z.lt_succ_r, Z.div_lt_upper_bound; [lia|].
    change (2 ^ 53) with (2 * 2 ^ 52) in Hm53. nia. }
  pose proof (Z.div_pos (2 * Zpos m + 2 ^ (- e)) (2 * 2 ^ (- e))) as Hk0.
  destruct (_ <? 0); lia.
Qed.

Lemma digits2_pos_le n k : Zpos n < 2 ^ k → 0 <= k → Zpos (digits2_pos n) <= k.
Proof.
  intros Hn Hk. pose proof (digits2_pos_bound n) as [Hlo _].
  destruct (Z_le_gt_dec (Zpos (digits2_pos n)) k); [done|exfalso].
  pose proof (Z.pow_le_mono_r 2 k (Zpos (digits2_pos n) - 1)). lia.
Qed.

(** [math.Round] on a well-formed finite float is the exact rounding of its
    value. *)
Lemma math_Round_value x :
  valid_binary 53 1024 x = true → is_finite x = true →
  is_finite (math_Round x) = true ∧
  (float_value (math_Round x) == inject_Z (Qround_away (float_value x)))%Q.
Proof.
  intros Hv Hf. destruct x as [s|s| |s m e]; try done.
  pose proof (valid_binary_digits _ _ _ Hv) as Hd. unfold math_Round.
  destruct (Z.leb_spec 0 e) as [He|He].
  - split; [done|]. simpl. unfold dyadic, Qeq. destruct (Z.leb_spec 0 e); [|lia]. simpl.
    rewrite !Z.mul_1_r. set (v := (if s then _ else _) * 2 ^ e). clearbody v.
    unfold Qround_away; cbn [Qnum Qden inject_Z].
    replace ((2 * Z.abs v + 1) / (2 * 1)) with (Z.abs v).
    2: { apply (Z.div_unique _ _ _ 1); lia. }
    destruct (Z.ltb_spec v 0); lia.
  - pose proof (Qround_away_abs_small s m e He Hd) as Hn. simpl float_value.
    assert (Qround_away (dyadic s m e) =
      if s then - Z.abs (Qround_away (dyadic s m e)) else Z.abs (Qround_away (dyadic s m e))) as Hs.
    { unfold Qround_away, dyadic. destruct (Z.leb_spec 0 e); [lia|]. cbn [Qnum Qden].
      replace (Z.abs (if s then Zneg m else Zpos m)) with (Zpos m) by (by destruct s).
      pose proof (Z.div_pos (2 * Zpos m + Zpos (Z.to_pos (2 ^ (- e)))) (2 * Zpos (Z.to_pos (2 ^ (- e))))).
      destruct s; cbn [Z.ltb Z.compare]; lia. }
    destruct (Z.abs (Qround_away (dyadic s m e))) as [|n|n] eqn:En.
    + split; [done|]. rewrite Hs. by destruct s.
    + destruct (float_of_pos_value s n) as [? Hval].
      { apply digits2_pos_le; lia. }
      split; [done|]. rewrite Hval, Hs. by destruct s.
    + lia.
Qed.

(** ** Saturation *)

Lemma float_ge_finite x n :
  is_finite x = true → float_ge x n = Qle_bool (inject_Z n) (float_value x).
Proof. by destruct x. Qed.

Lemma float_le_finite x n :
  is_finite x = true → float_le x n = Qle_bool (float_value x) (inject_Z n).
Proof. by destruct x. Qed.

Lemma Qle_bool_false p q : Qle_bool p q = false → (q < p)%Q.
Proof.
  intros H. apply Qnot_le_lt. intros Hle%Qle_bool_iff. congruence.
Qed.

(** In range: no clamp, and the result is the truncated value. *)
Lemma saturateQuota_in_range x op :
  is_finite x = true →
  (inject_Z MinQuota < float_value x)%Q → (float_value x < inject_Z MaxQuota)%Q →
  saturateQuota x op = (Qtrunc (float_value x), None).
Proof.
  intros Hf Hlo Hhi. unfold saturateQuota.
  replace (IsNaN x) with false by (by destruct x).
  rewrite float_ge_finite, float_le_finite by done.
  destruct (Qle_bool (inject_Z MaxQuota) _) eqn:E1.
  { apply Qle_bool_iff in E1. by apply Qlt_not_le in Hhi. }
  destruct (Qle_bool _ (inject_Z MinQuota)) eqn:E2.
  { apply Qle_bool_iff in E2. by apply Qlt_not_le in Hlo. }
  done.
Qed.

(** No clamp is reported exactly for the finite in-range values. *)
Lemma saturateQuota_None x op q :
  saturateQuota x op = (q, None) →
  is_finite x = true ∧ (inject_Z MinQuota < float_value x)%Q ∧
  (float_value x < inject_Z MaxQuota)%Q ∧ q = Qtrunc (float_value x).
Proof.
  unfold saturateQuota. destruct (IsNaN x) eqn:EN; [done|].
  destruct (float_ge x MaxQuota) eqn:EG; [done|].
  destruct (float_le x MinQuota) eqn:EL; [done|]. intros [= <-].
  assert (is_finite x = true) as Hf by (by destruct x as [| [] | |]).
  rewrite float_ge_finite in EG by done. rewrite float_le_finite in EL by done.
  auto using Qle_bool_false.
Qed.

Lemma saturateQuota_range x op : MinQuota <= (saturateQuota x op).1 <= MaxQuota.
Proof.
  destruct (saturateQuota x op) as [q [c|]] eqn:E; simpl.
  - unfold saturateQuota in E. repeat case_match; simplify_eq; unfold MinQuota, MaxQuota; lia.
  - apply saturateQuota_None in E as (Hf & Hlo & Hhi & ->).
    apply Qtrunc_between; [done..|]. unfold MinQuota, MaxQuota; lia.
Qed.

(** The clamp carries the value that was used. *)
Lemma saturateQuota_clamped x op q c :
  saturateQuota x op = (q, Some c) → Clamped c = q ∧ Original c = x ∧ Op c = op.
Proof. unfold saturateQuota. intros. by repeat case_match; simplify_eq. Qed.

Definition clampQuota (n : Z) : Z := Z.max MinQuota (Z.min MaxQuota n).

Lemma saturateQuota_clamp x op :
  is_finite x = true → (saturateQuota x op).1 = clampQuota (Qtrunc (float_value x)).
Proof.
  intros Hf. unfold saturateQuota, clampQuota.
  replace (IsNaN x) with false by (by destruct x).
  rewrite float_ge_finite, float_le_finite by done.
  destruct (Qle_bool (inject_Z MaxQuota) _) eqn:E1.
  { apply Qle_bool_iff, Qtrunc_mono in E1. rewrite Qtrunc_int in E1.
    unfold MinQuota, MaxQuota in *. simpl. lia. }
  destruct (Qle_bool _ (inject_Z MinQuota)) eqn:E2.
  { apply Qle_bool_iff, Qtrunc_mono in E2. rewrite Qtrunc_int in E2.
    unfold MinQuota, MaxQuota in *. simpl. lia. }
  simpl. unfold float_int.
  apply Qle_bool_false in E1, E2.
  pose proof (Qtrunc_between _ _ _ E2 E1). unfold MinQuota, MaxQuota in *. lia.
Qed.

(** Floats beyond the 53-bit range clamp on the side of their sign. *)
Lemma saturateQuota_big x op : float_ge x (2 ^ 53) = true → (saturateQuota x op).1 = MaxQuota.
Proof.
  intros H. unfold saturateQuota.
  assert (IsNaN x = false ∧ float_ge x MaxQuota = true) as [-> ->]; [|done].
  destruct x as [s|s| |s m e]; try done. split; [done|]. simpl in *.
  apply Qle_bool_iff in H. apply Qle_bool_iff. eapply Qle_trans; [|exact H].
  by rewrite <- Zle_Qle.
Qed.

Lemma saturateQuota_small x op : float_le x (- 2 ^ 53) = true → (saturateQuota x op).1 = MinQuota.
Proof.
  intros H. unfold saturateQuota.
  assert (IsNaN x = false ∧ float_ge x MaxQuota = false ∧ float_le x MinQuota = true)
    as (-> & -> & ->); [|done].
  destruct x as [s|s| |s m e]; try done; [by destruct s|]. split; [done|]. simpl in *.
  apply Qle_bool_iff in H. split.
  - apply not_true_iff_false. intros H3%Qle_bool_iff.
    pose proof (Qle_trans _ _ _ H3 H) as Habs. by rewrite <- Zle_Qle in Habs.
  - apply Qle_bool_iff. eapply Qle_trans; [exact H|]. by rewrite <- Zle_Qle.
Qed.

(** Every conversion of a price to a quota (truncating, rounding and
    decimal) yields a value of the int32 range, whatever the input: a charge
    that is too large never wraps around into a credit. *)
Theorem quota_conversions_in_int32 {D} `{Decimal D} (x : float64) (d : D) :
  (MinQuota <= QuotaFromFloat x <= MaxQuota) ∧
  (MinQuota <= QuotaRound x <= MaxQuota) ∧
  (MinQuota <= QuotaFromDecimal d <= MaxQuota).
Proof. split_and!; apply saturateQuota_range. Qed.

(** The strict conversion returns a quota without error exactly when the
    value is finite and strictly inside the int32 range, and then the quota is
    the integer part of the value; in every other case it returns 0 and the
    clamp as an error. *)
Theorem QuotaFromFloatStrict_spec (x : float64) :
  match QuotaFromFloatStrict x with
  | (q, None) =>
      is_finite x = true ∧
      (inject_Z MinQuota < float_value x)%Q ∧ (float_value x < inject_Z MaxQuota)%Q ∧
      (0 <= float_value x → inject_Z q <= float_value x ∧ float_value x < inject_Z (q + 1))%Q ∧
      (float_value x <= 0 → float_value x <= inject_Z q ∧ inject_Z (q - 1) < float_value x)%Q
  | (q, Some clamp) =>
      q = 0 ∧ Clamped clamp = QuotaFromFloat x ∧
      ¬ (is_finite x = true ∧ inject_Z MinQuota < float_value x ∧ float_value x < inject_Z MaxQuota)%Q
  end.
Proof.
  unfold QuotaFromFloatStrict, QuotaFromFloat, QuotaFromFloatChecked.
  destruct (saturateQuota x _) as [q [c|]] eqn:E; simpl.
  - split; [done|]. split; [by eapply saturateQuota_clamped|].
    intros (Hf & Hlo & Hhi). rewrite saturateQuota_in_range in E by done. done.
  - apply saturateQuota_None in E as (? & ? & ? & ->).
    destruct (Qtrunc_spec (float_value x)). auto.
Qed.

(** on a well-formed finite binary64 value [QuotaRound] is the exact
    rounding half away from zero, saturated to int32; so two billing paths
    that round the same value never differ by one. *)
Theorem QuotaRound_nearest (x : float64)
    (Hvalid : valid_binary 53 1024 x = true) (Hfinite : is_finite x = true) :
  QuotaRound x = clampQuota (Qround_away (float_value x)) ∧
  (QuotaRoundStrict x = (QuotaRound x, None) →
   (inject_Z (2 * QuotaRound x - 1) <= 2 * float_value x <= inject_Z (2 * QuotaRound x + 1))%Q).
Proof.
  destruct (math_Round_value x Hvalid Hfinite) as [Hf Hval].
  assert (QuotaRound x = clampQuota (Qround_away (float_value x))) as Heq.
  { unfold QuotaRound, QuotaRoundChecked. rewrite saturateQuota_clamp by done.
    by rewrite (Qtrunc_comp _ _ Hval), Qtrunc_int. }
  split; [done|]. unfold QuotaRoundStrict, QuotaRoundChecked.
  destruct (saturateQuota _ _) as [q [c|]] eqn:E; [done|]. intros _.
  assert (QuotaRound x = q) as -> by (unfold QuotaRound, QuotaRoundChecked; by rewrite E).
  apply saturateQuota_None in E as (_ & _ & _ & ->).
  rewrite (Qtrunc_comp _ _ Hval), Qtrunc_int. apply Qround_away_spec.
Qed.

Definition three_and_a_half : float64 := SFdiv 53 1024 (float_of_pos false 7) (float_of_pos false 2).

Lemma QuotaRound_nearest_witness :
  QuotaRound three_and_a_half = 4 ∧
  QuotaRound three_and_a_half = clampQuota (Qround_away (float_value three_and_a_half)).
Proof.
  split; [by vm_compute|].
  apply (QuotaRound_nearest three_and_a_half); by vm_compute.
Defined.

(** truncating conversion is monotone: a larger price is never a smaller
    quota, saturation included. *)
Theorem QuotaFromFloat_monotone (x y : float64)
    (Hx : is_finite x = true) (Hy : is_finite y = true)
    (Hle : (float_value x <= float_value y)%Q) :
  QuotaFromFloat x <= QuotaFromFloat y.
Proof.
  unfold QuotaFromFloat, QuotaFromFloatChecked. rewrite !saturateQuota_clamp by done.
  apply Qtrunc_mono in Hle. unfold clampQuota. lia.
Qed.

Lemma QuotaFromFloat_monotone_witness :
  QuotaFromFloat three_and_a_half <= QuotaFromFloat (float_of_pos false 4).
Proof. apply QuotaFromFloat_monotone; [by vm_compute..|]. by apply Qle_bool_iff; vm_compute. Defined.

Lemma QuotaFromDecimal_clamps {D} `{DecimalLaws D} (d : D) :
  QuotaFromDecimal d = clampQuota (Qround_away (dec_value d)).
Proof.
  set (n := Qround_away (dec_value d)).
  pose proof (dec_Round_0 d) as Hr. fold n in Hr.
  unfold QuotaFromDecimal, QuotaFromDecimalChecked.
  destruct (Z_le_gt_dec (Z.abs n) (2 ^ 53)) as [Hn|Hn].
  - destruct (dec_Float64_exact _ _ Hr Hn) as [Hf Hv].
    by rewrite saturateQuota_clamp, (Qtrunc_comp _ _ Hv), Qtrunc_int.
  - unfold clampQuota. destruct (Z_le_gt_dec n 0).
    + rewrite saturateQuota_small by (apply (dec_Float64_small _ n Hr); lia).
      unfold MinQuota, MaxQuota. lia.
    + rewrite saturateQuota_big by (apply (dec_Float64_big _ n Hr); lia).
      unfold MinQuota, MaxQuota. lia.
Qed.

(** With the documented behaviour of the decimal package, the decimal
    conversion rounds half away from zero and saturates, exactly. *)
Theorem QuotaFromDecimal_spec {D} `{DecimalLaws D} (d : D) :
  QuotaFromDecimal d = clampQuota (Qround_away (dec_value d)).
Proof. apply QuotaFromDecimal_clamps. Qed.

(** Exact rationals behave like the decimal package. *)
Definition Q_Float64 (q : Q) : float64 :=
  match Qtrunc q with
  | Z0 => S754_zero false
  | Zpos n => if Zpos n <? 2 ^ 53 then float_of_pos false n else S754_finite false 4503599627370496 1
  | Zneg n => if Zpos n <? 2 ^ 53 then float_of_pos true n else S754_finite true 4503599627370496 1
  end.

#[export] Instance Q_Decimal : Decimal Q :=
  {| dec_value q := q;
     dec_Round q _ := inject_Z (Qround_away q);
     dec_Float64 := Q_Float64 |}.

#[export] Instance Q_DecimalLaws : DecimalLaws Q.
Proof.
  split; simpl; unfold Q_Float64.
  - done.
  - intros d n Hd Hn. rewrite (Qtrunc_comp _ _ Hd), Qtrunc_int. destruct n as [|n|n]; [done|..].
    all: destruct (Z.ltb_spec (Zpos n) (2 ^ 53)).
    1,3: apply float_of_pos_value, digits2_pos_le; lia.
    all: split; [done|]; unfold Qeq; simpl; lia.
  - intros d n Hd Hn. rewrite (Qtrunc_comp _ _ Hd), Qtrunc_int. destruct n as [|n|n]; [lia| |lia].
    by destruct (Z.ltb_spec (Zpos n) (2 ^ 53)); [lia|].
  - intros d n Hd Hn. rewrite (Qtrunc_comp _ _ Hd), Qtrunc_int. destruct n as [|n|n]; [lia|lia|].
    by destruct (Z.ltb_spec (Zpos n) (2 ^ 53)); [lia|].
Qed.

#[export] Instance Q_DecimalArith : DecimalArith Q :=
  {| dec_NewFromFloat := float_value;
     dec_NewFromInt := inject_Z;
     dec_Mul := Qmult;
     dec_Div := Qdiv;
     dec_Floor q := inject_Z (Qfloor q);
     dec_Ceil q := inject_Z (Qceiling q) |}.
#[export] Instance Q_DecimalArithLaws : DecimalArithLaws Q.
Proof. split; [apply _|done..]. Qed.

(** A strict conversion that succeeds has rounded the decimal and stayed
    strictly inside the range. *)
Lemma QuotaFromDecimalStrict_ok {D} `{DecimalLaws D} (d : D) q :
  QuotaFromDecimalStrict d = (q, None) → q = Qround_away (dec_value d) ∧ MinQuota < q < MaxQuota.
Proof.
  unfold QuotaFromDecimalStrict, strictQuota. destruct (QuotaFromDecimalChecked d) as [q' [c|]] eqn:E; [done|].
  intros [= ->]. pose proof (QuotaFromDecimal_clamps d) as Hs. unfold QuotaFromDecimal in Hs. rewrite E in Hs. cbn in Hs.
  unfold QuotaFromDecimalChecked in E. apply saturateQuota_None in E as (_ & Hlo & Hhi & Hq).
  apply (Qtrunc_inside _ MinQuota MaxQuota) in Hlo; [|done|done]. unfold clampQuota, MinQuota, MaxQuota in *. lia.
Qed.

Lemma Qround_away_int q n : (q == inject_Z n)%Q → Qround_away q = n.
Proof.
  destruct q as [a b]. unfold Qeq, Qround_away, inject_Z. cbn [Qnum Qden]. rewrite Z.mul_1_r. intros ->.
  rewrite Z.abs_mul, (Z.abs_eq (Zpos b)) by lia.
  replace ((2 * (Z.abs n * Zpos b) + Zpos b) / (2 * Zpos b)) with (Z.abs n).
  - destruct (Z.ltb_spec (n * Zpos b) 0); nia.
  - apply (Z.div_unique_pos _ _ _ (Zpos b)); lia.
Qed.

(** The strict conversion of an integer. *)
Lemma QuotaFromDecimalStrict_int {D} `{DecimalLaws D} (d : D) n :
  (dec_value d == inject_Z n)%Q → MinQuota < n →
  if n <? MaxQuota then QuotaFromDecimalStrict d = (n, None)
  else ∃ c, QuotaFromDecimalStrict d = (0, Some c).
Proof.
  intros Hd Hlo. assert (dec_value (dec_Round d 0) == inject_Z n)%Q as Hr.
  { by rewrite dec_Round_0, (Qround_away_int _ _ Hd). }
  unfold QuotaFromDecimalStrict, QuotaFromDecimalChecked. destruct (Z.ltb_spec n MaxQuota) as [Hn|Hn].
  - destruct (dec_Float64_exact _ _ Hr ltac:(unfold MaxQuota, MinQuota in *; lia)) as [Hf Hv].
    rewrite (saturateQuota_in_range _ _ Hf); [|by rewrite Hv, <- Zlt_Qlt..]. cbn. by rewrite (Qtrunc_comp _ _ Hv), Qtrunc_int.
  - destruct (Z_le_gt_dec n (2 ^ 53)) as [Hb|Hb].
    + destruct (dec_Float64_exact _ _ Hr ltac:(unfold MaxQuota in *; lia)) as [Hf Hv]. unfold saturateQuota.
      destruct (IsNaN _) eqn:En; [by destruct (dec_Float64 _)|].
      rewrite (float_ge_finite _ _ Hf), (proj2 (Qle_bool_iff _ _)); [cbn; eauto|]. rewrite Hv. by rewrite <- Zle_Qle.
    + pose proof (dec_Float64_big _ _ Hr ltac:(lia)) as Hg. unfold saturateQuota.
      destruct (dec_Float64 (dec_Round d 0)) as [s|s| |s m e]; cbn in Hg |- *; eauto; try done.
      * destruct s; [done|]. cbn. eauto.
      * rewrite (proj2 (Qle_bool_iff _ _)); [cbn; eauto|]. apply Qle_bool_iff in Hg. eapply Qle_trans; [|exact Hg]. by rewrite <- Zle_Qle.
Qed.

Lemma QuotaFromDecimal_spec_witness :
  QuotaFromDecimal (7 # 2)%Q = 4 ∧ QuotaFromDecimal (7 # 2)%Q = clampQuota (Qround_away (7 # 2)).
Proof. split; [by vm_compute|]. exact (QuotaFromDecimal_spec (7 # 2)%Q). Defined.
