(* ===== verification/RouteSelect.v ===== *)
(** * Choosing the route of a request

    src/service/route_selector.go, route_score.go and route_decision.go: which
    source owns a request, which candidates may serve it and in which order
    they are tried.  The functions are pure.

    A score is a binary64 value computed with the operations of IEEE 754 as
    the Standard Library specifies them ([SpecFloat]).  [sort.SliceStable] is
    the insertion sort Go performs on a slice of up to 20 elements; for a
    comparison that is a strict weak order every stable sort agrees with it.
    A Go map is a finite map: the code never iterates over one. *)

From Stdlib Require Import SpecFloat Sorted.
From S2P Require Import Prelude QuotaMath.
#[local] Open Scope string_scope.
#[local] Open Scope list_scope.
#[local] Open Scope Z_scope.

(** ** [sort.SliceStable] *)

Section sort.
Context {A : Type} (less : A → A → bool).

(** The new element moves left past those it is less than; the prefix is kept
    in reverse. *)
Fixpoint sift (x : A) (prefix : list A) : list A :=
  match prefix with
  | [] => [x]
  | y :: prefix => if less x y then y :: sift x prefix else x :: y :: prefix
  end.

Definition SliceStable (l : list A) : list A := reverse (foldl (λ prefix x, sift x prefix) [] l).
End sort.

(** ** Data *)

Inductive RouteSource := RouteSourceUnavailable | RouteSourceManual | RouteSourceAutoLab.
#[global] Instance RouteSource_eq_dec : EqDecision RouteSource.
Proof. solve_decision. Defined.

Record RouteSourceInput := MkSourceInput { si_CapabilityEnabled : bool; si_HasProfile : bool; si_ProfileMode : string }.

Definition ResolveRouteSource (input : RouteSourceInput) : RouteSource :=
  if negb (si_CapabilityEnabled input) then RouteSourceUnavailable
  else if negb (si_HasProfile input) then RouteSourceAutoLab
  else if bool_decide (si_ProfileMode input = "manual") then RouteSourceManual
  else if bool_decide (si_ProfileMode input = "auto_lab") then RouteSourceAutoLab
  else RouteSourceUnavailable.

Record RouteSelectionCandidate := MkSelectionCandidate {
  sc_ChannelID : Z; sc_RequestModel : string; sc_ActualModel : string; sc_LabSlug : string;
  sc_Priority : Z; sc_Position : Z; sc_Weight : Z; sc_FilterReason : string; sc_HealthUsable : bool;
  sc_ErrorRate : float64; sc_ErrorRateKnown : bool; sc_LatencyMS : float64; sc_LatencyKnown : bool;
  sc_TTFTMS : float64; sc_TTFTKnown : bool; sc_RateLimitHeadroom : float64; sc_RateLimitKnown : bool;
  sc_QuotaHeadroom : float64; sc_QuotaKnown : bool; sc_Sticky : bool;
  sc_SnapshotVersion : Z; sc_HealthEpoch : Z; sc_CatalogVersion : string
}.
#[global] Instance eta_SelectionCandidate : Eta RouteSelectionCandidate := λ c,
  MkSelectionCandidate (sc_ChannelID c) (sc_RequestModel c) (sc_ActualModel c) (sc_LabSlug c) (sc_Priority c) (sc_Position c)
    (sc_Weight c) (sc_FilterReason c) (sc_HealthUsable c) (sc_ErrorRate c) (sc_ErrorRateKnown c) (sc_LatencyMS c) (sc_LatencyKnown c)
    (sc_TTFTMS c) (sc_TTFTKnown c) (sc_RateLimitHeadroom c) (sc_RateLimitKnown c) (sc_QuotaHeadroom c) (sc_QuotaKnown c)
    (sc_Sticky c) (sc_SnapshotVersion c) (sc_HealthEpoch c) (sc_CatalogVersion c).

Record RouteScoreCandidate := MkScoreCandidate {
  rs_ChannelID : Z; rs_Priority : Z; rs_Position : Z; rs_Weight : Z;
  rs_ErrorRate : float64; rs_ErrorRateKnown : bool; rs_LatencyMS : float64; rs_LatencyKnown : bool;
  rs_TTFTMS : float64; rs_TTFTKnown : bool; rs_RateLimitHeadroom : float64; rs_RateLimitKnown : bool;
  rs_QuotaHeadroom : float64; rs_QuotaKnown : bool; rs_Sticky : bool; rs_HealthUsable : bool
}.

Record RouteScoreBreakdown := MkBreakdown {
  rb_PriorityLayer : Z; rb_WeightScore : float64; rb_ErrorScore : float64; rb_ErrorKnown : bool;
  rb_LatencyScore : float64; rb_LatencyKnown : bool; rb_TTFTScore : float64; rb_TTFTKnown : bool;
  rb_RateLimitScore : float64; rb_RateLimitKnown : bool; rb_QuotaScore : float64; rb_QuotaKnown : bool;
  rb_CircuitBreakerScore : float64; rb_StickyScore : float64; rb_Total : float64
}.

Record ScoredRouteCandidate := MkScored { sr_Candidate : RouteScoreCandidate; sr_Breakdown : RouteScoreBreakdown }.

Record RouteDecisionCandidate := MkDecisionCandidate {
  dc_ChannelID : Z; dc_RequestModel : string; dc_FilterReason : string; dc_Priority : Z; dc_Position : Z; dc_Weight : Z;
  dc_SnapshotVersion : Z; dc_HealthEpoch : Z; dc_CatalogVersion : string; dc_Score : option RouteScoreBreakdown; dc_LeaseState : string
}.
#[global] Instance eta_DecisionCandidate : Eta RouteDecisionCandidate := λ c,
  MkDecisionCandidate (dc_ChannelID c) (dc_RequestModel c) (dc_FilterReason c) (dc_Priority c) (dc_Position c) (dc_Weight c)
    (dc_SnapshotVersion c) (dc_HealthEpoch c) (dc_CatalogVersion c) (dc_Score c) (dc_LeaseState c).

(** The selection fills in the candidates and the chosen channel; the relay loop
    writes the lease state, the counters and the final error. *)
Record RouteDecision := MkDecision {
  rd_RequestID : string; rd_RouteSource : RouteSource; rd_ConfigurationVersion : Z; rd_RequestModel : string;
  rd_ActualModel : string; rd_LabSlug : string; rd_CatalogVersion : string; rd_SnapshotVersion : Z;
  rd_ScoringMode : string; rd_DynamicScoreApplied : bool; rd_StaticPreferredChannelID : Z; rd_ScoredPreferredChannelID : Z;
  rd_Candidates : list RouteDecisionCandidate; rd_SelectedChannelID : Z; rd_RetryAttempt : Z; rd_SameResourceRetry : Z;
  rd_FailoverAttempt : Z; rd_LeaseState : string; rd_FinalError : string; rd_GeneratedAt : Z
}.
#[global] Instance eta_Decision : Eta RouteDecision := λ d,
  MkDecision (rd_RequestID d) (rd_RouteSource d) (rd_ConfigurationVersion d) (rd_RequestModel d) (rd_ActualModel d) (rd_LabSlug d)
    (rd_CatalogVersion d) (rd_SnapshotVersion d) (rd_ScoringMode d) (rd_DynamicScoreApplied d) (rd_StaticPreferredChannelID d)
    (rd_ScoredPreferredChannelID d) (rd_Candidates d) (rd_SelectedChannelID d) (rd_RetryAttempt d) (rd_SameResourceRetry d)
    (rd_FailoverAttempt d) (rd_LeaseState d) (rd_FinalError d) (rd_GeneratedAt d).

Definition NewRouteDecision (requestID : string) (source : RouteSource) (model : string) (configurationVersion nowMilli : Z) : RouteDecision :=
  MkDecision requestID source configurationVersion model "" "" "" 0 "" false 0 0 [] 0 0 0 0 "" "" nowMilli.

Definition SetFinalError (d : RouteDecision) (class : string) : RouteDecision :=
  if bool_decide (class = "") then d else d <| rd_FinalError := class |>.

Record RouteSelectionInput := MkSelectionInput {
  in_SourceInput : RouteSourceInput; in_ManualGroupEnabled : bool; in_ManualLoadBalance : bool;
  in_ManualCandidates : list RouteSelectionCandidate; in_AutoCandidates : list RouteSelectionCandidate;
  in_TopK : Z; in_ConfigurationVersion : Z; in_RequestID : string; in_RequestModel : string; in_DynamicScoringEnabled : bool
}.

(** ** Scores *)

Definition f64 (z : Z) : float64 := binary_normalize 53 1024 z 0 false.
Definition fadd : float64 → float64 → float64 := SFadd 53 1024.
Definition fsub : float64 → float64 → float64 := SFsub 53 1024.
Definition fdiv : float64 → float64 → float64 := SFdiv 53 1024.
Definition f_half : float64 := fdiv (f64 1) (f64 2).

Definition unknownRouteMetricScore : float64 := f_half.

Definition clamp01 (value : float64) : float64 :=
  if SFltb value (f64 0) then f64 0 else if SFltb (f64 1) value then f64 1 else value.

Definition inverseLatencyScore (latency : float64) : float64 :=
  if SFleb latency (f64 0) then f64 1 else clamp01 (fdiv (f64 1000) (fadd (f64 1000) latency)).

Definition scoreRouteCandidate (c : RouteScoreCandidate) (maxWeight : Z) : RouteScoreBreakdown :=
  let weightScore := fdiv (f64 (Z.max (rs_Weight c) 0)) (f64 maxWeight) in
  let errorScore := if rs_ErrorRateKnown c then clamp01 (fsub (f64 1) (rs_ErrorRate c)) else unknownRouteMetricScore in
  let latencyScore := if rs_LatencyKnown c then inverseLatencyScore (rs_LatencyMS c) else unknownRouteMetricScore in
  let ttftScore := if rs_TTFTKnown c then inverseLatencyScore (rs_TTFTMS c) else unknownRouteMetricScore in
  let rateLimitScore := if rs_RateLimitKnown c then clamp01 (rs_RateLimitHeadroom c) else unknownRouteMetricScore in
  let quotaScore := if rs_QuotaKnown c then clamp01 (rs_QuotaHeadroom c) else unknownRouteMetricScore in
  let stickyScore := if rs_Sticky c then f64 1 else f64 0 in
  MkBreakdown (rs_Priority c) weightScore errorScore (rs_ErrorRateKnown c) latencyScore (rs_LatencyKnown c) ttftScore (rs_TTFTKnown c)
    rateLimitScore (rs_RateLimitKnown c) quotaScore (rs_QuotaKnown c) (f64 1) stickyScore
    (fadd (fadd (fadd (fadd (fadd (fadd (fadd weightScore errorScore) latencyScore) ttftScore) rateLimitScore) quotaScore) (f64 1)) stickyScore).

Definition scored_less (left right : ScoredRouteCandidate) : bool :=
  let lt := rb_Total (sr_Breakdown left) in
  let rt := rb_Total (sr_Breakdown right) in
  if negb (SFeqb lt rt) then SFltb rt lt else rs_ChannelID (sr_Candidate left) <? rs_ChannelID (sr_Candidate right).

(** The loop that splits the usable candidates into layers; a priority is
    listed when its layer is new. *)
Definition add_to_layer (st : gmap Z (list RouteScoreCandidate) * list Z) (c : RouteScoreCandidate) : gmap Z (list RouteScoreCandidate) * list Z :=
  if negb (rs_HealthUsable c) then st else
  let '(layers, priorities) := st in
  (<[rs_Priority c := default [] (layers !! rs_Priority c) ++ [c]]> layers,
   match layers !! rs_Priority c with Some _ => priorities | None => priorities ++ [rs_Priority c] end).

(** The largest weight of a layer, at least 1. *)
Definition max_weight (layer : list RouteScoreCandidate) : Z :=
  let m := foldl (λ m c, if m <? rs_Weight c then rs_Weight c else m) 0 layer in
  if m <=? 0 then 1 else m.

Definition score_layer (layer : list RouteScoreCandidate) : list ScoredRouteCandidate :=
  SliceStable scored_less ((λ c, MkScored c (scoreRouteCandidate c (max_weight layer))) <$> layer).

Definition ScoreRouteCandidates (candidates : list RouteScoreCandidate) : list ScoredRouteCandidate :=
  let '(layers, priorities) := foldl add_to_layer (∅, []) candidates in
  let priorities := SliceStable (λ a b, b <? a) priorities in
  concat ((λ p, score_layer (default [] (layers !! p))) <$> priorities).

Definition TopKRouteCandidates (candidates : list RouteScoreCandidate) (k : Z) : list ScoredRouteCandidate :=
  let k := if (k <=? 0) || (3 <? k) then 3 else k in
  let scored := ScoreRouteCandidates candidates in
  if k <? Z.of_nat (length scored) then take (Z.to_nat k) scored else scored.

(** ** Orders without scores *)

Definition manual_less (loadBalance : bool) (a b : RouteScoreCandidate) : bool :=
  if negb (rs_Position a =? rs_Position b) then rs_Position a <? rs_Position b
  else if loadBalance && negb (rs_Weight a =? rs_Weight b) then rs_Weight b <? rs_Weight a
  else rs_ChannelID a <? rs_ChannelID b.

Definition OrderManualRouteCandidates (candidates : list RouteScoreCandidate) (loadBalance : bool) : list RouteScoreCandidate :=
  SliceStable (manual_less loadBalance) candidates.

Definition priority_less (a b : RouteScoreCandidate) : bool :=
  if negb (rs_Priority a =? rs_Priority b) then rs_Priority b <? rs_Priority a else rs_ChannelID a <? rs_ChannelID b.

Definition StaticPriorityLayer (candidates : list RouteScoreCandidate) : list RouteScoreCandidate :=
  SliceStable priority_less (filter (λ c, rs_HealthUsable c = true) candidates).

(** ** The weighted first attempt of a manual group *)

Definition u64 (z : Z) : Z := z mod 18446744073709551616.

(** [fnv.New64a] over the bytes of a string. *)
Definition fnv64a (s : string) : Z :=
  foldl (λ h b, u64 (Z.lxor h (Z.of_N (Ascii.N_of_ascii b)) * 1099511628211)) 14695981039346656037 (String.list_ascii_of_string s).

Fixpoint weighted_scan (bucket accumulated : Z) (index : nat) (candidates : list RouteScoreCandidate) : nat :=
  match candidates with
  | [] => 0
  | c :: candidates =>
      if rs_Weight c <=? 0 then weighted_scan bucket accumulated (S index) candidates else
      let accumulated := u64 (accumulated + rs_Weight c) in
      if bucket <? accumulated then index else weighted_scan bucket accumulated (S index) candidates
  end.

Definition weightedManualCandidateIndex (candidates : list RouteScoreCandidate) (requestID : string) : nat :=
  if (Z.of_nat (length candidates) <? 2) || bool_decide (requestID = "") then 0%nat else
  let total := foldl (λ t c, if 0 <? rs_Weight c then u64 (t + rs_Weight c) else t) 0 candidates in
  if total =? 0 then Z.to_nat (fnv64a requestID mod Z.of_nat (length candidates))
  else weighted_scan (fnv64a requestID mod total) 0 0 candidates.

(** The length of the first position layer of a non-empty list. *)
Fixpoint first_layer (position : Z) (candidates : list RouteScoreCandidate) : nat :=
  match candidates with
  | c :: candidates => if rs_Position c =? position then S (first_layer position candidates) else 0%nat
  | [] => 0%nat
  end.

Definition orderManualRouteCandidatesForSelection (candidates : list RouteScoreCandidate) (loadBalance : bool) (requestID : string) : list RouteScoreCandidate :=
  let ordered := OrderManualRouteCandidates candidates loadBalance in
  if negb loadBalance || (Z.of_nat (length ordered) <? 2) || bool_decide (requestID = "") then ordered else
  match ordered with
  | [] => []
  | first :: rest =>
      let firstLayerEnd := S (first_layer (rs_Position first) rest) in
      if (firstLayerEnd <? 2)%nat then ordered else
      let selectedIndex := weightedManualCandidateIndex (take firstLayerEnd ordered) requestID in
      match ordered !! selectedIndex with
      | Some selected => selected :: take selectedIndex ordered ++ drop (S selectedIndex) ordered
      | None => ordered
      end
  end.

(** ** Selection *)

Definition RouteCandidateFilterHealthUnavailable : string := "health_unavailable".
Definition RouteLeaseStateNotAttempted : string := "not_attempted".
Definition ErrRouteSelectionUnavailable : error := ErrNew "no eligible route candidate".

Definition normalizeRouteSelectionCandidates (candidates : list RouteSelectionCandidate) : list RouteSelectionCandidate :=
  (λ c, if bool_decide (sc_FilterReason c = "") && negb (sc_HealthUsable c)
        then c <| sc_FilterReason := RouteCandidateFilterHealthUnavailable |> else c) <$> candidates.

Fixpoint eligible_from (seen : gset Z) (candidates : list RouteSelectionCandidate) : list RouteSelectionCandidate :=
  match candidates with
  | [] => []
  | c :: candidates =>
      if (sc_ChannelID c <=? 0) || negb (bool_decide (sc_FilterReason c = "")) || negb (sc_HealthUsable c) then eligible_from seen candidates
      else if bool_decide (sc_ChannelID c ∈ seen) then eligible_from seen candidates
      else c :: eligible_from ({[ sc_ChannelID c ]} ∪ seen) candidates
  end.
Definition eligibleRouteSelectionCandidates (candidates : list RouteSelectionCandidate) : list RouteSelectionCandidate :=
  eligible_from ∅ candidates.

Definition normalizedRouteTopK (k : Z) : Z := if (k <=? 0) || (3 <? k) then 3 else k.

(** One round of the loop over the candidates; [seen] are the channels of the
    decision's candidates. *)
Definition append_decision_candidate (scores : gmap Z RouteScoreBreakdown) (ds : list RouteDecisionCandidate) (c : RouteSelectionCandidate) : list RouteDecisionCandidate :=
  if sc_ChannelID c <=? 0 then ds
  else if existsb (λ d, dc_ChannelID d =? sc_ChannelID c) ds
  then (λ d, if (dc_ChannelID d =? sc_ChannelID c) && bool_decide (dc_FilterReason d = "") then d <| dc_FilterReason := sc_FilterReason c |> else d) <$> ds
  else ds ++ [MkDecisionCandidate (sc_ChannelID c) (sc_RequestModel c) (sc_FilterReason c) (sc_Priority c) (sc_Position c) (sc_Weight c)
                (sc_SnapshotVersion c) (sc_HealthEpoch c) (sc_CatalogVersion c) (scores !! sc_ChannelID c) RouteLeaseStateNotAttempted].

Definition appendRouteDecisionCandidatesWithScores (decision : RouteDecision) (candidates : list RouteSelectionCandidate)
    (scores : list ScoredRouteCandidate) : RouteDecision :=
  let scoresByChannel := foldl (λ m s, <[rs_ChannelID (sr_Candidate s) := sr_Breakdown s]> m) ∅ scores in
  decision <| rd_Candidates ::= λ ds, foldl (append_decision_candidate scoresByChannel) ds candidates |>.

Definition appendRouteDecisionCandidates (decision : RouteDecision) (candidates : list RouteSelectionCandidate) : RouteDecision :=
  appendRouteDecisionCandidatesWithScores decision candidates [].

Definition selection_less (a b : RouteSelectionCandidate) : bool :=
  if negb (sc_Priority a =? sc_Priority b) then sc_Priority b <? sc_Priority a else sc_ChannelID a <? sc_ChannelID b.
Definition SortRouteSelectionCandidates (candidates : list RouteSelectionCandidate) : list RouteSelectionCandidate :=
  SliceStable selection_less candidates.

(** The score candidate with only the static fields. *)
Definition f_zero : float64 := f64 0.
Definition static_candidate (c : RouteSelectionCandidate) : RouteScoreCandidate :=
  MkScoreCandidate (sc_ChannelID c) (sc_Priority c) (sc_Position c) (sc_Weight c) f_zero false f_zero false f_zero false f_zero false
    f_zero false false (sc_HealthUsable c).
Definition scored_candidate (c : RouteSelectionCandidate) : RouteScoreCandidate :=
  MkScoreCandidate (sc_ChannelID c) (sc_Priority c) (sc_Position c) (sc_Weight c) (sc_ErrorRate c) (sc_ErrorRateKnown c)
    (sc_LatencyMS c) (sc_LatencyKnown c) (sc_TTFTMS c) (sc_TTFTKnown c) (sc_RateLimitHeadroom c) (sc_RateLimitKnown c)
    (sc_QuotaHeadroom c) (sc_QuotaKnown c) (sc_Sticky c) (sc_HealthUsable c).

(** The map [byID]. *)
Definition by_channel (eligible : list RouteSelectionCandidate) : gmap Z RouteSelectionCandidate :=
  foldl (λ m c, <[sc_ChannelID c := c]> m) ∅ eligible.

(** [byID[id]], the zero value when there is none. *)
Definition zero_candidate : RouteSelectionCandidate :=
  MkSelectionCandidate 0 "" "" "" 0 0 0 "" false f_zero false f_zero false f_zero false f_zero false f_zero false false 0 0 "".
Definition candidate_of (eligible : list RouteSelectionCandidate) (id : Z) : RouteSelectionCandidate :=
  default zero_candidate (by_channel eligible !! id).

(** The candidates in the order they are tried, and the decision so far. *)
Definition select_manual (input : RouteSelectionInput) (eligible : list RouteSelectionCandidate) (decision : RouteDecision)
    : RouteDecision * list RouteSelectionCandidate :=
  let ordered := orderManualRouteCandidatesForSelection (static_candidate <$> eligible) (in_ManualLoadBalance input) (in_RequestID input) in
  (decision, (λ c, candidate_of eligible (rs_ChannelID c)) <$> ordered).

Definition select_auto (input : RouteSelectionInput) (candidates eligible : list RouteSelectionCandidate) (decision : RouteDecision)
    : RouteDecision * list RouteSelectionCandidate :=
  let staticCandidates := StaticPriorityLayer (static_candidate <$> eligible) in
  let decision := decision <| rd_ScoringMode := "off" |> in
  let decision := match staticCandidates with c :: _ => decision <| rd_StaticPreferredChannelID := rs_ChannelID c |> | [] => decision end in
  let '(decision, ordered) :=
    if in_DynamicScoringEnabled input then
      let scoredCandidates := ScoreRouteCandidates (scored_candidate <$> eligible) in
      let decision := match scoredCandidates with s :: _ => decision <| rd_ScoredPreferredChannelID := rs_ChannelID (sr_Candidate s) |> | [] => decision end in
      let decision := decision <| rd_ScoringMode := "live" |> <| rd_DynamicScoreApplied := true |> in
      (appendRouteDecisionCandidatesWithScores decision candidates scoredCandidates, rs_ChannelID ∘ sr_Candidate <$> scoredCandidates)
    else (appendRouteDecisionCandidates decision candidates, rs_ChannelID <$> staticCandidates) in
  (decision, candidate_of eligible <$> take (Z.to_nat (normalizedRouteTopK (in_TopK input))) ordered).

(** The end of the function: the decision's candidates and its first one. *)
Definition finish_selection (candidates : list RouteSelectionCandidate) (decision : RouteDecision) (chosen : list RouteSelectionCandidate)
    : RouteDecision * list RouteSelectionCandidate * option error :=
  match chosen with
  | [] => (appendRouteDecisionCandidates decision candidates, [], Some ErrRouteSelectionUnavailable)
  | first :: _ =>
      let decision := appendRouteDecisionCandidates decision candidates in
      let decision := if bool_decide (rd_Candidates decision = []) then
        decision <| rd_Candidates := (λ c, MkDecisionCandidate (sc_ChannelID c) "" "" (sc_Priority c) (sc_Position c) (sc_Weight c)
          (sc_SnapshotVersion c) (sc_HealthEpoch c) (sc_CatalogVersion c) None RouteLeaseStateNotAttempted) <$> chosen |> else decision in
      (decision <| rd_SelectedChannelID := sc_ChannelID first |> <| rd_ActualModel := sc_ActualModel first |>
         <| rd_LabSlug := sc_LabSlug first |> <| rd_CatalogVersion := sc_CatalogVersion first |>
         <| rd_SnapshotVersion := sc_SnapshotVersion first |>, chosen, None)
  end.

(** The result with its error: the code returns both. *)
Definition SelectTokenRoute (nowMilli : Z) (input : RouteSelectionInput) : RouteDecision * list RouteSelectionCandidate * option error :=
  let source := ResolveRouteSource (in_SourceInput input) in
  let decision := NewRouteDecision (in_RequestID input) source (in_RequestModel input) (in_ConfigurationVersion input) nowMilli in
  if bool_decide (source = RouteSourceUnavailable) then (decision, [], Some ErrRouteSelectionUnavailable) else
  if bool_decide (source = RouteSourceManual) && negb (in_ManualGroupEnabled input) then (decision, [], Some ErrRouteSelectionUnavailable) else
  let candidates := normalizeRouteSelectionCandidates
    (if bool_decide (source = RouteSourceManual) then in_ManualCandidates input else in_AutoCandidates input) in
  let eligible := eligibleRouteSelectionCandidates candidates in
  if bool_decide (eligible = []) then (appendRouteDecisionCandidates decision candidates, [], Some ErrRouteSelectionUnavailable) else
  let '(decision, chosen) :=
    if bool_decide (source = RouteSourceManual) then select_manual input eligible decision
    else select_auto input candidates eligible decision in
  finish_selection candidates decision chosen.

(** ** Sorting *)

Section sort_facts.
Context {A : Type} (less : A → A → bool).

Lemma sift_perm x p : sift less x p ≡ₚ x :: p.
Proof using Type. induction p as [|y p IH]; cbn; [done|]. case_match; [|done]. rewrite IH. apply Permutation_swap. Qed.

Lemma SliceStable_perm l : SliceStable less l ≡ₚ l.
Proof using Type.
  unfold SliceStable. rewrite reverse_Permutation. cut (∀ p, foldl (λ p x, sift less x p) p l ≡ₚ l ++ p).
  { intros H. rewrite H. by rewrite app_nil_r. }
  induction l as [|x l IH]; intros p; cbn; [done|]. rewrite IH, sift_perm. by rewrite Permutation_middle.
Qed.

(** A strict weak order. *)
Hypothesis less_asym : ∀ a b, less a b = true → less b a = false.
Hypothesis less_cotrans : ∀ a b c, less a b = false → less b c = false → less a c = false.

Lemma sift_sorted x p : StronglySorted (λ a b, less a b = false) p → StronglySorted (λ a b, less a b = false) (sift less x p).
Proof using less_asym less_cotrans.
  induction p as [|y p IH]; cbn; [repeat constructor|]. intros [Hp Hy]%StronglySorted_inv. destruct (less x y) eqn:E.
  - constructor; [by apply IH|]. rewrite sift_perm. constructor; [by apply less_asym|done].
  - constructor; [by constructor|]. constructor; [done|]. eapply Forall_impl; [exact Hy|]. intros z Hz. by eapply less_cotrans.
Qed.

Lemma sorted_reverse (R : A → A → Prop) l : StronglySorted R l → StronglySorted (λ a b, R b a) (reverse l).
Proof using Type.
  induction 1 as [|x l _ IH Hx]; [rewrite reverse_nil; constructor|]. rewrite reverse_cons. clear -IH Hx.
  assert (Forall (λ b, R x b) (reverse l)) as Hr by by rewrite reverse_Permutation. clear Hx.
  induction IH as [|y r _ IH Hy]; cbn; [repeat constructor|]. apply Forall_cons in Hr as [Hxy Hr].
  constructor; [by apply IH|]. apply Forall_app. by repeat constructor.
Qed.

Lemma SliceStable_sorted l : StronglySorted (λ a b, less b a = false) (SliceStable less l).
Proof using less_asym less_cotrans.
  apply (sorted_reverse (λ a b, less a b = false)).
  cut (∀ p, StronglySorted (λ a b, less a b = false) p → StronglySorted (λ a b, less a b = false) (foldl (λ p x, sift less x p) p l)).
  { intros H. apply H. constructor. }
  induction l as [|x l IH]; intros p Hp; cbn; [done|]. by apply IH, sift_sorted.
Qed.
End sort_facts.

Lemma sorted_fmap {A B} (R : A → A → Prop) (R' : B → B → Prop) (f : A → B) l :
  (∀ x y, x ∈ l → y ∈ l → R x y → R' (f x) (f y)) → StronglySorted R l → StronglySorted R' (f <$> l).
Proof.
  induction l as [|x l IH]; intros Hf Hs; cbn; [constructor|]. apply StronglySorted_inv in Hs as [Hs Hx]. constructor.
  - apply IH; [|done]. intros a b Ha Hb. apply Hf; by right.
  - rewrite Forall_fmap. rewrite Forall_forall in Hx |- *. intros y Hy. apply Hf; [by left|by right|by apply Hx].
Qed.

Lemma sorted_impl {A} (R R' : A → A → Prop) l : (∀ x y, R x y → R' x y) → StronglySorted R l → StronglySorted R' l.
Proof. intros HR. rewrite <- (list_fmap_id l) at 2. apply sorted_fmap. auto. Qed.

Lemma sorted_take {A} (R : A → A → Prop) n l : StronglySorted R l → StronglySorted R (take n l).
Proof.
  revert n. induction l as [|x l IH]; intros [|n] Hs; cbn; try constructor; apply StronglySorted_inv in Hs as [Hs Hx].
  - by apply IH.
  - by apply Forall_take.
Qed.

Lemma sorted_drop {A} (R : A → A → Prop) n l : StronglySorted R l → StronglySorted R (drop n l).
Proof. revert n. induction l as [|x l IH]; intros [|n] Hs; cbn; try done. apply IH. by apply StronglySorted_inv in Hs as [? _]. Qed.

(** ** Orders *)

Lemma priority_less_asym a b : priority_less a b = true → priority_less b a = false.
Proof. unfold priority_less. repeat case_match; lia. Qed.
Lemma priority_less_cotrans a b c : priority_less a b = false → priority_less b c = false → priority_less a c = false.
Proof. unfold priority_less. repeat case_match; lia. Qed.
Lemma manual_less_asym lb a b : manual_less lb a b = true → manual_less lb b a = false.
Proof. unfold manual_less. destruct lb; cbn; repeat case_match; lia. Qed.
Lemma manual_less_cotrans lb a b c : manual_less lb a b = false → manual_less lb b c = false → manual_less lb a c = false.
Proof. unfold manual_less. destruct lb; cbn; repeat case_match; lia. Qed.

Definition by_priority (a b : RouteScoreCandidate) : Prop := rs_Priority b <= rs_Priority a.
Definition by_position (a b : RouteScoreCandidate) : Prop := rs_Position a <= rs_Position b.

Lemma StaticPriorityLayer_sorted l : StronglySorted by_priority (StaticPriorityLayer l).
Proof.
  unfold StaticPriorityLayer. eapply sorted_impl; [|apply SliceStable_sorted; [apply priority_less_asym|apply priority_less_cotrans]].
  intros a b. unfold priority_less, by_priority. cbv beta. case_match; lia.
Qed.

Lemma OrderManual_sorted l lb : StronglySorted by_position (OrderManualRouteCandidates l lb).
Proof.
  unfold OrderManualRouteCandidates. eapply sorted_impl; [|apply SliceStable_sorted; [apply manual_less_asym|apply manual_less_cotrans]].
  intros a b. unfold manual_less, by_position. cbv beta. case_match; lia.
Qed.

(** *** The weighted choice stays inside the first layer *)

Lemma weighted_scan_range bucket acc i cs : (weighted_scan bucket acc i cs < i + length cs ∨ weighted_scan bucket acc i cs = 0)%nat.
Proof.
  revert acc i. induction cs as [|c cs IH]; intros acc i; cbn; [lia|].
  case_match; [destruct (IH acc (S i)); lia|]. case_match; [lia|]. destruct (IH (u64 (acc + rs_Weight c)) (S i)); lia.
Qed.

Lemma weighted_index_range cs r : cs ≠ [] → (weightedManualCandidateIndex cs r < length cs)%nat.
Proof.
  intros Hne. assert (0 < length cs)%nat by (destruct cs; [done|cbn; lia]). unfold weightedManualCandidateIndex.
  case_match; [lia|]. case_match.
  - apply Nat2Z.inj_lt. rewrite Z2Nat.id; [apply Z.mod_pos_bound; lia|]. apply Z.mod_pos_bound. lia.
  - match goal with |- (weighted_scan ?b ?a ?i _ < _)%nat => destruct (weighted_scan_range b a i cs); lia end.
Qed.

Lemma first_layer_spec p l :
  (first_layer p l <= length l)%nat ∧ Forall (λ c, rs_Position c = p) (take (first_layer p l) l).
Proof.
  induction l as [|c l [IH1 IH2]]; cbn; [by split; [lia|]|]. destruct (Z.eqb_spec (rs_Position c) p); cbn; [|by split; [lia|]].
  split; [lia|]. by constructor.
Qed.

(** Moving an element to the front. *)
Lemma to_front_perm {A} (l : list A) i x : l !! i = Some x → x :: take i l ++ drop (S i) l ≡ₚ l.
Proof. intros E. rewrite <- (take_drop_middle l i x E) at 3. apply Permutation_middle. Qed.

Lemma order_for_selection_perm l lb r : orderManualRouteCandidatesForSelection l lb r ≡ₚ l.
Proof.
  unfold orderManualRouteCandidatesForSelection.
  assert (OrderManualRouteCandidates l lb ≡ₚ l) as Hp by apply SliceStable_perm.
  case_match; [done|]. destruct (OrderManualRouteCandidates l lb) as [|c rest]; [done|]. case_match; [done|].
  destruct ((c :: rest) !! _) as [x|] eqn:E; [|done]. rewrite to_front_perm; done.
Qed.

(** Two layers: the first on one position, the second sorted and behind it. *)
Lemma layers_sorted p l1 l2 :
  Forall (λ c, rs_Position c = p) l1 → StronglySorted by_position l2 → Forall (λ c, p <= rs_Position c) l2 →
  StronglySorted by_position (l1 ++ l2).
Proof.
  intros H1 H2 H3. induction H1 as [|c l1 Hc H1 IH]; cbn; [done|]. constructor; [done|]. apply Forall_app. unfold by_position. split.
  - eapply Forall_impl; [exact H1|]. cbn. lia.
  - eapply Forall_impl; [exact H3|]. cbn. lia.
Qed.

Lemma order_for_selection_sorted l lb r : StronglySorted by_position (orderManualRouteCandidatesForSelection l lb r).
Proof.
  unfold orderManualRouteCandidatesForSelection. pose proof (OrderManual_sorted l lb) as Hs.
  case_match; [done|]. destruct (OrderManualRouteCandidates l lb) as [|c rest]; [done|]. case_match; [done|].
  set (n := S (first_layer (rs_Position c) rest)). set (i := weightedManualCandidateIndex (take n (c :: rest)) r).
  destruct (first_layer_spec (rs_Position c) rest) as [Hlen Hpos].
  assert (length (take n (c :: rest)) = n) as Hn by (rewrite length_take; cbn; lia).
  assert (i < n)%nat as Hi. { rewrite <- Hn. apply weighted_index_range. intros E. by rewrite E in Hn. }
  assert (Forall (λ x, rs_Position x = rs_Position c) (take n (c :: rest))) as Hl1 by (by constructor).
  destruct ((c :: rest) !! i) as [x|] eqn:E; [|done].
  rewrite <- (take_drop n (c :: rest)) in E |- *. rewrite lookup_app_l in E by lia.
  rewrite take_app_le, drop_app_le by lia. rewrite app_comm_cons, app_assoc. apply layers_sorted with (rs_Position c).
  - by rewrite <- app_comm_cons, (to_front_perm _ i x E).
  - by apply sorted_drop.
  - apply StronglySorted_inv in Hs as [_ Hc]. cbn [drop n]. apply Forall_drop. exact Hc.
Qed.

(** ** Scored order *)

Definition usable_at (p : Z) (c : RouteScoreCandidate) : Prop := rs_HealthUsable c = true ∧ rs_Priority c = p.

(** What the loop has collected. *)
Lemma layers_spec l :
  let '(layers, ps) := foldl add_to_layer (∅, []) l in
  (∀ p, default [] (layers !! p) = filter (usable_at p) l) ∧ NoDup ps ∧ (∀ p, p ∈ ps ↔ is_Some (layers !! p)) ∧
  (∀ p, is_Some (layers !! p) ↔ Exists (usable_at p) l).
Proof.
  induction l as [|c l IH] using rev_ind.
  { cbn. split_and!; [done|constructor| |]; intros p; rewrite lookup_empty.
    - split; [by intros ?%not_elem_of_nil|by intros []].
    - rewrite Exists_nil. split; [by intros []|done]. }
  rewrite foldl_app. destruct (foldl add_to_layer (∅, []) l) as [layers ps]. destruct IH as (H1 & H2 & H3 & H4). cbn. unfold add_to_layer.
  destruct (rs_HealthUsable c) eqn:Eu; cbn.
  2:{ assert (∀ p, ¬ usable_at p c) as Hno by (intros p []; congruence). split_and!; [|done|done|]; intros p.
    - rewrite filter_app, H1, (filter_cons_False (usable_at p)) by done. by rewrite app_nil_r.
    - rewrite H4, Exists_app, Exists_cons, Exists_nil. specialize (Hno p). tauto. }
  assert (∀ p, usable_at p c ↔ rs_Priority c = p) as Hu by (intros p; unfold usable_at; tauto). split_and!.
  - intros p. rewrite filter_app, lookup_insert. case_decide as Hp.
    + subst. rewrite (filter_cons_True (usable_at _)) by done. cbn. by rewrite H1.
    + rewrite (filter_cons_False (usable_at p)) by (by rewrite Hu). by rewrite app_nil_r.
  - destruct (layers !! rs_Priority c) eqn:E; [done|]. apply NoDup_app. split_and!; [done| |apply NoDup_singleton].
    intros p Hp ->%list_elem_of_singleton. apply H3 in Hp as [? ?]. congruence.
  - intros p. rewrite lookup_insert_is_Some. destruct (layers !! rs_Priority c) eqn:E.
    + rewrite H3. split; [intros Hs; destruct (decide (rs_Priority c = p)); auto|]. intros [<-|[_ ?]]; [by eexists|done].
    + rewrite elem_of_app, list_elem_of_singleton, H3. destruct (decide (rs_Priority c = p)); [|split; [|intros [|[]]]; tauto || intuition congruence].
      subst. tauto.
  - intros p. rewrite lookup_insert_is_Some, H4, Exists_app, Exists_cons, Exists_nil, Hu.
    destruct (decide (rs_Priority c = p)); tauto.
Qed.

Lemma concat_layers (l : list RouteScoreCandidate) ps :
  NoDup ps → Forall (λ c, rs_Priority c ∈ ps) l → concat ((λ p, filter (λ c, rs_Priority c = p) l) <$> ps) ≡ₚ l.
Proof.
  intros Hnd. revert l. induction Hnd as [|p ps Hp Hnd IH]; intros l Hl; cbn.
  { destruct l as [|c l]; [done|]. by apply Forall_cons in Hl as [?%not_elem_of_nil _]. }
  etrans; [|apply (filter_app_complement (λ c, rs_Priority c = p))]. apply Permutation_app; [done|].
  etrans; [|apply IH].
  - replace ((λ q, filter (λ c, rs_Priority c = q) (filter (λ c, ¬ rs_Priority c = p) l)) <$> ps) with ((λ q, filter (λ c, rs_Priority c = q) l) <$> ps); [done|].
    apply list_fmap_ext. intros i q Hq. symmetry. apply list_filter_filter_l. intros c -> ->.
    by apply Hp, (list_elem_of_lookup_2 _ i).
  - rewrite Forall_forall in Hl |- *. intros c [Hc Hin]%list_elem_of_filter. specialize (Hl c Hin).
    apply elem_of_cons in Hl as [?|?]; done.
Qed.

Lemma score_layer_perm layer : sr_Candidate <$> score_layer layer ≡ₚ layer.
Proof. unfold score_layer. rewrite SliceStable_perm, <- list_fmap_compose. cbn. by rewrite list_fmap_id. Qed.

Lemma fmap_concat {A B} (f : A → B) (ls : list (list A)) : f <$> concat ls = concat ((λ l : list A, f <$> l) <$> ls).
Proof. induction ls as [|l ls IH]; cbn; [done|]. rewrite fmap_app. by f_equal. Qed.

Lemma concat_perm {A B} (f g : A → list B) l : (∀ x, f x ≡ₚ g x) → concat (f <$> l) ≡ₚ concat (g <$> l).
Proof. intros Hfg. induction l as [|x l IH]; cbn; [done|]. by apply Permutation_app. Qed.

Lemma ScoreRouteCandidates_perm l :
  sr_Candidate <$> ScoreRouteCandidates l ≡ₚ filter (λ c, rs_HealthUsable c = true) l.
Proof.
  unfold ScoreRouteCandidates. pose proof (layers_spec l) as Hl. destruct (foldl add_to_layer (∅, []) l) as [layers ps].
  destruct Hl as (H1 & H2 & H3 & H4). rewrite fmap_concat, <- list_fmap_compose.
  etrans; [apply (concat_perm _ (λ p, filter (λ c, rs_Priority c = p) (filter (λ c, rs_HealthUsable c = true) l)))|].
  - intros p. cbn. rewrite score_layer_perm, H1, list_filter_filter.
    match goal with |- ?a ≡ₚ ?b => assert (a = b) as ->; [|done] end. apply list_filter_iff.
    intros c. unfold usable_at. tauto.
  - apply concat_layers.
    + rewrite SliceStable_perm. done.
    + rewrite Forall_forall. intros c [Hu Hc]%list_elem_of_filter. rewrite SliceStable_perm, H3, H4.
      apply Exists_exists. by exists c.
Qed.

Lemma concat_sorted (f : Z → list RouteScoreCandidate) ps :
  StronglySorted (λ a b, b <= a) ps → (∀ p, Forall (λ c, rs_Priority c = p) (f p)) → StronglySorted by_priority (concat (f <$> ps)).
Proof.
  intros Hs Hf. induction Hs as [|p ps _ IH Hp]; cbn; [constructor|].
  assert (Forall (λ c, rs_Priority c <= p) (concat (f <$> ps))) as Hrest.
  { rewrite Forall_concat, Forall_fmap. eapply Forall_impl; [exact Hp|]. intros q Hq. cbn in *. eapply Forall_impl; [apply Hf|]. cbn. lia. }
  specialize (Hf p). induction Hf as [|c l Hc Hl IHl]; cbn; [done|]. constructor; [done|]. apply Forall_app. unfold by_priority. split.
  - eapply Forall_impl; [exact Hl|]. cbn. lia.
  - eapply Forall_impl; [exact Hrest|]. cbn. lia.
Qed.

Lemma ScoreRouteCandidates_sorted l : StronglySorted by_priority (sr_Candidate <$> ScoreRouteCandidates l).
Proof.
  unfold ScoreRouteCandidates. pose proof (layers_spec l) as Hl. destruct (foldl add_to_layer (∅, []) l) as [layers ps].
  destruct Hl as (H1 & _). rewrite fmap_concat, <- list_fmap_compose. apply concat_sorted.
  - eapply sorted_impl; [|apply SliceStable_sorted]; cbn; intros; lia.
  - intros p. cbn. rewrite score_layer_perm, H1. rewrite Forall_forall. by intros c [[_ ?] _]%list_elem_of_filter.
Qed.

(** ** Eligible candidates *)

Definition eligible (c : RouteSelectionCandidate) : Prop :=
  0 < sc_ChannelID c ∧ sc_FilterReason c = EmptyString ∧ sc_HealthUsable c = true.

Lemma eligible_from_spec seen l :
  Forall eligible (eligible_from seen l) ∧ NoDup (sc_ChannelID <$> eligible_from seen l) ∧ eligible_from seen l ⊆ l ∧
  (∀ c, c ∈ eligible_from seen l → sc_ChannelID c ∉ seen) ∧
  (∀ c, c ∈ l → eligible c → sc_ChannelID c ∈ seen ∨ sc_ChannelID c ∈ sc_ChannelID <$> eligible_from seen l).
Proof.
  revert seen. induction l as [|c l IH]; intros seen; cbn [eligible_from].
  { split_and!; [constructor|constructor|done|by intros c ?%not_elem_of_nil|by intros c ?%not_elem_of_nil]. }
  destruct ((sc_ChannelID c <=? 0) || negb (bool_decide (sc_FilterReason c = EmptyString)) || negb (sc_HealthUsable c)) eqn:Eb.
  { destruct (IH seen) as (H1 & H2 & H3 & H4 & H5). split_and!; [done|done|set_solver|done|].
    intros x [->|Hx]%elem_of_cons Hel; [|by apply H5]. exfalso. destruct Hel as (? & Hf & Hu).
    rewrite Hf, Hu, bool_decide_eq_true_2 in Eb by done. cbn in Eb. rewrite !orb_false_r in Eb. lia. }
  apply orb_false_iff in Eb as [[Hid%Z.leb_gt Hf%negb_false_iff%bool_decide_eq_true]%orb_false_iff Hu%negb_false_iff].
  case_bool_decide as Hs.
  { destruct (IH seen) as (H1 & H2 & H3 & H4 & H5). split_and!; [done|done|set_solver|done|].
    intros x [->|Hx]%elem_of_cons Hel; [by left|by apply H5]. }
  destruct (IH ({[sc_ChannelID c]} ∪ seen)) as (H1 & H2 & H3 & H4 & H5). split_and!.
  - constructor; [done|done].
  - cbn. apply NoDup_cons. split; [|done]. intros (x & Hx & Hin)%list_elem_of_fmap. apply H4 in Hin. rewrite <- Hx in Hin. set_solver.
  - set_solver.
  - intros x [->|Hx]%elem_of_cons; [done|]. apply H4 in Hx. set_solver.
  - intros x [->|Hx]%elem_of_cons Hel; [right; by left|]. destruct (H5 x Hx Hel) as [Hin|Hin]; [|right; by right].
    apply elem_of_union in Hin as [->%elem_of_singleton|Hin]; [right; by left|by left].
Qed.

Lemma normalize_eligible l c : eligible c → c ∈ normalizeRouteSelectionCandidates l ↔ c ∈ l.
Proof.
  intros (Hid & Hf & Hu). unfold normalizeRouteSelectionCandidates. rewrite list_elem_of_fmap. split.
  - intros (c0 & E & Hin). destruct (bool_decide (sc_FilterReason c0 = EmptyString) && negb (sc_HealthUsable c0)); [|by subst].
    rewrite E in Hf. discriminate.
  - intros Hin. exists c. split; [|done]. by rewrite Hu, andb_false_r.
Qed.

(** *** [byID] finds every eligible candidate *)

Lemma by_channel_lookup l c : NoDup (sc_ChannelID <$> l) → c ∈ l → by_channel l !! sc_ChannelID c = Some c.
Proof.
  unfold by_channel. generalize (∅ : gmap Z RouteSelectionCandidate). intros m Hnd Hin.
  cut (∀ (m : gmap Z RouteSelectionCandidate) id, foldl (λ m c, <[sc_ChannelID c := c]> m) m l !! id =
    match list_find (λ c, sc_ChannelID c = id) l with Some (_, c) => Some c | None => m !! id end).
  { intros ->. destruct (list_find _ l) as [[i x]|] eqn:E.
    - apply list_find_Some in E as (Hi & Hx & _). f_equal. apply list_elem_of_lookup in Hin as [j Hj].
      assert (i = j) as ->; [|congruence]. eapply NoDup_lookup; [exact Hnd| |]; rewrite list_lookup_fmap; [rewrite Hi|rewrite Hj]; cbn; by f_equal.
    - apply list_find_None in E. rewrite Forall_forall in E. by destruct (E c Hin). }
  clear m Hin. induction l as [|x l IH]; intros m id; cbn; [done|]. apply NoDup_cons in Hnd as [Hx Hnd].
  rewrite (IH Hnd). case_decide as Hid; cbn.
  - destruct (list_find _ l) as [[i y]|] eqn:E; cbn; [|by rewrite Hid, lookup_insert_eq].
    apply list_find_Some in E as (Hi & Hy & _). exfalso. apply Hx. rewrite Hid, <- Hy.
    apply list_elem_of_fmap. exists y. split; [done|by eapply list_elem_of_lookup_2].
  - destruct (list_find _ l) as [[i y]|]; cbn; [done|]. by rewrite lookup_insert_ne.
Qed.

Section chosen.
Context (el : list RouteSelectionCandidate) (g : RouteSelectionCandidate → RouteScoreCandidate) (o : list RouteScoreCandidate).
Hypothesis Hg : ∀ c, rs_ChannelID (g c) = sc_ChannelID c ∧ rs_Priority (g c) = sc_Priority c ∧ rs_Position (g c) = sc_Position c.
Hypothesis Hnd : NoDup (sc_ChannelID <$> el).
Hypothesis Ho : o ≡ₚ g <$> el.

Lemma candidate_back x : x ∈ o → ∃ c, x = g c ∧ c ∈ el ∧ candidate_of el (rs_ChannelID x) = c.
Proof using Hg Hnd Ho.
  rewrite Ho. intros (c & -> & Hc)%list_elem_of_fmap. exists c. split_and!; [done|done|].
  destruct (Hg c) as (-> & _). unfold candidate_of. by rewrite by_channel_lookup.
Qed.

Lemma chosen_perm : candidate_of el <$> (rs_ChannelID <$> o) ≡ₚ el.
Proof using Hg Hnd Ho.
  rewrite Ho, <- !list_fmap_compose. transitivity (id <$> el); [|by rewrite list_fmap_id].
  match goal with |- ?a ≡ₚ ?b => assert (a = b) as ->; [|done] end. apply list_fmap_ext. intros i c Hi. cbn.
  destruct (Hg c) as (-> & _). unfold candidate_of. rewrite by_channel_lookup; [done|done|by eapply list_elem_of_lookup_2].
Qed.

Lemma chosen_sorted (R : RouteScoreCandidate → RouteScoreCandidate → Prop) (R' : RouteSelectionCandidate → RouteSelectionCandidate → Prop) :
  (∀ a b, R (g a) (g b) → R' a b) → StronglySorted R o → StronglySorted R' (candidate_of el <$> (rs_ChannelID <$> o)).
Proof using Hg Hnd Ho.
  intros HR Hs. rewrite <- list_fmap_compose. eapply sorted_fmap; [|exact Hs]. intros x y Hx Hy Hxy. cbn.
  destruct (candidate_back x Hx) as (a & -> & _ & ->), (candidate_back y Hy) as (b & -> & _ & ->). auto.
Qed.
End chosen.

Lemma static_candidate_fields c :
  rs_ChannelID (static_candidate c) = sc_ChannelID c ∧ rs_Priority (static_candidate c) = sc_Priority c ∧ rs_Position (static_candidate c) = sc_Position c.
Proof. done. Qed.
Lemma scored_candidate_fields c :
  rs_ChannelID (scored_candidate c) = sc_ChannelID c ∧ rs_Priority (scored_candidate c) = sc_Priority c ∧ rs_Position (scored_candidate c) = sc_Position c.
Proof. done. Qed.

(** Every candidate is usable, so the layers keep all of them. *)
Lemma usable_kept (g : RouteSelectionCandidate → RouteScoreCandidate) el :
  (∀ c, rs_HealthUsable (g c) = sc_HealthUsable c) → Forall eligible el → filter (λ c, rs_HealthUsable c = true) (g <$> el) = g <$> el.
Proof.
  intros Hg Hel. induction Hel as [|c el (_ & _ & Hu) _ IH]; [done|].
  rewrite fmap_cons, filter_cons_True by by rewrite Hg. by rewrite IH.
Qed.

Definition priority_order (a b : RouteSelectionCandidate) : Prop := sc_Priority b <= sc_Priority a.
Definition position_order (a b : RouteSelectionCandidate) : Prop := sc_Position a <= sc_Position b.

Lemma select_manual_spec input el d d' chosen :
  NoDup (sc_ChannelID <$> el) → select_manual input el d = (d', chosen) → chosen ≡ₚ el ∧ StronglySorted position_order chosen.
Proof.
  intros Hnd [= <- <-].
  pose proof (order_for_selection_perm (static_candidate <$> el) (in_ManualLoadBalance input) (in_RequestID input)) as Hp.
  rewrite (list_fmap_compose rs_ChannelID (candidate_of el)). split.
  - eapply chosen_perm; [apply static_candidate_fields|done|exact Hp].
  - eapply chosen_sorted; [apply static_candidate_fields|done|exact Hp| |apply order_for_selection_sorted]. done.
Qed.

(** The full order behind the cut at the budget of candidates. *)
Lemma select_auto_spec input cs el d d' chosen :
  NoDup (sc_ChannelID <$> el) → Forall eligible el → select_auto input cs el d = (d', chosen) →
  ∃ full, full ≡ₚ el ∧ StronglySorted priority_order full ∧ chosen = take (Z.to_nat (normalizedRouteTopK (in_TopK input))) full.
Proof.
  intros Hnd Hel. unfold select_auto.
  destruct (in_DynamicScoringEnabled input); intros [= _ <-]; rewrite fmap_take; eexists; (split; [|split; [|reflexivity]]).
  - rewrite (list_fmap_compose sr_Candidate rs_ChannelID). eapply (chosen_perm el scored_candidate); [apply scored_candidate_fields|done|].
    by rewrite ScoreRouteCandidates_perm, (usable_kept scored_candidate).
  - rewrite (list_fmap_compose sr_Candidate rs_ChannelID).
    eapply (chosen_sorted el scored_candidate); [apply scored_candidate_fields|done| | |apply ScoreRouteCandidates_sorted]; [|done].
    by rewrite ScoreRouteCandidates_perm, (usable_kept scored_candidate).
  - eapply (chosen_perm el static_candidate); [apply static_candidate_fields|done|].
    unfold StaticPriorityLayer. by rewrite SliceStable_perm, (usable_kept static_candidate).
  - eapply (chosen_sorted el static_candidate); [apply static_candidate_fields|done| | |apply StaticPriorityLayer_sorted]; [|done].
    unfold StaticPriorityLayer. by rewrite SliceStable_perm, (usable_kept static_candidate).
Qed.

(** ** The selection *)

(** The candidates of the source that owns the request. *)
Definition offered (input : RouteSelectionInput) : list RouteSelectionCandidate :=
  if bool_decide (ResolveRouteSource (in_SourceInput input) = RouteSourceManual) then in_ManualCandidates input else in_AutoCandidates input.

(** One candidate per channel: the first eligible one. *)
Definition selectable (input : RouteSelectionInput) : list RouteSelectionCandidate :=
  eligibleRouteSelectionCandidates (normalizeRouteSelectionCandidates (offered input)).

Lemma selectable_spec input :
  Forall (λ c, c ∈ offered input ∧ eligible c) (selectable input) ∧ NoDup (sc_ChannelID <$> selectable input) ∧
  (∀ c, c ∈ offered input → eligible c → sc_ChannelID c ∈ sc_ChannelID <$> selectable input).
Proof.
  destruct (eligible_from_spec ∅ (normalizeRouteSelectionCandidates (offered input))) as (H1 & H2 & H3 & _ & H5).
  fold (selectable input) in *. split_and!; [|done|].
  - rewrite Forall_forall in H1 |- *. intros c Hc. specialize (H1 c Hc). split; [|done].
    apply (normalize_eligible (offered input)); [done|]. by apply H3.
  - intros c Hc Hel. destruct (H5 c) as [Hin|]; [by apply normalize_eligible|done|by apply not_elem_of_empty in Hin|done].
Qed.

Lemma finish_selection_spec cs d chosen d' chosen' err :
  finish_selection cs d chosen = (d', chosen', err) →
  chosen' = chosen ∧ match chosen with
  | [] => err = Some ErrRouteSelectionUnavailable
  | first :: _ => err = None ∧ rd_SelectedChannelID d' = sc_ChannelID first ∧ rd_SnapshotVersion d' = sc_SnapshotVersion first
  end.
Proof. destruct chosen as [|first rest]; cbn; intros [= <- <- <-]; done. Qed.

(** The candidates a request gets, whatever its source and scoring. *)
Lemma chosen_candidates input cs d d' chosen (manual : bool) :
  (if manual then select_manual input (selectable input) d else select_auto input cs (selectable input) d) = (d', chosen) →
  (∀ c, c ∈ chosen → c ∈ selectable input) ∧ NoDup (sc_ChannelID <$> chosen) ∧ (selectable input ≠ [] → chosen ≠ []) ∧
  if manual then chosen ≡ₚ selectable input ∧ StronglySorted position_order chosen
  else (length chosen <= 3)%nat ∧ StronglySorted priority_order chosen ∧
       ∀ c, c ∈ selectable input → c ∉ chosen → Forall (λ x, sc_Priority c <= sc_Priority x) chosen.
Proof.
  destruct (selectable_spec input) as (H1 & H2 & _). assert (Forall eligible (selectable input)) as Hel.
  { eapply Forall_impl; [exact H1|]. by intros c []. }
  destruct manual; intros E.
  - destruct (select_manual_spec _ _ _ _ _ H2 E) as [Hp Hs]. split_and!; [intros c; by rewrite Hp|by rewrite Hp| |done|done].
    intros Hne ->. by apply Hne, Permutation_nil.
  - destruct (select_auto_spec _ _ _ _ _ _ H2 Hel E) as (full & Hp & Hs & ->).
    set (n := Z.to_nat (normalizedRouteTopK (in_TopK input))).
    assert (1 <= n <= 3)%nat as Hn by (unfold n, normalizedRouteTopK; case_match; lia). split_and!.
    + intros c Hc. rewrite <- Hp. by eapply subseteq_take.
    + rewrite <- Hp, <- (take_drop n full), fmap_app in H2. by apply NoDup_app in H2 as [? _].
    + intros Hne Ht. apply Hne, Permutation_nil. rewrite <- Hp. destruct full; [done|]. destruct n; [lia|done].
    + rewrite length_take. lia.
    + by apply sorted_take.
    + intros c Hc Hnc. rewrite Forall_forall. intros x Hx. rewrite <- Hp, <- (take_drop n full) in Hc.
      apply elem_of_app in Hc as [Hc|Hc]; [done|]. rewrite <- (take_drop n full) in Hs. by eapply (strongly_sorted_app priority_order).
Qed.

(** C32: Selection either fails with the sentinel error and no candidate,
    exactly because no source owns the request, the manual group is disabled
    or no offered candidate is eligible, or returns candidates that were
    offered by the owning source, are usable and unfiltered, name no channel
    twice, and start with the channel the decision records.  A manual group
    gets every eligible channel in the order of its positions, load balanced
    or not; automatic routing gets at most three candidates in descending
    priority, scored or not, and no candidate it left out has a higher
    priority than one it took. *)
Theorem SelectTokenRoute_spec nowMilli input :
  let source := ResolveRouteSource (in_SourceInput input) in
  let '(decision, chosen, err) := SelectTokenRoute nowMilli input in
  match err with
  | Some e =>
      e = ErrRouteSelectionUnavailable ∧ chosen = [] ∧
      (source = RouteSourceUnavailable ∨ (source = RouteSourceManual ∧ in_ManualGroupEnabled input = false) ∨
       Forall (λ c, ¬ eligible c) (offered input))
  | None =>
      source ≠ RouteSourceUnavailable ∧
      Forall (λ c, c ∈ offered input ∧ eligible c) chosen ∧ NoDup (sc_ChannelID <$> chosen) ∧
      (∃ first, head chosen = Some first ∧ rd_SelectedChannelID decision = sc_ChannelID first ∧
                rd_SnapshotVersion decision = sc_SnapshotVersion first) ∧
      if bool_decide (source = RouteSourceManual) then
        in_ManualGroupEnabled input = true ∧ StronglySorted position_order chosen ∧
        ∀ c, c ∈ offered input → eligible c → sc_ChannelID c ∈ sc_ChannelID <$> chosen
      else
        (length chosen <= 3)%nat ∧ StronglySorted priority_order chosen ∧
        ∀ c, c ∈ selectable input → c ∉ chosen → Forall (λ x, sc_Priority c <= sc_Priority x) chosen
  end.
Proof.
  unfold SelectTokenRoute. cbv zeta. fold (offered input). fold (selectable input).
  set (source := ResolveRouteSource (in_SourceInput input)). destruct (selectable_spec input) as (H1 & H2 & H3).
  destruct (bool_decide_reflect (source = RouteSourceUnavailable)) as [Hs|Hs]; [split_and!; auto|].
  destruct (bool_decide_reflect (source = RouteSourceManual)) as [Hm|Hm]; cbn [andb].
  1: destruct (in_ManualGroupEnabled input) eqn:Eg; cbn [negb]; [|split_and!; auto].
  all: destruct (bool_decide_reflect (selectable input = [])) as [He|He].
  1,3: cbv beta iota; split_and!; [done..|]; right; right; rewrite Forall_forall; intros c Hc Hel; specialize (H3 c Hc Hel); rewrite He in H3;
       by apply not_elem_of_nil in H3.
  - destruct (select_manual _ _ _) as [d chosen] eqn:Esel. destruct (chosen_candidates input [] _ d chosen true Esel) as (Hin & Hnd & Hne & Hp & Hsort).
    destruct (finish_selection _ d chosen) as [[d' chosen'] err] eqn:Ef. apply finish_selection_spec in Ef as [-> Ef].
    destruct chosen as [|first rest]; [by destruct (Hne He)|]. destruct Ef as (-> & Ef1 & Ef2). split_and!; [done| |done|by exists first|done|done|].
    + rewrite Forall_forall in H1 |- *. auto.
    + intros c Hc Hel. rewrite Hp. auto.
  - destruct (select_auto _ _ _ _) as [d chosen] eqn:Esel. destruct (chosen_candidates input _ _ d chosen false Esel) as (Hin & Hnd & Hne & Hlen & Hsort & Hrest).
    destruct (finish_selection _ d chosen) as [[d' chosen'] err] eqn:Ef. apply finish_selection_spec in Ef as [-> Ef].
    destruct chosen as [|first rest]; [by destruct (Hne He)|]. destruct Ef as (-> & Ef1 & Ef2). split_and!; [done| |done|by exists first|done..].
    rewrite Forall_forall in H1 |- *. auto.
Qed.

(** ** Cases of src/service/route_selector_test.go *)

Definition test_candidate (id priority position weight : Z) (errorRate : option float64) (reason : string) (usable : bool) : RouteSelectionCandidate :=
  zero_candidate <| sc_ChannelID := id |> <| sc_Priority := priority |> <| sc_Position := position |> <| sc_Weight := weight |>
    <| sc_ErrorRate := default f_zero errorRate |> <| sc_ErrorRateKnown := bool_decide (is_Some errorRate) |>
    <| sc_FilterReason := reason |> <| sc_HealthUsable := usable |>.

Definition test_manual : RouteSelectionInput :=
  MkSelectionInput (MkSourceInput true true "manual") true true
    [test_candidate 9 0 1 100 None "" true; test_candidate 8 0 0 1 None "" true; test_candidate 7 0 0 5 None "" true;
     test_candidate 6 0 0 9 None "channel_disabled" true] [] 0 0 "" "" false.

Definition test_auto (dynamic : bool) : RouteSelectionInput :=
  MkSelectionInput (MkSourceInput true true "auto_lab") false false []
    [test_candidate 1 10 0 1 (Some (f64 1)) "" true; test_candidate 2 10 0 1 (Some (f64 0)) "" true] 3 0 "" "gpt-5" dynamic.

Example manual_by_position : sc_ChannelID <$> (SelectTokenRoute 0 test_manual).1.2 = [7; 8; 9].
Proof. vm_compute. reflexivity. Qed.
Example auto_static : sc_ChannelID <$> (SelectTokenRoute 0 (test_auto false)).1.2 = [1; 2].
Proof. vm_compute. reflexivity. Qed.
Example auto_scored : sc_ChannelID <$> (SelectTokenRoute 0 (test_auto true)).1.2 = [2; 1].
Proof. vm_compute. reflexivity. Qed.
