(* ===== verification/ChannelKeys.v ===== *)
(** * The keys of a channel

    src/model/channel.go and src/model/channel_cache.go: a channel may hold
    several keys, each with a status; a request takes one of them at random or
    in turns, and errors disable single keys.

    A channel is read from the table into a copy of its own, or is the object
    the memory cache shares ([receiver]): a write to it stays in the copy or
    changes the cache.  The per-channel polling lock is held from the choice of
    a key to the write of the polling index and during a whole status update,
    so each is one statement; the copy was loaded before.  A nil map and an
    empty one read alike.  The column [other_info] is taken in its decoded
    form.  Not modelled: notifications of capability changes. *)

From stdpp Require Import list_numbers.
From S2P Require Import Prelude GoStrings ApiErrors Interleave.
#[local] Open Scope string_scope.
#[local] Open Scope list_scope.
#[local] Open Scope Z_scope.

(** ** Data *)

Definition ChannelStatusEnabled : Z := 1.
Definition ChannelStatusManuallyDisabled : Z := 2.
Definition ChannelStatusAutoDisabled : Z := 3.
Definition MultiKeyModeRandom : string := "random".
Definition MultiKeyModePolling : string := "polling".

Definition ErrorCodeChannelNoAvailableKey : string := "channel:no_available_key".
Definition ErrorCodeGetChannelFailed : string := "get_channel_failed".

Record ChannelInfo := MkChannelInfo {
  ci_IsMultiKey : bool; ci_MultiKeySize : Z; ci_MultiKeyStatusList : gmap Z Z;
  ci_MultiKeyDisabledReason : gmap Z string; ci_MultiKeyDisabledTime : gmap Z Z;
  ci_MultiKeyPollingIndex : Z; ci_MultiKeyMode : string
}.
#[global] Instance eta_ChannelInfo : Eta ChannelInfo := λ i,
  MkChannelInfo (ci_IsMultiKey i) (ci_MultiKeySize i) (ci_MultiKeyStatusList i) (ci_MultiKeyDisabledReason i)
    (ci_MultiKeyDisabledTime i) (ci_MultiKeyPollingIndex i) (ci_MultiKeyMode i).

(** [status_reason] and [status_time] of [other_info]. *)
Record OtherInfo := MkOtherInfo { oi_status_reason : option string; oi_status_time : option Z }.

Record Channel := MkChannel {
  cn_Id : Z; cn_Key : string; cn_Keys : list string; cn_Status : Z; cn_OtherInfo : OtherInfo; cn_ChannelInfo : ChannelInfo
}.
#[global] Instance eta_Channel : Eta Channel := λ c,
  MkChannel (cn_Id c) (cn_Key c) (cn_Keys c) (cn_Status c) (cn_OtherInfo c) (cn_ChannelInfo c).

(** The table, the memory cache [channelsIDM] and the flag of the abilities of
    a channel.  [Keys] is not a column: it is empty in the table. *)
Record kdb := MkKdb { channels : gmap Z Channel; channelsIDM : gmap Z Channel; abilities_enabled : gmap Z bool }.
#[global] Instance eta_kdb : Eta kdb := λ d, MkKdb (channels d) (channelsIDM d) (abilities_enabled d).

(** The object a method is called on. *)
Inductive receiver :=
  | Copy (c : Channel)
  | Shared (id : Z).

(** The text of a JSON array as the texts of its elements, if it is one. *)
Class JsonArrays := json_array : string → option (list string).

(** ** The keys *)

Definition newline : string := String (Ascii.ascii_of_nat 10) EmptyString.

(** [strings.Split(s, "\n")] *)
Definition split_lines : string → list string := split_on (Ascii.ascii_of_nat 10).

(** [strings.Trim(s, "\n")] *)
Definition trim_lines (s : string) : string :=
  let l := trim_left (String.length s) [newline] s in
  string_rev (trim_left (String.length l) [newline] (string_rev l)).

Section keys.
Context `{JsonArrays}.

Definition GetKeys (channel : Channel) : list string :=
  if bool_decide (cn_Key channel = "") then []
  else match cn_Keys channel with
  | _ :: _ => cn_Keys channel
  | [] =>
      let trimmed := TrimSpace (cn_Key channel) in
      match (if String.prefix "[" trimmed then json_array trimmed else None) with
      | Some arr => arr
      | None => split_lines (trim_lines (cn_Key channel))
      end
  end.

Definition key_status (info : ChannelInfo) (i : Z) : Z := default ChannelStatusEnabled (ci_MultiKeyStatusList info !! i).

Definition enabledKeyIndexes (channel : Channel) (keys : list string) : list Z :=
  filter (λ i, key_status (cn_ChannelInfo channel) i = ChannelStatusEnabled) (seqZ 0 (Z.of_nat (length keys))).

Definition GetEnabledKeyIndexes (channel : Channel) : list Z :=
  if negb (ci_IsMultiKey (cn_ChannelInfo channel)) then [0] else enabledKeyIndexes channel (GetKeys channel).

(** ** Reading channels *)

Section cache.
Context (MemoryCacheEnabled : bool).

Definition GetChannelById (id : Z) : M kdb Channel :=
  c ← gets (λ d, channels d !! id);
  match c with Some c => mret c | None => fail ErrRecordNotFound end.

Definition channel_gone : error := ErrNew "渠道已不存在".

Definition CacheGetChannelInfo (id : Z) : M kdb ChannelInfo :=
  if negb MemoryCacheEnabled then c ← GetChannelById id; mret (cn_ChannelInfo c)
  else
    c ← gets (λ d, channelsIDM d !! id);
    match c with Some c => mret (cn_ChannelInfo c) | None => fail channel_gone end.

Definition read_receiver (recv : receiver) : M kdb Channel :=
  match recv with
  | Copy c => mret c
  | Shared id => c ← gets (λ d, channelsIDM d !! id); match c with Some c => mret c | None => fail channel_gone end
  end.

Definition write_receiver (f : Channel → Channel) (recv : receiver) : M kdb receiver :=
  match recv with
  | Copy c => mret (Copy (f c))
  | Shared id => modify (λ d, d <| channelsIDM ::= alter f id |>);; mret recv
  end.

(** [DB.Model(channel).Update("channel_info", channel.ChannelInfo)] *)
Definition SaveChannelInfo (recv : receiver) : M kdb unit :=
  c ← read_receiver recv;
  modify (λ d, d <| channels ::= alter (λ row, row <| cn_ChannelInfo := cn_ChannelInfo c |>) (cn_Id c) |>).

(** ** Choosing a key *)

Definition no_key (msg : string) : error := NewError (ErrNew msg) ErrorCodeChannelNoAvailableKey [].

(** [for i := 0; i < len(keys); i++]: [i] runs up, [n] rounds are left. *)
Fixpoint poll_scan (n : nat) (i start len : Z) (enabledIdx : list Z) (excluded : gset Z) : option Z :=
  match n with
  | O => None
  | S n =>
      let idx := (start + i) mod len in
      if bool_decide (idx ∈ excluded) then poll_scan n (i + 1) start len enabledIdx excluded
      else if bool_decide (idx ∈ enabledIdx) then Some idx
      else poll_scan n (i + 1) start len enabledIdx excluded
  end.

Definition key_at (keys : list string) (idx : Z) : string := default "" (keys !! Z.to_nat idx).

Definition set_polling_index (i : Z) (c : Channel) : Channel :=
  c <| cn_ChannelInfo ::= (λ info, info <| ci_MultiKeyPollingIndex := i |>) |>.

Definition untried (excluded : gset Z) (idx : list Z) : list Z := filter (λ i, i ∉ excluded) idx.

(** [MultiKeyModePolling]: the key, and the object with its new index. *)
Definition poll_key (recv : receiver) (keys : list string) (enabledIdx remainingIdx : list Z) (excluded : gset Z)
    : M kdb (string * Z * receiver) :=
  channel ← read_receiver recv;
  r ← try (CacheGetChannelInfo (cn_Id channel));
  match r with
  | Err e => fail (NewError e ErrorCodeGetChannelFailed [ErrOptionWithSkipRetry])
  | Ok channelInfo =>
      let len := Z.of_nat (length keys) in
      let start := ci_MultiKeyPollingIndex channelInfo in
      let start := if (start <? 0) || (len <=? start) then 0 else start in
      chosen ← (match poll_scan (length keys) 0 start len enabledIdx excluded with
                | Some idx => recv' ← write_receiver (set_polling_index ((idx + 1) mod len)) recv; mret (idx, recv')
                | None => mret (default 0 (head remainingIdx), recv)
                end);
      (if negb MemoryCacheEnabled then try (SaveChannelInfo chosen.2);; mret tt else mret tt);;
      mret (key_at keys chosen.1, chosen.1, chosen.2)
  end.

(** [draw n] is [rand.Intn(n)]. *)
Definition GetNextEnabledKeyExcluding (draw : nat → nat) (recv : receiver) (excluded : gset Z) : M kdb (string * Z * receiver) :=
  channel ← read_receiver recv;
  if negb (ci_IsMultiKey (cn_ChannelInfo channel)) then
    if bool_decide (0 ∈ excluded) then fail (no_key "no untried enabled keys") else mret (cn_Key channel, 0, recv)
  else
    let keys := GetKeys channel in
    let enabledIdx := enabledKeyIndexes channel keys in
    let remainingIdx := untried excluded enabledIdx in
    if bool_decide (keys = []) then fail (no_key "no keys available")
    else if bool_decide (enabledIdx = []) then fail (no_key "no enabled keys")
    else if bool_decide (remainingIdx = []) then fail (no_key "no untried enabled keys")
    else
      let mode := ci_MultiKeyMode (cn_ChannelInfo channel) in
      if bool_decide (mode = MultiKeyModeRandom) then
        let selectedIdx := default 0 (remainingIdx !! draw (length remainingIdx)) in
        mret (key_at keys selectedIdx, selectedIdx, recv)
      else if bool_decide (mode = MultiKeyModePolling) then poll_key recv keys enabledIdx remainingIdx excluded
      else
        let first := default 0 (head remainingIdx) in
        mret (key_at keys first, first, recv).

(** ** Statuses *)

Definition hasEnabledMultiKey (keys : list string) (statusList : gmap Z Z) : bool :=
  existsb (λ i, default ChannelStatusEnabled (statusList !! i) =? ChannelStatusEnabled) (seqZ 0 (Z.of_nat (length keys))).

Definition set_reason (reason : string) (now : Z) (c : Channel) : Channel :=
  c <| cn_OtherInfo := MkOtherInfo (Some reason) (Some now) |>.

(** [for i, key := range keys { if key == usingKey { keyIndex = i; break } }] *)
Definition key_index (usingKey : string) (keys : list string) : option Z :=
  Z.of_nat ∘ fst <$> list_find (λ key, key = usingKey) keys.

Definition update_key_status (keyIndex status : Z) (reason : string) (now : Z) (info : ChannelInfo) : ChannelInfo :=
  if status =? ChannelStatusEnabled then info <| ci_MultiKeyStatusList ::= delete keyIndex |>
  else info <| ci_MultiKeyStatusList ::= <[keyIndex := status]> |>
            <| ci_MultiKeyDisabledReason ::= <[keyIndex := reason]> |>
            <| ci_MultiKeyDisabledTime ::= <[keyIndex := now]> |>.

Definition handlerMultiKeyUpdate (usingKey : string) (status : Z) (reason : string) (now : Z) (channel : Channel) : Channel :=
  let keys := GetKeys channel in
  if bool_decide (keys = []) then channel <| cn_Status := status |>
  else match key_index usingKey keys with
  | None =>
      if negb (bool_decide (usingKey = "")) then channel
      else set_reason reason now (channel <| cn_Status := status |>)
  | Some keyIndex =>
      let channel := channel <| cn_ChannelInfo ::= update_key_status keyIndex status reason now |> in
      if negb (hasEnabledMultiKey keys (ci_MultiKeyStatusList (cn_ChannelInfo channel))) then
        set_reason "All keys are disabled" now (channel <| cn_Status := ChannelStatusAutoDisabled |>)
      else if status =? ChannelStatusEnabled then channel <| cn_Status := ChannelStatusEnabled |>
      else channel
  end.

Definition CacheUpdateChannelStatus (id status : Z) : M kdb unit :=
  if negb MemoryCacheEnabled then mret tt
  else modify (λ d, d <| channelsIDM ::= alter (λ c, c <| cn_Status := status |>) id |>).

(** The status, [other_info] and, of a channel with several keys, the whole
    [channel_info]. *)
Definition saveStatusState (c : Channel) : M kdb unit :=
  if cn_Id c =? 0 then fail (ErrNew "channel ID is 0")
  else modify (λ d, d <| channels ::= alter (λ row,
         let row := row <| cn_Status := cn_Status c |> <| cn_OtherInfo := cn_OtherInfo c |> in
         if ci_IsMultiKey (cn_ChannelInfo c) then row <| cn_ChannelInfo := cn_ChannelInfo c |> else row) (cn_Id c) |>).

Definition UpdateAbilityStatus (channelId : Z) (status : bool) : M kdb unit :=
  modify (λ d, d <| abilities_enabled ::= alter (λ _, status) channelId |>).

(** The first half of [UpdateChannelStatus], on the cache; whether it goes on. *)
Definition update_cached_status (now channelId : Z) (usingKey : string) (status : Z) (reason : string) : M kdb bool :=
  if negb MemoryCacheEnabled then mret true
  else
    cached ← gets (λ d, channelsIDM d !! channelId);
    match cached with
    | None => mret false
    | Some channelCache =>
        if ci_IsMultiKey (cn_ChannelInfo channelCache) then
          modify (λ d, d <| channelsIDM ::= alter (handlerMultiKeyUpdate usingKey status reason now) channelId |>);;
          mret true
        else if cn_Status channelCache =? status then mret false
        else CacheUpdateChannelStatus channelId status;; mret true
    end.

(** Whether anything was updated. *)
Definition UpdateChannelStatus (now channelId : Z) (usingKey : string) (status : Z) (reason : string) : M kdb bool :=
  go_on ← update_cached_status now channelId usingKey status reason;
  if negb go_on then mret false
  else
    loaded ← try (GetChannelById channelId);
    match loaded with
    | Err _ => mret false
    | Ok channel =>
        if cn_Status channel =? status then mret false
        else
          let multi := ci_IsMultiKey (cn_ChannelInfo channel) in
          let updated :=
            if multi then handlerMultiKeyUpdate usingKey status reason now channel
            else set_reason reason now channel <| cn_Status := status |> in
          let shouldUpdateAbilities := negb multi || negb (cn_Status updated =? cn_Status channel) in
          saved ← try (saveStatusState updated);
          (if shouldUpdateAbilities then UpdateAbilityStatus channelId (status =? ChannelStatusEnabled) else mret tt);;
          mret (is_ok saved)
    end.

(** ** The memory cache *)

Definition cache_row (old : gmap Z Channel) (i : Z) (channel : Channel) : Channel :=
  if negb (ci_IsMultiKey (cn_ChannelInfo channel)) then channel
  else
    let channel := channel <| cn_Keys := GetKeys channel |> in
    let polls (c : Channel) := bool_decide (ci_MultiKeyMode (cn_ChannelInfo c) = MultiKeyModePolling) in
    match old !! i with
    | Some oldChannel =>
        if polls channel && ci_IsMultiKey (cn_ChannelInfo oldChannel) && polls oldChannel
        then set_polling_index (ci_MultiKeyPollingIndex (cn_ChannelInfo oldChannel)) channel else channel
    | None => channel
    end.

Definition InitChannelCache : M kdb unit :=
  if negb MemoryCacheEnabled then mret tt
  else modify (λ d, d <| channelsIDM := map_imap (λ i c, Some (cache_row (channelsIDM d) i c)) (channels d) |>).

(** ** A request takes a key

    [GetChannelById] and then, under the lock, the choice (getChannel and
    SetupContextForSelectedChannel). *)

Definition take_key (draw : nat → nat) (id : Z) (excluded : gset Z) : prog kdb (string * Z) :=
  channel ← query (GetChannelById id);
  r ← query (GetNextEnabledKeyExcluding draw (Copy channel) excluded);
  mret r.1.

(** [n] requests one after the other; the indexes of their keys. *)
Fixpoint take_keys (draw : nat → nat) (n : nat) (id : Z) : prog kdb (list Z) :=
  match n with
  | O => mret []
  | S n => k ← take_key draw id ∅; ks ← take_keys draw n id; mret (k.2 :: ks)
  end.

(** ** Which key is taken *)

(** What may be taken. *)
Definition usable_keys (c : Channel) (excluded : gset Z) : list Z := untried excluded (GetEnabledKeyIndexes c).

Definition key_of (c : Channel) (idx : Z) : option string :=
  if ci_IsMultiKey (cn_ChannelInfo c) then GetKeys c !! Z.to_nat idx else Some (cn_Key c).

Lemma enabled_in_range c keys i : i ∈ enabledKeyIndexes c keys → 0 <= i < Z.of_nat (length keys).
Proof. unfold enabledKeyIndexes. rewrite list_elem_of_filter, elem_of_seqZ. lia. Qed.

Lemma key_at_lookup keys i : 0 <= i < Z.of_nat (length keys) → keys !! Z.to_nat i = Some (key_at keys i).
Proof.
  intros Hi. unfold key_at. destruct (lookup_lt_is_Some_2 keys (Z.to_nat i)) as [k E]; [lia|]. by rewrite E.
Qed.

(** The indexes the scan looks at. *)
Definition scanned (n : nat) (i start len : Z) : list Z := (λ j, (start + j) mod len) <$> seqZ i (Z.of_nat n).

Lemma poll_scan_head n i start len E excluded :
  poll_scan n i start len E excluded = head (filter (λ j, (j ∉ excluded) ∧ (j ∈ E)) (scanned n i start len)).
Proof.
  unfold scanned. revert i. induction n as [|n IH]; intros i; [done|]. cbn [poll_scan].
  rewrite seqZ_cons by lia. replace (Z.pred (Z.of_nat (S n))) with (Z.of_nat n) by lia. rewrite fmap_cons, filter_cons.
  rewrite <- Z.add_1_r, !IH. case_bool_decide as H1; [rewrite decide_False by naive_solver; done|].
  case_bool_decide as H2; [rewrite decide_True by done; done|rewrite decide_False by naive_solver; done].
Qed.

(** Every index is looked at once, from [start] upwards and then from 0. *)
Lemma scanned_all start (n : nat) :
  0 <= start < Z.of_nat n → scanned n 0 start (Z.of_nat n) = seqZ start (Z.of_nat n - start) ++ seqZ 0 start.
Proof.
  intros Hs. unfold scanned. replace (seqZ 0 (Z.of_nat n)) with (seqZ 0 (Z.of_nat n - start) ++ seqZ (Z.of_nat n - start) start).
  2:{ rewrite <- (Z.add_0_l (Z.of_nat n - start)) at 2. rewrite <- seqZ_app by lia. f_equal. lia. }
  rewrite fmap_app. f_equal.
  - transitivity (Z.add start <$> seqZ 0 (Z.of_nat n - start)); [|by rewrite fmap_add_seqZ, Z.add_0_r].
    apply list_fmap_ext. intros i x Hx. apply lookup_seqZ in Hx as [-> Hx]. rewrite Z.mod_small by lia. lia.
  - transitivity ((λ j, j - (Z.of_nat n - start)) <$> seqZ (Z.of_nat n - start) start).
    + apply list_fmap_ext. intros i x Hx. apply lookup_seqZ in Hx as [-> Hx].
      replace (start + (Z.of_nat n - start + Z.of_nat i)) with (Z.of_nat i + 1 * Z.of_nat n) by lia.
      rewrite Z_mod_plus_full, Z.mod_small; lia.
    + apply list_eq. intros i. rewrite list_lookup_fmap. apply option_eq. intros x. rewrite fmap_Some.
      setoid_rewrite lookup_seqZ. naive_solver lia.
Qed.

(** The enabled keys in the order in which they are taken from [start] on. *)
Definition order_from (c : Channel) (len start : Z) : list Z :=
  filter (λ i, key_status (cn_ChannelInfo c) i = ChannelStatusEnabled) (seqZ start (len - start) ++ seqZ 0 start).

Lemma filter_ext_in {A} (P Q : A → Prop) `{∀ x, Decision (P x), ∀ x, Decision (Q x)} (l : list A) :
  (∀ x, x ∈ l → P x ↔ Q x) → filter P l = filter Q l.
Proof.
  induction l as [|x l IH]; intros HPQ; [done|]. rewrite !filter_cons, IH by (intros y Hy; apply HPQ; by right).
  destruct (HPQ x) as [Hpq Hqp]; [by left|]. repeat case_decide; naive_solver.
Qed.

Lemma scan_order c keys excluded start :
  0 <= start < Z.of_nat (length keys) →
  poll_scan (length keys) 0 start (Z.of_nat (length keys)) (enabledKeyIndexes c keys) excluded =
  head (untried excluded (order_from c (Z.of_nat (length keys)) start)).
Proof.
  intros Hs. rewrite poll_scan_head, scanned_all by done. f_equal. unfold untried, order_from. rewrite list_filter_filter.
  apply filter_ext_in. intros x Hx. unfold enabledKeyIndexes. rewrite list_elem_of_filter.
  rewrite elem_of_app, !elem_of_seqZ in Hx. rewrite elem_of_seqZ. naive_solver lia.
Qed.

Lemma order_perm c keys start :
  0 <= start <= Z.of_nat (length keys) → order_from c (Z.of_nat (length keys)) start ≡ₚ enabledKeyIndexes c keys.
Proof.
  intros Hs. unfold order_from, enabledKeyIndexes. rewrite Permutation_app_comm.
  rewrite <- (Z.add_0_l start) at 2. rewrite <- seqZ_app by lia. apply reflexive_eq. f_equal. f_equal. lia.
Qed.

(** Where a poll starts. *)
Definition poll_start (len index : Z) : Z := if (index <? 0) || (len <=? index) then 0 else index.

Lemma poll_start_range len index : 0 < len → 0 <= poll_start len index < len.
Proof. unfold poll_start. destruct (Z.ltb_spec index 0); cbn; [lia|]. destruct (Z.leb_spec len index); lia. Qed.

(** The scan finds a key when one is left: the fallback after the loop is not
    reached. *)
Lemma scan_finds c keys excluded index :
  untried excluded (enabledKeyIndexes c keys) ≠ [] →
  ∃ idx, poll_scan (length keys) 0 (poll_start (Z.of_nat (length keys)) index) (Z.of_nat (length keys))
           (enabledKeyIndexes c keys) excluded = Some idx ∧
    idx ∈ untried excluded (enabledKeyIndexes c keys).
Proof.
  intros Hne. destruct (decide (keys = [])) as [->|Hk]; [done|].
  pose proof (poll_start_range (Z.of_nat (length keys)) index) as Hs. destruct keys as [|k0 keys'] eqn:Ek; [done|]. rewrite <- Ek in *.
  assert (0 < Z.of_nat (length keys)) as Hl by (subst; cbn; lia). specialize (Hs Hl).
  rewrite scan_order by done. pose proof (order_perm c keys _ (conj (proj1 Hs) (Z.lt_le_incl _ _ (proj2 Hs)))) as Hp.
  assert (untried excluded (order_from c (Z.of_nat (length keys)) (poll_start (Z.of_nat (length keys)) index)) ≡ₚ
          untried excluded (enabledKeyIndexes c keys)) as Hp' by (unfold untried; by rewrite Hp).
  destruct (untried _ (order_from _ _ _)) as [|x l]; [by apply Permutation_nil_l in Hp'; symmetry in Hp'|].
  exists x. split; [done|]. rewrite <- Hp'. by left.
Qed.

Lemma CacheGetChannelInfo_reads id d : (CacheGetChannelInfo id d).2 = d.
Proof.
  unfold CacheGetChannelInfo, GetChannelById. destruct MemoryCacheEnabled; unfold_m; cbn.
  - by destruct (channelsIDM d !! id).
  - by destruct (channels d !! id).
Qed.

(** The row a poll leaves. *)
Definition save_copy (c : Channel) (d : kdb) : kdb :=
  if MemoryCacheEnabled then d
  else d <| channels ::= alter (λ row, row <| cn_ChannelInfo := cn_ChannelInfo c |>) (cn_Id c) |>.

Lemma poll_key_found c keys E R excluded d info idx :
  (CacheGetChannelInfo (cn_Id c) d).1 = Ok info →
  poll_scan (length keys) 0 (poll_start (Z.of_nat (length keys)) (ci_MultiKeyPollingIndex info)) (Z.of_nat (length keys)) E excluded = Some idx →
  let c' := set_polling_index ((idx + 1) mod Z.of_nat (length keys)) c in
  poll_key (Copy c) keys E R excluded d = (Ok (key_at keys idx, idx, Copy c'), save_copy c' d).
Proof.
  intros Hi Hs c'. pose proof (CacheGetChannelInfo_reads (cn_Id c) d) as Hr. unfold poll_key, poll_start in *.
  unfold try, mbind, M_bind at 1, read_receiver, mret, M_ret. cbn [M_bind].
  destruct (CacheGetChannelInfo (cn_Id c) d) as [r d'] eqn:E1. cbn in Hi, Hr. subst r d'.
  unfold M_bind. rewrite E1. rewrite Hs. unfold save_copy. by destruct MemoryCacheEnabled.
Qed.

(** What is taken was not excluded, and the object stays a copy; a single key
    has the index 0. *)
Lemma next_key_untried draw c excluded d key idx recv d' (Hdraw : ∀ n, (0 < n)%nat → (draw n < n)%nat) :
  GetNextEnabledKeyExcluding draw (Copy c) excluded d = (Ok (key, idx, recv), d') → 0 <= idx ∧ (idx ∉ excluded) ∧ (∃ c', recv = Copy c') ∧
  (ci_IsMultiKey (cn_ChannelInfo c) = false → idx = 0 ∧ recv = Copy c).
Proof.
  unfold GetNextEnabledKeyExcluding, read_receiver. cbv [mbind M_bind mret M_ret fail].
  destruct (ci_IsMultiKey (cn_ChannelInfo c)); cbn [negb]; [|case_bool_decide; intros [= <- <- <- <-]; eauto 8 with lia].
  set (keys := GetKeys c). set (E := enabledKeyIndexes c keys).
  assert (∀ i, i ∈ untried excluded E → 0 <= i ∧ i ∉ excluded) as Hin.
  { intros i Hi. apply list_elem_of_filter in Hi as [Hi He]. apply enabled_in_range in He. split; [lia|done]. }
  do 2 (case_bool_decide; [done|]). case_bool_decide as Hn; [done|].
  destruct (untried excluded E) as [|x R] eqn:ER; [done|].
  case_bool_decide as Hmr; [|case_bool_decide as Hmp].
  - destruct (lookup_lt_is_Some_2 (x :: R) (draw (length (x :: R)))) as [i Hi]; [apply Hdraw; cbn; lia|].
    rewrite Hi. intros [= <- <- <- <-]. apply list_elem_of_lookup_2, Hin in Hi as [??]. by split_and!; eauto.
  - destruct (CacheGetChannelInfo (cn_Id c) d).1 as [info|e] eqn:Ei.
    + destruct (scan_finds c keys excluded (ci_MultiKeyPollingIndex info)) as (j & Hs & Hj); [by fold E; rewrite ER|].
      fold E in Hs, Hj. rewrite ER in Hj. rewrite (poll_key_found _ _ _ _ _ _ _ _ Ei Hs). intros [= <- <- <- <-].
      apply Hin in Hj as [??]. by split_and!; eauto.
    + unfold poll_key, read_receiver, try. cbv [mbind M_bind mret M_ret fail].
      destruct (CacheGetChannelInfo (cn_Id c) d) as [r d2]. cbn in Ei. by subst r.
  - cbn. intros [= <- <- <- <-]. destruct (Hin x) as [??]; [by left|]. by split_and!; eauto.
Qed.

(** A key that is taken is one of the channel's, enabled and not excluded;
    when there is one it is taken, in every mode; the error that there is none
    is returned exactly when there is none.  (A poll also needs the channel's
    cached index.) *)
Theorem next_key_spec draw c excluded d (Hdraw : ∀ n, (0 < n)%nat → (draw n < n)%nat) :
  let r := (GetNextEnabledKeyExcluding draw (Copy c) excluded d).1 in
  (usable_keys c excluded = [] → ∃ e, r = Err e ∧ GetErrorCode e = ErrorCodeChannelNoAvailableKey) ∧
  (usable_keys c excluded ≠ [] →
     (∃ key idx recv, r = Ok (key, idx, recv) ∧ idx ∈ usable_keys c excluded ∧ key_of c idx = Some key) ∨
     ci_MultiKeyMode (cn_ChannelInfo c) = MultiKeyModePolling ∧ ∃ e, (CacheGetChannelInfo (cn_Id c) d).1 = Err e).
Proof.
  unfold GetNextEnabledKeyExcluding, usable_keys, GetEnabledKeyIndexes, key_of, read_receiver.
  cbv [mbind M_bind mret M_ret fail].
  destruct (ci_IsMultiKey (cn_ChannelInfo c)) eqn:Em; cbn [negb].
  - set (keys := GetKeys c). set (E := enabledKeyIndexes c keys).
    assert (∀ i, i ∈ untried excluded E → keys !! Z.to_nat i = Some (key_at keys i)) as Hkey.
    { intros i Hi. apply key_at_lookup, (enabled_in_range c). unfold untried in Hi. by apply list_elem_of_filter in Hi as [_ Hi]. }
    case_bool_decide as Hk; [split; [intros _; cbn; eauto|]; subst E; by rewrite Hk|].
    case_bool_decide as He; [split; [intros _; cbn; eauto|by rewrite He]|].
    case_bool_decide as Hn; [split; [intros _; cbn; eauto|done]|]. split; [done|intros _].
    destruct (untried excluded E) as [|x R] eqn:ER; [done|].
    case_bool_decide as Hmr; [|case_bool_decide as Hmp].
    + left. cbn [fst]. destruct (lookup_lt_is_Some_2 (x :: R) (draw (length (x :: R)))) as [i Hi]; [apply Hdraw; cbn; lia|].
      rewrite Hi. cbn [default]. apply list_elem_of_lookup_2 in Hi. eauto 10.
    + destruct (CacheGetChannelInfo (cn_Id c) d).1 as [info|e] eqn:Ei; [left|right; eauto].
      destruct (scan_finds c keys excluded (ci_MultiKeyPollingIndex info)) as (idx & Hs & Hidx); [by fold E; rewrite ER|].
      fold E in Hs, Hidx. rewrite ER in Hidx. rewrite (poll_key_found _ _ _ _ _ _ _ _ Ei Hs). cbn. eauto 10.
    + left. cbn. exists (key_at keys x), x, (Copy c). split_and!; [done|by left|]. apply Hkey. by left.
  - unfold untried. rewrite filter_cons, filter_nil. case_bool_decide as H0; [rewrite decide_False by auto|rewrite decide_True by done].
    + split; [intros _; cbn; eauto|done].
    + split; [done|intros _; left]. cbn. exists (cn_Key c), 0, (Copy c). split_and!; [done|by left|done].
Qed.

(** ** Polling takes turns *)

Section turns.
Context (c : Channel).
Let enabled (i : Z) : Prop := key_status (cn_ChannelInfo c) i = ChannelStatusEnabled.

Lemma seqZ_split a n m : 0 <= m <= n → seqZ a n = seqZ a m ++ seqZ (a + m) (n - m).
Proof. intros H'. rewrite <- seqZ_app by lia. f_equal. lia. Qed.

(** The first enabled key of a range. *)
Lemma first_enabled a n idx l :
  filter enabled (seqZ a n) = idx :: l →
  a <= idx < a + n ∧ filter enabled (seqZ a (idx + 1 - a)) = [idx] ∧ filter enabled (seqZ (idx + 1) (a + n - (idx + 1))) = l.
Proof.
  intros E. assert (idx ∈ filter enabled (seqZ a n)) as Hin by (rewrite E; by left).
  apply list_elem_of_filter in Hin as [He Hr%elem_of_seqZ]. split; [done|].
  assert (filter enabled (seqZ a (idx - a)) = []) as Hpre.
  { destruct (filter enabled (seqZ a (idx - a))) as [|y l'] eqn:Ey; [done|].
    rewrite (seqZ_split a n (idx - a)), filter_app, Ey in E by lia. injection E as -> _.
    assert (idx ∈ filter enabled (seqZ a (idx - a))) as Hy by (rewrite Ey; by left).
    apply list_elem_of_filter in Hy as [_ Hy%elem_of_seqZ]. lia. }
  assert (filter enabled (seqZ a (idx + 1 - a)) = [idx]) as H1.
  { rewrite (seqZ_split a (idx + 1 - a) (idx - a)), filter_app, Hpre by lia.
    replace (a + (idx - a)) with idx by lia. replace (idx + 1 - a - (idx - a)) with 1 by lia.
    rewrite (seqZ_cons idx 1), filter_cons by lia. by rewrite decide_True. }
  split; [done|]. rewrite (seqZ_split a n (idx + 1 - a)), filter_app, H1 in E by lia. injection E as <-.
  f_equal. f_equal; lia.
Qed.

Lemma order_wrap len start : 0 <= start <= len → order_from c len (start mod len) = order_from c len start.
Proof.
  intros Hs. destruct (decide (start = len)) as [->|]; [|by rewrite Z.mod_small by lia].
  destruct (decide (len = 0)) as [->|]; [done|]. rewrite Z.mod_same by done. unfold order_from.
  rewrite Z.sub_0_r, Z.sub_diag, (seqZ_nil 0 0), (seqZ_nil len 0), app_nil_r by done. done.
Qed.

(** After a key is taken, it is the last in turn. *)
Lemma order_step len start idx l :
  0 <= start < len → order_from c len start = idx :: l →
  0 <= idx < len ∧ order_from c len ((idx + 1) mod len) = l ++ [idx].
Proof.
  intros Hs E. unfold order_from in E. rewrite filter_app in E.
  destruct (filter _ (seqZ start (len - start))) as [|x b] eqn:EB.
  - destruct (first_enabled 0 start idx l E) as (Hr & H1 & H2). split; [lia|]. rewrite order_wrap by lia.
    unfold order_from. rewrite filter_app. replace (idx + 1 - 0) with (idx + 1) in H1 by lia. fold enabled. rewrite H1. f_equal.
    rewrite (seqZ_split (idx + 1) (len - (idx + 1)) (start - (idx + 1))), filter_app by lia.
    replace (0 + start - (idx + 1)) with (start - (idx + 1)) in H2 by lia. rewrite H2.
    replace (idx + 1 + (start - (idx + 1))) with start by lia. replace (len - (idx + 1) - (start - (idx + 1))) with (len - start) by lia.
    fold enabled in EB. rewrite EB. by rewrite app_nil_r.
  - injection E as -> <-. destruct (first_enabled start (len - start) idx b EB) as (Hr & H1 & H2). split; [lia|].
    rewrite order_wrap by lia. unfold order_from. rewrite filter_app. fold enabled.
    replace (start + (len - start) - (idx + 1)) with (len - (idx + 1)) in H2 by lia. rewrite H2, <- app_assoc. f_equal.
    rewrite (seqZ_split 0 (idx + 1) start), filter_app by lia. f_equal. replace (0 + start) with start by lia.
    by rewrite <- H1.
Qed.
End turns.

(** [n] turns of a queue whose head goes to its end. *)
Fixpoint turns (n : nat) (l : list Z) : list Z :=
  match n, l with
  | S n, x :: l => x :: turns n (l ++ [x])
  | _, _ => []
  end.

Lemma turns_app n l1 l2 : turns (length l1 + n) (l1 ++ l2) = l1 ++ turns n (l2 ++ l1).
Proof.
  revert l2. induction l1 as [|x l1 IH]; intros l2; cbn; [by rewrite app_nil_r|].
  f_equal. rewrite <- app_assoc, IH. by rewrite <- app_assoc.
Qed.

Lemma turns_rounds k l : turns (k * length l) l = concat (replicate k l).
Proof.
  induction k as [|k IH]; [by destruct l|]. cbn [replicate concat Nat.mul]. rewrite <- IH.
  pose proof (turns_app (k * length l) l []) as E. by rewrite app_nil_r in E.
Qed.

(** A channel whose enabled keys are taken in turns. *)
Definition polls (c : Channel) : Prop :=
  ci_IsMultiKey (cn_ChannelInfo c) = true ∧ ci_MultiKeyMode (cn_ChannelInfo c) = MultiKeyModePolling ∧ GetEnabledKeyIndexes c ≠ [].

(** The keys in turn, from index [i] on. *)
Definition in_turn (c : Channel) (i : Z) : list Z :=
  order_from c (Z.of_nat (length (GetKeys c))) (poll_start (Z.of_nat (length (GetKeys c))) i).

Lemma polls_keys c : polls c → 0 < Z.of_nat (length (GetKeys c)).
Proof.
  intros (Hm & _ & Hne). unfold GetEnabledKeyIndexes in Hne. rewrite Hm in Hne. cbn in Hne.
  destruct (GetKeys c); [done|cbn; lia].
Qed.

Lemma in_turn_perm c i : polls c → in_turn c i ≡ₚ GetEnabledKeyIndexes c.
Proof.
  intros Hp. pose proof (poll_start_range _ i (polls_keys c Hp)). unfold in_turn, GetEnabledKeyIndexes.
  destruct Hp as (-> & _ & _). cbn. apply order_perm. lia.
Qed.

(** One request: the first in turn. *)
Lemma poll_choice draw c d info x l :
  polls c → (CacheGetChannelInfo (cn_Id c) d).1 = Ok info → in_turn c (ci_MultiKeyPollingIndex info) = x :: l →
  let c' := set_polling_index ((x + 1) mod Z.of_nat (length (GetKeys c))) c in
  GetNextEnabledKeyExcluding draw (Copy c) ∅ d = (Ok (key_at (GetKeys c) x, x, Copy c'), save_copy c' d).
Proof.
  intros Hp Hi Hx c'. pose proof (poll_start_range _ (ci_MultiKeyPollingIndex info) (polls_keys c Hp)) as Hs.
  assert (poll_scan (length (GetKeys c)) 0 (poll_start (Z.of_nat (length (GetKeys c))) (ci_MultiKeyPollingIndex info))
            (Z.of_nat (length (GetKeys c))) (enabledKeyIndexes c (GetKeys c)) ∅ = Some x) as Hscan.
  { rewrite scan_order by done. fold (in_turn c (ci_MultiKeyPollingIndex info)). rewrite Hx. unfold untried. rewrite filter_cons.
    by rewrite decide_True by set_solver. }
  pose proof (poll_key_found c _ _ (untried ∅ (enabledKeyIndexes c (GetKeys c))) _ _ _ _ Hi Hscan) as Hf. cbv zeta in Hf.
  pose proof (polls_keys c Hp) as Hk. destruct Hp as (Hm & Hpoll & Hne). unfold GetEnabledKeyIndexes in Hne. rewrite Hm in Hne. cbn [negb] in Hne.
  unfold GetNextEnabledKeyExcluding, read_receiver. cbv [mbind M_bind mret M_ret fail]. rewrite Hm, Hpoll. cbn [negb].
  assert (untried ∅ (enabledKeyIndexes c (GetKeys c)) ≠ []) as Hr.
  { unfold untried. rewrite (list_filter_iff _ (λ _, True)) by set_solver. destruct (enabledKeyIndexes c (GetKeys c)); [done|]. by rewrite filter_cons, decide_True. }
  rewrite (bool_decide_eq_false_2 (GetKeys c = [])) by (by intros E; rewrite E in Hk).
  rewrite (bool_decide_eq_false_2 (enabledKeyIndexes c (GetKeys c) = [])) by done.
  rewrite (bool_decide_eq_false_2 (untried _ _ = [])) by done. exact Hf.
Qed.

Lemma in_turn_index c i j : in_turn (set_polling_index j c) i = in_turn c i.
Proof. done. Qed.

Lemma GetChannelById_row id d c : channels d !! id = Some c → GetChannelById id d = (Ok c, d).
Proof. intros Hc. unfold GetChannelById. unfold_m. by rewrite Hc. Qed.

(** What one request does when the index comes from the cache or the table. *)
Lemma take_key_polls draw now d id c info x l :
  channels d !! id = Some c → cn_Id c = id → polls c → (CacheGetChannelInfo id d).1 = Ok info →
  in_turn c (ci_MultiKeyPollingIndex info) = x :: l →
  run_prog now (take_key draw id ∅) d =
    (Ok (key_at (GetKeys c) x, x), save_copy (set_polling_index ((x + 1) mod Z.of_nat (length (GetKeys c))) c) d).
Proof.
  intros Hc Hid Hp Hi Hx. unfold take_key. rewrite run_prog_bind, run_prog_query. rewrite (GetChannelById_row _ _ _ Hc).
  rewrite run_prog_bind, run_prog_query. rewrite <- Hid in Hi. by rewrite (poll_choice draw c d info x l Hp Hi Hx).
Qed.
End cache.

Lemma take_keys_turns draw now n d id c :
  channels d !! id = Some c → cn_Id c = id → polls c →
  ∃ d', run_prog now (take_keys false draw n id) d = (Ok (turns n (in_turn c (ci_MultiKeyPollingIndex (cn_ChannelInfo c)))), d').
Proof.
  revert d c. induction n as [|n IH]; intros d c Hc Hid Hp; [by eexists|].
  destruct (in_turn c (ci_MultiKeyPollingIndex (cn_ChannelInfo c))) as [|x l] eqn:Ex.
  { pose proof (in_turn_perm c (ci_MultiKeyPollingIndex (cn_ChannelInfo c)) Hp) as E. rewrite Ex in E.
    apply Permutation_nil_l in E. by destruct Hp as (_ & _ & Hne). }
  assert ((CacheGetChannelInfo false id d).1 = Ok (cn_ChannelInfo c)) as Hi.
  { unfold CacheGetChannelInfo. cbn [negb]. unfold mbind, M_bind. by rewrite (GetChannelById_row _ _ _ Hc). }
  pose proof (polls_keys c Hp) as Hk. set (j := (x + 1) mod Z.of_nat (length (GetKeys c))).
  destruct (order_step c _ _ _ _ (poll_start_range _ _ Hk) Ex) as [Hx Hnext]. fold j in Hnext.
  assert (in_turn (set_polling_index j c) (ci_MultiKeyPollingIndex (cn_ChannelInfo (set_polling_index j c))) = l ++ [x]) as Hturn.
  { rewrite in_turn_index. unfold in_turn. cbn -[poll_start]. unfold poll_start.
    assert (0 <= j < Z.of_nat (length (GetKeys c))) as Hj by (apply Z.mod_pos_bound; lia).
    rewrite (proj2 (Z.ltb_ge j 0)), (proj2 (Z.leb_gt _ j)) by lia. done. }
  edestruct (IH (save_copy false (set_polling_index j c) d) (set_polling_index j c)) as [d' E].
  { unfold save_copy. cbn. rewrite <- Hid. rewrite lookup_alter_eq. rewrite Hid, Hc. by destruct c as [? ? ? ? ? []]. }
  { done. }
  { exact Hp. }
  exists d'. cbn [take_keys]. rewrite run_prog_bind, (take_key_polls false draw now d id c _ x l Hc Hid Hp Hi Ex).
  rewrite run_prog_bind. fold j. rewrite E. cbn [run_prog mret]. rewrite Hturn. done.
Qed.

(** Without the memory cache the enabled keys of a polling channel are
    taken in turns: requests that come one after the other go round the
    enabled keys in the order of their indexes, each once in every round. *)
Theorem polling_takes_turns draw now k d id c
    (Hrow : channels d !! id = Some c) (Hid : cn_Id c = id) (Hpolls : polls c) :
  ∃ round d', round ≡ₚ GetEnabledKeyIndexes c ∧
    run_prog now (take_keys false draw (k * length (GetEnabledKeyIndexes c)) id) d = (Ok (concat (replicate k round)), d').
Proof.
  destruct (take_keys_turns draw now (k * length (GetEnabledKeyIndexes c)) d id c) as [d' E]; [done..|].
  pose proof (in_turn_perm c (ci_MultiKeyPollingIndex (cn_ChannelInfo c)) Hpolls) as Hperm.
  exists (in_turn c (ci_MultiKeyPollingIndex (cn_ChannelInfo c))), d'. split; [exact Hperm|].
  rewrite E. f_equal. f_equal. rewrite <- turns_rounds. by rewrite (Permutation_length Hperm).
Qed.

(** With the memory cache polling does not move: every request loads a
    copy of the channel from the table and writes the new index into the copy,
    while the index is read from the cache.  All requests take the same key. *)
Theorem memory_cache_stops_polling draw now n d id c cached
    (Hrow : channels d !! id = Some c) (Hid : cn_Id c = id) (Hpolls : polls c) (Hcached : channelsIDM d !! id = Some cached) :
  ∃ idx, run_prog now (take_keys true draw n id) d = (Ok (replicate n idx), d).
Proof.
  assert ((CacheGetChannelInfo true id d).1 = Ok (cn_ChannelInfo cached)) as Hi.
  { unfold CacheGetChannelInfo. unfold_m. cbn. by rewrite Hcached. }
  destruct (in_turn c (ci_MultiKeyPollingIndex (cn_ChannelInfo cached))) as [|x l] eqn:Ex.
  { pose proof (in_turn_perm c (ci_MultiKeyPollingIndex (cn_ChannelInfo cached)) Hpolls) as E. rewrite Ex in E.
    apply Permutation_nil_l in E. by destruct Hpolls as (_ & _ & Hne). }
  exists x. induction n as [|n IH]; [done|]. cbn [take_keys].
  rewrite run_prog_bind, (take_key_polls true draw now d id c _ x l Hrow Hid Hpolls Hi Ex). cbn [save_copy].
  by rewrite run_prog_bind, IH.
Qed.
End keys.

(** *** Concrete channels *)

#[export] Instance no_json : JsonArrays := λ _, None.

(** Three keys, the second one disabled, taken in turns. *)
Definition three_keys : Channel :=
  MkChannel 5 ("sk-a" +:+ newline +:+ "sk-b" +:+ newline +:+ "sk-c") [] 1 (MkOtherInfo None None)
    (MkChannelInfo true 3 {[1 := 3]} {[1 := "quota"]} {[1 := 1700000000]} 2 "polling").
Definition three_db : kdb := MkKdb {[5 := three_keys]} ∅ {[5 := true]}.
Definition cached_db : kdb := exec (InitChannelCache true) three_db.

Lemma next_key_spec_witness :
  usable_keys three_keys {[2]} = [0] ∧
  ∃ key idx recv, (GetNextEnabledKeyExcluding false (λ _, 0%nat) (Copy three_keys) {[2]} three_db).1 = Ok (key, idx, recv) ∧
    idx ∈ usable_keys three_keys {[2]} ∧ key_of three_keys idx = Some key.
Proof.
  assert (usable_keys three_keys {[2]} = [0]) as E by (by vm_compute). split; [exact E|].
  destruct (proj2 (next_key_spec false (λ _, 0%nat) three_keys {[2]} three_db (λ n H, H))) as [H|[_ [e H]]];
    [by rewrite E|exact H|by vm_compute in H].
Defined.

Lemma polls_three : polls three_keys.
Proof. by vm_compute. Qed.

Lemma polling_takes_turns_witness :
  ∃ round d', round ≡ₚ [0; 2] ∧
    run_prog 0 (take_keys false (λ _, 0%nat) 4 5) three_db = (Ok (concat (replicate 2 round)), d').
Proof. exact (polling_takes_turns (λ _, 0%nat) 0 2 three_db 5 three_keys eq_refl eq_refl polls_three). Defined.

Lemma memory_cache_stops_polling_witness :
  ∃ idx, run_prog 0 (take_keys true (λ _, 0%nat) 10 5) cached_db = (Ok (replicate 10 idx), cached_db).
Proof.
  exact (memory_cache_stops_polling (λ _, 0%nat) 0 10 cached_db 5 three_keys (three_keys <| cn_Keys := ["sk-a"; "sk-b"; "sk-c"] |>)
           eq_refl eq_refl polls_three eq_refl).
Defined.

(** ** Status updates and polls interleave *)

Inductive key_op :=
  | TakeKey (id : Z) (excluded : gset Z)
  | SetStatus (id : Z) (usingKey : string) (status : Z) (reason : string).

Definition key_prog (op : key_op) : prog kdb unit :=
  match op with
  | TakeKey id excluded => take_key false (λ _, 0%nat) id excluded;; mret tt
  | SetStatus id usingKey status reason =>
      now ← clock; query (UpdateChannelStatus false now id usingKey status reason);; mret tt
  end.

Definition enabled_in (d : kdb) (id : Z) : option (list Z) := GetEnabledKeyIndexes <$> channels d !! id.

(** A poll undoes the disabling of a key.  The request has loaded the
    channel when another one disables the key that failed; the poll then writes
    the [channel_info] of its copy, polling index and statuses, and the key is
    enabled again.  The comment of [UpdateChannelStatus] says the lock keeps
    either writer from saving a stale snapshot. *)
Theorem stale_poll_enables_key :
  let acts := [Spawn (TakeKey 5 ∅); Step 0;
               Spawn (SetStatus 5 "sk-a" ChannelStatusAutoDisabled "invalid key"); Step 1; Step 1] in
  let disabled := run_actions key_prog acts (MkConfig three_db 1700000000 []) in
  let polled := run_actions key_prog [Step 0] disabled in
  enabled_in (c_db disabled) 5 = Some [2] ∧ enabled_in (c_db polled) 5 = Some [0; 2] ∧
  Forall (λ p, p.2 = Ret (Ok tt)) (c_procs polled).
Proof. vm_compute. repeat constructor. Qed.
