(* ===== verification/RetryPlan.v ===== *)
(** * The attempts of a request

    src/service/route_live.go and the retry budget of src/service/route_health.go:
    the list of attempts a selection leaves, which of them may follow an
    error, and how long to wait.  The functions are pure. *)

From Stdlib Require Import SpecFloat.
From S2P Require Import Prelude GoStrings QuotaMath RouteHealth RouteLease RouteSelect.
#[local] Open Scope string_scope.
#[local] Open Scope list_scope.
#[local] Open Scope Z_scope.

(** ** The budget *)

Record RouteRetryBudget := MkBudget {
  bu_SameKeyAttempts : Z; bu_SameChannelAttempts : Z; bu_FailoverAttempts : Z; bu_TotalAttempts : Z
}.
Record RouteRetryCounters := MkCounters {
  co_SameKeyAttempts : Z; co_SameChannelAttempts : Z; co_FailoverAttempts : Z; co_TotalAttempts : Z
}.
#[global] Instance eta_Counters : Eta RouteRetryCounters := λ c,
  MkCounters (co_SameKeyAttempts c) (co_SameChannelAttempts c) (co_FailoverAttempts c) (co_TotalAttempts c).

Inductive RouteRetryRelation := RouteRetrySameKey | RouteRetrySameChannel | RouteRetryFailover.
#[global] Instance RouteRetryRelation_eq_dec : EqDecision RouteRetryRelation.
Proof. solve_decision. Defined.

Definition DefaultSameKeyAttempts : Z := 0.
Definition DefaultSameChannelAttempts : Z := 1.
Definition DefaultFailoverAttempts : Z := 2.
Definition DefaultTotalAttempts : Z := 3.
Definition DefaultRetryBackoff : Z := 250000000.
Definition DefaultRetryBackoffMax : Z := 2 * Second.

Definition DefaultRouteRetryBudget : RouteRetryBudget :=
  MkBudget DefaultSameKeyAttempts DefaultSameChannelAttempts DefaultFailoverAttempts DefaultTotalAttempts.

Definition Allows (b : RouteRetryBudget) (class : RouteErrorClassification) (relation : RouteRetryRelation) (counters : RouteRetryCounters) : bool :=
  if bu_TotalAttempts b <=? co_TotalAttempts counters then false
  else match relation with
  | RouteRetrySameKey => rc_Retryable class && (co_SameKeyAttempts counters <? bu_SameKeyAttempts b)
  | RouteRetrySameChannel => rc_Retryable class && (co_SameChannelAttempts counters <? bu_SameChannelAttempts b)
  | RouteRetryFailover => rc_Failoverable class && (co_FailoverAttempts counters <? bu_FailoverAttempts b)
  end.

(** ** A selection and its attempts *)

Definition RoutePolicyRetryNone : string := "none".
Definition RoutePolicyRetrySameChannel : string := "same_channel".
Definition RoutePolicyRetryNextChannel : string := "next_channel".
Definition RoutePolicyRetrySameThenNext : string := "same_then_next".

Record RouteLiveRetryPolicy := MkRetryPolicy { rp_Mode : string; rp_MaxSameResourceAttempts : Z; rp_MaxFailoverAttempts : Z }.

(** [if n < 0 { n = 0 }; if n > max { n = max }] *)
Definition clamp (n max : Z) : Z := let n := if n <? 0 then 0 else n in if max <? n then max else n.

Definition Budget (policy : RouteLiveRetryPolicy) : RouteRetryBudget :=
  if bool_decide (rp_Mode policy = "") then DefaultRouteRetryBudget
  else MkBudget DefaultSameKeyAttempts (clamp (rp_MaxSameResourceAttempts policy) DefaultSameChannelAttempts)
         (clamp (rp_MaxFailoverAttempts policy) DefaultFailoverAttempts) DefaultTotalAttempts.

Record LiveRouteSelection := MkLiveSelection {
  ls_SpecificChannelID : Z; ls_Source : RouteSource; ls_Decision : RouteDecision;
  ls_Attempts : list RouteDecisionCandidate; ls_MaxRatio : float64; ls_Retry : RouteLiveRetryPolicy
}.
#[global] Instance eta_LiveSelection : Eta LiveRouteSelection := λ s,
  MkLiveSelection (ls_SpecificChannelID s) (ls_Source s) (ls_Decision s) (ls_Attempts s) (ls_MaxRatio s) (ls_Retry s).

Definition finite_nonneg (f : float64) : bool :=
  match f with S754_nan | S754_infinity _ => false | _ => negb (SFltb f (f64 0)) end.

Definition AllowsPriceRatio (selection : LiveRouteSelection) (actualRatio : float64) : bool :=
  if negb (bool_decide (ls_Source selection = RouteSourceManual)) || SFleb (ls_MaxRatio selection) (f64 0) then true
  else if negb (finite_nonneg actualRatio) then false
  else SFleb actualRatio (ls_MaxRatio selection).

(** [for index := from; index < len(attempts); index++]: the first attempt
    from [index] on that satisfies a condition. *)
Fixpoint scan_attempts (ok : RouteDecisionCandidate → bool) (index : Z) (attempts : list RouteDecisionCandidate)
    : option (RouteDecisionCandidate * Z) :=
  match attempts with
  | [] => None
  | c :: attempts => if ok c then Some (c, index) else scan_attempts ok (index + 1) attempts
  end.

Definition not_filtered (c : RouteDecisionCandidate) : bool := bool_decide (dc_FilterReason c = "").

Definition CandidateAtOrAfter (selection : LiveRouteSelection) (attempt : Z) : option (RouteDecisionCandidate * Z) :=
  let attempt := if attempt <? 0 then 0 else attempt in
  scan_attempts not_filtered attempt (drop (Z.to_nat attempt) (ls_Attempts selection)).

Definition CandidateForAttempt (selection : LiveRouteSelection) (attempt : Z) : option RouteDecisionCandidate :=
  fst <$> CandidateAtOrAfter selection attempt.

Definition relation_to (currentChannelID : Z) (c : RouteDecisionCandidate) : RouteRetryRelation :=
  if dc_ChannelID c =? currentChannelID then RouteRetrySameChannel else RouteRetryFailover.

Definition NextCandidateForError (selection : LiveRouteSelection) (currentAttempt currentChannelID : Z)
    (class : RouteErrorClassification) (counters : RouteRetryCounters) : option (RouteDecisionCandidate * Z) :=
  let mode := rp_Mode (ls_Retry selection) in
  if bool_decide (mode = RoutePolicyRetryNone) then None
  else
    let budget := Budget (ls_Retry selection) in
    scan_attempts (λ c,
      let relation := relation_to currentChannelID c in
      not_filtered c &&
      negb (bool_decide (mode = RoutePolicyRetrySameChannel) && negb (bool_decide (relation = RouteRetrySameChannel))) &&
      negb (bool_decide (mode = RoutePolicyRetryNextChannel) && negb (bool_decide (relation = RouteRetryFailover))) &&
      Allows budget class relation counters)
      (currentAttempt + 1) (drop (Z.to_nat (currentAttempt + 1)) (ls_Attempts selection)).

(** ** The attempts of a selection *)

(** The decision's entry of a chosen candidate, if it is not filtered. *)
Definition decision_entry (decision : RouteDecision) (c : RouteSelectionCandidate) : option RouteDecisionCandidate :=
  head (filter (λ d, dc_ChannelID d = sc_ChannelID c ∧ dc_FilterReason d = "") (rd_Candidates decision)).

Definition availableRouteAttemptCandidates (decision : RouteDecision) (candidates : list RouteSelectionCandidate) : list RouteDecisionCandidate :=
  omap (decision_entry decision) candidates.

Definition selectedRouteAttemptCandidates (decision : RouteDecision) (candidates : list RouteSelectionCandidate) : list RouteDecisionCandidate :=
  concat ((λ c, c :: (if 0 <? DefaultSameChannelAttempts then [c] else [])) <$> availableRouteAttemptCandidates decision candidates).

Definition manualRouteAttemptCandidates (decision : RouteDecision) (candidates : list RouteSelectionCandidate) (policy : RouteLiveRetryPolicy)
    : list RouteDecisionCandidate :=
  let available := availableRouteAttemptCandidates decision candidates in
  match available with
  | [] => available
  | first :: _ =>
      let mode := if bool_decide (rp_Mode policy = "") then RoutePolicyRetryNextChannel else rp_Mode policy in
      let same_resource c := replicate (S (Z.to_nat (clamp (rp_MaxSameResourceAttempts policy) DefaultSameChannelAttempts))) c in
      let failovers := Z.to_nat (clamp (rp_MaxFailoverAttempts policy) DefaultFailoverAttempts) in
      if bool_decide (mode = RoutePolicyRetryNone) then [first]
      else if bool_decide (mode = RoutePolicyRetrySameChannel) then same_resource first
      else if bool_decide (mode = RoutePolicyRetrySameThenNext) then concat (same_resource <$> take (S failovers) available)
      else take (S failovers) available
  end.

(** ** Waiting *)

(** [time.Duration(float64(base) * random01)] *)
Definition jitter (base : Z) (random01 : float64) : Z :=
  let random01 := if SFltb random01 (f64 0) then f64 0 else if SFltb (f64 1) random01 then f64 1 else random01 in
  match SFmul 53 1024 (f64 base) random01 with
  | S754_finite s m e => (if s then -1 else 1) * (if 0 <=? e then Z.pos m * 2 ^ e else Z.pos m / 2 ^ (- e))
  | _ => 0
  end.

Definition RouteBackoff (attempt retryAfter remaining : Z) (random01 : float64) : Z :=
  let attempt := if attempt <? 0 then 0 else attempt in
  let base := DefaultRetryBackoff * Z.shiftl 1 (Z.min attempt 4) in
  let base := if DefaultRetryBackoffMax <? base then DefaultRetryBackoffMax else base in
  let delay := jitter base random01 in
  let delay := if delay <? retryAfter then retryAfter else delay in
  if (0 <? remaining) && (remaining <? delay) then remaining else delay.

(** ** The scan *)

Lemma scan_attempts_spec ok i l c j :
  scan_attempts ok i l = Some (c, j) → i <= j < i + Z.of_nat (length l) ∧ c ∈ l ∧ ok c.
Proof.
  revert i. induction l as [|x l IH]; intros i; cbn [scan_attempts]; [done|].
  destruct (ok x) eqn:E; [intros [= <- <-]|intros H%IH]; cbn [length].
  - split_and!; [lia..|by left|by rewrite E].
  - destruct H as (? & ? & ?). split_and!; [lia..|by right|done].
Qed.

Lemma candidate_spec selection i c j :
  CandidateAtOrAfter selection i = Some (c, j) →
  i <= j ∧ 0 <= j < Z.of_nat (length (ls_Attempts selection)) ∧ c ∈ ls_Attempts selection.
Proof.
  unfold CandidateAtOrAfter. intros (Hj & Hc & _)%scan_attempts_spec. rewrite length_drop in Hj.
  apply subseteq_drop in Hc. destruct (i <? 0) eqn:E; split_and!; lia || done.
Qed.

(** It finds the first one. *)
Lemma scan_attempts_first ok i l :
  match scan_attempts ok i l with
  | Some (c, j) => i <= j ∧ l !! Z.to_nat (j - i) = Some c ∧ ok c ∧ ∀ k d, i <= k < j → l !! Z.to_nat (k - i) = Some d → ¬ ok d
  | None => ∀ d, d ∈ l → ¬ ok d
  end.
Proof.
  revert i. induction l as [|x l IH]; intros i; cbn [scan_attempts]; [by intros d ?%not_elem_of_nil|].
  destruct (ok x) eqn:Ex.
  { split_and!; [lia|by rewrite Z.sub_diag|by rewrite Ex|lia]. }
  specialize (IH (i + 1)). destruct (scan_attempts ok (i + 1) l) as [[c j]|].
  - destruct IH as (I1 & I2 & I3 & I4). split_and!; [lia| |done|].
    + replace (Z.to_nat (j - i)) with (S (Z.to_nat (j - (i + 1)))) by lia. done.
    + intros k d Hk. destruct (decide (k = i)) as [->|Hne]; [rewrite Z.sub_diag; intros [= <-]; rewrite Ex; by intros []|].
      replace (Z.to_nat (k - i)) with (S (Z.to_nat (k - (i + 1)))) by lia. apply I4. lia.
  - intros d [->|Hd]%elem_of_cons; [rewrite Ex; by intros []|by apply IH].
Qed.

(** ** The plan of a manual route *)

(** An attempt stands for one of the candidates and is not filtered. *)
Definition planned (decision : RouteDecision) (candidates : list RouteSelectionCandidate) (c : RouteDecisionCandidate) : Prop :=
  c ∈ rd_Candidates decision ∧ dc_FilterReason c = "" ∧ ∃ k, k ∈ candidates ∧ sc_ChannelID k = dc_ChannelID c.

Lemma available_planned decision candidates : Forall (planned decision candidates) (availableRouteAttemptCandidates decision candidates).
Proof.
  apply Forall_forall. intros c (k & Hk & Hd)%list_elem_of_omap. unfold decision_entry in Hd.
  apply head_Some_elem_of, list_elem_of_filter in Hd as [[He Hf] Hin]. split_and!; [done..|]. exists k. by rewrite He.
Qed.

Lemma clamp_range n max : 0 <= max → 0 <= clamp n max <= max.
Proof. intros Hm. unfold clamp. repeat case_match; lia. Qed.

Lemma concat_length_le {A B} (f : A → list B) n l : (∀ x, length (f x) <= n)%nat → (length (concat (f <$> l)) <= length l * n)%nat.
Proof. intros Hf. induction l as [|x l IH]; [done|]. cbn. rewrite length_app. specialize (Hf x). lia. Qed.

(** The attempts of a manual route stand for its candidates that passed
    every filter, the first of them first; a policy can only shorten the plan,
    which never has more than two attempts on each of three channels. *)
Theorem manual_plan_wf decision candidates policy :
  let plan := manualRouteAttemptCandidates decision candidates policy in
  Forall (planned decision candidates) plan ∧ head plan = head (availableRouteAttemptCandidates decision candidates) ∧
  (Z.of_nat (length plan) <= (DefaultFailoverAttempts + 1) * (DefaultSameChannelAttempts + 1)) ∧
  (rp_Mode policy = RoutePolicyRetryNone → (length plan <= 1)%nat) ∧
  (rp_Mode policy = RoutePolicyRetryNextChannel → plan `prefix_of` availableRouteAttemptCandidates decision candidates).
Proof.
  cbn. unfold manualRouteAttemptCandidates. pose proof (available_planned decision candidates) as Hav.
  destruct (availableRouteAttemptCandidates decision candidates) as [|first rest] eqn:Ea; [split_and!; [constructor|done..|intros _; cbn; lia|intros _; by exists []]|].
  pose proof (clamp_range (rp_MaxSameResourceAttempts policy) DefaultSameChannelAttempts ltac:(done)) as Hs.
  pose proof (clamp_range (rp_MaxFailoverAttempts policy) DefaultFailoverAttempts ltac:(done)) as Hf.
  set (same := clamp (rp_MaxSameResourceAttempts policy) DefaultSameChannelAttempts) in *.
  set (fail := clamp (rp_MaxFailoverAttempts policy) DefaultFailoverAttempts) in *. clearbody same fail. clear Ea.
  unfold DefaultSameChannelAttempts, DefaultFailoverAttempts in *. pose proof Hav as [Hfirst _]%Forall_cons.
  assert (∀ c, planned decision candidates c → Forall (planned decision candidates) (replicate (S (Z.to_nat same)) c)) as Hrep
    by (intros c Hc; by apply Forall_replicate).
  assert (Forall (planned decision candidates) (take (S (Z.to_nat fail)) (first :: rest))) as Htake by (by apply Forall_take).
  assert (length (take (S (Z.to_nat fail)) (first :: rest)) <= 3)%nat as Hlen by (rewrite length_take; lia).
  repeat case_bool_decide; split_and!; try (by intros E; rewrite E in *); try done; try (cbn [length]; rewrite ?length_replicate; lia).
  - by apply Forall_singleton.
  - by apply Hrep.
  - apply Forall_concat, Forall_fmap. by apply (Forall_impl _ _ _ Htake).
  - pose proof (concat_length_le (λ c, replicate (S (Z.to_nat same)) c) 2 (take (S (Z.to_nat fail)) (first :: rest))) as Hc.
    specialize (Hc ltac:(intros x; rewrite length_replicate; lia)). lia.
  - intros _. apply prefix_take.
Qed.

(** ** The next attempt *)

(** The attempts that may follow an error on a channel. *)
Definition allowed (selection : LiveRouteSelection) (channelID : Z) (class : RouteErrorClassification) (counters : RouteRetryCounters)
    (c : RouteDecisionCandidate) : Prop :=
  let mode := rp_Mode (ls_Retry selection) in
  let budget := Budget (ls_Retry selection) in
  dc_FilterReason c = "" ∧ co_TotalAttempts counters < DefaultTotalAttempts ∧
  (if decide (dc_ChannelID c = channelID)
   then mode ≠ RoutePolicyRetryNextChannel ∧ rc_Retryable class = true ∧ co_SameChannelAttempts counters < bu_SameChannelAttempts budget
   else mode ≠ RoutePolicyRetrySameChannel ∧ rc_Failoverable class = true ∧ co_FailoverAttempts counters < bu_FailoverAttempts budget).

Lemma budget_total policy : bu_TotalAttempts (Budget policy) = DefaultTotalAttempts.
Proof. unfold Budget. by case_bool_decide. Qed.

Lemma next_test_allowed selection channelID class counters c :
  let mode := rp_Mode (ls_Retry selection) in
  let relation := relation_to channelID c in
  Is_true (not_filtered c &&
    negb (bool_decide (mode = RoutePolicyRetrySameChannel) && negb (bool_decide (relation = RouteRetrySameChannel))) &&
    negb (bool_decide (mode = RoutePolicyRetryNextChannel) && negb (bool_decide (relation = RouteRetryFailover))) &&
    Allows (Budget (ls_Retry selection)) class relation counters) ↔ allowed selection channelID class counters c.
Proof.
  cbn zeta. unfold allowed, not_filtered, relation_to, Allows. rewrite budget_total.
  destruct (decide (dc_ChannelID c = channelID)) as [->|Hne]; [rewrite Z.eqb_refl|rewrite (proj2 (Z.eqb_neq _ _)) by done].
  all: destruct (DefaultTotalAttempts <=? _) eqn:Et; repeat (rewrite bool_decide_true by done);
    rewrite ?(bool_decide_false (_ = RouteRetryFailover)), ?(bool_decide_false (_ = RouteRetrySameChannel)) by done;
    cbn [negb]; rewrite ?andb_false_r; cbn [negb]; rewrite ?andb_true_r, ?andb_false_r;
    rewrite ?Is_true_true, ?andb_true_iff, ?negb_true_iff, ?bool_decide_eq_true, ?bool_decide_eq_false, ?Z.ltb_lt.
  all: first [apply Z.leb_gt in Et; tauto|apply Z.leb_le in Et; split; [done|lia]].
Qed.

(** The attempt that follows an error is the first later one that is not
    filtered, that the mode allows and whose budget is not used up, whether it
    stays on the channel or leaves it; there is none exactly when no later
    attempt is such. *)
Theorem next_candidate_spec selection current channelID class counters :
  -1 <= current → rp_Mode (ls_Retry selection) ≠ RoutePolicyRetryNone →
  let attempts := ls_Attempts selection in
  match NextCandidateForError selection current channelID class counters with
  | Some (c, i) =>
      current < i ∧ attempts !! Z.to_nat i = Some c ∧ allowed selection channelID class counters c ∧
      ∀ j d, current < j < i → attempts !! Z.to_nat j = Some d → ¬ allowed selection channelID class counters d
  | None => ∀ j d, current < j → attempts !! Z.to_nat j = Some d → ¬ allowed selection channelID class counters d
  end.
Proof.
  intros Hcur Hmode attempts. unfold NextCandidateForError. rewrite bool_decide_false by done.
  pose proof (next_test_allowed selection channelID class counters) as Hok. cbn zeta in Hok.
  set (ok := λ c : RouteDecisionCandidate, _). change (∀ c, ok c ↔ allowed selection channelID class counters c) in Hok. clearbody ok.
  fold attempts. pose proof (scan_attempts_first ok (current + 1) (drop (Z.to_nat (current + 1)) attempts)) as Hscan.
  assert (∀ j, current < j → drop (Z.to_nat (current + 1)) attempts !! Z.to_nat (j - (current + 1)) = attempts !! Z.to_nat j) as Hdrop.
  { intros j Hj. rewrite lookup_drop. f_equal. lia. }
  destruct (scan_attempts _ _ _) as [[c i]|].
  - destruct Hscan as (H1 & H2 & H3 & H4). rewrite Hdrop in H2 by lia. split_and!; [lia|done|by apply Hok|].
    intros j d Hj Hd. rewrite <-Hok. apply (H4 j); [lia|]. by rewrite Hdrop by lia.
  - intros j d Hj Hd. rewrite <-Hok. apply Hscan. rewrite <-Hdrop in Hd by lia. by eapply list_elem_of_lookup_2.
Qed.

(** *** A manual route *)

Definition entry_of (ch : Z) : RouteDecisionCandidate := MkDecisionCandidate ch "gpt" "" 0 0 1 1 1 "v1" None "".
Definition two_channels : LiveRouteSelection :=
  MkLiveSelection 0 RouteSourceManual (NewRouteDecision "r1" RouteSourceManual "gpt" 1 0) (entry_of <$> [7; 7; 8; 8]) (f64 0)
    (MkRetryPolicy RoutePolicyRetrySameThenNext 1 2).
Definition transient : RouteErrorClassification := MkClassification RouteErrorTransient true true false false true.

(** After one retry on channel 7 the next attempt is the first one on 8. *)
Lemma next_candidate_spec_witness :
  NextCandidateForError two_channels 1 7 transient (MkCounters 0 1 0 2) = Some (entry_of 8, 2) ∧
  allowed two_channels 7 transient (MkCounters 0 1 0 2) (entry_of 8).
Proof.
  assert (NextCandidateForError two_channels 1 7 transient (MkCounters 0 1 0 2) = Some (entry_of 8, 2)) as E by (by vm_compute).
  split; [exact E|]. pose proof (next_candidate_spec two_channels 1 7 transient (MkCounters 0 1 0 2)) as H. rewrite E in H.
  apply H; [lia|by vm_compute].
Defined.
