(* ===== verification/RelayLoop.v ===== *)
(** * The relay loop

    [Relay] of src/controller/relay.go: one request goes through the attempts
    of its selection until a channel serves it.  Each round takes the next
    candidate, a key of its channel, a price, a lease and a reservation and
    then calls the upstream; an error may move on to another attempt.

    [rctx] holds what the loop keeps in the gin context and in [RelayInfo].
    What databases, Redis and upstreams answer is the environment: a [turn] has
    the answers of one round, and the theorems hold for every sequence of
    turns.  [rx_trace] is history: the calls to the outside in their order.
    The request is not a compaction request ([newCompactRetryState] returns
    nil); see CompactRetry.v for those.  Logging,
    metrics and the texts of responses are left out. *)

From Stdlib Require Import SpecFloat.
From S2P Require Import Prelude GoStrings ApiErrors QuotaMath RouteHealth RouteLease RouteSelect ChannelKeys RetryPlan.
#[local] Open Scope string_scope.
#[local] Open Scope list_scope.
#[local] Open Scope Z_scope.

(** ** Data *)

Definition ErrRoutePriceRatioExceeded : error := ErrNew "route policy maximum price ratio exceeded".
Definition RouteFilterPriceForbidden : string := "price_forbidden".
Definition RouteFilterChannelDisabled : string := "channel_disabled".
Definition RouteFilterKeyUnavailable : string := "key_unavailable".
Definition RouteLeaseStateAcquired : string := "acquired".
Definition RouteLeaseStateReleased : string := "released".
Definition RouteLeaseStateReleaseFailed : string := "release_failed".
Definition RouteLeaseStateRenewalFailed : string := "renewal_failed".

(** The renewal of a lease runs while [rx_renewal] is set; it is [Some true]
    once it has failed. *)

(** Calls to the outside.  An upstream call has its channel, the index of its
    key and whether the response was committed when it returned. *)
Inductive event :=
  | Acquired (channelID : Z)
  | Released (channelID : Z)
  | Prepared
  | Upstream (channelID keyIndex : Z) (committed : bool)
  | ObservedSuccess (channelID : Z)
  | ObservedError (channelID : Z)
  | Refunded
  | Decided (decision : RouteDecision).

Record rctx := MkRctx {
  rx_selection : option LiveRouteSelection;
  rx_counters : RouteRetryCounters;
  rx_previous : option (Z * Z);
  rx_attempted : gmap Z (gset Z);
  rx_channel : Z; rx_multiKey : bool; rx_keyIndex : Z;
  rx_lease : option Z; rx_renewal : option bool; rx_renewalFailed : bool;
  rx_security : bool; rx_priced : bool; rx_ratio : float64;
  rx_written : bool; rx_validOutput : bool; rx_sent : bool;
  rx_billing : bool;
  rx_used : list Z;
  rx_retry : Z;
  rx_error : option error;
  rx_trace : list event
}.
#[global] Instance eta_rctx : Eta rctx := λ s,
  MkRctx (rx_selection s) (rx_counters s) (rx_previous s) (rx_attempted s) (rx_channel s) (rx_multiKey s) (rx_keyIndex s)
    (rx_lease s) (rx_renewal s) (rx_renewalFailed s) (rx_security s) (rx_priced s) (rx_ratio s) (rx_written s) (rx_validOutput s)
    (rx_sent s) (rx_billing s) (rx_used s) (rx_retry s) (rx_error s) (rx_trace s).

Record RouteLeaseRuntimeState := MkRuntimeState {
  rt_ChannelEnabled : bool; rt_HealthEpoch : Z; rt_CapabilityVersion : Z; rt_Capacity : Z; rt_ChannelRatio : float64
}.

(** What an upstream handler did: its error, what it has sent, whether the
    lease's renewal has failed meanwhile, and an error of the settlement. *)
Record upstream_reply := MkUpstream {
  up_error : option error; up_written : bool; up_validOutput : bool; up_sent : bool; up_renewalFailed : bool;
  up_settlementError : option error
}.

(** The answers of one round. *)
Record turn := MkTurn {
  tn_channel : Z → res Channel;                       (* model.GetChannelById *)
  tn_settings : Z → option error;                     (* channel.RoutingSettings *)
  tn_keys : kdb;                                      (* where the polling index is read *)
  tn_draw : nat → nat;                                (* rand.Intn *)
  tn_unavailable : Z → res (gset Z);                  (* UnavailableRouteKeyIndexes *)
  tn_keyUsable : Z → Z → res bool;                    (* RouteKeyHealthUsable *)
  tn_price : res float64;                             (* ModelPriceHelper, the channel ratio *)
  tn_expected : res RouteLeaseRuntimeState;           (* GetRouteRuntimeState before the lease *)
  tn_acquire : res (Z * float64);                     (* AcquireConfiguredRouteLease, the admitted capacity and ratio *)
  tn_current : res RouteLeaseRuntimeState;            (* GetRouteRuntimeState under the lease *)
  tn_recheck : option (string * error);               (* RecheckLiveRouteCandidate, with its reason *)
  tn_final : res RouteLeaseRuntimeState;              (* GetRouteRuntimeState at the end *)
  tn_release : option error;                          (* ReleaseConfiguredRouteLease of the round's lease *)
  tn_releasePrevious : option error;                  (* and of the previous round's *)
  tn_gone : bool;                                     (* the client has left when the lease is held *)
  tn_billing : res bool;                              (* PrepareBillingForSelectedModel: a session is open *)
  tn_body : option error;                             (* GetBodyStorage *)
  tn_upstream : upstream_reply;
  tn_done : bool;                                     (* requestContextDone *)
  tn_wait : bool                                      (* the back-off was waited for *)
}.

(** A round goes on, starts the next round ([continue]) or leaves the loop. *)
Inductive outcome (A : Type) := Go (a : A) | Again | Leave.
Arguments Go {A} a. Arguments Again {A}. Arguments Leave {A}.

Definition L (A : Type) : Type := rctx → outcome A * rctx.
#[global] Instance L_ret : MRet L := λ A a s, (Go a, s).
#[global] Instance L_bind : MBind L := λ A B k m s,
  match m s with
  | (Go a, s') => k a s'
  | (Again, s') => (Again, s')
  | (Leave, s') => (Leave, s')
  end.
Definition set (f : rctx → rctx) : L unit := λ s, (Go tt, f s).
Definition ask {A} (f : rctx → A) : L A := λ s, (Go (f s), s).
Definition again {A} : L A := λ s, (Again, s).
Definition leave {A} : L A := λ s, (Leave, s).
(** [newAPIError = e; break] *)
Definition leave_with {A} (e : error) : L A := set (λ s, s <| rx_error := Some e |>);; leave.
Definition emit (ev : event) : L unit := set (λ s, s <| rx_trace ::= (λ t, t ++ [ev]) |>).

(** ** The context *)

Definition active_selection (s : rctx) : option LiveRouteSelection :=
  match rx_selection s with
  | Some sel => if bool_decide (ls_Source sel = RouteSourceUnavailable) then None else Some sel
  | None => None
  end.
Definition routeLiveSelectionActive (s : rctx) : bool := match active_selection s with Some _ => true | None => false end.
Definition relayResponseCommitted (s : rctx) : bool := rx_written s || rx_validOutput s.

Definition relayRetryLimit (RetryTimes : Z) (s : rctx) : Z :=
  match active_selection s with
  | Some sel => if bool_decide (ls_Attempts sel = []) then DefaultTotalAttempts - 1 else Z.of_nat (length (ls_Attempts sel)) - 1
  | None => RetryTimes
  end.

(** A change of the selection that is in force. *)
Definition update_selection (f : LiveRouteSelection → LiveRouteSelection) (s : rctx) : rctx :=
  match active_selection s with Some sel => s <| rx_selection := Some (f sel) |> | None => s end.

Definition markLiveRouteAttempt (channelID : Z) (state : string) (s : rctx) : rctx :=
  if channelID <=? 0 then s
  else update_selection (λ sel, sel <| ls_Decision ::= (λ d,
         d <| rd_SelectedChannelID := channelID |> <| rd_LeaseState := state |>
           <| rd_Candidates ::= fmap (λ c, if dc_ChannelID c =? channelID then c <| dc_LeaseState := state |> else c) |>) |>) s.

Definition markLiveRouteCandidateFiltered (channelID : Z) (reason : string) (s : rctx) : rctx :=
  if (channelID <=? 0) || bool_decide (reason = "") then s
  else update_selection (λ sel,
    sel <| ls_Decision ::= (λ d,
             let d := d <| rd_Candidates ::= fmap (λ c,
               if (dc_ChannelID c =? channelID) && not_filtered c
               then c <| dc_FilterReason := reason |> <| dc_LeaseState := "qualification_failed" |> else c) |>
                      <| rd_LeaseState := "qualification_failed" |> in
             if rd_SelectedChannelID d =? channelID then d <| rd_SelectedChannelID := 0 |> else d) |>
        <| ls_Attempts ::= fmap (λ c, if dc_ChannelID c =? channelID then c <| dc_FilterReason := reason |> else c) |>) s.

Definition recordLiveRouteGovernanceFailure (channelID : Z) (code : string) (s : rctx) : rctx :=
  let s := if bool_decide (code = "lease_release_failed") then markLiveRouteAttempt channelID RouteLeaseStateReleaseFailed s else s in
  update_selection (λ sel, sel <| ls_Decision ::= (λ d, SetFinalError d code) |>) s.

(** ** Leases *)

(** The error of an admission and the reason of a failed qualification, empty
    when there is none. *)
Definition lease_error : Type := string * error.
Definition plain (e : error) : lease_error := ("", e).

Definition LiveRouteQualificationAllowsFailover (e : lease_error) : bool :=
  error_is e.2 ErrRouteLeaseCapacity ||
  bool_decide (e.1 ∈ ["snapshot_unavailable"; "snapshot_stale"; "unknown_capability"; "unsupported_capability"; "channel_disabled";
                      "ability_disabled"; "path_unsupported"; "entitlement_revoked"; "mapping_conflict"; "configuration_stale";
                      "group_disabled"; "entry_missing"; "entry_disabled"; "source_unsupported"]).

Definition RecheckRouteLeaseRuntime (expected current : RouteLeaseRuntimeState) : option error :=
  if negb (rt_ChannelEnabled expected) || negb (rt_ChannelEnabled current) ||
     (rt_Capacity expected <=? 0) || negb (rt_Capacity expected =? rt_Capacity current) ||
     SFleb (rt_ChannelRatio expected) (f64 0) || negb (SFeqb (rt_ChannelRatio expected) (rt_ChannelRatio current)) ||
     negb (rt_HealthEpoch expected =? rt_HealthEpoch current) || negb (rt_CapabilityVersion expected =? rt_CapabilityVersion current)
  then Some ErrRouteLeaseRuntime else None.

Definition releaseRejectedRouteAttemptLease (t : turn) (channelID : Z) (cause : lease_error) : L lease_error :=
  emit (Released channelID);;
  match tn_release t with
  | None => mret cause
  | Some e =>
      set (markLiveRouteAttempt channelID RouteLeaseStateReleaseFailed);;
      mret (cause.1, ErrJoin cause.2 (ErrWrap "release rejected route lease" e))
  end.

Definition releaseUncommittedRouteLease (t : turn) (channelID : Z) (cause : error) : L lease_error :=
  emit (Released channelID);;
  match tn_release t with
  | None => set (markLiveRouteAttempt channelID RouteLeaseStateReleased);; mret (plain cause)
  | Some e =>
      set (recordLiveRouteGovernanceFailure channelID "lease_release_failed");;
      mret (plain (ErrJoin cause (ErrWrap "release uncommitted live route lease" e)))
  end.

(** The channel a failed renewal is recorded for. *)
Definition renewal_channel (s : rctx) : Z :=
  let channelID := match rx_lease s with Some l => l | None => rx_channel s end in
  if 0 <? channelID then channelID
  else match rx_selection s with
  | Some sel =>
      let selected := rd_SelectedChannelID (ls_Decision sel) in
      if 0 <? selected then selected else match ls_Attempts sel with c :: _ => dc_ChannelID c | [] => selected end
  | None => channelID
  end.

Definition releaseRouteAttemptLease (answer : option error) : L unit :=
  s ← ask id;
  (match rx_renewal s with
   | Some failed =>
       (if failed : bool then set (λ s, markLiveRouteAttempt (renewal_channel s) RouteLeaseStateRenewalFailed (s <| rx_renewalFailed := true |>))
        else mret tt);;
       set (λ s, s <| rx_renewal := None |>)
   | None => mret tt
   end);;
  (match rx_lease s with
   | Some channelID =>
       emit (Released channelID);;
       set (match answer with
            | Some _ => recordLiveRouteGovernanceFailure channelID "lease_release_failed"
            | None => markLiveRouteAttempt channelID RouteLeaseStateReleased
            end)
   | None => mret tt
   end);;
  set (λ s, s <| rx_lease := None |>).

(** [None]: the lease is held. *)
Definition acquireRouteAttemptLease (t : turn) (channel : Channel) (attempt : Z) : L (option lease_error) :=
  s ← ask id;
  let refuse (e : error) : L (option lease_error) := mret (Some (plain e)) in
  match active_selection s with
  | None => refuse ErrRouteSelectionUnavailable
  | Some selection =>
      match CandidateForAttempt selection attempt with
      | None => refuse ErrRouteSelectionUnavailable
      | Some candidate =>
          if negb (dc_ChannelID candidate =? cn_Id channel) then refuse ErrRouteSelectionUnavailable
          else match tn_expected t with
          | Err e => refuse e
          | Ok expected =>
              if (dc_SnapshotVersion candidate <=? 0) || negb (rt_CapabilityVersion expected =? dc_SnapshotVersion candidate) then refuse ErrRouteLeaseRuntime
              else if (dc_HealthEpoch candidate <=? 0) || negb (rt_HealthEpoch expected =? dc_HealthEpoch candidate) then refuse ErrRouteLeaseRuntime
              else if negb (SFeqb (rt_ChannelRatio expected) (rx_ratio s)) then refuse ErrRouteLeaseRuntime
              else if negb (rx_priced s && rx_security s)
              then mret (Some ("runtime_qualification_unavailable",
                               ErrNew "live route candidate failed final qualification: runtime_qualification_unavailable"))
              else match tn_acquire t with
              | Err e => refuse e
              | Ok (capacity, ratio) =>
                  let lease := cn_Id channel in
                  let uncommitted (e : error) : L (option lease_error) := le ← releaseUncommittedRouteLease t lease e; mret (Some le) in
                  emit (Acquired lease);;
                  if negb (capacity =? rt_Capacity expected) || negb (SFeqb ratio (rt_ChannelRatio expected)) then uncommitted ErrRouteLeaseRuntime
                  else match tn_current t with
                  | Err e => uncommitted e
                  | Ok current =>
                      match RecheckRouteLeaseRuntime expected current with
                      | Some e => uncommitted e
                      | None =>
                          match tn_recheck t with
                          | Some qualification =>
                              (if bool_decide (qualification.1 = "") then mret tt
                               else set (markLiveRouteCandidateFiltered lease qualification.1));;
                              le ← releaseRejectedRouteAttemptLease t lease qualification; mret (Some le)
                          | None =>
                              match tn_final t with
                              | Err e => uncommitted e
                              | Ok final =>
                                  match RecheckRouteLeaseRuntime expected final with
                                  | Some e => uncommitted e
                                  | None =>
                                      set (λ s, markLiveRouteAttempt lease RouteLeaseStateAcquired (s <| rx_lease := Some lease |>));;
                                      if tn_gone t then le ← releaseRejectedRouteAttemptLease t lease (plain (ErrNew "context canceled")); mret (Some le)
                                      else set (λ s, s <| rx_renewal := Some false |>);; mret None
                                  end
                              end
                          end
                      end
                  end
              end
          end
      end
  end.

(** ** Channels and keys *)

Section loop.
Context `{GoText, JsonArrays} (MemoryCacheEnabled : bool) (RetryTimes : Z) (NormalizeViolationFeeError : error → error).

(** The loop of [SetupContextForSelectedChannel] (src/middleware/distributor.go)
    that looks for a healthy key: the index, and the keys it has excluded.  A
    round excludes one more key; the bound is above their number. *)
Definition too_many_keys : error := ErrNew "key loop bound".
Fixpoint choose_key (fuel : nat) (t : turn) (liveRouteActive : bool) (recv : receiver) (channelID : Z) (excluded : gset Z) (d : kdb)
    : res Z * gset Z :=
  match fuel with
  | O => (Err too_many_keys, excluded)
  | S fuel =>
      match GetNextEnabledKeyExcluding MemoryCacheEnabled (tn_draw t) recv excluded d with
      | (Err e, _) => (Err e, excluded)
      | (Ok (_, index, recv), d) =>
          if negb liveRouteActive then (Ok index, excluded)
          else match tn_keyUsable t channelID index with
          | Err e => (Err (NewError e ErrorCodeGetChannelFailed [ErrOptionWithSkipRetry]), excluded)
          | Ok true => (Ok index, excluded)
          | Ok false => choose_key fuel t liveRouteActive recv channelID ({[index]} ∪ excluded) d
          end
      end
  end.

(** The map of attempted keys of the channel is not copied: when there is one,
    the keys excluded here are added to it. *)
Definition exclude_keys (channelID : Z) (keys : gset Z) (s : rctx) : rctx :=
  match rx_attempted s !! channelID with Some _ => s <| rx_attempted ::= <[channelID := keys]> |> | None => s end.

(** [None]: a key is chosen. *)
Definition SetupContextForSelectedChannel (t : turn) (channel : Channel) : L (option error) :=
  let channelID := cn_Id channel in
  set (λ s, s <| rx_channel := channelID |>);;
  match tn_settings t channelID with
  | Some e => mret (Some (NewError e ErrorCodeModelPriceError [ErrOptionWithSkipRetry]))
  | None =>
      s ← ask id;
      let active := routeLiveSelectionActive s in
      let attempted := default ∅ (rx_attempted s !! channelID) in
      match (if active then tn_unavailable t channelID else Ok ∅) with
      | Err e => mret (Some (NewError e ErrorCodeGetChannelFailed [ErrOptionWithSkipRetry]))
      | Ok unavailable =>
          let '(chosen, excluded) :=
            choose_key (S (S (length (GetKeys channel)))) t active (Copy channel) channelID (attempted ∪ unavailable) (tn_keys t) in
          set (exclude_keys channelID excluded);;
          match chosen with
          | Err e => mret (Some e)
          | Ok index =>
              set (λ s, if ci_IsMultiKey (cn_ChannelInfo channel) then s <| rx_multiKey := true |> <| rx_keyIndex := index |>
                        else s <| rx_multiKey := false |>);;
              mret None
          end
      end
  end.

(** The loop over the candidates; [n] of them are left. *)
Fixpoint next_channel (n : nat) (t : turn) (candidateIndex : Z) : L (res Channel) :=
  let unavailable : L (res Channel) := mret (Err (NewError ErrRouteSelectionUnavailable ErrorCodeGetChannelFailed [ErrOptionWithSkipRetry])) in
  match n with
  | O => unavailable
  | S n =>
      s ← ask id;
      match active_selection s with
      | None => unavailable
      | Some selection =>
          match CandidateAtOrAfter selection candidateIndex with
          | None => unavailable
          | Some (candidate, actualIndex) =>
              match tn_channel t (dc_ChannelID candidate) with
              | Err e => mret (Err (NewError e ErrorCodeGetChannelFailed [ErrOptionWithSkipRetry]))
              | Ok channel =>
                  if negb (cn_Status channel =? ChannelStatusEnabled) then
                    set (markLiveRouteCandidateFiltered (dc_ChannelID candidate) RouteFilterChannelDisabled);;
                    next_channel n t (actualIndex + 1)
                  else
                    set (λ s, s <| rx_retry := actualIndex |>);;
                    if (actualIndex =? 0) && (rx_channel s =? cn_Id channel) then mret (Ok channel)
                    else
                      failed ← SetupContextForSelectedChannel t channel;
                      match failed with
                      | None => mret (Ok channel)
                      | Some e =>
                          if bool_decide (GetErrorCode e = ErrorCodeChannelNoAvailableKey) then
                            set (markLiveRouteCandidateFiltered (dc_ChannelID candidate) RouteFilterKeyUnavailable);;
                            next_channel n t (actualIndex + 1)
                          else mret (Err e)
                      end
              end
          end
      end
  end.

Definition getChannel (t : turn) : L (res Channel) :=
  s ← ask id;
  match active_selection s with
  | None => mret (Err (NewError ErrRouteSelectionUnavailable ErrorCodeGetChannelFailed [ErrOptionWithSkipRetry]))
  | Some selection => next_channel (S (length (ls_Attempts selection))) t (rx_retry s)
  end.

(** ** One attempt *)

Definition RecordLiveRouteAttemptedKey (channelID keyIndex : Z) (s : rctx) : rctx :=
  if (channelID <=? 0) || (keyIndex <? 0) then s
  else s <| rx_attempted ::= (λ m, <[channelID := {[keyIndex]} ∪ default ∅ (m !! channelID)]> m) |>.

Definition current_key (s : rctx) : Z := if rx_multiKey s then rx_keyIndex s else 0.

Definition beginLiveRouteUpstreamAttempt (channelID : Z) (s : rctx) : rctx :=
  let keyIndex := current_key s in
  let counters := rx_counters s in
  let counters := match rx_previous s with
    | Some (previousChannelID, previousKeyIndex) =>
        if negb (previousChannelID =? channelID) then counters <| co_FailoverAttempts ::= Z.succ |>
        else if previousKeyIndex =? keyIndex then counters <| co_SameKeyAttempts ::= Z.succ |>
        else counters <| co_SameChannelAttempts ::= Z.succ |>
    | None => counters
    end in
  RecordLiveRouteAttemptedKey channelID keyIndex
    (s <| rx_counters := counters <| co_TotalAttempts ::= Z.succ |> |> <| rx_previous := Some (channelID, keyIndex) |>).

Definition nextLiveRouteCandidateIndex (t : turn) (s : rctx) : option Z :=
  if tn_done t then None
  else sel ← rx_selection s; snd <$> CandidateAtOrAfter sel (rx_retry s + 1).

Definition nextLiveRouteAttemptForError (t : turn) (channelID : Z) (class : RouteErrorClassification) (s : rctx) : option Z :=
  if tn_done t then None
  else sel ← rx_selection s; snd <$> NextCandidateForError sel (rx_retry s) channelID class (rx_counters s).

Definition renewal_failed (s : rctx) : bool := rx_renewalFailed s || bool_decide (rx_renewal s = Some true).
(** [liveRouteRenewalFailed] *)
Definition liveRouteRenewalFailed : L bool :=
  failed ← ask renewal_failed;
  (if failed : bool then set (λ s, s <| rx_renewalFailed := true |>) else mret tt);; mret failed.

(** The next attempt of a round that was not admitted. *)
Definition try_next_candidate (t : turn) : L unit :=
  next ← ask (nextLiveRouteCandidateIndex t);
  match next with Some i => set (λ s, s <| rx_retry := i |>);; again | None => mret tt end.

Definition unavailable_503 : error :=
  NewErrorWithStatusCode ErrRouteSelectionUnavailable ErrorCodeGetChannelFailed 503 [ErrOptionWithSkipRetry].
Definition lease_lost_503 : error :=
  NewErrorWithStatusCode ErrRouteLeaseUnavailable ErrorCodeGetChannelFailed 503 [ErrOptionWithSkipRetry].

(** [ErrOptionWithStatusCode] *)
Definition with_status (status : Z) (e : error) : error := match e with ErrAPI c _ k r e => ErrAPI c status k r e | e => e end.

(** A lease that was refused. *)
Definition admission_failed (t : turn) (channel : Channel) (e : lease_error) : L unit :=
  (if error_is e.2 ErrRouteLeaseCapacity then set (markLiveRouteCandidateFiltered (cn_Id channel) "capacity_exhausted") else mret tt);;
  s ← ask id;
  let failover := LiveRouteQualificationAllowsFailover e && negb (relayResponseCommitted s) in
  (if failover && (rx_retry s <? relayRetryLimit RetryTimes s) then try_next_candidate t else mret tt);;
  leave_with (if failover then unavailable_503
              else NewErrorWithStatusCode e.2 ErrorCodeGetChannelFailed 503 [ErrOptionWithSkipRetry]).

(** The top of a round. *)
Definition enter_round (t : turn) : L unit :=
  s ← ask id;
  (if 0 <? co_TotalAttempts (rx_counters s) then
     releaseRouteAttemptLease (tn_releasePrevious t);;
     stop ← ask (λ s, routeLiveSelectionActive s && rx_renewalFailed s);
     if stop : bool then leave else mret tt
   else mret tt);;
  s ← ask id;
  if routeLiveSelectionActive s && (DefaultTotalAttempts <=? co_TotalAttempts (rx_counters s)) then leave
  else if relayRetryLimit RetryTimes s <? rx_retry s then leave
  else mret tt.

(** Candidate, price, lease and reservation. *)
Definition qualify (t : turn) : L Channel :=
  r ← getChannel t;
  match r with
  | Err e => leave_with e
  | Ok channel =>
      match tn_price t with
      | Err e => leave_with (with_status 400 (NewError e ErrorCodeModelPriceError []))
      | Ok ratio =>
          set (λ s, s <| rx_ratio := ratio |> <| rx_priced := true |>);;
          s ← ask id;
          (if match rx_selection s with Some sel => routeLiveSelectionActive s && negb (AllowsPriceRatio sel ratio) | None => false end then
             set (markLiveRouteCandidateFiltered (cn_Id channel) RouteFilterPriceForbidden);;
             try_next_candidate t;;
             leave_with (NewErrorWithStatusCode ErrRoutePriceRatioExceeded ErrorCodeModelPriceError 403 [ErrOptionWithSkipRetry])
           else mret tt);;
          attempt ← ask rx_retry;
          refused ← acquireRouteAttemptLease t channel attempt;
          (match refused with Some e => admission_failed t channel e | None => mret tt end);;
          emit Prepared;;
          match tn_billing t with
          | Err e => leave_with e
          | Ok opened =>
              set (λ s, s <| rx_billing ::= orb opened |> <| rx_used ::= (λ l, l ++ [cn_Id channel]) |>);;
              match tn_body t with
              | Some e => leave_with e
              | None => mret channel
              end
          end
      end
  end.

(** What the upstream has sent is on the wire, whatever it returns. *)
Definition call_upstream (t : turn) (channel : Channel) : L (option error) :=
  set (λ s, if routeLiveSelectionActive s then beginLiveRouteUpstreamAttempt (cn_Id channel) s else s);;
  let up := tn_upstream t in
  set (λ s, s <| rx_written ::= orb (up_written up) |> <| rx_validOutput ::= orb (up_validOutput up) |> <| rx_sent ::= orb (up_sent up) |>
              <| rx_renewal ::= fmap (orb (up_renewalFailed up)) |>);;
  s ← ask id;
  emit (Upstream (cn_Id channel) (current_key s) (relayResponseCommitted s));;
  mret (up_error up).

(** After an upstream call without an error. *)
Definition served (t : turn) (channel : Channel) : L unit :=
  set (λ s, s <| rx_error := None |>);;
  match up_settlementError (tn_upstream t) with
  | Some e =>
      s ← ask id;
      if negb (relayResponseCommitted s) then leave_with (NewError e ErrorCodeUpdateDataError [ErrOptionWithSkipRetry]) else leave
  | None =>
      s ← ask id;
      (if routeLiveSelectionActive s then emit (ObservedSuccess (cn_Id channel)) else mret tt);;
      leave
  end.

(** The next attempt after the upstream's error. *)
Definition after_error (t : turn) (realtime : bool) (channel : Channel) (e : error) : L unit :=
  s ← ask id;
  let active := routeLiveSelectionActive s in
  (if active && negb (error_is e ErrRouteLeaseUnavailable) && negb (error_is e ErrRouteLeaseRuntime)
   then emit (ObservedError (cn_Id channel)) else mret tt);;
  let status := match e with ErrAPI _ status _ _ _ => status | _ => 0 end in
  let class := ClassifyRouteError status (GetErrorCode e) (error_string e) (rx_validOutput s) in
  let streamCommitted := rx_written s || rx_validOutput s || realtime in
  match (if active && CanRouteFailover class streamCommitted (rx_validOutput s)
         then nextLiveRouteAttemptForError t (cn_Id channel) class s else None) with
  | None => leave
  | Some next => if tn_wait t then set (λ s, s <| rx_retry := next |>);; again else leave
  end.

Definition round (t : turn) (realtime : bool) : L unit :=
  enter_round t;;
  channel ← qualify t;
  failed ← call_upstream t channel;
  failed ← (match failed with
            | Some e => mret (Some e)
            | None =>
                s ← ask routeLiveSelectionActive;
                lost ← (if s : bool then liveRouteRenewalFailed else mret false);
                s ← ask id;
                mret (if lost && negb (relayResponseCommitted s) then Some lease_lost_503 else None)
            end);
  match failed with
  | None => served t channel
  | Some e =>
      set (λ s, s <| rx_error := Some e |>);;
      s ← ask id;
      lost ← (if routeLiveSelectionActive s && rx_sent s then liveRouteRenewalFailed else mret false);
      if lost : bool then
        set (λ s, markLiveRouteAttempt (cn_Id channel) RouteLeaseStateRenewalFailed s <| rx_error := None |>);; leave
      else
        let e := NormalizeViolationFeeError e in
        set (λ s, s <| rx_error := Some e |>);;
        after_error t realtime channel e
  end.

(** The loop; [None] when the bound on the rounds is used up. *)
Fixpoint relay_loop (fuel : nat) (i : nat) (answers : nat → turn) (realtime : bool) (s : rctx) : option rctx :=
  match fuel with
  | O => None
  | S fuel =>
      match round (answers i) realtime s with
      | (Again, s') => relay_loop fuel (S i) answers realtime s'
      | (_, s') => Some s'
      end
  end.

(** ** The handler *)

Definition class_string (class : RouteErrorClass) : string :=
  match class with
  | RouteErrorInput => "input" | RouteErrorPermission => "permission" | RouteErrorKey => "key"
  | RouteErrorTransient => "provider_transient" | RouteErrorModel => "model_capability"
  | RouteErrorStreamStarted => "stream_started" | RouteErrorAdmission => "route_admission" | RouteErrorUnknown => "unknown"
  end.

(** The decision that is recorded at the end. *)
Definition final_decision (s : rctx) (sel : LiveRouteSelection) : RouteDecision :=
  let counters := rx_counters s in
  let d := ls_Decision sel in
  let d := if 0 <? co_TotalAttempts counters then d <| rd_RetryAttempt := co_TotalAttempts counters - 1 |> else d in
  let d := d <| rd_SameResourceRetry := co_SameChannelAttempts counters + co_SameKeyAttempts counters |>
             <| rd_FailoverAttempt := co_FailoverAttempts counters |> in
  match rx_error s with
  | None => d
  | Some e =>
      let status := match e with ErrAPI _ status _ _ _ => status | _ => 0 end in
      SetFinalError d (class_string (rc_Class (ClassifyRouteError status (GetErrorCode e) (error_string e) (rx_validOutput s))))
  end.

Definition finalizeLiveRouteDecision : L unit :=
  s ← ask id;
  match active_selection s with Some sel => emit (Decided (final_decision s sel)) | None => mret tt end.

(** The deferred functions, in the order they run: refund, error response,
    lease and decision.  Charging a violation fee is left out. *)
Definition refund_on_error : L unit :=
  s ← ask id;
  match rx_error s with
  | None => mret tt
  | Some e =>
      set (λ s, s <| rx_error := Some (NormalizeViolationFeeError e) |>);;
      if rx_billing s then emit Refunded else mret tt
  end.

(** A websocket gets the error as a message of its own. *)
Definition respond_error (realtime : bool) : L unit :=
  set (λ s, if bool_decide (is_Some (rx_error s)) && negb (relayResponseCommitted s) && negb realtime then s <| rx_written := true |> else s).

Definition cleanup (release : option error) : L unit :=
  releaseRouteAttemptLease release;; finalizeLiveRouteDecision.

(** [early] is an error of the request's validation, before the loop; the text
    was checked otherwise. *)
Definition Relay (fuel : nat) (answers : nat → turn) (realtime : bool) (early release : option error) (s : rctx) : option rctx :=
  match early with
  | Some e => Some ((respond_error realtime;; cleanup release) (s <| rx_error := Some e |>)).2
  | None =>
      let s := if routeLiveSelectionActive s then s <| rx_security := true |> else s in
      s ← relay_loop fuel 0 answers realtime s;
      Some ((refund_on_error;; respond_error realtime;; cleanup release) s).2
  end.
End loop.

(** ** Rules for the parts of a round

    [LT P m Q Qa Ql]: from a state with [P], [m] goes on with [Q], starts the
    next round with [Qa] or leaves the loop with [Ql]. *)

Definition LT {A} (P : rctx → Prop) (m : L A) (Q : A → rctx → Prop) (Qa Ql : rctx → Prop) : Prop :=
  ∀ s, P s → match m s with (Go a, s') => Q a s' | (Again, s') => Qa s' | (Leave, s') => Ql s' end.

Section rules.
Context (Qa Ql : rctx → Prop).

Lemma lt_bind {A B} P (m : L A) R (k : A → L B) Q :
  LT P m R Qa Ql → (∀ a, LT (R a) (k a) Q Qa Ql) → LT P (m ≫= k) Q Qa Ql.
Proof.
  intros Hm Hk s Hs. specialize (Hm s Hs). unfold mbind, L_bind. destruct (m s) as [[a| |] s']; [by apply Hk|done..].
Qed.
Lemma lt_ret {A} P (a : A) Q : (∀ s, P s → Q a s) → LT P (mret a) Q Qa Ql.
Proof. intros HQ s Hs. by apply HQ. Qed.
Lemma lt_set P f (Q : unit → rctx → Prop) : (∀ s, P s → Q tt (f s)) → LT P (set f) Q Qa Ql.
Proof. intros HQ s Hs. by apply HQ. Qed.
Lemma lt_again {A} P (Q : A → rctx → Prop) : (∀ s, P s → Qa s) → LT P again Q Qa Ql.
Proof. intros HQ s Hs. by apply HQ. Qed.
Lemma lt_leave {A} P (Q : A → rctx → Prop) : (∀ s, P s → Ql s) → LT P leave Q Qa Ql.
Proof. intros HQ s Hs. by apply HQ. Qed.
(** What is asked is known in the rest. *)
Lemma lt_ask {A B} P (f : rctx → A) (k : A → L B) Q : (∀ a, LT (λ s, P s ∧ f s = a) (k a) Q Qa Ql) → LT P (ask f ≫= k) Q Qa Ql.
Proof. intros Hk s Hs. by apply (Hk (f s)). Qed.
Lemma lt_step P f {B} (k : unit → L B) Q : LT (λ s', ∃ s, P s ∧ s' = f s) (k tt) Q Qa Ql → LT P (set f ≫= k) Q Qa Ql.
Proof. intros Hk s Hs. apply Hk. by exists s. Qed.
Lemma lt_weaken {A} (P P' : rctx → Prop) (m : L A) (Q Q' : A → rctx → Prop) :
  (∀ s, P s → P' s) → (∀ a s, Q' a s → Q a s) → LT P' m Q' Qa Ql → LT P m Q Qa Ql.
Proof. intros HP HQ Hm s Hs. specialize (Hm s (HP s Hs)). destruct (m s) as [[a| |] s']; auto. Qed.
Lemma lt_pre {A} (P P' : rctx → Prop) (m : L A) Q : (∀ s, P s → P' s) → LT P' m Q Qa Ql → LT P m Q Qa Ql.
Proof. intros HP. by apply lt_weaken. Qed.
End rules.

Lemma lt_exits {A} P (m : L A) Q Qa Qa' Ql Ql' : (∀ s, Qa s → Qa' s) → (∀ s, Ql s → Ql' s) → LT P m Q Qa Ql → LT P m Q Qa' Ql'.
Proof. intros Ha Hl Hm s Hs. specialize (Hm s Hs). destruct (m s) as [[a| |] s']; auto. Qed.
