(* ===== verification/RelaySafety.v ===== *)
(** * What a relayed request may do

    The relay loop of a request that is no compaction (the loop of RelayLoop.v)
    against any sequence of answers: it ends, it calls the
    upstream at most three times and never twice with the same key, it stops
    once a response is committed, every lease is released once, and a failed
    request is refunded once.

    [core] has the fields the argument looks at; most parts of a round leave
    it alone and emit events of no interest ([calm]), so [steady] covers them,
    and the few others have a lemma each. *)

From S2P Require Import Prelude GoStrings ApiErrors RouteHealth RouteLease RouteSelect ChannelKeys RetryPlan RelayLoop.
#[local] Open Scope string_scope.
#[local] Open Scope list_scope.
#[local] Open Scope Z_scope.

(** ** History *)

Definition tried_of (ev : event) : option (Z * Z) := match ev with Upstream ch k _ => Some (ch, k) | _ => None end.
(** The upstream calls, with the channel and the index of the key. *)
Definition tried (s : rctx) : list (Z * Z) := omap tried_of (rx_trace s).

Definition is_refund (ev : event) : Prop := ev = Refunded.
#[global] Instance is_refund_dec ev : Decision (is_refund ev).
Proof. refine (match ev with Refunded => left eq_refl | _ => right _ end); abstract (unfold is_refund; congruence). Defined.
Definition refunds (s : rctx) : nat := length (filter is_refund (rx_trace s)).

Definition is_success (ev : event) : Prop := match ev with ObservedSuccess _ => True | _ => False end.
Definition is_committed (ev : event) : Prop := match ev with Upstream _ _ true => True | _ => False end.
(** Events no invariant of a round is about. *)
Definition calm (ev : event) : Prop := tried_of ev = None ∧ ¬ is_refund ev ∧ ¬ is_success ev.

(** ** What the parts of a round change *)

(** The channels of the attempts of the selection in force. *)
Definition chs (s : rctx) : option (list Z) := (λ sel, dc_ChannelID <$> ls_Attempts sel) <$> active_selection s.

Definition core (s : rctx) :=
  (chs s, rx_counters s, rx_attempted s, rx_multiKey s, rx_keyIndex s, rx_retry s, rx_written s, rx_validOutput s, rx_billing s).
Definition view (s : rctx) := (core s, rx_trace s, rx_lease s).

Lemma view_parts s c t l : view s = (c, t, l) → core s = c ∧ rx_trace s = t ∧ rx_lease s = l.
Proof. unfold view. by intros [= <- <- <-]. Qed.

(** A change of the selection in force that keeps the channels and the source. *)
Lemma view_selection f s :
  (∀ sel, ls_Source (f sel) = ls_Source sel ∧ (dc_ChannelID <$> ls_Attempts (f sel)) = (dc_ChannelID <$> ls_Attempts sel)) →
  view (update_selection f s) = view s.
Proof.
  intros Hf. unfold update_selection. destruct (active_selection s) as [sel|] eqn:E; [|done].
  destruct (Hf sel) as [Hs Hc]. unfold view, core, chs. rewrite E. cbn.
  unfold active_selection in *. cbn. destruct (rx_selection s) as [sel0|]; [|done].
  case_bool_decide as Hu; [done|]. injection E as ->. rewrite Hs. rewrite bool_decide_false by done. cbn. by rewrite Hc.
Qed.

Lemma view_mark channelID state s : view (markLiveRouteAttempt channelID state s) = view s.
Proof. unfold markLiveRouteAttempt. destruct (_ <=? _); [done|]. by apply view_selection. Qed.
Lemma view_filter channelID reason s : view (markLiveRouteCandidateFiltered channelID reason s) = view s.
Proof.
  unfold markLiveRouteCandidateFiltered. destruct (_ || _); [done|]. apply view_selection. intros sel. split; [done|]. cbn.
  rewrite <-list_fmap_compose. apply list_fmap_ext. intros i c _. cbn. by destruct (_ =? _).
Qed.
Lemma view_governance channelID code s : view (recordLiveRouteGovernanceFailure channelID code s) = view s.
Proof.
  unfold recordLiveRouteGovernanceFailure. rewrite view_selection by done. case_bool_decide; [apply view_mark|done].
Qed.

Lemma view_emit f s : view (s <| rx_trace ::= f |>) = ((view s).1.1, f (view s).1.2, (view s).2).
Proof. done. Qed.
Lemma view_lease l s : view (s <| rx_lease := l |>) = ((view s).1, l).
Proof. done. Qed.
Lemma view_renewal r s : view (s <| rx_renewal := r |>) = view s.
Proof. done. Qed.
Lemma view_renewalFailed b s : view (s <| rx_renewalFailed := b |>) = view s.
Proof. done. Qed.
Lemma view_error e s : view (s <| rx_error := e |>) = view s.
Proof. done. Qed.
Lemma view_price r s : view (s <| rx_ratio := r |> <| rx_priced := true |>) = view s.
Proof. done. Qed.
Create Rewrite HintDb view.
#[export] Hint Rewrite view_mark view_filter view_governance view_emit view_lease view_renewal view_renewalFailed view_error view_price : view.

#[local] Arguments NewError : simpl never.
#[local] Arguments NewErrorWithStatusCode : simpl never.
(** Runs the parts that do not branch. *)
Ltac run := cbv [mbind L_bind ask set emit mret L_ret id again leave leave_with]; cbn.

(** The event of a release, if a lease is held. *)
Definition released (lease : option Z) : list event := match lease with Some c => [Released c] | None => [] end.

Lemma release_view answer s : ∃ s',
  releaseRouteAttemptLease answer s = (Go tt, s') ∧ view s' = (core s, rx_trace s ++ released (rx_lease s), None).
Proof.
  unfold releaseRouteAttemptLease. run.
  destruct (rx_renewal s) as [[]|], (rx_lease s) as [l|] eqn:El, answer as [e|]; cbn; eexists; (split; [done|]);
    autorewrite with view; cbn; by rewrite ?app_nil_r.
Qed.

Lemma released_uncommitted t channelID cause s : ∃ e s',
  releaseUncommittedRouteLease t channelID cause s = (Go e, s') ∧ view s' = (core s, rx_trace s ++ [Released channelID], rx_lease s).
Proof.
  unfold releaseUncommittedRouteLease. run. destruct (tn_release t); run; do 2 eexists; (split; [done|]); by autorewrite with view.
Qed.
Lemma released_rejected t channelID cause s : ∃ e s',
  releaseRejectedRouteAttemptLease t channelID cause s = (Go e, s') ∧ view s' = (core s, rx_trace s ++ [Released channelID], rx_lease s).
Proof.
  unfold releaseRejectedRouteAttemptLease. run. destruct (tn_release t); run; do 2 eexists; (split; [done|]); by autorewrite with view.
Qed.

(** The lease of an attempt: held, or refused with nothing left behind, unless
    the client has gone. *)
Definition acquired (t : turn) (c : Z) (s : rctx) (refused : option lease_error) (s' : rctx) : Prop :=
  match refused with
  | None => view s' = (core s, rx_trace s ++ [Acquired c], Some c)
  | Some _ =>
      view s' = view s ∨ view s' = (core s, rx_trace s ++ [Acquired c; Released c], rx_lease s) ∨
      tn_gone t = true ∧ view s' = (core s, rx_trace s ++ [Acquired c; Released c], Some c)
  end.

#[local] Abbreviation after_acquire s c := (s <| rx_trace ::= (λ t, t ++ [Acquired c]) |>).

Lemma acquired_refused t c s e s' :
  view s' = (core s, rx_trace (after_acquire s c) ++ [Released c], rx_lease s) → acquired t c s (Some e) s'.
Proof. intros E. right; left. rewrite E. cbn. by rewrite <-app_assoc. Qed.

Lemma refused_uncommitted t c s cause : ∃ refused s',
  (le ← releaseUncommittedRouteLease t c cause; mret (Some le)) (after_acquire s c) = (Go refused, s') ∧ acquired t c s refused s'.
Proof.
  unfold mbind, L_bind. destruct (released_uncommitted t c cause (after_acquire s c)) as (e & s' & -> & Hv).
  do 2 eexists. split; [done|]. by apply acquired_refused.
Qed.

Lemma refused_rejected t c s s1 (cause : lease_error) : view s1 = view (after_acquire s c) → ∃ refused s',
  (le ← releaseRejectedRouteAttemptLease t c cause; mret (Some le)) s1 = (Go refused, s') ∧ acquired t c s refused s'.
Proof.
  intros E. unfold mbind, L_bind. destruct (released_rejected t c cause s1) as (e & s' & -> & Hv).
  do 2 eexists. split; [done|]. apply acquired_refused. apply view_parts in E as (E1 & E2 & E3). by rewrite Hv, E1, E2, E3.
Qed.

Lemma active_chs s selection : active_selection s = Some selection → chs s = Some (dc_ChannelID <$> ls_Attempts selection).
Proof. unfold chs. by intros ->. Qed.

(** The client is gone: the lease is released but stays in the context. *)
Lemma refused_gone t c s (cause : lease_error) : tn_gone t = true → ∃ refused s',
  (le ← releaseRejectedRouteAttemptLease t c cause; mret (Some le))
    (markLiveRouteAttempt c RouteLeaseStateAcquired (after_acquire s c <| rx_lease := Some c |>)) = (Go refused, s') ∧
  acquired t c s refused s'.
Proof.
  intros Hg. unfold mbind, L_bind. destruct (released_rejected t c cause (markLiveRouteAttempt c RouteLeaseStateAcquired
    (after_acquire s c <| rx_lease := Some c |>))) as (e & s' & -> & Hv).
  do 2 eexists. split; [done|]. right; right. split; [done|]. rewrite Hv.
  destruct (view_parts _ _ _ _ (view_mark c RouteLeaseStateAcquired (after_acquire s c <| rx_lease := Some c |>))) as (-> & -> & ->).
  cbn. by rewrite <-app_assoc.
Qed.

Lemma acquire_view t channel attempt s : ∃ refused s',
  acquireRouteAttemptLease t channel attempt s = (Go refused, s') ∧ acquired t (cn_Id channel) s refused s' ∧
  (refused = None → ∃ cs, chs s = Some cs ∧ cn_Id channel ∈ cs).
Proof.
  unfold acquireRouteAttemptLease. unfold mbind at 1, L_bind at 1, ask, id.
  assert (∀ e, ∃ refused s', (Go (Some e), s) = (Go refused, s') ∧ acquired t (cn_Id channel) s refused s' ∧
    (refused = None → ∃ cs, chs s = Some cs ∧ cn_Id channel ∈ cs)) as Hrefuse.
  { intros e. do 2 eexists. split_and!; [done|by left|done]. }
  destruct (active_selection s) as [selection|] eqn:Hsel; [|apply Hrefuse].
  destruct (CandidateForAttempt selection attempt) as [candidate|] eqn:Hc; [|apply Hrefuse].
  destruct (dc_ChannelID candidate =? cn_Id channel) eqn:Hid; [cbn [negb]|apply Hrefuse].
  assert (∃ cs, chs s = Some cs ∧ cn_Id channel ∈ cs) as Hcs.
  { unfold CandidateForAttempt in Hc. destruct (CandidateAtOrAfter selection attempt) as [[c j]|] eqn:E; [|done].
    injection Hc as <-. apply candidate_spec in E as (_ & _ & E). eexists. split; [by apply active_chs|].
    apply Z.eqb_eq in Hid as <-. apply list_elem_of_fmap. eauto. }
  match goal with |- ∃ r s', ?X = _ ∧ _ ∧ _ => cut (∃ r s', X = (Go r, s') ∧ acquired t (cn_Id channel) s r s') end.
  { intros (r & s' & H1 & H2). by exists r, s'. }
  clear Hrefuse. assert (∀ e, ∃ refused s', (Go (Some e), s) = (Go refused, s') ∧ acquired t (cn_Id channel) s refused s') as Hrefuse.
  { intros e. do 2 eexists. split; [done|by left]. }
  destruct (tn_expected t) as [expected|e]; [|apply Hrefuse].
  repeat case_match; try apply Hrefuse.
  all: unfold emit, set, mbind at 1, L_bind at 1; try apply refused_uncommitted.
  - apply refused_rejected. done.
  - apply refused_rejected. by rewrite view_filter.
  - by apply refused_gone.
  - do 2 eexists. split; [run; done|]. unfold acquired. by autorewrite with view.
Qed.

(** ** Keys and channels *)

Section keys.
Context `{GoText, JsonArrays} (MemoryCacheEnabled : bool).

Lemma choose_key_spec t fuel active c channelID excluded d (Hdraw : ∀ n, (0 < n)%nat → (tn_draw t n < n)%nat) :
  let r := choose_key MemoryCacheEnabled fuel t active (Copy c) channelID excluded d in
  excluded ⊆ r.2 ∧
  (∀ index, r.1 = Ok index → 0 <= index ∧ (index ∉ r.2) ∧ (ci_IsMultiKey (cn_ChannelInfo c) = false → index = 0)).
Proof.
  revert c excluded d. induction fuel as [|fuel IH]; intros c excluded d; cbn [choose_key]; [done|].
  destruct (GetNextEnabledKeyExcluding _ _ _ _ _) as [[[[key index] recv]|e] d'] eqn:E; [|done].
  apply next_key_untried in E as (Hpos & Hni & [c' ->] & Hone); [|done].
  assert (∀ i, Ok (A:=Z) index = Ok i → 0 <= i ∧ (i ∉ excluded) ∧ (ci_IsMultiKey (cn_ChannelInfo c) = false → i = 0)) as Hindex.
  { intros ? [= <-]. split_and!; [done..|]. by intros [??]%Hone. }
  destruct active; cbn [negb]; [|done].
  destruct (tn_keyUsable t channelID index) as [[]|]; [done| |done].
  destruct (IH c' ({[index]} ∪ excluded) d') as [I1 I2]. split; [set_solver|]. intros i Hi.
  destruct (I2 i Hi) as (? & ? & Hm). split_and!; [done..|]. intros Hf. apply Hm. by destruct (Hone Hf) as [_ [= ->]].
Qed.

#[local] Arguments choose_key : simpl never.

(** The keys of every channel that are known to be tried only grow. *)
Definition grows (s s' : rctx) : Prop :=
  ∀ ch, default ∅ (rx_attempted s !! ch) ⊆ default ∅ (rx_attempted s' !! ch).

(** What the choice of a channel changes. *)
Definition chosen (s s' : rctx) : Prop :=
  chs s' = chs s ∧ rx_counters s' = rx_counters s ∧ grows s s' ∧ rx_written s' = rx_written s ∧ rx_validOutput s' = rx_validOutput s ∧
  rx_billing s' = rx_billing s ∧ rx_trace s' = rx_trace s ∧ rx_lease s' = rx_lease s ∧ (0 <= rx_keyIndex s → 0 <= rx_keyIndex s').

Ltac same_choice := split_and!; try done; by intros ch.

#[global] Instance chosen_preorder : PreOrder chosen.
Proof.
  split; [intros s; same_choice|]. intros s1 s2 s3 (?&?&G1&?&?&?&?&?&?) (?&?&G2&?&?&?&?&?&?).
  split_and!; try congruence; [|by auto]. intros ch. etrans; [apply G1|apply G2].
Qed.

Lemma chosen_view s s' : view s' = view s → chosen s s' ∧ rx_retry s' = rx_retry s.
Proof.
  intros E. apply view_parts in E as (E & E2 & E3). injection E as ????????. split; [|done].
  split_and!; try congruence; intros ch; congruence.
Qed.

(** The key of the context is new to its channel. *)
Definition fresh_key (channelID : Z) (s : rctx) : Prop := current_key s ∉ default ∅ (rx_attempted s !! channelID).

Lemma chosen_exclude channelID keys s : default ∅ (rx_attempted s !! channelID) ⊆ keys → chosen s (exclude_keys channelID keys s).
Proof.
  intros Hk. unfold exclude_keys. destruct (rx_attempted s !! channelID) as [ks|] eqn:E; [|done]. split_and!; try done.
  intros ch. cbn. destruct (decide (ch = channelID)) as [->|Hne]; [by rewrite E, lookup_insert_eq|by rewrite lookup_insert_ne].
Qed.

Lemma setup_spec t channel s (Hdraw : ∀ n, (0 < n)%nat → (tn_draw t n < n)%nat) : ∃ r s',
  SetupContextForSelectedChannel MemoryCacheEnabled t channel s = (Go r, s') ∧ chosen s s' ∧ rx_retry s' = rx_retry s ∧
  (r = None → fresh_key (cn_Id channel) s').
Proof.
  unfold SetupContextForSelectedChannel. run. set (id := cn_Id channel).
  set (s1 := s <| rx_channel := id |>). assert (chosen s s1) as H1 by same_choice.
  assert (∀ (e : error), ∃ r s', (Go (Some e), s1) = (Go r, s') ∧ chosen s s' ∧ rx_retry s' = rx_retry s ∧ (r = None → fresh_key id s')) as Herr
    by (intros e; do 2 eexists; by split_and!).
  destruct (tn_settings t id); [apply Herr|]. destruct (if _ : bool then _ else _) as [unavailable|e]; [|apply Herr].
  pose proof (choose_key_spec t (S (S (length (GetKeys channel)))) (routeLiveSelectionActive s1) channel id
    (default ∅ (rx_attempted s1 !! id) ∪ unavailable) (tn_keys t) Hdraw) as [Hsub Hidx].
  destruct (choose_key _ _ _ _ _ _ _ _) as [chosen_ excluded]. cbn in Hsub, Hidx |- *.
  assert (chosen s (exclude_keys id excluded s1)) as H2 by (etrans; [exact H1|]; apply chosen_exclude; set_solver).
  assert (rx_retry (exclude_keys id excluded s1) = rx_retry s) as H3 by (unfold exclude_keys; by destruct (rx_attempted s1 !! id)).
  destruct chosen_ as [index|e]; [|by do 2 eexists; split_and!].
  destruct (Hidx index eq_refl) as (Hpos & Hni & Hone). do 2 eexists. split; [done|].
  assert (index ∉ default ∅ (rx_attempted (exclude_keys id excluded s1) !! id)) as Hfresh.
  { unfold exclude_keys. destruct (rx_attempted s1 !! id) eqn:E; cbn; [by rewrite lookup_insert_eq|]. cbn in E. rewrite E. set_solver. }
  destruct (ci_IsMultiKey (cn_ChannelInfo channel)).
  - split_and!; [|done|intros _; exact Hfresh]. etrans; [exact H2|]. same_choice.
  - split_and!; [exact H2|done|]. intros _. unfold fresh_key, current_key. cbn. by rewrite <-Hone.
Qed.

(** The channel of a round: the attempt moves on at most, and a later attempt
    has a key its channel was not called with. *)
Lemma next_channel_spec t n i s cs (Hdraw : ∀ n, (0 < n)%nat → (tn_draw t n < n)%nat) :
  chs s = Some cs → ∃ r s',
  next_channel MemoryCacheEnabled n t i s = (Go r, s') ∧ chosen s s' ∧
  (∀ channel, r = Ok channel →
     i <= rx_retry s' ∧ 0 <= rx_retry s' < Z.of_nat (length cs) ∧ (1 <= rx_retry s' → fresh_key (cn_Id channel) s')).
Proof.
  revert i s. induction n as [|n IH]; intros i s Hcs; cbn [next_channel]; [by do 2 eexists; split_and!|]. run.
  assert (∀ (e : error), ∃ r s', (Go (Err (A:=Channel) e), s) = (Go r, s') ∧ chosen s s' ∧ (∀ channel, r = Ok channel →
     i <= rx_retry s' ∧ 0 <= rx_retry s' < Z.of_nat (length cs) ∧ (1 <= rx_retry s' → fresh_key (cn_Id channel) s'))) as Herr.
  { intros e. do 2 eexists. by split_and!. }
  destruct (active_selection s) as [selection|] eqn:Hsel; [|apply Herr].
  destruct (CandidateAtOrAfter selection i) as [[candidate j]|] eqn:Hc; [|apply Herr].
  apply candidate_spec in Hc as (Hij & Hj & _). apply active_chs in Hsel.
  assert (length cs = length (ls_Attempts selection)) as Hlen by (rewrite Hcs in Hsel; injection Hsel as ->; apply length_fmap).
  destruct (tn_channel t (dc_ChannelID candidate)) as [channel|e]; [|apply Herr].
  assert (∀ s1, chosen s s1 → ∃ r s', next_channel MemoryCacheEnabled n t (j + 1) s1 = (Go r, s') ∧ chosen s s' ∧
    (∀ channel, r = Ok channel → i <= rx_retry s' ∧ 0 <= rx_retry s' < Z.of_nat (length cs) ∧ (1 <= rx_retry s' → fresh_key (cn_Id channel) s'))) as Hnext.
  { intros s1 H1. destruct (IH (j + 1) s1) as (r & s' & E & Hch & Hr); [destruct H1 as (-> & _); done|].
    exists r, s'. split_and!; [done|by transitivity s1|]. intros c (? & ? & ?)%Hr. split_and!; [lia..|done]. }
  destruct (cn_Status channel =? ChannelStatusEnabled); cbn [negb]; run; [|by apply Hnext, chosen_view, view_filter].
  set (s1 := s <| rx_retry := j |>). assert (chosen s s1) as H1 by same_choice.
  case_match eqn:Efirst.
  { do 2 eexists. split_and!; [done..|]. intros ? [= <-]. cbn. split_and!; [lia..|]. lia. }
  destruct (setup_spec t channel s1 Hdraw) as (failed & s2 & -> & H2 & Hretry & Hfresh).
  assert (chosen s s2) as H3 by (by transitivity s1). cbn in Hretry.
  destruct failed as [e|].
  - case_bool_decide; run; [|by do 2 eexists; split_and!].
    apply Hnext. etrans; [exact H3|]. by apply chosen_view, view_filter.
  - do 2 eexists. split_and!; [done..|]. intros ? [= <-]. rewrite Hretry. split_and!; [lia..|]. auto.
Qed.

End keys.

#[local] Arguments next_channel : simpl never.

(** ** The invariant *)

(** The lease the request holds after an event; [None] when the event may not
    happen: a second lease or a release of another one, or work for an
    upstream without its lease. *)
Definition lease_step (held : option Z) (ev : event) : option (option Z) :=
  match ev with
  | Acquired c => if held is Some _ then None else Some (Some c)
  | Released c => if decide (held = Some c) then Some None else None
  | Prepared => if held is Some _ then Some held else None
  | Upstream c _ _ | ObservedSuccess c | ObservedError c => if decide (held = Some c) then Some held else None
  | Refunded => Some held
  | Decided _ => if held is Some _ then None else Some held
  end.
Definition lease_run (held : option Z) (evs : list event) : option (option Z) :=
  foldl (λ h ev, h ≫= λ held, lease_step held ev) (Some held) evs.

Lemma lease_run_app held evs evs' : lease_run held (evs ++ evs') = lease_run held evs ≫= λ h, lease_run h evs'.
Proof.
  unfold lease_run. rewrite foldl_app. destruct (foldl _ _ evs) as [h|]; [done|]. cbn. by induction evs'.
Qed.

(** [calm] as a test, so that it computes. *)
Definition calm_event (ev : event) : bool := match ev with Upstream _ _ _ | Refunded | ObservedSuccess _ => false | _ => true end.
Lemma calm_test evs : forallb calm_event evs = true → Forall calm evs.
Proof.
  intros Hc%Is_true_eq_left%forallb_True. apply (Forall_impl _ _ _ Hc). intros []; try done; intros _; unfold calm, is_refund; naive_solver.
Qed.
Lemma calm_released l : Forall calm (released l).
Proof. apply calm_test. by destruct l. Qed.
Lemma lease_run_released l : lease_run l (released l) = Some None.
Proof. destruct l; [|done]. cbn. by rewrite decide_True. Qed.

Record inv (cs : list Z) (s : rctx) : Prop := {
  inv_chs : chs s = Some cs;
  inv_total : co_TotalAttempts (rx_counters s) = Z.of_nat (length (tried s));
  inv_bound : Z.of_nat (length (tried s)) <= DefaultTotalAttempts;
  inv_nodup : NoDup (tried s);
  inv_recorded ch k : (ch, k) ∈ tried s → k ∈ default ∅ (rx_attempted s !! ch);
  inv_key : 0 <= rx_keyIndex s;
  inv_refunds : refunds s = 0%nat;
  inv_success : Forall (λ ev, ¬ is_success ev) (rx_trace s);
  inv_committed : Forall (λ ev, ¬ is_committed ev) (rx_trace s)
}.

Lemma calm_tried evs : Forall calm evs → omap tried_of evs = [] ∧ filter is_refund evs = [] ∧
  Forall (λ ev, ¬ is_success ev) evs ∧ Forall (λ ev, ¬ is_committed ev) evs.
Proof.
  induction 1 as [|ev evs (Ht & Hr & Hs) _ (IH1 & IH2 & IH3 & IH4)]; [done|]. split_and!.
  - cbn. by rewrite Ht.
  - by rewrite filter_cons_False.
  - by constructor.
  - constructor; [|done]. by destruct ev.
Qed.

(** Events of no interest, or the choice of a channel. *)
Lemma inv_calm cs s s' evs :
  core s' = core s → rx_trace s' = rx_trace s ++ evs → Forall calm evs → inv cs s → inv cs s'.
Proof.
  intros Hcore Ht (C1 & C2 & C3 & C4)%calm_tried []. injection Hcore as E1 E2 E3 E4 E5 E6 E7 E8 E9.
  assert (tried s' = tried s) as Htr by (unfold tried; by rewrite Ht, omap_app, C1, app_nil_r).
  split; rewrite ?Htr, ?E1, ?E2, ?E3, ?E5; try done.
  - unfold refunds. by rewrite Ht, filter_app, C2, app_nil_r.
  - rewrite Ht. by apply Forall_app.
  - rewrite Ht. by apply Forall_app.
Qed.

Lemma inv_chosen cs s s' : chosen s s' → inv cs s → inv cs s'.
Proof.
  intros (E1 & E2 & Hg & _ & _ & _ & Ht & _ & Hk) [].
  assert (tried s' = tried s) as Htr by (unfold tried; by rewrite Ht).
  split; rewrite ?Htr, ?E1, ?E2, ?Ht; try done; [|by auto|unfold refunds; by rewrite Ht].
  intros ch k Hin. apply Hg. auto.
Qed.

(** The loop: one request, whose client does not leave under a lease ([quiet]). *)
Section safety.
Context `{GoText, JsonArrays} (MemoryCacheEnabled : bool) (RetryTimes : Z) (NormalizeViolationFeeError : error → error).
Context (quiet : Prop) (cs : list Z) (Hcs : Forall (λ c, 0 < c) cs).

Definition held (s : rctx) : Prop := quiet → lease_run None (rx_trace s) = Some (rx_lease s).

(** During a round, before the upstream call. *)
Definition going (s : rctx) : Prop :=
  inv cs s ∧ held s ∧ relayResponseCommitted s = false ∧ 0 <= rx_retry s ∧ (tried s ≠ [] → 1 <= rx_retry s).
(** The start of a round: a lease is that of an upstream call. *)
Definition ready (s : rctx) : Prop := going s ∧ (quiet → tried s = [] → rx_lease s = None).
(** A round that may go on: no lease is held. *)
Definition entered (s : rctx) : Prop := going s ∧ Z.of_nat (length (tried s)) < DefaultTotalAttempts ∧ (quiet → rx_lease s = None).
(** A channel whose key may be used, before its lease and under it. *)
Definition usable (channel : Channel) (s : rctx) : Prop := tried s = [] ∨ fresh_key (cn_Id channel) s.
Definition picked (channel : Channel) (s : rctx) : Prop := entered s ∧ usable channel s.
Definition admitted (channel : Channel) (s : rctx) : Prop :=
  going s ∧ usable channel s ∧ Z.of_nat (length (tried s)) < DefaultTotalAttempts ∧ rx_lease s = Some (cn_Id channel) ∧ cn_Id channel ∈ cs.
(** The end of the loop. *)
Definition ended (s : rctx) : Prop :=
  held s ∧ chs s = Some cs ∧ Z.of_nat (length (tried s)) <= DefaultTotalAttempts ∧ NoDup (tried s) ∧ refunds s = 0%nat ∧
  (∀ ev, ev ∈ rx_trace s → is_success ev → rx_error s = None) ∧
  (∃ before after, rx_trace s = before ++ after ∧ Forall (λ ev, ¬ is_committed ev) before ∧ (length (omap tried_of after) <= 1)%nat).

Lemma inv_ended s : inv cs s → held s → ended s.
Proof.
  intros I Hh. destruct I as [? ? ? ? _ _ ? Hs Hc]. split_and!; try done.
  - intros ev Hin Hev. destruct (proj1 (Forall_forall _ _) Hs ev Hin Hev).
  - exists (rx_trace s), []. split_and!; [by rewrite app_nil_r|done|cbn; lia].
Qed.
Lemma going_ended s : going s → ended s.
Proof. intros (? & ? & _). by apply inv_ended. Qed.
Lemma ready_going s : ready s → going s.
Proof. by intros []. Qed.
Lemma entered_ready s : entered s → ready s.
Proof. intros (? & ? & ?). split; auto. Qed.
Create HintDb relay.
#[local] Hint Resolve going_ended ready_going entered_ready : relay.

(** What is on the trace, and the steps that leave it be. *)
Lemma same_tried s s' : rx_trace s' = rx_trace s → tried s' = tried s.
Proof. unfold tried. by intros ->. Qed.
Lemma calm_same_tried s s' evs : rx_trace s' = rx_trace s ++ evs → Forall calm evs → tried s' = tried s.
Proof. unfold tried. intros -> (C & _)%calm_tried. by rewrite omap_app, C, app_nil_r. Qed.

(** Events of no interest, with the lease they leave. *)
Lemma going_emit s s' evs l :
  going s → view s' = (core s, rx_trace s ++ evs, l) → Forall calm evs → (quiet → lease_run (rx_lease s) evs = Some l) → going s'.
Proof.
  intros (I & Hh & Hr & Hp & Ht) (Ec & Et & El)%view_parts Hc Hrun.
  pose proof (inv_calm cs s s' evs Ec Et Hc I) as I'. pose proof (calm_same_tried s s' evs Et Hc) as Htr.
  injection Ec as E1 E2 E3 E4 E5 E6 E7 E8 E9.
  split_and!; unfold relayResponseCommitted; rewrite ?Htr, ?E6, ?E7, ?E8; try done.
  intros Hq. rewrite Et, lease_run_app, (Hh Hq), El. by apply Hrun.
Qed.
Lemma going_view s s' : view s' = view s → going s → going s'.
Proof. intros E Hg. eapply (going_emit s s' []); [done|by rewrite app_nil_r|constructor|done]. Qed.
Lemma going_chosen s s' : chosen s s' → rx_retry s <= rx_retry s' → going s → going s'.
Proof.
  intros Hch Hle (I & Hh & Hr & Hp & Ht). pose proof (inv_chosen cs s s' Hch I) as I'.
  destruct Hch as (_ & _ & _ & E7 & E8 & _ & Et & El & _). pose proof (same_tried s s' Et) as Htr.
  split_and!; unfold held, relayResponseCommitted; rewrite ?Htr, ?Et, ?El, ?E7, ?E8; try done; [lia|]. intros Hn. specialize (Ht Hn). lia.
Qed.

Lemma ready_view s s' : view s' = view s → ready s → ready s'.
Proof.
  intros E [Hg Hl]. split; [by eapply going_view|]. apply view_parts in E as (_ & Et & El). by rewrite (same_tried s s' Et), El.
Qed.
Lemma view_retry s s' : view s' = view s → rx_retry s' = rx_retry s.
Proof. by intros ([= _ _ _ _ _ -> _ _ _] & _)%view_parts. Qed.

(** A channel stays usable while its key and the trace stay. *)
Lemma usable_emit channel s s' evs : core s' = core s → rx_trace s' = rx_trace s ++ evs → Forall calm evs → usable channel s → usable channel s'.
Proof.
  intros Ec Et Hc. unfold usable. rewrite (calm_same_tried s s' evs Et Hc). injection Ec as E1 E2 E3 E4 E5 _ _ _ _.
  unfold fresh_key, current_key. by rewrite E3, E4, E5.
Qed.
Lemma picked_view channel s s' : view s' = view s → picked channel s → picked channel s'.
Proof.
  intros E ((Hg & Ht & Hl) & Hu). pose proof (going_view s s' E Hg) as Hg'. apply view_parts in E as (Ec & Et & El).
  split; [split; [done|]|].
  - by rewrite El, (same_tried s s' Et).
  - eapply (usable_emit channel s s' []); [done|by rewrite app_nil_r|constructor|done].
Qed.

Lemma chs_active s : chs s = Some cs → ∃ sel, active_selection s = Some sel ∧ rx_selection s = Some sel ∧ length (ls_Attempts sel) = length cs.
Proof.
  intros Hs. unfold chs in Hs. destruct (active_selection s) as [sel|] eqn:E; [|done]. injection Hs as <-.
  exists sel. rewrite length_fmap. split_and!; [done| |done]. unfold active_selection in E.
  destruct (rx_selection s); [|done]. case_bool_decide; congruence.
Qed.

Lemma inv_active s : inv cs s → ∃ sel, active_selection s = Some sel ∧ rx_selection s = Some sel ∧ length (ls_Attempts sel) = length cs.
Proof. intros I. by apply chs_active, I. Qed.
Lemma inv_is_active s : inv cs s → routeLiveSelectionActive s = true.
Proof. intros (sel & E & _)%inv_active. unfold routeLiveSelectionActive. by rewrite E. Qed.

Lemma enter_round_spec t r0 :
  LT (λ s, ready s ∧ rx_retry s = r0) (enter_round RetryTimes t) (λ _ s, entered s ∧ rx_retry s = r0) (λ _, False) ended.
Proof.
  unfold enter_round. apply lt_ask. intros s0. apply lt_bind with (R := λ _ s, going s ∧ rx_retry s = r0 ∧ (quiet → rx_lease s = None)).
  - intros s (([Hg Hl] & He) & <-). unfold id in *. destruct (0 <? co_TotalAttempts (rx_counters s)) eqn:E.
    + destruct (release_view (tn_releasePrevious t) s) as (s' & Es & Hv). unfold mbind, L_bind. rewrite Es. run.
      assert (going s') as Hg' by (eapply going_emit; [done|done|apply calm_released|by rewrite lease_run_released]).
      apply view_parts in Hv as (Hc & _ & Hl'). injection Hc as _ _ _ _ _ E6 _ _ _.
      destruct (_ && _); [by apply going_ended|]. split_and!; [done|congruence|done].
    + split_and!; [done..|]. intros Hq. apply (Hl Hq). destruct Hg as ([] & _). apply length_zero_iff_nil. lia.
  - intros _. apply lt_ask. intros s1 s ((Hg & He & Hl) & <-). unfold id in *. pose proof Hg as (I & _).
    rewrite (inv_is_active s I). cbn [andb]. destruct (DefaultTotalAttempts <=? _) eqn:E; [by apply going_ended|].
    destruct (_ <? _); [by apply going_ended|]. split; [|done]. split; [done|]. split; [destruct I; lia|done].
Qed.

(** The next round of a request that was not admitted. *)
Definition next_round (r0 : Z) (s : rctx) : Prop := ready s ∧ r0 < rx_retry s < Z.of_nat (length cs).

Lemma ready_next s j r0 : inv cs s → held s → relayResponseCommitted s = false → 0 <= rx_retry s →
  rx_retry s < j < Z.of_nat (length cs) → r0 <= rx_retry s → (quiet → tried s = [] → rx_lease s = None) →
  next_round r0 (s <| rx_retry := j |>).
Proof.
  intros I Hh Hc Hp Hj Hr0 Hl. split; [|cbn; lia]. split; [|done].
  split_and!; try done; [|cbn; lia|intros _; cbn; lia]. by destruct I.
Qed.

Lemma try_next_spec t s r0 : ready s → r0 <= rx_retry s →
  match try_next_candidate t s with (Go _, s') => s' = s | (Again, s') => next_round r0 s' | (Leave, _) => False end.
Proof.
  intros [(I & Hh & Hc & Hp & _) Hl] Hr0. unfold try_next_candidate. run. unfold nextLiveRouteCandidateIndex.
  destruct (tn_done t); [done|]. destruct (inv_active s I) as (sel & _ & -> & Hlen). cbn.
  destruct (CandidateAtOrAfter sel (rx_retry s + 1)) as [[c j]|] eqn:E; [|done].
  apply candidate_spec in E as (Hj & Hjn & _). rewrite Hlen in Hjn. apply ready_next; [done..|cbn; lia|done|done].
Qed.

Section turn.
Context (t : turn) (Hdraw : ∀ n, (0 < n)%nat → (tn_draw t n < n)%nat) (Hquiet : quiet → tn_gone t = false).

Lemma get_channel_spec r0 :
  LT (λ s, entered s ∧ rx_retry s = r0) (getChannel MemoryCacheEnabled t)
    (λ r s, match r with Ok channel => picked channel s ∧ r0 <= rx_retry s | Err _ => inv cs s ∧ held s end) (λ _, False) (λ _, False).
Proof.
  intros s ((Hg & Ht & Hl) & <-). pose proof Hg as (I & Hh & _ & _ & Hp). unfold getChannel. run.
  destruct (inv_active s I) as (sel & -> & _ & _).
  destruct (next_channel_spec MemoryCacheEnabled t (S (length (ls_Attempts sel))) (rx_retry s) s cs Hdraw (inv_chs _ _ I)) as (r & s' & -> & Hch & Hok).
  pose proof Hch as (_ & _ & _ & _ & _ & _ & Et & El & _).
  assert (held s') as Hh' by (intros Hq; rewrite Et, El; by apply Hh).
  destruct r as [channel|e]; [|split; [by eapply inv_chosen|done]].
  destruct (Hok channel eq_refl) as (Hle & _ & Hfresh). split; [|done]. pose proof (same_tried s s' Et) as Htr.
  split; [split; [by eapply going_chosen|rewrite Htr, El; done]|]. unfold usable. rewrite Htr.
  destruct (tried s) eqn:E; [by left|right]. apply Hfresh. etrans; [by apply Hp|done].
Qed.

Lemma leave_with_spec {A} e (Q : A → rctx → Prop) Qa : LT (λ s, inv cs s ∧ held s) (leave_with e) Q Qa ended.
Proof. intros s (I & Hh). run. apply inv_ended; [by eapply (inv_calm _ s _ []); [|by rewrite app_nil_r| |]|exact Hh]. Qed.

Lemma acquire_spec channel attempt r0 :
  LT (λ s, picked channel s ∧ r0 <= rx_retry s) (acquireRouteAttemptLease t channel attempt)
    (λ refused s, r0 <= rx_retry s ∧ match refused with None => admitted channel s | Some _ => ready s end) (λ _, False) (λ _, False).
Proof.
  intros s (((Hg & Ht & Hl) & Hu) & Hr0).
  destruct (acquire_view t channel attempt s) as (refused & s' & -> & Hacq & Hin).
  assert (∀ evs l, view s' = (core s, rx_trace s ++ evs, l) → forallb calm_event evs = true → (quiet → lease_run None evs = Some l) →
    going s' ∧ usable channel s' ∧ r0 <= rx_retry s' ∧ tried s' = tried s ∧ rx_lease s' = l) as Hstep.
  { intros evs l Hv Hc%calm_test Hrun. split; [eapply going_emit; eauto; intros Hq; rewrite (Hl Hq); auto|].
    apply view_parts in Hv as (Ec & Et & El). split; [by eapply usable_emit|].
    pose proof (calm_same_tried s s' evs Et Hc). injection Ec as _ _ _ _ _ E6 _ _ _. rewrite E6. done. }
  destruct refused as [e|]; [destruct Hacq as [Hv|[Hv|[Hgone Hv]]]|].
  - destruct (Hstep [] (rx_lease s)) as (? & _ & ? & Htr & El); [by rewrite app_nil_r|done|by intros Hq; rewrite (Hl Hq)|].
    split; [done|]. split; [done|]. intros Hq _. rewrite El. auto.
  - destruct (Hstep _ _ Hv) as (? & _ & ? & Htr & El); [done|by intros Hq; rewrite (Hl Hq); cbn; rewrite decide_True|].
    split; [done|]. split; [done|]. intros Hq _. rewrite El. auto.
  - destruct (Hstep _ _ Hv) as (? & _ & ? & Htr & El); [done|by intros Hq%Hquiet; rewrite Hgone in Hq|].
    split; [done|]. split; [done|]. by intros Hq%Hquiet; rewrite Hgone in Hq.
  - destruct (Hstep _ _ Hacq) as (? & ? & ? & Htr & El); [done|done|]. split; [done|].
    destruct (Hin eq_refl) as (cs' & Ecs & Hc). destruct Hg as (I & _). pose proof (inv_chs _ _ I).
    split_and!; [done..|by rewrite Htr|done|]. congruence.
Qed.

(** A lease that was refused. *)
Lemma admission_failed_spec channel e r0 (Q : unit → rctx → Prop) :
  LT (λ s, ready s ∧ r0 <= rx_retry s) (admission_failed RetryTimes t channel e) Q (next_round r0) ended.
Proof.
  unfold admission_failed. apply lt_bind with (R := λ _ s, ready s ∧ r0 <= rx_retry s).
  - destruct (error_is _ _); [|by apply lt_ret]. apply lt_set. intros s [Hr Hr0].
    pose proof (view_filter (cn_Id channel) "capacity_exhausted" s) as Hv. rewrite (view_retry _ _ Hv). split; [by eapply ready_view|done].
  - intros _. apply lt_ask. intros s0. apply lt_bind with (R := λ _ s, ready s); [|intros _].
    + intros s ([Hr Hr0] & _). destruct (_ && _); [|done]. pose proof (try_next_spec t s r0 Hr Hr0) as Hn.
      destruct (try_next_candidate t s) as [[[]| |] s']; [by subst|done..].
    + eapply lt_pre, leave_with_spec. by intros s [(I & Hh & _) _].
Qed.

(** The bill of a channel that is admitted. *)
Lemma prepared_spec channel r0 :
  LT (λ s, admitted channel s ∧ r0 <= rx_retry s)
    (emit Prepared;;
     match tn_billing t with
     | Err e => leave_with e
     | Ok opened =>
         set (λ s, s <| rx_billing ::= orb opened |> <| rx_used ::= (λ l, l ++ [cn_Id channel]) |>);;
         match tn_body t with Some e => leave_with e | None => mret channel end
     end)
    (λ c s, c = channel ∧ admitted channel s ∧ r0 <= rx_retry s) (next_round r0) ended.
Proof.
  apply lt_bind with (R := λ _ s, admitted channel s ∧ r0 <= rx_retry s).
  - intros s ((Hg & Hu & Ht & Hl & Hin) & Hr0). run. set (s' := s <| rx_trace ::= _ |>).
    assert (Forall calm [Prepared]) as Hc by (by apply calm_test). split; [|done].
    assert (going s') as Hg' by (apply (going_emit s s' [Prepared] (rx_lease s)); [done..|intros _; by rewrite Hl]).
    assert (usable channel s') as Hu' by (by apply (usable_emit channel s s' [Prepared])).
    refine (conj Hg' (conj Hu' (conj _ (conj Hl Hin)))). by rewrite (calm_same_tried s s' _ eq_refl Hc).
  - intros _. assert (∀ e, LT (λ s, admitted channel s ∧ r0 <= rx_retry s) (leave_with e)
      (λ c s, c = channel ∧ admitted channel s ∧ r0 <= rx_retry s) (next_round r0) ended) as Hleave.
    { intros e. eapply lt_pre, leave_with_spec. by intros s (((I & Hh & _) & _) & _). }
    destruct (tn_billing t) as [opened|e]; [|apply Hleave].
    apply lt_bind with (R := λ _ s, admitted channel s ∧ r0 <= rx_retry s); [|intros _; destruct (tn_body t); [apply Hleave|by apply lt_ret]].
    apply lt_set. intros s (((I & Hh & Hrest) & Hu) & Hr0). split; [|done]. split; [|done]. split; [by destruct I|done].
Qed.

Lemma qualify_spec r0 :
  LT (λ s, entered s ∧ rx_retry s = r0) (qualify MemoryCacheEnabled RetryTimes t)
    (λ channel s, admitted channel s ∧ r0 <= rx_retry s) (next_round r0) ended.
Proof.
  unfold qualify. eapply lt_bind; [eapply lt_exits, get_channel_spec; done|]. intros [channel|e]; [|apply leave_with_spec].
  destruct (tn_price t) as [ratio|e].
  2: { eapply lt_pre, leave_with_spec. by intros s ((((I & Hh & _) & _) & _) & _). }
  apply lt_bind with (R := λ _ s, picked channel s ∧ r0 <= rx_retry s).
  { apply lt_set. intros s [Hp Hr0]. split; [|done]. eapply picked_view; [apply view_price|done]. }
  intros _. apply lt_ask. intros s0. apply lt_bind with (R := λ _ s, picked channel s ∧ r0 <= rx_retry s).
  { destruct (match rx_selection s0 with Some _ => _ | None => _ end); [|by apply lt_ret; intros s [? _]].
    apply lt_bind with (R := λ _ s, ready s ∧ r0 <= rx_retry s).
    - apply lt_set. intros s [[[Hp _] Hr0] _]. pose proof (view_filter (cn_Id channel) RouteFilterPriceForbidden s) as Hv.
      rewrite (view_retry _ _ Hv). split; [|done]. eapply ready_view; [done|by apply entered_ready].
    - intros _. apply lt_bind with (R := λ _ s, ready s).
      + intros s [Hr Hr0]. pose proof (try_next_spec t s r0 Hr Hr0) as Hn.
        destruct (try_next_candidate t s) as [[[]| |] s']; [by subst|done..].
      + intros _. eapply lt_pre, leave_with_spec. by intros s [(I & Hh & _) _]. }
  intros _. apply lt_ask. intros attempt.
  eapply lt_bind; [eapply lt_exits, lt_pre, acquire_spec; [done|done|by intros s [? _]]|]. intros refused.
  apply lt_bind with (R := λ _ s, admitted channel s ∧ r0 <= rx_retry s).
  { destruct refused as [e|]; [|by apply lt_ret; intros s [? ?]]. eapply lt_pre, admission_failed_spec. by intros s [? ?]. }
  intros _. eapply lt_weaken; [| |apply (prepared_spec channel r0)]; [done|]. by intros c s (-> & ? & ?).
Qed.

(** After the upstream call. *)
Record called (ch r0 : Z) (s : rctx) : Prop := {
  called_held : held s;
  called_lease : rx_lease s = Some ch;
  called_retry : r0 <= rx_retry s ∧ 0 <= rx_retry s;
  called_tried : tried s ≠ [];
  called_chs : chs s = Some cs;
  called_bound : Z.of_nat (length (tried s)) <= DefaultTotalAttempts;
  called_nodup : NoDup (tried s);
  called_refunds : refunds s = 0%nat;
  called_success : Forall (λ ev, ¬ is_success ev) (rx_trace s);
  called_last : ∃ before after, rx_trace s = before ++ after ∧ Forall (λ ev, ¬ is_committed ev) before ∧ (length (omap tried_of after) <= 1)%nat;
  called_inv : relayResponseCommitted s = false → inv cs s
}.

Lemma called_ended ch r0 s : called ch r0 s → ended s.
Proof.
  intros []. split_and!; [done..| |done]. intros ev Hin Hev.
  destruct (proj1 (Forall_forall _ _) called_success0 ev Hin Hev).
Qed.

Lemma called_emit ch r0 s s' evs :
  called ch r0 s → view s' = (core s, rx_trace s ++ evs, rx_lease s) → Forall calm evs → lease_run (Some ch) evs = Some (Some ch) → called ch r0 s'.
Proof.
  intros [Hh Hl Hr Ht Hchs Hb Hn Hf Hs (b & a & Hba & Hb1 & Ha) Hi] (Ec & Et & El)%view_parts Hc Hrun.
  pose proof (λ Hr, inv_calm cs s s' evs Ec Et Hc (Hi Hr)) as Hi'. pose proof (calm_same_tried s s' evs Et Hc) as Htr.
  pose proof (calm_tried evs Hc) as (C1 & C2 & C3 & C4). injection Ec as E1 E2 E3 E4 E5 E6 E7 E8 E9.
  split; rewrite ?Htr, ?E1, ?E6; try done; try congruence.
  - intros Hq. rewrite Et, lease_run_app, (Hh Hq), El, Hl. done.
  - unfold refunds in *. by rewrite Et, filter_app, C2, app_nil_r.
  - rewrite Et. by apply Forall_app.
  - exists b, (a ++ evs). rewrite Et, Hba, app_assoc. split_and!; [done..|]. by rewrite omap_app, C1, app_nil_r.
  - unfold relayResponseCommitted in *. rewrite E7, E8. auto.
Qed.
Lemma called_view ch r0 s s' : view s' = view s → called ch r0 s → called ch r0 s'.
Proof. intros E Hc. apply (called_emit ch r0 s s' []); [done|by rewrite app_nil_r|constructor|done]. Qed.

Lemma begin_spec channelID s : 0 < channelID → 0 <= rx_keyIndex s →
  let s' := beginLiveRouteUpstreamAttempt channelID s in
  co_TotalAttempts (rx_counters s') = co_TotalAttempts (rx_counters s) + 1 ∧ grows s s' ∧
  current_key s ∈ default ∅ (rx_attempted s' !! channelID).
Proof.
  intros Hpos Hk s'. assert (0 <= current_key s) as Hck by (unfold current_key; destruct (rx_multiKey s); lia).
  assert (rx_attempted s' = <[channelID := {[current_key s]} ∪ default ∅ (rx_attempted s !! channelID)]> (rx_attempted s)) as E.
  { unfold s', beginLiveRouteUpstreamAttempt, RecordLiveRouteAttemptedKey.
    rewrite (proj2 (Z.leb_gt _ _)) by lia. rewrite (proj2 (Z.ltb_ge _ _)) by lia. done. }
  split_and!.
  - unfold s', beginLiveRouteUpstreamAttempt, RecordLiveRouteAttemptedKey. destruct (_ || _); cbn; repeat case_match; cbn; lia.
  - intros ch. rewrite E. destruct (decide (ch = channelID)) as [->|]; [rewrite lookup_insert_eq; set_solver|by rewrite lookup_insert_ne].
  - rewrite E, lookup_insert_eq. set_solver.
Qed.

Lemma begin_same channelID s : let s' := beginLiveRouteUpstreamAttempt channelID s in
  chs s' = chs s ∧ (rx_multiKey s' = rx_multiKey s ∧ rx_keyIndex s' = rx_keyIndex s) ∧ rx_retry s' = rx_retry s ∧
  relayResponseCommitted s' = relayResponseCommitted s ∧ rx_trace s' = rx_trace s ∧ rx_lease s' = rx_lease s.
Proof. cbn. unfold beginLiveRouteUpstreamAttempt, RecordLiveRouteAttemptedKey. by destruct (_ || _). Qed.

Lemma call_spec channel r0 :
  LT (λ s, admitted channel s ∧ r0 <= rx_retry s) (call_upstream t channel) (λ _ s, called (cn_Id channel) r0 s) (λ _, False) (λ _, False).
Proof.
  intros s ((Hg & Hu & Ht & Hl & Hin) & Hr0). destruct Hg as (I & Hh & Hc & Hp & _). unfold call_upstream. run.
  rewrite (inv_is_active s I). assert (0 < cn_Id channel) as Hpos by (by apply (proj1 (Forall_forall _ _) Hcs)).
  destruct (begin_spec (cn_Id channel) s Hpos (inv_key _ _ I)) as (Btot & Bgrow & Bkey).
  destruct (begin_same (cn_Id channel) s) as (B1 & [B2 B3] & B4 & B5 & B6 & B7).
  set (s1 := beginLiveRouteUpstreamAttempt (cn_Id channel) s) in *. clearbody s1. set (up := tn_upstream t).
  match goal with |- called _ _ ?x => set (s' := x) end.
  assert (∃ b, rx_trace s' = rx_trace s ++ [Upstream (cn_Id channel) (current_key s) b] ∧ relayResponseCommitted s' = b) as (b & Et & Eb).
  { unfold s'. cbn. unfold relayResponseCommitted, current_key. cbn. rewrite B6, B2, B3. eauto. }
  assert (tried s' = tried s ++ [(cn_Id channel, current_key s)]) as Htr by (unfold tried; by rewrite Et, omap_app).
  assert (chs s' = Some cs) as Echs by (etrans; [exact B1|by destruct I]).
  assert (NoDup (tried s')) as Hnd.
  { rewrite Htr. apply NoDup_app. split_and!; [by destruct I| |apply NoDup_singleton]. intros [ch k] Hin' Heq%list_elem_of_singleton.
    injection Heq as -> ->. destruct Hu as [Hnil|Hf]; [rewrite Hnil in Hin'; by apply not_elem_of_nil in Hin'|].
    by apply Hf, (inv_recorded _ _ I). }
  assert (Forall (λ ev, ¬ is_success ev) (rx_trace s')) as Hsucc
    by (rewrite Et; apply Forall_app; split; [by destruct I|apply Forall_singleton; by intros []]).
  assert (refunds s' = 0%nat) as Href by (unfold refunds; rewrite Et, filter_app, length_app; fold (refunds s); by rewrite (inv_refunds _ _ I)).
  assert (Z.of_nat (length (tried s')) <= DefaultTotalAttempts) as Hb by (rewrite Htr, length_app; cbn; lia).
  split; try done.
  - intros Hq. rewrite Et, lease_run_app, (Hh Hq), Hl. change (rx_lease s') with (rx_lease s1). rewrite B7, Hl. cbn. by rewrite decide_True.
  - change (rx_lease s') with (rx_lease s1). by rewrite B7.
  - change (rx_retry s') with (rx_retry s1). by rewrite B4.
  - rewrite Htr. by destruct (tried s).
  - exists (rx_trace s), [Upstream (cn_Id channel) (current_key s) b]. split_and!; [done|by destruct I|cbn; lia].
  - intros Hu'. rewrite Hu' in Eb. subst b. split; try done.
    + change (rx_counters s') with (rx_counters s1). rewrite Htr, length_app, Btot, (inv_total _ _ I). cbn. lia.
    + intros ch k. rewrite Htr. change (rx_attempted s') with (rx_attempted s1).
      intros [Hold|Heq%list_elem_of_singleton]%elem_of_app; [by apply Bgrow, (inv_recorded _ _ I)|]. by injection Heq as -> ->.
    + change (rx_keyIndex s') with (rx_keyIndex s1). rewrite B3. by destruct I.
    + rewrite Et. apply Forall_app. split; [by destruct I|apply Forall_singleton; by intros []].
Qed.

Lemma called_leave ch r0 {A} (Q : A → rctx → Prop) Qa : LT (called ch r0) leave Q Qa ended.
Proof. apply lt_leave. intros s. apply called_ended. Qed.
Lemma called_error ch r0 e s : called ch r0 s → called ch r0 (s <| rx_error := e |>).
Proof. by apply called_view. Qed.

Lemma renewal_spec ch r0 Qa Ql : LT (called ch r0) liveRouteRenewalFailed (λ _, called ch r0) Qa Ql.
Proof. intros s Hc. unfold liveRouteRenewalFailed. run. destruct (renewal_failed s); run; [by apply (called_view _ _ s)|done]. Qed.

(** A success is observed when the request has no error. *)
Lemma served_spec channel r0 Q Qa : LT (called (cn_Id channel) r0) (served t channel) Q Qa ended.
Proof.
  unfold served. apply lt_bind with (R := λ _ s, called (cn_Id channel) r0 s ∧ rx_error s = None).
  { apply lt_set. intros s Hc. split; [by apply called_error|done]. }
  intros _. destruct (up_settlementError _) as [e|].
  - apply lt_ask. intros s0. destruct (relayResponseCommitted s0); cbn [negb]; [apply lt_leave; intros s [[? _] _]; by eapply called_ended|].
    intros s [[Hc _] _]. run. by eapply called_ended, called_error.
  - apply lt_ask. intros s0 s [[Hc He] _]. destruct (routeLiveSelectionActive s0); run; [|by eapply called_ended].
    destruct Hc as [Hh Hl Hr Ht Hchs Hb Hn Hf Hs (b & a & Hba & Hb1 & Ha) Hi]. unfold ended.
    set (s' := s <| rx_trace ::= _ |>). assert (rx_trace s' = rx_trace s ++ [ObservedSuccess (cn_Id channel)]) as Et by done.
    assert (tried s' = tried s) as Htr by (unfold tried; by rewrite Et, omap_app, app_nil_r).
    rewrite Htr. split_and!; try done.
    + intros Hq. rewrite Et, lease_run_app, (Hh Hq), Hl. cbn. rewrite decide_True by done. by rewrite Hl.
    + unfold refunds. by rewrite Et, filter_app, length_app, Nat.add_0_r.
    + exists b, (a ++ [ObservedSuccess (cn_Id channel)]). rewrite Et, Hba, app_assoc. split_and!; [done..|]. by rewrite omap_app, app_nil_r.
Qed.

(** Another attempt follows an error only when nothing was committed. *)
Lemma after_error_spec realtime channel e r0 Q :
  LT (called (cn_Id channel) r0) (after_error t realtime channel e) Q (next_round r0) ended.
Proof.
  unfold after_error. apply lt_ask. intros s0. unfold id.
  apply lt_bind with (R := λ _ s, called (cn_Id channel) r0 s ∧ core s = core s0).
  { intros s [Hc <-]. destruct (_ && _); [|done]. run. split; [|done].
    apply (called_emit _ _ s _ [ObservedError (cn_Id channel)]); [done..|by apply calm_test|]. cbn. by rewrite decide_True. }
  intros _ s [Hc Ecore]. destruct (if (_ && _) : bool then _ else None) as [next|] eqn:E; [|by eapply called_ended].
  destruct (tn_wait t); [|by eapply called_ended]. run.
  destruct (_ && _) eqn:Ecan in E; [|done]. apply andb_prop in Ecan as [_ Ecan]. unfold CanRouteFailover in Ecan.
  destruct ((rx_written s0 || rx_validOutput s0 || realtime) || rx_validOutput s0) eqn:Eopen; [done|].
  injection Ecore as E1 E2 E3 E4 E5 E6 E7 E8 E9.
  assert (relayResponseCommitted s = false) as Hopen.
  { unfold relayResponseCommitted. rewrite E7, E8. apply orb_false_elim in Eopen as [Eo _]. by apply orb_false_elim in Eo as [? _]. }
  pose proof (called_inv _ _ _ Hc Hopen) as I. unfold nextLiveRouteAttemptForError in E. destruct (tn_done t); [done|].
  destruct (chs_active s0) as (sel & _ & Hsel & Hlen); [rewrite <-E1; apply I|]. rewrite Hsel in E. cbn in E.
  unfold NextCandidateForError in E. case_bool_decide; [done|].
  destruct (scan_attempts _ _ _) as [[c j]|] eqn:Escan; [|done]. injection E as <-.
  apply scan_attempts_spec in Escan as (Hj & _). rewrite length_drop, Hlen in Hj. destruct Hc as [Hh Hl [Hr0 Hp] Ht _ _ _ _ _ _ _].
  apply ready_next; [done..|rewrite E6 in *; cbn; lia|done|done].
Qed.

Lemma round_spec realtime r0 :
  LT (λ s, ready s ∧ rx_retry s = r0) (round MemoryCacheEnabled RetryTimes NormalizeViolationFeeError t realtime)
    (λ _, ended) (next_round r0) ended.
Proof.
  unfold round. eapply lt_bind; [eapply lt_exits, enter_round_spec; done|]. intros [].
  eapply lt_bind; [apply qualify_spec|]. intros channel.
  eapply lt_bind; [eapply lt_exits, call_spec; done|]. intros failed.
  apply lt_bind with (R := λ _, called (cn_Id channel) r0).
  { destruct failed as [e|]; [by apply lt_ret|]. apply lt_ask. intros active.
    apply lt_bind with (R := λ _, called (cn_Id channel) r0).
    - destruct active; [eapply lt_pre, renewal_spec; by intros s [? _]|apply lt_ret; by intros s [? _]].
    - intros lost. apply lt_ask. intros s0. apply lt_ret. by intros s [? _]. }
  intros [e|]; [|apply served_spec].
  apply lt_bind with (R := λ _, called (cn_Id channel) r0); [apply lt_set; intros s; apply called_error|intros _].
  apply lt_ask. intros s0. apply lt_bind with (R := λ _, called (cn_Id channel) r0).
  { destruct (_ && _); [eapply lt_pre, renewal_spec; by intros s [? _]|apply lt_ret; by intros s [? _]]. }
  intros []; (apply lt_bind with (R := λ _, called (cn_Id channel) r0); [|intros _]).
  - apply lt_set. intros s Hc. eapply called_error, called_view; [apply view_mark|done].
  - apply called_leave.
  - apply lt_set. intros s. apply called_error.
  - apply after_error_spec.
Qed.

End turn.

(** A round that does not end the loop moves on to a later attempt. *)
Lemma loop_spec answers realtime fuel i s
    (Hdraw : ∀ i n, (0 < n)%nat → (tn_draw (answers i) n < n)%nat) (Hquiet : quiet → ∀ i, tn_gone (answers i) = false) :
  ready s → (Z.to_nat (Z.of_nat (length cs) - rx_retry s) < fuel)%nat →
  ∃ s', relay_loop MemoryCacheEnabled RetryTimes NormalizeViolationFeeError fuel i answers realtime s = Some s' ∧ ended s'.
Proof.
  revert i s. induction fuel as [|fuel IH]; intros i s Hr Hf; [lia|]. cbn [relay_loop].
  pose proof (round_spec (answers i) (Hdraw i) (λ Hq, Hquiet Hq i) realtime (rx_retry s) s (conj Hr eq_refl)) as Hround.
  destruct (round _ _ _ _ _ s) as [[[]| |] s']; [by eauto| |by eauto].
  destruct Hround as [Hr' Hlt]. apply IH; [done|lia].
Qed.

End safety.

(** ** The request *)

Lemma error_selection f s : rx_error (update_selection f s) = rx_error s.
Proof. unfold update_selection. by destruct (active_selection s). Qed.
Lemma error_mark channelID state s : rx_error (markLiveRouteAttempt channelID state s) = rx_error s.
Proof. unfold markLiveRouteAttempt. destruct (_ <=? _); [done|apply error_selection]. Qed.
Lemma error_governance channelID code s : rx_error (recordLiveRouteGovernanceFailure channelID code s) = rx_error s.
Proof. unfold recordLiveRouteGovernanceFailure. rewrite error_selection. case_bool_decide; [apply error_mark|done]. Qed.

Lemma release_error answer s : rx_error (releaseRouteAttemptLease answer s).2 = rx_error s.
Proof.
  unfold releaseRouteAttemptLease. run. destruct (rx_renewal s) as [[]|], (rx_lease s) as [l|], answer as [e|]; cbn;
    by rewrite ?error_mark, ?error_governance; cbn; rewrite ?error_mark.
Qed.

Section request.
Context `{GoText, JsonArrays} (MemoryCacheEnabled : bool) (RetryTimes : Z) (NormalizeViolationFeeError : error → error).

(** What the deferred functions add to the trace. *)
Definition refund_events (s : rctx) : list event := if bool_decide (is_Some (rx_error s)) && rx_billing s then [Refunded] else [].

Lemma cleanup_spec release s : ∃ s' d,
  cleanup release s = (Go tt, s') ∧ rx_error s' = rx_error s ∧ rx_billing s' = rx_billing s ∧
  rx_trace s' = rx_trace s ++ released (rx_lease s) ++ match d with Some d => [Decided d] | None => [] end.
Proof.
  unfold cleanup. run. destruct (release_view release s) as (s1 & E & Hv). pose proof (release_error release s) as He. rewrite E in He |- *.
  apply view_parts in Hv as (Ec & Et & _). injection Ec as _ _ _ _ _ _ _ _ E9. unfold finalizeLiveRouteDecision. run. cbn in He.
  destruct (active_selection s1) as [sel|]; run.
  - exists (s1 <| rx_trace ::= (λ t, t ++ [Decided (final_decision s1 sel)]) |>), (Some (final_decision s1 sel)).
    split_and!; [done..|]. cbn. by rewrite Et, app_assoc.
  - exists s1, None. split_and!; [done..|]. by rewrite Et, app_nil_r.
Qed.

Lemma deferred_spec realtime release s : ∃ s' d,
  (refund_on_error NormalizeViolationFeeError;; respond_error realtime;; cleanup release) s = (Go tt, s') ∧
  rx_error s' = NormalizeViolationFeeError <$> rx_error s ∧ rx_billing s' = rx_billing s ∧
  rx_trace s' = rx_trace s ++ refund_events s ++ released (rx_lease s) ++ match d with Some d => [Decided d] | None => [] end.
Proof.
  unfold mbind at 1, L_bind at 1.
  assert (∃ s1, refund_on_error NormalizeViolationFeeError s = (Go tt, s1) ∧ rx_error s1 = NormalizeViolationFeeError <$> rx_error s ∧
    rx_billing s1 = rx_billing s ∧ rx_lease s1 = rx_lease s ∧ rx_trace s1 = rx_trace s ++ refund_events s) as (s1 & -> & E1 & E2 & E3 & E4).
  { unfold refund_on_error, refund_events. run. destruct (rx_error s) as [e|] eqn:E.
    - rewrite bool_decide_true by eauto. destruct (rx_billing s) eqn:Eb; run; eexists; (split; [done|]); cbn; rewrite ?Eb; by rewrite ?app_nil_r.
    - exists s. rewrite bool_decide_false by apply is_Some_None. cbn. by rewrite app_nil_r. }
  unfold mbind, L_bind, respond_error, set at 1.
  set (s2 := if _ : bool then _ else s1). assert (rx_error s2 = rx_error s1 ∧ rx_billing s2 = rx_billing s1 ∧ rx_lease s2 = rx_lease s1 ∧
    rx_trace s2 = rx_trace s1) as (F1 & F2 & F3 & F4) by (unfold s2; by destruct (_ && _)).
  destruct (cleanup_spec release s2) as (s' & d & E & G1 & G2 & G3). exists s', d. rewrite E, G1, G2, G3, F1, F2, F3, F4, E1, E2, E3, E4.
  by rewrite <-app_assoc.
Qed.

(** A request whose attempts are those of [cs], before its first round. *)
Record starts (cs : list Z) (s : rctx) : Prop := {
  starts_chs : chs s = Some cs;
  starts_ids : Forall (λ c, 0 < c) cs;
  starts_counters : co_TotalAttempts (rx_counters s) = 0;
  starts_key : 0 <= rx_keyIndex s;
  starts_lease : rx_lease s = None;
  starts_open : relayResponseCommitted s = false;
  starts_billing : rx_billing s = false;
  starts_retry : rx_retry s = 0;
  starts_error : rx_error s = None;
  starts_trace : rx_trace s = []
}.

Definition fair (answers : nat → turn) : Prop := ∀ i n, (0 < n)%nat → (tn_draw (answers i) n < n)%nat.

(** What holds of a request at its end; [lease_run] when the client did not
    leave under a lease. *)
Definition relayed (quiet : Prop) (s : rctx) : Prop :=
  Z.of_nat (length (tried s)) <= DefaultTotalAttempts ∧ NoDup (tried s) ∧
  (∃ before after, rx_trace s = before ++ after ∧ Forall (λ ev, ¬ is_committed ev) before ∧ (length (omap tried_of after) <= 1)%nat) ∧
  (quiet → lease_run None (rx_trace s) = Some None) ∧
  refunds s = (if bool_decide (is_Some (rx_error s)) && rx_billing s then 1 else 0)%nat ∧
  (∀ ev, ev ∈ rx_trace s → is_success ev → rx_error s = None).

Lemma starts_ready quiet cs s : starts cs s → ready quiet cs s.
Proof.
  intros [Hc _ H1 H2 H3 H4 _ H5 _ Ht]. assert (tried s = []) as Htr by (unfold tried; by rewrite Ht).
  split; [|done]. split_and!; [|intros _; by rewrite Ht, H3|done|lia|by rewrite Htr].
  split; rewrite ?Htr, ?Ht; try done; [apply NoDup_nil_2|by intros ?? ?%not_elem_of_nil|unfold refunds; by rewrite Ht].
Qed.

(** The events of the deferred functions. *)
Lemma finish_relayed quiet s s' (d : option RouteDecision) :
  (quiet → lease_run None (rx_trace s) = Some (rx_lease s)) → Z.of_nat (length (tried s)) <= DefaultTotalAttempts → NoDup (tried s) →
  refunds s = 0%nat → (∀ ev, ev ∈ rx_trace s → is_success ev → rx_error s = None) →
  (∃ before after, rx_trace s = before ++ after ∧ Forall (λ ev, ¬ is_committed ev) before ∧ (length (omap tried_of after) <= 1)%nat) →
  rx_error s' = None ↔ rx_error s = None → rx_billing s' = rx_billing s →
  rx_trace s' = rx_trace s ++ refund_events s ++ released (rx_lease s) ++ match d with Some d => [Decided d] | None => [] end →
  relayed quiet s'.
Proof.
  intros Hh Hb Hn Hr Hs (b & a & Hba & Hb1 & Ha) He Hbill Ht.
  set (evs := refund_events s ++ _) in Ht.
  assert (omap tried_of evs = [] ∧ filter is_refund evs = refund_events s ∧ (∀ ev, ev ∈ evs → ¬ is_success ev)) as (T & R & S).
  { unfold evs, refund_events. destruct (_ && _), (rx_lease s), d; (split_and!; [done..|]); set_solver. }
  assert (tried s' = tried s) as Htr by (unfold tried; by rewrite Ht, omap_app, T, app_nil_r).
  unfold relayed. rewrite Htr. split_and!; [done..| | | |].
  - exists b, (a ++ evs). rewrite Ht, Hba, app_assoc. split_and!; [done..|]. by rewrite omap_app, T, app_nil_r.
  - intros Hq. rewrite Ht, lease_run_app, (Hh Hq). cbn [mbind option_bind]. unfold evs. rewrite lease_run_app.
    assert (lease_run (rx_lease s) (refund_events s) = Some (rx_lease s)) as -> by (unfold refund_events; by destruct (_ && _)).
    cbn [mbind option_bind]. rewrite lease_run_app, lease_run_released. by destruct d.
  - unfold refunds in *. rewrite Ht, filter_app, length_app, Hr, R. unfold refund_events. rewrite Hbill.
    assert (bool_decide (is_Some (rx_error s')) = bool_decide (is_Some (rx_error s))) as ->
      by (apply bool_decide_ext; rewrite <-!not_eq_None_Some; tauto).
    by destruct (_ && _).
  - intros ev. rewrite Ht. intros [Hin|Hin]%elem_of_app Hev; [|by destruct (S ev Hin)]. apply He. eauto.
Qed.

Lemma Relay_spec (quiet : Prop) cs fuel answers realtime early release s :
  starts cs s → fair answers → (quiet → ∀ i, tn_gone (answers i) = false) → (length cs < fuel)%nat →
  ∃ s', Relay MemoryCacheEnabled RetryTimes NormalizeViolationFeeError fuel answers realtime early release s = Some s' ∧ relayed quiet s'.
Proof.
  intros Hs Hf Hq Hfuel. unfold Relay. destruct early as [e|].
  - unfold mbind, L_bind, respond_error, set at 1. cbn beta iota.
    set (s0 := s <| rx_error := Some e |>). set (s1 := if _ : bool then _ else s0).
    assert (rx_error s1 = Some e ∧ rx_billing s1 = false ∧ rx_lease s1 = None ∧ rx_trace s1 = []) as (F1 & F2 & F3 & F4).
    { destruct Hs. unfold s1. by destruct (_ && _). }
    destruct (cleanup_spec release s1) as (s' & d & -> & G1 & G2 & G3). eexists. split; [done|]. cbn [snd].
    apply (finish_relayed quiet s1 s' d); try done.
    + intros _. by rewrite F4, F3.
    + unfold tried. by rewrite F4.
    + unfold tried. rewrite F4. apply NoDup_nil_2.
    + unfold refunds. by rewrite F4.
    + intros ev. rewrite F4. by intros ?%not_elem_of_nil.
    + exists [], []. rewrite F4. split_and!; [done..|cbn; lia].
    + by rewrite G1.
    + rewrite G3. unfold refund_events. by rewrite F2, andb_false_r.
  - set (s0 := if _ : bool then _ else s). assert (starts cs s0) as Hs0 by (unfold s0; destruct (routeLiveSelectionActive s); [by destruct Hs|done]).
    pose proof (starts_ready quiet cs s0 Hs0) as Hr0.
    destruct (loop_spec MemoryCacheEnabled RetryTimes NormalizeViolationFeeError quiet cs (starts_ids _ _ Hs0) answers realtime fuel 0 s0 Hf Hq Hr0)
      as (s1 & -> & Hh & _ & Hb & Hn & Href & Hsucc & Hlast); [rewrite (starts_retry _ _ Hs0); lia|]. cbn [mbind option_bind].
    destruct (deferred_spec realtime release s1) as (s' & d & -> & G1 & G2 & G3). eexists. split; [done|]. cbn [snd].
    apply (finish_relayed quiet s1 s' d); try done. rewrite G1. by destruct (rx_error s1).
Qed.
(** C29: a relayed request that is no compaction ends after at most one round
    more than its selection has attempts, whatever channels, leases, bills and
    upstreams answer, and has then called the upstream at most three times. *)
Theorem relay_terminates cs fuel answers realtime early release s :
  starts cs s → fair answers → (length cs < fuel)%nat →
  ∃ s', Relay MemoryCacheEnabled RetryTimes NormalizeViolationFeeError fuel answers realtime early release s = Some s' ∧
    Z.of_nat (length (tried s')) <= DefaultTotalAttempts.
Proof.
  intros Hs Hf Hn. destruct (Relay_spec False cs fuel answers realtime early release s Hs Hf) as (s' & E & H1 & _); [done..|by exists s'].
Qed.

(** C25: no key is used twice: the pairs of channel and key of the upstream
    calls of a request that is no compaction are all different. *)
Theorem relay_never_reuses_a_key cs fuel answers realtime early release s :
  starts cs s → fair answers → (length cs < fuel)%nat →
  ∃ s', Relay MemoryCacheEnabled RetryTimes NormalizeViolationFeeError fuel answers realtime early release s = Some s' ∧ NoDup (tried s').
Proof.
  intros Hs Hf Hn. destruct (Relay_spec False cs fuel answers realtime early release s Hs Hf) as (s' & E & _ & H1 & _); [done..|by exists s'].
Qed.

Lemma omap_le_1 {A B} (f : A → option B) l i j x y :
  (length (omap f l) <= 1)%nat → l !! i = Some x → l !! j = Some y → is_Some (f x) → is_Some (f y) → i = j.
Proof.
  revert i j. induction l as [|z l IH]; intros i j Hl Hi Hj [bx Hx] [by_ Hy]; [done|].
  assert (∀ k w, l !! k = Some w → is_Some (f w) → is_Some (f z) → False) as Hone.
  { intros k w Hk [bw Hw] [bz Hz]. cbn in Hl. rewrite Hz in Hl. assert (bw ∈ omap f l) as Hin.
    { apply list_elem_of_omap. exists w. split; [by eapply list_elem_of_lookup_2|done]. }
    destruct (omap f l); [by apply not_elem_of_nil in Hin|cbn in Hl; lia]. }
  destruct i as [|i], j as [|j]; cbn in Hi, Hj; [done| | |].
  - injection Hi as ->. exfalso. eauto.
  - injection Hj as ->. exfalso. eauto.
  - f_equal. eapply IH; eauto. cbn in Hl. destruct (f z); cbn in Hl; lia.
Qed.

(** C26: once the response of a request that is no compaction is committed to
    the client, the upstream is not called again: a call that ends with the
    response committed is the last one. *)
Theorem no_call_after_a_committed_response cs fuel answers realtime early release s :
  starts cs s → fair answers → (length cs < fuel)%nat →
  ∃ s', Relay MemoryCacheEnabled RetryTimes NormalizeViolationFeeError fuel answers realtime early release s = Some s' ∧
    ∀ i j c k c' k' b, rx_trace s' !! i = Some (Upstream c k true) → rx_trace s' !! j = Some (Upstream c' k' b) → (j <= i)%nat.
Proof.
  intros Hs Hf Hn.
  destruct (Relay_spec False cs fuel answers realtime early release s Hs Hf) as (s' & E & _ & _ & (b & a & Et & Hb & Ha) & _); [done..|].
  exists s'. split; [done|]. intros i j c k c' k' bb. rewrite Et. intros Hi Hj.
  apply lookup_app_Some in Hi as [Hi|[Hi1 Hi2]]; [by destruct (Forall_lookup_1 _ _ _ _ Hb Hi)|].
  apply lookup_app_Some in Hj as [Hj|[Hj1 Hj2]]; [apply lookup_lt_Some in Hj; lia|].
  enough (i - length b = j - length b)%nat by lia. eapply omap_le_1; eauto; cbn; eauto.
Qed.

(** C27: every lease of an attempt is released, once, before the next one is
    taken and before the decision is recorded; bills are prepared and the
    upstream is called and observed only under the lease of its channel.
    (The client does not leave between the lease and the call.) *)
Theorem leases_are_released_once cs fuel answers realtime early release s :
  starts cs s → fair answers → (∀ i, tn_gone (answers i) = false) → (length cs < fuel)%nat →
  ∃ s', Relay MemoryCacheEnabled RetryTimes NormalizeViolationFeeError fuel answers realtime early release s = Some s' ∧
    lease_run None (rx_trace s') = Some None.
Proof.
  intros Hs Hf Hg Hn.
  destruct (Relay_spec True cs fuel answers realtime early release s Hs Hf) as (s' & E & _ & _ & _ & Hl & _); [done..|].
  exists s'. split; [done|by apply Hl].
Qed.

(** C28: a request that ends in an error and has an open bill is refunded, once;
    no other request is refunded, and none whose attempt was observed as a
    success. *)
Theorem refund_exactly_when_failed cs fuel answers realtime early release s :
  starts cs s → fair answers → (length cs < fuel)%nat →
  ∃ s', Relay MemoryCacheEnabled RetryTimes NormalizeViolationFeeError fuel answers realtime early release s = Some s' ∧
    refunds s' = (if bool_decide (is_Some (rx_error s')) && rx_billing s' then 1 else 0)%nat ∧
    (∀ c, ObservedSuccess c ∈ rx_trace s' → rx_error s' = None).
Proof.
  intros Hs Hf Hn.
  destruct (Relay_spec False cs fuel answers realtime early release s Hs Hf) as (s' & E & _ & _ & _ & _ & Hr & Hsucc); [done..|].
  exists s'. split_and!; [done..|]. intros c Hc. by apply (Hsucc _ Hc).
Qed.
End request.

(** ** A concrete request

    Channel 7 has two keys, channel 8 one; the plan tries 7 twice. *)

#[local] Instance plain_text : GoText := MkGoText (λ s, s) (λ s, s) (λ s, s).

Definition attempt_of (ch : Z) : RouteDecisionCandidate := MkDecisionCandidate ch "gpt" "" 0 0 1 1 1 "v1" None "".
Definition two_keys : Channel :=
  MkChannel 7 ("sk-a" +:+ newline +:+ "sk-b") [] 1 (MkOtherInfo None None) (MkChannelInfo true 2 ∅ ∅ ∅ 0 "random").
Definition one_key : Channel := MkChannel 8 "sk-c" [] 1 (MkOtherInfo None None) (MkChannelInfo false 0 ∅ ∅ ∅ 0 "").
Definition plan_selection : LiveRouteSelection :=
  MkLiveSelection 0 RouteSourceAutoLab (NewRouteDecision "r1" RouteSourceAutoLab "gpt" 1 0) (attempt_of <$> [7; 7; 8; 8]) (f64 0)
    (MkRetryPolicy "" 0 0).
Definition request : rctx :=
  MkRctx (Some plan_selection) (MkCounters 0 0 0 0) None ∅ 7 true 0 None None false false false (f64 0) false false false false [] 0 None [].

Definition runtime : RouteLeaseRuntimeState := MkRuntimeState true 1 1 4 (f64 1).
Definition turn_with (gone : bool) (up : upstream_reply) : turn :=
  MkTurn (λ ch, if ch =? 7 then Ok two_keys else Ok one_key) (λ _, None) (MkKdb ∅ ∅ ∅) (λ _, 0%nat) (λ _, Ok ∅) (λ _ _, Ok true)
    (Ok (f64 1)) (Ok runtime) (Ok (4, f64 1)) (Ok runtime) None (Ok runtime) None None gone (Ok true) None up false true.
Definition overloaded : upstream_reply := MkUpstream (Some (ErrAPI "upstream_error" 503 false None (ErrNew "overloaded"))) false false false false None.
Definition answered : upstream_reply := MkUpstream None true true true false None.
Definition third_answers (i : nat) : turn := turn_with false (if (i <? 2)%nat then overloaded else answered).
Definition none_answers (i : nat) : turn := turn_with false overloaded.

Lemma request_starts : starts [7; 7; 8; 8] request.
Proof. split; try done. repeat constructor. Qed.
Lemma third_fair : fair third_answers.
Proof. by intros i n. Qed.

Example third_tried : tried <$> Relay false 3 id 5 third_answers false None None request = Some [(7, 0); (7, 1); (8, 0)].
Proof. by vm_compute. Qed.

Lemma relay_terminates_witness :
  ∃ s', Relay false 3 id 5 none_answers false None None request = Some s' ∧ Z.of_nat (length (tried s')) <= DefaultTotalAttempts.
Proof. apply (relay_terminates false 3 id [7; 7; 8; 8] 5 none_answers false None None request request_starts); [by intros i n|cbn; lia]. Defined.

Lemma relay_never_reuses_a_key_witness :
  ∃ s', Relay false 3 id 5 third_answers false None None request = Some s' ∧ NoDup (tried s').
Proof. apply (relay_never_reuses_a_key false 3 id [7; 7; 8; 8] 5 third_answers false None None request request_starts third_fair). cbn. lia. Defined.

Lemma no_call_after_a_committed_response_witness :
  ∃ s', Relay false 3 id 5 third_answers false None None request = Some s' ∧
    ∀ i j c k c' k' b, rx_trace s' !! i = Some (Upstream c k true) → rx_trace s' !! j = Some (Upstream c' k' b) → (j <= i)%nat.
Proof.
  apply (no_call_after_a_committed_response false 3 id [7; 7; 8; 8] 5 third_answers false None None request request_starts third_fair). cbn. lia.
Defined.

Lemma leases_are_released_once_witness :
  ∃ s', Relay false 3 id 5 third_answers false None None request = Some s' ∧ lease_run None (rx_trace s') = Some None.
Proof.
  apply (leases_are_released_once false 3 id [7; 7; 8; 8] 5 third_answers false None None request request_starts third_fair); [done|cbn; lia].
Defined.

Lemma refund_exactly_when_failed_witness :
  ∃ s', Relay false 3 id 5 none_answers false None None request = Some s' ∧
    refunds s' = (if bool_decide (is_Some (rx_error s')) && rx_billing s' then 1 else 0)%nat ∧
    (∀ c, ObservedSuccess c ∈ rx_trace s' → rx_error s' = None).
Proof.
  apply (refund_exactly_when_failed false 3 id [7; 7; 8; 8] 5 none_answers false None None request request_starts); [by intros i n|cbn; lia].
Defined.

(** The request that fails three times is refunded once. *)
Example none_refunded :
  (λ s, (refunds s, tried s, rx_written s)) <$> Relay false 3 id 5 none_answers false None None request = Some (1%nat, [(7, 0); (7, 1); (8, 0)], true).
Proof. by vm_compute. Qed.

(** ** A client that leaves under a lease *)

(** When the client leaves between the lease and the call, the lease is
    released but stays in the context, so that the end of the request releases
    it again; Redis refuses the second release, and the decision records a
    failed release for a lease that was given back. *)
Theorem gone_client_releases_twice :
  ∃ d, rx_trace <$> Relay false 3 id 5 (λ _, turn_with true answered) false None (Some ErrRouteLeaseOwnership) request
         = Some [Acquired 7; Released 7; Released 7; Decided d] ∧
    rd_LeaseState d = RouteLeaseStateReleaseFailed.
Proof. eexists. split; by vm_compute. Qed.
