(* ===== verification/CompactRetry.v ===== *)
(** * Attempts of a compaction request

    [compactRetryState] of src/controller/relay.go.  A request that compacts a
    conversation first tries the model with the compaction suffix ([Exact]) and
    then the plain model ([Base]); each stage has a budget of attempts and a
    record of the keys it has used.  What the base stage may use grows by what
    the exact stage has left.

    The context holds a reference to the record of one stage, so it is modelled
    as the stage it points to.  [compact_round] is the part of the rounds of
    [Relay] that works on this state; what the rest of a round did is its
    argument. *)

From S2P Require Import Prelude GoStrings RetryPlan.
#[local] Open Scope string_scope.
#[local] Open Scope list_scope.
#[local] Open Scope Z_scope.

(** ** Names of models *)

Definition CompactModelSuffix : string := "-openai-compact".
Definition CompactBaseModelName (modelName : string) : string := TrimSuffix modelName CompactModelSuffix.
Definition IsGPTCompactBaseModel (modelName : string) : bool :=
  match strip_prefix "gpt-" (CompactBaseModelName modelName) with Some rest => negb (bool_decide (rest = "")) | None => false end.

(** ** The state *)

Inductive CompactAttemptStage := CompactAttemptNone | CompactAttemptExact | CompactAttemptBase.
#[global] Instance CompactAttemptStage_eq_dec : EqDecision CompactAttemptStage.
Proof. solve_decision. Defined.

Record compactRetryState := MkCompact {
  cr_stage : CompactAttemptStage; cr_exactBudget : Z; cr_baseBudget : Z; cr_exactAttempts : Z; cr_baseAttempts : Z;
  cr_exactKeys : gmap Z (gset Z); cr_baseKeys : gmap Z (gset Z)
}.
#[global] Instance eta_compact : Eta compactRetryState := λ s,
  MkCompact (cr_stage s) (cr_exactBudget s) (cr_baseBudget s) (cr_exactAttempts s) (cr_baseAttempts s) (cr_exactKeys s) (cr_baseKeys s).

(** [RelayInfo], [RetryParam] and the context as far as the state writes them. *)
Record compact_ctx := MkCompactCtx {
  cx_state : compactRetryState;
  cx_infoStage : CompactAttemptStage; cx_ctxStage : CompactAttemptStage;
  cx_keys : CompactAttemptStage;                    (* whose keys the context points to *)
  cx_retry : Z; cx_MaxRetries : option Z
}.
#[global] Instance eta_compact_ctx : Eta compact_ctx := λ x,
  MkCompactCtx (cx_state x) (cx_infoStage x) (cx_ctxStage x) (cx_keys x) (cx_retry x) (cx_MaxRetries x).

Definition keys_of (stage : CompactAttemptStage) (s : compactRetryState) : gmap Z (gset Z) :=
  match stage with CompactAttemptExact => cr_exactKeys s | CompactAttemptBase => cr_baseKeys s | CompactAttemptNone => ∅ end.
Definition GetCompactAttemptedKeyIndexes (channelID : Z) (x : compact_ctx) : gset Z :=
  default ∅ (keys_of (cx_keys x) (cx_state x) !! channelID).

(** [None]: the request is no compaction. *)
Definition newCompactRetryState (compaction : bool) (infoStage : CompactAttemptStage) (requestedModel : string) : option compactRetryState :=
  if negb compaction then None
  else
    let totalAttempts := if DefaultTotalAttempts <? 1 then 1 else DefaultTotalAttempts in
    let gpt := IsGPTCompactBaseModel requestedModel in
    let stage := match infoStage with
      | CompactAttemptNone => if gpt then CompactAttemptExact else CompactAttemptBase
      | stage => if negb gpt then CompactAttemptBase else stage
      end in
    let exactBudget := (2 * totalAttempts + 2) / 3 in
    let baseBudget := totalAttempts - exactBudget in
    Some (MkCompact stage exactBudget (if decide (stage = CompactAttemptBase) then baseBudget + exactBudget else baseBudget) 0 0 ∅ ∅).

Definition prepare (x : compact_ctx) : compact_ctx :=
  let s := cx_state x in
  let x := x <| cx_infoStage := cr_stage s |> <| cx_keys := cr_stage s |> in
  if decide (cr_stage s = CompactAttemptExact) then
    x <| cx_retry := cr_exactAttempts s |> <| cx_MaxRetries := Some (cr_exactBudget s - 1) |>
  else x <| cx_retry := cr_baseAttempts s |> <| cx_MaxRetries := Some (cr_baseBudget s - 1) |>.

Definition add_key (channelID keyIndex : Z) (m : gmap Z (gset Z)) : gmap Z (gset Z) :=
  <[channelID := {[keyIndex]} ∪ default ∅ (m !! channelID)]> m.

Definition recordAttempt (channelID keyIndex : Z) (s : compactRetryState) : compactRetryState :=
  if decide (cr_stage s = CompactAttemptExact)
  then s <| cr_exactKeys ::= add_key channelID keyIndex |> <| cr_exactAttempts ::= Z.succ |>
  else s <| cr_baseKeys ::= add_key channelID keyIndex |> <| cr_baseAttempts ::= Z.succ |>.

Definition remainingAttempts (s : compactRetryState) : Z :=
  if decide (cr_stage s = CompactAttemptExact) then cr_exactBudget s - cr_exactAttempts s else cr_baseBudget s - cr_baseAttempts s.

Definition switchToBase (x : compact_ctx) : bool * compact_ctx :=
  let s := cx_state x in
  if negb (bool_decide (cr_stage s = CompactAttemptExact)) || (cr_baseBudget s <=? cr_baseAttempts s) then (false, x)
  else
    let unusedExact := cr_exactBudget s - cr_exactAttempts s in
    let s := if 0 <? unusedExact then s <| cr_baseBudget ::= (λ b, b + unusedExact) |> else s in
    (true, x <| cx_state := s <| cr_stage := CompactAttemptBase |> |> <| cx_infoStage := CompactAttemptBase |>
             <| cx_ctxStage := CompactAttemptBase |> <| cx_keys := CompactAttemptBase |>).

(** ** Errors about the model *)

(** [ToOpenAIError] of an API error, and the error itself. *)
Record api_reply := MkReply { ar_code : string; ar_param : string; ar_message : string; ar_status : Z; ar_error : string }.

Definition model_codes : list string := ["model_not_found"; "unsupported_model"; "model_not_supported"; "invalid_model"; "unknown_model"].
Definition model_markers : list string :=
  ["unknown model"; "unsupported model"; "invalid model"; "no such model"; "not found"; "does not exist"; "not available";
   "not supported"; "unavailable"].

Section errors.
Context `{GoText}.

(** [strings.EqualFold(s, "model")]: the pattern is ASCII with no letter that
    has another case folding than its lower case. *)
Definition is_model_param (s : string) : bool := is_ascii s && bool_decide (ToLower s = "model").

Definition isCompactModelSemanticError (apiErr : option api_reply) : bool :=
  match apiErr with
  | None => false
  | Some e =>
      if bool_decide (ToLower (TrimSpace (ar_code e)) ∈ model_codes) then true
      else if negb (ar_status e =? 400) && negb (ar_status e =? 404) && negb (ar_status e =? 422) then false
      else if is_model_param (TrimSpace (ar_param e)) then true
      else
        let message := ToLower (ar_message e +:+ " " +:+ ar_error e) in
        if negb (Contains message "model") then false else existsb (Contains message) model_markers
  end.

Definition advance (apiErr : option api_reply) (retryable : bool) (x : compact_ctx) : bool * compact_ctx :=
  let s := cx_state x in
  if bool_decide (cr_stage s = CompactAttemptExact) && isCompactModelSemanticError apiErr then switchToBase x
  else if negb retryable then (false, x)
  else if 0 <? remainingAttempts s then (true, x)
  else switchToBase x.

(** ** Rounds *)

(** What else a round did: no channel was found; another candidate is tried
    before a call; the loop is left before a call; a call with its key, and
    then its error, unless the request is done. *)
Inductive compact_event :=
  | NoChannel
  | Skipped
  | Left
  | Attempted (channelID keyIndex : Z) (failed : option (api_reply * bool)).

(** The flag: the loop goes on. *)
Definition compact_round (ev : compact_event) (x : compact_ctx) : bool * compact_ctx :=
  let x := prepare x in
  match ev with
  | NoChannel => switchToBase x
  | Skipped => (true, x)
  | Left => (false, x)
  | Attempted channelID keyIndex failed =>
      let x := x <| cx_state ::= recordAttempt channelID keyIndex |> in
      match failed with
      | None => (false, x)
      | Some (e, retryable) => advance (Some e) retryable x
      end
  end.

Fixpoint compact_rounds (evs : list compact_event) (x : compact_ctx) : bool * compact_ctx :=
  match evs with
  | [] => (true, x)
  | ev :: evs => let '(on, x) := compact_round ev x in if on then compact_rounds evs x else (false, x)
  end.

Definition compact_start (s : compactRetryState) : compact_ctx := MkCompactCtx s (cr_stage s) (cr_stage s) (cr_stage s) 0 None.

(** ** The budget *)

(** The stage's attempts are within its budget, and both stages share the
    attempts of the request. *)
Definition compact_ok (s : compactRetryState) : Prop :=
  0 <= cr_exactAttempts s ∧ 0 <= cr_baseAttempts s ∧
  match cr_stage s with
  | CompactAttemptNone => False
  | CompactAttemptExact => cr_exactAttempts s <= cr_exactBudget s ∧ cr_baseAttempts s = 0 ∧ 0 < cr_baseBudget s ∧ 0 < cr_exactBudget s ∧
                           cr_exactBudget s + cr_baseBudget s = DefaultTotalAttempts
  | CompactAttemptBase => cr_baseAttempts s <= cr_baseBudget s ∧ cr_exactAttempts s + cr_baseBudget s = DefaultTotalAttempts
  end.
(** A round may start. *)
Definition compact_ready (s : compactRetryState) : Prop := compact_ok s ∧ 0 < remainingAttempts s.

Lemma new_ready compaction stage model s : newCompactRetryState compaction stage model = Some s → compact_ready s.
Proof.
  unfold newCompactRetryState. destruct compaction; [cbn [negb]|done]. intros [= <-]. unfold compact_ready, compact_ok, remainingAttempts.
  destruct stage, (IsGPTCompactBaseModel model); by vm_compute.
Qed.

Lemma switch_ready x : compact_ok (cx_state x) →
  compact_ok (cx_state (switchToBase x).2) ∧ ((switchToBase x).1 = true → compact_ready (cx_state (switchToBase x).2)).
Proof.
  unfold switchToBase, compact_ready, compact_ok, remainingAttempts. intros Hok.
  case_bool_decide as Hs; cbn [negb orb]; [|done]. rewrite Hs in Hok. destruct (_ <=? _) eqn:E; [cbn; by rewrite Hs|].
  destruct (0 <? _) eqn:Eu; cbn; (split; [lia|intros _; rewrite decide_False by done; lia]).
Qed.

Lemma record_ok channelID keyIndex s : compact_ready s → compact_ok (recordAttempt channelID keyIndex s).
Proof.
  unfold compact_ready, compact_ok, remainingAttempts, recordAttempt. intros [Hok Hr].
  case_decide as E; [rewrite E in Hok|destruct (cr_stage s) eqn:Es; try done]; cbn; rewrite ?E, ?Es; lia.
Qed.

Lemma advance_ready apiErr retryable x : compact_ok (cx_state x) →
  compact_ok (cx_state (advance apiErr retryable x).2) ∧ ((advance apiErr retryable x).1 = true → compact_ready (cx_state (advance apiErr retryable x).2)).
Proof.
  intros Hok. unfold advance. destruct (_ && _); [by apply switch_ready|]. destruct retryable; cbn [negb]; [|done].
  destruct (0 <? _) eqn:E; [|by apply switch_ready]. split; [done|]. intros _. split; [done|]. cbn. lia.
Qed.

Lemma prepare_state x : cx_state (prepare x) = cx_state x.
Proof. unfold prepare. by case_decide. Qed.

Lemma round_ready ev x : compact_ready (cx_state x) →
  compact_ok (cx_state (compact_round ev x).2) ∧ ((compact_round ev x).1 = true → compact_ready (cx_state (compact_round ev x).2)).
Proof.
  intros Hr. unfold compact_round. pose proof Hr as [Hok _]. rewrite <-(prepare_state x) in Hr, Hok. set (y := prepare x) in *. clearbody y.
  destruct ev as [| | |channelID keyIndex failed]; [by apply switch_ready|done..|].
  pose proof (record_ok channelID keyIndex (cx_state y) Hr) as Hok'.
  destruct failed as [[e retryable]|]; [by apply advance_ready|done].
Qed.

Lemma rounds_ready evs x : compact_ready (cx_state x) →
  compact_ok (cx_state (compact_rounds evs x).2) ∧ ((compact_rounds evs x).1 = true → compact_ready (cx_state (compact_rounds evs x).2)).
Proof.
  revert x. induction evs as [|ev evs IH]; intros x Hr; cbn [compact_rounds]; [split; [apply Hr|done]|].
  destruct (round_ready ev x Hr) as [Hok Hon]. destruct (compact_round ev x) as [[] x']; [by apply IH, Hon|done].
Qed.

(** Whatever the rounds of a compaction request do, both stages together
    make at most as many attempts as any request may make; while the loop goes
    on there is an attempt left in its stage, also when the stage has just
    changed. *)
Theorem compact_attempts_bounded evs compaction stage model s :
  newCompactRetryState compaction stage model = Some s →
  let '(on, x) := compact_rounds evs (compact_start s) in
  cr_exactAttempts (cx_state x) + cr_baseAttempts (cx_state x) <= DefaultTotalAttempts ∧
  (on = true → 0 < remainingAttempts (cx_state x)).
Proof.
  intros Hr%new_ready. destruct (rounds_ready evs (compact_start s) Hr) as [(? & ? & Hs) Hon].
  destruct (compact_rounds evs (compact_start s)) as [on x]. cbn in *. split; [|by intros [_ ?]%Hon].
  destruct (cr_stage (cx_state x)); lia || done.
Qed.

(** An error about the model in the exact stage starts the base stage even
    when the caller says that no retry is allowed, which it says after a
    committed response. *)
Theorem semantic_error_advances_without_leave e x :
  cr_stage (cx_state x) = CompactAttemptExact → cr_baseAttempts (cx_state x) < cr_baseBudget (cx_state x) →
  isCompactModelSemanticError (Some e) = true →
  (advance (Some e) false x).1 = true ∧ cr_stage (cx_state (advance (Some e) false x).2) = CompactAttemptBase.
Proof.
  intros Hs Hb He. unfold advance. rewrite Hs, He. cbn [bool_decide andb]. rewrite bool_decide_true by done. cbn [andb].
  unfold switchToBase. rewrite Hs. rewrite bool_decide_true by done. cbn [negb orb]. rewrite (proj2 (Z.leb_gt _ _)) by done.
  by destruct (0 <? _).
Qed.
End errors.

#[local] Instance ascii_text : GoText := MkGoText (λ s, s) (λ s, s) (λ s, s).
Definition unknown_model : api_reply := MkReply "Model_Not_Found" "" "" 404 "no such model".
Definition gpt_state : compactRetryState := MkCompact CompactAttemptExact 2 1 0 0 ∅ ∅.

Lemma compact_attempts_bounded_witness :
  let evs := [Attempted 7 0 (Some (unknown_model, true)); Attempted 7 0 (Some (unknown_model, true)); Attempted 8 0 None] in
  let '(on, x) := compact_rounds evs (compact_start gpt_state) in
  cr_exactAttempts (cx_state x) + cr_baseAttempts (cx_state x) <= DefaultTotalAttempts ∧
  (on = true → 0 < remainingAttempts (cx_state x)).
Proof.
  intros evs. refine (compact_attempts_bounded evs true CompactAttemptNone "gpt-5" gpt_state _). by vm_compute.
Defined.

Lemma semantic_error_advances_without_leave_witness :
  (advance (Some unknown_model) false (compact_start gpt_state)).1 = true ∧
  cr_stage (cx_state (advance (Some unknown_model) false (compact_start gpt_state)).2) = CompactAttemptBase.
Proof. by apply semantic_error_advances_without_leave; vm_compute. Defined.
