(* ===== verification/ToolPrices.v ===== *)
(** * Prices of tool calls

    src/setting/operation_setting/tools.go: the index built from the built-in
    prices and the operator's, and the lookup by tool and model.  The index is
    built by a walk over a Go map, whose order is an argument here; so is the
    order of equal entries after the unstable sort, since a walk in any order
    is allowed. *)

From stdpp Require Import sorting.
From Stdlib Require Import SpecFloat.
From S2P Require Import Prelude GoStrings QuotaMath.
#[local] Open Scope string_scope.
#[local] Open Scope list_scope.
#[local] Open Scope Z_scope.

(** ** The index *)

(** [n / d] for the decimal constants of the source. *)
Definition float_ratio (n d : Z) : float64 := SFdiv 53 1024 (float_of_int n) (float_of_int d).

Definition defaultWebSearchToolPrice : float64 := float_of_int 10.
Definition defaultWebSearchPreviewToolPrice : float64 := float_of_int 10.
Definition defaultFileSearchToolPrice : float64 := float_ratio 5 2.
Definition defaultGoogleSearchToolPrice : float64 := float_of_int 14.
Definition defaultImageGenerationToolPrice : float64 := float_of_int 150.
Definition defaultSearchPreviewModelPrice : float64 := float_of_int 25.

Definition seedHardcodedToolPrices (prices : gmap string float64) : gmap string float64 :=
  foldl (λ m e, <[e.1 := e.2]> m) prices
    [("web_search", defaultWebSearchToolPrice); ("web_search_preview", defaultWebSearchPreviewToolPrice);
     ("file_search", defaultFileSearchToolPrice); ("google_search", defaultGoogleSearchToolPrice);
     ("image_generation", defaultImageGenerationToolPrice); ("web_search_preview:gpt-4o*", defaultSearchPreviewModelPrice);
     ("web_search_preview:gpt-4.1*", defaultSearchPreviewModelPrice); ("web_search_preview:gpt-4o-mini*", defaultSearchPreviewModelPrice);
     ("web_search_preview:gpt-4.1-mini*", defaultSearchPreviewModelPrice)].

Record prefixEntry := MkPrefix { pe_prefix : string; pe_price : float64 }.
Record toolPriceIndex := MkToolIndex { ti_defaults : gmap string float64; ti_prefixes : gmap string (list prefixEntry) }.

Definition isValidToolPrice (price : float64) : bool := float_ge price 0 && is_finite price.

(** [strings.IndexByte(key, ':')] and the two slices. *)
Definition key_parts (key : string) : option (string * string) :=
  match String.index 0 ":" key with
  | Some i => Some (String.substring 0 i key, String.substring (i + 1) (String.length key - (i + 1)) key)
  | None => None
  end.

Definition no_price : float64 := S754_zero false.

(** The prices in force. *)
Definition merged_prices (operator : gmap string float64) : gmap string float64 :=
  filter (λ e, isValidToolPrice e.2 = true) operator ∪ seedHardcodedToolPrices ∅.

Definition index_key (idx : toolPriceIndex) (e : string * float64) : toolPriceIndex :=
  match key_parts e.1 with
  | None => MkToolIndex (<[e.1 := e.2]> (ti_defaults idx)) (ti_prefixes idx)
  | Some (toolName, modelPart) =>
      let entries := default [] (ti_prefixes idx !! toolName) in
      MkToolIndex (ti_defaults idx) (<[toolName := entries ++ [MkPrefix (TrimSuffix modelPart "*") e.2]]> (ti_prefixes idx))
  end.

(** Longer prefixes first, then by name. *)
Definition prefix_before (a b : prefixEntry) : Prop :=
  (String.length (pe_prefix b) < String.length (pe_prefix a))%nat ∨
  (String.length (pe_prefix a) = String.length (pe_prefix b) ∧ String.le (pe_prefix a) (pe_prefix b)).
#[global] Instance prefix_before_dec : RelDecision prefix_before.
Proof. intros a b. unfold prefix_before. apply _. Defined.

(** [order]: the walk over the merged map. *)
Definition RebuildToolPriceIndex (order : list (string * float64)) : toolPriceIndex :=
  let idx := foldl index_key (MkToolIndex ∅ ∅) order in
  MkToolIndex (ti_defaults idx) (merge_sort prefix_before <$> ti_prefixes idx).

Definition GetToolPriceForModel (idx : toolPriceIndex) (toolName modelName : string) : float64 :=
  let by_default := default no_price (ti_defaults idx !! toolName) in
  match ti_prefixes idx !! toolName with
  | Some entries =>
      if bool_decide (modelName = "") then by_default
      else match filter (λ e, HasPrefix modelName (pe_prefix e) = true) entries with e :: _ => pe_price e | [] => by_default end
  | None => by_default
  end.

(** ** Audio input of Gemini models *)

Definition Gemini25FlashPreviewInputAudioPrice : float64 := float_of_int 1.
Definition Gemini25FlashProductionInputAudioPrice : float64 := float_of_int 1.
Definition Gemini25FlashLitePreviewInputAudioPrice : float64 := float_ratio 1 2.
Definition Gemini25FlashNativeAudioInputAudioPrice : float64 := float_of_int 3.
Definition Gemini20FlashInputAudioPrice : float64 := float_ratio 7 10.
Definition GeminiRoboticsER15InputAudioPrice : float64 := float_of_int 1.

Definition GetGeminiInputAudioPricePerMillionTokens (modelName : string) : float64 :=
  if HasPrefix modelName "gemini-2.5-flash-preview-native-audio" then Gemini25FlashNativeAudioInputAudioPrice
  else if HasPrefix modelName "gemini-2.5-flash-preview-lite" then Gemini25FlashLitePreviewInputAudioPrice
  else if HasPrefix modelName "gemini-2.5-flash-preview" then Gemini25FlashPreviewInputAudioPrice
  else if HasPrefix modelName "gemini-2.5-flash" then Gemini25FlashProductionInputAudioPrice
  else if HasPrefix modelName "gemini-2.0-flash" then Gemini20FlashInputAudioPrice
  else if HasPrefix modelName "gemini-robotics-er-1.5" then GeminiRoboticsER15InputAudioPrice
  else S754_zero false.

(** ** What the index holds *)

(** The model rules of a tool, in the order of the walk. *)
Definition rule_of (tool : string) (e : string * float64) : option prefixEntry :=
  match key_parts e.1 with
  | Some (t, part) => if decide (t = tool) then Some (MkPrefix (TrimSuffix part "*") e.2) else None
  | None => None
  end.

Lemma index_rules tool order idx : default [] (ti_prefixes (foldl index_key idx order) !! tool) =
  default [] (ti_prefixes idx !! tool) ++ omap (rule_of tool) order.
Proof.
  revert idx. induction order as [|[key price] order IH]; intros idx; cbn [foldl]; [by rewrite app_nil_r|]. rewrite IH.
  change (omap (rule_of tool) ((key, price) :: order)) with (match rule_of tool (key, price) with Some y => y :: omap (rule_of tool) order | None => omap (rule_of tool) order end).
  unfold index_key, rule_of at 2. cbn [fst snd].
  destruct (key_parts key) as [[t part]|]; cbn [ti_prefixes]; [|done]. case_decide as Et.
  - subst t. rewrite lookup_insert_eq. cbn. by rewrite <-app_assoc.
  - by rewrite lookup_insert_ne.
Qed.

Lemma index_defaults tool order idx : key_parts tool = None → NoDup order.*1 → ti_defaults (foldl index_key idx order) !! tool =
  match (list_to_map order : gmap string float64) !! tool with Some price => Some price | None => ti_defaults idx !! tool end.
Proof.
  intros Ht. revert idx. induction order as [|[key price] order IH]; intros idx Hnd; [done|]. cbn in Hnd. apply NoDup_cons in Hnd as [Hk Hnd].
  cbn [foldl]. rewrite IH by done. rewrite list_to_map_cons. unfold index_key. cbn [fst snd]. destruct (decide (key = tool)) as [->|Hne].
  - rewrite Ht. cbn [ti_defaults]. by rewrite !lookup_insert_eq, (not_elem_of_list_to_map_1 order tool Hk).
  - rewrite lookup_insert_ne by done. destruct (key_parts key) as [[t part]|]; cbn; [done|]. by rewrite lookup_insert_ne.
Qed.

(** The first match of a sorted list. *)
Lemma sorted_first {A} (R : relation A) (P : A → Prop) `{!∀ x, Decision (P x)} l e rest : StronglySorted R l → filter P l = e :: rest →
  e ∈ l ∧ P e ∧ ∀ x, x ∈ l → P x → x = e ∨ R e x.
Proof.
  induction 1 as [|y l Hs IH Hy]; [done|]. rewrite filter_cons. case_decide as Hp.
  - intros [= <- _]. split_and!; [left|done|]. intros x [->|Hx]%elem_of_cons _; [by left|right]. rewrite Forall_forall in Hy. by apply Hy.
  - intros E. destruct (IH E) as (H1 & H2 & H3). split_and!; [by right|done|]. intros x [->|Hx]%elem_of_cons Hpx; [done|by apply H3].
Qed.
#[local] Instance prefix_before_total : Total prefix_before.
Proof.
  intros a b. unfold prefix_before. destruct (Nat.lt_trichotomy (String.length (pe_prefix a)) (String.length (pe_prefix b))) as [|[E|]]; [tauto| |tauto].
  destruct (total String.le (pe_prefix a) (pe_prefix b)); rewrite E; tauto.
Qed.
#[local] Instance prefix_before_trans : Transitive prefix_before.
Proof.
  intros a b c [H1|[H1 H2]] [H3|[H3 H4]]; unfold prefix_before; [left; lia..|right; split; [lia|by etrans]].
Qed.

(** A rule of the merged prices that matches a model. *)
Definition matches (prices : gmap string float64) (tool model key q : string) (price : float64) : Prop :=
  prices !! key = Some price ∧ (∃ part, key_parts key = Some (tool, part) ∧ TrimSuffix part "*" = q) ∧ HasPrefix model q = true.

Lemma rules_match prices order tool model e : order ≡ₚ map_to_list prices → e ∈ omap (rule_of tool) order → HasPrefix model (pe_prefix e) = true →
  ∃ key, matches prices tool model key (pe_prefix e) (pe_price e).
Proof.
  intros Ho ((key & price) & Hin & Hr)%list_elem_of_omap Hp. rewrite Ho in Hin. apply elem_of_map_to_list in Hin. unfold rule_of in Hr. cbn in Hr.
  destruct (key_parts key) as [[t part]|] eqn:Ek; [|done]. case_decide; [|done]. subst t. injection Hr as <-. exists key. split_and!; eauto.
Qed.
Lemma match_rules prices order tool model key q price : order ≡ₚ map_to_list prices → matches prices tool model key q price →
  MkPrefix q price ∈ omap (rule_of tool) order.
Proof.
  intros Ho (Hk & (part & Hp & <-) & _). apply list_elem_of_omap. exists (key, price). rewrite Ho, elem_of_map_to_list. split; [done|].
  unfold rule_of. cbn. rewrite Hp. by rewrite decide_True.
Qed.
Lemma no_rules prices order tool : order ≡ₚ map_to_list prices → ti_prefixes (RebuildToolPriceIndex order) !! tool = None → omap (rule_of tool) order = [].
Proof.
  intros _. unfold RebuildToolPriceIndex. cbn. rewrite lookup_fmap. intros E%fmap_None. pose proof (index_rules tool order (MkToolIndex ∅ ∅)) as H. by rewrite E in H.
Qed.

(** The price of a tool call is that of the longest model prefix among the
    prices in force, whatever the order in which the index was built, and of
    the tool's own entry, or zero, if none matches the model; a price of zero
    that matches is final. *)
Theorem longest_prefix_prices (prices : gmap string float64) (order : list (string * float64)) (tool model : string) :
  order ≡ₚ map_to_list prices → model ≠ "" → key_parts tool = None →
  let price := GetToolPriceForModel (RebuildToolPriceIndex order) tool model in
  (∀ key q p, matches prices tool model key q p →
     (∀ key' q' p', matches prices tool model key' q' p' → key' = key ∨ (String.length q' < String.length q)%nat) → price = p) ∧
  ((∀ key q p, ¬ matches prices tool model key q p) → price = default no_price (prices !! tool)).
Proof.
  intros Ho Hm Ht price. subst price. unfold GetToolPriceForModel. cbv zeta. rewrite bool_decide_false by done.
  assert (ti_defaults (RebuildToolPriceIndex order) !! tool = prices !! tool) as ->.
  { unfold RebuildToolPriceIndex. cbn. rewrite index_defaults; [|done|rewrite Ho; apply NoDup_fst_map_to_list].
    rewrite (list_to_map_proper order (map_to_list prices)); [|rewrite Ho; apply NoDup_fst_map_to_list|done].
    rewrite list_to_map_to_list. cbn. rewrite lookup_empty. by destruct (prices !! tool). }
  assert (∀ l, ti_prefixes (RebuildToolPriceIndex order) !! tool = Some l → l = merge_sort prefix_before (omap (rule_of tool) order)) as Hl.
  { intros l. unfold RebuildToolPriceIndex. cbn. rewrite lookup_fmap. intros (l0 & E & ->)%fmap_Some. f_equal.
    pose proof (index_rules tool order (MkToolIndex ∅ ∅)) as H. by rewrite E in H. }
  split.
  - intros key q p Hk Hbest. pose proof (match_rules _ _ _ _ _ _ _ Ho Hk) as Hin. destruct (ti_prefixes _ !! tool) as [l|] eqn:El.
    2: { apply (no_rules prices) in El; [|done]. rewrite El in Hin. by apply not_elem_of_nil in Hin. }
    rewrite (Hl l eq_refl). set (P := λ e : prefixEntry, HasPrefix model (pe_prefix e) = true). destruct (filter P _) as [|e rest] eqn:Ef.
    + exfalso. apply (not_elem_of_nil (MkPrefix q p)). rewrite <-Ef. apply list_elem_of_filter. rewrite merge_sort_Permutation. split; [apply Hk|done].
    + apply (sorted_first prefix_before) in Ef as (H1 & H2 & H3); [|apply StronglySorted_merge_sort; apply _]. rewrite merge_sort_Permutation in H1.
      destruct (rules_match _ _ _ _ _ Ho H1 H2) as [key' Hk']. destruct (Hbest _ _ _ Hk') as [->|Hlt].
      * destruct Hk as [E1 _], Hk' as [E2 _]. congruence.
      * destruct (H3 (MkPrefix q p)) as [<-|HR]; [by rewrite merge_sort_Permutation|apply Hk|done|]. unfold prefix_before in HR. cbn in HR. lia.
  - intros Hno. destruct (ti_prefixes _ !! tool) as [l|] eqn:El; [|done]. rewrite (Hl l eq_refl). destruct (filter _ _) as [|e rest] eqn:Ef; [done|].
    apply (sorted_first prefix_before) in Ef as (H1 & H2 & _); [|apply StronglySorted_merge_sort; apply _]. rewrite merge_sort_Permutation in H1.
    destruct (rules_match _ _ _ _ _ Ho H1 H2) as [key' Hk']. by destruct (Hno _ _ _ Hk').
Qed.

(** ** Samples *)

(** An operator's price for one model family, and one of zero. *)
Definition operator_prices : gmap string float64 :=
  {["web_search:gpt-5*" := float_of_int 30; "web_search:gpt-5-nano*" := S754_zero false; "web_search" := float_of_int (-1)]}.
Definition walk : list (string * float64) := map_to_list (merged_prices operator_prices).

Lemma longest_prefix_prices_witness :
  GetToolPriceForModel (RebuildToolPriceIndex (rev walk)) "web_search" "gpt-5-nano-2025" = S754_zero false ∧
  GetToolPriceForModel (RebuildToolPriceIndex (rev walk)) "web_search" "gpt-5-mini" = float_of_int 30 ∧
  GetToolPriceForModel (RebuildToolPriceIndex (rev walk)) "web_search" "claude" = float_of_int 10.
Proof.
  assert (rev walk ≡ₚ map_to_list (merged_prices operator_prices)) as Ho by (symmetry; apply Permutation_rev).
  split; [by vm_compute|]. split; [by vm_compute|].
  destruct (longest_prefix_prices (merged_prices operator_prices) (rev walk) "web_search" "claude" Ho) as [_ H]; [done|by vm_compute|].
  etrans; [apply H|by vm_compute]. clear H. intros key q p (Hk & (part & Hp & <-) & Hm). apply elem_of_map_to_list, list_elem_of_In in Hk.
  assert (forallb (λ e, match key_parts e.1 with Some (t, part) => negb (bool_decide (t = "web_search") && HasPrefix "claude" (TrimSuffix part "*")) | None => true end)
    (map_to_list (merged_prices operator_prices)) = true) as HF by (by vm_compute).
  pose proof (proj1 (forallb_forall _ _) HF (key, p) Hk) as H. cbn in H. rewrite Hp, Hm in H. by rewrite bool_decide_true in H.
Defined.

(** Two keys that differ in their star name the same prefix: which price holds
    depends on the walk. *)
Definition twin_prices : list (string * float64) := [("web_search:gpt-4o", float_of_int 1); ("web_search:gpt-4o*", float_of_int 2)].
Lemma twin_keys_depend_on_walk :
  GetToolPriceForModel (RebuildToolPriceIndex twin_prices) "web_search" "gpt-4o" = float_of_int 1 ∧
  GetToolPriceForModel (RebuildToolPriceIndex (rev twin_prices)) "web_search" "gpt-4o" = float_of_int 2.
Proof. split; by vm_compute. Qed.
