(* ===== verification/ModelPrices.v ===== *)
(** * The prices of models

    The ratio tables and their lookups (src/setting/ratio_setting), the model
    name a request is priced by (src/setting/pricing_setting), and what a
    request reserves before it is sent (src/relay/helper/price.go,
    src/types/price_data.go).

    The tables are a record of Go maps.  The catalogue of automatic prices
    (src/pkg/autopricing) is a function from a name and whether fuzzy rules may
    be used; expressions of tiered prices are run by a function, as the
    interpreter is a library. *)

From Stdlib Require Import SpecFloat.
From S2P Require Import Prelude GoStrings QuotaMath RouteSelect ChannelKeys RetryPlan RelayLoop CompactRetry ToolPrices.
#[local] Open Scope string_scope.
#[local] Open Scope list_scope.
#[local] Open Scope Z_scope.

(** ** Names *)

Definition CompactWildcardModelKey : string := "gpt-*" +:+ CompactModelSuffix.
Definition IsVirtualCompactModelName (modelName : string) : bool := HasSuffix modelName CompactModelSuffix && IsGPTCompactBaseModel modelName.
Definition WithCompactModelSuffix (modelName : string) : string :=
  let baseModel := CompactBaseModelName modelName in
  if negb (IsGPTCompactBaseModel baseModel) then baseModel else baseModel +:+ CompactModelSuffix.

Definition handleThinkingBudgetModel (name prefix wildcard : string) : string :=
  if HasPrefix name prefix && Contains name "-thinking-" then wildcard else name.

Definition FormatMatchingModelName (name : string) : string :=
  let hasCompactSuffix := HasSuffix name CompactModelSuffix in
  let name := if hasCompactSuffix then CompactBaseModelName name else name in
  let name :=
    if HasPrefix name "gemini-2.5-flash-lite" then handleThinkingBudgetModel name "gemini-2.5-flash-lite" "gemini-2.5-flash-lite-thinking-*"
    else if HasPrefix name "gemini-2.5-flash" then handleThinkingBudgetModel name "gemini-2.5-flash" "gemini-2.5-flash-thinking-*"
    else if HasPrefix name "gemini-2.5-pro" then handleThinkingBudgetModel name "gemini-2.5-pro" "gemini-2.5-pro-thinking-*"
    else name in
  let name := if HasPrefix name "gpt-4-gizmo" then "gpt-4-gizmo-*" else name in
  let name := if HasPrefix name "gpt-4o-gizmo" then "gpt-4o-gizmo-*" else name in
  if hasCompactSuffix && IsGPTCompactBaseModel name then WithCompactModelSuffix name else name.

(** ** The tables *)

(** What the automatic catalogue says of a model. *)
Record Entry := MkEntry {
  en_ModelRatio : float64; en_CompletionRatio : option float64; en_CacheRatio : option float64; en_CreateCacheRatio : option float64
}.

Record pricing := MkPricing {
  modelPriceMap : gmap string float64; modelRatioMap : gmap string float64; completionRatioMap : gmap string float64;
  cacheRatioMap : gmap string float64; createCacheRatioMap : gmap string float64; imageRatioMap : gmap string float64;
  audioRatioMap : gmap string float64; audioCompletionRatioMap : gmap string float64;
  SelfUseModeEnabled : bool; AutoPricingEnabled : bool; FuzzyMatchEnabled : bool;
  catalogue : string → bool → option Entry;
  BillingMode : gmap string string; BillingExpr : gmap string string
}.

Section lookups.
Context (ps : pricing).

(** [(-1, false)] is [None]. *)
Definition GetModelPrice (name : string) : option float64 :=
  let name := FormatMatchingModelName name in
  match modelPriceMap ps !! name with
  | Some price => Some price
  | None => if HasSuffix name CompactModelSuffix then modelPriceMap ps !! CompactWildcardModelKey else None
  end.

Definition hasManualFixedPrice (name : string) : bool :=
  bool_decide (is_Some (modelPriceMap ps !! name)) ||
  (HasSuffix name CompactModelSuffix && bool_decide (is_Some (modelPriceMap ps !! CompactWildcardModelKey))).
Definition HasManualModelRatio (name : string) : bool :=
  let name := FormatMatchingModelName name in
  bool_decide (is_Some (modelRatioMap ps !! name)) ||
  (HasSuffix name CompactModelSuffix && bool_decide (is_Some (modelRatioMap ps !! CompactWildcardModelKey))).

Definition autoPricingEntry (name : string) : option Entry :=
  if negb (AutoPricingEnabled ps) then None
  else if hasManualFixedPrice name then None
  else catalogue ps name (FuzzyMatchEnabled ps).
Definition HasAutoPricingEntry (name : string) : bool := bool_decide (autoPricingEntry (FormatMatchingModelName name) ≠ None).
Definition HasExactAutoPricingEntry (name : string) : bool :=
  let name := FormatMatchingModelName name in
  if negb (AutoPricingEnabled ps) || hasManualFixedPrice name then false else bool_decide (catalogue ps name false ≠ None).

Definition unset_ratio : float64 := float_ratio 75 2.
Definition GetModelRatio (name : string) : float64 * bool * string :=
  let name := FormatMatchingModelName name in
  let auto := match autoPricingEntry name with
    | Some entry => (en_ModelRatio entry, true, name)
    | None => (unset_ratio, SelfUseModeEnabled ps, name)
    end in
  match modelRatioMap ps !! name with
  | Some ratio => (ratio, true, name)
  | None =>
      if HasSuffix name CompactModelSuffix
      then match modelRatioMap ps !! CompactWildcardModelKey with Some wildcardRatio => (wildcardRatio, true, name) | None => auto end
      else auto
  end.

(** The ratio and whether it is locked. *)
Definition gpt_ratio (name : string) : float64 * bool :=
  if HasPrefix name "gpt-4o" then
    if bool_decide (name = "gpt-4o-2024-05-13") then (float_of_int 3, true)
    else if HasPrefix name "gpt-4o-mini-tts" then (float_of_int 20, false) else (float_of_int 4, false)
  else if HasPrefix name "gpt-5" then
    if negb (Contains name ".") then (float_of_int 8, true)
    else if HasPrefix name "gpt-5.4" then if HasPrefix name "gpt-5.4-nano" then (float_ratio 25 4, true) else (float_of_int 6, true)
    else (float_of_int 6, false)
  else if HasPrefix name "gpt-4.5-preview" then (float_of_int 2, true)
  else if HasPrefix name "gpt-4-turbo" || HasSuffix name "gpt-4-1106" || HasSuffix name "gpt-4-1105" then (float_of_int 3, true)
  else (float_of_int 2, false).

Definition gemini_ratio (name : string) : float64 * bool :=
  if HasPrefix name "gemini-1.5" then (float_of_int 4, true)
  else if HasPrefix name "gemini-2.0" then (float_of_int 4, true)
  else if HasPrefix name "gemini-2.5-pro" then (float_of_int 8, false)
  else if HasPrefix name "gemini-2.5-flash" then
    if HasPrefix name "gemini-2.5-flash-preview" then
      if HasSuffix name "-nothinking" then (float_of_int 4, false) else (float_ratio 70 3, false)
    else if HasPrefix name "gemini-2.5-flash-lite" then (float_of_int 4, false)
    else (float_ratio 25 3, false)
  else if HasPrefix name "gemini-robotics-er-1.5" then (float_ratio 25 3, false)
  else if HasPrefix name "gemini-3-pro" then
    if HasPrefix name "gemini-3-pro-image" then (float_of_int 60, false) else (float_of_int 6, false)
  else (float_of_int 4, false).

Definition command_ratio (name : string) : float64 * bool :=
  if bool_decide (name = "command-r") then (float_of_int 3, true)
  else if bool_decide (name = "command-r-plus") then (float_of_int 5, true)
  else if bool_decide (name = "command-r-08-2024") then (float_of_int 4, true)
  else if bool_decide (name = "command-r-plus-08-2024") then (float_of_int 4, true)
  else (float_of_int 4, false).

Definition gpt35_ratio (name : string) : float64 * bool :=
  if bool_decide (name = "gpt-3.5-turbo") || HasSuffix name "0125" then (float_of_int 3, true)
  else if HasSuffix name "1106" then (float_of_int 2, true)
  else (float_ratio 4 3, true).

Definition getHardcodedCompletionModelRatio (name : string) : float64 * bool :=
  if HasSuffix name "-all" || HasSuffix name "-gizmo-*" then (float_of_int 2, false)
  else if HasPrefix name "gpt-" then gpt_ratio name
  else if HasPrefix name "o1" || HasPrefix name "o3" then (float_of_int 4, true)
  else if bool_decide (name = "chatgpt-4o-latest") then (float_of_int 3, true)
  else if Contains name "claude-3" then (float_of_int 5, true)
  else if Contains name "claude-sonnet-4" || Contains name "claude-opus-4" || Contains name "claude-haiku-4" then (float_of_int 5, true)
  else if HasPrefix name "gpt-3.5" then gpt35_ratio name
  else if HasPrefix name "mistral-" then (float_of_int 3, true)
  else if HasPrefix name "gemini-" then gemini_ratio name
  else if HasPrefix name "command" then command_ratio name
  else if HasPrefix name "ERNIE-Speed-" then (float_of_int 2, true)
  else if HasPrefix name "ERNIE-Lite-" then (float_of_int 2, true)
  else if HasPrefix name "ERNIE-Character" then (float_of_int 2, true)
  else if HasPrefix name "ERNIE-Functions" then (float_of_int 2, true)
  else if bool_decide (name = "llama2-70b-4096") then (float_ratio 5 4, true)
  else if bool_decide (name = "llama3-8b-8192") then (float_of_int 2, true)
  else if bool_decide (name = "llama3-70b-8192") then (float_ratio 79 59, true)
  else (float_of_int 1, false).

Definition GetCompletionRatioInfo (name : string) : float64 * bool :=
  let name := FormatMatchingModelName name in
  match (if Contains name "/" then completionRatioMap ps !! name else None) with
  | Some ratio => (ratio, false)
  | None =>
      let '(hardCodedRatio, locked) := getHardcodedCompletionModelRatio name in
      if locked : bool then (hardCodedRatio, true)
      else match completionRatioMap ps !! name with
        | Some ratio => (ratio, false)
        | None => (default hardCodedRatio (autoPricingEntry name ≫= en_CompletionRatio), false)
        end
  end.
Definition GetCompletionRatio (name : string) : float64 := (GetCompletionRatioInfo name).1.

Definition GetAudioRatio (name : string) : float64 := default (float_of_int 1) (audioRatioMap ps !! FormatMatchingModelName name).
Definition GetAudioCompletionRatio (name : string) : float64 := default (float_of_int 1) (audioCompletionRatioMap ps !! FormatMatchingModelName name).
Definition GetImageRatio (name : string) : float64 := default (float_of_int 1) (imageRatioMap ps !! name).
Definition GetCacheRatio (name : string) : float64 :=
  let name := FormatMatchingModelName name in
  match cacheRatioMap ps !! name with Some ratio => ratio | None => default (float_of_int 1) (autoPricingEntry name ≫= en_CacheRatio) end.
Definition GetCreateCacheRatio (name : string) : float64 :=
  let name := FormatMatchingModelName name in
  match createCacheRatioMap ps !! name with Some ratio => ratio | None => default (float_ratio 5 4) (autoPricingEntry name ≫= en_CreateCacheRatio) end.

Definition BillingModeRatio : string := "ratio".
Definition BillingModeTieredExpr : string := "tiered_expr".
Definition GetBillingMode (model : string) : string := default BillingModeRatio (BillingMode ps !! model).
Definition GetBillingExpr (model : string) : option string := BillingExpr ps !! model.

(** ** The name a compaction is priced by *)

Definition hasManual (name : string) : bool :=
  bool_decide (GetBillingMode name = BillingModeTieredExpr) || bool_decide (is_Some (modelPriceMap ps !! name)) ||
  bool_decide (is_Some (modelRatioMap ps !! name)).

Definition ResolveModel (modelName : string) : string * string :=
  if negb (HasSuffix modelName CompactModelSuffix) then (modelName, "direct")
  else
    let normalizedModel := FormatMatchingModelName modelName in
    let baseModel := CompactBaseModelName normalizedModel in
    if negb (IsVirtualCompactModelName normalizedModel) then
      if hasManual baseModel then (baseModel, "compact_base_manual")
      else if HasAutoPricingEntry baseModel then (baseModel, "compact_base_auto")
      else (baseModel, "compact_base_unconfigured")
    else if hasManual normalizedModel then (normalizedModel, "compact_exact_manual")
    else if hasManual CompactWildcardModelKey then (CompactWildcardModelKey, "compact_wildcard_manual")
    else if hasManual baseModel then (baseModel, "compact_base_manual")
    else if HasExactAutoPricingEntry normalizedModel then (normalizedModel, "compact_exact_auto")
    else if HasAutoPricingEntry baseModel then (baseModel, "compact_base_auto")
    else (normalizedModel, "compact_unconfigured").

Definition HasModelBillingConfig (modelName : string) : bool :=
  let pricingModel := (ResolveModel modelName).1 in
  if bool_decide (is_Some (GetModelPrice pricingModel)) then true
  else if (GetModelRatio pricingModel).1.2 then true
  else if negb (bool_decide (GetBillingMode pricingModel = BillingModeTieredExpr)) then false
  else match GetBillingExpr pricingModel with Some expr => negb (blank expr) | None => false end.
Definition HasExplicitModelBillingConfig (modelName : string) : bool :=
  let pricingModel := (ResolveModel modelName).1 in
  if bool_decide (is_Some (GetModelPrice pricingModel)) then true
  else if HasManualModelRatio pricingModel || SelfUseModeEnabled ps then true
  else if negb (bool_decide (GetBillingMode pricingModel = BillingModeTieredExpr)) then false
  else match GetBillingExpr pricingModel with Some expr => negb (blank expr) | None => false end.
End lookups.

(** The ratios written for GPT-3.5 ([gpt35_ratio]) are never used: the names
    begin with [gpt-], and the earlier branch gives them the ratio of an
    unknown GPT model, which is not locked. *)
Lemma gpt35_ratios_unused rest : let name := ("gpt-3.5" +:+ rest)%string in
  getHardcodedCompletionModelRatio name =
    if HasSuffix name "-all" || HasSuffix name "-gizmo-*" then (float_of_int 2, false)
    else if HasSuffix name "gpt-4-1106" || HasSuffix name "gpt-4-1105" then (float_of_int 3, true)
    else (float_of_int 2, false).
Proof. reflexivity. Qed.
Lemma gpt35_turbo_ratio : getHardcodedCompletionModelRatio "gpt-3.5-turbo" = (float_of_int 2, false) ∧ gpt35_ratio "gpt-3.5-turbo" = (float_of_int 3, true).
Proof. by vm_compute. Qed.
