(* ===== verification/StatusCodes.v ===== *)
(** * Rules over HTTP status codes

    src/setting/operation_setting/status_code_ranges.go: an administrator
    writes which status codes disable a channel or allow a retry as a list of
    codes and ranges; the text is parsed, sorted and merged, matched against
    the status of an error, and printed back.

    Strings are byte strings, as in GoStrings.v; [int] has 64 bits.  The two
    lists of rules are global variables: [rules] holds them. *)

From Stdlib Require Import Ascii.
From stdpp Require Import sorting.
From S2P Require Import Prelude GoStrings.
#[local] Open Scope string_scope.
#[local] Open Scope list_scope.
#[local] Open Scope Z_scope.

(** ** Functions of [strings] and [strconv] *)

(** Replaces every occurrence of [old], from the left; a replacement shortens
    what is left, so the length of the string bounds the steps. *)
Fixpoint replace_all (fuel : nat) (old new s : string) : string :=
  match fuel, s with
  | S fuel, String c rest =>
      match strip_prefix old s with
      | Some s' => new +:+ replace_all fuel old new s'
      | None => String c (replace_all fuel old new rest)
      end
  | _, _ => s
  end.
Definition ReplaceAll (s old new : string) : string := replace_all (String.length s) old new s.

Fixpoint join (sep : string) (l : list string) : string :=
  match l with [] => "" | [w] => w | w :: l => w +:+ sep +:+ join sep l end.

Definition digit (c : ascii) : option Z :=
  let n := Z.of_nat (nat_of_ascii c) in if (48 <=? n) && (n <=? 57) then Some (n - 48) else None.
Fixpoint digits (acc : Z) (s : string) : option Z :=
  match s with
  | EmptyString => Some acc
  | String c s => match digit c with Some d => digits (acc * 10 + d) s | None => None end
  end.
(** [strconv.Atoi]: a sign, at least one digit, a value that fits. *)
Definition Atoi (s : string) : option Z :=
  let '(sign, s') := match s with
    | String "+" s' => (1, s')
    | String "-" s' => (-1, s')
    | _ => (1, s)
    end in
  if bool_decide (s' = "") then None
  else match digits 0 s' with
  | Some n => let v := sign * n in if (- 2 ^ 63 <=? v) && (v <? 2 ^ 63) then Some v else None
  | None => None
  end.

(** ** Rules *)

Record StatusCodeRange := MkRange { Start : Z; End_ : Z }.
#[global] Instance StatusCodeRange_eq_dec : EqDecision StatusCodeRange.
Proof. solve_decision. Defined.

Definition comma : ascii := ascii_of_nat 44.
Definition dash : ascii := ascii_of_nat 45.
(** "，" *)
Definition wide_comma : string := bytes [239; 188; 140]%N.

Definition parseHTTPStatusCodeToken (token : string) : res StatusCodeRange :=
  let token := TrimSpace token in
  let token := ReplaceAll token " " "" in
  if bool_decide (token = "") then Err (ErrNew "empty token")
  else if Contains token "-" then
    match split_on dash token with
    | [a; b] =>
        if bool_decide (a = "") || bool_decide (b = "") then Err (ErrNew ("invalid range token: " +:+ token))
        else match Atoi a with
        | None => Err (ErrNew ("invalid range start: " +:+ token))
        | Some start =>
            match Atoi b with
            | None => Err (ErrNew ("invalid range end: " +:+ token))
            | Some end_ =>
                if end_ <? start then Err (ErrNew ("range start > end: " +:+ token))
                else if (start <? 100) || (599 <? end_) then Err (ErrNew ("range out of bounds: " +:+ token))
                else Ok (MkRange start end_)
            end
        end
    | _ => Err (ErrNew ("invalid range token: " +:+ token))
    end
  else match Atoi token with
  | None => Err (ErrNew ("invalid status code: " +:+ token))
  | Some code =>
      if (code <? 100) || (599 <? code) then Err (ErrNew ("status code out of bounds: " +:+ token)) else Ok (MkRange code code)
  end.

(** The rules of the segments, and the segments that are none. *)
Fixpoint parse_segments (segments : list string) : list StatusCodeRange * list string :=
  match segments with
  | [] => ([], [])
  | seg :: segments =>
      let '(ranges, invalid) := parse_segments segments in
      let seg := TrimSpace seg in
      if bool_decide (seg = "") then (ranges, invalid)
      else match parseHTTPStatusCodeToken seg with
      | Ok r => (r :: ranges, invalid)
      | Err _ => (ranges, seg :: invalid)
      end
  end.

(** The order of [sort.Slice]; rules it does not distinguish are equal. *)
Definition range_le (a b : StatusCodeRange) : Prop := Start a < Start b ∨ Start a = Start b ∧ End_ a <= End_ b.
#[global] Instance range_le_dec : RelDecision range_le.
Proof. intros a b. unfold range_le. apply _. Defined.

(** [last] is the last of the merged rules. *)
Fixpoint merge_into (last : StatusCodeRange) (ranges : list StatusCodeRange) : list StatusCodeRange :=
  match ranges with
  | [] => [last]
  | r :: ranges =>
      if Start r <=? End_ last + 1 then merge_into (if End_ last <? End_ r then MkRange (Start last) (End_ r) else last) ranges
      else last :: merge_into r ranges
  end.

Definition sort_merge (ranges : list StatusCodeRange) : list StatusCodeRange :=
  match merge_sort range_le ranges with [] => [] | r :: ranges => merge_into r ranges end.

(** The segments of a text. *)
Definition segments_of (input : string) : list string := split_on comma (ReplaceAll (TrimSpace input) wide_comma ",").

Definition ParseHTTPStatusCodeRanges (input : string) : res (list StatusCodeRange) :=
  if bool_decide (TrimSpace input = "") then Ok []
  else
    let '(ranges, invalid) := parse_segments (segments_of input) in
    if negb (bool_decide (invalid = [])) then Err (ErrNew ("invalid http status code rules: " +:+ join ", " invalid))
    else Ok (sort_merge ranges).

Definition range_string (r : StatusCodeRange) : string :=
  if Start r =? End_ r then pretty (Start r) else pretty (Start r) +:+ "-" +:+ pretty (End_ r).
Definition statusCodeRangesToString (ranges : list StatusCodeRange) : string := join "," (range_string <$> ranges).

Definition shouldMatchStatusCodeRanges (ranges : list StatusCodeRange) (code : Z) : bool :=
  if (code <? 100) || (599 <? code) then false
  else (fix scan ranges := match ranges with
        | [] => false
        | r :: ranges => if code <? Start r then false else if code <=? End_ r then true else scan ranges
        end) ranges.

(** ** The settings *)

Record rules := MkRules { AutomaticDisableStatusCodeRanges : list StatusCodeRange; AutomaticRetryStatusCodeRanges : list StatusCodeRange }.
#[global] Instance eta_rules : Eta rules := λ r, MkRules (AutomaticDisableStatusCodeRanges r) (AutomaticRetryStatusCodeRanges r).

Definition default_rules : rules :=
  MkRules [MkRange 401 401]
    [MkRange 100 199; MkRange 300 399; MkRange 401 407; MkRange 409 499; MkRange 500 503; MkRange 505 523; MkRange 525 599].

Definition AutomaticDisableStatusCodesToString (st : rules) : string := statusCodeRangesToString (AutomaticDisableStatusCodeRanges st).
Definition AutomaticRetryStatusCodesToString (st : rules) : string := statusCodeRangesToString (AutomaticRetryStatusCodeRanges st).
Definition AutomaticDisableStatusCodesFromString (s : string) : M rules unit := λ st,
  match ParseHTTPStatusCodeRanges s with
  | Ok ranges => (Ok tt, st <| AutomaticDisableStatusCodeRanges := ranges |>)
  | Err e => (Err e, st)
  end.
Definition AutomaticRetryStatusCodesFromString (s : string) : M rules unit := λ st,
  match ParseHTTPStatusCodeRanges s with
  | Ok ranges => (Ok tt, st <| AutomaticRetryStatusCodeRanges := ranges |>)
  | Err e => (Err e, st)
  end.

Definition ShouldDisableByStatusCode (code : Z) (st : rules) : bool := shouldMatchStatusCodeRanges (AutomaticDisableStatusCodeRanges st) code.
Definition IsAlwaysSkipRetryStatusCode (code : Z) : bool := bool_decide (code ∈ [504; 524]).
Definition ErrorCodeBadResponseBody : string := "bad_response_body".
Definition IsAlwaysSkipRetryCode (errorCode : string) : bool := bool_decide (errorCode ∈ [ErrorCodeBadResponseBody]).
Definition ShouldRetryByStatusCode (code : Z) (st : rules) : bool :=
  if IsAlwaysSkipRetryStatusCode code then false else shouldMatchStatusCodeRanges (AutomaticRetryStatusCodeRanges st) code.

Example parse_some : ParseHTTPStatusCodeRanges " 500-503， 429,501 - 510,  401" = Ok [MkRange 401 401; MkRange 429 429; MkRange 500 510].
Proof. by vm_compute. Qed.
Example print_default : AutomaticRetryStatusCodesToString default_rules = "100-199,300-399,401-407,409-499,500-503,505-523,525-599".
Proof. by vm_compute. Qed.

(** ** Normal form and matching *)

Definition in_range (code : Z) (r : StatusCodeRange) : bool := (Start r <=? code) && (code <=? End_ r).
(** The union of some rules. *)
Definition covers (code : Z) (ranges : list StatusCodeRange) : bool := existsb (in_range code) ranges.

Definition valid (r : StatusCodeRange) : Prop := 100 <= Start r ∧ Start r <= End_ r ∧ End_ r <= 599.
(** Another rule follows after a gap. *)
Definition gap (a b : StatusCodeRange) : Prop := End_ a + 1 < Start b.
Definition normal (ranges : list StatusCodeRange) : Prop := Forall valid ranges ∧ StronglySorted gap ranges.

Lemma token_valid token r : parseHTTPStatusCodeToken token = Ok r → valid r.
Proof.
  unfold parseHTTPStatusCodeToken, valid. repeat (case_match || case_bool_decide); try done; intros [= <-]; cbn;
    repeat match goal with E : _ || _ = false |- _ => apply orb_false_elim in E as [? ?] end; lia.
Qed.
Lemma segments_valid segments : Forall valid (parse_segments segments).1.
Proof.
  induction segments as [|seg segments IH]; cbn; [constructor|].
  destruct (parse_segments segments) as [ranges invalid]. case_bool_decide; [done|].
  destruct (parseHTTPStatusCodeToken _) eqn:E; [|done]. constructor; [by eapply token_valid|done].
Qed.

Definition starts_le (a b : StatusCodeRange) : Prop := Start a <= Start b.

Lemma merge_into_spec last ranges : StronglySorted starts_le (last :: ranges) → Forall valid (last :: ranges) →
  normal (merge_into last ranges) ∧ Forall (starts_le last) (merge_into last ranges) ∧
  ∀ code, covers code (merge_into last ranges) = covers code (last :: ranges).
Proof.
  revert last. induction ranges as [|r ranges IH]; intros last Hs Hv; cbn [merge_into].
  { split_and!; [|apply Forall_singleton; unfold starts_le; lia|done]. split; [done|]. constructor; constructor. }
  apply StronglySorted_inv in Hs as [Hs [Hlr Hl]%Forall_cons]. apply Forall_cons in Hv as [Hv1 [Hv2 Hv]%Forall_cons].
  apply StronglySorted_inv in Hs as [Hs Hr]. destruct (Start r <=? End_ last + 1) eqn:E.
  - set (l := if _ : bool then _ else last). assert (Start l = Start last) as Hst by (unfold l; by destruct (_ <? _)).
    destruct (IH l) as (IH1 & IH2 & IH3).
    + constructor; [done|]. unfold starts_le. by rewrite Hst.
    + constructor; [|done]. unfold l, valid in *. destruct (_ <? _) eqn:El; cbn; lia.
    + split_and!; [done|by unfold starts_le in *; rewrite Hst in IH2|]. intros code. rewrite IH3. unfold covers. cbn [existsb].
      rewrite orb_assoc. f_equal. unfold in_range, l, valid, starts_le in *. destruct (_ <? _) eqn:El; cbn; lia.
  - destruct (IH r) as ((IH1 & IH1') & IH2 & IH3); [by constructor|by constructor|]. unfold starts_le in *.
    split_and!.
    + split; [by constructor|]. constructor; [done|]. apply (Forall_impl _ _ _ IH2). intros x Hx. unfold gap. lia.
    + constructor; [done|]. apply (Forall_impl _ _ _ IH2). intros x Hx. lia.
    + intros code. unfold covers in *. cbn [existsb]. by rewrite IH3.
Qed.

#[global] Instance range_le_total : Total range_le.
Proof. intros a b. unfold range_le. lia. Qed.
#[global] Instance range_le_trans : Transitive range_le.
Proof. intros a b c. unfold range_le. lia. Qed.
#[global] Instance range_le_antisymm : AntiSymm (=) range_le.
Proof. intros [a1 a2] [b1 b2]. unfold range_le. cbn. intros ??. f_equal; lia. Qed.

Lemma sorted_starts l : StronglySorted range_le l → StronglySorted starts_le l.
Proof.
  induction 1 as [|a l _ IH Ha]; constructor; [done|]. apply (Forall_impl _ _ _ Ha). intros b. unfold range_le, starts_le. lia.
Qed.

Lemma covers_perm code l k : l ≡ₚ k → covers code l = covers code k.
Proof. unfold covers. induction 1; cbn; [done|by f_equal|by rewrite !orb_assoc, (orb_comm (in_range code y))|congruence]. Qed.

Lemma sort_merge_spec ranges : Forall valid ranges → normal (sort_merge ranges) ∧ ∀ code, covers code (sort_merge ranges) = covers code ranges.
Proof.
  intros Hv. unfold sort_merge. pose proof (merge_sort_Permutation range_le ranges) as Hp.
  pose proof (StronglySorted_merge_sort range_le ranges) as Hs. destruct (merge_sort range_le ranges) as [|r l].
  { apply Permutation_nil in Hp as ->. split; [|done]. split; constructor. }
  destruct (merge_into_spec r l) as (Hn & _ & Hc).
  - by apply sorted_starts.
  - by rewrite Hp.
  - split; [done|]. intros code. rewrite Hc. by apply covers_perm.
Qed.

Lemma match_normal ranges code : normal ranges → shouldMatchStatusCodeRanges ranges code = covers code ranges.
Proof.
  intros [Hv Hs]. unfold shouldMatchStatusCodeRanges. destruct (_ || _) eqn:Eb.
  - symmetry. unfold covers. induction Hv as [|r l Hr Hv IH]; [done|]. cbn. rewrite IH by (by apply StronglySorted_inv in Hs as [? _]).
    unfold in_range, valid in *. lia.
  - clear Eb. induction Hs as [|r l Hs IH Hr]; [done|]. apply Forall_cons in Hv as [Hvr Hv]. unfold covers in *. cbn [existsb].
    destruct (code <? Start r) eqn:E1.
    + symmetry. apply orb_false_intro; [unfold in_range; lia|]. clear -Hr Hvr E1. induction Hr as [|x l Hx _ IH]; [done|]. cbn. rewrite IH.
      unfold in_range, gap, valid in *. lia.
    + destruct (code <=? End_ r) eqn:E2; [unfold in_range; by rewrite E2, (proj2 (Z.leb_le _ _)) by lia|].
      rewrite (IH Hv). unfold in_range. by rewrite E2, andb_false_r.
Qed.

Lemma parse_ranges input ranges : ParseHTTPStatusCodeRanges input = Ok ranges → ranges = sort_merge (parse_segments (segments_of input)).1.
Proof.
  unfold ParseHTTPStatusCodeRanges, segments_of. case_bool_decide as Hb; [rewrite Hb; by intros [= <-]|].
  destruct (parse_segments _) as [l invalid]. by case_bool_decide; intros [= <-].
Qed.

(** What a text is parsed to is in normal form: rules with codes from 100
    to 599, each with its start before its end, ascending and with a gap
    between any two. *)
Theorem parsed_rules_are_normal input ranges : ParseHTTPStatusCodeRanges input = Ok ranges → normal ranges.
Proof. intros ->%parse_ranges. apply sort_merge_spec, segments_valid. Qed.

(** C33: sorting, merging and the scan that stops early do not change what the
    text says: a status code matches the parsed rules exactly when one of the
    segments of the text covers it. *)
Theorem match_is_coverage input ranges code :
  ParseHTTPStatusCodeRanges input = Ok ranges →
  shouldMatchStatusCodeRanges ranges code = covers code (parse_segments (segments_of input)).1.
Proof.
  intros ->%parse_ranges. destruct (sort_merge_spec _ (segments_valid (segments_of input))) as [Hn Hc]. by rewrite match_normal.
Qed.

(** ** Printing and parsing *)

#[local] Abbreviation chars := String.list_ascii_of_string.

Lemma append_cons c a b : String c a +:+ b = String c (a +:+ b).
Proof. done. Qed.
Lemma chars_app a b : chars (a +:+ b) = chars a ++ chars b.
Proof. induction a as [|c a IH]; [done|]. rewrite append_cons. cbn. by f_equal. Qed.
Lemma chars_of l : chars (String.string_of_list_ascii l) = l.
Proof. induction l as [|c l IH]; [done|]. cbn. by rewrite IH. Qed.

(** The characters of printed rules. *)
Definition printed (c : ascii) : bool := bool_decide (is_Some (digit c)) || bool_decide (c = comma) || bool_decide (c = dash).
Definition all_printed (s : string) : bool := forallb printed (chars s).

(** No encoding of a space starts or ends with such a character. *)
Definition no_printed (ps : list string) : bool := forallb (λ p, match p with String c _ => negb (printed c) | EmptyString => false end) ps.
Lemma spaces_not_printed : no_printed space_encodings && no_printed (string_rev <$> space_encodings) = true.
Proof. by vm_compute. Qed.

Lemma strip_any_printed ps s : no_printed ps = true → all_printed s = true → strip_any ps s = None.
Proof.
  intros Hp Hs. induction ps as [|[|a p] ps IH]; [done..|]. cbn in Hp. apply andb_prop in Hp as [Ha Hp]. cbn [strip_any].
  destruct s as [|c s]; [by apply IH|]. cbn [strip_prefix]. rewrite decide_False; [by apply IH|]. intros ->.
  unfold all_printed in Hs. cbn in Hs. apply andb_prop in Hs as [Hc _]. by rewrite Hc in Ha.
Qed.
Lemma trim_left_printed fuel ps s : no_printed ps = true → all_printed s = true → trim_left fuel ps s = s.
Proof. intros Hp Hs. destruct fuel as [|fuel]; [done|]. cbn [trim_left]. by rewrite strip_any_printed. Qed.

Lemma rev_rev s : string_rev (string_rev s) = s.
Proof. unfold string_rev. rewrite chars_of, rev_involutive. apply String.string_of_list_ascii_of_string. Qed.

Lemma TrimSpace_printed s : all_printed s = true → TrimSpace s = s.
Proof.
  intros Hs. pose proof spaces_not_printed as [H1 H2]%andb_prop. unfold TrimSpace. rewrite (trim_left_printed _ _ s H1 Hs).
  rewrite trim_left_printed; [apply rev_rev|done|]. unfold all_printed, string_rev in *. rewrite chars_of.
  apply forallb_forall. intros c Hc%in_rev. by apply (proj1 (forallb_forall _ _) Hs).
Qed.

Lemma replace_none fuel a old new s : a ∉ chars s → replace_all fuel (String a old) new s = s.
Proof.
  revert fuel. induction s as [|c s IH]; intros [|fuel] Ha; try done. cbn [replace_all strip_prefix]. cbn in Ha.
  apply not_elem_of_cons in Ha as [Hne Ha]. rewrite decide_False by done. by rewrite IH.
Qed.
Lemma printed_not a s : printed a = false → all_printed s = true → a ∉ chars s.
Proof.
  intros Ha Hs Hin%list_elem_of_In. apply (proj1 (forallb_forall _ _) Hs) in Hin. congruence.
Qed.

Lemma split_on_word sep a : sep ∉ chars a → split_on sep a = [a].
Proof.
  induction a as [|c a IH]; [done|]. cbn. intros [Hne Ha]%not_elem_of_cons. rewrite decide_False by done. by rewrite IH.
Qed.
Lemma split_on_app sep a b : sep ∉ chars a → split_on sep (a +:+ String sep b) = a :: split_on sep b.
Proof.
  induction a as [|c a IH]; [change ("" +:+ String sep b) with (String sep b); cbn; by rewrite decide_True|]. rewrite append_cons. cbn. intros [Hne Ha]%not_elem_of_cons. rewrite decide_False by done. by rewrite IH.
Qed.
Lemma split_on_join sep l : l ≠ [] → Forall (λ w, sep ∉ chars w) l → split_on sep (join (String sep "") l) = l.
Proof.
  intros Hne Hl. induction Hl as [|w l Hw Hl IH]; [done|]. destruct l as [|w' l]; [by apply split_on_word|].
  change (join (String sep "") (w :: w' :: l)) with (w +:+ String sep (join (String sep "") (w' :: l))). rewrite split_on_app by done.
  by rewrite IH.
Qed.

(** *** Codes have three digits *)

Definition code_ok (z : Z) : bool :=
  let s := pretty z in
  forallb (λ c, bool_decide (is_Some (digit c))) (chars s) && negb (bool_decide (s = "")) && bool_decide (Atoi s = Some z).
Lemma codes_ok : forallb code_ok (seqZ 100 500) = true.
Proof. by vm_compute. Qed.

Lemma code_string z : 100 <= z <= 599 →
  all_printed (pretty z) = true ∧ pretty z ≠ "" ∧ Atoi (pretty z) = Some z ∧ (comma ∉ chars (pretty z)) ∧ (dash ∉ chars (pretty z)).
Proof.
  intros Hz. assert (code_ok z = true) as Hc.
  { apply (proj1 (forallb_forall _ _) codes_ok), list_elem_of_In, elem_of_seqZ. lia. }
  unfold code_ok in Hc. apply andb_prop in Hc as [[Hd Hne]%andb_prop Ha].
  assert (∀ c, c ∈ chars (pretty z) → is_Some (digit c)) as Hdig.
  { intros c Hin%list_elem_of_In. apply (proj1 (forallb_forall _ _) Hd) in Hin. by apply bool_decide_eq_true in Hin. }
  split_and!.
  - apply forallb_forall. intros c Hin%list_elem_of_In%Hdig. unfold printed. by rewrite bool_decide_true.
  - intros E. by rewrite bool_decide_true in Hne.
  - by apply bool_decide_eq_true in Ha.
  - intros [d Hin]%Hdig. by vm_compute in Hin.
  - intros [d Hin]%Hdig. by vm_compute in Hin.
Qed.

Lemma contains_dash a b : Contains (a +:+ String dash b) "-" = true.
Proof.
  unfold Contains. induction a as [|c a IH]; [change ("" +:+ String dash b) with (String dash b); by destruct b|].
  rewrite append_cons. cbn [String.index].
  destruct (String.prefix "-" _); [done|]. by destruct (String.index 0 "-" (a +:+ String dash b)).
Qed.
Lemma contains_no_dash a : dash ∉ chars a → Contains a "-" = false.
Proof.
  unfold Contains. induction a as [|c a IH]; [done|]. cbn [String.list_ascii_of_string String.index].
  intros [Hne Ha]%not_elem_of_cons. specialize (IH Ha).
  change (String.prefix "-" (String c a)) with (if ascii_dec dash c then String.prefix "" a else false).
  destruct (ascii_dec dash c); [done|]. by destruct (String.index 0 "-" a).
Qed.

(** A printed rule is read back. *)
Lemma range_printed r : valid r → all_printed (range_string r) = true ∧ (comma ∉ chars (range_string r)) ∧ range_string r ≠ "".
Proof.
  intros (H1 & H2 & H3). destruct (code_string (Start r)) as (P1 & N1 & _ & C1 & _); [lia|].
  destruct (code_string (End_ r)) as (P2 & _ & _ & C2 & _); [lia|]. unfold range_string. destruct (_ =? _); [done|].
  unfold all_printed in *. rewrite !chars_app, !forallb_app, P1, P2. split_and!; [done| |].
  - rewrite !not_elem_of_app. split_and!; [done| |done]. by intros Hc%list_elem_of_singleton.
  - by destruct (pretty (Start r)).
Qed.

Lemma range_parsed r : valid r → parseHTTPStatusCodeToken (range_string r) = Ok r.
Proof.
  intros Hv. destruct (range_printed r Hv) as (Hp & _ & Hne). unfold parseHTTPStatusCodeToken. rewrite (TrimSpace_printed _ Hp).
  unfold ReplaceAll. rewrite replace_none by (by apply printed_not). rewrite bool_decide_false by done.
  destruct Hv as (H1 & H2 & H3). destruct (code_string (Start r)) as (_ & N1 & A1 & _ & D1); [lia|].
  destruct (code_string (End_ r)) as (_ & N2 & A2 & _ & D2); [lia|]. destruct r as [a b]. unfold range_string in *. cbn in *.
  destruct (a =? b) eqn:E.
  - rewrite contains_no_dash, A1 by done. apply Z.eqb_eq in E as <-. rewrite (proj2 (Z.ltb_ge a 100)), (proj2 (Z.ltb_ge 599 a)) by lia. done.
  - change ("-" +:+ pretty b) with (String dash (pretty b)). rewrite contains_dash, split_on_app, split_on_word by done.
    rewrite !bool_decide_false by done. cbn [orb]. rewrite A1, A2.
    rewrite (proj2 (Z.ltb_ge b a)), (proj2 (Z.ltb_ge a 100)), (proj2 (Z.ltb_ge 599 b)) by lia. done.
Qed.

Lemma rules_printed ranges : Forall valid ranges → all_printed (statusCodeRangesToString ranges) = true.
Proof.
  unfold statusCodeRangesToString. induction 1 as [|r ranges Hr _ IH]; [done|]. destruct (range_printed r Hr) as (Hp & _ & _).
  destruct ranges as [|r' ranges]; [done|]. cbn [fmap list_fmap] in *.
  change (join "," (range_string r :: range_string r' :: (range_string <$> ranges))) with
    (range_string r +:+ "," +:+ join "," (range_string r' :: (range_string <$> ranges))).
  unfold all_printed in *. by rewrite !chars_app, !forallb_app, Hp, IH.
Qed.

Lemma segments_parsed ranges : Forall valid ranges → parse_segments (range_string <$> ranges) = (ranges, []).
Proof.
  induction 1 as [|r ranges Hr _ IH]; [done|]. cbn. rewrite IH. destruct (range_printed r Hr) as (Hp & _ & Hne).
  by rewrite (TrimSpace_printed _ Hp), bool_decide_false, range_parsed by done.
Qed.

Lemma sort_merge_normal ranges : normal ranges → sort_merge ranges = ranges.
Proof.
  intros [Hv Hs]. unfold sort_merge. assert (merge_sort range_le ranges = ranges) as ->.
  { apply (StronglySorted_unique range_le); [apply StronglySorted_merge_sort; apply _| |apply merge_sort_Permutation].
    induction Hs as [|r l Hs IH Hr]; constructor; apply Forall_cons in Hv as [Hv1 Hv]; [by apply IH|].
    apply Forall_forall. intros x Hx. pose proof (proj1 (Forall_forall _ _) Hr x Hx) as Hg. unfold gap, range_le, valid in *. lia. }
  destruct ranges as [|r ranges]; [done|]. clear Hv. revert r Hs. induction ranges as [|r' ranges IH]; intros r Hs; cbn [merge_into]; [done|].
  apply StronglySorted_inv in Hs as [Hs [Hg _]%Forall_cons]. rewrite (proj2 (Z.leb_gt _ _)) by exact Hg. by rewrite IH.
Qed.

(** C34: printing rules in normal form and parsing the text gives the rules
    back, so what is stored as an option is what is in force. *)
Theorem print_parse_rules ranges : normal ranges → ParseHTTPStatusCodeRanges (statusCodeRangesToString ranges) = Ok ranges.
Proof.
  intros Hn. pose proof Hn as [Hv _]. pose proof (rules_printed ranges Hv) as Hp. unfold ParseHTTPStatusCodeRanges, segments_of.
  rewrite (TrimSpace_printed _ Hp). case_bool_decide as He.
  { destruct ranges as [|r ranges]; [done|]. apply Forall_cons in Hv as [Hr _]. destruct (range_printed r Hr) as (_ & _ & Hne).
    unfold statusCodeRangesToString in He. cbn in He. by destruct (range_string r), (range_string <$> ranges). }
  unfold ReplaceAll. change wide_comma with (String (ascii_of_N 239) (bytes [188; 140]%N)). rewrite replace_none by (by apply printed_not).
  unfold statusCodeRangesToString in *. rewrite split_on_join; [|by intros E%fmap_nil_inv; subst|].
  - rewrite segments_parsed by done. cbn. by rewrite sort_merge_normal.
  - apply Forall_fmap, (Forall_impl _ _ _ Hv). intros r Hr. by apply range_printed.
Qed.

Lemma parsed_rules_are_normal_witness : normal [MkRange 401 401; MkRange 429 429; MkRange 500 510].
Proof. apply (parsed_rules_are_normal "500-503,429, 501 - 510,401"). by vm_compute. Defined.
Lemma match_is_coverage_witness :
  shouldMatchStatusCodeRanges [MkRange 401 401; MkRange 429 429; MkRange 500 510] 505 =
  covers 505 (parse_segments (segments_of "500-503,429, 501 - 510,401")).1.
Proof. apply match_is_coverage. by vm_compute. Defined.
Lemma print_parse_rules_witness : ParseHTTPStatusCodeRanges (statusCodeRangesToString [MkRange 401 401; MkRange 500 510]) = Ok [MkRange 401 401; MkRange 500 510].
Proof.
  apply print_parse_rules. split; repeat constructor; done.
Defined.
