(* ===== verification/RateLimit.v ===== *)
(** * Rate limits

    src/common/rate-limit.go, src/middleware/rate-limit.go,
    src/middleware/model-rate-limit.go, src/middleware/email-verification-rate-limit.go
    and the token bucket of src/common/limiter: four ways to count requests per key.

    They are the limiters of the routes, by address or user, of verification
    e-mails, and of model requests by group.

    The in-memory limiter works under its mutex and the Redis limiters with one
    script each, so a call is one step at the time it reads; the limit on
    successful model requests reads and writes its list in separate commands.
    Seconds are the unit of the in-memory limiter and of the bucket, milliseconds
    that of Redis expiry.  A Redis key lives until the clock is past its expiry.
    Lua numbers are taken as integers: the amounts are below 2^53. *)

From Stdlib Require Import Sorted.
From S2P Require Import Prelude GoStrings.
#[local] Open Scope string_scope.
#[local] Open Scope list_scope.
#[local] Open Scope Z_scope.

(** ** In memory *)

(** A queue has its oldest entry first. *)
Abbreviation limiter_store := (gmap string (list Z)).

Definition Request (key : string) (maxRequestNum duration now : Z) (store : limiter_store) : bool * limiter_store :=
  match store !! key with
  | Some queue =>
      if Z.of_nat (length queue) <? maxRequestNum then (true, <[key := queue ++ [now]]> store)
      else if duration <=? now - default 0 (head queue) then (true, <[key := tail queue ++ [now]]> store)
      else (false, store)
  | None => (true, <[key := [now]]> store)
  end.

(** One pass of [clearExpiredItems]. *)
Definition keeps_queue (expiration now : Z) (queue : list Z) : bool :=
  match last queue with Some newest => now - newest <=? expiration | None => false end.
Definition clearExpiredItems (expiration now : Z) (store : limiter_store) : limiter_store :=
  filter (λ kv, keeps_queue expiration now kv.2 = true) store.

Inductive memory_op :=
  | OpRequest (key : string) (maxRequestNum duration : Z)
  | OpClear.

(** [Init]: only the first call decides how long queues are kept. *)
Definition Init (expirationDuration : Z) (l : option (limiter_store * Z)) : option (limiter_store * Z) :=
  match l with None => Some (∅, expirationDuration) | Some l => Some l end.

(** Steps at their times, with the times of the requests of a key that were
    let through. *)
Definition memory_step (expiration : Z) (key : string) (s : limiter_store * list Z) (step : Z * memory_op) : limiter_store * list Z :=
  let '(store, accepted) := s in
  let '(now, op) := step in
  match op with
  | OpRequest k max duration =>
      let '(ok, store) := Request k max duration now store in
      (store, if bool_decide (k = key) && ok then accepted ++ [now] else accepted)
  | OpClear => (clearExpiredItems expiration now store, accepted)
  end.
Definition memory_run (expiration : Z) (key : string) (steps : list (Z * memory_op)) : limiter_store * list Z :=
  foldl (memory_step expiration key) (∅, []) steps.

(** ** Fixed windows in Redis *)

Record counter := MkCounter { rk_count : Z; rk_expire : option Z }.
Abbreviation counters := (gmap string counter).

Definition live_counter (now : Z) (c : option counter) : option counter :=
  match c with
  | Some c => match rk_expire c with Some e => if e <? now then None else Some c | None => Some c end
  | None => None
  end.

(** [TTL]: the rounded seconds, -1 without an expiry. *)
Definition ttl_seconds (now : Z) (expire : option Z) : Z := match expire with Some e => (e - now + 500) / 1000 | None => -1 end.

Definition redisFixedWindowScript (key : string) (max duration now : Z) (d : counters) : (Z * Z * Z) * counters :=
  let c := match live_counter now (d !! key) with Some c => c | None => MkCounter 0 None end in
  let count := rk_count c + 1 in
  let expire := if count =? 1 then Some (now + duration * 1000) else rk_expire c in
  let ttl := ttl_seconds now expire in
  let expire := if ttl <? 0 then Some (now + duration * 1000) else expire in
  let ttl := ttl_seconds now expire in
  ((if max <? count then 0 else 1, count, ttl), <[key := MkCounter count expire]> d).

Definition redisFixedWindowTake (key : string) (maxRequestNum duration now : Z) : M counters (bool * Z * Z) := λ d,
  if bool_decide (key = "") then (Err (ErrNew "rate limit key is empty"), d)
  else if maxRequestNum <=? 0 then (Err (ErrNew "rate limit maximum must be positive"), d)
  else if duration <=? 0 then (Err (ErrNew "rate limit duration must be positive"), d)
  else
    let '(allowedValue, count, ttl, d) := redisFixedWindowScript key maxRequestNum duration now d in
    (Ok (allowedValue =? 1, count, ttl), d).

Definition window_step (key : string) (s : counters * list Z) (step : Z * (string * Z * Z)) : counters * list Z :=
  let '(d, accepted) := s in
  let '(now, (k, m, dur)) := step in
  match redisFixedWindowTake k m dur now d with
  | (Ok (ok, _, _), d) => (d, if bool_decide (k = key) && ok then accepted ++ [now] else accepted)
  | (Err _, d) => (d, accepted)
  end.

(** ** The token bucket *)

Record bucket := MkBucket { tokens : Z; last_time : Z }.

Definition rate_limit_script (requested rate capacity nowInSeconds : Z) (b : option bucket) : bool * bucket :=
  let tokens := match b with
    | Some b => Z.min capacity (tokens b + (nowInSeconds - last_time b) * rate)
    | None => capacity
    end in
  if requested <=? tokens then (true, MkBucket (tokens - requested) nowInSeconds) else (false, MkBucket tokens nowInSeconds).

Definition bucket_step (requested rate capacity : Z) (s : option bucket * list Z) (now : Z) : option bucket * list Z :=
  let '(b, accepted) := s in
  let '(ok, b) := rate_limit_script requested rate capacity now b in
  (Some b, if ok : bool then accepted ++ [now] else accepted).
Definition bucket_run (requested rate capacity : Z) (times : list Z) : option bucket * list Z :=
  foldl (bucket_step requested rate capacity) (None, []) times.

(** ** Successful model requests *)

(** The list has its newest entry first. *)
Record success_list := MkSuccesses { sl_times : list Z; sl_expire : Z }.

Definition live_times (now : Z) (l : option success_list) : list Z :=
  match l with Some l => if sl_expire l <? now then [] else sl_times l | None => [] end.

(** The list is read twice, here at once; no answer when there is no entry to
    read, which takes a negative count. *)
Definition checkRedisRateLimit (maxCount duration expireMinutes now : Z) (l : option success_list) : option bool * option success_list :=
  if maxCount =? 0 then (Some true, l)
  else
    let times := live_times now l in
    if Z.of_nat (length times) <? maxCount then (Some true, l)
    else match last times with
      | None => (None, l)
      | Some oldTime =>
          if (now - oldTime) / 1000 <? duration then (Some false, Some (MkSuccesses times (now + expireMinutes * 60 * 1000)))
          else (Some true, l)
      end.

Definition recordRedisRequest (maxCount expireMinutes now : Z) (l : option success_list) : option success_list :=
  if maxCount =? 0 then l
  else Some (MkSuccesses (take (Z.to_nat maxCount) (now :: live_times now l)) (now + expireMinutes * 60 * 1000)).

(** ** The handlers *)

Inductive verdict := Served (status : Z) | TooMany | CheckFailed.

Record model_limits := MkModelLimits {
  ModelRequestRateLimitEnabled : bool; ModelRequestRateLimitDurationMinutes : Z; ModelRequestRateLimitCount : Z;
  ModelRequestRateLimitSuccessCount : Z; ModelRequestRateLimitGroup : gmap string (Z * Z)
}.

Definition GetGroupRateLimit (s : model_limits) (group : string) : option (Z * Z) := ModelRequestRateLimitGroup s !! group.

Definition CheckModelRequestRateLimitGroup (groups : gmap string (Z * Z)) : bool :=
  forallb (λ l : Z * Z, negb ((l.1 <? 0) || (l.2 <? 1)) && negb ((2147483647 <? l.1) || (2147483647 <? l.2))) ((map_to_list groups).*2).

Definition ModelRequestRateLimitCountMark : string := "MRRL".
Definition ModelRequestRateLimitSuccessCountMark : string := "MRRLS".

(** [status] is the status the rest of the request ends with, [done] the time. *)
Definition memoryRateLimitHandler (duration totalMaxCount successMaxCount userId now status done : Z) (store : limiter_store) : verdict * limiter_store :=
  let totalKey := ModelRequestRateLimitCountMark +:+ pretty userId in
  let successKey := ModelRequestRateLimitSuccessCountMark +:+ pretty userId in
  let '(ok, store) := if 0 <? totalMaxCount then Request totalKey totalMaxCount duration now store else (true, store) in
  if negb ok then (TooMany, store)
  else
    let '(ok, store) := Request (successKey +:+ "_check") successMaxCount duration now store in
    if negb ok then (TooMany, store)
    else (Served status, if status <? 400 then (Request successKey successMaxCount duration done store).2 else store).

(** The limits in force for a group; [None] when there are none. *)
Definition limits_for (s : model_limits) (group : string) : option (Z * Z * Z) :=
  if negb (ModelRequestRateLimitEnabled s) then None
  else
    let '(total, success) := default (ModelRequestRateLimitCount s, ModelRequestRateLimitSuccessCount s) (GetGroupRateLimit s group) in
    Some (ModelRequestRateLimitDurationMinutes s * 60, total, success).

(** The Redis handler: the successes and the bucket of one user. *)
Definition redisRateLimitHandler (duration totalMaxCount successMaxCount expireMinutes now status done : Z)
    (s : option success_list * option bucket) : verdict * (option success_list * option bucket) :=
  let '(l, b) := s in
  let '(allowed, l) := checkRedisRateLimit successMaxCount duration expireMinutes now l in
  match allowed with
  | None => (CheckFailed, (l, b))
  | Some false => (TooMany, (l, b))
  | Some true =>
    let '(ok, b) := if 0 <? totalMaxCount
      then let '(ok, b) := rate_limit_script duration totalMaxCount (totalMaxCount * duration) (now / 1000) b in (ok, Some b)
      else (true, b) in
    if negb ok then (TooMany, (l, b))
    else (Served status, (if status <? 400 then recordRedisRequest successMaxCount expireMinutes done l else l, b))
  end.

(** [ModelRequestRateLimit] for a user of a group: the rest of the request ends
    with [status] at [done], in milliseconds. *)
Definition ModelRequestRateLimit (RedisEnabled : bool) (settings : model_limits) (group : string) (userId now status done : Z)
    (w : limiter_store * gmap Z (option success_list * option bucket)) : verdict * (limiter_store * gmap Z (option success_list * option bucket)) :=
  let '(store, users) := w in
  match limits_for settings group with
  | None => (Served status, w)
  | Some (duration, totalMaxCount, successMaxCount) =>
      if RedisEnabled then
        let '(v, r) := redisRateLimitHandler duration totalMaxCount successMaxCount (ModelRequestRateLimitDurationMinutes settings) now status done
          (default (None, None) (users !! userId)) in
        (v, (store, <[userId := r]> users))
      else
        let '(v, store) := memoryRateLimitHandler duration totalMaxCount successMaxCount userId (now / 1000) status (done / 1000) store in
        (v, (store, users))
  end.

(** Requests of one user one after another: when each begins, its status and
    when it ends.  Kept are the seconds at which those served began and the
    times at which the successful ones ended. *)
Definition user_state : Type := (option success_list * option bucket) * (list Z * list Z).
Definition handler_step (duration totalMaxCount successMaxCount expireMinutes : Z) (s : user_state) (request : Z * Z * Z) : user_state :=
  let '(r, (served, successes)) := s in
  let '(now, status, done) := request in
  let '(v, r) := redisRateLimitHandler duration totalMaxCount successMaxCount expireMinutes now status done r in
  (r, match v with
      | Served st => (served ++ [now / 1000], if st <? 400 then successes ++ [done] else successes)
      | _ => (served, successes)
      end).
Definition handler_run (duration totalMaxCount successMaxCount expireMinutes : Z) (requests : list (Z * Z * Z)) : user_state :=
  foldl (handler_step duration totalMaxCount successMaxCount expireMinutes) ((None, None), ([], [])) requests.

(** ** The limiters of the routes *)

Inductive passage := Passed | Limited (retryAfter : option Z) | LimiterFailed | Unauthorized.

Definition redisRateLimitNamespace : string := "rateLimit:v2".
Definition redisIPRateLimitKey (mark clientIP : string) : string := redisRateLimitNamespace +:+ ":ip:" +:+ mark +:+ ":" +:+ clientIP.
Definition redisUserRateLimitKey (mark : string) (userID : Z) : string :=
  redisRateLimitNamespace +:+ ":user:" +:+ mark +:+ ":" +:+ pretty userID.

Definition writeRateLimited (retryAfterSeconds : Z) : passage := Limited (if 0 <? retryAfterSeconds then Some retryAfterSeconds else None).

(** [userRedisRateLimiter], at a key that is built already. *)
Definition userRedisRateLimiter (maxRequestNum duration : Z) (key : string) (now : Z) (d : counters) : passage * counters :=
  match redisFixedWindowTake key maxRequestNum duration now d with
  | (Err _, d) => (LimiterFailed, d)
  | (Ok (allowed, _, ttlSeconds), d) => (if allowed then Passed else writeRateLimited ttlSeconds, d)
  end.
Definition redisRateLimiter (maxRequestNum duration : Z) (mark clientIP : string) (now : Z) (d : counters) : passage * counters :=
  userRedisRateLimiter maxRequestNum duration (redisIPRateLimitKey mark clientIP) now d.
Definition memory_take (maxRequestNum duration : Z) (key : string) (now : Z) (store : limiter_store) : passage * limiter_store :=
  let '(ok, store) := Request key maxRequestNum duration now store in
  (if ok : bool then Passed else writeRateLimited duration, store).
Definition memoryRateLimiter (maxRequestNum duration : Z) (mark clientIP : string) (now : Z) (store : limiter_store) : passage * limiter_store :=
  memory_take maxRequestNum duration (mark +:+ clientIP) now store.

(** Both stores; Redis works in milliseconds. *)
Record limiters := MkLimiters { lm_redis : counters; lm_memory : limiter_store }.
Definition rateLimitFactory (RedisEnabled : bool) (maxRequestNum duration : Z) (mark clientIP : string) (nowMs : Z) (w : limiters) : passage * limiters :=
  if RedisEnabled
  then let '(r, d) := redisRateLimiter maxRequestNum duration mark clientIP nowMs (lm_redis w) in (r, MkLimiters d (lm_memory w))
  else let '(r, m) := memoryRateLimiter maxRequestNum duration mark clientIP (nowMs / 1000) (lm_memory w) in (r, MkLimiters (lm_redis w) m).
Definition userRateLimitFactory (RedisEnabled : bool) (maxRequestNum duration : Z) (mark : string) (userID nowMs : Z) (w : limiters) : passage * limiters :=
  if userID =? 0 then (Unauthorized, w)
  else if RedisEnabled
  then let '(r, d) := userRedisRateLimiter maxRequestNum duration (redisUserRateLimitKey mark userID) nowMs (lm_redis w) in (r, MkLimiters d (lm_memory w))
  else let '(r, m) := memory_take maxRequestNum duration (mark +:+ ":user:" +:+ pretty userID) (nowMs / 1000) (lm_memory w) in (r, MkLimiters (lm_redis w) m).

Definition EmailVerificationRateLimitMark : string := "EV".
Definition EmailVerificationMaxRequests : Z := 2.
Definition EmailVerificationDuration : Z := 30.

Definition memoryEmailVerificationRateLimiter (clientIP : string) (nowMs : Z) (w : limiters) : passage * limiters :=
  let '(ok, m) := Request (EmailVerificationRateLimitMark +:+ ":" +:+ clientIP) EmailVerificationMaxRequests EmailVerificationDuration
    (nowMs / 1000) (lm_memory w) in
  (if ok : bool then Passed else Limited None, MkLimiters (lm_redis w) m).
(** [up] tells whether Redis answers; the seconds are those of the message. *)
Definition redisEmailVerificationRateLimiter (up : bool) (clientIP : string) (nowMs : Z) (w : limiters) : passage * limiters :=
  if negb up then memoryEmailVerificationRateLimiter clientIP nowMs w
  else match redisFixedWindowTake (redisIPRateLimitKey EmailVerificationRateLimitMark clientIP) EmailVerificationMaxRequests
      EmailVerificationDuration nowMs (lm_redis w) with
    | (Err _, _) => memoryEmailVerificationRateLimiter clientIP nowMs w
    | (Ok (true, _, _), d) => (Passed, MkLimiters d (lm_memory w))
    | (Ok (false, _, ttlSeconds), d) =>
        (Limited (Some (if 0 <? ttlSeconds then ttlSeconds else EmailVerificationDuration)), MkLimiters d (lm_memory w))
    end.
Definition EmailVerificationRateLimit (RedisEnabled up : bool) (clientIP : string) (nowMs : Z) (w : limiters) : passage * limiters :=
  if RedisEnabled then redisEmailVerificationRateLimiter up clientIP nowMs w else memoryEmailVerificationRateLimiter clientIP nowMs w.

(** ** Gaps between accepted requests *)

(** Any two accepted requests with [n] others from the first to the last are
    [gap] apart: at most [n] fall into a shorter time. *)
Definition spaced (n : nat) (gap : Z) (accepted : list Z) : Prop :=
  ∀ i a b, accepted !! i = Some a → accepted !! (i + n)%nat = Some b → gap <= b - a.

Lemma spaced_snoc n gap accepted b :
  (0 < n)%nat → spaced n gap accepted → (∀ a, accepted !! (length accepted - n)%nat = Some a → (n <= length accepted)%nat → gap <= b - a) →
  spaced n gap (accepted ++ [b]).
Proof.
  intros Hn Hs Hb i x y Hx Hy. apply lookup_app_Some in Hy as [Hy|[Hge Hy]].
  - rewrite lookup_app_l in Hx by (apply lookup_lt_Some in Hy; lia). by apply (Hs i).
  - apply list_lookup_singleton_Some in Hy as [Hlen <-]. rewrite lookup_app_l in Hx by lia. apply Hb; [|lia].
    rewrite <-Hx. f_equal. lia.
Qed.

(** ** The in-memory limiter *)

(** The accepted requests of the key: those no longer in the queue, then the
    queue, which is full unless the others are out of the window. *)
Definition memory_inv (key : string) (max duration now : Z) (s : limiter_store * list Z) : Prop :=
  ∃ gone, s.2 = gone ++ default [] (s.1 !! key) ∧ Z.of_nat (length (default [] (s.1 !! key))) <= max ∧
    (Z.of_nat (length (default [] (s.1 !! key))) = max ∨ Forall (λ a, duration <= now - a) gone) ∧
    StronglySorted Z.le s.2 ∧ Forall (λ a, a <= now) s.2 ∧ spaced (Z.to_nat max) duration s.2.

Lemma memory_inv_later key max duration now now' s : now <= now' → memory_inv key max duration now s → memory_inv key max duration now' s.
Proof.
  intros Hle (gone & E & Hl & Hg & Hs & Hn & Hsp). exists gone. split_and!; try done.
  - destruct Hg as [?|Hg]; [by left|right]. apply (Forall_impl _ _ _ Hg). lia.
  - apply (Forall_impl _ _ _ Hn). lia.
Qed.

Lemma sorted_snoc l x : StronglySorted Z.le l → Forall (λ a, a <= x) l → StronglySorted Z.le (l ++ [x]).
Proof.
  induction 1 as [|a l Hs IH Ha]; intros Hx; cbn; [constructor; constructor|]. apply Forall_cons in Hx as [Hax Hx].
  constructor; [by apply IH|]. apply Forall_app. split; [done|by apply Forall_singleton].
Qed.

Lemma request_other key k max duration now store : k ≠ key → (Request k max duration now store).2 !! key = store !! key.
Proof. intros Hne. unfold Request. repeat case_match; cbn; try done; by rewrite lookup_insert_ne. Qed.

(** The queue and what has left it, after a request that is let through. *)
Lemma memory_push key max duration now store accepted gone queue :
  0 < max → StronglySorted Z.le accepted → Forall (λ a, a <= now) accepted → spaced (Z.to_nat max) duration accepted →
  accepted = gone ++ queue → Z.of_nat (length queue) < max →
  Z.of_nat (length queue) = max - 1 ∨ Forall (λ a, duration <= now - a) gone →
  (∀ a, gone !! (length gone + length queue - Z.to_nat max)%nat = Some a → duration <= now - a) →
  memory_inv key max duration now (<[key := queue ++ [now]]> store, accepted ++ [now]).
Proof.
  intros Hm Hs Hn Hsp -> Hlen Hfull Hold. exists gone. cbn [fst snd]. rewrite lookup_insert_eq. cbn [from_option id].
  split_and!; [by rewrite <-app_assoc|rewrite length_app; cbn; lia|rewrite length_app; cbn; destruct Hfull; [left; lia|by right]|by apply sorted_snoc| |].
  - apply Forall_app. split; [done|by apply Forall_singleton].
  - apply spaced_snoc; [lia|done|]. intros a Ha Hle. rewrite length_app in Ha, Hle.
    rewrite lookup_app_l in Ha by lia. by apply Hold.
Qed.

Lemma memory_request key max duration now store accepted : 0 < max → memory_inv key max duration now (store, accepted) →
  let '(ok, store') := Request key max duration now store in
  memory_inv key max duration now (store', if ok : bool then accepted ++ [now] else accepted).
Proof.
  intros Hm Hinv. pose proof Hinv as (gone & E & Hl & Hg & Hs & Hn & Hsp). cbn [fst snd] in *. unfold Request.
  destruct (store !! key) as [queue|]; cbn [from_option id] in *.
  2: { apply (memory_push key max duration now store accepted gone []); [done..|done| |].
       - right. destruct Hg as [?|?]; [cbn in *; lia|done].
       - destruct Hg as [?|Hg]; [cbn in *; lia|]. intros a Ha. by apply (Forall_lookup_1 _ _ _ _ Hg Ha). }
  destruct (_ <? max) eqn:Elt.
  - apply Z.ltb_lt in Elt. destruct Hg as [?|Hg]; [lia|].
    apply (memory_push key max duration now store accepted gone queue); try done; [by right|].
    intros a Ha. by apply (Forall_lookup_1 _ _ _ _ Hg Ha).
  - apply Z.ltb_ge in Elt. destruct (_ <=? _) eqn:Eold; [|done]. apply Z.leb_le in Eold.
    destruct queue as [|x queue]; [cbn in *; lia|]. cbn [length head tail from_option id] in *.
    apply (memory_push key max duration now store accepted (gone ++ [x]) queue); try done; [by rewrite <-app_assoc|lia|left; lia|].
    intros a Ha. rewrite length_app in Ha. cbn [length] in Ha.
    replace (length gone + 1 + length queue - Z.to_nat max)%nat with (length gone) in Ha by lia.
    rewrite lookup_app_r, Nat.sub_diag in Ha by lia. by injection Ha as <-.
Qed.

Lemma sorted_last l x y : StronglySorted Z.le l → last l = Some y → x ∈ l → x <= y.
Proof.
  induction 1 as [|a l Hs IH Ha]; [done|]. intros Hl [->|Hin]%elem_of_cons.
  - destruct l as [|b l]; [by injection Hl as <-|]. rewrite Forall_forall in Ha. apply Ha. by apply last_Some_elem_of.
  - destruct l as [|b l]; [by apply not_elem_of_nil in Hin|]. by apply IH.
Qed.

Lemma memory_clear key max duration expiration now store accepted : 0 < max → duration <= expiration →
  memory_inv key max duration now (store, accepted) → memory_inv key max duration now (clearExpiredItems expiration now store, accepted).
Proof.
  intros Hm Hexp (gone & E & Hl & Hg & Hs & Hn & Hsp). cbn [fst snd] in *. unfold clearExpiredItems.
  destruct (store !! key) as [queue|] eqn:Ek; cbn [from_option id] in *.
  - destruct (keeps_queue expiration now queue) eqn:Ekeep.
    + exists gone. cbn [fst snd]. rewrite (map_lookup_filter_Some_2 _ _ _ _ Ek Ekeep). cbn. by split_and!.
    + exists accepted. cbn [fst snd].
      assert (filter (λ kv : string * list Z, keeps_queue expiration now kv.2 = true) store !! key = None) as ->.
      { apply map_lookup_filter_None. right. intros q Hq. rewrite Ek in Hq. injection Hq as <-. cbn. by rewrite Ekeep. }
      cbn. split_and!; [by rewrite app_nil_r|lia| |done..]. right. unfold keeps_queue in Ekeep.
      destruct (last queue) as [newest|] eqn:El.
      * apply Z.leb_gt in Ekeep. apply Forall_forall. intros a Ha.
        assert (a <= newest); [|lia]. apply (sorted_last accepted); [done| |done]. rewrite E. by rewrite last_app, El.
      * apply last_None in El as ->. rewrite app_nil_r in E. subst gone. destruct Hg as [?|Hg]; [cbn in *; lia|done].
  - exists gone. cbn [fst snd].
    assert (filter (λ kv : string * list Z, keeps_queue expiration now kv.2 = true) store !! key = None) as ->
      by (apply map_lookup_filter_None; by left).
    cbn. by split_and!.
Qed.

(** The times of a run, in their order, and the limit of a key. *)
Definition timed {A} (steps : list (Z * A)) : Prop := StronglySorted Z.le steps.*1.
Definition limited (key : string) (max duration : Z) (steps : list (Z * memory_op)) : Prop :=
  Forall (λ s, match s.2 with OpRequest k m d => k = key → m = max ∧ d = duration | OpClear => True end) steps.

Lemma timed_low {A} (steps : list (Z * A)) : timed steps → ∃ low, Forall (λ t, low <= t) steps.*1.
Proof.
  intros Ht. destruct steps as [|[t op] steps]; [by exists 0|]. exists t. cbn in *. apply StronglySorted_inv in Ht as [_ Ht]. by constructor.
Qed.

Lemma memory_steps key max duration expiration steps now s :
  0 < max → duration <= expiration → timed steps → Forall (λ t, now <= t) steps.*1 → limited key max duration steps →
  memory_inv key max duration now s → ∃ now', memory_inv key max duration now' (foldl (memory_step expiration key) s steps).
Proof.
  intros Hm Hexp. revert now s. induction steps as [|[t op] steps IH]; intros now s Ht Hlow Hlim Hinv; [by eauto|].
  cbn in Ht. apply StronglySorted_inv in Ht as [Ht Hfirst]. apply Forall_cons in Hlow as [Hle _]. apply Forall_cons in Hlim as [Hop Hlim].
  cbn [foldl]. apply (IH t); [done..|]. apply (memory_inv_later _ _ _ _ t) in Hinv; [|done]. destruct s as [store accepted].
  unfold memory_step. destruct op as [k m d|]; [|by apply memory_clear].
  destruct (decide (k = key)) as [->|Hne].
  - destruct (Hop eq_refl) as [-> ->]. pose proof (memory_request key max duration t store accepted Hm Hinv) as Hreq.
    destruct (Request key max duration t store) as [ok store']. rewrite bool_decide_true by done. by destruct ok.
  - pose proof (request_other key k m d t store Hne) as Hk. destruct (Request k m d t store) as [ok store'].
    rewrite bool_decide_false by done. cbn in *. destruct Hinv as (gone & H1). exists gone. cbn [fst snd] in *. by rewrite Hk.
Qed.

(** C39: the in-memory limiter is a sliding window: however requests of all keys
    and clean-ups interleave, any accepted request of a key is at least the
    duration after the one [max] accepted requests before it, if entries are
    kept at least that long; so less than the duration sees at most [max]. *)
Theorem memory_limiter_is_sliding_window key max duration expiration steps :
  0 < max → duration <= expiration → timed steps → limited key max duration steps →
  spaced (Z.to_nat max) duration (memory_run expiration key steps).2.
Proof.
  intros Hm Hexp Ht Hlim. unfold memory_run.
  destruct (timed_low steps Ht) as [low Hlow].
  destruct (memory_steps key max duration expiration steps low (∅, []) Hm Hexp Ht Hlow Hlim) as (now & gone & _ & _ & _ & _ & _ & Hsp); [|done].
  exists []. cbn [fst snd]. rewrite lookup_empty. cbn. split_and!; [done|lia|right; constructor|constructor|constructor|by intros i a b].
Qed.

(** ** Fixed windows *)

(** The accepted requests of the key: those of the current window, which began
    at [start], of the one before, and the older ones. *)
Definition window_inv (key : string) (max duration now : Z) (s : counters * list Z) : Prop :=
  match s.1 !! key with
  | None => s.2 = []
  | Some c =>
      ∃ start older before current, s.2 = older ++ before ++ current ∧ rk_expire c = Some (start + duration * 1000) ∧ start <= now ∧
        Z.of_nat (length before) <= max ∧ Z.of_nat (length current) <= max ∧ Z.of_nat (length current) <= rk_count c ∧ 1 <= rk_count c ∧
        Forall (λ a, a + duration * 1000 < start) older ∧ Forall (λ a, a < start) before ∧ Forall (λ a, a <= start + duration * 1000) current
  end ∧ spaced (Z.to_nat (2 * max)) (duration * 1000) s.2.

Lemma window_later key max duration now now' s : now <= now' → window_inv key max duration now s → window_inv key max duration now' s.
Proof.
  intros Hle [H1 H2]. split; [|done]. destruct (s.1 !! key); [|done]. destruct H1 as (st & o & b & cur & H1). exists st, o, b, cur.
  destruct_and! H1. split_and!; try done. lia.
Qed.

Lemma ttl_positive now e : now <= e → 0 <= ttl_seconds now (Some e).
Proof. intros Hle. cbn. apply Z.div_pos; lia. Qed.

(** A request of the current window. *)
Lemma window_same key max duration now d accepted c older before current start :
  0 < max → 0 < duration → d !! key = Some c → accepted = older ++ before ++ current → rk_expire c = Some (start + duration * 1000) →
  start <= now <= start + duration * 1000 → Z.of_nat (length before) <= max → Z.of_nat (length current) <= max →
  Z.of_nat (length current) <= rk_count c → 1 <= rk_count c →
  Forall (λ a, a + duration * 1000 < start) older → Forall (λ a, a < start) before → Forall (λ a, a <= start + duration * 1000) current →
  spaced (Z.to_nat (2 * max)) (duration * 1000) accepted →
  let '(allowed, _, _, d') := redisFixedWindowScript key max duration now d in
  window_inv key max duration now (d', if allowed =? 1 then accepted ++ [now] else accepted).
Proof.
  intros Hm Hd Hk -> He Hn Hb Hc Hcnt H1 Ho Hbf Hcur Hsp. unfold redisFixedWindowScript. rewrite Hk. cbn [live_counter]. rewrite He.
  rewrite (proj2 (Z.ltb_ge _ _)) by lia. rewrite (proj2 (Z.eqb_neq (rk_count c + 1) 1)) by lia. rewrite He.
  pose proof (ttl_positive now (start + duration * 1000)) as Httl. rewrite (proj2 (Z.ltb_ge (ttl_seconds now _) 0)) by (apply Httl; lia).
  destruct (max <? rk_count c + 1) eqn:Emax; cbn [Z.eqb].
  - split; [|done]. cbn [fst snd]. rewrite lookup_insert_eq. exists start, older, before, current. cbn. split_and!; try done; lia.
  - apply Z.ltb_ge in Emax. split; cbn [fst snd].
    + rewrite lookup_insert_eq. exists start, older, before, (current ++ [now]). cbn. rewrite length_app. cbn.
      split_and!; try done; try lia; [by rewrite <-!app_assoc|]. apply Forall_app. split; [done|apply Forall_singleton; lia].
    + apply spaced_snoc; [lia|done|]. intros a Ha Hle. rewrite !length_app in Ha, Hle. rewrite lookup_app_l in Ha by lia.
      pose proof (Forall_lookup_1 _ _ _ _ Ho Ha). cbn in *. lia.
Qed.

(** The first request of a window. *)
Lemma window_new key max duration now d accepted : 0 < max → 0 < duration → live_counter now (d !! key) = None →
  window_inv key max duration now (d, accepted) →
  let '(allowed, _, _, d') := redisFixedWindowScript key max duration now d in
  window_inv key max duration now (d', if allowed =? 1 then accepted ++ [now] else accepted).
Proof.
  intros Hm Hd Hlive [Hinv Hsp]. cbn [fst snd] in *. unfold redisFixedWindowScript. rewrite Hlive. cbn [rk_count rk_expire].
  change (0 + 1 =? 1) with true. cbv iota. pose proof (ttl_positive now (now + duration * 1000)) as Httl.
  rewrite (proj2 (Z.ltb_ge (ttl_seconds now _) 0)) by (apply Httl; lia). rewrite (proj2 (Z.ltb_ge max (0 + 1))) by lia. cbn [Z.eqb].
  change (1 =? 1) with true. cbv iota.
  assert (∃ older before, accepted = older ++ before ∧ Z.of_nat (length before) <= max ∧ Forall (λ a, a + duration * 1000 < now) older ∧
    Forall (λ a, a < now) before) as (older & before & -> & Hb & Ho & Hbf).
  { destruct (d !! key) as [c|]; [|exists [], []; rewrite Hinv; split_and!; [done|cbn; lia|constructor..]].
    destruct Hinv as (start & o & b & cur & -> & He & Hst & Hb & Hc & _ & _ & Ho & Hbf & Hcur). cbn in Hlive. rewrite He in Hlive.
    destruct (_ <? now) eqn:E; [|done]. apply Z.ltb_lt in E. exists (o ++ b), cur. rewrite app_assoc. split_and!; [done..| |].
    - apply Forall_app. split; [apply (Forall_impl _ _ _ Ho)|apply (Forall_impl _ _ _ Hbf)]; intros a; cbn; lia.
    - apply (Forall_impl _ _ _ Hcur). intros a. cbn. lia. }
  split; cbn [fst snd].
  - rewrite lookup_insert_eq. exists now, older, before, [now]. cbn. split_and!; try done; try lia; [by rewrite <-!app_assoc|].
    apply Forall_singleton. lia.
  - apply spaced_snoc; [lia|done|]. intros a Ha Hle. rewrite length_app in Ha, Hle. rewrite lookup_app_l in Ha by lia.
    pose proof (Forall_lookup_1 _ _ _ _ Ho Ha). cbn in *. lia.
Qed.

Lemma window_take key max duration now d accepted : 0 < max → 0 < duration → window_inv key max duration now (d, accepted) →
  let '(allowed, _, _, d') := redisFixedWindowScript key max duration now d in
  window_inv key max duration now (d', if allowed =? 1 then accepted ++ [now] else accepted).
Proof.
  intros Hm Hd Hinv. destruct (live_counter now (d !! key)) as [c|] eqn:El; [|by apply window_new].
  destruct Hinv as [Hinv Hsp]. cbn [fst snd] in *. destruct (d !! key) as [c'|] eqn:Ek; [|done].
  destruct Hinv as (start & o & b & cur & E & He & Hst & Hb & Hc & Hcnt & H1 & Ho & Hbf & Hcur). cbn in El. rewrite He in El.
  destruct (_ <? now) eqn:En; [done|]. apply Z.ltb_ge in En. injection El as <-.
  by apply (window_same key max duration now d accepted c' o b cur start).
Qed.

Lemma script_other key k max duration now d : k ≠ key → (redisFixedWindowScript k max duration now d).2 !! key = d !! key.
Proof. intros Hne. unfold redisFixedWindowScript. cbn. by rewrite lookup_insert_ne. Qed.

(** All the requests of a key have its limit. *)
Definition window_limited (key : string) (max duration : Z) (steps : list (Z * (string * Z * Z))) : Prop :=
  Forall (λ s, s.2.1.1 = key → s.2.1.2 = max ∧ s.2.2 = duration) steps.

Lemma window_step_inv key max duration t k m dur s : 0 < max → 0 < duration → (k = key → m = max ∧ dur = duration) →
  window_inv key max duration t s → window_inv key max duration t (window_step key s (t, (k, m, dur))).
Proof.
  intros Hm Hd Hop Hinv. destruct s as [d accepted]. unfold window_step, redisFixedWindowTake.
  destruct (bool_decide (k = "")); [done|]. destruct (m <=? 0); [done|]. destruct (dur <=? 0); [done|].
  destruct (decide (k = key)) as [->|Hne].
  - destruct (Hop eq_refl) as [-> ->]. pose proof (window_take key max duration t d accepted Hm Hd Hinv) as Ht.
    destruct (redisFixedWindowScript key max duration t d) as [[[allowed count] ttl] d']. by rewrite bool_decide_true.
  - pose proof (script_other key k m dur t d Hne) as Hk. destruct (redisFixedWindowScript k m dur t d) as [[[allowed count] ttl] d'].
    rewrite bool_decide_false by done. cbn in *. destruct Hinv as [H1 H2]. split; cbn [fst snd] in *; [by rewrite Hk|done].
Qed.

Lemma window_steps key max duration steps now s : 0 < max → 0 < duration → timed steps → Forall (λ t, now <= t) steps.*1 →
  window_limited key max duration steps → window_inv key max duration now s →
  ∃ now', window_inv key max duration now' (foldl (window_step key) s steps).
Proof.
  intros Hm Hd. revert now s. induction steps as [|[t [[k m] dur]] steps IH]; intros now s Ht Hlow Hlim Hinv; [by eauto|].
  cbn in Ht. apply StronglySorted_inv in Ht as [Ht Hfirst]. apply Forall_cons in Hlow as [Hle _]. apply Forall_cons in Hlim as [Hop Hlim].
  cbn [foldl]. apply (IH t); [done..|]. apply window_step_inv; [done..|]. by apply (window_later _ _ _ now).
Qed.


(** The fixed window of Redis lets at most twice the limit through in any
    time of one duration: an accepted request is at least the duration after the
    one [2 * max] accepted requests before it, whatever requests of other keys
    and limits come between. *)
Theorem fixed_window_burst key max duration steps : 0 < max → 0 < duration → timed steps → window_limited key max duration steps →
  spaced (Z.to_nat (2 * max)) (duration * 1000) (foldl (window_step key) (∅, []) steps).2.
Proof.
  intros Hm Hd Ht Hlim. destruct (timed_low steps Ht) as [low Hlow].
  destruct (window_steps key max duration steps low (∅, []) Hm Hd Ht Hlow Hlim) as (now & _ & Hsp); [|done].
  split; cbn [fst snd]; [by rewrite lookup_empty|by intros i a b].
Qed.

(** ** The hint of a refusal *)

Lemma script_refused key max duration now d count ttl d' : redisFixedWindowScript key max duration now d = (0, count, ttl, d') →
  ∃ c e, d' !! key = Some c ∧ rk_expire c = Some e ∧ ttl = ttl_seconds now (Some e).
Proof.
  unfold redisFixedWindowScript. intros [= _ _ <- <-]. rewrite lookup_insert_eq.
  destruct (if _ =? 1 then _ else _) as [e|]; [destruct (ttl_seconds now (Some e) <? 0)|]; by do 2 eexists.
Qed.

Lemma script_expired key max duration now d c e : 0 < max → d !! key = Some c → rk_expire c = Some e → e < now →
  (redisFixedWindowScript key max duration now d).1.1.1 = 1.
Proof.
  intros Hm Hk He Hlt. unfold redisFixedWindowScript. rewrite Hk. cbn [live_counter]. rewrite He, (proj2 (Z.ltb_lt e now)) by done. cbn [rk_count fst].
  by rewrite (proj2 (Z.ltb_ge max (0 + 1))) by lia.
Qed.

Lemma redis_refusal max duration key now later d after d' :
  userRedisRateLimiter max duration key now d = (Limited after, d') → now + (default 0 after + 1) * 1000 <= later →
  (userRedisRateLimiter max duration key later d').1 = Passed.
Proof.
  unfold userRedisRateLimiter, redisFixedWindowTake. destruct (bool_decide _); [done|]. destruct (max <=? 0) eqn:Em; [done|].
  destruct (duration <=? 0); [done|]. apply Z.leb_gt in Em.
  destruct (redisFixedWindowScript key max duration now d) as [[[allowed count] ttl] d1] eqn:Es. destruct (allowed =? 1) eqn:Ea; [done|].
  intros [= <- <-] Hlater. assert (allowed = 0) as ->.
  { unfold redisFixedWindowScript in Es. injection Es as <- _ _ _. by destruct (max <? _). }
  destruct (script_refused key max duration now d count ttl d1 Es) as (c & e & Hk & He & ->).
  assert (e < later) as Hexp.
  { cbn [ttl_seconds] in Hlater. pose proof (Z.mod_pos_bound (e - now + 500) 1000). pose proof (Z_div_mod_eq_full (e - now + 500) 1000).
    destruct (0 <? (e - now + 500) / 1000) eqn:Ettl; [|apply Z.ltb_ge in Ettl]; cbn in Hlater; lia. }
  pose proof (script_expired key max duration later d1 c e Em Hk He Hexp) as Hok.
  destruct (redisFixedWindowScript key max duration later d1) as [[[allowed' count'] ttl'] d2]. cbn in Hok. by subst allowed'.
Qed.

Lemma memory_refusal max duration key now later store after store' :
  0 < max → 0 < duration → (∀ q, store !! key = Some q → Forall (λ a, a <= now) q) →
  memory_take max duration key now store = (Limited after, store') → now + default 0 after <= later →
  (memory_take max duration key later store').1 = Passed.
Proof.
  intros Hm Hd Hq. unfold memory_take, Request. destruct (store !! key) as [q|] eqn:Ek; [|done]. destruct (_ <? max) eqn:Em; [done|].
  destruct (_ <=? _) eqn:Eold; [done|]. unfold writeRateLimited. rewrite (proj2 (Z.ltb_lt 0 duration)) by done. cbn.
  intros [= <- <-] Hlater. cbn in Hlater. rewrite Ek, Em. specialize (Hq q eq_refl).
  destruct q as [|x q]; [apply Z.ltb_ge in Em; cbn in Em; lia|]. apply Forall_cons in Hq as [Hx _]. cbn.
  by rewrite (proj2 (Z.leb_le duration (later - x))) by lia.
Qed.

(** A client that waits out the hint of a refusal is let through, if no
    other request of its key was in between: after the seconds of Retry-After in
    memory, and one more second where Redis rounds the rest of the window. *)
Theorem retry_after_is_enough RedisEnabled max duration mark clientIP now later w after w' :
  0 < max → 0 < duration → (∀ q, lm_memory w !! (mark +:+ clientIP) = Some q → Forall (λ a, a <= now / 1000) q) →
  rateLimitFactory RedisEnabled max duration mark clientIP now w = (Limited after, w') → now + (default 0 after + 1) * 1000 <= later →
  (rateLimitFactory RedisEnabled max duration mark clientIP later w').1 = Passed.
Proof.
  intros Hm Hd Hq Hr Hlater. unfold rateLimitFactory, redisRateLimiter, memoryRateLimiter in *. destruct RedisEnabled.
  - destruct (userRedisRateLimiter _ _ _ now _) as [r d] eqn:E. injection Hr as -> <-. cbn [lm_redis].
    pose proof (redis_refusal _ _ _ _ _ _ _ _ E Hlater) as Hok. by destruct (userRedisRateLimiter _ _ _ later _).
  - destruct (memory_take _ _ _ (now / 1000) _) as [r m] eqn:E. injection Hr as -> <-. cbn [lm_memory].
    pose proof (memory_refusal _ _ _ _ (later / 1000) _ _ _ Hm Hd Hq E) as Hok.
    assert (now / 1000 + default 0 after <= later / 1000) as Hle.
    { rewrite <-Z.div_add by done. apply Z.div_le_mono; lia. }
    specialize (Hok Hle). by destruct (memory_take _ _ _ (later / 1000) _).
Qed.

Lemma retry_after_is_enough_witness :
  let take now w := rateLimitFactory true 1 60 "CT" "::1" now w in
  let w := (take 1000 (MkLimiters ∅ ∅)).2 in
  (take 2000 w).1 = Limited (Some 59) ∧ (take 62000 (take 2000 w).2).1 = Passed.
Proof.
  split; [by vm_compute|].
  apply (retry_after_is_enough true 1 60 "CT" "::1" 2000 62000 (rateLimitFactory true 1 60 "CT" "::1" 1000 (MkLimiters ∅ ∅)).2 (Some 59));
    [lia|lia|by vm_compute|by vm_compute|cbn; lia].
Defined.

(** ** The token bucket *)

(** [n] further accepted requests after the one at [a], the last at [b]. *)
Definition paced (requested rate capacity : Z) (accepted : list Z) : Prop :=
  ∀ i n a b, accepted !! i = Some a → accepted !! (i + n)%nat = Some b → requested * (Z.of_nat n + 1) <= capacity + rate * (b - a).

(** What is in the bucket, and what each accepted request leaves for it. *)
Definition bucket_inv (requested rate capacity now : Z) (s : option bucket * list Z) : Prop :=
  paced requested rate capacity s.2 ∧
  match s.1 with
  | None => s.2 = []
  | Some b =>
      last_time b <= now ∧ 0 <= tokens b <= capacity ∧ (∀ i a, s.2 !! i = Some a →
        requested * (Z.of_nat (length s.2) - Z.of_nat i) + tokens b <= capacity + rate * (last_time b - a))
  end.

Lemma paced_snoc requested rate capacity accepted b : requested <= capacity → paced requested rate capacity accepted →
  (∀ i a, accepted !! i = Some a → requested * (Z.of_nat (length accepted) - Z.of_nat i + 1) <= capacity + rate * (b - a)) →
  paced requested rate capacity (accepted ++ [b]).
Proof.
  intros Hc Hp Hb i n x y Hx Hy. apply lookup_app_Some in Hy as [Hy|[Hge Hy]].
  - rewrite lookup_app_l in Hx by (apply lookup_lt_Some in Hy; lia). by apply (Hp i).
  - apply list_lookup_singleton_Some in Hy as [Hlen <-]. destruct (decide (i < length accepted)%nat) as [Hi|Hi].
    + rewrite lookup_app_l in Hx by done. specialize (Hb i x Hx). by replace (Z.of_nat n) with (Z.of_nat (length accepted) - Z.of_nat i) by lia.
    + rewrite lookup_app_r in Hx by lia. apply list_lookup_singleton_Some in Hx as [Hi' <-].
      replace (Z.of_nat n) with 0 by lia. nia.
Qed.

Lemma bucket_step_inv requested rate capacity now now' s : 0 < requested <= capacity → 0 <= rate → now <= now' →
  bucket_inv requested rate capacity now s → bucket_inv requested rate capacity now' (bucket_step requested rate capacity s now').
Proof.
  intros Hr Hrate Hle [Hp Hb]. destruct s as [b accepted]. cbn [fst snd] in *. unfold bucket_step, rate_limit_script.
  set (filled := match b with Some _ => _ | None => _ end).
  assert (0 <= filled <= capacity ∧ ∀ i a, accepted !! i = Some a →
    requested * (Z.of_nat (length accepted) - Z.of_nat i) + filled <= capacity + rate * (now' - a)) as [Hf Hold].
  { unfold filled. destruct b as [b|]; [|subst accepted; split; [lia|by intros i a]]. destruct Hb as (H1 & H2 & H3).
    split; [nia|]. intros i a Ha. specialize (H3 i a Ha). nia. }
  destruct (requested <=? filled) eqn:E; [apply Z.leb_le in E|].
  - split; cbn [fst snd tokens last_time].
    + apply paced_snoc; [lia|done|]. intros i a Ha. specialize (Hold i a Ha). nia.
    + split_and!; [lia..|]. intros i a Ha. rewrite length_app. cbn [length]. destruct (decide (i < length accepted)%nat) as [Hi|Hi].
      * rewrite lookup_app_l in Ha by done. specialize (Hold i a Ha). nia.
      * rewrite lookup_app_r in Ha by lia. apply list_lookup_singleton_Some in Ha as [Hi' <-]. nia.
  - split; cbn [fst snd tokens last_time]; [done|]. split_and!; [lia..|done].
Qed.

Lemma bucket_steps requested rate capacity times now s : 0 < requested <= capacity → 0 <= rate → StronglySorted Z.le times →
  Forall (λ t, now <= t) times → bucket_inv requested rate capacity now s →
  ∃ now', bucket_inv requested rate capacity now' (foldl (bucket_step requested rate capacity) s times).
Proof.
  intros Hr Hrate. revert now s. induction times as [|t times IH]; intros now s Ht Hlow Hinv; [by eauto|].
  apply StronglySorted_inv in Ht as [Ht Hfirst]. apply Forall_cons in Hlow as [Hle _]. cbn [foldl].
  apply (IH t); [done..|]. by apply (bucket_step_inv _ _ _ now).
Qed.

(** The token bucket: from one accepted request to a later one, the tokens
    taken are at most the capacity and what the rate fills in between. *)
Theorem token_bucket_rate requested rate capacity times : 0 < requested <= capacity → 0 <= rate → StronglySorted Z.le times →
  paced requested rate capacity (bucket_run requested rate capacity times).2.
Proof.
  intros Hr Hrate Ht. assert (∃ low, Forall (λ t, low <= t) times) as [low Hlow].
  { destruct times as [|t times]; [by exists 0|]. exists t. apply StronglySorted_inv in Ht as [_ Ht]. by constructor. }
  destruct (bucket_steps requested rate capacity times low (None, []) Hr Hrate Ht Hlow) as (now & Hp & _); [|done].
  split; cbn; [|done]. by intros i n a b.
Qed.

(** ** The model limits of a user in Redis *)

(** The successes: those no longer in the list, then the list, which is full
    unless the others are out of the window; it outlives its entries' window. *)
Definition success_inv (max duration now : Z) (l : option success_list) (successes : list Z) : Prop :=
  Forall (λ a, a <= now) successes ∧ spaced (Z.to_nat max) (duration * 1000) successes ∧
  (∃ gone times, times = match l with Some l => sl_times l | None => [] end ∧ successes = gone ++ reverse times ∧ Z.of_nat (length times) <= max ∧
    (Z.of_nat (length times) = max ∨ Forall (λ a, duration * 1000 <= now - a) gone)) ∧
  match l with Some l => Forall (λ a, a + duration * 1000 <= sl_expire l) successes | None => True end.

(** One more success keeps to the limit. *)
Definition success_ready (max duration now : Z) (successes : list Z) : Prop :=
  ∀ a, successes !! (length successes - Z.to_nat max)%nat = Some a → (Z.to_nat max <= length successes)%nat → duration * 1000 <= now - a.

Lemma success_later max duration now now' l successes : now <= now' → success_inv max duration now l successes → success_inv max duration now' l successes.
Proof.
  intros Hle (H1 & H2 & (gone & times & -> & H3 & H4 & H5) & H6). split_and!; [|done| |done].
  - apply (Forall_impl _ _ _ H1). lia.
  - exists gone, (match l with Some l => sl_times l | None => [] end). split_and!; try done. destruct H5 as [?|H5]; [by left|right].
    apply (Forall_impl _ _ _ H5). lia.
Qed.

(** The entries that are still there. *)
Lemma success_live max duration now l successes : 0 < max → success_inv max duration now l successes →
  ∃ gone, successes = gone ++ reverse (live_times now l) ∧ Z.of_nat (length (live_times now l)) <= max ∧
    (Z.of_nat (length (live_times now l)) = max ∨ Forall (λ a, duration * 1000 <= now - a) gone).
Proof.
  intros Hm (H1 & H2 & (gone & times & -> & H3 & H4 & H5) & H6). unfold live_times. destruct l as [l|]; [|by exists gone].
  destruct (sl_expire l <? now) eqn:E; [|by exists gone]. apply Z.ltb_lt in E. exists successes. cbn. rewrite app_nil_r.
  split_and!; [done|lia|right]. apply (Forall_impl _ _ _ H6). cbn. lia.
Qed.

Lemma success_check max duration minutes now l successes : 0 < max → duration = minutes * 60 → success_inv max duration now l successes →
  let '(allowed, l') := checkRedisRateLimit max duration minutes now l in
  success_inv max duration now l' successes ∧ (allowed = Some true → success_ready max duration now successes).
Proof.
  intros Hm Hd Hinv. destruct (success_live max duration now l successes Hm Hinv) as (gone & E & Hlen & Hfull). unfold checkRedisRateLimit.
  rewrite (proj2 (Z.eqb_neq max 0)) by lia. set (times := live_times now l) in *. destruct (_ <? max) eqn:Elt.
  - split; [done|]. intros _ a Ha Hle. apply Z.ltb_lt in Elt. destruct Hfull as [?|Hold]; [lia|].
    rewrite E, length_app, length_reverse in Ha, Hle. rewrite lookup_app_l in Ha by lia. by apply (Forall_lookup_1 _ _ _ _ Hold Ha).
  - apply Z.ltb_ge in Elt. destruct (last times) as [old|] eqn:El; [|by split]. destruct (_ <? duration) eqn:Eold.
    + split; [|done]. destruct Hinv as (H1 & H2 & _ & _). split_and!; [done..|by exists gone, times|].
      cbn. apply (Forall_impl _ _ _ H1). intros a. cbn. lia.
    + split; [done|]. intros _ a Ha Hle. apply Z.ltb_ge in Eold. rewrite E, length_app, length_reverse in Ha.
      rewrite lookup_app_r, reverse_lookup in Ha by lia. replace (length times - S _)%nat with (pred (length times)) in Ha by lia.
      rewrite <-last_lookup, El in Ha. injection Ha as <-. pose proof (Z.mul_div_le (now - old) 1000). lia.
Qed.

Lemma success_record max duration minutes now l successes : 0 < max → duration = minutes * 60 → 0 < duration →
  success_inv max duration now l successes → success_ready max duration now successes →
  success_inv max duration now (recordRedisRequest max minutes now l) (successes ++ [now]).
Proof.
  intros Hm Hd Hpos Hinv Hready. destruct (success_live max duration now l successes Hm Hinv) as (gone & E & Hlen & Hfull).
  destruct Hinv as (H1 & H2 & _ & _). unfold recordRedisRequest. rewrite (proj2 (Z.eqb_neq max 0)) by lia.
  set (times := live_times now l) in *. split_and!; [|by apply spaced_snoc; [lia|..]| |].
  - apply Forall_app. split; [done|by apply Forall_singleton].
  - exists (gone ++ reverse (drop (Z.to_nat max) (now :: times))), (take (Z.to_nat max) (now :: times)). split_and!; [done| |rewrite length_take; lia|].
    + rewrite <-app_assoc, <-reverse_app, take_drop, reverse_cons, app_assoc. by rewrite <-E.
    + rewrite length_take. cbn [length]. destruct (decide (max <= Z.of_nat (S (length times)))) as [Hf|Hf]; [left; lia|right].
      rewrite drop_ge by (cbn; lia). rewrite reverse_nil, app_nil_r. destruct Hfull as [?|?]; [lia|done].
  - cbn. apply Forall_app. split; [|apply Forall_singleton; lia]. apply (Forall_impl _ _ _ H1). intros a. cbn. lia.
Qed.

(** Each request begins after the one before has ended. *)
Fixpoint one_by_one (from : Z) (requests : list (Z * Z * Z)) : Prop :=
  match requests with
  | [] => True
  | (now, _, done) :: rest => from <= now ∧ now <= done ∧ one_by_one done rest
  end.

Definition handler_inv (duration total success now : Z) (s : user_state) : Prop :=
  success_inv success duration now s.1.1 s.2.2 ∧ bucket_inv duration total (total * duration) (now / 1000) (s.1.2, s.2.1).

Lemma bucket_later requested rate capacity now now' s : now <= now' → bucket_inv requested rate capacity now s → bucket_inv requested rate capacity now' s.
Proof. intros Hle [H1 H2]. split; [done|]. destruct s as [[b|] served]; [|done]. cbn in *. destruct H2. split_and!; [lia|naive_solver..]. Qed.

Lemma handler_step_inv duration total success minutes from now status fin s :
  0 < minutes → duration = minutes * 60 → 0 < total → 0 < success → from <= now <= fin → handler_inv duration total success from s →
  handler_inv duration total success fin (handler_step duration total success minutes s (now, status, fin)).
Proof.
  intros Hmin Hd Ht Hs Hle [Hsucc Hb]. destruct s as [[l b] [served successes]]. cbn [fst snd] in *.
  apply (success_later _ _ _ now) in Hsucc; [|lia]. unfold handler_step, redisRateLimitHandler.
  pose proof (success_check success duration minutes now l successes Hs Hd Hsucc) as Hc.
  destruct (checkRedisRateLimit success duration minutes now l) as [allowed l']. destruct Hc as [Hinv Hready].
  assert (now / 1000 <= fin / 1000) as Hdiv by (apply Z.div_le_mono; lia). assert (from / 1000 <= now / 1000) by (apply Z.div_le_mono; lia).
  destruct allowed as [[]|]; cycle 1; [split; [by apply (success_later _ _ now); [lia|]|by apply (bucket_later _ _ _ (from / 1000)); [lia|]]..|].
  rewrite (proj2 (Z.ltb_lt 0 total)) by done.
  assert (bucket_inv duration total (total * duration) (fin / 1000) (bucket_step duration total (total * duration) (b, served) (now / 1000))) as Hb'.
  { apply (bucket_later _ _ _ (now / 1000)); [done|]. apply (bucket_step_inv _ _ _ (from / 1000)); [nia|lia|done|done]. }
  unfold bucket_step in Hb'. destruct (rate_limit_script _ _ _ _ b) as [[] b']; cbn [negb] in *; [|by split; [apply (success_later _ _ now); [lia|]|]].
  destruct (status <? 400); (split; [cbn [fst snd]|done]); [|by apply (success_later _ _ now); [lia|]].
  apply success_record; [done..|lia|by apply (success_later _ _ now); [lia|]|]. intros a Ha Hlen. specialize (Hready eq_refl a Ha Hlen). lia.
Qed.

Lemma handler_steps duration total success minutes requests from s :
  0 < minutes → duration = minutes * 60 → 0 < total → 0 < success → one_by_one from requests → handler_inv duration total success from s →
  ∃ now, handler_inv duration total success now (foldl (handler_step duration total success minutes) s requests).
Proof.
  intros Hmin Hd Ht Hs. revert from s. induction requests as [|[[now status] fin] requests IH]; intros from s Hturn Hinv; [by eauto|].
  destruct Hturn as (H1 & H2 & Hrest). cbn [foldl]. apply (IH fin); [done|]. by apply (handler_step_inv _ _ _ _ from).
Qed.

(** A user whose model requests come one after another keeps to both
    limits: at most [success] successes end within less than the duration, and
    the requests served are paced by the total (at most twice it per duration). *)
Theorem user_keeps_model_limits settings group duration total success requests :
  limits_for settings group = Some (duration, total, success) → 0 < duration → 0 < total → 0 < success →
  one_by_one 0 requests →
  let s := handler_run duration total success (ModelRequestRateLimitDurationMinutes settings) requests in
  spaced (Z.to_nat success) (duration * 1000) s.2.2 ∧
  paced duration total (total * duration) s.2.1 ∧
  (∀ i a b, s.2.1 !! i = Some a → s.2.1 !! (i + Z.to_nat (2 * total))%nat = Some b → duration < b - a).
Proof.
  intros Hl Hd Ht Hs Hturn. unfold limits_for in Hl. destruct (negb _); [done|]. destruct (default _ _) as [t u].
  injection Hl as Ed -> ->. cbn. unfold handler_run.
  destruct (handler_steps duration total success (ModelRequestRateLimitDurationMinutes settings) requests 0 ((None, None), ([], [])))
    as (now & (_ & Hsp & _) & Hp & _); [lia|by rewrite <-Ed|done..| |].
  - split; split; cbn [fst snd]; [by constructor| |by intros i n a b|done].
    split_and!; [by intros i a b| |done]. exists [], []. split_and!; [done..|cbn; lia|by right].
  - split_and!; [done..|]. intros i a b Ha Hb. specialize (Hp i _ a b Ha Hb). nia.
Qed.

(** ** Where the limits are not kept *)

(** Two requests that are checked before either is recorded both succeed under
    a limit of one. *)
Lemma parallel_requests_pass_success_limit :
  let '(first, l) := checkRedisRateLimit 1 60 1 1000 None in
  let '(second, l) := checkRedisRateLimit 1 60 1 1001 l in
  let l := recordRedisRequest 1 1 2000 (recordRedisRequest 1 1 1999 l) in
  first = Some true ∧ second = Some true ∧ (checkRedisRateLimit 1 60 1 2001 l).1 = Some false.
Proof. vm_compute. by split_and!. Qed.

(** Without Redis the limit on successes counts failures: after two failed
    requests of a user the third is refused under a limit of two successes,
    which Redis serves; and a limit of no successes, none at all in Redis, is
    one request per duration. *)
Theorem memory_success_limit_counts_failures :
  let failed now store := memoryRateLimitHandler 60 0 2 7 now 500 now store in
  let failed' now s := redisRateLimitHandler 60 0 2 1 now 500 now s in
  let store := (failed 11 (failed 10 ∅).2).2 in
  let s := (failed' 11000 (failed' 10000 (None, None)).2).2 in
  (failed 11 (failed 10 ∅).2).1 = Served 500 ∧ (memoryRateLimitHandler 60 0 2 7 12 200 12 store).1 = TooMany ∧
  (redisRateLimitHandler 60 0 2 1 12000 200 12000 s).1 = Served 200 ∧
  (memoryRateLimitHandler 60 0 0 7 12 200 12 (memoryRateLimitHandler 60 0 0 7 11 200 11 ∅).2).1 = TooMany ∧
  (redisRateLimitHandler 60 0 0 1 12000 200 12000 (redisRateLimitHandler 60 0 0 1 11000 200 11000 (None, None)).2).1 = Served 200.
Proof. vm_compute. by split_and!. Qed.

(** A window longer than queues are kept is not: with the first [Init] at
    20 minutes and a limit of one per hour, a clean-up lets a second request
    through after 21 minutes. *)
Theorem clean_up_reopens_long_window :
  Init 3600 (Init 1200 None) = Some (∅, 1200) ∧
  (memory_run 1200 "MRRL7" [(0, OpRequest "MRRL7" 1 3600); (1260, OpClear); (1261, OpRequest "MRRL7" 1 3600)]).2 = [0; 1261] ∧
  (memory_run 3600 "MRRL7" [(0, OpRequest "MRRL7" 1 3600); (1260, OpClear); (1261, OpRequest "MRRL7" 1 3600)]).2 = [0].
Proof. vm_compute. by split_and!. Qed.

(** ** Instances *)

Lemma memory_limiter_is_sliding_window_witness :
  spaced 2 60 (memory_run 1200 "GA::1" [(0, OpRequest "GA::1" 2 60); (5, OpRequest "CT::1" 1 10); (10, OpRequest "GA::1" 2 60);
    (20, OpRequest "GA::1" 2 60); (30, OpClear); (60, OpRequest "GA::1" 2 60)]).2.
Proof. apply (memory_limiter_is_sliding_window "GA::1" 2 60 1200); [lia|lia|repeat constructor; cbn; lia|repeat constructor; done]. Defined.

Lemma fixed_window_burst_witness :
  spaced 4 60000 (foldl (window_step "k") (∅, []) [(0, ("k", 2, 60)); (59000, ("k", 2, 60)); (59500, ("j", 1, 60)); (60001, ("k", 2, 60));
    (60002, ("k", 2, 60)); (60003, ("k", 2, 60))]).2.
Proof. apply (fixed_window_burst "k" 2 60); [lia|lia|repeat constructor; cbn; lia|repeat constructor; done]. Defined.

Lemma token_bucket_rate_witness : paced 60 2 120 (bucket_run 60 2 120 [0; 1; 2; 31; 32]).2.
Proof. apply (token_bucket_rate 60 2 120); [lia|lia|repeat constructor; lia]. Defined.

Lemma user_keeps_model_limits_witness :
  spaced 2 60000 (handler_run 60 5 2 1 [(0, 200, 500); (1000, 500, 1500); (2000, 200, 2500); (3000, 200, 3500); (60600, 200, 60700)]).2.2.
Proof.
  apply (user_keeps_model_limits (MkModelLimits true 1 9 9 {["vip" := (5, 2)]}) "vip" 60 5 2); [by vm_compute|lia..|]. cbn. lia.
Defined.
