(* ===== verification/SecondFactor.v ===== *)
(** * Authentication flows and the second factor

    src/model/auth_flow.go (one-time tokens of authentication ceremonies),
    src/model/twofa.go (TOTP factors, their lockout and backup codes),
    src/common/totp.go (the formats of codes) and what puts them together: the
    login [Verify2FALogin] of src/controller/twofa.go and [TelegramBind] of
    src/controller/telegram.go, which consumes a flow with an action.

    Every function is a [prog]: its statements interleave with those of all
    other requests and may fail; a transaction is one statement, whose time is
    read as it begins, and its commit may fail.  Instants are in nanoseconds.
    Digests, TOTP and the bytes of random tokens are outside the repository and
    enter as parameters or arguments, and so does what publishing the user
    cache returns (its keys are those of QuotaReserve.v; here only the version
    fence is kept, with Redis on and without its expiry).  A row of [two_fas] never changes its user, so a row is
    found by its user and its id compared. *)

From Stdlib Require Import Ascii.
From S2P Require Import Prelude GoStrings Interleave StatusCodes.
#[local] Open Scope string_scope.
#[local] Open Scope list_scope.
#[local] Open Scope Z_scope.

Definition second_ns : Z := 1000000000.

(** ** Tables *)

Record AuthFlow := MkAuthFlow {
  af_Id : Z; af_Purpose : string; af_Provider : string; af_Intent : string; af_UserId : Z; af_SessionId : string;
  af_Payload : string; af_ExpiresAt : Z; af_ConsumedAt : option Z
}.
#[global] Instance eta_AuthFlow : Eta AuthFlow := λ r,
  MkAuthFlow (af_Id r) (af_Purpose r) (af_Provider r) (af_Intent r) (af_UserId r) (af_SessionId r) (af_Payload r) (af_ExpiresAt r) (af_ConsumedAt r).

Record TwoFA := MkTwoFA {
  tf_Id : Z; tf_UserId : Z; tf_Secret : string; tf_IsEnabled : bool; tf_FailedAttempts : Z; tf_LockedUntil : option Z; tf_LastUsedAt : option Z
}.
#[global] Instance eta_TwoFA : Eta TwoFA := λ r,
  MkTwoFA (tf_Id r) (tf_UserId r) (tf_Secret r) (tf_IsEnabled r) (tf_FailedAttempts r) (tf_LockedUntil r) (tf_LastUsedAt r).

Record TwoFABackupCode := MkBackupCode { bc_UserId : Z; bc_CodeHash : string; bc_IsUsed : bool; bc_UsedAt : option Z; bc_Deleted : bool }.
#[global] Instance eta_BackupCode : Eta TwoFABackupCode := λ r,
  MkBackupCode (bc_UserId r) (bc_CodeHash r) (bc_IsUsed r) (bc_UsedAt r) (bc_Deleted r).

(** The columns of a user that matter here. *)
Record account := MkAccount { ac_Enabled : bool; ac_AuthVersion : Z; ac_Deleted : bool }.
#[global] Instance eta_account : Eta account := λ r, MkAccount (ac_Enabled r) (ac_AuthVersion r) (ac_Deleted r).

(** [auth_flows] by the unique token hash, [two_fas] by the unique user,
    backup codes by id; the pending version fences of Redis by user. *)
Record authdb := MkAuthdb {
  auth_flows : gmap string AuthFlow; two_fas : gmap Z TwoFA; backup_codes : gmap Z TwoFABackupCode; accounts : gmap Z account;
  auth_fences : gmap Z Z; next_auth_id : Z
}.
#[global] Instance eta_authdb : Eta authdb := λ r,
  MkAuthdb (auth_flows r) (two_fas r) (backup_codes r) (accounts r) (auth_fences r) (next_auth_id r).

(** A transaction restores the tables, not Redis. *)
Definition rolled_back (before after : authdb) : authdb := before <| auth_fences := auth_fences after |>.
Definition auth_tx {A} (commits : bool) (m : M authdb A) : M authdb A := λ d,
  match m d with
  | (Ok a, d') => if commits then (Ok a, d') else (Err (ErrDriver "commit"), rolled_back d d')
  | (Err e, d') => (Err e, rolled_back d d')
  end.

Section model.
Context (authFlowTokenHash : string → string) (totp_Validate : string → string → Z → bool).
Context (ValidatePasswordAndHash : string → string → bool) (upper_unicode : string → string) (decode_auth_version : string → option Z).

(** ** Authentication flows *)

Definition AuthFlowPurposeTwoFALogin : string := "2fa_login".
Definition AuthFlowDefaultCleanupRetention : Z := 24 * 3600 * second_ns.
Definition ErrAuthFlowInvalid : error := ErrNew "auth flow is invalid".
Definition ErrAuthFlowExpired : error := ErrNew "auth flow has expired".
Definition ErrAuthFlowConsumed : error := ErrNew "auth flow has already been consumed".

Record AuthFlowCreate := MkFlowCreate {
  fc_Purpose : string; fc_Provider : string; fc_Intent : string; fc_UserId : Z; fc_SessionId : string; fc_Payload : string; fc_ExpiresAt : Z
}.
Record AuthFlowMatch := MkFlowMatch { fm_Purpose : string; fm_Provider : string; fm_Intent : string; fm_UserId : Z; fm_SessionId : string }.

(** The row of the token, if the non-empty fields of the match agree. *)
Definition applyAuthFlowMatch (token : string) (m : AuthFlowMatch) (d : authdb) : option AuthFlow :=
  match auth_flows d !! authFlowTokenHash token with
  | Some flow =>
      if bool_decide (af_Purpose flow = fm_Purpose m) &&
         (bool_decide (fm_Provider m = "") || bool_decide (af_Provider flow = fm_Provider m)) &&
         (bool_decide (fm_Intent m = "") || bool_decide (af_Intent flow = fm_Intent m)) &&
         ((fm_UserId m =? 0) || (af_UserId flow =? fm_UserId m)) &&
         (bool_decide (fm_SessionId m = "") || bool_decide (af_SessionId flow = fm_SessionId m))
      then Some flow else None
  | None => None
  end.

Definition insert_flow (hash : string) (flow : AuthFlow) (d : authdb) : authdb :=
  d <| auth_flows ::= <[hash := flow <| af_Id := next_auth_id d |>]> |> <| next_auth_id ::= Z.succ |>.

(** [random]: the outcome of generating the token. *)
Definition CreateAuthFlow (input : AuthFlowCreate) (random : res string) : prog authdb string :=
  now ← clock;
  if blank (fc_Purpose input) || negb (now <? fc_ExpiresAt input) then throw ErrAuthFlowInvalid
  else
    token ← of_res random;
    query (λ d,
      match auth_flows d !! authFlowTokenHash token with
      | Some _ => (Err (ErrDriver "unique token_hash"), d)
      | None => (Ok token, insert_flow (authFlowTokenHash token)
          (MkAuthFlow 0 (fc_Purpose input) (fc_Provider input) (fc_Intent input) (fc_UserId input) (fc_SessionId input) (fc_Payload input)
             (fc_ExpiresAt input) None) d)
      end).

Definition ClaimExternalAuthAssertionWithTx (purpose assertion : string) (expiresAt now : Z) : M authdb unit := λ d,
  let purpose := TrimSpace purpose in
  let assertion := TrimSpace assertion in
  if bool_decide (purpose = "") || bool_decide (assertion = "") || negb (now <? expiresAt) then (Err ErrAuthFlowInvalid, d)
  else
    let hash := authFlowTokenHash ("external:" +:+ purpose +:+ ":" +:+ assertion) in
    match auth_flows d !! hash with
    | Some _ => (Err ErrAuthFlowConsumed, d)
    | None => (Ok tt, insert_flow hash (MkAuthFlow 0 purpose "" "" 0 "" "" expiresAt (Some now)) d)
    end.
Definition ClaimExternalAuthAssertion (commits : bool) (purpose assertion : string) (expiresAt : Z) : prog authdb unit :=
  now ← clock; query (auth_tx commits (ClaimExternalAuthAssertionWithTx purpose assertion expiresAt now)).

Definition GetAuthFlow (token : string) (m : AuthFlowMatch) : prog authdb AuthFlow :=
  if bool_decide (token = "") || bool_decide (fm_Purpose m = "") then throw ErrAuthFlowInvalid
  else
    flow ← query (gets (applyAuthFlowMatch token m));
    match flow with
    | None => throw ErrAuthFlowInvalid
    | Some flow =>
        if bool_decide (af_ConsumedAt flow ≠ None) then throw ErrAuthFlowConsumed
        else now ← clock; if negb (now <? af_ExpiresAt flow) then throw ErrAuthFlowExpired else mret flow
    end.

(** The transaction of a consumption. *)
Definition consumeTx (token : string) (m : AuthFlowMatch) (action : AuthFlow → M authdb unit) (now : Z) : M authdb AuthFlow := λ d,
  match applyAuthFlowMatch token m d with
  | None => (Err ErrAuthFlowInvalid, d)
  | Some flow =>
      if bool_decide (af_ConsumedAt flow ≠ None) then (Err ErrAuthFlowConsumed, d)
      else if negb (now <? af_ExpiresAt flow) then (Err ErrAuthFlowExpired, d)
      else
        let consumed := flow <| af_ConsumedAt := Some now |> in
        (action consumed;; mret consumed) (d <| auth_flows ::= <[authFlowTokenHash token := consumed]> |>)
  end.
Definition ConsumeAuthFlowWithAction (commits : bool) (token : string) (m : AuthFlowMatch) (action : AuthFlow → M authdb unit) : prog authdb AuthFlow :=
  if bool_decide (token = "") || bool_decide (fm_Purpose m = "") then throw ErrAuthFlowInvalid
  else now ← clock; query (auth_tx commits (consumeTx token m action now)).
Definition ConsumeAuthFlow (commits : bool) (token : string) (m : AuthFlowMatch) : prog authdb AuthFlow :=
  ConsumeAuthFlowWithAction commits token m (λ _, mret tt).

(** [TelegramBind]: the action of the consumption claims the assertion and
    looks at the user; [bound] is what its statements on the session, the
    external identity and the user's Telegram id return, [session] what the
    check of the session before the transaction returns. *)
Definition AuthFlowPurposeTelegramBind : string := "telegram_bind".
Definition AuthFlowPurposeTelegramAssertion : string := "telegram_assertion".
Definition errTelegramBindAssertionInvalid : error := ErrNew "telegram bind assertion is invalid".
Definition errTelegramBindUserDeleted : error := ErrNew "telegram bind user was deleted".
Definition errTelegramBindUserDisabled : error := ErrNew "telegram bind user is disabled".
Definition telegram_action (assertion : string) (assertionExpiresAt now : Z) (bound : res unit) (flow : AuthFlow) : M authdb unit :=
  claimed ← try (ClaimExternalAuthAssertionWithTx AuthFlowPurposeTelegramAssertion assertion assertionExpiresAt now);
  match claimed with
  | Err err =>
      if error_is err ErrAuthFlowInvalid || error_is err ErrAuthFlowConsumed then fail (ErrJoin errTelegramBindAssertionInvalid err) else fail err
  | Ok _ =>
      user ← gets (λ d, accounts d !! af_UserId flow);
      match user with
      | None => fail errTelegramBindUserDeleted
      | Some user =>
          if ac_Deleted user then fail errTelegramBindUserDeleted
          else if negb (ac_Enabled user) then fail errTelegramBindUserDisabled
          else lift_res bound
      end
  end.
Definition TelegramBind (commits : bool) (flowToken assertion : string) (assertionExpiresAt : Z) (session bound : res unit) : prog authdb AuthFlow :=
  pendingFlow ← GetAuthFlow flowToken (MkFlowMatch AuthFlowPurposeTelegramBind "" "" 0 "");
  of_res session;;
  now ← clock;
  ConsumeAuthFlowWithAction commits flowToken (MkFlowMatch AuthFlowPurposeTelegramBind "" "" (af_UserId pendingFlow) (af_SessionId pendingFlow))
    (telegram_action assertion assertionExpiresAt now bound).

Definition flow_is_stale (cutoff : Z) (flow : AuthFlow) : bool :=
  (af_ExpiresAt flow <? cutoff) || match af_ConsumedAt flow with Some t => t <? cutoff | None => false end.
Definition DeleteExpiredAuthFlows (now : Z) : prog authdb unit :=
  let cutoff := now - AuthFlowDefaultCleanupRetention in
  query (modify (λ d, d <| auth_flows ::= filter (λ e, flow_is_stale cutoff e.2 = false) |>)).

(** ** Codes *)

Definition BackupCodeLength : nat := 8.
Definition MaxFailAttempts : Z := 5.
Definition LockoutDuration : Z := 300.

Definition ValidateTOTPCode (secret code : string) (now : Z) : bool :=
  let cleanCode := remove_byte " "%char code in
  Nat.eqb (String.length cleanCode) 6 && totp_Validate cleanCode secret now.

Definition clean_code (code : string) : string := ToUpper upper_unicode (remove_byte "-"%char code).
Definition backup_char (c : Ascii.ascii) : bool :=
  let n := Ascii.nat_of_ascii c in (Nat.leb 65 n && Nat.leb n 90) || (Nat.leb 48 n && Nat.leb n 57).
Definition valid_backup_code (code : string) : bool :=
  Nat.eqb (String.length (clean_code code)) BackupCodeLength && forallb backup_char (String.list_ascii_of_string (clean_code code)).
Definition NormalizeBackupCode (code : string) : string :=
  if Nat.eqb (String.length (clean_code code)) BackupCodeLength
  then String.substring 0 4 (clean_code code) +:+ "-" +:+ String.substring 4 (String.length (clean_code code)) (clean_code code)
  else code.
Definition ValidateNumericCode (code : string) : option string :=
  let code := remove_byte " "%char code in
  if negb (Nat.eqb (String.length code) 6) then None else match Atoi code with Some _ => Some code | None => None end.

(** ** Backup codes *)

Definition unused_code (userId : Z) (c : TwoFABackupCode) : bool := (bc_UserId c =? userId) && negb (bc_IsUsed c) && negb (bc_Deleted c).
Definition unused_codes (userId : Z) (d : authdb) : list (Z * TwoFABackupCode) :=
  filter (λ e, unused_code userId e.2 = true) (map_to_list (backup_codes d)).

(** The update of one code that is still unused; how many rows it changed. *)
Definition use_code (id now : Z) : M authdb Z := λ d,
  match backup_codes d !! id with
  | Some c =>
      if negb (bc_IsUsed c) && negb (bc_Deleted c)
      then (Ok 1, d <| backup_codes ::= <[id := c <| bc_IsUsed := true |> <| bc_UsedAt := Some now |>]> |>)
      else (Ok 0, d)
  | None => (Ok 0, d)
  end.

Definition ValidateBackupCode (userId : Z) (code : string) : prog authdb bool :=
  if negb (valid_backup_code code) then throw (ErrNew "验证码或备用码不正确")
  else
    codes ← query (gets (unused_codes userId));
    match list_find (λ e, ValidatePasswordAndHash (NormalizeBackupCode code) (bc_CodeHash e.2) = true) codes with
    | Some (_, (id, _)) => now ← clock; affected ← query (use_code id now); mret (affected =? 1)
    | None => mret false
    end.

Definition GetUnusedBackupCodeCount (userId : Z) : prog authdb Z := query (gets (λ d, Z.of_nat (length (unused_codes userId d)))).

(** The codes come with the outcome of hashing them; soft deletion. *)
Fixpoint insert_codes (userId : Z) (hashes : list (res string)) : M authdb unit :=
  match hashes with
  | [] => mret tt
  | Err e :: _ => fail e
  | Ok hash :: rest =>
      modify (λ d, d <| backup_codes ::= <[next_auth_id d := MkBackupCode userId hash false None false]> |> <| next_auth_id ::= Z.succ |>);;
      insert_codes userId rest
  end.
Definition replaceBackupCodesWithTx (userId : Z) (hashes : list (res string)) : M authdb unit :=
  modify (λ d, d <| backup_codes ::= fmap (λ c, if bc_UserId c =? userId then c <| bc_Deleted := true |> else c) |>);;
  insert_codes userId hashes.
(** [Unscoped().Delete]: the rows go. *)
Definition delete_backup_codes (userId : Z) : M authdb unit := modify (λ d, d <| backup_codes ::= filter (λ e, bc_UserId e.2 ≠ userId) |>).

(** ** Factors *)

(** [WHERE user_id = ?] *)
Definition factor_of (userId : Z) (d : authdb) : option TwoFA :=
  match two_fas d !! userId with Some r => if tf_UserId r =? userId then Some r else None | None => None end.
Definition GetTwoFAByUserId (userId : Z) : prog authdb (option TwoFA) :=
  if userId =? 0 then throw (ErrNew "用户ID不能为空") else query (gets (factor_of userId)).
Definition IsTwoFAEnabled (userId : Z) : prog authdb bool :=
  twoFA ← GetTwoFAByUserId userId; mret (match twoFA with Some t => tf_IsEnabled t | None => false end).

(** [WHERE id = ?] of the factor [t]. *)
Definition row_of (t : TwoFA) (d : authdb) : option TwoFA :=
  match two_fas d !! tf_UserId t with Some r => if tf_Id r =? tf_Id t then Some r else None | None => None end.
Definition set_row (t : TwoFA) (r : TwoFA) (d : authdb) : authdb := d <| two_fas ::= <[tf_UserId t := r]> |>.

Definition CreatePendingTwoFASetup (t : TwoFA) : prog authdb TwoFA :=
  if (tf_UserId t <=? 0) || tf_IsEnabled t then throw (ErrNew "无效的2FA待验证设置")
  else
    existing ← GetTwoFAByUserId (tf_UserId t);
    match existing with
    | Some _ => throw (ErrNew "用户已存在2FA设置")
    | None =>
        user ← query (gets (λ d, accounts d !! tf_UserId t));
        match user with
        | Some u =>
            if ac_Deleted u then throw (ErrNew "用户不存在")
            else query (λ d, match two_fas d !! tf_UserId t with
              | Some _ => (Err (ErrDriver "unique user_id"), d)
              | None => let t := t <| tf_Id := next_auth_id d |> in (Ok t, set_row t t d <| next_auth_id ::= Z.succ |>)
              end)
        | None => throw (ErrNew "用户不存在")
        end
    end.

Definition no_factor_id : error := ErrNew "2FA记录ID不能为空".
Definition updateUsageState (t : TwoFA) : prog authdb unit :=
  if tf_Id t =? 0 then throw no_factor_id
  else query (modify (λ d, match row_of t d with
    | Some r => set_row t (r <| tf_FailedAttempts := tf_FailedAttempts t |> <| tf_LockedUntil := tf_LockedUntil t |> <| tf_LastUsedAt := tf_LastUsedAt t |>) d
    | None => d
    end)).

(** A transaction on the factor of a user in the state [enabled]. *)
Definition with_factor {A} (cond : TwoFA → bool) (userId : Z) (missing : error) (k : TwoFA → M authdb A) : M authdb A := λ d,
  match two_fas d !! userId with Some r => if cond r then k r d else (Err missing, d) | None => (Err missing, d) end.

Definition DeletePendingTwoFASetup (commits : bool) (t : TwoFA) : prog authdb unit :=
  if (tf_Id t =? 0) || (tf_UserId t <=? 0) then throw no_factor_id
  else query (auth_tx commits (with_factor (λ r, (tf_Id r =? tf_Id t) && negb (tf_IsEnabled r)) (tf_UserId t) ErrRecordNotFound (λ _,
    delete_backup_codes (tf_UserId t);; modify (λ d, d <| two_fas ::= delete (tf_UserId t) |>)))).

Definition CreatePendingTwoFASetupBackupCodes (commits : bool) (userId : Z) (hashes : list (res string)) : prog authdb unit :=
  query (auth_tx commits (with_factor (λ r, negb (tf_IsEnabled r)) userId ErrRecordNotFound (λ _, replaceBackupCodesWithTx userId hashes))).

Definition ResetFailedAttempts (t : TwoFA) : prog authdb TwoFA :=
  let t := t <| tf_FailedAttempts := 0 |> <| tf_LockedUntil := None |> in updateUsageState t;; mret t.

Definition locked_at (now : Z) (until : option Z) : bool := match until with Some u => now <? u | None => false end.
Definition IsLocked (t : TwoFA) : prog authdb bool := now ← clock; mret (locked_at now (tf_LockedUntil t)).

(** The conditional update of a failure; how many rows it changed. *)
Definition count_failure (t : TwoFA) (failed now next : Z) (until : option Z) : M authdb Z := λ d,
  match row_of t d with
  | Some r =>
      if (tf_FailedAttempts r =? failed) && negb (locked_at now (tf_LockedUntil r))
      then (Ok 1, set_row t (r <| tf_FailedAttempts := next |> <| tf_LockedUntil := until |>) d)
      else (Ok 0, d)
  | None => (Ok 0, d)
  end.

Fixpoint increment_loop (tries : nat) (t : TwoFA) : prog authdb TwoFA :=
  match tries with
  | O => throw (ErrNew "更新2FA失败次数冲突，请重试")
  | S tries =>
      current ← query (gets (row_of t));
      match current with
      | None => throw ErrRecordNotFound
      | Some current =>
          now ← clock;
          if locked_at now (tf_LockedUntil current)
          then mret (t <| tf_FailedAttempts := tf_FailedAttempts current |> <| tf_LockedUntil := tf_LockedUntil current |>)
          else
            let nextFailedAttempts := tf_FailedAttempts current + 1 in
            let nextLockedUntil := if MaxFailAttempts <=? nextFailedAttempts then Some (now + LockoutDuration * second_ns) else tf_LockedUntil current in
            affected ← query (count_failure t (tf_FailedAttempts current) now nextFailedAttempts nextLockedUntil);
            if affected =? 0 then increment_loop tries t
            else mret (t <| tf_FailedAttempts := nextFailedAttempts |> <| tf_LockedUntil := nextLockedUntil |>)
      end
  end.
Definition IncrementFailedAttempts (t : TwoFA) : prog authdb TwoFA := if tf_Id t =? 0 then throw no_factor_id else increment_loop 5 t.

Definition account_locked : error := ErrNew "账户已被锁定".

(** After a code was checked: the receiver as it is then; errors of the usage
    columns are logged. *)
Definition code_failed (t : TwoFA) : prog authdb (bool * TwoFA) :=
  r ← attempt (IncrementFailedAttempts t); mret (false, match r with Ok t => t | Err _ => t end).
Definition code_passed (t : TwoFA) : prog authdb (bool * TwoFA) :=
  now ← clock;
  let t := t <| tf_FailedAttempts := 0 |> <| tf_LockedUntil := None |> <| tf_LastUsedAt := Some now |> in
  _ ← attempt (updateUsageState t); mret (true, t).

Definition ValidateTOTPAndUpdateUsage (t : TwoFA) (code : string) : prog authdb (bool * TwoFA) :=
  locked ← IsLocked t;
  if locked : bool then throw account_locked
  else now ← clock; if ValidateTOTPCode (tf_Secret t) code now then code_passed t else code_failed t.

Definition ValidateBackupCodeAndUpdateUsage (t : TwoFA) (code : string) : prog authdb (bool * TwoFA) :=
  locked ← IsLocked t;
  if locked : bool then throw account_locked
  else valid ← ValidateBackupCode (tf_UserId t) code; if valid : bool then code_passed t else code_failed t.

(** ** Changes that advance the version of the user *)

Definition SetUserAuthVersionFence (userId authVersion : Z) : M authdb unit :=
  if (userId <=? 0) || (authVersion <=? 0) then fail (ErrNew "invalid user auth fence")
  else modify (λ d, if default 0 (auth_fences d !! userId) <? authVersion then d <| auth_fences ::= <[userId := authVersion]> |> else d).

(** Inside a transaction the row does not change between the read and the
    update, so the first of its three tries decides. *)
Definition IncrementUserAuthVersionWithTx (userId : Z) : M authdb Z :=
  if userId <=? 0 then fail (ErrNew "invalid user auth version update")
  else
    user ← gets (λ d, accounts d !! userId);
    match user with
    | None => fail ErrRecordNotFound
    | Some user =>
        let next := Z.max 1 (ac_AuthVersion user) + 1 in
        SetUserAuthVersionFence userId next;;
        modify (λ d, d <| accounts ::= <[userId := user <| ac_AuthVersion := next |>]> |>);;
        mret next
    end.

Definition ErrTwoFANotEnabled : error := ErrNew "2fa not enabled".
Definition ErrTwoFAAlreadyEnabled : error := ErrNew "2fa already enabled".

(** [published]: what [PublishUserAuthCache] returns after the commit. *)
Definition ReplaceBackupCodesWithAuthVersion (commits : bool) (published : res unit) (userId : Z) (hashes : list (res string)) : prog authdb unit :=
  query (auth_tx commits (with_factor tf_IsEnabled userId ErrTwoFANotEnabled (λ _,
    _ ← IncrementUserAuthVersionWithTx userId; replaceBackupCodesWithTx userId hashes)));;
  of_res published.

Definition DisableTwoFAWithAuthVersion (commits : bool) (published : res unit) (userId : Z) : prog authdb unit :=
  query (auth_tx commits (with_factor tf_IsEnabled userId ErrTwoFANotEnabled (λ _,
    _ ← IncrementUserAuthVersionWithTx userId; delete_backup_codes userId;; modify (λ d, d <| two_fas ::= delete userId |>))));;
  of_res published.

Definition EnableWithAuthVersion (commits : bool) (published : res unit) (t : TwoFA) : prog authdb TwoFA :=
  if (tf_Id t =? 0) || (tf_UserId t =? 0) then throw no_factor_id
  else
    query (auth_tx commits (with_factor (λ r, (tf_Id r =? tf_Id t) && negb (tf_IsEnabled r)) (tf_UserId t) ErrTwoFAAlreadyEnabled (λ r,
      _ ← IncrementUserAuthVersionWithTx (tf_UserId t);
      modify (set_row t (r <| tf_IsEnabled := true |> <| tf_FailedAttempts := 0 |> <| tf_LockedUntil := None |>)))));;
    of_res published;;
    mret (t <| tf_IsEnabled := true |> <| tf_FailedAttempts := 0 |> <| tf_LockedUntil := None |>).

(** ** Logging in with the second factor *)

Definition refused (msg : string) : error := ErrNew msg.

(** [GetUserById]; soft-deleted users are not found. *)
Definition find_account (id : Z) : prog authdb account :=
  if id =? 0 then throw (ErrNew "id 为空！")
  else
    user ← query (gets (λ d, accounts d !! id));
    match user with Some u => if ac_Deleted u then throw ErrRecordNotFound else mret u | None => throw ErrRecordNotFound end.

(** A TOTP code or else a backup code. *)
Definition check_code (twoFA : TwoFA) (code : string) : prog authdb bool :=
  totp ← (match ValidateNumericCode code with
          | Some cleanCode =>
              r ← attempt (ValidateTOTPAndUpdateUsage twoFA cleanCode);
              mret (match r with Ok r => r | Err _ => (false, twoFA) end)
          | None => mret (false, twoFA)
          end);
  let '(isValidTOTP, twoFA) := totp in
  if isValidTOTP : bool then mret true
  else r ← ValidateBackupCodeAndUpdateUsage twoFA code; mret r.1.

(** The user to log in, at the version of the flow. *)
Definition Verify2FALogin (commits : bool) (flowToken code : string) : prog authdb (Z * Z) :=
  found ← attempt (GetAuthFlow flowToken (MkFlowMatch AuthFlowPurposeTwoFALogin "" "" 0 ""));
  match found with
  | Err _ => throw (refused "会话已过期，请重新登录")
  | Ok flow =>
      user ← attempt (find_account (af_UserId flow));
      match user with
      | Err _ => throw (refused "用户不存在")
      | Ok user =>
          if negb (ac_Enabled user) then throw (refused "用户已被禁用")
          else match decode_auth_version (af_Payload flow) with
          | None => throw (refused "会话已过期，请重新登录")
          | Some version =>
              if (version <=? 0) || negb (version =? ac_AuthVersion user) then throw (refused "会话已过期，请重新登录")
              else
                twoFA ← GetTwoFAByUserId (af_UserId flow);
                match twoFA with
                | Some twoFA =>
                    if negb (tf_IsEnabled twoFA) then throw (refused "用户未启用2FA")
                    else
                      valid ← check_code twoFA code;
                      if negb valid then throw (refused "验证码或备用码错误，请重试")
                      else
                        r ← attempt (ConsumeAuthFlow commits flowToken (MkFlowMatch AuthFlowPurposeTwoFALogin "" "" (af_UserId flow) ""));
                        match r with
                        | Err _ => throw (refused "会话已过期，请重新登录")
                        | Ok _ => mret (af_UserId flow, version)
                        end
                | None => throw (refused "用户未启用2FA")
                end
          end
      end
  end.
End model.
