(* ===== verification/SecondFactorSafety.v ===== *)
(** * What a token and a code are good for

    Theorems about SecondFactor.v: an authentication flow is used once and a
    backup code as often as it was issued, whatever the interleaving of all
    operations and their faults, and wrong codes lock a factor. *)

From Stdlib Require Import Ascii Sorted.
From S2P Require Import Prelude GoStrings Interleave StatusCodes SecondFactor.
#[local] Open Scope string_scope.
#[local] Open Scope list_scope.
#[local] Open Scope Z_scope.

(** ** Operations *)

Inductive auth_op :=
  | OpCreateFlow (input : AuthFlowCreate) (random : res string)
  | OpClaim (commits : bool) (purpose assertion : string) (expiresAt : Z)
  | OpGetFlow (token : string) (m : AuthFlowMatch)
  | OpConsume (commits : bool) (token : string) (m : AuthFlowMatch)
  | OpTelegram (commits : bool) (token assertion : string) (expiresAt : Z) (session bound : res unit)
  | OpCleanup (now : Z)
  | OpLogin (commits : bool) (token code : string)
  | OpSetup (t : TwoFA)
  | OpDeletePending (commits : bool) (t : TwoFA)
  | OpPendingCodes (commits : bool) (userId : Z) (hashes : list (res string))
  | OpReset (t : TwoFA)
  | OpReplaceCodes (commits : bool) (published : res unit) (userId : Z) (hashes : list (res string))
  | OpDisable (commits : bool) (published : res unit) (userId : Z)
  | OpEnable (commits : bool) (published : res unit) (t : TwoFA)
  | OpTOTP (t : TwoFA) (code : string)
  | OpBackup (t : TwoFA) (code : string).

Section safety.
Context (hash : string → string) (totp : string → string → Z → bool) (matches : string → string → bool).
Context (upper : string → string) (decode : string → option Z).

(** The operation, with the user for whom it has accepted a code, if any. *)
Definition accepted (userId : Z) (valid : bool) : option Z := if valid then Some userId else None.
Definition auth_prog (op : auth_op) : prog authdb (option Z) :=
  match op with
  | OpCreateFlow input random => _ ← CreateAuthFlow hash input random; mret None
  | OpClaim c p a e => _ ← ClaimExternalAuthAssertion hash c p a e; mret None
  | OpGetFlow token m => _ ← GetAuthFlow hash token m; mret None
  | OpConsume c token m => _ ← ConsumeAuthFlow hash c token m; mret None
  | OpTelegram c token a e session bound => _ ← TelegramBind hash c token a e session bound; mret None
  | OpCleanup now => _ ← DeleteExpiredAuthFlows now; mret None
  | OpLogin c token code => r ← Verify2FALogin hash totp matches upper decode c token code; mret (Some r.1)
  | OpSetup t => _ ← CreatePendingTwoFASetup t; mret None
  | OpDeletePending c t => _ ← DeletePendingTwoFASetup c t; mret None
  | OpPendingCodes c u hs => _ ← CreatePendingTwoFASetupBackupCodes c u hs; mret None
  | OpReset t => _ ← ResetFailedAttempts t; mret None
  | OpReplaceCodes c p u hs => _ ← ReplaceBackupCodesWithAuthVersion c p u hs; mret None
  | OpDisable c p u => _ ← DisableTwoFAWithAuthVersion c p u; mret None
  | OpEnable c p t => _ ← EnableWithAuthVersion c p t; mret None
  | OpTOTP t code => r ← ValidateTOTPAndUpdateUsage totp t code; mret (accepted (tf_UserId t) r.1)
  | OpBackup t code => r ← ValidateBackupCodeAndUpdateUsage matches upper t code; mret (accepted (tf_UserId t) r.1)
  end.

(** ** Statements that give nothing away *)

Section mild.
Context (G : relation authdb) `{!PreOrder G}.

Definition mild {A} (p : prog authdb A) : Prop := safe (λ _, True) G (λ _, True) (λ _, True) p.

Lemma mild_ret {A} (r : res A) : mild (Ret r).
Proof. done. Qed.
Lemma mild_mret {A} (a : A) : mild (mret a).
Proof. done. Qed.
Lemma mild_clock : mild clock.
Proof. done. Qed.
Lemma mild_bind {A B} (p : prog authdb A) (k : A → prog authdb B) : mild p → (∀ a, mild (k a)) → mild (p ≫= k).
Proof. intros Hp Hk. apply (safe_bind _ _ _ (λ _, True) (λ _, True)); [exact Hp|intros a _; apply Hk|done]. Qed.
Lemma mild_attempt {A} (p : prog authdb A) : mild p → mild (attempt p).
Proof. apply (safe_attempt _ _ _ (λ _, True)). Qed.
Lemma mild_query {A} (f : M authdb A) : (∀ d, G d (f d).2) → mild (query f).
Proof. intros Hf. by apply safe_query. Qed.
Lemma mild_gets {A} (f : authdb → A) : mild (query (gets f)).
Proof. by apply mild_query. Qed.
End mild.
Arguments mild G {A} p.

Create HintDb mild.
#[local] Hint Resolve mild_ret mild_mret mild_clock mild_gets : mild.
Ltac mild_step :=
  match goal with
  | |- ∀ _, _ => intros ?
  | |- mild _ (if ?b then _ else _) => destruct b
  | |- mild _ (match ?x with _ => _ end) => destruct x
  | |- mild _ (let _ := _ in _) => cbv zeta
  | |- mild _ (throw _) => apply mild_ret
  | |- mild _ (of_res _) => apply mild_ret
  | |- mild _ (_ ≫= _) => apply mild_bind; [auto with mild|intros ?]
  | |- mild _ (attempt _) => apply mild_attempt
  | |- mild _ _ => solve [auto with mild]
  end.
Ltac mild := repeat mild_step.

(** Statements on the factors and the users alone. *)
Section factors.
Context (G : relation authdb) `{!PreOrder G}.
Context (frame : ∀ d d', auth_flows d' = auth_flows d → backup_codes d' = backup_codes d → next_auth_id d <= next_auth_id d' → G d d').

Lemma transaction_step {A} c (m : M authdb A) d : (∀ a d', m d = (Ok a, d') → G d d') → G d (auth_tx c m d).2.
Proof.
  intros Hm. unfold auth_tx. destruct (m d) as [[a|e] d'] eqn:E; [destruct c|]; cbn; [by apply (Hm a)|..]; by apply frame.
Qed.

Lemma set_row_step t r d : G d (set_row t r d).
Proof. by apply frame. Qed.

Lemma mild_GetTwoFAByUserId u : mild G (GetTwoFAByUserId u).
Proof. unfold GetTwoFAByUserId. mild. Qed.
Lemma mild_updateUsageState t : mild G (updateUsageState t).
Proof. unfold updateUsageState. mild. apply mild_query. intros d. cbn. destruct (row_of t d); [apply set_row_step|done]. Qed.
Lemma mild_increment_loop n t : mild G (increment_loop n t).
Proof.
  induction n as [|n IH]; cbn [increment_loop]; [apply mild_ret|]. apply mild_bind; [mild|]. intros [current|]; [|apply mild_ret].
  apply mild_bind; [mild|intros now]. destruct (locked_at _ _); [apply mild_ret|]. apply mild_bind; [|intros a; destruct (a =? 0); [done|mild]].
  apply mild_query. intros d. unfold count_failure. destruct (row_of t d); [|done]. destruct (_ && _); [apply set_row_step|done].
Qed.
#[local] Hint Resolve mild_GetTwoFAByUserId mild_updateUsageState mild_increment_loop : mild.

Lemma mild_IncrementFailedAttempts t : mild G (IncrementFailedAttempts t).
Proof. unfold IncrementFailedAttempts. mild. Qed.
#[local] Hint Resolve mild_IncrementFailedAttempts : mild.
Lemma mild_code_failed t : mild G (code_failed t).
Proof. unfold code_failed. apply mild_bind; [|mild]. apply mild_attempt. auto with mild. Qed.
Lemma mild_code_passed t : mild G (code_passed t).
Proof. unfold code_passed. apply mild_bind; [mild|intros now]. cbv zeta. apply mild_bind; [|mild]. apply mild_attempt. auto with mild. Qed.
Lemma mild_IsLocked t : mild G (IsLocked t).
Proof. unfold IsLocked. mild. Qed.
#[local] Hint Resolve mild_code_failed mild_code_passed mild_IsLocked : mild.
Lemma mild_totp t code : mild G (ValidateTOTPAndUpdateUsage totp t code).
Proof. unfold ValidateTOTPAndUpdateUsage. mild. Qed.
Lemma mild_reset t : mild G (ResetFailedAttempts t).
Proof. unfold ResetFailedAttempts. mild. Qed.
Lemma mild_find_account u : mild G (find_account u).
Proof. unfold find_account. mild. Qed.
Lemma mild_GetAuthFlow token m : mild G (GetAuthFlow hash token m).
Proof. unfold GetAuthFlow. mild. Qed.
Lemma mild_setup t : mild G (CreatePendingTwoFASetup t).
Proof.
  unfold CreatePendingTwoFASetup. mild. apply mild_query. intros d. destruct (two_fas d !! _); [done|]. apply frame; [done..|cbn; lia].
Qed.
End factors.

(** Advancing the version of a user. *)
Lemma version_frame u d : let d' := (IncrementUserAuthVersionWithTx u d).2 in
  auth_flows d' = auth_flows d ∧ backup_codes d' = backup_codes d ∧ next_auth_id d' = next_auth_id d ∧ two_fas d' = two_fas d.
Proof.
  unfold IncrementUserAuthVersionWithTx, SetUserAuthVersionFence, mbind, M_bind, fail, gets, modify, mret, M_ret.
  repeat (case_match; simplify_eq/=); done.
Qed.

(** Changes inside a transaction. *)
Section steps.
Context (G : relation authdb) `{!PreOrder G}.
Context (frame : ∀ d d', auth_flows d' = auth_flows d → backup_codes d' = backup_codes d → next_auth_id d <= next_auth_id d' → G d d').

Definition steps {A} (m : M authdb A) : Prop := ∀ d, G d (m d).2.

Lemma steps_bind {A B} (m : M authdb A) (k : A → M authdb B) : steps m → (∀ a, steps (k a)) → steps (m ≫= k).
Proof. intros Hm Hk d. specialize (Hm d). unfold mbind, M_bind. destruct (m d) as [[a|e] d']; [|done]. cbn in Hm. etrans; [done|apply Hk]. Qed.
Lemma steps_version u : steps (IncrementUserAuthVersionWithTx u).
Proof. intros d. destruct (version_frame u d) as (H1 & H2 & H3 & _). apply frame; [done..|lia]. Qed.
Lemma steps_factor {A} cond u e (k : TwoFA → M authdb A) : (∀ r, steps (k r)) → steps (with_factor cond u e k).
Proof. intros Hk d. unfold with_factor. destruct (two_fas d !! u) as [r|]; [|done]. destruct (cond r); [apply Hk|done]. Qed.
Lemma steps_two_fas f : steps (modify (λ d, d <| two_fas ::= f |>)).
Proof. intros d. by apply frame. Qed.
Lemma mild_transaction {A} c (m : M authdb A) : steps m → mild G (query (auth_tx c m)).
Proof. intros Hm. apply mild_query. intros d. apply transaction_step; [done|]. intros a d' E. specialize (Hm d). by rewrite E in Hm. Qed.

Context (deletes : ∀ u, steps (delete_backup_codes u)).

Lemma mild_delete_pending c t : mild G (DeletePendingTwoFASetup c t).
Proof.
  unfold DeletePendingTwoFASetup. mild. apply mild_transaction, steps_factor. intros r.
  apply steps_bind; [apply deletes|intros _; apply steps_two_fas].
Qed.
Lemma mild_disable c p u : mild G (DisableTwoFAWithAuthVersion c p u).
Proof.
  unfold DisableTwoFAWithAuthVersion. apply mild_bind; [|mild]. apply mild_transaction, steps_factor. intros r.
  apply steps_bind; [apply steps_version|intros _]. apply steps_bind; [apply deletes|intros _; apply steps_two_fas].
Qed.
Lemma mild_enable c p t : mild G (EnableWithAuthVersion c p t).
Proof.
  unfold EnableWithAuthVersion. mild. apply mild_transaction, steps_factor. intros r.
  apply steps_bind; [apply steps_version|intros _]. intros d. by apply frame.
Qed.
End steps.

(** ** Authentication flows *)

Section flows.
Context (h : string).

(** A flow that is not consumed can be used once. *)
Definition flow_open (d : authdb) : nat :=
  match auth_flows d !! h with Some f => if bool_decide (af_ConsumedAt f = None) then 1 else 0 | None => 0 end.
Definition flows_shrink (d d' : authdb) : Prop := (flow_open d' <= flow_open d)%nat.
#[local] Instance flows_shrink_preorder : PreOrder flows_shrink.
Proof. split; [intros d|intros d1 d2 d3]; unfold flows_shrink; lia. Qed.

Lemma same_flows d d' : auth_flows d' = auth_flows d → flows_shrink d d'.
Proof. intros E. unfold flows_shrink, flow_open. by rewrite E. Qed.

Definition flow_used (op : auth_op) (r : res (option Z)) : nat :=
  match op, r with
  | (OpConsume _ token _ | OpLogin _ token _ | OpTelegram _ token _ _ _ _), Ok _ => if decide (hash token = h) then 1 else 0
  | _, _ => 0
  end.
Definition flow_issued (op : auth_op) : nat :=
  match op with OpCreateFlow _ (Ok token) => if decide (hash token = h) then 1 else 0 | _ => 0 end.

Lemma mild_pays {A} (p : prog authdb A) cost n : mild flows_shrink p → (∀ r, (cost r <= n)%nat) → pays (λ _, True) flow_open cost n p.
Proof.
  intros Hp Hc. induction p as [r|k IH|X f k IH]; cbn in *; [done|intros z; by apply IH, Hp|]. destruct Hp as [H1 H2]. split.
  - intros d _. destruct (H1 d) as (_ & Hg & Hk); [done|]. split; [done|]. exists n. split; [unfold flows_shrink in Hg; lia|]. by apply IH.
  - intros msg. apply IH, H2.
Qed.

Lemma insert_flow_step k f d : (k = h → auth_flows d !! k = None → af_ConsumedAt f ≠ None) → auth_flows d !! k = None → flows_shrink d (insert_flow k f d).
Proof.
  intros Hf Hk. unfold flows_shrink, flow_open, insert_flow. cbn. destruct (decide (k = h)) as [->|Hne].
  - rewrite lookup_insert_eq, Hk. cbn. rewrite bool_decide_false; [lia|auto].
  - by rewrite lookup_insert_ne.
Qed.

Lemma claim_step p a e now d : flows_shrink d (ClaimExternalAuthAssertionWithTx hash p a e now d).2.
Proof.
  unfold ClaimExternalAuthAssertionWithTx. destruct (_ || _); [done|]. destruct (auth_flows d !! _) eqn:E; [done|]. by apply insert_flow_step.
Qed.
Lemma claim_mild c p a e : mild flows_shrink (ClaimExternalAuthAssertion hash c p a e).
Proof.
  unfold ClaimExternalAuthAssertion. mild. apply mild_query. intros d. apply transaction_step; [intros; by apply same_flows|].
  intros [] d' E. pose proof (claim_step p a e a0 d) as Hc. by rewrite E in Hc.
Qed.

Lemma cleanup_mild now : mild flows_shrink (DeleteExpiredAuthFlows now).
Proof.
  apply mild_query. intros d. unfold flows_shrink, flow_open. cbn. destruct (auth_flows d !! h) as [f|] eqn:E.
  - destruct (filter _ _ !! h) as [f'|] eqn:E'; [|lia]. apply map_lookup_filter_Some in E' as [E' _]. rewrite E in E'. by injection E' as <-.
  - by rewrite (proj2 (map_lookup_filter_None _ _ _)) by (by left).
Qed.

Lemma create_pays input random : pays (λ _, True) flow_open (λ _, 0%nat) (flow_issued (OpCreateFlow input random)) (CreateAuthFlow hash input random).
Proof.
  unfold CreateAuthFlow. intros now. cbn. destruct (_ || _); [cbn; lia|]. destruct random as [token|e]; [|cbn; lia]. cbn. split; [|cbn; lia].
  intros d _. split; [done|]. exists 0%nat. split; [|destruct (auth_flows d !! hash token); cbn; lia].
  destruct (auth_flows d !! hash token) eqn:E; cbn; [lia|]. unfold flow_open, insert_flow. cbn. case_decide as Eh.
  - subst h. rewrite lookup_insert_eq, E. cbn. lia.
  - rewrite lookup_insert_ne by done. lia.
Qed.

Lemma flow_transaction_pays {A} c (m : M authdb A) cost : (∀ e, cost (Err e) = 0%nat) →
  (∀ d a d', m d = (Ok a, d') → (flow_open d' + cost (Ok a) <= flow_open d)%nat) → pays (λ _, True) flow_open cost 0 (query (auth_tx c m)).
Proof.
  intros He Hm. split; [|intros msg; cbn; rewrite He; lia]. intros d _. split; [done|]. unfold auth_tx. specialize (Hm d).
  destruct (m d) as [[a|e] d'] eqn:E; [destruct c|]; cbn [fst snd].
  - exists (cost (Ok a)). specialize (Hm a d' eq_refl). split; [lia|cbn; lia].
  - exists 0%nat. cbn. rewrite He. split; [done|lia].
  - exists 0%nat. cbn. rewrite He. split; [done|lia].
Qed.

(** A consumption pays for itself, if its action opens no flow. *)
Lemma consume_action_pays c token m action : (∀ f d, flows_shrink d (action f d).2) →
  pays (λ _, True) flow_open (λ r, match r with Ok _ => if decide (hash token = h) then 1 else 0 | Err _ => 0 end)%nat 0
  (ConsumeAuthFlowWithAction hash c token m action).
Proof.
  intros Hact. unfold ConsumeAuthFlowWithAction. destruct (_ || _); [cbn; lia|]. intros now. apply flow_transaction_pays; [done|].
  intros d a d'. unfold consumeTx, applyAuthFlowMatch. destruct (auth_flows d !! hash token) as [f|] eqn:E; [|done]. destruct (_ && _); [|done].
  destruct (bool_decide _) eqn:Ec; [done|]. destruct (negb _); [done|]. set (f' := f <| af_ConsumedAt := Some now |>).
  set (d1 := d <| auth_flows ::= <[hash token := f']> |>). unfold mbind, M_bind. specialize (Hact f' d1). destruct (action f' d1) as [[[]|e] d2]; [|done].
  intros [= <- <-]. cbn [snd] in Hact. unfold flows_shrink in Hact. etrans; [apply Nat.add_le_mono_r, Hact|]. clear Hact. unfold flow_open, d1. cbn. case_decide as Eh.
  - subst h. rewrite lookup_insert_eq, E. cbn. apply bool_decide_eq_false, dec_stable in Ec. by rewrite Ec.
  - rewrite lookup_insert_ne by done. lia.
Qed.
Lemma consume_pays c token m : pays (λ _, True) flow_open (λ r, match r with Ok _ => if decide (hash token = h) then 1 else 0 | Err _ => 0 end)%nat 0
  (ConsumeAuthFlow hash c token m).
Proof. by apply consume_action_pays. Qed.
Lemma telegram_step a e now bound f d : flows_shrink d (telegram_action hash a e now bound f d).2.
Proof.
  unfold telegram_action, try, lift_res, gets, fail, mbind, M_bind. pose proof (claim_step AuthFlowPurposeTelegramAssertion a e now d) as Hc.
  destruct (ClaimExternalAuthAssertionWithTx _ _ _ _ _ d) as [[[]|err] d1]; cbn [snd] in *; [|by destruct (_ || _)].
  destruct (accounts d1 !! _) as [user|]; [|done]. destruct (ac_Deleted user); [done|]. by destruct (negb _).
Qed.

Lemma codes_step {A} (m : M authdb A) : (∀ d, auth_flows (m d).2 = auth_flows d) → steps flows_shrink m.
Proof. intros Hm d. by apply same_flows. Qed.
Lemma flows_delete_codes u : steps flows_shrink (delete_backup_codes u).
Proof. by apply codes_step. Qed.
Lemma flows_replace_codes u hs : steps flows_shrink (replaceBackupCodesWithTx u hs).
Proof.
  unfold replaceBackupCodesWithTx. apply steps_bind; [apply _|by apply codes_step|intros _].
  induction hs as [|[x|e] hs IH]; cbn [insert_codes]; [by apply codes_step| |by apply codes_step].
  apply steps_bind; [apply _|by apply codes_step|done].
Qed.

Lemma flows_frame d d' : auth_flows d' = auth_flows d → backup_codes d' = backup_codes d → next_auth_id d <= next_auth_id d' → flows_shrink d d'.
Proof. intros E _ _. by apply same_flows. Qed.
#[local] Hint Resolve flows_frame flows_delete_codes flows_replace_codes flows_shrink_preorder : mild.
#[local] Hint Resolve mild_GetTwoFAByUserId mild_code_failed mild_code_passed mild_IsLocked mild_totp mild_find_account mild_GetAuthFlow
  mild_setup mild_reset mild_delete_pending mild_disable mild_enable claim_mild cleanup_mild : mild.

Lemma flows_backup_code u code : mild flows_shrink (ValidateBackupCode matches upper u code).
Proof.
  unfold ValidateBackupCode. mild. apply mild_query. intros d. apply same_flows. unfold use_code.
  by repeat case_match.
Qed.
#[local] Hint Resolve flows_backup_code : mild.
Lemma flows_backup t code : mild flows_shrink (ValidateBackupCodeAndUpdateUsage matches upper t code).
Proof. unfold ValidateBackupCodeAndUpdateUsage. mild. Qed.
#[local] Hint Resolve flows_backup : mild.
Lemma flows_check_code t code : mild flows_shrink (check_code totp matches upper t code).
Proof. unfold check_code. mild. Qed.
Lemma flows_code_transactions c p u hs : mild flows_shrink (CreatePendingTwoFASetupBackupCodes c u hs) ∧ mild flows_shrink (ReplaceBackupCodesWithAuthVersion c p u hs).
Proof.
  split.
  - apply mild_transaction, steps_factor; auto with mild.
  - apply mild_bind; [|intros _; apply mild_ret]. apply mild_transaction, steps_factor; [auto with mild..|]. intros r.
    apply steps_bind; [auto with mild|apply steps_version; auto with mild|auto with mild].
Qed.

Lemma pays_attempt {A} (p : prog authdb A) (cost : res (res A) → nat) n :
  pays (λ _, True) flow_open (λ r, cost (Ok r)) n p → pays (λ _, True) flow_open cost n (attempt p).
Proof.
  revert n. induction p as [r|k IH|X f k IH]; intros n Hp; cbn in *; [done|auto|]. destruct Hp as [H1 H2]. split; [|auto].
  intros d Hd. destruct (H1 d Hd) as (? & n' & ? & ?). eauto.
Qed.

(** A part that leaves flows alone, before one that pays. *)
Lemma pays_after {A B} (p : prog authdb A) (k : A → prog authdb B) cost :
  mild flows_shrink p → (∀ a, pays (λ _, True) flow_open cost 0 (k a)) → (∀ e, cost (Err e) = 0%nat) → pays (λ _, True) flow_open cost 0 (p ≫= k).
Proof.
  intros Hp Hk He. apply (pays_bind _ _ (λ _, 0%nat)); [by apply mild_pays|intros a n _|done]. apply (pays_mono _ _ _ 0); [lia|apply Hk].
Qed.

Lemma login_pays c token code : pays (λ _, True) flow_open (λ r, match r with Ok _ => if decide (hash token = h) then 1 else 0 | Err _ => 0 end)%nat 0
  (Verify2FALogin hash totp matches upper decode c token code).
Proof.
  unfold Verify2FALogin. apply pays_after; [apply mild_attempt; auto with mild| |done]. intros [flow|e]; [|cbn; lia].
  apply pays_after; [apply mild_attempt; auto with mild| |done]. intros [user|e]; [|cbn; lia]. destruct (negb _); [cbn; lia|].
  destruct (decode _) as [version|]; [|cbn; lia]. destruct (_ || _); [cbn; lia|]. apply pays_after; [auto with mild| |done].
  intros [twoFA|]; [|cbn; lia]. destruct (negb _); [cbn; lia|]. apply pays_after; [apply flows_check_code| |done].
  intros valid. destruct (negb valid); [cbn; lia|].
  apply (pays_bind _ _ (λ r, match r with Ok (Ok _) => if decide (hash token = h) then 1 else 0 | _ => 0 end)%nat); [|intros [f|e] n Hn; cbn in *; lia|done].
  apply pays_attempt. apply (pays_mono _ _ _ 0); [lia|]. apply consume_pays.
Qed.

Lemma telegram_pays c token a e session bound : pays (λ _, True) flow_open (λ r, match r with Ok _ => if decide (hash token = h) then 1 else 0 | Err _ => 0 end)%nat 0
  (TelegramBind hash c token a e session bound).
Proof.
  unfold TelegramBind. apply pays_after; [auto with mild| |done]. intros flow. apply pays_after; [apply mild_ret| |done]. intros _.
  apply pays_after; [apply mild_clock| |done]. intros now. apply consume_action_pays. apply telegram_step.
Qed.

Lemma pays_map {A} (p : prog authdb A) (f : A → option Z) cost cost' n : pays (λ _, True) flow_open cost n p →
  (∀ a, (cost' (Ok (f a)) <= cost (Ok a))%nat) → (∀ e, cost' (Err e) = 0%nat) → pays (λ _, True) flow_open cost' n (a ← p; mret (f a)).
Proof. intros Hp Hc He. apply (pays_bind _ _ cost); [done|intros a n' Hn; cbn|done]. specialize (Hc a). lia. Qed.

Lemma auth_op_pays op : pays (λ _, True) flow_open (flow_used op) (flow_issued op) (auth_prog op).
Proof.
  destruct op; cbn [auth_prog flow_issued];
    try (eapply (pays_map _ _ (λ _, 0%nat)); [apply mild_pays; [solve [auto with mild]|done]|done|done]).
  - eapply pays_map; [apply create_pays|done|done].
  - eapply pays_map; [apply consume_pays|done|done].
  - eapply pays_map; [apply telegram_pays|done|done].
  - eapply pays_map; [apply login_pays|done|done].
  - eapply (pays_map _ _ (λ _, 0%nat)); [apply mild_pays; [apply (flows_code_transactions _ (Ok tt))|done]|done|done].
  - eapply (pays_map _ _ (λ _, 0%nat)); [apply mild_pays; [apply flows_code_transactions|done]|done|done].
Qed.

(** C36: an authentication flow is used once: whatever the interleaving of all
    operations, the consumptions (with or without an action), the logins and
    the Telegram bindings that succeed with a token are no more than its open
    row at the start and the flows created with it. *)
Theorem auth_flow_used_once acts d now :
  (spent flow_used (run_actions auth_prog acts (MkConfig d now [])) <= flow_open d + sum_list_with flow_issued (spawned acts))%nat.
Proof.
  apply (interleaving_pays auth_prog (λ _, True) flow_open flow_used flow_issued).
  - apply still_pays.
  - split; [done|]. exists []. split; [cbn; lia|constructor].
  - apply Forall_true. apply auth_op_pays.
Qed.
End flows.

(** ** Backup codes *)

Section codes.
Context (u : Z) (c : string).

(** A code the user can still use: a row that is unused and matches. *)
Definition usable_code (r : TwoFABackupCode) : bool := unused_code u r && matches c (bc_CodeHash r).
Definition usable_in (m : gmap Z TwoFABackupCode) : nat := size (filter (λ e, usable_code e.2 = true) m).
Definition usable_codes (d : authdb) : nat := usable_in (backup_codes d).

(** Ids are issued in order, and a row keeps its user and its hash. *)
Definition ids_issued (d : authdb) : Prop := ∀ id r, backup_codes d !! id = Some r → id < next_auth_id d.
Definition codes_move (d d' : authdb) : Prop :=
  next_auth_id d <= next_auth_id d' ∧ (∀ id r', backup_codes d' !! id = Some r' → id < next_auth_id d →
    ∃ r, backup_codes d !! id = Some r ∧ bc_UserId r' = bc_UserId r ∧ bc_CodeHash r' = bc_CodeHash r) ∧
  (ids_issued d → ids_issued d').
#[local] Instance codes_move_preorder : PreOrder codes_move.
Proof.
  split; [intros d; split_and!; [lia|eauto|done]|]. intros d1 d2 d3 (A1 & A2 & A3) (B1 & B2 & B3). split_and!; [lia| |auto].
  intros id r3 H3 Hlt. destruct (B2 id r3 H3) as (r2 & H2 & E1 & E2); [lia|]. destruct (A2 id r2 H2 Hlt) as (r1 & H1 & E3 & E4).
  exists r1. split_and!; [done|congruence..].
Qed.
Definition codes_shrink (d d' : authdb) : Prop := codes_move d d' ∧ (usable_codes d' <= usable_codes d)%nat.
#[local] Instance codes_shrink_preorder : PreOrder codes_shrink.
Proof. split; [intros d; by split|]. intros d1 d2 d3 [A1 A2] [B1 B2]. split; [by etrans|lia]. Qed.

Lemma codes_same d d' : backup_codes d' = backup_codes d → next_auth_id d <= next_auth_id d' → codes_shrink d d'.
Proof.
  intros E Hn. split; [|unfold usable_codes; by rewrite E]. split_and!; [done|rewrite E; eauto|].
  intros Hi id r Hr. rewrite E in Hr. specialize (Hi id r Hr). lia.
Qed.
Lemma codes_frame d d' : auth_flows d' = auth_flows d → backup_codes d' = backup_codes d → next_auth_id d <= next_auth_id d' → codes_shrink d d'.
Proof. intros _. apply codes_same. Qed.

(** Changes of rows. *)
Lemma usable_insert k r m : (usable_in (<[k := r]> m) <= usable_in m + (if usable_code r then 1 else 0))%nat.
Proof.
  unfold usable_in. destruct (usable_code r) eqn:E.
  - rewrite map_filter_insert_True by done. rewrite map_size_insert. case_match; unfold id; lia.
  - rewrite map_filter_insert_False, map_filter_delete, map_size_delete by (cbn; by rewrite E). case_match; unfold id; lia.
Qed.
Lemma usable_use id r r' m : m !! id = Some r → usable_code r = true → usable_code r' = false → (usable_in (<[id := r']> m) + 1 <= usable_in m)%nat.
Proof.
  intros Hm Hr Hr'. unfold usable_in. rewrite map_filter_insert_False, map_filter_delete by (cbn; by rewrite Hr').
  rewrite map_size_delete_Some by (exists r; by apply map_lookup_filter_Some).
  enough (size (filter (λ e, usable_code e.2 = true) m) ≠ 0%nat) by lia. apply (map_size_ne_0_lookup_2 _ id). exists r. by apply map_lookup_filter_Some.
Qed.
Lemma usable_sub m m' : (∀ id r, m' !! id = Some r → usable_code r = true → m !! id = Some r) → (usable_in m' <= usable_in m)%nat.
Proof. intros Hm. apply map_subseteq_size, map_filter_strong_subseteq_ext. naive_solver. Qed.

Lemma codes_delete v : steps codes_shrink (delete_backup_codes v).
Proof.
  intros d. split; cbn.
  - split_and!; [done| |]; cbn.
    + intros id r Hr _. apply map_lookup_filter_Some in Hr as [Hr _]. eauto.
    + intros Hi id r Hr. cbn in Hr. apply map_lookup_filter_Some in Hr as [Hr _]. by apply (Hi id r).
  - apply usable_sub. intros id r Hr _. by apply map_lookup_filter_Some in Hr as [Hr _].
Qed.

Lemma codes_retire v : steps codes_shrink (modify (λ d, d <| backup_codes ::= fmap (λ r, if bc_UserId r =? v then r <| bc_Deleted := true |> else r) |>)).
Proof.
  intros d. split; cbn.
  - split_and!; [done| |]; cbn.
    + intros id r Hr _. rewrite lookup_fmap in Hr. destruct (backup_codes d !! id) as [r0|] eqn:E; [|done]. injection Hr as <-.
      exists r0. by destruct (_ =? v).
    + intros Hi id r Hr. cbn in Hr. rewrite lookup_fmap in Hr. destruct (backup_codes d !! id) as [r0|] eqn:E; [|done]. by apply (Hi id r0).
  - apply usable_sub. intros id r Hr Hu. cbn in Hr. rewrite lookup_fmap in Hr. destruct (backup_codes d !! id) as [r0|] eqn:E; [|done]. injection Hr as <-.
    destruct (_ =? v); [|done]. exfalso. unfold usable_code, unused_code in Hu. cbn in Hu. by rewrite !andb_false_r in Hu.
Qed.

(** The codes among new ones that match. *)
Definition matching (v : Z) (hs : list (res string)) : nat :=
  if v =? u then length (filter (λ h, match h with Ok x => matches c x | Err _ => false end = true) hs) else 0.

Lemma codes_insert v x d : codes_move d (d <| backup_codes ::= <[next_auth_id d := MkBackupCode v x false None false]> |> <| next_auth_id ::= Z.succ |>).
Proof.
  split_and!; cbn; [lia| |].
  - intros id r Hr Hlt. rewrite lookup_insert_ne in Hr by lia. eauto.
  - intros Hi id r Hr. unfold Z.succ. cbn in *. destruct (decide (next_auth_id d = id)) as [<-|Hne]; [lia|].
    rewrite lookup_insert_ne in Hr by done. specialize (Hi id r Hr). lia.
Qed.

Lemma insert_codes_moves v hs d : codes_move d (insert_codes v hs d).2 ∧ (usable_codes (insert_codes v hs d).2 <= usable_codes d + matching v hs)%nat.
Proof.
  revert d. induction hs as [|[x|e] hs IH]; intros d; cbn [insert_codes]; [split; [done|cbn; lia]| |split; [done|cbn; lia]].
  unfold mbind, M_bind, modify. set (d1 := d <| backup_codes ::= _ |> <| next_auth_id ::= Z.succ |>). destruct (IH d1) as [H1 H2].
  split; [etrans; [apply (codes_insert v x)|exact H1]|]. etrans; [exact H2|].
  pose proof (usable_insert (next_auth_id d) (MkBackupCode v x false None false) (backup_codes d)) as Hu.
  change (usable_codes d1) with (usable_in (<[next_auth_id d := MkBackupCode v x false None false]> (backup_codes d))).
  change (usable_codes d) with (usable_in (backup_codes d)). unfold matching in *. unfold usable_code, unused_code in Hu. cbn in Hu.
  clear IH H1 H2.
  destruct (v =? u); [|cbn in Hu; lia]. rewrite filter_cons. destruct (matches c x); cbn in Hu; [rewrite decide_True by done|rewrite decide_False by done];
    cbn [length]; lia.
Qed.

Lemma replace_moves v hs d : codes_move d (replaceBackupCodesWithTx v hs d).2 ∧ (usable_codes (replaceBackupCodesWithTx v hs d).2 <= usable_codes d + matching v hs)%nat.
Proof.
  unfold replaceBackupCodesWithTx. destruct (codes_retire v d) as [H1 H2]. unfold mbind, M_bind, modify in *. cbn [snd] in *.
  set (d1 := d <| backup_codes ::= _ |>) in *. destruct (insert_codes_moves v hs d1) as [H3 H4]. split; [by etrans|lia].
Qed.

Abbreviation code_earns := (earns ids_issued codes_move usable_codes).

Lemma mild_earns {A} (p : prog authdb A) cost P n : mild codes_shrink p → (∀ r, (cost r <= n)%nat) → code_earns cost P n p.
Proof.
  intros Hp Hc. apply (earns_knows _ _ _ _ P (λ _, True)); [done|]. clear P. induction p as [r|k IH|X f k IH]; cbn in *; [done|intros z; by apply IH, Hp|].
  destruct Hp as [H1 H2]. split; [|intros msg; apply IH, H2]. intros d HW _. destruct (H1 d) as (_ & [Hm Hs] & Hk); [done|].
  split_and!; [by apply Hm|done|]. exists n, (λ _, True). split_and!; [lia|done|done|by apply IH].
Qed.

Lemma use_code_step id now d : codes_shrink d (use_code id now d).2.
Proof.
  unfold use_code. destruct (backup_codes d !! id) as [r|] eqn:E; [|done]. destruct (negb (bc_IsUsed r) && _) eqn:Eu; [|done]. split.
  - split_and!; cbn; [done| |].
    + intros k r' Hr' _. destruct (decide (k = id)) as [->|Hne]; [|rewrite lookup_insert_ne in Hr' by done; eauto].
      rewrite lookup_insert_eq in Hr'. injection Hr' as <-. eauto.
    + intros Hi k r' Hr'. cbn in *. destruct (decide (k = id)) as [->|Hne]; [by apply (Hi id r)|rewrite lookup_insert_ne in Hr' by done; by apply (Hi k r')].
  - pose proof (usable_insert id (r <| bc_IsUsed := true |> <| bc_UsedAt := Some now |>) (backup_codes d)) as Hu.
    unfold usable_code, unused_code in Hu. cbn in Hu. rewrite !andb_false_r in Hu. cbn in Hu. unfold usable_codes. cbn. lia.
Qed.

(** The one place where a code is used. *)
Definition validated (v : Z) (code : string) (r : res bool) : nat :=
  match r with
  | Ok true => if decide (v = u ∧ valid_backup_code upper code = true ∧ NormalizeBackupCode upper code = c) then 1 else 0
  | _ => 0
  end.

Lemma validate_earns v code : code_earns (validated v code) (λ _, True) 0 (ValidateBackupCode matches upper v code).
Proof.
  unfold ValidateBackupCode. destruct (negb _); [cbn; lia|]. split; [|cbn; lia]. intros d HW _. split_and!; [done..|]. unfold prog_mbind. cbn [fst snd gets prog_bind query].
  exists 0%nat. destruct (list_find (λ e, matches (NormalizeBackupCode upper code) (bc_CodeHash e.2) = true) (unused_codes v d)) as [[i [id r]]|] eqn:Ef; [|exists (λ _, True); split_and!; [lia|done|done|cbn; lia]].
  apply list_find_Some in Ef as (Hi & Hmatch & _). apply list_elem_of_lookup_2, list_elem_of_filter in Hi as [Hun Hin]. apply elem_of_map_to_list in Hin.
  exists (λ d, id < next_auth_id d ∧ ∀ r', backup_codes d !! id = Some r' → bc_UserId r' = bc_UserId r ∧ bc_CodeHash r' = bc_CodeHash r).
  split; [lia|]. split; [|split].
  - intros d1 d2 (M1 & M2 & _) [K1 K2]. split; [lia|]. intros r' Hr'. destruct (M2 id r' Hr' K1) as (r1 & Hr1 & E1 & E2). destruct (K2 r1 Hr1). split; congruence.
  - split; [by apply (HW id r)|]. intros r' Hr'. cbn in Hr'. rewrite Hin in Hr'. by injection Hr' as <-.
  - intros now. split; [|cbn; lia]. intros d1 HW1 [_ K]. destruct (use_code_step id now d1) as [Hm Hs]. split_and!; [by apply Hm|done|].
    unfold use_code in *. destruct (backup_codes d1 !! id) as [r1|] eqn:E1; [|exists 0%nat, (λ _, True); split_and!; [cbn; lia|done|done|cbn; lia]].
    destruct (negb (bc_IsUsed r1) && negb (bc_Deleted r1)) eqn:Eu; [|exists 0%nat, (λ _, True); split_and!; [cbn; lia|done|done|cbn; lia]].
    exists (validated v code (Ok true)), (λ _, True). split_and!; [|done|done|cbn; lia]. cbn [fst snd validated]. unfold usable_codes. cbn [backup_codes upd].
    case_decide as Ed; [|unfold usable_codes in Hs; cbn in *; lia]. destruct Ed as (Ev & _ & Ec). cbn in Hmatch. rewrite Ec in Hmatch. destruct (K r1 eq_refl) as [Eu1 Eh].
    rewrite Nat.add_0_r. apply (usable_use id r1); [done| |].
    + unfold usable_code, unused_code in *. cbn in *. rewrite Eu1, Eh, Hmatch. apply andb_true_iff in Eu as [-> ->].
      apply andb_true_iff in Hun as [Hun _]. apply andb_true_iff in Hun as [Hun _]. rewrite Ev in Hun. by rewrite Hun.
    + unfold usable_code, unused_code. cbn. by rewrite !andb_false_r.
Qed.

(** Direct validations and logins with the code. *)
Definition code_used (op : auth_op) (r : res (option Z)) : nat :=
  match op, r with
  | (OpBackup _ code | OpLogin _ _ code), Ok (Some v) => validated v code (Ok true)
  | _, _ => 0
  end.
Definition codes_issued (op : auth_op) : nat :=
  match op with OpPendingCodes _ v hs | OpReplaceCodes _ _ v hs => matching v hs | _ => 0 end.

#[local] Hint Resolve codes_frame codes_delete codes_shrink_preorder codes_same : mild.
#[local] Hint Resolve mild_GetTwoFAByUserId mild_code_failed mild_code_passed mild_IsLocked mild_totp mild_find_account mild_GetAuthFlow
  mild_setup mild_reset mild_delete_pending mild_disable mild_enable mild_IncrementFailedAttempts : mild.

Lemma codes_flow_statement {A} (m : M authdb A) : (∀ d, backup_codes (m d).2 = backup_codes d ∧ next_auth_id d <= next_auth_id (m d).2) → mild codes_shrink (query m).
Proof. intros Hm. apply mild_query. intros d. destruct (Hm d). by apply codes_same. Qed.
Lemma codes_flow_transaction {A} b (m : M authdb A) : (∀ d, backup_codes (m d).2 = backup_codes d ∧ next_auth_id d <= next_auth_id (m d).2) →
  mild codes_shrink (query (auth_tx b m)).
Proof. intros Hm. apply mild_transaction; [auto with mild..|]. intros d. destruct (Hm d). by apply codes_same. Qed.

Lemma codes_create input random : mild codes_shrink (CreateAuthFlow hash input random).
Proof. unfold CreateAuthFlow. mild. apply codes_flow_statement. intros d. destruct (auth_flows d !! _); cbn; [done|split; [done|lia]]. Qed.
Lemma claim_codes p a e now d : let d' := (ClaimExternalAuthAssertionWithTx hash p a e now d).2 in backup_codes d' = backup_codes d ∧ next_auth_id d <= next_auth_id d'.
Proof. unfold ClaimExternalAuthAssertionWithTx. destruct (_ || _); [done|]. destruct (auth_flows d !! _); cbn; [done|split; [done|lia]]. Qed.
Lemma codes_claim b p a e : mild codes_shrink (ClaimExternalAuthAssertion hash b p a e).
Proof.
  unfold ClaimExternalAuthAssertion. mild. apply codes_flow_transaction. intros d. apply claim_codes.
Qed.
Lemma codes_consume b token m : mild codes_shrink (ConsumeAuthFlow hash b token m).
Proof.
  unfold ConsumeAuthFlow, ConsumeAuthFlowWithAction. mild. apply codes_flow_transaction. intros d. unfold consumeTx.
  destruct (applyAuthFlowMatch _ _ _ _); [|done]. destruct (bool_decide _); [done|]. by destruct (negb _).
Qed.
Lemma telegram_codes a e now bound f d : let d' := (telegram_action hash a e now bound f d).2 in backup_codes d' = backup_codes d ∧ next_auth_id d <= next_auth_id d'.
Proof.
  unfold telegram_action, try, lift_res, gets, fail, mbind, M_bind. pose proof (claim_codes AuthFlowPurposeTelegramAssertion a e now d) as Hc.
  destruct (ClaimExternalAuthAssertionWithTx _ _ _ _ _ d) as [[[]|err] d1]; cbn [snd] in *; [|by destruct (_ || _)].
  destruct (accounts d1 !! _) as [user|]; [|done]. destruct (ac_Deleted user); [done|]. by destruct (negb _).
Qed.
Lemma codes_telegram b token assertion e session bound : mild codes_shrink (TelegramBind hash b token assertion e session bound).
Proof.
  unfold TelegramBind, ConsumeAuthFlowWithAction. mild. apply codes_flow_transaction. intros d. unfold consumeTx.
  destruct (applyAuthFlowMatch _ _ _ _) as [f|]; [|done]. destruct (bool_decide _); [done|]. destruct (negb _); [done|].
  unfold mbind, M_bind. match goal with |- context [telegram_action hash assertion e ?z bound ?g ?d1] =>
    destruct (telegram_codes assertion e z bound g d1) as [E1 E2]; destruct (telegram_action hash assertion e z bound g d1) as [[[]|err] d2] end;
    cbn in *; by rewrite E1.
Qed.
Lemma codes_cleanup now : mild codes_shrink (DeleteExpiredAuthFlows now).
Proof. by apply codes_flow_statement. Qed.
Lemma codes_validate v code : mild codes_shrink (ValidateBackupCode matches upper v code).
Proof. unfold ValidateBackupCode. mild. apply mild_query. intros d. apply use_code_step. Qed.
#[local] Hint Resolve codes_create codes_claim codes_consume codes_cleanup codes_validate : mild.
Lemma codes_backup t code : mild codes_shrink (ValidateBackupCodeAndUpdateUsage matches upper t code).
Proof. unfold ValidateBackupCodeAndUpdateUsage. mild. Qed.
#[local] Hint Resolve codes_backup : mild.
Lemma codes_check t code : mild codes_shrink (check_code totp matches upper t code).
Proof. unfold check_code. mild. Qed.
#[local] Hint Resolve codes_check : mild.
(** A code in the format of backup codes is not read as a TOTP code. *)
Lemma length_chars l : String.length (String.string_of_list_ascii l) = length l.
Proof. induction l as [|a l IH]; cbn; [done|by rewrite IH]. Qed.
Lemma digits_ascii s acc n : digits acc s = Some n → is_ascii s = true.
Proof.
  revert acc. induction s as [|a s IH]; intros acc; [done|]. cbn. destruct (digit a) as [k|] eqn:E; [|done]. intros Hd. apply andb_true_iff. split; [|by apply (IH _ Hd)].
  unfold digit in E. destruct (_ && _) eqn:Eb in E; [|done]. apply andb_prop in Eb as [_ Eb]. apply Z.leb_le in Eb. apply Nat.leb_le. lia.
Qed.
Lemma Atoi_ascii s n : Atoi s = Some n → is_ascii s = true.
Proof.
  unfold Atoi. destruct s as [|a s]; [done|]. destruct a as [[] [] [] [] [] [] [] []]; cbv beta iota zeta;
    (destruct (bool_decide _); [done|]); match goal with |- context [digits 0 ?s] => destruct (digits 0 s) as [k|] eqn:E; [|done] end;
    intros _; apply digits_ascii in E; exact E.
Qed.
Lemma backup_code_not_numeric code : valid_backup_code upper code = true → ValidateNumericCode code = None.
Proof.
  unfold valid_backup_code, ValidateNumericCode. intros [Hlen Hall]%andb_prop. cbv zeta. destruct (Nat.eqb (String.length (remove_byte " "%char code)) 6) eqn:E6; [|done].
  destruct (Atoi (remove_byte " "%char code)) as [n|] eqn:En; [|done]. exfalso. apply Atoi_ascii in En. apply Nat.eqb_eq in E6, Hlen.
  unfold remove_byte in E6, En. rewrite length_chars in E6. unfold is_ascii in En. rewrite chars_of in En. unfold clean_code, ToUpper, remove_byte in Hlen, Hall.
  set (l := String.list_ascii_of_string code) in *.
  assert (is_ascii (String.string_of_list_ascii (filter (λ x, x ≠ "-"%char) l)) = true) as Ha.
  { unfold is_ascii. rewrite chars_of. apply forallb_forall. intros x Hx%list_elem_of_In. apply list_elem_of_filter in Hx as [_ Hx].
    destruct (decide (x = " "%char)) as [->|Hne]; [done|]. rewrite forallb_forall in En. apply En, list_elem_of_In, list_elem_of_filter. done. }
  rewrite Ha in Hlen, Hall. rewrite !chars_of in Hlen, Hall. rewrite length_chars, length_fmap in Hlen.
  assert (length (filter (λ x, x ≠ "-"%char) l) <= length (filter (λ x, x ≠ " "%char) l))%nat as Hle; [|unfold BackupCodeLength in Hlen; lia].
  clear -Hall. induction l as [|a l IH]; [done|]. rewrite !filter_cons in *. destruct (decide (a ≠ "-"%char)) as [Hd|Hd].
  - cbn in Hall. apply andb_prop in Hall as [Hc Hall]. rewrite decide_True by (intros ->; done). cbn. specialize (IH Hall). lia.
  - specialize (IH Hall). destruct (decide (a ≠ " "%char)); cbn; lia.
Qed.
Lemma codes_login b token code : mild codes_shrink (Verify2FALogin hash totp matches upper decode b token code).
Proof. unfold Verify2FALogin. mild. Qed.

Lemma backup_earns t code : code_earns (λ r, validated (tf_UserId t) code (match r with Ok r => Ok r.1 | Err e => Err e end)) (λ _, True) 0
  (ValidateBackupCodeAndUpdateUsage matches upper t code).
Proof.
  unfold ValidateBackupCodeAndUpdateUsage. apply (earns_bind _ _ _ (λ _, 0%nat)); [apply mild_earns; [auto with mild|done]| |done].
  intros locked n _. apply (earns_mono _ _ _ _ _ 0); [lia|]. destruct locked; [cbn; lia|].
  apply (earns_bind _ _ _ (validated (tf_UserId t) code)); [apply validate_earns| |done]. intros [] n' Hn.
  - apply mild_earns; [auto with mild|]. intros [[[] ?]|e]; cbn in *; lia.
  - unfold code_failed. apply (earns_bind _ _ _ (λ _, 0%nat)); [apply mild_earns; [apply mild_attempt; auto with mild|intros; lia]| |done].
    intros r n'' _. cbn. lia.
Qed.

Lemma check_earns t code : code_earns (validated (tf_UserId t) code) (λ _, True) 0 (check_code totp matches upper t code).
Proof.
  destruct (ValidateNumericCode code) as [digits|] eqn:En.
  - apply mild_earns; [auto with mild|]. intros [[]|e]; cbn; try lia. case_decide as Hd; [|lia]. destruct Hd as (_ & Hv & _).
    by rewrite (backup_code_not_numeric _ Hv) in En.
  - unfold check_code. rewrite En.
    change (code_earns (validated (tf_UserId t) code) (λ _, True) 0 (r ← ValidateBackupCodeAndUpdateUsage matches upper t code; mret r.1)).
    apply (earns_bind _ _ _ (λ r, validated (tf_UserId t) code (match r with Ok r => Ok r.1 | Err e => Err e end)));
      [apply backup_earns|intros a n Hn; exact Hn|done].
Qed.
Lemma factor_earns {A} v cost (k : option TwoFA → prog authdb A) : (∀ e, cost (Err e) = 0%nat) →
  (∀ t, tf_UserId t = v → code_earns cost (λ _, True) 0 (k (Some t))) → code_earns cost (λ _, True) 0 (k None) → code_earns cost (λ _, True) 0 (GetTwoFAByUserId v ≫= k).
Proof.
  intros He Hs Hn. unfold GetTwoFAByUserId. destruct (v =? 0); [cbn; rewrite He; lia|]. split; [|intros msg; cbn; rewrite He; lia].
  intros d HW _. split_and!; [done|done|]. exists 0%nat, (λ _, True). split_and!; [cbn; lia|done|done|]. cbn. unfold factor_of.
  destruct (two_fas d !! v) as [t|]; [|done]. destruct (Z.eqb_spec (tf_UserId t) v) as [E|]; [by apply Hs|done].
Qed.
(** A part that uses no code, before one that may. *)
Lemma earns_after {A B} (p : prog authdb A) (k : A → prog authdb B) cost n : mild codes_shrink p →
  (∀ a, code_earns cost (λ _, True) n (k a)) → (∀ e, cost (Err e) = 0%nat) → code_earns cost (λ _, True) n (p ≫= k).
Proof.
  intros Hp Hk He. apply (earns_bind _ _ _ (λ _, n)); [by apply mild_earns|intros a n' Hn|done]. by apply (earns_mono _ _ _ _ _ n).
Qed.
Lemma login_earns b token code : code_earns (λ r, match r with Ok r => validated r.1 code (Ok true) | Err _ => 0%nat end) (λ _, True) 0
  (Verify2FALogin hash totp matches upper decode b token code).
Proof.
  unfold Verify2FALogin. apply earns_after; [apply mild_attempt; auto with mild| |done]. intros [flow|e]; [|cbn; lia].
  apply earns_after; [apply mild_attempt; auto with mild| |done]. intros [user|e]; [|cbn; lia]. destruct (negb _); [cbn; lia|].
  destruct (decode _) as [version|]; [|cbn; lia]. destruct (_ || _); [cbn; lia|]. apply factor_earns; [done| |cbn; lia].
  intros t <-. destruct (negb _); [cbn; lia|]. apply (earns_bind _ _ _ (validated (tf_UserId t) code)); [apply check_earns| |done].
  intros valid n Hn. destruct valid; cbn [negb]; [|cbn; lia]. apply earns_after; [apply mild_attempt; auto with mild| |done].
  intros [f|e]; [exact Hn|cbn; lia].
Qed.

(** A transaction that issues codes. *)
Lemma issue_earns b (m : M authdb unit) cost n : (∀ r, cost r = 0%nat) →
  (∀ d, codes_move d (m d).2 ∧ (usable_codes (m d).2 <= usable_codes d + n)%nat) → code_earns cost (λ _, True) n (query (auth_tx b m)).
Proof.
  intros Hc Hm. split; [|intros msg; cbn; rewrite Hc; lia]. intros d HW _. destruct (Hm d) as [H1 H2].
  assert (codes_move d (auth_tx b m d).2 ∧ (usable_codes (auth_tx b m d).2 <= usable_codes d + n)%nat) as [H3 H4].
  { unfold auth_tx. destruct (m d) as [[a|e] d'] eqn:E; [destruct b|]; cbn [fst snd] in *; [done|..];
      (destruct (codes_same d (rolled_back d d')) as [R1 R2]; [done|done|split; [done|lia]]). }
  split_and!; [by apply H3|done|]. exists 0%nat, (λ _, True). split_and!; [lia|done|done|cbn; rewrite Hc; lia].
Qed.

Lemma factor_issues cond v e (k : TwoFA → M authdb unit) n : (∀ r d, codes_move d (k r d).2 ∧ (usable_codes (k r d).2 <= usable_codes d + n)%nat) →
  ∀ d, codes_move d (with_factor cond v e k d).2 ∧ (usable_codes (with_factor cond v e k d).2 <= usable_codes d + n)%nat.
Proof. intros Hk d. unfold with_factor. destruct (two_fas d !! v) as [r|]; [destruct (cond r); [apply Hk|]|]; split; [done|cbn; lia|done|cbn; lia]. Qed.

Lemma earns_map {A} (p : prog authdb A) (f : A → option Z) cost cost' n : code_earns cost (λ _, True) n p →
  (∀ a, (cost' (Ok (f a)) <= cost (Ok a))%nat) → (∀ e, cost' (Err e) = 0%nat) → code_earns cost' (λ _, True) n (a ← p; mret (f a)).
Proof. intros Hp Hc He. apply (earns_bind _ _ _ cost); [done|intros a n' Hn; cbn|done]. specialize (Hc a). lia. Qed.

Lemma auth_op_earns op : code_earns (code_used op) (λ _, True) (codes_issued op) (auth_prog op).
Proof.
  destruct op; cbn [auth_prog codes_issued];
    try (eapply (earns_map _ _ (λ _, 0%nat)); [apply mild_earns; [solve [auto using codes_telegram with mild]|done]|done|done]).
  - eapply earns_map; [apply login_earns|done|done].
  - eapply (earns_map _ _ (λ _, 0%nat)); [apply issue_earns; [done|]|done|done]. apply factor_issues. intros r. apply replace_moves.
  - eapply (earns_map _ _ (λ _, 0%nat)); [|done|done]. apply (earns_bind _ _ _ (λ _, 0%nat)); [|intros; cbn; lia|done].
    apply issue_earns; [done|]. apply factor_issues. intros r d. unfold mbind, M_bind.
    destruct (version_frame userId d) as (E1 & E2 & E3 & _). destruct (IncrementUserAuthVersionWithTx userId d) as [[n|e] d1]; cbn in *.
    + destruct (replace_moves userId hashes d1) as [R1 R2]. destruct (codes_same d d1) as [S1 S2]; [done|lia|]. split; [by etrans|lia].
    + destruct (codes_same d d1) as [S1 S2]; [done|lia|]. split; [done|lia].
  - eapply earns_map; [apply backup_earns|by intros [[] ?]|done].
Qed.

(** C37: a backup code is good for one use: whatever the interleaving of all
    operations, the direct validations of a code of a user and the logins with
    it that succeed are no more, together, than its unused rows at the start
    and the rows issued for it since. *)
Theorem backup_code_used_once acts d now : ids_issued d →
  (spent code_used (run_actions auth_prog acts (MkConfig d now [])) <= usable_codes d + sum_list_with codes_issued (spawned acts))%nat.
Proof.
  intros Hd. apply (interleaving_earns auth_prog ids_issued codes_move usable_codes code_used codes_issued).
  - intros dt d' Hd'. by split_and!.
  - split; [done|]. exists []. split; [cbn; lia|constructor].
  - apply Forall_true. apply auth_op_earns.
Qed.
End codes.
End safety.

(** ** Lockout *)

Section lockout.
Context (totp : string → string → Z → bool) (u : Z).

(** A request that loads the factor and checks a code. *)
Definition guess (code : string) : prog authdb bool :=
  found ← GetTwoFAByUserId u;
  match found with
  | Some t => r ← ValidateTOTPAndUpdateUsage totp t code; mret r.1
  | None => throw (refused "用户未启用2FA")
  end.

(** Guesses one after another, with the times of those whose code was looked at. *)
Definition guess_step (s : authdb * list Z) (g : Z * string) : authdb * list Z :=
  let '(d, tried) := s in
  match run_prog g.1 (guess g.2) d with (Ok _, d') => (d', tried ++ [g.1]) | (Err _, d') => (d', tried) end.
Definition guesses (d : authdb) (gs : list (Z * string)) : authdb * list Z := foldl guess_step (d, []) gs.

(** The codes that should be looked at: each of the first five, and then one
    whenever the lockout since the last one has passed. *)
Definition allowed (tried : list Z) (t : Z) : list Z :=
  match last tried with
  | Some a => if (MaxFailAttempts <=? Z.of_nat (length tried)) && (t <? a + LockoutDuration * second_ns) then tried else tried ++ [t]
  | None => tried ++ [t]
  end.
Definition schedule (times : list Z) : list Z := foldl allowed [] times.

Definition lock_inv (f : TwoFA) (s : authdb * list Z) : Prop :=
  two_fas s.1 !! u = Some (f <| tf_FailedAttempts := Z.of_nat (length s.2) |>
    <| tf_LockedUntil := if MaxFailAttempts <=? Z.of_nat (length s.2) then (λ a, a + LockoutDuration * second_ns) <$> last s.2 else None |>).

(** A wrong code while the factor is not locked. *)
Lemma failed_guess f code now d : u ≠ 0 → two_fas d !! u = Some f → tf_UserId f = u → tf_Id f ≠ 0 → ValidateTOTPCode totp (tf_Secret f) code now = false →
  let failed := tf_FailedAttempts f + 1 in
  run_prog now (guess code) d =
  if locked_at now (tf_LockedUntil f) then (Err account_locked, d)
  else (Ok false, set_row f (f <| tf_FailedAttempts := failed |> <| tf_LockedUntil :=
    if MaxFailAttempts <=? failed then Some (now + LockoutDuration * second_ns) else tf_LockedUntil f |>) d).
Proof.
  intros Hu Hf Eu Hid Hcode failed. unfold guess, GetTwoFAByUserId, factor_of. rewrite (proj2 (Z.eqb_neq u 0)) by done. cbn. rewrite Hf, (proj2 (Z.eqb_eq _ _) Eu). cbn.
  destruct (locked_at now (tf_LockedUntil f)) eqn:El; [done|]. cbn. rewrite Hcode. unfold code_failed, IncrementFailedAttempts.
  rewrite (proj2 (Z.eqb_neq (tf_Id f) 0)) by done. cbn. unfold row_of at 1. rewrite Eu, Hf, Z.eqb_refl. cbn. rewrite El. cbn.
  unfold count_failure, row_of. rewrite Eu, Hf, Z.eqb_refl, Z.eqb_refl, El. by cbn.
Qed.

Lemma guess_step_inv f g s : u ≠ 0 → tf_UserId f = u → tf_Id f ≠ 0 → ValidateTOTPCode totp (tf_Secret f) g.2 g.1 = false →
  lock_inv f s → lock_inv f (guess_step s g) ∧ (guess_step s g).2 = allowed s.2 g.1.
Proof.
  intros Hu Eu Hid Hcode Hrow. destruct s as [d tried], g as [t code]. unfold lock_inv in *. cbn [fst snd] in *. unfold guess_step.
  cbn [fst snd]. rewrite (failed_guess _ code t d Hu Hrow Eu Hid Hcode). cbn [tf_LockedUntil tf_FailedAttempts upd].
  assert (allowed tried t = if locked_at t (if MaxFailAttempts <=? Z.of_nat (length tried) then (λ a, a + LockoutDuration * second_ns) <$> last tried else None)
    then tried else tried ++ [t]) as Ea by (unfold allowed; destruct (last tried), (MaxFailAttempts <=? _); done).
  destruct (locked_at t _) eqn:El; cbn [fst snd]; (split; [|done]); [done|]. unfold set_row. cbn.
  rewrite Eu, lookup_insert_eq, last_snoc, length_app, Nat2Z.inj_add. change (Z.of_nat (length [t])) with 1.
  destruct (MaxFailAttempts <=? Z.of_nat (length tried) + 1) eqn:E; [done|]. apply Z.leb_gt in E. by rewrite (proj2 (Z.leb_gt _ _)) by lia.
Qed.

(** C38: wrong codes lock a factor: of wrong codes that come one after another
    for a factor without failures, exactly those are looked at that [schedule]
    allows, the first five, and from then on one whenever the lockout since
    the last one has passed. *)
Theorem wrong_codes_lock_out f d gs : u ≠ 0 → two_fas d !! u = Some f → tf_UserId f = u → tf_Id f ≠ 0 → tf_FailedAttempts f = 0 → tf_LockedUntil f = None →
  Forall (λ g, ValidateTOTPCode totp (tf_Secret f) g.2 g.1 = false) gs → (guesses d gs).2 = schedule gs.*1.
Proof.
  intros Hu Hf Eu Hid H0 Hn Hc. unfold guesses, schedule.
  assert (∀ s, lock_inv f s → (foldl guess_step s gs).2 = foldl allowed s.2 gs.*1) as Hrun.
  { clear Hf H0 Hn. induction Hc as [|g gs Hg _ IH]; intros s Hinv; [done|]. cbn.
    destruct (guess_step_inv f g s Hu Eu Hid Hg Hinv) as [Hinv' <-]. by apply IH. }
  apply (Hrun (d, [])). unfold lock_inv. cbn. rewrite Hf. f_equal. destruct f. cbn in *. by subst.
Qed.

(** What the schedule says: at least five codes of as many are looked at, and
    two that follow each other after the fourth are a lockout apart. *)
Lemma schedule_first times : (length times <= Z.to_nat MaxFailAttempts)%nat → schedule times = times.
Proof.
  unfold schedule. induction times as [|t times IH] using rev_ind; intros Hlen; [done|]. rewrite foldl_app, length_app in *. cbn in *. rewrite IH by lia.
  unfold allowed. destruct (last times); [|done]. rewrite (proj2 (Z.leb_gt _ _)); [done|]. unfold MaxFailAttempts in *. lia.
Qed.
Lemma schedule_gaps times i a b : schedule times !! i = Some a → schedule times !! S i = Some b → MaxFailAttempts - 1 <= Z.of_nat i →
  LockoutDuration * second_ns <= b - a.
Proof.
  unfold schedule. induction times as [|t times IH] using rev_ind; [done|]. rewrite foldl_app. cbn. set (tried := foldl allowed [] times) in *.
  unfold allowed. destruct (last tried) as [l|] eqn:El; [|by apply last_None in El; rewrite El; destruct i].
  destruct (_ && _) eqn:E; [done|]. intros Ha Hb Hi. apply lookup_app_Some in Hb as [Hb|[Hge Hb]].
  - rewrite lookup_app_l in Ha by (apply lookup_lt_Some in Hb; lia). by apply IH.
  - apply list_lookup_singleton_Some in Hb as [Hlen <-]. rewrite lookup_app_l in Ha by lia. rewrite last_lookup in El.
    replace (Init.Nat.pred (length tried)) with i in El by lia. rewrite Ha in El. injection El as ->.
    rewrite (proj2 (Z.leb_le _ _)) in E by lia. cbn in E. apply Z.ltb_ge in E. lia.
Qed.
End lockout.

(** ** Instances *)

(** One user with a factor and two backup codes, of which one is "BBBB-2222". *)
Definition factor_of_seven : TwoFA := MkTwoFA 1 7 "S" true 0 None None.
Definition auth_example : authdb :=
  MkAuthdb ∅ {[7 := factor_of_seven]} {[2 := MkBackupCode 7 "h:AAAA-1111" false None false; 3 := MkBackupCode 7 "h:BBBB-2222" false None false]}
    {[7 := MkAccount true 4 false]} ∅ 10.
Definition plain_hash (s : string) : string := "h:" +:+ s.
Definition plain_matches (code h : string) : bool := bool_decide (h = "h:" +:+ code).
Definition code_of_the_day (code secret : string) (now : Z) : bool := bool_decide (code = "123456").
Definition version_four (payload : string) : option Z := if bool_decide (payload = "v4") then Some 4 else None.
#[local] Abbreviation run_auth := (run_actions (auth_prog plain_hash code_of_the_day plain_matches (λ s, s) version_four)).

(** A validation and a login race with the same backup code: one succeeds. *)
Lemma backup_code_used_once_witness :
  let create := OpCreateFlow (MkFlowCreate AuthFlowPurposeTwoFALogin "" "" 7 "" "v4" 100) (Ok "tok") in
  let acts := [Spawn create; Spawn (OpLogin true "tok" "BBBB-2222"); Spawn (OpBackup factor_of_seven "bbbb2222")] ++ replicate 3 (Step 0) ++
    concat (replicate 20 [Step 1; Step 2])%nat in
  let c := run_auth acts (MkConfig auth_example 0 []) in
  spent (code_used (λ s, s) 7 "BBBB-2222") c = 1%nat ∧
  (spent (code_used (λ s, s) 7 "BBBB-2222") c <= usable_codes plain_matches 7 "BBBB-2222" auth_example + 0)%nat.
Proof.
  intros create acts c. split; [by vm_compute|].
  apply (backup_code_used_once plain_hash code_of_the_day plain_matches (λ s, s) version_four 7 "BBBB-2222" acts auth_example 0).
  intros id r Hr. cbn in Hr. cbn. apply lookup_insert_Some in Hr as [[<- _]|[_ Hr]]; [lia|]. apply lookup_singleton_Some in Hr as [<- _]. lia.
Defined.
(** A login alone uses the code up. *)
Lemma login_uses_code :
  let create := OpCreateFlow (MkFlowCreate AuthFlowPurposeTwoFALogin "" "" 7 "" "v4" 100) (Ok "tok") in
  let acts := [Spawn create; Spawn (OpLogin true "tok" "BBBB-2222")] ++ replicate 3 (Step 0) ++ replicate 30 (Step 1) in
  let c := run_auth acts (MkConfig auth_example 0 []) in
  spent (code_used (λ s, s) 7 "BBBB-2222") c = 1%nat ∧ usable_codes plain_matches 7 "BBBB-2222" (c_db c) = 0%nat.
Proof. by vm_compute. Qed.

Lemma wrong_codes_lock_out_witness :
  let times := (λ t, t * second_ns) <$> [0; 1; 2; 3; 4; 5; 200; 304; 305; 700] in
  let tried := (guesses code_of_the_day 7 auth_example ((λ t, (t, "000000")) <$> times)).2 in
  tried = (λ t, t * second_ns) <$> [0; 1; 2; 3; 4; 304; 700] ∧ tried = schedule times.
Proof.
  intros times tried. split; [by vm_compute|]. transitivity (schedule ((λ t : Z, (t, "000000")) <$> times).*1); [|by vm_compute].
  apply (wrong_codes_lock_out code_of_the_day 7 factor_of_seven auth_example ((λ t, (t, "000000")) <$> times)); try done.
  by repeat constructor.
Defined.

(** A request that loaded the factor before the lockout is not stopped by it:
    its code is looked at and, if right, ends the lockout. *)
Lemma stale_request_passes_lockout :
  let wrong := OpTOTP factor_of_seven "000000" in
  let five := concat ((λ i, Spawn wrong :: replicate 5 (Step i)) <$> [0; 1; 2; 3; 4])%nat in
  let c := run_auth five (MkConfig auth_example 0 []) in
  let c' := run_auth (Spawn (OpTOTP factor_of_seven "123456") :: replicate 5 (Step 5)) c in
  (tf_LockedUntil <$> two_fas (c_db c) !! 7) = Some (Some (LockoutDuration * second_ns)) ∧
  (c_procs c' !! 5%nat) = Some (OpTOTP factor_of_seven "123456", Ret (Ok (Some 7))) ∧
  (tf_LockedUntil <$> two_fas (c_db c') !! 7) = Some None.
Proof. by vm_compute. Qed.

(** Two requests race with the same flow and the right code: one logs in. *)
Lemma flow_logs_in_once :
  let create := OpCreateFlow (MkFlowCreate AuthFlowPurposeTwoFALogin "" "" 7 "" "v4" 100) (Ok "tok") in
  let login := OpLogin true "tok" "123 456" in
  let acts := [Spawn create; Spawn login; Spawn login] ++ replicate 3 (Step 0) ++ concat (replicate 20 [Step 1; Step 2])%nat in
  let c := run_auth acts (MkConfig auth_example 0 []) in
  spent (flow_used plain_hash (plain_hash "tok")) c = 1%nat ∧ (c_procs c).*2 = [Ret (Ok None); Ret (Ok (Some 7)); Ret (Err (refused "会话已过期，请重新登录"))].
Proof. vm_compute. by split. Qed.
