(* ===== verification/Store.v ===== *)
(** * The persistent state: SQL tables, Redis and the process state

    The tables are those of src/model: one record per GORM struct with the
    columns the quota and billing code reads or writes, keyed by primary (or
    unique) key.  Soft-deleted rows are outside every default GORM scope, so
    they are simply absent.  Redis is a map from key to string or hash; the
    scripts of src/model run on it in the monad [M redis].

    The process state [world] adds the in-memory batch queue of
    src/model/utils.go, the goroutines that still have to run, the clock, and
    an oracle: one entry per database transaction or Redis call, [Some msg]
    when that call fails with a driver error. *)

From S2P Require Import Prelude QuotaMath.

(** ** Rows *)

(** src/model/user.go *)
Record User := MkUser {
  u_Username : string; u_Group : string; u_Email : string; u_Setting : string;
  u_Role : Z; u_Status : Z; u_AuthVersion : Z;
  u_Quota : Z; u_UsedQuota : Z; u_RequestCount : Z;
  u_AffCode : string; u_AffQuota : Z; u_AffHistoryQuota : Z; u_AffFrozenQuota : Z;
  u_AffRebateRateBps : option Z; u_AffCodeEnabled : bool; u_AffInviteLimit : option Z;
  u_InviterId : Z; u_StripeCustomer : string; u_CreatedAt : Z
}.
#[global] Instance eta_User : Eta User := λ r,
  MkUser (u_Username r) (u_Group r) (u_Email r) (u_Setting r) (u_Role r) (u_Status r)
    (u_AuthVersion r) (u_Quota r) (u_UsedQuota r) (u_RequestCount r)
    (u_AffCode r) (u_AffQuota r) (u_AffHistoryQuota r) (u_AffFrozenQuota r)
    (u_AffRebateRateBps r) (u_AffCodeEnabled r) (u_AffInviteLimit r)
    (u_InviterId r) (u_StripeCustomer r) (u_CreatedAt r).

(** src/model/token.go *)
Record Token := MkToken {
  t_UserId : Z; t_Key : string; t_Status : Z; t_AccessedTime : Z; t_ExpiredTime : Z;
  t_UnlimitedQuota : bool; t_RemainQuota : Z; t_UsedQuota : Z
}.
#[global] Instance eta_Token : Eta Token := λ r,
  MkToken (t_UserId r) (t_Key r) (t_Status r) (t_AccessedTime r) (t_ExpiredTime r)
    (t_UnlimitedQuota r) (t_RemainQuota r) (t_UsedQuota r).

(** src/model/subscription.go *)
Record SubscriptionPlan := MkPlan {
  p_Title : string; p_QuotaResetPeriod : string; p_QuotaResetCustomSeconds : Z;
  p_TotalAmount : Z; p_AllowWalletOverflow : option bool;
  p_PriceAmount : float64; p_DurationUnit : string; p_DurationValue : Z; p_CustomSeconds : Z;
  p_Enabled : bool; p_AllowBalancePay : option bool; p_MaxPurchasePerUser : Z;
  p_UpgradeGroup : string; p_DowngradeGroup : string
}.
#[global] Instance eta_Plan : Eta SubscriptionPlan := λ r,
  MkPlan (p_Title r) (p_QuotaResetPeriod r) (p_QuotaResetCustomSeconds r)
    (p_TotalAmount r) (p_AllowWalletOverflow r)
    (p_PriceAmount r) (p_DurationUnit r) (p_DurationValue r) (p_CustomSeconds r)
    (p_Enabled r) (p_AllowBalancePay r) (p_MaxPurchasePerUser r)
    (p_UpgradeGroup r) (p_DowngradeGroup r).

Record UserSubscription := MkUserSubscription {
  s_UserId : Z; s_PlanId : Z; s_AmountTotal : Z; s_AmountUsed : Z;
  s_StartTime : Z; s_EndTime : Z; s_Status : string;
  s_LastResetTime : Z; s_NextResetTime : Z; s_AllowWalletOverflow : bool; s_UpdatedAt : Z;
  s_Source : string; s_UpgradeGroup : string; s_PrevUserGroup : string; s_DowngradeGroup : string;
  s_CreatedAt : Z
}.
#[global] Instance eta_UserSubscription : Eta UserSubscription := λ r,
  MkUserSubscription (s_UserId r) (s_PlanId r) (s_AmountTotal r) (s_AmountUsed r)
    (s_StartTime r) (s_EndTime r) (s_Status r) (s_LastResetTime r) (s_NextResetTime r)
    (s_AllowWalletOverflow r) (s_UpdatedAt r)
    (s_Source r) (s_UpgradeGroup r) (s_PrevUserGroup r) (s_DowngradeGroup r) (s_CreatedAt r).

Inductive preconsume_status := PcConsumed | PcRefunded.
#[global] Instance preconsume_status_eq_dec : EqDecision preconsume_status.
Proof. solve_decision. Defined.

Record SubscriptionPreConsumeRecord := MkPreConsumeRecord {
  pr_UserId : Z; pr_UserSubscriptionId : Z; pr_PreConsumed : Z;
  pr_Status : preconsume_status; pr_CreatedAt : Z; pr_UpdatedAt : Z
}.
#[global] Instance eta_PreConsumeRecord : Eta SubscriptionPreConsumeRecord := λ r,
  MkPreConsumeRecord (pr_UserId r) (pr_UserSubscriptionId r) (pr_PreConsumed r)
    (pr_Status r) (pr_CreatedAt r) (pr_UpdatedAt r).

(** src/model/billing_recovery.go: the string columns range over the
    constants of that file. *)
Inductive recovery_status :=
  | StatusActive | StatusSettlementPending | StatusRefundPending | StatusSettled | StatusRefunded.
Inductive preconsume_state := PreConsumePrepared | PreConsumeCommitted.
Inductive component_state := StatePending | StateCompleted.
Inductive recovery_component :=
  | ComponentFunding | ComponentExtra | ComponentToken
  | ComponentReserve (target : Z).          (* the string reserve:<target> *)
Inductive recovery_operation := OperationSettle | OperationRefund | OperationReserve.
Inductive billing_source := SourceWallet | SourceSubscription | SourceOther (s : string).

#[global] Instance recovery_status_eq_dec : EqDecision recovery_status.
Proof. solve_decision. Defined.
#[global] Instance preconsume_state_eq_dec : EqDecision preconsume_state.
Proof. solve_decision. Defined.
#[global] Instance component_state_eq_dec : EqDecision component_state.
Proof. solve_decision. Defined.
#[global] Instance recovery_component_eq_dec : EqDecision recovery_component.
Proof. solve_decision. Defined.
#[global] Instance recovery_operation_eq_dec : EqDecision recovery_operation.
Proof. solve_decision. Defined.
#[global] Instance billing_source_eq_dec : EqDecision billing_source.
Proof. solve_decision. Defined.

#[global] Instance recovery_component_countable : Countable recovery_component.
Proof.
  refine (inj_countable' (λ c, match c with
    | ComponentFunding => inl 0%nat | ComponentExtra => inl 1%nat
    | ComponentToken => inl 2%nat | ComponentReserve z => inr z end)
   (λ x, match x with
    | inl 0%nat => ComponentFunding | inl 1%nat => ComponentExtra
    | inl _ => ComponentToken | inr z => ComponentReserve z end) _).
  by intros [].
Defined.
#[global] Instance recovery_operation_countable : Countable recovery_operation.
Proof.
  refine (inj_countable' (λ c, match c with
    | OperationSettle => 0%nat | OperationRefund => 1%nat | OperationReserve => 2%nat end)
   (λ x, match x with
    | 0%nat => OperationSettle | 1%nat => OperationRefund | _ => OperationReserve end) _).
  by intros [].
Defined.

Record BillingRecovery := MkBillingRecovery {
  br_UserID : Z; br_TokenID : Z; br_SubscriptionID : Z; br_Source : billing_source;
  br_FundingAmount : Z; br_ExtraAmount : Z; br_TokenAmount : Z; br_TokenRequired : bool;
  br_SettlementDelta : Z; br_PreConsumeState : preconsume_state;
  br_FundingRefund : component_state; br_ExtraRefund : component_state; br_TokenRefund : component_state;
  br_FundingSettlement : component_state; br_TokenSettlement : component_state;
  br_Status : recovery_status; br_Attempts : Z; br_LastError : string;
  br_CreatedAt : Z; br_UpdatedAt : Z
}.
#[global] Instance eta_BillingRecovery : Eta BillingRecovery := λ r,
  MkBillingRecovery (br_UserID r) (br_TokenID r) (br_SubscriptionID r) (br_Source r)
    (br_FundingAmount r) (br_ExtraAmount r) (br_TokenAmount r) (br_TokenRequired r)
    (br_SettlementDelta r) (br_PreConsumeState r)
    (br_FundingRefund r) (br_ExtraRefund r) (br_TokenRefund r)
    (br_FundingSettlement r) (br_TokenSettlement r)
    (br_Status r) (br_Attempts r) (br_LastError r) (br_CreatedAt r) (br_UpdatedAt r).

Record BillingRecoveryAdjustment := MkAdjustment { adj_Amount : Z; adj_CreatedAt : Z }.

(** src/model/topup.go.  The status and provider columns are strings, as in
    the code.  Orders, codes and ledger rows are keyed by their unique column
    (trade_no, key, source_event_key). *)
Record TopUp := MkTopUp {
  tp_Id : Z; tp_UserId : Z; tp_Amount : Z; tp_Money : float64;
  tp_PaymentMethod : string; tp_PaymentProvider : string;
  tp_CreateTime : Z; tp_CompleteTime : Z; tp_Status : string; tp_AffiliateBaseQuota : Z
}.
#[global] Instance eta_TopUp : Eta TopUp := λ r,
  MkTopUp (tp_Id r) (tp_UserId r) (tp_Amount r) (tp_Money r) (tp_PaymentMethod r)
    (tp_PaymentProvider r) (tp_CreateTime r) (tp_CompleteTime r) (tp_Status r) (tp_AffiliateBaseQuota r).

(** src/model/subscription.go *)
Record SubscriptionOrder := MkOrder {
  so_Id : Z; so_UserId : Z; so_PlanId : Z; so_Money : float64;
  so_PaymentMethod : string; so_PaymentProvider : string; so_Status : string;
  so_CreateTime : Z; so_CompleteTime : Z; so_AffiliateBaseQuota : Z; so_ProviderPayload : string
}.
#[global] Instance eta_SubscriptionOrder : Eta SubscriptionOrder := λ r,
  MkOrder (so_Id r) (so_UserId r) (so_PlanId r) (so_Money r) (so_PaymentMethod r)
    (so_PaymentProvider r) (so_Status r) (so_CreateTime r) (so_CompleteTime r)
    (so_AffiliateBaseQuota r) (so_ProviderPayload r).

(** src/model/redemption.go.  A deleted code keeps its row, and with it its
    place in the unique index; [rd_Deleted] is [deleted_at IS NOT NULL]. *)
Record Redemption := MkRedemption {
  rd_Id : Z; rd_UserId : Z; rd_Status : Z; rd_Name : string; rd_Quota : Z;
  rd_CreatedTime : Z; rd_RedeemedTime : Z; rd_UsedUserId : Z; rd_ExpiredTime : Z; rd_Deleted : bool
}.
#[global] Instance eta_Redemption : Eta Redemption := λ r,
  MkRedemption (rd_Id r) (rd_UserId r) (rd_Status r) (rd_Name r) (rd_Quota r)
    (rd_CreatedTime r) (rd_RedeemedTime r) (rd_UsedUserId r) (rd_ExpiredTime r) (rd_Deleted r).

(** src/model/affiliate.go *)
Inductive affiliate_action := ActionAccrue | ActionSkip | ActionTransfer | ActionLegacySnapshot.
#[global] Instance affiliate_action_eq_dec : EqDecision affiliate_action.
Proof. solve_decision. Defined.
Record AffiliateLedger := MkLedger {
  al_UserId : Z; al_InviteeId : Z; al_Action : affiliate_action; al_SourceType : string;
  al_SourceId : Z; al_SourceTradeNo : string; al_BaseQuota : Z; al_RateBps : Z; al_RewardQuota : Z;
  al_Reason : string; al_FrozenUntil : Z; al_ThawedAt : Z;
  al_BalanceAfter : option Z; al_AvailableQuotaAfter : option Z;
  al_FrozenQuotaAfter : option Z; al_HistoryQuotaAfter : option Z
}.
#[global] Instance eta_AffiliateLedger : Eta AffiliateLedger := λ r,
  MkLedger (al_UserId r) (al_InviteeId r) (al_Action r) (al_SourceType r) (al_SourceId r)
    (al_SourceTradeNo r) (al_BaseQuota r) (al_RateBps r) (al_RewardQuota r) (al_Reason r)
    (al_FrozenUntil r) (al_ThawedAt r) (al_BalanceAfter r) (al_AvailableQuotaAfter r)
    (al_FrozenQuotaAfter r) (al_HistoryQuotaAfter r).

(** src/model/checkin.go, src/model/activity_claim.go: the reward, by user and
    date (user and activity). *)
Record Checkin := MkCheckin { ck_QuotaAwarded : Z; ck_CreatedAt : Z }.
Record ActivityClaim := MkClaim { ac_Reward : Z; ac_CreatedAt : Z }.

(** A plan without price or groups that lasts a month, and a subscription
    ordered from such a plan, for the examples. *)
Definition plan_with (title period : string) (seconds total : Z) : SubscriptionPlan :=
  MkPlan title period seconds total None (SpecFloat.S754_zero false) "month" 1 0 true None 0 "" "".
Definition subscription_with (user plan total used : Z) (overflow : bool) (start : Z) : UserSubscription :=
  MkUserSubscription user plan total used start 1800000000 "active" 0 0 overflow 0 "order" "" "" "" 0.

(** ** The database *)

Definition adjustment_key : Type := string * recovery_component * recovery_operation.

Record db := MkDB {
  users : gmap Z User;
  tokens : gmap Z Token;
  channels : gmap Z Z;                            (* used_quota per channel *)
  subscription_plans : gmap Z SubscriptionPlan;
  user_subscriptions : gmap Z UserSubscription;
  pre_consume_records : gmap string SubscriptionPreConsumeRecord;
  billing_recoveries : gmap string BillingRecovery;
  adjustments : gmap adjustment_key BillingRecoveryAdjustment;
  topups : gmap string TopUp;
  subscription_orders : gmap string SubscriptionOrder;
  redemptions : gmap string Redemption;
  affiliate_ledgers : gmap string AffiliateLedger;
  checkins : gmap (Z * string) Checkin;
  activity_claims : gmap (Z * string) ActivityClaim
}.
#[global] Instance eta_db : Eta db := λ r,
  MkDB (users r) (tokens r) (channels r) (subscription_plans r) (user_subscriptions r)
    (pre_consume_records r) (billing_recoveries r) (adjustments r)
    (topups r) (subscription_orders r) (redemptions r) (affiliate_ledgers r) (checkins r) (activity_claims r).

Definition empty_db : db := MkDB ∅ ∅ ∅ ∅ ∅ ∅ ∅ ∅ ∅ ∅ ∅ ∅ ∅ ∅.

(** ** SQL statements on a table with unique key *)

(** [UPDATE tbl SET set WHERE key = k AND cond]; returns [RowsAffected]. *)
Definition UPDATE {K R} `{Countable K} (tbl : db → gmap K R) `{!Upd tbl}
    (k : K) (cond : R → bool) (set : R → R) : M db Z := λ d,
  match tbl d !! k with
  | Some r => if cond r then (Ok 1, d <| tbl := <[k := set r]> (tbl d) |>) else (Ok 0, d)
  | None => (Ok 0, d)
  end.

(** [SELECT ... WHERE key = k] through [First]. *)
Definition FIRST {K R} `{Countable K} (tbl : db → gmap K R) (k : K) : M db R := λ d,
  match tbl d !! k with Some r => (Ok r, d) | None => (Err ErrRecordNotFound, d) end.

(** [INSERT] of a row; a duplicate key is a driver error. *)
Definition CREATE {K R} `{Countable K} (tbl : db → gmap K R) `{!Upd tbl} (k : K) (r : R) : M db unit := λ d,
  match tbl d !! k with
  | Some _ => (Err (ErrDriver "unique constraint violated"), d)
  | None => (Ok tt, d <| tbl := <[k := r]> (tbl d) |>)
  end.

(** [tx.Save]: write the whole row back. *)
Definition SAVE {K R} `{Countable K} (tbl : db → gmap K R) `{!Upd tbl} (k : K) (r : R) : M db unit := λ d,
  (Ok tt, d <| tbl := <[k := r]> (tbl d) |>).

(** ** Redis *)

Inductive rkey :=
  | KUser (id : Z)              (* user:<id> *)
  | KUserQuotaFence (id : Z)    (* quota:user:fence:<id> *)
  | KUserAuthFence (id : Z)     (* auth:user:fence:<id> *)
  | KUserAuthVersion (id : Z)   (* auth:user:version:<id> *)
  | KToken (key : string)       (* token:<hmac of key> *)
  | KTokenFence (key : string). (* token:fence:<hmac of key> *)
#[global] Instance rkey_eq_dec : EqDecision rkey.
Proof. solve_decision. Defined.
#[global] Instance rkey_countable : Countable rkey.
Proof.
  refine (inj_countable' (λ c, match c with
    | KUser i => inl (0%nat, i) | KUserQuotaFence i => inl (1%nat, i)
    | KUserAuthFence i => inl (2%nat, i) | KUserAuthVersion i => inl (3%nat, i)
    | KToken s => inr (0%nat, s) | KTokenFence s => inr (1%nat, s) end)
   (λ x, match x with
    | inl (0%nat, i) => KUser i | inl (1%nat, i) => KUserQuotaFence i
    | inl (2%nat, i) => KUserAuthFence i | inl (_, i) => KUserAuthVersion i
    | inr (0%nat, s) => KToken s | inr (_, s) => KTokenFence s end) _).
  by intros [].
Defined.

(** A Redis string: the decimal integers, and every other string. *)
Inductive rval := VInt (z : Z) | VStr (s : string).
#[global] Instance rval_eq_dec : EqDecision rval.
Proof. solve_decision. Defined.
Inductive rvalue := RString (v : rval) | RHash (h : gmap string rval).

Abbreviation redis := (gmap rkey rvalue).

Definition wrongtype {A} : M redis A := fail (ErrDriver "WRONGTYPE").
Definition EXISTS (k : rkey) : M redis bool := λ r, (Ok (bool_decide (is_Some (r !! k))), r).
Definition DEL (k : rkey) : M redis unit := λ r, (Ok tt, delete k r).
Definition SET (k : rkey) (v : rval) : M redis unit := λ r, (Ok tt, <[k := RString v]> r).
Definition GET (k : rkey) : M redis (option rval) := λ r,
  match r !! k with
  | None => (Ok None, r)
  | Some (RString v) => (Ok (Some v), r)
  | Some (RHash _) => wrongtype r
  end.
Definition HGETALL (k : rkey) : M redis (gmap string rval) := λ r,
  match r !! k with
  | None => (Ok ∅, r)
  | Some (RHash h) => (Ok h, r)
  | Some (RString _) => wrongtype r
  end.
Definition HGET (k : rkey) (f : string) : M redis (option rval) :=
  h ← HGETALL k; mret (h !! f).
Definition HSET (k : rkey) (fs : list (string * rval)) : M redis unit :=
  h ← HGETALL k; modify (insert k (RHash (list_to_map fs ∪ h))).
Definition HINCRBY (k : rkey) (f : string) (n : Z) : M redis unit :=
  h ← HGETALL k;
  match default (VInt 0) (h !! f) with
  | VInt z => modify (insert k (RHash (<[f := VInt (z + n)]> h)))
  | VStr _ => fail (ErrDriver "ERR hash value is not an integer")
  end.

(** Lua's [tonumber(v or '0')] and [tonumber(v)]. *)
Definition tonumber (v : option rval) : option Z :=
  match v with Some (VInt z) => Some z | _ => None end.
Definition tonumber_or_0 (v : option rval) : option Z :=
  match v with Some (VInt z) => Some z | None => Some 0 | Some (VStr _) => None end.

(** ** The process state *)

Inductive batch_type :=
  | BatchUpdateTypeUserQuota | BatchUpdateTypeTokenQuota | BatchUpdateTypeUsedQuota
  | BatchUpdateTypeChannelUsedQuota | BatchUpdateTypeRequestCount.
#[global] Instance batch_type_eq_dec : EqDecision batch_type.
Proof. solve_decision. Defined.

(** [batchUpdateStores]: one map per type. *)
Record batch := MkBatch {
  b_UserQuota : gmap Z Z; b_TokenQuota : gmap Z Z; b_UsedQuota : gmap Z Z;
  b_ChannelUsedQuota : gmap Z Z; b_RequestCount : gmap Z Z
}.
#[global] Instance eta_batch : Eta batch := λ r,
  MkBatch (b_UserQuota r) (b_TokenQuota r) (b_UsedQuota r) (b_ChannelUsedQuota r) (b_RequestCount r).

Definition empty_batch : batch := MkBatch ∅ ∅ ∅ ∅ ∅.

Definition batch_store (ty : batch_type) (b : batch) : gmap Z Z :=
  match ty with
  | BatchUpdateTypeUserQuota => b_UserQuota b
  | BatchUpdateTypeTokenQuota => b_TokenQuota b
  | BatchUpdateTypeUsedQuota => b_UsedQuota b
  | BatchUpdateTypeChannelUsedQuota => b_ChannelUsedQuota b
  | BatchUpdateTypeRequestCount => b_RequestCount b
  end.
Definition set_batch_store (ty : batch_type) (m : gmap Z Z) (b : batch) : batch :=
  match ty with
  | BatchUpdateTypeUserQuota => b <| b_UserQuota := m |>
  | BatchUpdateTypeTokenQuota => b <| b_TokenQuota := m |>
  | BatchUpdateTypeUsedQuota => b <| b_UsedQuota := m |>
  | BatchUpdateTypeChannelUsedQuota => b <| b_ChannelUsedQuota := m |>
  | BatchUpdateTypeRequestCount => b <| b_RequestCount := m |>
  end.

(** The goroutines started with [gopool.Go] by the quota code: cache deltas
    that run later. *)
Inductive task :=
  | TaskUserQuotaDelta (id delta : Z)
  | TaskTokenQuotaDelta (id : Z) (key : string) (delta : Z).

Record world := MkWorld {
  w_db : db; w_redis : redis; w_batch : batch; w_tasks : list task;
  w_now : Z; w_oracle : list (option string);
  w_RedisEnabled : bool; w_BatchUpdateEnabled : bool
}.
#[global] Instance eta_world : Eta world := λ r,
  MkWorld (w_db r) (w_redis r) (w_batch r) (w_tasks r) (w_now r) (w_oracle r)
    (w_RedisEnabled r) (w_BatchUpdateEnabled r).

(** [DB.Transaction(body)], or a single statement outside a transaction: the
    oracle may fail it as a whole; an error of the body rolls back. *)
Definition transaction {A} (body : Z → M db A) : M world A := λ w,
  match w_oracle w with
  | Some msg :: o => (Err (ErrDriver msg), w <| w_oracle := o |>)
  | o =>
      match body (w_now w) (w_db w) with
      | (Ok a, d) => (Ok a, w <| w_oracle := tail o |> <| w_db := d |>)
      | (Err e, _) => (Err e, w <| w_oracle := tail o |>)
      end
  end.

(** [RDB.Eval] and the other Redis calls: writes made before an error stay. *)
Definition redis_call {A} (script : M redis A) : M world A := λ w,
  match w_oracle w with
  | Some msg :: o => (Err (ErrDriver msg), w <| w_oracle := o |>)
  | o => let '(r, rd) := script (w_redis w) in
         (r, w <| w_oracle := tail o |> <| w_redis := rd |>)
  end.

Definition go (t : task) : M world unit := modify (λ w, w <| w_tasks ::= (λ ts, ts ++ [t]) |>).
Definition GetTimestamp : M world Z := gets w_now.
Definition RedisEnabled : M world bool := gets w_RedisEnabled.
Definition BatchUpdateEnabled : M world bool := gets w_BatchUpdateEnabled.

(** No call of the rest of the run fails. *)
Definition healthy (w : world) : Prop := w_oracle w = [].

(** An invariant of the tables survives a transaction, committed or not. *)
Lemma inv_transaction {A} (P : db → Prop) (body : Z → M db A) Q :
  (∀ now, Inv P (body now) Q) → Inv (λ w, P (w_db w)) (transaction body) Q.
Proof.
  intros Hb w Hw. unfold transaction. destruct (Hb (w_now w) (w_db w) Hw) as [Hd Hq].
  destruct (w_oracle w) as [|[msg|] o]; [|done|];
    destruct (body (w_now w) (w_db w)) as [[a|e] d]; cbn in *; split; auto; by intros ? [= <-].
Qed.

(** ** Framing

    Calls that may consume oracle entries and touch Redis but neither the
    tables nor the process memory. *)

Definition same_store (w w' : world) : Prop :=
  w_db w' = w_db w ∧ w_batch w' = w_batch w ∧ w_tasks w' = w_tasks w ∧ w_now w' = w_now w ∧
  w_RedisEnabled w' = w_RedisEnabled w ∧ w_BatchUpdateEnabled w' = w_BatchUpdateEnabled w.

#[global] Instance same_store_preorder : PreOrder same_store.
Proof. split; [done|]. unfold same_store. intros ???; naive_solver congruence. Qed.

Definition Frame {A} (m : M world A) : Prop := ∀ w, same_store w (m w).2.

Section frame.
Context {A B : Type}.

Lemma frame_ret (a : A) : Frame (mret a).
Proof. done. Qed.
Lemma frame_fail (e : error) : Frame (fail (A:=A) e).
Proof. done. Qed.
Lemma frame_gets (f : world → A) : Frame (gets f).
Proof. done. Qed.
Lemma frame_lift_res (r : res A) : Frame (lift_res r).
Proof. done. Qed.

Lemma frame_bind (m : M world A) (k : A → M world B) :
  Frame m → (∀ a, Frame (k a)) → Frame (m ≫= k).
Proof.
  intros Hm Hk w. unfold mbind, M_bind. specialize (Hm w).
  destruct (m w) as [[a|e] w1]; simpl in *; [|done]. etrans; [done|]. apply Hk.
Qed.

Lemma frame_try (m : M world A) : Frame m → Frame (try m).
Proof. intros Hm w. unfold try. specialize (Hm w). by destruct (m w). Qed.

Lemma frame_redis_call (script : M redis A) : Frame (redis_call script).
Proof.
  intros w. unfold redis_call. destruct (w_oracle w) as [|[msg|] o]; [|done|];
    by destruct (script (w_redis w)).
Qed.

Lemma frame_read (body : Z → M db A) :
  (∀ now d a d', body now d = (Ok a, d') → d' = d) → Frame (transaction body).
Proof.
  intros Hb w. unfold transaction. destruct (w_oracle w) as [|[msg|] o]; [|done|];
    destruct (body (w_now w) (w_db w)) as [[a|e] d] eqn:E; simpl; try done;
    apply Hb in E as ->; done.
Qed.
End frame.

(** Walk through a program, splitting on what it inspects; calls are closed
    by the lemmas of the database. *)
Create HintDb frame.
#[export] Hint Resolve frame_ret frame_fail frame_gets frame_lift_res frame_redis_call : frame.
Ltac frame_step :=
  first
    [ solve [auto with frame]
    | apply frame_try
    | apply frame_bind; [|intros ?]
    | match goal with |- Frame (if ?b then _ else _) => destruct b end
    | match goal with |- Frame (match ?b with _ => _ end) => destruct b end ].
Ltac frame_tac := repeat frame_step.

Lemma transaction_inv {A} (body : Z → M db A) w r w' :
  transaction body w = (r, w') →
  w_batch w' = w_batch w ∧
  match r with Ok a => body (w_now w) (w_db w) = (Ok a, w_db w') | Err _ => w_db w' = w_db w end.
Proof.
  unfold transaction. destruct (w_oracle w) as [|[msg|] o]; [|by intros [= <- <-]|];
    destruct (body (w_now w) (w_db w)) as [[a|e] d]; intros [= <- <-]; done.
Qed.

(** ** Inverting statements that succeed *)

Lemma UPDATE_inv {K R} `{Countable K} (tbl : db → gmap K R) `{!Upd tbl} k cond set d n d' :
  UPDATE tbl k cond set d = (Ok n, d') →
  (∃ r, tbl d !! k = Some r ∧ cond r = true ∧ n = 1 ∧ d' = d <| tbl := <[k := set r]> (tbl d) |>) ∨
  (n = 0 ∧ d' = d).
Proof.
  unfold UPDATE. destruct (tbl d !! k) as [r|] eqn:E; [|intros [= <- <-]; by right].
  destruct (cond r) eqn:Ec; intros [= <- <-]; [left; eauto|by right].
Qed.

Lemma FIRST_inv {K R} `{Countable K} (tbl : db → gmap K R) k d r d' :
  FIRST tbl k d = (Ok r, d') → tbl d !! k = Some r ∧ d' = d.
Proof. unfold FIRST. destruct (tbl d !! k); naive_solver. Qed.

Lemma CREATE_inv {K R} `{Countable K} (tbl : db → gmap K R) `{!Upd tbl} k r d x d' :
  CREATE tbl k r d = (Ok x, d') → tbl d !! k = None ∧ d' = d <| tbl := <[k := r]> (tbl d) |>.
Proof. unfold CREATE. destruct (tbl d !! k); naive_solver. Qed.

(** Successive statements of a run that succeeds. *)
Ltac mstep H :=
  let x := fresh "x" in let d1 := fresh "d" in let H1 := fresh "Hs" in
  apply bind_inv in H as (x & d1 & H1 & H).
Ltac mret H := injection H as <- <-.
