(* ===== verification/QuotaLocks.v ===== *)
(** * The stripe locks of the quota code (src/model/utils.go)

    [lockQuotaMutationResources] and the lock order of
    [beginBillingRecoveryQuotaMutation], as a transition system of threads. *)

From S2P Require Import Prelude Store.
From stdpp Require Import sorting.
#[local] Open Scope Z_scope.

(** ** Lock stripes *)

Definition quotaMutationLockStripes : Z := 257.

Definition batch_type_index (ty : batch_type) : Z :=
  match ty with
  | BatchUpdateTypeUserQuota => 0 | BatchUpdateTypeTokenQuota => 1 | BatchUpdateTypeUsedQuota => 2
  | BatchUpdateTypeChannelUsedQuota => 3 | BatchUpdateTypeRequestCount => 4
  end.

(** Go's [%] truncates toward zero. *)
Definition quotaMutationLockIndex (resourceType : batch_type) (id : Z) : Z :=
  let id := if id <? 0 then i64 (- id) else id in
  Z.rem (i64 (i64 (id * 31) + batch_type_index resourceType)) quotaMutationLockStripes.

(** [sort.Ints] *)
Definition sort_Ints (l : list Z) : list Z := merge_sort Z.le l.

(** The loop that keeps an index unless it equals the last one kept. *)
Definition unique_sorted (indexes : list Z) : list Z :=
  foldl (λ unique index, if decide (last unique = Some index) then unique else unique ++ [index])
    [] indexes.

(** The stripes, in the order in which the function locks them. *)
Definition lockQuotaMutationResources (userID tokenID : Z) : list Z :=
  let indexes :=
    (if 0 <? userID then [quotaMutationLockIndex BatchUpdateTypeUserQuota userID] else []) ++
    (if 0 <? tokenID then [quotaMutationLockIndex BatchUpdateTypeTokenQuota tokenID] else []) in
  unique_sorted (sort_Ints indexes).

(** [beginBillingRecoveryQuotaMutation] takes the stripes and then
    [quotaBatchMutationLock], numbered after every stripe. *)
Definition quotaBatchMutationLock : Z := quotaMutationLockStripes.
Definition recovery_lock_order (userID tokenID : Z) : list Z :=
  lockQuotaMutationResources userID tokenID ++ [quotaBatchMutationLock].

(** ** Lock acquisition as a transition system

    A thread holds some locks and still wants others, in order; when it wants
    none it runs its critical section and releases everything. *)
Record thread := Thread { held : list Z; wanted : list Z }.

Inductive lock_step : list thread → list thread → Prop :=
  | step_acquire ts1 ts2 h i w :
      (∀ t, t ∈ ts1 ++ Thread h (i :: w) :: ts2 → i ∉ held t) →
      lock_step (ts1 ++ Thread h (i :: w) :: ts2) (ts1 ++ Thread (h ++ [i]) w :: ts2)
  | step_release ts1 ts2 h :
      h ≠ [] →
      lock_step (ts1 ++ Thread h [] :: ts2) (ts1 ++ Thread [] [] :: ts2).

(** The lock requests of the quota code. *)
Inductive quota_request : list Z → Prop :=
  | request_mutation u t : in_i64 (u * 31 + 4) → in_i64 (t * 31 + 4) →
      quota_request (lockQuotaMutationResources u t)
  | request_recovery u t : in_i64 (u * 31 + 4) → in_i64 (t * 31 + 4) →
      quota_request (recovery_lock_order u t)
  | request_flush : quota_request [quotaBatchMutationLock].

Definition initial_threads (ts : list thread) : Prop :=
  Forall (λ t, held t = [] ∧ quota_request (wanted t)) ts.

Definition finished (t : thread) : Prop := held t = [] ∧ wanted t = [].

(** *** Order of the stripes *)

Lemma lock_index_range ty id :
  0 <= id → in_i64 (id * 31 + 4) →
  0 <= quotaMutationLockIndex ty id < quotaMutationLockStripes.
Proof.
  unfold quotaMutationLockIndex. intros Hid Hb.
  destruct (Z.ltb_spec id 0); [lia|].
  assert (0 <= batch_type_index ty <= 4) by (destruct ty; simpl; lia).
  unfold in_i64, min_i64, max_i64 in Hb.
  rewrite !i64_id by (unfold in_i64, min_i64, max_i64; try rewrite i64_id; unfold in_i64, min_i64, max_i64; lia).
  apply Z.rem_bound_pos; unfold quotaMutationLockStripes; lia.
Qed.

(** The list is sorted strictly: [a] alone, [b] alone or both in order. *)
Lemma lock_order_cases userID tokenID :
  lockQuotaMutationResources userID tokenID = [] ∨
  (∃ a, lockQuotaMutationResources userID tokenID = [a]) ∨
  (∃ a b, a < b ∧ lockQuotaMutationResources userID tokenID = [a; b]).
Proof.
  unfold lockQuotaMutationResources, sort_Ints.
  destruct (0 <? userID), (0 <? tokenID); simpl; auto; [|right; left; eauto..].
  generalize (quotaMutationLockIndex BatchUpdateTypeUserQuota userID) as a.
  generalize (quotaMutationLockIndex BatchUpdateTypeTokenQuota tokenID) as b. intros b a.
  unfold merge_sort. simpl. unfold unique_sorted.
  repeat (case_decide || simpl); simplify_eq; eauto.
  - right; right. exists a, b. split; [|done]. destruct (decide (a = b)); [congruence|lia].
  - right; right. exists b, a. split; [lia|done].
Qed.

Lemma lock_order_sorted userID tokenID :
  StronglySorted Z.lt (lockQuotaMutationResources userID tokenID).
Proof.
  destruct (lock_order_cases userID tokenID) as [->|[[a ->]|(a & b & ? & ->)]];
    repeat constructor; done.
Qed.

Lemma unique_sorted_elem (acc l : list Z) i :
  i ∈ foldl (λ unique index, if decide (last unique = Some index) then unique else unique ++ [index]) acc l →
  i ∈ acc ∨ i ∈ l.
Proof.
  revert acc. induction l as [|x l IH]; intros acc; simpl; [auto|].
  intros [Hi|Hi]%IH; rewrite elem_of_cons; [|auto]. case_decide; [auto|].
  apply elem_of_app in Hi as [?|Hi]; [auto|]. apply list_elem_of_singleton in Hi. auto.
Qed.

Lemma lock_order_range userID tokenID i :
  in_i64 (userID * 31 + 4) → in_i64 (tokenID * 31 + 4) →
  i ∈ lockQuotaMutationResources userID tokenID → 0 <= i < quotaMutationLockStripes.
Proof.
  intros Hu Ht. unfold lockQuotaMutationResources, unique_sorted, sort_Ints.
  intros [Hi|Hi]%unique_sorted_elem; [set_solver|].
  rewrite merge_sort_Permutation in Hi.
  destruct (Z.ltb_spec 0 userID), (Z.ltb_spec 0 tokenID);
    repeat (rewrite ?elem_of_app, ?elem_of_cons in Hi); simpl in *;
    set_unfold in Hi; destruct_or?; subst; try done; (apply lock_index_range; [lia|done]).
Qed.

Lemma quota_request_sorted l : quota_request l → StronglySorted Z.lt l.
Proof.
  destruct 1 as [u t ? ?|u t Hu Ht|]; [apply lock_order_sorted| |repeat constructor].
  unfold recovery_lock_order.
  pose proof (lock_order_range u t) as Hr.
  destruct (lock_order_cases u t) as [E|[[a E]|(a & b & ? & E)]]; rewrite E in *;
    simpl; repeat constructor; try done;
    apply Hr; rewrite ?elem_of_cons; eauto.
Qed.

(** *** Progress *)

Definition well_ordered (t : thread) : Prop := StronglySorted Z.lt (held t ++ wanted t).

Lemma lock_step_well_ordered ts ts' :
  lock_step ts ts' → Forall well_ordered ts → Forall well_ordered ts'.
Proof.
  intros Hstep. destruct Hstep as [ts1 ts2 h i w _|ts1 ts2 h _];
    rewrite !Forall_app, !Forall_cons; unfold well_ordered; simpl;
    intros (? & Hw & ?); split_and!; try done.
  - by rewrite <- app_assoc.
  - constructor.
Qed.

Lemma exists_largest {A} (P : A → Prop) (f : A → Z) `{∀ x, Decision (P x)} (l : list A) :
  Exists P l → ∃ x, x ∈ l ∧ P x ∧ ∀ y, y ∈ l → P y → f y <= f x.
Proof.
  induction l as [|a l IH]; intros Hex; [by inversion Hex|].
  destruct (decide (Exists P l)) as [Hl|Hl].
  - destruct (IH Hl) as (x & Hx & HP & Hmax).
    destruct (decide (P a ∧ f x < f a)) as [[Ha Hlt]|Ha].
    + exists a. split_and!; [set_solver|done|]. intros y [->|Hy]%elem_of_cons HPy; [lia|].
      specialize (Hmax y Hy HPy). lia.
    + exists x. split_and!; [set_solver|done|]. intros y [->|Hy]%elem_of_cons HPy; [|eauto].
      destruct (decide (f x < f a)); [naive_solver|lia].
  - exists a. inversion Hex; subst; [|done]. split_and!; [set_solver|done|].
    intros y [->|Hy]%elem_of_cons HPy; [lia|]. exfalso. apply Hl, Exists_exists. eauto.
Qed.

Lemma sorted_app_lt (l1 l2 : list Z) x y :
  StronglySorted Z.lt (l1 ++ l2) → x ∈ l1 → y ∈ l2 → x < y.
Proof.
  induction l1 as [|a l1 IH]; simpl; [set_solver|].
  intros Hs Hx Hy. apply StronglySorted_inv in Hs as [Hs Ha].
  rewrite Forall_forall in Ha. apply elem_of_cons in Hx as [->|Hx]; [|auto].
  apply Ha. set_solver.
Qed.

Lemma lock_progress ts :
  Forall well_ordered ts → Forall finished ts ∨ ∃ ts', lock_step ts ts'.
Proof.
  intros Hord.
  destruct (decide (Exists (λ t, wanted t = [] ∧ held t ≠ []) ts)) as [Hrel|Hrel].
  { right. apply Exists_exists in Hrel as ([h w] & Ht & Hw & Hh). simpl in *. subst.
    apply list_elem_of_split in Ht as (ts1 & ts2 & ->). eexists. by constructor. }
  destruct (decide (Exists (λ t, wanted t ≠ []) ts)) as [Hw|Hw].
  - right. destruct (exists_largest _ (λ t, default 0 (head (wanted t))) _ Hw)
      as ([h w] & Ht & Hne & Hmax). simpl in *. destruct w as [|i w]; [done|].
    destruct (list_elem_of_split _ _ Ht) as (ts1 & ts2 & ->).
    exists (ts1 ++ Thread (h ++ [i]) w :: ts2). apply step_acquire.
    intros t' Ht' Hi. destruct (wanted t') as [|i' w'] eqn:Ew'.
    + apply Hrel, Exists_exists. exists t'. split_and!; [done..|].
      intros E. rewrite E in Hi. by apply not_elem_of_nil in Hi.
    + specialize (Hmax t' Ht'). rewrite Ew' in Hmax. specialize (Hmax ltac:(done)). simpl in Hmax.
      rewrite Forall_forall in Hord. specialize (Hord t' Ht'). unfold well_ordered in Hord.
      rewrite Ew' in Hord. pose proof (sorted_app_lt _ _ i i' Hord Hi ltac:(set_solver)). lia.
  - left. apply Forall_forall. intros t Ht. unfold finished.
    destruct (wanted t) eqn:E1; [|exfalso; apply Hw, Exists_exists; exists t; by rewrite E1].
    destruct (held t) eqn:E2; [done|exfalso; apply Hrel, Exists_exists; exists t; by rewrite E1, E2].
Qed.

(** C40: threads that take quota locks the way the code does (stripes in
    ascending order, then the batch lock) can never deadlock: from every
    reachable state either all threads are done or some thread can move. *)
Theorem quota_locks_deadlock_free (ts0 ts : list thread)
    (Hinit : initial_threads ts0) (Hreach : rtc lock_step ts0 ts) :
  Forall finished ts ∨ ∃ ts', lock_step ts ts'.
Proof.
  apply lock_progress.
  assert (Forall well_ordered ts0) as H0.
  { eapply Forall_impl; [exact Hinit|]. intros t [E Hreq]. unfold well_ordered.
    rewrite E. by apply quota_request_sorted. }
  clear Hinit. induction Hreach; eauto using lock_step_well_ordered.
Qed.

(** Two recoveries that share a user stripe, the first one holding its token stripe. *)
Definition two_recoveries : list thread :=
  [Thread [] (recovery_lock_order 7 11); Thread [] (recovery_lock_order 7 12)].
Definition first_advanced : list thread :=
  [Thread [85] [217; 257]; Thread [] (recovery_lock_order 7 12)].

Lemma quota_locks_deadlock_free_witness :
  recovery_lock_order 7 11 = [85; 217; 257] ∧
  (Forall finished first_advanced ∨ ∃ ts', lock_step first_advanced ts').
Proof.
  split; [by vm_compute|].
  apply (quota_locks_deadlock_free two_recoveries).
  - repeat constructor; unfold in_i64, min_i64, max_i64; lia.
  - apply rtc_once.
    apply (step_acquire [] [Thread [] (recovery_lock_order 7 12)] [] 85 [217; 257]).
    intros t Ht. simpl in Ht. rewrite !elem_of_cons in Ht.
    destruct Ht as [->|[->|Ht]]; [apply not_elem_of_nil..|]. by apply not_elem_of_nil in Ht.
Defined.
