(* ===== verification/QuotaBatch.v ===== *)
(** * Quota updates and the batch queue

    src/model/utils.go ([addNewRecord], [batchUpdate]) and the quota updates
    of src/model/user.go, src/model/token.go and src/model/channel.go that
    either write the database at once or queue a delta. *)

From S2P Require Import Prelude Store.

(** ** utils.go: the queue *)

Definition addNewRecord (type_ : batch_type) (id value : Z) : M world unit :=
  modify (λ w,
    let store := batch_store type_ (w_batch w) in
    let store' :=
      match store !! id with
      | None => <[id := value]> store
      | Some old => <[id := i64 (old + value)]> store
      end in
    w <| w_batch := set_batch_store type_ store' (w_batch w) |>).

(** billing_recovery.go: remove and return the queued delta of a resource. *)
Definition takePendingQuotaDelta (type_ : batch_type) (id : Z) : M world Z := λ w,
  if id <=? 0 then (Ok 0, w)
  else
    let store := batch_store type_ (w_batch w) in
    (Ok (default 0 (store !! id)),
     w <| w_batch := set_batch_store type_ (delete id store) (w_batch w) |>).

(** ** Row updates *)

(** token.go: the columns a signed quota delta moves. *)
Definition token_add (now delta : Z) (t : Token) : Token :=
  t <| t_RemainQuota ::= (λ q, q + delta) |> <| t_UsedQuota ::= (λ q, q - delta) |>
    <| t_AccessedTime := now |>.

Definition increaseTokenQuota (id quota : Z) : M world unit :=
  transaction (λ now, _ ← UPDATE tokens id (λ _, true) (token_add now quota); mret tt).
Definition decreaseTokenQuota (id quota : Z) : M world unit :=
  transaction (λ now, _ ← UPDATE tokens id (λ _, true) (token_add now (- quota)); mret tt).

(** user.go *)
Definition increaseUserQuota (id quota : Z) : M world unit :=
  transaction (λ _, _ ← UPDATE users id (λ _, true) (λ u, u <| u_Quota ::= (λ q, q + quota) |>); mret tt).
Definition decreaseUserQuota (id quota : Z) : M world unit :=
  transaction (λ _, _ ← UPDATE users id (λ _, true) (λ u, u <| u_Quota ::= (λ q, q - quota) |>); mret tt).

Definition negative_quota : error := ErrNew "quota 不能为负数！".

Definition IncreaseUserQuota (id quota : Z) (db : bool) : M world unit :=
  if quota <? 0 then fail negative_quota
  else
    go (TaskUserQuotaDelta id quota);;
    batch ← BatchUpdateEnabled;
    if negb db && batch then addNewRecord BatchUpdateTypeUserQuota id quota
    else increaseUserQuota id quota.

Definition DecreaseUserQuota (id quota : Z) (db : bool) : M world unit :=
  if quota <? 0 then fail negative_quota
  else
    go (TaskUserQuotaDelta id (- quota));;
    batch ← BatchUpdateEnabled;
    if negb db && batch then addNewRecord BatchUpdateTypeUserQuota id (- quota)
    else decreaseUserQuota id quota.

Definition DeltaUpdateUserQuota (id delta : Z) : M world unit :=
  if delta =? 0 then mret tt
  else if 0 <? delta then IncreaseUserQuota id delta false
  else DecreaseUserQuota id (i64 (- delta)) false.

Definition IncreaseTokenQuota (tokenId : Z) (key : string) (quota : Z) : M world unit :=
  if quota <? 0 then fail negative_quota
  else
    redis ← RedisEnabled;
    (if redis : bool then go (TaskTokenQuotaDelta tokenId key quota) else mret tt);;
    batch ← BatchUpdateEnabled;
    if batch : bool then addNewRecord BatchUpdateTypeTokenQuota tokenId quota
    else increaseTokenQuota tokenId quota.

Definition DecreaseTokenQuota (id : Z) (key : string) (quota : Z) : M world unit :=
  if quota <? 0 then fail negative_quota
  else
    redis ← RedisEnabled;
    (if redis : bool then go (TaskTokenQuotaDelta id key (- quota)) else mret tt);;
    batch ← BatchUpdateEnabled;
    if batch : bool then addNewRecord BatchUpdateTypeTokenQuota id (- quota)
    else decreaseTokenQuota id quota.

(** [if err != nil { common.SysLog(..) }]: the error is logged and dropped. *)
Definition log_error {A} (m : M world A) : M world unit := _ ← try m; mret tt.

Definition updateUserUsedQuotaAndRequestCount (id quota count : Z) : M world unit :=
  log_error (transaction (λ _, UPDATE users id (λ _, true)
    (λ u, u <| u_UsedQuota ::= (λ q, q + quota) |> <| u_RequestCount ::= (λ c, c + count) |>))).

Definition UpdateUserUsedQuotaAndRequestCount (id quota : Z) : M world unit :=
  batch ← BatchUpdateEnabled;
  if batch : bool then
    addNewRecord BatchUpdateTypeUsedQuota id quota;;
    addNewRecord BatchUpdateTypeRequestCount id 1
  else updateUserUsedQuotaAndRequestCount id quota 1.

Definition UpdateUserUsedQuota (id quota : Z) : M world unit :=
  batch ← BatchUpdateEnabled;
  if batch : bool then addNewRecord BatchUpdateTypeUsedQuota id quota
  else log_error (transaction (λ _, UPDATE users id (λ _, true)
         (λ u, u <| u_UsedQuota ::= (λ q, q + quota) |>))).

Definition updateUserQuotaUsedQuotaAndRequestCount (id quota usedQuota requestCount : Z) : M world unit :=
  if (quota =? 0) && (usedQuota =? 0) && (requestCount =? 0) then mret tt
  else log_error (transaction (λ _, UPDATE users id (λ _, true)
         (λ u, u <| u_Quota ::= (λ q, q + quota) |> <| u_UsedQuota ::= (λ q, q + usedQuota) |>
                 <| u_RequestCount ::= (λ c, c + requestCount) |>))).

(** channel.go *)
Definition updateChannelUsedQuota (id quota : Z) : M world unit :=
  log_error (transaction (λ _, UPDATE channels id (λ _, true) (λ q, q + quota))).
Definition UpdateChannelUsedQuota (id quota : Z) : M world unit :=
  batch ← BatchUpdateEnabled;
  if batch : bool then addNewRecord BatchUpdateTypeChannelUsedQuota id quota
  else updateChannelUsedQuota id quota.

(** ** [batchUpdate]

    Go iterates over its maps in an unspecified order; the model fixes one
    ([map_to_list], [elements]), and the keys of one store are distinct. *)

Fixpoint for_each {S A} (l : list A) (f : A → M S unit) : M S unit :=
  match l with
  | [] => mret tt
  | x :: l => f x;; for_each l f
  end.

Definition batch_has_data (b : batch) : bool :=
  negb (bool_decide (b_UserQuota b = ∅) && bool_decide (b_TokenQuota b = ∅) &&
        bool_decide (b_UsedQuota b = ∅) && bool_decide (b_ChannelUsedQuota b = ∅) &&
        bool_decide (b_RequestCount b = ∅)).

Definition batch_user_ids (b : batch) : list Z :=
  elements (dom (b_UserQuota b) ∪ dom (b_UsedQuota b) ∪ dom (b_RequestCount b)).

Definition batchUpdate : M world unit :=
  stores ← gets w_batch;
  if negb (batch_has_data stores) then mret tt
  else
    modify (λ w, w <| w_batch := empty_batch |>);;
    for_each (map_to_list (b_TokenQuota stores)) (λ '(key, value),
      log_error (increaseTokenQuota key value));;
    for_each (map_to_list (b_ChannelUsedQuota stores)) (λ '(key, value),
      updateChannelUsedQuota key value);;
    for_each (batch_user_ids stores) (λ key,
      updateUserQuotaUsedQuotaAndRequestCount key (default 0 (b_UserQuota stores !! key))
        (default 0 (b_UsedQuota stores !! key)) (default 0 (b_RequestCount stores !! key))).

(** ** What the updates do *)

Definition user_quota (w : world) (id : Z) : Z :=
  match users (w_db w) !! id with Some u => u_Quota u | None => 0 end.
Definition pending (ty : batch_type) (w : world) (id : Z) : Z :=
  default 0 (batch_store ty (w_batch w) !! id).

(** The wallet balance a user really has: the column plus the queued delta. *)
Definition wallet_balance (w : world) (id : Z) : Z :=
  user_quota w id + pending BatchUpdateTypeUserQuota w id.

Definition token_remain (w : world) (id : Z) : Z :=
  match tokens (w_db w) !! id with Some t => t_RemainQuota t | None => 0 end.
Definition token_balance (w : world) (id : Z) : Z :=
  token_remain w id + pending BatchUpdateTypeTokenQuota w id.

(** A fault-free statement on one row. *)
Lemma transaction_healthy {A} (body : Z → M db A) w :
  healthy w →
  transaction body w =
    match body (w_now w) (w_db w) with
    | (Ok a, d) => (Ok a, w <| w_db := d |>)
    | (Err e, _) => (Err e, w)
    end.
Proof.
  unfold healthy, transaction. intros Hh. rewrite Hh.
  destruct w; simpl in *; subst. by destruct (body _ _) as [[]].
Qed.

Lemma world_upd_db_id w f : f (w_db w) = w_db w → w <| w_db ::= f |> = w.
Proof. destruct w; unfold upd; simpl. by intros ->. Qed.
Lemma db_upd_users_id d f : f (users d) = users d → d <| users ::= f |> = d.
Proof. destruct d; unfold upd; simpl. by intros ->. Qed.
Lemma db_set_users d : d <| users := users d |> = d.
Proof. by destruct d. Qed.
Lemma db_set_tokens d : d <| tokens := tokens d |> = d.
Proof. by destruct d. Qed.
Lemma world_set_db w : w <| w_db := w_db w |> = w.
Proof. by destruct w. Qed.

Lemma UPDATE_users_all id f d :
  UPDATE users id (λ _, true) f d =
    (Ok (if decide (is_Some (users d !! id)) then 1 else 0), d <| users ::= alter f id |>).
Proof.
  unfold UPDATE. destruct (users d !! id) as [u|] eqn:E.
  - rewrite decide_True by eauto. by rewrite <- (alter_Some f _ _ _ E).
  - rewrite decide_False by (by intros []). f_equal.
    transitivity (d <| users := alter f id (users d) |>); [|done].
    by rewrite alter_not_in, db_set_users.
Qed.

Lemma UPDATE_tokens_all id f d :
  UPDATE tokens id (λ _, true) f d =
    (Ok (if decide (is_Some (tokens d !! id)) then 1 else 0), d <| tokens ::= alter f id |>).
Proof.
  unfold UPDATE. destruct (tokens d !! id) as [u|] eqn:E.
  - rewrite decide_True by eauto. by rewrite <- (alter_Some f _ _ _ E).
  - rewrite decide_False by (by intros []). f_equal.
    transitivity (d <| tokens := alter f id (tokens d) |>); [|done].
    by rewrite alter_not_in, db_set_tokens.
Qed.

(** A fault-free logged update of one user row. *)
Lemma log_update_users id f w :
  healthy w →
  log_error (transaction (λ _, UPDATE users id (λ _, true) f)) w =
    (Ok tt, w <| w_db ::= (λ d, d <| users ::= alter f id |>) |>).
Proof. intros Hh. unfold log_error. msimpl. rewrite transaction_healthy by done. by rewrite UPDATE_users_all. Qed.

Lemma updateUserQuota_healthy id q uq c w :
  healthy w →
  updateUserQuotaUsedQuotaAndRequestCount id q uq c w =
    (Ok tt, w <| w_db ::= (λ d, d <| users ::= alter (λ u,
       u <| u_Quota ::= (λ x, x + q) |> <| u_UsedQuota ::= (λ x, x + uq) |>
         <| u_RequestCount ::= (λ x, x + c) |>) id |>) |>).
Proof.
  intros Hh. unfold updateUserQuotaUsedQuotaAndRequestCount.
  destruct (_ && _ && _) eqn:E; [|by apply log_update_users].
  rewrite !andb_true_iff, !Z.eqb_eq in E. destruct E as [[-> ->] ->].
  unfold_m. f_equal. symmetry. apply world_upd_db_id, db_upd_users_id, alter_id.
  intros u _. destruct u; rsimpl. by rewrite !Z.add_0_r.
Qed.

(** *** Flushing the queue *)

Lemma world_upd_db_ext w f g : f (w_db w) = g (w_db w) → w <| w_db ::= f |> = w <| w_db ::= g |>.
Proof. destruct w; unfold upd; simpl. by intros ->. Qed.

Lemma world_upd_db_upd w f g :
  w <| w_db ::= f |> <| w_db ::= g |> = w <| w_db ::= (λ d, g (f d)) |>.
Proof. by destruct w. Qed.

Lemma for_each_db {A} (act : A → db → db) (f : A → M world unit) (l : list A) w :
  (∀ a w', healthy w' → w_now w' = w_now w → f a w' = (Ok tt, w' <| w_db ::= act a |>)) →
  healthy w →
  for_each l f w = (Ok tt, w <| w_db ::= (λ d, foldl (λ d a, act a d) d l) |>).
Proof.
  revert w. induction l as [|a l IH]; intros w Hf Hh; simpl.
  - unfold_m. f_equal. symmetry. by apply world_upd_db_id.
  - unfold_m. rewrite Hf by done. rewrite IH by done. by rewrite world_upd_db_upd.
Qed.

(** A fold of row updates touches its own table only. *)
Lemma foldl_users (g : Z → User → User) l d :
  foldl (λ d k, d <| users ::= alter (g k) k |>) d l = d <| users ::= alter_all g l |>.
Proof.
  revert d. induction l as [|k l IH]; intros d; simpl; [by destruct d|].
  rewrite IH. by destruct d.
Qed.
Lemma foldl_tokens (g : Z → Token → Token) (l : list (Z * Z)) d :
  foldl (λ d e, d <| tokens ::= alter (g e.2) e.1 |>) d l =
    d <| tokens ::= (λ m, foldl (λ m e, alter (g e.2) e.1 m) m l) |>.
Proof.
  revert d. induction l as [|[k v] l IH]; intros d; simpl; [by destruct d|].
  rewrite IH. by destruct d.
Qed.
Lemma foldl_channels (l : list (Z * Z)) d :
  foldl (λ d e, d <| channels ::= alter (λ q, q + e.2) e.1 |>) d l =
    d <| channels ::= (λ m, foldl (λ m e, alter (λ q, q + e.2) e.1 m) m l) |>.
Proof.
  revert d. induction l as [|[k v] l IH]; intros d; simpl; [by destruct d|].
  rewrite IH. by destruct d.
Qed.

(** Applying each entry of a map to the row of the same key. *)
Lemma lookup_fold_entries {A} (g : Z → A → A) (s : gmap Z Z) (m : gmap Z A) i :
  foldl (λ m e, alter (g e.2) e.1 m) m (map_to_list s) !! i =
    match s !! i with Some v => g v <$> m !! i | None => m !! i end.
Proof.
  assert (∀ l (m : gmap Z A), NoDup l.*1 →
    foldl (λ m e, alter (g e.2) e.1 m) m l = alter_all (λ k, g (default 0 (list_to_map (M:=gmap Z Z) l !! k))) (l.*1) m) as Hl.
  { clear m. intros l. unfold alter_all.
    assert (∀ s' : gmap Z Z, (∀ k v, (k, v) ∈ l → s' !! k = Some v) → ∀ m : gmap Z A,
      foldl (λ m e, alter (g e.2) e.1 m) m l = foldl (λ m k, alter (g (default 0 (s' !! k))) k m) m l.*1) as Hgen.
    { induction l as [|[k v] l IH]; intros s' Hs m; simpl; [done|].
      rewrite (Hs k v) by set_solver. simpl. apply IH. set_solver. }
    intros m Hnd. apply Hgen. intros k v Hkv. by apply elem_of_list_to_map. }
  rewrite Hl by apply NoDup_fst_map_to_list.
  rewrite lookup_alter_all by apply NoDup_fst_map_to_list.
  rewrite list_to_map_to_list. destruct (s !! i) as [v|] eqn:E.
  - rewrite decide_True; [done|]. apply list_elem_of_fmap. exists (i, v). by rewrite elem_of_map_to_list.
  - rewrite decide_False; [done|]. intros ([? v] & -> & Hin)%list_elem_of_fmap.
    apply elem_of_map_to_list in Hin. simpl in *. congruence.
Qed.

(** The database after a flush. *)
Definition flushed_user (b : batch) (id : Z) (u : User) : User :=
  u <| u_Quota ::= (λ x, x + default 0 (b_UserQuota b !! id)) |>
    <| u_UsedQuota ::= (λ x, x + default 0 (b_UsedQuota b !! id)) |>
    <| u_RequestCount ::= (λ x, x + default 0 (b_RequestCount b !! id)) |>.

Definition flushed_db (now : Z) (b : batch) (d : db) : db :=
  d <| tokens ::= (λ m, foldl (λ m e, alter (token_add now e.2) e.1 m) m (map_to_list (b_TokenQuota b))) |>
    <| channels ::= (λ m, foldl (λ m e, alter (λ q, q + e.2) e.1 m) m (map_to_list (b_ChannelUsedQuota b))) |>
    <| users ::= alter_all (flushed_user b) (batch_user_ids b) |>.

Lemma log_increaseTokenQuota id v w :
  healthy w →
  log_error (increaseTokenQuota id v) w =
    (Ok tt, w <| w_db ::= (λ d, d <| tokens ::= alter (token_add (w_now w) v) id |>) |>).
Proof.
  intros Hh. unfold log_error, increaseTokenQuota. unfold_m. rewrite transaction_healthy by done.
  by rewrite UPDATE_tokens_all.
Qed.

Lemma updateChannelUsedQuota_healthy id v w :
  healthy w →
  updateChannelUsedQuota id v w =
    (Ok tt, w <| w_db ::= (λ d, d <| channels ::= alter (λ q, q + v) id |>) |>).
Proof.
  intros Hh. unfold updateChannelUsedQuota, log_error. unfold_m. rewrite transaction_healthy by done.
  unfold UPDATE. destruct (channels (w_db w) !! id) as [q|] eqn:E; simpl; f_equal.
  - by rewrite <- (alter_Some (λ q, q + v) _ _ _ E).
  - transitivity (w <| w_db ::= (λ d, d <| channels := alter (λ q, q + v) id (channels (w_db w)) |>) |>); [|done].
    rewrite alter_not_in by done. by destruct w as [[]].
Qed.

Lemma batch_no_data b : batch_has_data b = false → b = empty_batch.
Proof.
  unfold batch_has_data. rewrite negb_false_iff, !andb_true_iff, !bool_decide_eq_true.
  destruct b; simpl. intros [[[[-> ->] ->] ->] ->]. done.
Qed.

Lemma flushed_db_empty now d : flushed_db now empty_batch d = d.
Proof.
  unfold flushed_db, batch_user_ids. simpl. rewrite !map_to_list_empty, !dom_empty_L, !union_empty_l_L.
  rewrite elements_empty. by destruct d.
Qed.

Lemma flushed_users now b d id :
  users (flushed_db now b d) !! id = flushed_user b id <$> users d !! id.
Proof.
  unfold flushed_db. cbn. rewrite lookup_alter_all by (unfold batch_user_ids; apply NoDup_elements).
  case_decide as Hin; [done|]. unfold batch_user_ids in Hin.
  rewrite elem_of_elements, !elem_of_union, !elem_of_dom in Hin.
  destruct (users d !! id) as [u|]; [|done]. simpl. f_equal.
  assert (∀ m : gmap Z Z, ¬ is_Some (m !! id) → default 0 (m !! id) = 0) as H0.
  { intros m. destruct (m !! id); [|done]. intros []. eauto. }
  unfold flushed_user. rewrite !H0 by tauto. destruct u; rsimpl. by rewrite !Z.add_0_r.
Qed.

Lemma flushed_channels now b d id :
  channels (flushed_db now b d) !! id =
    (λ q, q + default 0 (b_ChannelUsedQuota b !! id)) <$> channels d !! id.
Proof.
  unfold flushed_db. cbn. rewrite (lookup_fold_entries (λ v q, q + v)).
  destruct (b_ChannelUsedQuota b !! id); [done|]. destruct (channels d !! id); simpl; f_equal. lia.
Qed.

Lemma flushed_tokens now b d id t :
  tokens d !! id = Some t → ∃ t', tokens (flushed_db now b d) !! id = Some t' ∧
    t_RemainQuota t' = t_RemainQuota t + default 0 (b_TokenQuota b !! id) ∧
    t_UsedQuota t' = t_UsedQuota t - default 0 (b_TokenQuota b !! id).
Proof.
  intros Ht. unfold flushed_db. cbn. rewrite (lookup_fold_entries (token_add now)), Ht.
  destruct (b_TokenQuota b !! id); simpl; eexists; split_and!; try done; simpl; lia.
Qed.

Lemma batchUpdate_healthy w :
  healthy w →
  batchUpdate w = (Ok tt, w <| w_batch := empty_batch |> <| w_db ::= flushed_db (w_now w) (w_batch w) |>).
Proof.
  intros Hh. unfold batchUpdate. unfold_m.
  destruct (batch_has_data (w_batch w)) eqn:Hd; cbn [negb]; cbv beta iota.
  2: { apply batch_no_data in Hd. rewrite Hd, world_upd_db_id by apply flushed_db_empty.
    destruct w; simpl in *; by subst. }
  rewrite (for_each_db (λ e d, d <| tokens ::= alter (token_add (w_now w) e.2) e.1 |>));
    [|intros [k v] w' ? Hn; rewrite log_increaseTokenQuota by done; by rewrite Hn|done].
  rewrite (for_each_db (λ e d, d <| channels ::= alter (λ q, q + e.2) e.1 |>));
    [|intros [k v] w' ? Hn; by apply updateChannelUsedQuota_healthy|done].
  rewrite (for_each_db (λ k d, d <| users ::= alter (flushed_user (w_batch w) k) k |>));
    [|intros k w' ? Hn; by apply updateUserQuota_healthy|done].
  rewrite !world_upd_db_upd. f_equal. apply world_upd_db_ext.
  by rewrite foldl_tokens, foldl_channels, foldl_users.
Qed.

(** A flush without database errors empties the queue and adds every
    queued delta to its row exactly once (wallet, used quota, request count,
    channel usage; a token delta moves quota between remaining and used); the
    balance of every existing user and token, queue included, is unchanged. *)
Theorem batchUpdate_flushes_once (w : world) (Hh : healthy w) :
  ∃ w', batchUpdate w = (Ok tt, w') ∧ w_batch w' = empty_batch ∧
  (∀ id, users (w_db w') !! id = flushed_user (w_batch w) id <$> users (w_db w) !! id) ∧
  (∀ id, channels (w_db w') !! id =
     (λ q, q + pending BatchUpdateTypeChannelUsedQuota w id) <$> channels (w_db w) !! id) ∧
  (∀ id t, tokens (w_db w) !! id = Some t → ∃ t', tokens (w_db w') !! id = Some t' ∧
     t_RemainQuota t' = t_RemainQuota t + pending BatchUpdateTypeTokenQuota w id ∧
     t_UsedQuota t' = t_UsedQuota t - pending BatchUpdateTypeTokenQuota w id) ∧
  (∀ id, is_Some (users (w_db w) !! id) → wallet_balance w' id = wallet_balance w id) ∧
  (∀ id, is_Some (tokens (w_db w) !! id) → token_balance w' id = token_balance w id).
Proof.
  eexists. split_and!; [by apply batchUpdate_healthy|done|..].
  - intros id. apply flushed_users.
  - intros id. apply flushed_channels.
  - intros id t. apply flushed_tokens.
  - intros id [u Hu]. unfold wallet_balance, user_quota, pending. cbn [w_db w_batch upd batch_store].
    rewrite flushed_users, Hu. simpl. rewrite lookup_empty. simpl. lia.
  - intros id [t Ht]. unfold token_balance, token_remain, pending. cbn [w_db w_batch upd batch_store].
    destruct (flushed_tokens (w_now w) (w_batch w) _ _ _ Ht) as (t' & -> & -> & _).
    rewrite Ht. simpl. rewrite lookup_empty. simpl. lia.
Qed.

Definition batch_of_two : batch :=
  MkBatch {[7 := 40; 8 := -5]} {[11 := -30]} {[7 := 30]} {[3 := 9]} {[7 := 2]}.
Definition user_with (q : Z) : User := MkUser "u" "default" "" "" 1 1 1 q 0 0 "" 0 0 0 None true None 0 "" 0.
Definition token_with (uid : Z) (key : string) (remain : Z) : Token := MkToken uid key 1 0 (-1) false remain 0.
Definition world_of (d : db) : world := MkWorld d ∅ empty_batch [] 1700000000 [] false false.
Definition db_of_two : db :=
  empty_db <| users := {[7 := user_with 100; 8 := user_with 50]} |>
           <| tokens := {[11 := token_with 7 "k" 60]} |>.

Lemma batchUpdate_flushes_once_witness :
  let w := world_of db_of_two <| w_batch := batch_of_two |> in
  user_quota (exec batchUpdate w) 7 = 140 ∧
  ∃ w', batchUpdate w = (Ok tt, w') ∧ w_batch w' = empty_batch.
Proof.
  intros w. split; [by vm_compute|].
  destruct (batchUpdate_flushes_once w) as (w' & E & Hb & _); [done|]. exists w'. by rewrite E.
Defined.

(** *** Single updates *)

Lemma pending_addNewRecord ty id v w ty' id' :
  in_i64 (pending ty w id + v) →
  pending ty' (exec (addNewRecord ty id v) w) id' =
    pending ty' w id' + (if decide (ty = ty' ∧ id = id') then v else 0).
Proof.
  unfold exec, addNewRecord, pending. unfold_m. intros Hr. simpl.
  destruct (decide (ty = ty')) as [<-|Hne].
  - assert (∀ m b, batch_store ty (set_batch_store ty m b) = m) as -> by (by destruct ty).
    destruct (batch_store ty (w_batch w) !! id) as [old|] eqn:E; rewrite lookup_insert;
      destruct (decide (id = id')) as [<-|]; simpl.
    + rewrite decide_True by done. rewrite E in *. simpl in *. by rewrite i64_id.
    + rewrite decide_False by naive_solver. lia.
    + rewrite decide_True by done. by rewrite E.
    + rewrite decide_False by naive_solver. lia.
  - rewrite decide_False by naive_solver.
    assert (∀ m b, batch_store ty' (set_batch_store ty m b) = batch_store ty' b) as ->
      by (by destruct ty, ty'). lia.
Qed.

(** An update of the balances of one user: [q] on success, nothing on error. *)
Definition user_credit (id q : Z) (m : M world unit) (w : world) : Prop :=
  ∀ r w', m w = (r, w') →
    (∀ id', wallet_balance w' id' =
       wallet_balance w id' + (if decide (id = id') then if is_ok r then q else 0 else 0)) ∧
    (∀ t, token_balance w' t = token_balance w t).

Definition token_credit (id q : Z) (m : M world unit) (w : world) : Prop :=
  ∀ r w', m w = (r, w') →
    (∀ id', token_balance w' id' =
       token_balance w id' + (if decide (id = id') then if is_ok r then q else 0 else 0)) ∧
    (∀ u, wallet_balance w' u = wallet_balance w u).

Lemma increaseUserQuota_credit id q w :
  is_Some (users (w_db w) !! id) → user_credit id q (increaseUserQuota id q) w.
Proof.
  intros [u Hu] r w'. unfold increaseUserQuota, transaction. unfold_m.
  destruct (w_oracle w) as [|[msg|] o]; [|intros [= <- <-]|]; simpl.
  2: { split; [|done]. intros id'. unfold wallet_balance, user_quota, pending. simpl. case_decide; lia. }
  all: rewrite UPDATE_users_all; cbn; intros [= <- <-]; split; [|done]; intros id'.
  all: unfold wallet_balance, user_quota, pending; cbn; rewrite lookup_alter.
  all: case_decide; [subst; rewrite Hu; simpl; lia|lia].
Qed.

Lemma increaseTokenQuota_credit id q w :
  is_Some (tokens (w_db w) !! id) → token_credit id q (increaseTokenQuota id q) w.
Proof.
  intros [t Ht] r w'. unfold increaseTokenQuota, transaction. unfold_m.
  destruct (w_oracle w) as [|[msg|] o]; [|intros [= <- <-]|]; simpl.
  2: { split; [|done]. intros id'. unfold token_balance, token_remain, pending. simpl. case_decide; lia. }
  all: rewrite UPDATE_tokens_all; cbn; intros [= <- <-]; split; [|done]; intros id'.
  all: unfold token_balance, token_remain, pending; cbn; rewrite lookup_alter.
  all: case_decide; [subst; rewrite Ht; simpl; lia|lia].
Qed.

Lemma addNewRecord_user_credit id q w :
  in_i64 (pending BatchUpdateTypeUserQuota w id + q) →
  user_credit id q (addNewRecord BatchUpdateTypeUserQuota id q) w.
Proof.
  intros Hr r w' E. assert (r = Ok tt) as -> by (by inversion E).
  assert (w' = exec (addNewRecord BatchUpdateTypeUserQuota id q) w) as -> by (by unfold exec; rewrite E).
  unfold wallet_balance, token_balance. split; intros id'.
  - rewrite pending_addNewRecord by done. simpl. repeat case_decide; try naive_solver.
    + unfold user_quota. simpl. lia.
    + unfold user_quota. simpl. lia.
  - rewrite pending_addNewRecord by done. rewrite decide_False by naive_solver.
    unfold token_remain. simpl. lia.
Qed.

Lemma addNewRecord_token_credit id q w :
  in_i64 (pending BatchUpdateTypeTokenQuota w id + q) →
  token_credit id q (addNewRecord BatchUpdateTypeTokenQuota id q) w.
Proof.
  intros Hr r w' E. assert (r = Ok tt) as -> by (by inversion E).
  assert (w' = exec (addNewRecord BatchUpdateTypeTokenQuota id q) w) as -> by (by unfold exec; rewrite E).
  unfold wallet_balance, token_balance. split; intros id'.
  - rewrite pending_addNewRecord by done. simpl. repeat case_decide; try naive_solver.
    + unfold token_remain. simpl. lia.
    + unfold token_remain. simpl. lia.
  - rewrite pending_addNewRecord by done. rewrite decide_False by naive_solver.
    unfold user_quota. simpl. lia.
Qed.

(** Scheduling a goroutine changes no balance. *)
Lemma go_then {A} t (m : M world A) w : (go t;; m) w = m (w <| w_tasks ::= (λ ts, ts ++ [t]) |>).
Proof. done. Qed.

Lemma IncreaseUserQuota_credit id q b w :
  is_Some (users (w_db w) !! id) → in_i64 (pending BatchUpdateTypeUserQuota w id + q) →
  user_credit id q (IncreaseUserQuota id q b) w.
Proof.
  intros Hu Hr r w'. unfold IncreaseUserQuota.
  destruct (q <? 0); [intros [= <- <-]; split; [intros; case_decide; simpl; lia|done]|].
  rewrite go_then. unfold BatchUpdateEnabled. unfold_m. simpl.
  set (w1 := w <| w_tasks ::= _ |>). intros E. revert E.
  destruct (negb b && w_BatchUpdateEnabled w); intros E.
  - by apply (addNewRecord_user_credit id q w1 Hr) in E.
  - by apply (increaseUserQuota_credit id q w1 Hu) in E.
Qed.

Lemma DecreaseUserQuota_credit id q b w :
  is_Some (users (w_db w) !! id) → in_i64 (pending BatchUpdateTypeUserQuota w id - q) →
  user_credit id (- q) (DecreaseUserQuota id q b) w.
Proof.
  intros Hu Hr r w'. unfold DecreaseUserQuota.
  destruct (q <? 0); [intros [= <- <-]; split; [intros; case_decide; simpl; lia|done]|].
  rewrite go_then. unfold BatchUpdateEnabled. unfold_m. simpl.
  set (w1 := w <| w_tasks ::= _ |>). intros E. revert E.
  destruct (negb b && w_BatchUpdateEnabled w); intros E.
  - by apply (addNewRecord_user_credit id (- q) w1 Hr) in E.
  - by apply (increaseUserQuota_credit id (- q) w1 Hu) in E.
Qed.

Lemma IncreaseTokenQuota_credit id key q w :
  is_Some (tokens (w_db w) !! id) → in_i64 (pending BatchUpdateTypeTokenQuota w id + q) →
  token_credit id q (IncreaseTokenQuota id key q) w.
Proof.
  intros Hu Hr r w'. unfold IncreaseTokenQuota.
  destruct (q <? 0); [intros [= <- <-]; split; [intros; case_decide; simpl; lia|done]|].
  unfold RedisEnabled, BatchUpdateEnabled, go. unfold_m.
  destruct (w_RedisEnabled w); simpl; destruct (w_BatchUpdateEnabled w); intros E.
  - set (w1 := w <| w_tasks ::= _ |>) in E. by apply (addNewRecord_token_credit id q w1 Hr) in E.
  - set (w1 := w <| w_tasks ::= _ |>) in E. by apply (increaseTokenQuota_credit id q w1 Hu) in E.
  - by apply (addNewRecord_token_credit id q w Hr) in E.
  - by apply (increaseTokenQuota_credit id q w Hu) in E.
Qed.

Lemma DecreaseTokenQuota_credit id key q w :
  is_Some (tokens (w_db w) !! id) → in_i64 (pending BatchUpdateTypeTokenQuota w id - q) →
  token_credit id (- q) (DecreaseTokenQuota id key q) w.
Proof.
  intros Hu Hr r w'. unfold DecreaseTokenQuota.
  destruct (q <? 0); [intros [= <- <-]; split; [intros; case_decide; simpl; lia|done]|].
  unfold RedisEnabled, BatchUpdateEnabled, go. unfold_m.
  destruct (w_RedisEnabled w); simpl; destruct (w_BatchUpdateEnabled w); intros E.
  - set (w1 := w <| w_tasks ::= _ |>) in E. by apply (addNewRecord_token_credit id (- q) w1 Hr) in E.
  - set (w1 := w <| w_tasks ::= _ |>) in E. by apply (increaseTokenQuota_credit id (- q) w1 Hu) in E.
  - by apply (addNewRecord_token_credit id (- q) w Hr) in E.
  - by apply (increaseTokenQuota_credit id (- q) w Hu) in E.
Qed.

#[export] Hint Resolve IncreaseUserQuota_credit DecreaseUserQuota_credit
  IncreaseTokenQuota_credit DecreaseTokenQuota_credit : quota.

(** [DeltaUpdateUserQuota] moves the balance of its user by exactly the
    signed delta when it succeeds, by nothing when the database refuses it,
    in direct and in batch mode alike, and touches no other user and no
    token. *)
Theorem DeltaUpdateUserQuota_balance (w : world) (id delta : Z) (r : res unit) (w' : world)
    (Hu : is_Some (users (w_db w) !! id))
    (Hd : in_i64 delta) (Hmin : delta ≠ min_i64)
    (Hp : in_i64 (pending BatchUpdateTypeUserQuota w id + delta))
    (Hrun : DeltaUpdateUserQuota id delta w = (r, w')) :
  (∀ id', wallet_balance w' id' =
     wallet_balance w id' + (if decide (id = id') then if is_ok r then delta else 0 else 0)) ∧
  (∀ t, token_balance w' t = token_balance w t).
Proof.
  unfold DeltaUpdateUserQuota in Hrun.
  destruct (Z.eqb_spec delta 0) as [->|Hne].
  { inversion Hrun; subst. split; [|done]. intros. case_decide; simpl; lia. }
  destruct (Z.ltb_spec 0 delta).
  - by apply IncreaseUserQuota_credit in Hrun.
  - rewrite i64_id in Hrun by (unfold in_i64, min_i64, max_i64 in *; lia).
    replace delta with (- (- delta)) in * by lia. rewrite Z.opp_involutive in Hrun.
    by apply DecreaseUserQuota_credit in Hrun; [|done|].
Qed.

Lemma DeltaUpdateUserQuota_balance_witness :
  let w := world_of db_of_two <| w_BatchUpdateEnabled := true |> in
  let w' := exec (DeltaUpdateUserQuota 7 (-30)) w in
  is_Some (users (w_db w) !! 7) ∧
  (∀ id', wallet_balance w' id' = wallet_balance w id' + (if decide (7 = id') then -30 else 0)).
Proof.
  intros w w'. split; [by eexists|].
  apply (DeltaUpdateUserQuota_balance w 7 (-30) (Ok tt)); [by eexists|..|done].
  all: unfold in_i64, min_i64, max_i64; vm_compute; intuition congruence.
Defined.
