(* ===== verification/QuotaReserve.v ===== *)
(** * Atomic quota reservation through the Redis cache

    src/model/quota_reserve.go (the Lua scripts and [TryReserve*]), with the
    cache hydration it calls: src/model/user_cache.go,
    src/model/user_auth_cache.go, src/model/token_cache.go and
    [GetTokenByKey] of src/model/token.go. *)

From S2P Require Import Prelude Store QuotaBatch.

Inductive cacheQuotaResult := cacheQuotaInsufficient | cacheQuotaOK | cacheQuotaMiss | cacheQuotaFenced.
#[global] Instance cacheQuotaResult_eq_dec : EqDecision cacheQuotaResult.
Proof. solve_decision. Defined.

Definition userCacheSchemaVersion : Z := 2.

(** ** Fences *)

(** A fence is a key with a time to live.  The model does not count seconds:
    only the presence of the key is part of the state. *)
Definition invalidateUserQuotaCacheForMutation (userID : Z) : M world unit :=
  redis ← RedisEnabled;
  if negb redis || (userID <=? 0) then mret tt
  else
    redis_call (SET (KUserQuotaFence userID) (VInt 1));;
    redis_call (DEL (KUser userID)).

Definition invalidateTokenCacheForMutation (key : string) : M world unit :=
  redis ← RedisEnabled;
  if negb redis || bool_decide (key = EmptyString) then mret tt
  else
    redis_call (SET (KTokenFence key) (VInt 1));;
    redis_call (DEL (KToken key)).

(** ** The Lua scripts *)

Definition userQuotaReserveScript (userID amount : Z) : M redis Z :=
  fenced ← EXISTS (KUserQuotaFence userID);
  if fenced : bool then mret (-2) else
  id ← HGET (KUser userID) "Id";
  schema ← HGET (KUser userID) "CacheSchema";
  q ← HGET (KUser userID) "Quota";
  if negb (bool_decide (tonumber_or_0 id = Some userID)) ||
     negb (bool_decide (tonumber_or_0 schema = Some userCacheSchemaVersion)) ||
     bool_decide (q = None)
  then mret (-1)
  else match tonumber q with
       | None => mret 0
       | Some quota =>
           if quota <? amount then mret 0
           else HINCRBY (KUser userID) "Quota" (- amount);; mret 1
       end.

Definition userQuotaDeltaScript (userID delta : Z) : M redis Z :=
  fenced ← EXISTS (KUserQuotaFence userID);
  if fenced : bool then mret (-2) else
  id ← HGET (KUser userID) "Id";
  schema ← HGET (KUser userID) "CacheSchema";
  q ← HGET (KUser userID) "Quota";
  if negb (bool_decide (tonumber_or_0 id = Some userID)) ||
     negb (bool_decide (tonumber_or_0 schema = Some userCacheSchemaVersion)) ||
     bool_decide (q = None)
  then mret (-1)
  else HINCRBY (KUser userID) "Quota" delta;; mret 1.

Definition tokenQuotaReserveScript (now id : Z) (key : string) (amount : Z) : M redis Z :=
  fenced ← EXISTS (KTokenFence key);
  if fenced : bool then mret (-2) else
  hid ← HGET (KToken key) "Id";
  rq ← HGET (KToken key) "RemainQuota";
  uq ← HGET (KToken key) "UsedQuota";
  if negb (bool_decide (tonumber_or_0 hid = Some id)) || bool_decide (rq = None) || bool_decide (uq = None)
  then mret (-1)
  else match tonumber rq with
       | None => mret 0
       | Some remain =>
           if remain <? amount then mret 0
           else
             HINCRBY (KToken key) "RemainQuota" (- amount);;
             HINCRBY (KToken key) "UsedQuota" amount;;
             HSET (KToken key) [("AccessedTime", VInt now)];;
             mret 1
       end.

Definition tokenQuotaDeltaScript (now id : Z) (key : string) (delta : Z) : M redis Z :=
  fenced ← EXISTS (KTokenFence key);
  if fenced : bool then mret (-2) else
  hid ← HGET (KToken key) "Id";
  rq ← HGET (KToken key) "RemainQuota";
  uq ← HGET (KToken key) "UsedQuota";
  if negb (bool_decide (tonumber_or_0 hid = Some id)) || bool_decide (rq = None) || bool_decide (uq = None)
  then mret (-1)
  else
    HINCRBY (KToken key) "RemainQuota" delta;;
    HINCRBY (KToken key) "UsedQuota" (- delta);;
    HSET (KToken key) [("AccessedTime", VInt now)];;
    mret 1.

Definition quotaResultFromLua (result : res Z) : res cacheQuotaResult :=
  match result with
  | Err e => Err e
  | Ok 1 => Ok cacheQuotaOK
  | Ok 0 => Ok cacheQuotaInsufficient
  | Ok (-2) => Ok cacheQuotaFenced
  | Ok _ => Ok cacheQuotaMiss
  end.

Definition eval_quota (script : M redis Z) : M world cacheQuotaResult :=
  r ← try (redis_call script); lift_res (quotaResultFromLua r).

Definition cacheTryReserveUserQuota (userID amount : Z) : M world cacheQuotaResult :=
  eval_quota (userQuotaReserveScript userID amount).
Definition cacheApplyUserQuotaDelta (userID delta : Z) : M world cacheQuotaResult :=
  eval_quota (userQuotaDeltaScript userID delta).
Definition cacheTryReserveTokenQuota (id : Z) (key : string) (amount : Z) : M world cacheQuotaResult :=
  now ← GetTimestamp; eval_quota (tokenQuotaReserveScript now id key amount).
Definition cacheApplyTokenQuotaDelta (id : Z) (key : string) (delta : Z) : M world cacheQuotaResult :=
  now ← GetTimestamp; eval_quota (tokenQuotaDeltaScript now id key delta).

(** user_cache.go: [cacheIncrUserQuota] and the goroutines of
    [IncreaseUserQuota] and [IncreaseTokenQuota]. *)
Definition cacheIncrUserQuota (userId delta : Z) : M world unit :=
  redis ← RedisEnabled;
  if redis : bool then _ ← cacheApplyUserQuotaDelta userId delta; mret tt else mret tt.
Definition cacheDecrUserQuota (userId delta : Z) : M world unit := cacheIncrUserQuota userId (i64 (- delta)).
Definition syncCreditUserQuotaCache (userId quota : Z) : M world unit :=
  if quota <=? 0 then mret tt else log_error (cacheIncrUserQuota userId quota).

Definition run_task (t : task) : M world unit :=
  match t with
  | TaskUserQuotaDelta id delta => log_error (cacheIncrUserQuota id delta)
  | TaskTokenQuotaDelta id key delta => log_error (cacheApplyTokenQuotaDelta id key delta)
  end.

(** ** Cache hydration *)

Record UserBase := MkUserBase {
  ub_Id : Z; ub_Group : string; ub_Email : string; ub_Quota : Z; ub_Status : Z; ub_Role : Z;
  ub_Username : string; ub_Setting : string; ub_AuthVersion : Z; ub_CacheSchema : Z
}.
#[global] Instance eta_UserBase : Eta UserBase := λ r,
  MkUserBase (ub_Id r) (ub_Group r) (ub_Email r) (ub_Quota r) (ub_Status r) (ub_Role r)
    (ub_Username r) (ub_Setting r) (ub_AuthVersion r) (ub_CacheSchema r).

Definition ToBaseUser (id : Z) (user : User) : UserBase :=
  MkUserBase id (u_Group user) (u_Email user) (u_Quota user) (u_Status user) (u_Role user)
    (u_Username user) (u_Setting user) (u_AuthVersion user) userCacheSchemaVersion.

(** A hash field read into a struct field: absent fields keep the zero
    value, a non-numeric string in a numeric field is a parse error. *)
Definition hash_int (h : gmap string rval) (f : string) : M world Z :=
  match h !! f with
  | None => mret 0
  | Some (VInt z) => mret z
  | Some (VStr _) => fail (ErrNew "failed to parse hash field")
  end.
Definition hash_str (h : gmap string rval) (f : string) : string :=
  match h !! f with None => EmptyString | Some (VInt z) => pretty z | Some (VStr s) => s end.
Definition hash_bool (h : gmap string rval) (f : string) : M world bool :=
  match h !! f with
  | None => mret false
  | Some (VStr s) =>
      if decide (s = "true") then mret true
      else if decide (s = "false") then mret false
      else fail (ErrNew "failed to parse hash field")
  | Some (VInt z) =>
      if decide (z = 1) then mret true else if decide (z = 0) then mret false
      else fail (ErrNew "failed to parse hash field")
  end.

(** common.RedisHGetObj: an empty or absent hash is an error. *)
Definition RedisHGetAll (k : rkey) : M world (gmap string rval) :=
  h ← redis_call (HGETALL k);
  if decide (h = ∅) then fail (ErrNew "key not found in Redis") else mret h.

(** user_auth_cache.go *)
Definition getUserAuthVersionFloor (userId : Z) : M world Z :=
  redis ← RedisEnabled;
  if negb redis then mret 0 else
  values ← redis_call (a ← GET (KUserAuthFence userId); b ← GET (KUserAuthVersion userId); mret [a; b]);
  foldl (λ acc value,
    floor ← acc;
    match value with
    | None => mret floor
    | Some (VInt parsed) => mret (if floor <? parsed then parsed else floor)
    | Some (VStr _) => fail (ErrNew "strconv.ParseInt")
    end) (mret 0) values.

Definition lua_number (v : option rval) : M redis Z :=
  match tonumber_or_0 v with
  | Some z => mret z
  | None => fail (ErrDriver "attempt to compare nil with number")
  end.

Definition writeUserCacheScript (user : UserBase) (includeQuota : bool) : M redis Z :=
  let k := KUser (ub_Id user) in
  let incoming := ub_AuthVersion user in
  pv ← GET (KUserAuthFence (ub_Id user)); pending ← lua_number pv;
  cv ← GET (KUserAuthVersion (ub_Id user)); committed ← lua_number cv;
  av ← HGET k "AuthVersion"; current ← lua_number av;
  if (incoming <? pending) || (incoming <? committed) || (incoming <? current) then mret 0
  else
    (if committed <? incoming then SET (KUserAuthVersion (ub_Id user)) (VInt incoming) else mret tt);;
    (if (0 <? pending) && (pending <=? incoming) then DEL (KUserAuthFence (ub_Id user)) else mret tt);;
    present ← EXISTS k;
    if negb includeQuota && negb present then mret 1
    else
      HSET k [("Id", VInt (ub_Id user)); ("Group", VStr (ub_Group user)); ("Email", VStr (ub_Email user));
              ("Status", VInt (ub_Status user)); ("Role", VInt (ub_Role user));
              ("Username", VStr (ub_Username user)); ("Setting", VStr (ub_Setting user));
              ("AuthVersion", VInt incoming); ("CacheSchema", VInt (ub_CacheSchema user))];;
      q ← HGET k "Quota";
      (if includeQuota && bool_decide (q = None) then HSET k [("Quota", VInt (ub_Quota user))] else mret tt);;
      mret 1.

Definition writeUserCache (user : UserBase) (includeQuota : bool) : M world unit :=
  redis ← RedisEnabled;
  if (ub_Id user <=? 0) || negb redis then mret tt else
  let user := user <| ub_CacheSchema := userCacheSchemaVersion |> in
  if ub_AuthVersion user <=? 0 then fail (ErrNew "invalid user auth version") else
  result ← redis_call (writeUserCacheScript user includeQuota);
  if result =? 0 then fail ErrUserAuthCachePending else mret tt.

(** user_cache.go *)
Definition populateUserCache (id : Z) (user : User) : M world unit :=
  redis ← RedisEnabled;
  if negb redis then mret tt else writeUserCache (ToBaseUser id user) true.
Definition updateUserCache (id : Z) (user : User) : M world unit :=
  redis ← RedisEnabled;
  if negb redis then mret tt else writeUserCache (ToBaseUser id user) false.

Definition cacheGetUserBase (userId : Z) : M world UserBase :=
  redis ← RedisEnabled;
  if negb redis then fail (ErrNew "redis is not enabled") else
  h ← RedisHGetAll (KUser userId);
  id ← hash_int h "Id"; quota ← hash_int h "Quota"; status ← hash_int h "Status";
  role ← hash_int h "Role"; ver ← hash_int h "AuthVersion"; schema ← hash_int h "CacheSchema";
  let userCache := MkUserBase id (hash_str h "Group") (hash_str h "Email") quota status role
                     (hash_str h "Username") (hash_str h "Setting") ver schema in
  if negb (id =? userId) || negb (schema =? userCacheSchemaVersion) || (ver <=? 0)
  then fail (ErrNew "user cache schema is stale") else
  floor ← getUserAuthVersionFloor userId;
  if ver <? floor then fail ErrUserAuthCachePending else mret userCache.

(** user.go: [GetUserById(id, false)] *)
Definition GetUserById (id : Z) : M world User :=
  if id =? 0 then fail (ErrNew "id 为空！") else transaction (λ _, FIRST users id).

Definition GetUserCache (userId : Z) : M world UserBase :=
  cached ← try (cacheGetUserBase userId);
  match cached with
  | Ok userCache => mret userCache
  | Err _ =>
      user ← GetUserById userId;
      redis ← RedisEnabled;
      (if redis : bool then
         floor ← try (getUserAuthVersionFloor userId);
         (match floor with
          | Ok floor => if u_AuthVersion user <? floor then fail ErrUserAuthCachePending else mret tt
          | Err _ => mret tt
          end);;
         p ← try (populateUserCache userId user);
         match p with
         | Err e => if error_is e ErrUserAuthCachePending then fail e else mret tt
         | Ok _ => mret tt
         end
       else mret tt);;
      mret (ToBaseUser userId user)
  end.

(** user.go: [GetUserQuota]; [Find] into a scalar leaves 0 when no row matches. *)
Definition GetUserQuota (id : Z) (fromDB : bool) : M world Z :=
  redis ← RedisEnabled;
  if negb fromDB && redis then c ← GetUserCache id; mret (ub_Quota c)
  else transaction (λ _ d, (Ok (match users d !! id with Some u => u_Quota u | None => 0 end), d)).

(** token_cache.go *)
Definition cacheInitTokenScript (id : Z) (token : Token) : M redis Z :=
  fenced ← EXISTS (KTokenFence (t_Key token));
  if fenced : bool then mret 0 else
  present ← EXISTS (KToken (t_Key token));
  if present : bool then mret 2
  else
    HSET (KToken (t_Key token))
      [("Id", VInt id); ("UserId", VInt (t_UserId token)); ("Status", VInt (t_Status token));
       ("AccessedTime", VInt (t_AccessedTime token)); ("ExpiredTime", VInt (t_ExpiredTime token));
       ("UnlimitedQuota", VStr (if t_UnlimitedQuota token then "true" else "false"));
       ("RemainQuota", VInt (t_RemainQuota token)); ("UsedQuota", VInt (t_UsedQuota token))];;
    mret 1.

Definition cacheInitToken (id : Z) (token : Token) : M world Z :=
  redis ← RedisEnabled;
  if negb redis then mret 0 else redis_call (cacheInitTokenScript id token).

Definition cacheGetTokenByKey (key : string) : M world (Z * Token) :=
  redis ← RedisEnabled;
  if negb redis then fail (ErrNew "redis is not enabled") else
  h ← RedisHGetAll (KToken key);
  id ← hash_int h "Id"; uid ← hash_int h "UserId"; status ← hash_int h "Status";
  acc ← hash_int h "AccessedTime"; exp ← hash_int h "ExpiredTime";
  unl ← hash_bool h "UnlimitedQuota"; rq ← hash_int h "RemainQuota"; uq ← hash_int h "UsedQuota";
  if id <=? 0 then fail (ErrNew "token cache is incomplete")
  else mret (id, MkToken uid key status acc exp unl rq uq).

(** token.go: the row with a given (unique) key. *)
Definition find_token_by_key (d : db) (key : string) : option (Z * Token) :=
  head (filter (λ '(_, t), t_Key t = key) (map_to_list (tokens d))).

Definition GetTokenByKey (key : string) (fromDB : bool) : M world (Z * Token) :=
  redis ← RedisEnabled;
  cached ← (if negb fromDB && redis then c ← try (cacheGetTokenByKey key); mret (Some c) else mret None);
  match cached with
  | Some (Ok token) => mret token
  | _ =>
      token ← transaction (λ _ d, match find_token_by_key d key with
                                  | Some t => (Ok t, d)
                                  | None => (Err ErrRecordNotFound, d)
                                  end);
      (if redis : bool then log_error (cacheInitToken token.1 token.2) else mret tt);;
      mret token
  end.

(** ** Persisting and reserving *)

Definition persistUserQuotaDelta (id delta : Z) : M world unit :=
  batch ← BatchUpdateEnabled;
  if batch : bool then addNewRecord BatchUpdateTypeUserQuota id delta
  else
    n ← transaction (λ _, UPDATE users id (λ _, true) (λ u, u <| u_Quota ::= (λ q, q + delta) |>));
    if n =? 1 then mret tt else fail ErrRecordNotFound.

Definition persistTokenQuotaDelta (id delta : Z) : M world unit :=
  batch ← BatchUpdateEnabled;
  if batch : bool then addNewRecord BatchUpdateTypeTokenQuota id delta
  else
    n ← transaction (λ now, UPDATE tokens id (λ _, true) (token_add now delta));
    if n =? 1 then mret tt else fail ErrRecordNotFound.

Definition reserveUserQuotaDB (id quota : Z) : M world bool :=
  n ← transaction (λ _, UPDATE users id (λ u, quota <=? u_Quota u)
        (λ u, u <| u_Quota ::= (λ q, q - quota) |>));
  mret (n =? 1).

Definition reserveTokenQuotaDB (id quota : Z) : M world bool :=
  n ← transaction (λ now, UPDATE tokens id (λ t, quota <=? t_RemainQuota t) (token_add now (- quota)));
  mret (n =? 1).

Definition TryReserveUserQuota (id quota : Z) : M world bool :=
  if quota <? 0 then fail negative_quota
  else if quota =? 0 then mret true
  else
    redis ← RedisEnabled;
    if negb redis then reserveUserQuotaDB id quota
    else
      result ← try (cacheTryReserveUserQuota id quota);
      result ← (if bool_decide (result = Ok cacheQuotaMiss) then
                  hydrated ← try (GetUserCache id);
                  if is_ok hydrated then try (cacheTryReserveUserQuota id quota) else mret result
                else mret result);
      match result with
      | Err _ | Ok cacheQuotaMiss | Ok cacheQuotaFenced => reserveUserQuotaDB id quota
      | Ok cacheQuotaInsufficient => mret false
      | Ok cacheQuotaOK =>
          persisted ← try (persistUserQuotaDelta id (i64 (- quota)));
          match persisted with
          | Err e => _ ← try (cacheApplyUserQuotaDelta id quota); fail e
          | Ok _ => mret true
          end
      end.

Definition TryReserveTokenQuota (id : Z) (key : string) (quota : Z) (unlimited : bool) : M world bool :=
  if quota <? 0 then fail negative_quota
  else if quota =? 0 then mret true
  else if unlimited then DecreaseTokenQuota id key quota;; mret true
  else
    redis ← RedisEnabled;
    if negb redis then reserveTokenQuotaDB id quota
    else
      result ← try (cacheTryReserveTokenQuota id key quota);
      result ← (if bool_decide (result = Ok cacheQuotaMiss) then
                  hydrated ← try (GetTokenByKey key true);
                  if is_ok hydrated then try (cacheTryReserveTokenQuota id key quota) else mret result
                else mret result);
      match result with
      | Err _ | Ok cacheQuotaMiss | Ok cacheQuotaFenced => reserveTokenQuotaDB id quota
      | Ok cacheQuotaInsufficient => mret false
      | Ok cacheQuotaOK =>
          persisted ← try (persistTokenQuotaDelta id (i64 (- quota)));
          match persisted with
          | Err e => _ ← try (cacheApplyTokenQuotaDelta id key quota); fail e
          | Ok _ => mret true
          end
      end.

(** ** Hydration and the scripts never touch the tables *)

Lemma eval_quota_frame script : Frame (eval_quota script).
Proof. unfold eval_quota. frame_tac. Qed.

Lemma hash_int_frame h f : Frame (hash_int h f).
Proof. unfold hash_int. frame_tac. Qed.
Lemma hash_bool_frame h f : Frame (hash_bool h f).
Proof. unfold hash_bool. frame_tac. Qed.
#[export] Hint Resolve eval_quota_frame hash_int_frame hash_bool_frame : frame.

Lemma getUserAuthVersionFloor_frame id : Frame (getUserAuthVersionFloor id).
Proof.
  unfold getUserAuthVersionFloor, RedisEnabled. frame_step; [frame_tac|].
  frame_step; [frame_tac|]. frame_step; [frame_tac|]. rename a0 into values.
  assert (∀ acc : M world Z, Frame acc → Frame (foldl (λ acc value,
    floor ← acc;
    match value with
    | None => mret floor
    | Some (VInt parsed) => mret (if floor <? parsed then parsed else floor)
    | Some (VStr _) => fail (ErrNew "strconv.ParseInt")
    end) acc values)) as Hgen; [|by apply Hgen, frame_ret].
  induction values as [|v vs IH]; intros acc Hacc; [done|]. cbn [foldl]. apply IH. frame_tac.
Qed.

Lemma writeUserCache_frame user b : Frame (writeUserCache user b).
Proof. unfold writeUserCache, RedisEnabled. frame_tac. Qed.
#[export] Hint Resolve getUserAuthVersionFloor_frame writeUserCache_frame : frame.

Lemma RedisHGetAll_frame k : Frame (RedisHGetAll k).
Proof. unfold RedisHGetAll. frame_tac. Qed.
#[export] Hint Resolve RedisHGetAll_frame : frame.

Lemma cacheGetUserBase_frame id : Frame (cacheGetUserBase id).
Proof. unfold cacheGetUserBase, RedisEnabled. frame_tac. Qed.

Lemma GetUserById_frame id : Frame (GetUserById id).
Proof.
  unfold GetUserById. destruct (id =? 0); [frame_tac|]. apply frame_read.
  unfold FIRST. intros now d a d'. destruct (users d !! id); congruence.
Qed.
#[export] Hint Resolve cacheGetUserBase_frame GetUserById_frame : frame.

Lemma GetUserCache_frame id : Frame (GetUserCache id).
Proof. unfold GetUserCache, RedisEnabled, populateUserCache, RedisEnabled. frame_tac. Qed.

Lemma cacheGetTokenByKey_frame key : Frame (cacheGetTokenByKey key).
Proof. unfold cacheGetTokenByKey, RedisEnabled. frame_tac. Qed.
#[export] Hint Resolve GetUserCache_frame cacheGetTokenByKey_frame : frame.

Lemma GetTokenByKey_frame key b : Frame (GetTokenByKey key b).
Proof.
  unfold GetTokenByKey, RedisEnabled, log_error, cacheInitToken, RedisEnabled. frame_tac.
  all: apply frame_read; intros now d x d'; destruct (find_token_by_key d key); congruence.
Qed.
#[export] Hint Resolve GetTokenByKey_frame : frame.

(** ** Balances *)

Lemma same_store_balances w w' :
  same_store w w' →
  (∀ id, wallet_balance w' id = wallet_balance w id) ∧ (∀ t, token_balance w' t = token_balance w t).
Proof.
  unfold same_store, wallet_balance, token_balance, user_quota, token_remain, pending.
  intros (-> & -> & _). done.
Qed.

(** A reservation: [quota] leaves the balance of its owner exactly when the
    result is [Ok true]. *)
Definition granted (r : res bool) : bool := match r with Ok b => b | Err _ => false end.

Definition user_reserve (id quota : Z) (m : M world bool) (w : world) : Prop :=
  ∀ r w', m w = (r, w') →
    (∀ id', wallet_balance w' id' =
       wallet_balance w id' - (if decide (id = id') then if granted r then quota else 0 else 0)) ∧
    (∀ t, token_balance w' t = token_balance w t).
Definition token_reserve (id quota : Z) (m : M world bool) (w : world) : Prop :=
  ∀ r w', m w = (r, w') →
    (∀ id', token_balance w' id' =
       token_balance w id' - (if decide (id = id') then if granted r then quota else 0 else 0)) ∧
    (∀ u, wallet_balance w' u = wallet_balance w u).

Lemma user_reserve_refused id quota w r w' :
  same_store w w' → granted r = false →
  (∀ id', wallet_balance w' id' =
     wallet_balance w id' - (if decide (id = id') then if granted r then quota else 0 else 0)) ∧
  (∀ t, token_balance w' t = token_balance w t).
Proof.
  intros [Hu Ht]%same_store_balances ->. split; [|done]. intros id'. rewrite Hu. case_decide; lia.
Qed.
Lemma token_reserve_refused id quota w r w' :
  same_store w w' → granted r = false →
  (∀ id', token_balance w' id' =
     token_balance w id' - (if decide (id = id') then if granted r then quota else 0 else 0)) ∧
  (∀ u, wallet_balance w' u = wallet_balance w u).
Proof.
  intros [Hu Ht]%same_store_balances ->. split; [|done]. intros id'. rewrite Ht. case_decide; lia.
Qed.

(** The steps before a reservation leave the store as it was. *)
Lemma user_reserve_frame {A} id quota (m : M world A) k w :
  Frame m → (∀ a w', same_store w w' → user_reserve id quota (k a) w') →
  user_reserve id quota (m ≫= k) w.
Proof.
  intros Hm Hk r w'. unfold mbind, M_bind. specialize (Hm w).
  destruct (m w) as [[a|e] w1]; simpl in *.
  - intros E. apply Hk in E as [H1 H2]; [|done]. destruct (same_store_balances _ _ Hm) as [Eu Et].
    split; [intros id'; by rewrite H1, Eu|intros t; by rewrite H2, Et].
  - intros [= <- <-]. by apply user_reserve_refused.
Qed.
Lemma token_reserve_frame {A} id quota (m : M world A) k w :
  Frame m → (∀ a w', same_store w w' → token_reserve id quota (k a) w') →
  token_reserve id quota (m ≫= k) w.
Proof.
  intros Hm Hk r w'. unfold mbind, M_bind. specialize (Hm w).
  destruct (m w) as [[a|e] w1]; simpl in *.
  - intros E. apply Hk in E as [H1 H2]; [|done]. destruct (same_store_balances _ _ Hm) as [Eu Et].
    split; [intros id'; by rewrite H1, Et|intros t; by rewrite H2, Eu].
  - intros [= <- <-]. by apply token_reserve_refused.
Qed.

Lemma user_reserve_ret id quota w : user_reserve id quota (mret false) w.
Proof. intros r w' [= <- <-]. by apply user_reserve_refused. Qed.
Lemma token_reserve_ret id quota w : token_reserve id quota (mret false) w.
Proof. intros r w' [= <- <-]. by apply token_reserve_refused. Qed.

(** [UPDATE .. WHERE id = ? AND quota >= ?] *)
Lemma reserveUserQuotaDB_exact id quota w : user_reserve id quota (reserveUserQuotaDB id quota) w.
Proof.
  intros r w'. unfold reserveUserQuotaDB, transaction. unfold_m.
  destruct (w_oracle w) as [|[msg|] o]; [|intros [= <- <-]; by apply user_reserve_refused|].
  all: unfold UPDATE; destruct (users (w_db w) !! id) as [u|] eqn:Hu;
    [|intros [= <- <-]; by apply user_reserve_refused].
  all: destruct (quota <=? u_Quota u); cbn;
    [intros [= <- <-]|intros [= <- <-]; by apply user_reserve_refused].
  all: split; [|done]; intros id'; unfold wallet_balance, user_quota, pending; cbn.
  all: rewrite lookup_insert; case_decide; [subst; rewrite Hu; cbn; lia|lia].
Qed.

Lemma reserveTokenQuotaDB_exact id quota w : token_reserve id quota (reserveTokenQuotaDB id quota) w.
Proof.
  intros r w'. unfold reserveTokenQuotaDB, transaction. unfold_m.
  destruct (w_oracle w) as [|[msg|] o]; [|intros [= <- <-]; by apply token_reserve_refused|].
  all: unfold UPDATE; destruct (tokens (w_db w) !! id) as [u|] eqn:Hu;
    [|intros [= <- <-]; by apply token_reserve_refused].
  all: destruct (quota <=? t_RemainQuota u); cbn;
    [intros [= <- <-]|intros [= <- <-]; by apply token_reserve_refused].
  all: split; [|done]; intros id'; unfold token_balance, token_remain, pending; cbn.
  all: rewrite lookup_insert; case_decide; [subst; rewrite Hu; cbn; lia|lia].
Qed.

(** [persist*QuotaDelta]: queue the delta, or write the row. *)
Lemma persistUserQuotaDelta_credit id delta w :
  is_Some (users (w_db w) !! id) → in_i64 (pending BatchUpdateTypeUserQuota w id + delta) →
  user_credit id delta (persistUserQuotaDelta id delta) w.
Proof.
  intros Hu Hr r w'. unfold persistUserQuotaDelta, BatchUpdateEnabled. unfold mbind at 1, M_bind at 1.
  cbn -[addNewRecord transaction]. destruct (w_BatchUpdateEnabled w).
  { intros E. by apply (addNewRecord_user_credit id delta w Hr) in E. }
  pose proof (increaseUserQuota_credit id delta w Hu) as Hc. unfold user_credit, increaseUserQuota in Hc.
  unfold transaction in *. unfold_m. destruct (w_oracle w) as [|[msg|] o]; cbn;
    [|intros [= <- <-]; by apply Hc|].
  all: rewrite UPDATE_users_all in *; rewrite decide_True in * by done.
  all: cbn; intros [= <- <-]; by apply Hc.
Qed.

Lemma persistTokenQuotaDelta_credit id delta w :
  is_Some (tokens (w_db w) !! id) → in_i64 (pending BatchUpdateTypeTokenQuota w id + delta) →
  token_credit id delta (persistTokenQuotaDelta id delta) w.
Proof.
  intros Hu Hr r w'. unfold persistTokenQuotaDelta, BatchUpdateEnabled. unfold mbind at 1, M_bind at 1.
  cbn -[addNewRecord transaction]. destruct (w_BatchUpdateEnabled w).
  { intros E. by apply (addNewRecord_token_credit id delta w Hr) in E. }
  pose proof (increaseTokenQuota_credit id delta w Hu) as Hc. unfold token_credit, increaseTokenQuota in Hc.
  unfold transaction in *. unfold_m. destruct (w_oracle w) as [|[msg|] o]; cbn;
    [|intros [= <- <-]; by apply Hc|].
  all: rewrite UPDATE_tokens_all in *; rewrite decide_True in * by done.
  all: cbn; intros [= <- <-]; by apply Hc.
Qed.

(** The last step of both reservations: persist, or undo in the cache. *)
Lemma user_reserve_persist id quota w (P : M world unit) {A} (undo : M world A) :
  user_credit id (- quota) P w → Frame undo →
  user_reserve id quota (p ← try P;
    match p with Err e => _ ← try undo; fail e | Ok _ => mret true end) w.
Proof.
  intros Hc Hf r w'. unfold_m. destruct (P w) as [[[]|e] w1] eqn:E; apply Hc in E as [H1 H2]; cbn in *.
  - intros [= <- <-]. split; [|done]. intros id'. rewrite H1. case_decide; cbn; lia.
  - specialize (Hf w1). destruct (undo w1) as [r0 w2]. cbn in *. intros [= <- <-].
    destruct (same_store_balances _ _ Hf) as [Eu Et].
    split; intros; [rewrite Eu, H1; case_decide; cbn; lia|by rewrite Et, H2].
Qed.
Lemma token_reserve_persist id quota w (P : M world unit) {A} (undo : M world A) :
  token_credit id (- quota) P w → Frame undo →
  token_reserve id quota (p ← try P;
    match p with Err e => _ ← try undo; fail e | Ok _ => mret true end) w.
Proof.
  intros Hc Hf r w'. unfold_m. destruct (P w) as [[[]|e] w1] eqn:E; apply Hc in E as [H1 H2]; cbn in *.
  - intros [= <- <-]. split; [|done]. intros id'. rewrite H1. case_decide; cbn; lia.
  - specialize (Hf w1). destruct (undo w1) as [r0 w2]. cbn in *. intros [= <- <-].
    destruct (same_store_balances _ _ Hf) as [Eu Et].
    split; intros; [rewrite Et, H1; case_decide; cbn; lia|by rewrite Eu, H2].
Qed.

Lemma same_store_pending ty w w' id : same_store w w' → pending ty w' id = pending ty w id.
Proof. unfold same_store, pending. intros (_ & -> & _). done. Qed.
Lemma same_store_db w w' : same_store w w' → w_db w' = w_db w.
Proof. by intros []. Qed.

(** Whatever the cache holds and whichever database or Redis call fails,
    [TryReserveUserQuota] takes exactly [quota] from the wallet of its user
    when it returns [true] and nothing when it returns [false] or an error;
    no other wallet and no token moves. *)
Theorem TryReserveUserQuota_exact (w : world) (id quota : Z) (r : res bool) (w' : world)
    (Hu : is_Some (users (w_db w) !! id)) (Hq : in_i64 quota)
    (Hp : in_i64 (pending BatchUpdateTypeUserQuota w id - quota))
    (Hrun : TryReserveUserQuota id quota w = (r, w')) :
  (∀ id', wallet_balance w' id' =
     wallet_balance w id' - (if decide (id = id') then if granted r then quota else 0 else 0)) ∧
  (∀ t, token_balance w' t = token_balance w t).
Proof.
  revert r w' Hrun. change (user_reserve id quota (TryReserveUserQuota id quota) w).
  unfold TryReserveUserQuota. destruct (Z.ltb_spec quota 0).
  { intros r w' [= <- <-]. by apply user_reserve_refused. }
  destruct (Z.eqb_spec quota 0) as [->|].
  { intros r w' [= <- <-]. split; [|done]. intros. case_decide; cbn; lia. }
  apply user_reserve_frame; [apply frame_gets|intros redis w1 S1].
  destruct (negb redis); [apply reserveUserQuotaDB_exact|].
  apply user_reserve_frame; [unfold cacheTryReserveUserQuota; frame_tac|intros res1 w2 S2].
  apply user_reserve_frame; [unfold cacheTryReserveUserQuota; frame_tac|intros res2 w3 S3].
  destruct res2 as [[]|e]; try apply reserveUserQuotaDB_exact; [apply user_reserve_ret|].
  assert (same_store w w3) as S by (by etrans; [|etrans]).
  rewrite i64_id by (unfold in_i64, min_i64, max_i64 in *; lia).
  apply user_reserve_persist; [|apply eval_quota_frame].
  apply persistUserQuotaDelta_credit;
    [by rewrite (same_store_db _ _ S)|by rewrite (same_store_pending _ _ _ _ S)].
Qed.

(** The same for [TryReserveTokenQuota] on limited and unlimited tokens. *)
Theorem TryReserveTokenQuota_exact (w : world) (id : Z) (key : string) (quota : Z) (unlimited : bool)
    (r : res bool) (w' : world)
    (Ht : is_Some (tokens (w_db w) !! id)) (Hq : in_i64 quota)
    (Hp : in_i64 (pending BatchUpdateTypeTokenQuota w id - quota))
    (Hrun : TryReserveTokenQuota id key quota unlimited w = (r, w')) :
  (∀ id', token_balance w' id' =
     token_balance w id' - (if decide (id = id') then if granted r then quota else 0 else 0)) ∧
  (∀ u, wallet_balance w' u = wallet_balance w u).
Proof.
  revert r w' Hrun. change (token_reserve id quota (TryReserveTokenQuota id key quota unlimited) w).
  unfold TryReserveTokenQuota. destruct (Z.ltb_spec quota 0).
  { intros r w' [= <- <-]. by apply token_reserve_refused. }
  destruct (Z.eqb_spec quota 0) as [->|].
  { intros r w' [= <- <-]. split; [|done]. intros. case_decide; cbn; lia. }
  destruct unlimited.
  { pose proof (DecreaseTokenQuota_credit id key quota w Ht Hp) as Hc.
    intros r w'. unfold_m. destruct (DecreaseTokenQuota id key quota w) as [[[]|e] w1] eqn:E;
      apply Hc in E as [H1 H2]; cbn; intros [= <- <-]; (split; [|done]); intros; rewrite H1;
      case_decide; cbn; lia. }
  apply token_reserve_frame; [apply frame_gets|intros redis w1 S1].
  destruct (negb redis); [apply reserveTokenQuotaDB_exact|].
  apply token_reserve_frame; [unfold cacheTryReserveTokenQuota, GetTimestamp; frame_tac|intros res1 w2 S2].
  apply token_reserve_frame; [unfold cacheTryReserveTokenQuota, GetTimestamp; frame_tac|intros res2 w3 S3].
  destruct res2 as [[]|e]; try apply reserveTokenQuotaDB_exact; [apply token_reserve_ret|].
  assert (same_store w w3) as S by (by etrans; [|etrans]).
  rewrite i64_id by (unfold in_i64, min_i64, max_i64 in *; lia).
  apply token_reserve_persist; [|unfold cacheApplyTokenQuotaDelta, GetTimestamp; frame_tac].
  apply persistTokenQuotaDelta_credit;
    [by rewrite (same_store_db _ _ S)|by rewrite (same_store_pending _ _ _ _ S)].
Qed.

Definition reserve_world : world :=
  world_of db_of_two <| w_BatchUpdateEnabled := true |> <| w_RedisEnabled := true |>
    <| w_oracle := [Some "redis down"] |>.

Lemma TryReserveUserQuota_exact_witness :
  let w' := exec (TryReserveUserQuota 7 30) reserve_world in
  result (TryReserveUserQuota 7 30) reserve_world = Ok true ∧ wallet_balance w' 7 = 70 ∧
  ∀ id', wallet_balance w' id' = wallet_balance reserve_world id' - (if decide (7 = id') then 30 else 0).
Proof.
  intros w'. split; [by vm_compute|]. split; [by vm_compute|].
  apply (TryReserveUserQuota_exact reserve_world 7 30 (Ok true) w'); [by eexists|..].
  1,2: unfold in_i64, min_i64, max_i64; vm_compute; intuition congruence.
  by vm_compute.
Defined.

Lemma TryReserveTokenQuota_exact_witness :
  let w' := exec (TryReserveTokenQuota 11 "k" 60 false) reserve_world in
  token_balance w' 11 = 0 ∧ ∀ u, wallet_balance w' u = wallet_balance reserve_world u.
Proof.
  intros w'. split; [by vm_compute|].
  apply (TryReserveTokenQuota_exact reserve_world 11 "k" 60 false (Ok true) w'); [by eexists|..].
  1,2: unfold in_i64, min_i64, max_i64; vm_compute; intuition congruence.
  by vm_compute.
Defined.

(** ** Concurrent reservations against the cache

    Several requests of one user interleave: the reservation script, the
    write that persists it, the compensation when that write fails, the
    reservation in the database when Redis gives no answer, credits, the
    goroutines they start, and queue flushes; every call may fail.
    [rs_inflight] holds the amounts reserved in the cache whose persisting
    write has not run yet.  [rs_uncached] adds up what the database lost, or
    never got, without the cache knowing: reservations made in the database
    alone, credits whose write failed after their goroutine was started, and
    queued credits that a failing flush lost. *)

Record reserve_state := MkReserveState { rs_world : world; rs_inflight : list Z; rs_uncached : Z }.

Definition task_credit (id : Z) (t : task) : Z :=
  match t with
  | TaskUserQuotaDelta id' delta => if decide (id' = id) then delta else 0
  | TaskTokenQuotaDelta _ _ _ => 0
  end.
Fixpoint sum_list (l : list Z) : Z := match l with [] => 0 | x :: l => x + sum_list l end.
Definition queued_credit (id : Z) (w : world) : Z := sum_list (task_credit id <$> w_tasks w).

(** The answers of the reservation script after which the database decides. *)
Definition falls_back (r : res cacheQuotaResult) : bool :=
  match r with Err _ | Ok cacheQuotaMiss | Ok cacheQuotaFenced => true | _ => false end.

Inductive reserve_step (id : Z) : reserve_state → reserve_state → Prop :=
  | step_reserve w infl lost q r w' :
      0 < q → cacheTryReserveUserQuota id q w = (Ok r, w') → falls_back (Ok r) = false →
      reserve_step id (MkReserveState w infl lost)
        (MkReserveState w' (if decide (r = cacheQuotaOK) then q :: infl else infl) lost)
  | step_fallback w infl lost q r w1 r' w' :
      0 < q → cacheTryReserveUserQuota id q w = (r, w1) → falls_back r = true →
      reserveUserQuotaDB id q w1 = (r', w') →
      reserve_step id (MkReserveState w infl lost) (MkReserveState w' infl (lost + if granted r' then q else 0))
  | step_persist w l1 q l2 lost w' :
      in_i64 q → in_i64 (pending BatchUpdateTypeUserQuota w id - q) →
      persistUserQuotaDelta id (i64 (- q)) w = (Ok tt, w') →
      reserve_step id (MkReserveState w (l1 ++ q :: l2) lost) (MkReserveState w' (l1 ++ l2) lost)
  | step_undo w l1 q l2 lost e w1 r w' :
      in_i64 q → in_i64 (pending BatchUpdateTypeUserQuota w id - q) →
      persistUserQuotaDelta id (i64 (- q)) w = (Err e, w1) →
      cacheApplyUserQuotaDelta id q w1 = (r, w') →
      reserve_step id (MkReserveState w (l1 ++ q :: l2) lost) (MkReserveState w' (l1 ++ l2) lost)
  | step_credit w infl lost q b r w' :
      in_i64 (pending BatchUpdateTypeUserQuota w id + q) →
      IncreaseUserQuota id q b w = (r, w') →
      reserve_step id (MkReserveState w infl lost) (MkReserveState w' infl (lost + if is_ok r then 0 else Z.max 0 q))
  | step_task w infl lost ts1 t ts2 r w' :
      w_tasks w = ts1 ++ t :: ts2 →
      run_task t (w <| w_tasks := ts1 ++ ts2 |>) = (r, w') →
      reserve_step id (MkReserveState w infl lost) (MkReserveState w' infl lost)
  | step_flush w infl lost r w' :
      batchUpdate w = (r, w') →
      reserve_step id (MkReserveState w infl lost)
        (MkReserveState w' infl (lost + if decide (wallet_balance w' id = wallet_balance w id) then 0
                                        else Z.max 0 (pending BatchUpdateTypeUserQuota w id))).

(** The cached quota of a user whose hash is complete and not fenced. *)
Definition cached_quota (w : world) (id : Z) : option Z :=
  if decide (w_redis w !! KUserQuotaFence id = None) then
    match w_redis w !! KUser id with
    | Some (RHash h) =>
        if decide (h !! "Id" = Some (VInt id) ∧ h !! "CacheSchema" = Some (VInt userCacheSchemaVersion))
        then tonumber (h !! "Quota") else None
    | _ => None
    end
  else None.

(** What the cache offers never exceeds what the wallet can still give, but for
    what the cache does not know of. *)
Definition cache_sound (id : Z) (s : reserve_state) : Prop :=
  let w := rs_world s in
  is_Some (users (w_db w) !! id) ∧
  Forall (λ q, 0 < q) (rs_inflight s) ∧
  Forall (λ t, 0 <= task_credit id t) (w_tasks w) ∧
  ∃ c, cached_quota w id = Some c ∧ 0 <= c ∧
       c + queued_credit id w + sum_list (rs_inflight s) <= wallet_balance w id + rs_uncached s.

Lemma cached_quota_inv w id c :
  cached_quota w id = Some c →
  w_redis w !! KUserQuotaFence id = None ∧
  ∃ h, w_redis w !! KUser id = Some (RHash h) ∧ h !! "Id" = Some (VInt id) ∧
       h !! "CacheSchema" = Some (VInt userCacheSchemaVersion) ∧ h !! "Quota" = Some (VInt c).
Proof.
  unfold cached_quota. case_decide as Hf; [|done].
  destruct (w_redis w !! KUser id) as [[|h]|]; try done. case_decide as Hh; [|done].
  destruct (h !! "Quota") as [[]|] eqn:Hq; try done. cbn. intros [= ->]. naive_solver.
Qed.

Lemma cached_quota_intro w id h c :
  w_redis w !! KUserQuotaFence id = None → w_redis w !! KUser id = Some (RHash h) →
  h !! "Id" = Some (VInt id) → h !! "CacheSchema" = Some (VInt userCacheSchemaVersion) →
  h !! "Quota" = Some (VInt c) → cached_quota w id = Some c.
Proof.
  intros H1 H2 H3 H4 H5. unfold cached_quota. rewrite decide_True by done. rewrite H2.
  by rewrite decide_True, H5.
Qed.

Lemma cached_quota_ext w w' id :
  w_redis w' !! KUserQuotaFence id = w_redis w !! KUserQuotaFence id →
  w_redis w' !! KUser id = w_redis w !! KUser id → cached_quota w' id = cached_quota w id.
Proof. unfold cached_quota. by intros -> ->. Qed.

(** The guards of the two user scripts on a complete, unfenced hash. *)
Section hit.
Context (w : world) (id c : Z) (Hc : cached_quota w id = Some c).

Lemma hit_update f d w' :
  w_redis w' = <[KUser id := RHash (<["Quota" := VInt (c + d)]> f)]> (w_redis w) →
  w_redis w !! KUser id = Some (RHash f) →
  cached_quota w' id = Some (c + d).
Proof.
  intros E Hf. apply cached_quota_inv in Hc as (HF & h & Hh & Hid & Hs & Hq).
  assert (f = h) as -> by congruence.
  apply (cached_quota_intro _ _ (<["Quota" := VInt (c + d)]> h)); rewrite ?E.
  - by rewrite lookup_insert_ne.
  - apply lookup_insert_eq.
  - by rewrite lookup_insert_ne.
  - by rewrite lookup_insert_ne.
  - apply lookup_insert_eq.
Qed.

Lemma userQuotaReserveScript_hit q :
  ∃ h, w_redis w !! KUser id = Some (RHash h) ∧
  userQuotaReserveScript id q (w_redis w) =
    if c <? q then (Ok 0, w_redis w)
    else (Ok 1, <[KUser id := RHash (<["Quota" := VInt (c + - q)]> h)]> (w_redis w)).
Proof.
  apply cached_quota_inv in Hc as (HF & h & Hh & Hid & Hs & Hq). exists h. split; [done|].
  unfold userQuotaReserveScript, EXISTS, HGET, HINCRBY, HGETALL. unfold_m.
  rewrite HF. cbn. repeat (rewrite Hh; cbn). rewrite Hid, Hs, Hq. cbn.
  rewrite !bool_decide_true by done. cbn.
  destruct (c <? q); [done|]. rewrite Hh. cbn. by rewrite Hq.
Qed.

Lemma userQuotaDeltaScript_hit d :
  ∃ h, w_redis w !! KUser id = Some (RHash h) ∧
  userQuotaDeltaScript id d (w_redis w) =
    (Ok 1, <[KUser id := RHash (<["Quota" := VInt (c + d)]> h)]> (w_redis w)).
Proof.
  apply cached_quota_inv in Hc as (HF & h & Hh & Hid & Hs & Hq). exists h. split; [done|].
  unfold userQuotaDeltaScript, EXISTS, HGET, HINCRBY, HGETALL. unfold_m.
  rewrite HF. cbn. repeat (rewrite Hh; cbn). rewrite Hid, Hs, Hq. cbn.
  rewrite !bool_decide_true by done. cbn. rewrite Hh. cbn. by rewrite Hq.
Qed.

Lemma cacheTryReserve_hit q r w' :
  cacheTryReserveUserQuota id q w = (Ok r, w') →
  (r = cacheQuotaOK ∧ q <= c ∧ cached_quota w' id = Some (c - q)) ∨
  (r = cacheQuotaInsufficient ∧ c < q ∧ cached_quota w' id = Some c).
Proof.
  destruct (userQuotaReserveScript_hit q) as (h & Hh & Hs).
  unfold cacheTryReserveUserQuota, eval_quota, redis_call. unfold_m.
  destruct (w_oracle w) as [|[msg|] o]; [|done|]; rewrite Hs;
    destruct (Z.ltb_spec c q); cbn; intros [= <- <-]; [right|left|right|left]; split_and!; try done; try lia.
  all: by apply (hit_update h (- q)).
Qed.

Lemma cacheApply_hit d r w' :
  cacheApplyUserQuotaDelta id d w = (r, w') →
  cached_quota w' id = Some (c + d) ∨ cached_quota w' id = Some c.
Proof.
  destruct (userQuotaDeltaScript_hit d) as (h & Hh & Hs).
  unfold cacheApplyUserQuotaDelta, eval_quota, redis_call. unfold_m.
  destruct (w_oracle w) as [|[msg|] o]; rewrite ?Hs; cbn; intros [= <- <-]; [left|right|left];
    try done; by apply (hit_update h d).
Qed.
End hit.

(** A script that writes one key only. *)
Definition Writes {A} (k : rkey) (m : M redis A) : Prop := ∀ r k', k' ≠ k → (m r).2 !! k' = r !! k'.

Section writes.
Context (k : rkey).

Lemma writes_bind {A B} (m : M redis A) (f : A → M redis B) :
  Writes k m → (∀ a, Writes k (f a)) → Writes k (m ≫= f).
Proof.
  intros Hm Hf r k' Hne. unfold mbind, M_bind. specialize (Hm r k' Hne).
  destruct (m r) as [[a|e] r1]; cbn in *; [|done]. rewrite Hf; done.
Qed.
Lemma writes_ret {A} (a : A) : Writes k (mret a).
Proof. done. Qed.
Lemma writes_fail {A} e : Writes k (fail (A:=A) e).
Proof. done. Qed.
Lemma writes_EXISTS k' : Writes k (EXISTS k').
Proof. done. Qed.
Lemma writes_HGETALL k' : Writes k (HGETALL k').
Proof. intros r k'' _. unfold HGETALL, wrongtype. by destruct (r !! k') as [[]|]. Qed.
Lemma writes_insert v : Writes k (modify (insert k v)).
Proof. intros r k' Hne. cbn. by rewrite lookup_insert_ne. Qed.
End writes.
#[export] Hint Resolve writes_ret writes_fail writes_EXISTS writes_HGETALL writes_insert : frame.
Ltac writes_tac :=
  unfold HGET, HSET, HINCRBY;
  repeat first
    [ solve [auto with frame]
    | apply writes_bind; [|intros ?]
    | match goal with |- Writes _ (if ?b then _ else _) => destruct b end
    | match goal with |- Writes _ (match ?b with _ => _ end) => destruct b end ].

Lemma userQuotaDeltaScript_writes id d : Writes (KUser id) (userQuotaDeltaScript id d).
Proof. unfold userQuotaDeltaScript. writes_tac. Qed.
Lemma tokenQuotaDeltaScript_writes now id key d : Writes (KToken key) (tokenQuotaDeltaScript now id key d).
Proof. unfold tokenQuotaDeltaScript. writes_tac. Qed.

Lemma eval_quota_writes k script w k' :
  Writes k script → k' ≠ k → w_redis (eval_quota script w).2 !! k' = w_redis w !! k'.
Proof.
  intros Hw Hne. unfold eval_quota, redis_call. unfold_m. specialize (Hw (w_redis w) k' Hne).
  destruct (w_oracle w) as [|[msg|] o]; [|done|]; by destruct (script (w_redis w)).
Qed.

Lemma run_task_frame t : Frame (run_task t).
Proof.
  destruct t; unfold run_task, log_error, cacheIncrUserQuota, cacheApplyUserQuotaDelta,
    cacheApplyTokenQuotaDelta, GetTimestamp, RedisEnabled; frame_tac.
Qed.

(** The world after a goroutine is the one its script leaves. *)
Lemma run_task_script t w :
  (run_task t w).2 =
    match t with
    | TaskUserQuotaDelta id d => if w_RedisEnabled w then (cacheApplyUserQuotaDelta id d w).2 else w
    | TaskTokenQuotaDelta id key d => (eval_quota (tokenQuotaDeltaScript (w_now w) id key d) w).2
    end.
Proof.
  destruct t as [id d|id key d]; unfold run_task, log_error, cacheIncrUserQuota,
    cacheApplyTokenQuotaDelta, RedisEnabled, GetTimestamp; unfold_m.
  - destruct (w_RedisEnabled w); [|done]. by destruct (cacheApplyUserQuotaDelta id d w) as [[]].
  - by destruct (eval_quota _ w).
Qed.

(** A goroutine adds its credit to the cached quota, or nothing. *)
Lemma run_task_cached id t w c :
  cached_quota w id = Some c → 0 <= task_credit id t →
  ∃ c', cached_quota (run_task t w).2 id = Some c' ∧ c <= c' <= c + task_credit id t.
Proof.
  intros Hc Ht. rewrite run_task_script. destruct t as [id' d|id' key d]; cbn [task_credit] in *.
  - destruct (w_RedisEnabled w); [|exists c; split; [done|case_decide; lia]].
    case_decide as Hid; [subst id'|].
    + destruct (cacheApplyUserQuotaDelta id d w) as [r w1] eqn:E.
      apply (cacheApply_hit w id c Hc) in E as [E|E]; cbn; rewrite E; eexists; (split; [done|lia]).
    + exists c. split; [|lia]. rewrite <- Hc.
      apply cached_quota_ext; apply (eval_quota_writes (KUser id')); try done;
        try apply userQuotaDeltaScript_writes; congruence.
  - exists c. split; [|lia]. rewrite <- Hc.
    apply cached_quota_ext; apply (eval_quota_writes (KToken key)); try done;
      apply tokenQuotaDeltaScript_writes.
Qed.

(** The writes of one user's quota leave Redis alone and keep the row. *)
Definition keeps_row (id : Z) (w w' : world) : Prop :=
  w_redis w' = w_redis w ∧ (is_Some (users (w_db w) !! id) → is_Some (users (w_db w') !! id)).

Lemma persistUserQuotaDelta_keeps_row id delta w :
  keeps_row id w (persistUserQuotaDelta id delta w).2 ∧
  w_tasks (persistUserQuotaDelta id delta w).2 = w_tasks w.
Proof.
  unfold persistUserQuotaDelta, BatchUpdateEnabled. unfold_m. destruct (w_BatchUpdateEnabled w); [done|].
  unfold transaction. destruct (w_oracle w) as [|[msg|] o]; [|done|].
  all: rewrite UPDATE_users_all; cbn; destruct (_ =? 1); cbn; (split; [|done]); (split; [done|]);
    intros [u Hu]; cbn; rewrite lookup_alter, Hu; case_decide; eauto.
Qed.

(** A credit starts its goroutine whether or not its write succeeds. *)
Lemma IncreaseUserQuota_keeps_row id q b w r w' :
  IncreaseUserQuota id q b w = (r, w') →
  keeps_row id w w' ∧
  (q < 0 ∧ is_ok r = false ∧ w_tasks w' = w_tasks w ∨
   0 <= q ∧ w_tasks w' = w_tasks w ++ [TaskUserQuotaDelta id q]).
Proof.
  unfold IncreaseUserQuota. destruct (Z.ltb_spec q 0); [intros [= <- <-]; by split; [|left]|]. rewrite go_then.
  unfold BatchUpdateEnabled, increaseUserQuota, transaction. unfold_m. cbn.
  destruct (negb b && w_BatchUpdateEnabled w); [intros [= <- <-]; by split; [|right]|].
  cbn. destruct (w_oracle w) as [|[msg|] o]; [|intros [= <- <-]; by split; [|right]|].
  all: rewrite UPDATE_users_all; cbn; intros [= <- <-]; split; [split; [done|]|by right].
  all: intros [u Hu]; cbn; rewrite lookup_alter, Hu; case_decide; eauto.
Qed.

(** *** A flush that may fail *)

(** The row of [id] stays or is written once with [f]; queue, Redis and
    goroutines stay. *)
Definition row_written (id : Z) (f : User → User) (w w' : world) : Prop :=
  w_redis w' = w_redis w ∧ w_tasks w' = w_tasks w ∧ w_batch w' = w_batch w ∧
  (users (w_db w') !! id = users (w_db w) !! id ∨ users (w_db w') !! id = f <$> users (w_db w) !! id).

Lemma log_transaction_inv {A} (body : Z → M db A) w r w' :
  log_error (transaction body) w = (r, w') →
  w_redis w' = w_redis w ∧ w_tasks w' = w_tasks w ∧ w_batch w' = w_batch w ∧
  (w_db w' = w_db w ∨ ∃ a, body (w_now w) (w_db w) = (Ok a, w_db w')).
Proof.
  unfold log_error, transaction. unfold_m.
  destruct (w_oracle w) as [|[msg|] o]; [|intros [= <- <-]; by split_and!; try left|];
    destruct (body (w_now w) (w_db w)) as [[a|e] d] eqn:E; intros [= <- <-]; split_and!; eauto.
Qed.

Lemma log_token_row id key v w r w' : log_error (increaseTokenQuota key v) w = (r, w') → row_written id (λ u, u) w w'.
Proof.
  intros (H1 & H2 & H3 & [Hd|[a Hd]])%log_transaction_inv; split_and!; try done; left; [by rewrite Hd|].
  unfold_m. rewrite UPDATE_tokens_all in Hd. by injection Hd as <- <-.
Qed.
Lemma log_channel_row id key v w r w' : updateChannelUsedQuota key v w = (r, w') → row_written id (λ u, u) w w'.
Proof.
  intros (H1 & H2 & H3 & [Hd|[a Hd]])%log_transaction_inv; split_and!; try done; left; [by rewrite Hd|].
  unfold UPDATE in Hd. destruct (channels (w_db w) !! key); by injection Hd as <- <-.
Qed.
Lemma log_user_row id key q uq n w r w' :
  updateUserQuotaUsedQuotaAndRequestCount key q uq n w = (r, w') →
  row_written id (if decide (key = id) then λ u, u <| u_Quota ::= (λ x, x + q) |> <| u_UsedQuota ::= (λ x, x + uq) |>
    <| u_RequestCount ::= (λ x, x + n) |> else λ u, u) w w'.
Proof.
  unfold updateUserQuotaUsedQuotaAndRequestCount. destruct (_ && _ && _); [intros [= <- <-]; split_and!; auto|].
  intros (H1 & H2 & H3 & [Hd|[a Hd]])%log_transaction_inv; split_and!; try done; [left; by rewrite Hd|].
  rewrite UPDATE_users_all in Hd. injection Hd as <- <-. cbn. rewrite lookup_alter.
  case_decide; subst; [right|left]; done.
Qed.

Lemma for_each_row {A} id (f : A → M world unit) l w r w' :
  (∀ a w r w', a ∈ l → f a w = (r, w') → row_written id (λ u, u) w w') → for_each l f w = (r, w') → row_written id (λ u, u) w w'.
Proof.
  revert w. induction l as [|a l IH]; intros w Hf; cbn [for_each]; [intros [= <- <-]; split_and!; auto|].
  unfold_m. destruct (f a w) as [[x|e] w1] eqn:E.
  - intros E1. apply Hf in E as (A1 & A2 & A3 & A4); [|by left].
    apply IH in E1 as (B1 & B2 & B3 & B4); [|intros; eapply Hf; [by right|done]].
    split_and!; try congruence. left. rewrite option_fmap_id in A4, B4. destruct A4, B4; congruence.
  - intros [= <- <-]. eapply Hf; [by left|done].
Qed.

Lemma for_each_one_row id (f : Z → M world unit) g l w r w' :
  NoDup l → (∀ k w r w', f k w = (r, w') → row_written id (if decide (k = id) then g else λ u, u) w w') →
  for_each l f w = (r, w') → row_written id g w w'.
Proof.
  intros Hnd Hf. revert w. induction Hnd as [|k l Hk Hnd IH]; intros w; cbn [for_each]; [intros [= <- <-]; split_and!; auto|].
  unfold_m. destruct (f k w) as [x w1] eqn:E. apply Hf in E. case_decide as Hid; [subst k|].
  - destruct x as [x|e]; [|by intros [= <- <-]]. intros E1.
    apply (for_each_row id) in E1; [|intros k ? ? ? Hin Ek; apply Hf in Ek; rewrite decide_False in Ek; [done|by intros ->]].
    destruct E as (A1 & A2 & A3 & A4), E1 as (B1 & B2 & B3 & B4). rewrite option_fmap_id in B4.
    split_and!; try congruence. destruct B4 as [->| ->]; done.
  - destruct E as (A1 & A2 & A3 & A4). rewrite option_fmap_id in A4.
    destruct x as [x|e]; [|intros [= <- <-]; split_and!; try done; left; destruct A4; done].
    intros (B1 & B2 & B3 & B4)%IH. split_and!; try congruence. destruct A4 as [A4|A4]; rewrite A4 in B4; done.
Qed.

(** A flush, failing or not, writes the queued delta of a user to the row or
    loses the whole of it. *)
Lemma batchUpdate_all_or_nothing id w r w' :
  batchUpdate w = (r, w') →
  keeps_row id w w' ∧ w_tasks w' = w_tasks w ∧
  (is_Some (users (w_db w) !! id) →
   wallet_balance w' id = wallet_balance w id ∨
   wallet_balance w' id = wallet_balance w id - pending BatchUpdateTypeUserQuota w id).
Proof.
  unfold batchUpdate. unfold_m. destruct (batch_has_data (w_batch w)); cbn [negb];
    [|intros [= <- <-]; split_and!; auto; by split].
  set (w0 := w <| w_batch := empty_batch |>). intros E.
  assert (row_written id (flushed_user (w_batch w) id) w0 w') as (H1 & H2 & H3 & H4).
  { destruct (for_each (map_to_list _) _ w0) as [r1 w1] eqn:E1.
    apply (for_each_row id) in E1 as (A1 & A2 & A3 & A4); [|intros [k v] ? ? ? _; apply log_token_row].
    rewrite option_fmap_id in A4. destruct r1 as [[]|e]; [|injection E as <- <-; split_and!; tauto].
    destruct (for_each (map_to_list _) _ w1) as [r2 w2] eqn:E2.
    apply (for_each_row id) in E2 as (B1 & B2 & B3 & B4); [|intros [k v] ? ? ? _; apply log_channel_row].
    rewrite option_fmap_id in B4. destruct r2 as [[]|e]; [|injection E as <- <-; split_and!; try congruence; left; destruct A4, B4; congruence].
    apply (for_each_one_row id _ (flushed_user (w_batch w) id)) in E as (C1 & C2 & C3 & C4);
      [|unfold batch_user_ids; apply NoDup_elements|intros k ? ? ? Ek; apply (log_user_row id) in Ek; case_decide; [by subst|done]].
    assert (users (w_db w2) !! id = users (w_db w0) !! id) as E0 by (destruct A4, B4; congruence). rewrite E0 in C4. split_and!; congruence || done. }
  split; [split; [done|]|split; [done|]].
  - intros [u Hu]. destruct H4 as [H4|H4]; rewrite H4; cbn; rewrite Hu; eauto.
  - intros [u Hu]. unfold wallet_balance, user_quota, pending. rewrite H3.
    destruct H4 as [H4|H4]; rewrite H4; cbn; rewrite ?Hu; cbn; rewrite lookup_empty; cbn; [right|left]; lia.
Qed.

Lemma sum_list_app l1 l2 : sum_list (l1 ++ l2) = sum_list l1 + sum_list l2.
Proof. induction l1 as [|x l IH]; cbn; [|rewrite IH]; lia. Qed.

Lemma sum_list_nonneg l : Forall (λ q, 0 <= q) l → 0 <= sum_list l.
Proof. induction 1; cbn; lia. Qed.

Lemma same_store_tasks w w' : same_store w w' → w_tasks w' = w_tasks w.
Proof. by intros (_ & _ & ? & _). Qed.

Lemma keeps_cached id w w' : keeps_row id w w' → cached_quota w' id = cached_quota w id.
Proof. intros [E _]. apply cached_quota_ext; by rewrite E. Qed.

(** The persisting write of a reserved amount, on success and on failure. *)
Lemma persist_inflight id q w r w' :
  is_Some (users (w_db w) !! id) → 0 < q → in_i64 q → in_i64 (pending BatchUpdateTypeUserQuota w id - q) →
  persistUserQuotaDelta id (i64 (- q)) w = (r, w') →
  keeps_row id w w' ∧ w_tasks w' = w_tasks w ∧
  wallet_balance w' id = wallet_balance w id - (if is_ok r then q else 0).
Proof.
  intros Hu Hq0 Hq Hp E. destruct (persistUserQuotaDelta_keeps_row id (i64 (- q)) w) as [Hk Ht].
  rewrite E in Hk, Ht. rewrite i64_id in E by (unfold in_i64, min_i64, max_i64 in *; lia).
  apply persistUserQuotaDelta_credit in E as [Hb _]; [|done|done]. split_and!; [done..|].
  rewrite Hb, decide_True by done. destruct (is_ok r); lia.
Qed.

Lemma cacheTryReserve_sound id w infl lost q r w' :
  0 < q → cacheTryReserveUserQuota id q w = (Ok r, w') → cache_sound id (MkReserveState w infl lost) →
  cache_sound id (MkReserveState w' (if decide (r = cacheQuotaOK) then q :: infl else infl) lost).
Proof.
  unfold cache_sound, queued_credit. cbn [rs_world rs_inflight rs_uncached].
  intros Hq E (Hu & Hin & Hta & c & Hc & Hc0 & Hle).
  assert (same_store w w') as S.
  { pose proof (eval_quota_frame (userQuotaReserveScript id q) w) as Hf.
    unfold cacheTryReserveUserQuota in E. by rewrite E in Hf. }
  destruct (same_store_balances _ _ S) as [Hb _].
  rewrite (same_store_db _ _ S), (same_store_tasks _ _ S), Hb.
  apply (cacheTryReserve_hit w id c Hc) in E as [(-> & Hqc & Hc')|(-> & Hqc & Hc')].
  - rewrite decide_True by done. split_and!; try done; [by constructor|].
    exists (c - q). split; [done|]. cbn. lia.
  - rewrite decide_False by done. split_and!; try done. exists c. split; [done|]. lia.
Qed.

(** On a complete hash the script has no answer only when the call failed,
    and the hash is as before. *)
Lemma cacheTryReserve_failed id w c q r w1 :
  cached_quota w id = Some c → cacheTryReserveUserQuota id q w = (r, w1) → falls_back r = true →
  same_store w w1 ∧ cached_quota w1 id = Some c.
Proof.
  intros Hc E Hr. pose proof (eval_quota_frame (userQuotaReserveScript id q) w) as S.
  change (eval_quota (userQuotaReserveScript id q) w) with (cacheTryReserveUserQuota id q w) in S. rewrite E in S. split; [done|].
  destruct r as [r|e]; [apply (cacheTryReserve_hit w id c Hc) in E as [(-> & _)|(-> & _)]; done|].
  destruct (userQuotaReserveScript_hit w id c Hc q) as (h & Hh & Hs). revert E.
  unfold cacheTryReserveUserQuota, eval_quota, redis_call. unfold_m.
  destruct (w_oracle w) as [|[msg|] o]; rewrite ?Hs; [destruct (c <? q); done|intros [= <- <-]; done|destruct (c <? q); done].
Qed.

Lemma reserveUserQuotaDB_keeps_row id q w r w' :
  reserveUserQuotaDB id q w = (r, w') → keeps_row id w w' ∧ w_tasks w' = w_tasks w.
Proof.
  unfold reserveUserQuotaDB, transaction, keeps_row. unfold_m.
  destruct (w_oracle w) as [|[msg|] o]; [|intros [= <- <-]; by split_and!|].
  all: unfold UPDATE; destruct (users (w_db w) !! id) as [u|] eqn:Hu; [|intros [= <- <-]; cbn; rewrite ?Hu; by split_and!].
  all: destruct (q <=? u_Quota u); intros [= <- <-]; cbn; rewrite ?lookup_insert_eq, ?Hu; by split_and!.
Qed.

Lemma fallback_sound id w infl lost q r w1 r' w' :
  cacheTryReserveUserQuota id q w = (r, w1) → falls_back r = true → reserveUserQuotaDB id q w1 = (r', w') →
  cache_sound id (MkReserveState w infl lost) → cache_sound id (MkReserveState w' infl (lost + if granted r' then q else 0)).
Proof.
  unfold cache_sound, queued_credit. cbn [rs_world rs_inflight rs_uncached].
  intros E Hr E' (Hu & Hin & Hta & c & Hc & Hc0 & Hle).
  destruct (cacheTryReserve_failed _ _ _ _ _ _ Hc E Hr) as [S Hc1].
  destruct (reserveUserQuotaDB_keeps_row _ _ _ _ _ E') as [Hk Ht].
  destruct (same_store_balances _ _ S) as [Hb _]. apply reserveUserQuotaDB_exact in E' as [Hb' _].
  rewrite Ht, (same_store_tasks _ _ S), Hb', Hb, decide_True by done.
  split_and!; [apply Hk; by rewrite (same_store_db _ _ S)|done|done|].
  exists c. split; [by rewrite (keeps_cached id w1 w')|]. destruct (granted r'); lia.
Qed.

Lemma undo_sound id w l1 q l2 lost e w1 r w' :
  in_i64 q → in_i64 (pending BatchUpdateTypeUserQuota w id - q) →
  persistUserQuotaDelta id (i64 (- q)) w = (Err e, w1) → cacheApplyUserQuotaDelta id q w1 = (r, w') →
  cache_sound id (MkReserveState w (l1 ++ q :: l2) lost) → cache_sound id (MkReserveState w' (l1 ++ l2) lost).
Proof.
  unfold cache_sound, queued_credit. cbn [rs_world rs_inflight rs_uncached].
  intros Hq Hp E1 E2 (Hu & Hin & Hta & c & Hc & Hc0 & Hle).
  apply Forall_app in Hin as [Hin1 [Hqp Hin2]%Forall_cons].
  destruct (persist_inflight _ _ _ _ _ Hu Hqp Hq Hp E1) as (Hk & Ht & Hb). cbn in Hb.
  pose proof (eval_quota_frame (userQuotaDeltaScript id q) w1) as S.
  unfold cacheApplyUserQuotaDelta in E2. rewrite E2 in S. cbn in S.
  destruct (same_store_balances _ _ S) as [Hb' _]. rewrite <- (keeps_cached id w w1 Hk) in Hc.
  rewrite (same_store_db _ _ S), (same_store_tasks _ _ S), Hb', Ht, Hb.
  split_and!; [by apply Hk|by apply Forall_app|done|]. rewrite sum_list_app in *. cbn in Hle.
  apply (cacheApply_hit w1 id c Hc) in E2 as [E2|E2]; rewrite E2; eexists; (split; [done|lia]).
Qed.

Lemma task_sound id w infl lost ts1 t ts2 r w' :
  w_tasks w = ts1 ++ t :: ts2 → run_task t (w <| w_tasks := ts1 ++ ts2 |>) = (r, w') →
  cache_sound id (MkReserveState w infl lost) → cache_sound id (MkReserveState w' infl lost).
Proof.
  unfold cache_sound, queued_credit. cbn [rs_world rs_inflight rs_uncached].
  intros Hts E (Hu & Hin & Hta & c & Hc & Hc0 & Hle).
  rewrite Hts in *. apply Forall_app in Hta as [Hta1 [Ht0 Hta2]%Forall_cons].
  set (w0 := w <| w_tasks := ts1 ++ ts2 |>) in *.
  pose proof (run_task_frame t w0) as S. rewrite E in S. cbn in S.
  destruct (run_task_cached id t w0 c) as (c' & Hc' & Hcc); [done|done|]. rewrite E in Hc'. cbn in Hc'.
  destruct (same_store_balances _ _ S) as [Hb _].
  rewrite (same_store_db _ _ S), (same_store_tasks _ _ S), Hb. cbn [w0 w_tasks upd w_db].
  split_and!; [done|done|by apply Forall_app|]. exists c'. split; [done|].
  change (wallet_balance w0 id) with (wallet_balance w id).
  rewrite !fmap_app, !sum_list_app in *. cbn in Hle. lia.
Qed.

Lemma persist_sound id w l1 q l2 lost w' :
  in_i64 q → in_i64 (pending BatchUpdateTypeUserQuota w id - q) → persistUserQuotaDelta id (i64 (- q)) w = (Ok tt, w') →
  cache_sound id (MkReserveState w (l1 ++ q :: l2) lost) → cache_sound id (MkReserveState w' (l1 ++ l2) lost).
Proof.
  unfold cache_sound, queued_credit. cbn [rs_world rs_inflight rs_uncached].
  intros Hq Hp E (Hu & Hin & Hta & c & Hc & Hc0 & Hle). apply Forall_app in Hin as [Hin1 [Hqp Hin2]%Forall_cons].
  destruct (persist_inflight _ _ _ _ _ Hu Hqp Hq Hp E) as (Hk & Ht & Hb). cbn in Hb.
  rewrite Ht, Hb. split_and!; [by apply Hk|by apply Forall_app|done|].
  exists c. split; [by rewrite (keeps_cached id w w')|]. rewrite sum_list_app in *. cbn in Hle. lia.
Qed.

Lemma credit_sound id w infl lost q b r w' :
  in_i64 (pending BatchUpdateTypeUserQuota w id + q) → IncreaseUserQuota id q b w = (r, w') →
  cache_sound id (MkReserveState w infl lost) → cache_sound id (MkReserveState w' infl (lost + if is_ok r then 0 else Z.max 0 q)).
Proof.
  unfold cache_sound, queued_credit. cbn [rs_world rs_inflight rs_uncached].
  intros Hp E (Hu & Hin & Hta & c & Hc & Hc0 & Hle).
  pose proof (IncreaseUserQuota_keeps_row _ _ _ _ _ _ E) as (Hk & Ht).
  apply IncreaseUserQuota_credit in E as [Hb _]; [|done|done]. rewrite Hb, decide_True by done.
  destruct Ht as [(Hq & Hr & Ht)|[Hq Ht]]; rewrite Ht.
  - rewrite Hr. split_and!; [by apply Hk|done..|]. exists c. split; [by rewrite (keeps_cached id w w')|]. lia.
  - rewrite fmap_app, sum_list_app. cbn. rewrite decide_True by done.
    split_and!; [by apply Hk|done|apply Forall_app; split; [done|]|].
    + repeat constructor. cbn. rewrite decide_True by done. lia.
    + exists c. split; [by rewrite (keeps_cached id w w')|]. destruct (is_ok r); lia.
Qed.

Lemma flush_sound id w infl lost r w' :
  batchUpdate w = (r, w') → cache_sound id (MkReserveState w infl lost) →
  cache_sound id (MkReserveState w' infl (lost + if decide (wallet_balance w' id = wallet_balance w id) then 0
                                                 else Z.max 0 (pending BatchUpdateTypeUserQuota w id))).
Proof.
  unfold cache_sound, queued_credit. cbn [rs_world rs_inflight rs_uncached].
  intros E (Hu & Hin & Hta & c & Hc & Hc0 & Hle). apply (batchUpdate_all_or_nothing id) in E as (Hk & Ht & Hb).
  rewrite Ht. split_and!; [by apply Hk|done|done|]. exists c. split; [by rewrite (keeps_cached id w w')|].
  specialize (Hb Hu). case_decide; lia.
Qed.

Lemma reserve_step_sound id s s' : reserve_step id s s' → cache_sound id s → cache_sound id s'.
Proof.
  destruct 1; eauto using cacheTryReserve_sound, fallback_sound, persist_sound, undo_sound, credit_sound, task_sound, flush_sound.
Qed.


Definition cached_user (id quota : Z) : rvalue :=
  RHash {["Id" := VInt id; "CacheSchema" := VInt 2; "Quota" := VInt quota; "AuthVersion" := VInt 1]}.
Definition cached_world : world :=
  world_of db_of_two <| w_BatchUpdateEnabled := true |> <| w_RedisEnabled := true |>
    <| w_redis := {[KUser 7 := cached_user 7 100]} |>.


(** One failing Redis call is enough for an overdraft: the first reservation of
    60 is made in the database alone, the cached quota still offers 100, and the
    second one is granted as well. *)
Lemma fallback_overdraws :
  let w0 := cached_world <| w_oracle := [Some "timeout"] |> in
  let m := a ← TryReserveUserQuota 7 60; b ← TryReserveUserQuota 7 60; mret (a, b) in
  (m w0).1 = Ok (true, true) ∧ wallet_balance w0 7 = 100 ∧ wallet_balance (m w0).2 7 = -20.
Proof. by vm_compute. Qed.
