(* ===== verification/Affiliate.v ===== *)
(** * Affiliate rewards

    src/model/affiliate.go: a paid order of an invited user accrues a reward
    for the inviter, which may be frozen for some hours, is thawed when they
    have passed and can be transferred to the wallet.  Every movement has a row
    in affiliate_ledgers whose event key is unique.  The legacy reward of
    [inviteUser] in src/model/user.go moves the same columns without a row.

    The options of src/common/constants.go and the payment setting are a record
    that the operations take as an argument.  A transaction runs at one
    instant. *)

From S2P Require Import Prelude GoStrings QuotaMath Store QuotaBatch QuotaReserve.
From Stdlib Require Import QArith SpecFloat.
#[local] Open Scope string_scope.
#[local] Open Scope Z_scope.

(** ** Options *)

Record affiliate_options := MkAffOptions {
  QuotaPerUnit : float64;
  AffiliateEnabled : bool;
  AffiliateActivatedAt : Z;
  AffiliateRebateRateBps : Z;
  AffiliateFreezeHours : Z;
  AffiliateDurationDays : Z;
  AffiliatePerInviteeCap : float64;
  QuotaForInviter : Z;
  IsPaymentComplianceConfirmed : bool
}.

Definition AffiliateSourceTopUp : string := "topup".
Definition AffiliateSourceSubscription : string := "subscription".

Definition ErrAffiliateCodeRequired : error := ErrNew "邀请码不能为空".
Definition ErrAffiliateCodeInvalid : error := ErrNew "邀请码无效".
Definition ErrAffiliateCodeDisabled : error := ErrNew "邀请码已停用".
Definition ErrAffiliateCodeLimit : error := ErrNew "邀请码使用次数已达上限".
Definition ErrAffiliateQuotaEmpty : error := ErrNew "邀请额度不足".
Definition ErrTopUpQuotaLimitExceeded : error := ErrNew "top-up quota limit exceeded".
Definition UserStatusEnabled : Z := 1.

Record AffiliateRewardSource := MkSource {
  src_Type : string; src_Id : Z; src_TradeNo : string; src_InviteeId : Z; src_BaseQuota : Z; src_CreatedAt : Z
}.

(** ** Invitation codes *)

Definition code_char (c : Ascii.ascii) : bool :=
  let n := Ascii.nat_of_ascii c in
  (Nat.leb 65 n && Nat.leb n 90) || (Nat.leb 48 n && Nat.leb n 57) || Nat.eqb n 95 || Nat.eqb n 45.

Definition NormalizeCustomAffiliateCode (upper_unicode : string → string) (raw : string) : res string :=
  let code := ToUpper upper_unicode (TrimSpace raw) in
  if Nat.ltb (String.length code) 4 || Nat.ltb 32 (String.length code) then Err ErrAffiliateCodeInvalid
  else if forallb code_char (String.list_ascii_of_string code) then Ok code
  else Err ErrAffiliateCodeInvalid.

Definition CountInvitedUsers (inviterId : Z) (d : db) : Z :=
  Z.of_nat (size (filter (λ p, u_InviterId p.2 = inviterId) (users d))).

(** The row with this code; the column is unique. *)
Definition user_with_code (code : string) (d : db) : option (Z * User) :=
  head (filter (λ p, u_AffCode p.2 = code) (map_to_list (users d))).

Definition ResolveAffiliateInviterTx (rawCode : string) (required : bool) : M db (option Z) :=
  let code := TrimSpace rawCode in
  if bool_decide (code = "") then (if required then fail ErrAffiliateCodeRequired else mret None)
  else
    found ← gets (user_with_code code);
    match found with
    | None => fail ErrAffiliateCodeInvalid
    | Some (id, inviter) =>
        if negb (u_Status inviter =? UserStatusEnabled) then fail ErrAffiliateCodeDisabled
        else if negb (u_AffCodeEnabled inviter) then fail ErrAffiliateCodeDisabled
        else match u_AffInviteLimit inviter with
             | None => mret (Some id)
             | Some limit =>
                 count ← gets (CountInvitedUsers id);
                 if limit <=? count then fail ErrAffiliateCodeLimit else mret (Some id)
             end
    end.

Definition ValidateAffiliateCode (rawCode : string) : M world unit :=
  transaction (λ _, _ ← ResolveAffiliateInviterTx rawCode true; mret tt).

(** ** Amounts *)

Definition clampAffiliateRateBps (value : Z) : Z :=
  if value <? 0 then 0 else if 10000 <? value then 10000 else value.

Definition EffectiveAffiliateRateBps (o : affiliate_options) (user : User) : Z :=
  match u_AffRebateRateBps user with
  | Some rate => clampAffiliateRateBps rate
  | None => clampAffiliateRateBps (AffiliateRebateRateBps o)
  end.

Definition is_inf (x : float64) : bool := match x with S754_infinity _ => true | _ => false end.

Section money.
Context {D : Type} `{DecimalArith D}.

Definition dec_IsPositive (d : D) : bool := 0 <? Qnum (dec_value d).

Definition AffiliateBaseQuotaFromPayment (o : affiliate_options) (payMoney unitPrice : float64) : res Z :=
  if float_le payMoney 0 || float_le unitPrice 0 || float_le (QuotaPerUnit o) 0 || IsNaN payMoney || is_inf payMoney
  then Err (ErrNew "invalid affiliate payment base")
  else
    let base := dec_Floor (dec_Mul (dec_Div (dec_NewFromFloat payMoney) (dec_NewFromFloat unitPrice))
                                   (dec_NewFromFloat (QuotaPerUnit o))) in
    if negb (dec_IsPositive base) then Err (ErrNew "invalid affiliate quota base")
    else match QuotaFromDecimalStrict base with
         | (quota, None) => if quota <=? 0 then Err (ErrNew "invalid affiliate quota base") else Ok quota
         | (_, Some _) => Err (ErrNew "invalid affiliate quota base")
         end.

Definition AffiliateBaseQuotaFromUSD (o : affiliate_options) (amount : float64) : res Z :=
  AffiliateBaseQuotaFromPayment o amount (float_of_pos false 1).

Definition SnapshotAffiliateBaseQuota (o : affiliate_options) (payMoney unitPrice : float64) : res Z :=
  if negb (AffiliateEnabled o) || (AffiliateActivatedAt o <=? 0) then Ok 0
  else if negb (IsPaymentComplianceConfirmed o) then Err (ErrNew "支付合规状态无效，无法创建返利订单")
  else AffiliateBaseQuotaFromPayment o payMoney unitPrice.

(** ** Rewards *)

(** [base + amount * unitSeconds], refused when it does not fit. *)
Definition affiliatePeriodEndUnix (base amount unitSeconds : Z) : res Z :=
  if (amount <? 0) || (unitSeconds <=? 0) then Err (ErrNew "invalid affiliate period")
  else if amount =? 0 then Ok base
  else if Z.quot max_i64 unitSeconds <? amount then Err (ErrNew "affiliate period overflows unix timestamp")
  else
    let delta := i64 (amount * unitSeconds) in
    if i64 (max_i64 - delta) <? base then Err (ErrNew "affiliate period overflows unix timestamp")
    else Ok (i64 (base + delta)).

Definition event_key (type_ : string) (id : Z) : string := type_ +:+ ":" +:+ pretty id.

Definition createAffiliateSkipTx (source : AffiliateRewardSource) (eventKey : string) (inviterId : Z) (reason : string)
    : M db unit :=
  CREATE affiliate_ledgers eventKey
    (MkLedger inviterId (src_InviteeId source) ActionSkip (src_Type source) (src_Id source) (src_TradeNo source)
       (src_BaseQuota source) 0 0 reason 0 0 None None None None).

(** [SUM(reward_quota)] of what the invitee has earned the inviter. *)
Definition accrued_for (inviterId inviteeId : Z) (d : db) : Z :=
  map_sum (λ _ r, if decide (al_UserId r = inviterId ∧ al_InviteeId r = inviteeId ∧ al_Action r = ActionAccrue)
                  then al_RewardQuota r else 0) (affiliate_ledgers d).

(** [capQuota]: 0 when there is no cap. *)
Definition invitee_cap (o : affiliate_options) : res Z :=
  match AffiliateBaseQuotaFromUSD o (AffiliatePerInviteeCap o) with
  | Ok capQuota => Ok capQuota
  | Err e => if float_le (AffiliatePerInviteeCap o) 0 || IsNaN (AffiliatePerInviteeCap o) then Ok 0 else Err e
  end.

(** Whether the order came too late after the registration of the invitee. *)
Definition duration_over (o : affiliate_options) (invitee : User) (source : AffiliateRewardSource) : res bool :=
  if 0 <? AffiliateDurationDays o then
    match affiliatePeriodEndUnix (u_CreatedAt invitee) (AffiliateDurationDays o) 86400 with
    | Ok expiresAt => Ok (expiresAt <? src_CreatedAt source)
    | Err e => Err e
    end
  else Ok false.

(** The reward that the cap leaves; [None] when it is exhausted. *)
Definition capped_reward (capQuota accrued reward : Z) : option Z :=
  if 0 <? capQuota then
    if capQuota <=? accrued then None
    else Some (Z.min reward (i64 (capQuota - accrued)))
  else Some reward.

Definition quota_limit_reached (inviter : User) (reward : Z) : bool :=
  (MaxQuota <? reward) || (MaxQuota <=? i64 (u_AffHistoryQuota inviter + reward)) ||
  (MaxQuota <=? i64 (i64 (u_AffQuota inviter + u_AffFrozenQuota inviter) + reward)).

(** From the update of the inviter to the ledger row. *)
Definition accrueTx (o : affiliate_options) (now : Z) (source : AffiliateRewardSource) (eventKey : string)
    (inviterId rateBps reward : Z) : M db unit :=
  frozenUntil ← (if 0 <? AffiliateFreezeHours o
                 then lift_res (affiliatePeriodEndUnix now (AffiliateFreezeHours o) 3600) else mret 0);
  _ ← UPDATE users inviterId (λ _, true) (λ u,
        let u := u <| u_AffHistoryQuota ::= (λ q, q + reward) |> in
        if 0 <? AffiliateFreezeHours o then u <| u_AffFrozenQuota ::= (λ q, q + reward) |>
        else u <| u_AffQuota ::= (λ q, q + reward) |>);
  updated ← FIRST users inviterId;
  CREATE affiliate_ledgers eventKey
    (MkLedger inviterId (src_InviteeId source) ActionAccrue (src_Type source) (src_Id source) (src_TradeNo source)
       (src_BaseQuota source) rateBps reward "" frozenUntil 0
       None (Some (u_AffQuota updated)) (Some (u_AffFrozenQuota updated)) (Some (u_AffHistoryQuota updated))).

Definition rewardInviterTx (o : affiliate_options) (now : Z) (source : AffiliateRewardSource) (eventKey : string)
    (inviterId : Z) (invitee inviter : User) : M db unit :=
  let skip := createAffiliateSkipTx source eventKey inviterId in
  if negb (u_Status inviter =? UserStatusEnabled) || negb (u_AffCodeEnabled inviter) then skip "inviter_inactive" else
  over ← lift_res (duration_over o invitee source);
  if over : bool then skip "duration_expired" else
  let rateBps := EffectiveAffiliateRateBps o inviter in
  let reward := Z.quot (i64 (src_BaseQuota source * rateBps)) 10000 in
  if reward <=? 0 then skip "zero_reward" else
  capQuota ← lift_res (invitee_cap o);
  accrued ← gets (accrued_for inviterId (src_InviteeId source));
  match capped_reward capQuota accrued reward with
  | None => skip "invitee_cap_reached"
  | Some reward =>
      if quota_limit_reached inviter reward then skip "inviter_quota_limit"
      else accrueTx o now source eventKey inviterId rateBps reward
  end.

Definition ApplyAffiliateRewardTx (o : affiliate_options) (now : Z) (source : AffiliateRewardSource) : M db unit :=
  if (src_Id source <=? 0) || (src_InviteeId source <=? 0) || (src_BaseQuota source <=? 0) ||
     (src_CreatedAt source <? AffiliateActivatedAt o)
  then mret tt
  else
    let eventKey := event_key (src_Type source) (src_Id source) in
    existing ← gets (λ d, affiliate_ledgers d !! eventKey);
    match existing with
    | Some _ => mret tt
    | None =>
        invitee ← FIRST users (src_InviteeId source);
        let inviterId := u_InviterId invitee in
        let skip := createAffiliateSkipTx source eventKey in
        if inviterId <=? 0 then skip 0 "no_inviter"
        else if negb (AffiliateEnabled o) || (AffiliateActivatedAt o <=? 0) then skip inviterId "program_inactive"
        else if negb (IsPaymentComplianceConfirmed o) then skip inviterId "compliance_unconfirmed"
        else
          inviter ← try (FIRST users inviterId);
          match inviter with
          | Err e => if error_is e ErrRecordNotFound then skip inviterId "inviter_missing" else fail e
          | Ok inviter => rewardInviterTx o now source eventKey inviterId invitee inviter
          end
    end.
End money.

(** user.go: the reward for a registration before the programme is active. *)
Definition inviteUser (o : affiliate_options) (inviterId : Z) : M world unit :=
  transaction (λ _,
    n ← UPDATE users inviterId (λ _, true)
          (λ u, u <| u_AffQuota ::= (λ q, q + QuotaForInviter o) |> <| u_AffHistoryQuota ::= (λ q, q + QuotaForInviter o) |>);
    if n =? 0 then fail ErrRecordNotFound else mret tt).

(** ** Thawing and transfer *)

(** [action = accrue AND frozen_until > 0 AND frozen_until <= now AND thawed_at = 0] *)
Definition due_for_thaw (userId now : Z) (r : AffiliateLedger) : bool :=
  (al_UserId r =? userId) && bool_decide (al_Action r = ActionAccrue) &&
  (0 <? al_FrozenUntil r) && (al_FrozenUntil r <=? now) && (al_ThawedAt r =? 0).

Definition thaw_sum (userId now : Z) (d : db) : Z :=
  map_sum (λ _ r, if due_for_thaw userId now r then al_RewardQuota r else 0) (affiliate_ledgers d).

Definition ThawAffiliateQuotaTx (now userId : Z) : M db Z :=
  _ ← FIRST users userId;
  thawed ← gets (λ d, i64 (thaw_sum userId now d));
  if thawed <=? 0 then mret 0
  else
    modify (λ d, d <| affiliate_ledgers ::=
      fmap (λ r, if due_for_thaw userId now r then r <| al_ThawedAt := now |> else r) |>);;
    _ ← UPDATE users userId (λ _, true) (λ u,
          u <| u_AffQuota ::= (λ q, q + thawed) |>
            <| u_AffFrozenQuota ::= (λ q, if thawed <=? q then q - thawed else 0) |>);
    mret thawed.

Definition ThawAffiliateQuota (userId : Z) : M world Z :=
  transaction (λ now, ThawAffiliateQuotaTx now userId).

(** [float64(amount) < QuotaPerUnit] *)
Definition below_unit (o : affiliate_options) (amount : Z) : bool := SFltb (float_of_int amount) (QuotaPerUnit o).

Definition transferTx (uuid : string) (now userId amount : Z) : M db Z :=
  _ ← ThawAffiliateQuotaTx now userId;
  user ← FIRST users userId;
  if u_AffQuota user <? amount then fail ErrAffiliateQuotaEmpty
  else if MaxQuota <=? i64 (u_Quota user + amount) then fail ErrTopUpQuotaLimitExceeded
  else
    _ ← UPDATE users userId (λ _, true) (λ u,
          u <| u_AffQuota ::= (λ q, q - amount) |> <| u_Quota ::= (λ q, q + amount) |>);
    user ← FIRST users userId;
    _ ← CREATE affiliate_ledgers ("transfer:" +:+ uuid)
          (MkLedger userId 0 ActionTransfer "" 0 "" 0 0 amount "" 0 0 (Some (u_Quota user)) (Some (u_AffQuota user))
             (Some (u_AffFrozenQuota user)) (Some (u_AffHistoryQuota user)));
    mret (u_Quota user).

(** [uuid] is the value of [common.GetUUID()]. *)
Definition TransferAffiliateQuota (o : affiliate_options) (uuid : string) (userId amount : Z) : M world (Z * Z) :=
  if negb (IsPaymentComplianceConfirmed o) then fail (ErrNew "邀请返利功能未启用")
  else if (amount <=? 0) || below_unit o amount then fail (ErrNew "转移额度低于最低限制")
  else
    newBalance ← transaction (λ now, transferTx uuid now userId amount);
    syncCreditUserQuotaCache userId amount;;
    mret (amount, newBalance).
