(* ===== verification/TopUp.v ===== *)
(** * Top-up orders, redemption codes and rewards

    The ways in which quota enters a wallet: paid orders (src/model/topup.go
    and the webhook handlers that call it), redemption codes
    (src/model/redemption.go, src/controller/redemption.go), activity rewards
    (src/model/activity_claim.go) and check-ins (src/model/checkin.go).

    The body of each transaction is a program on the tables; the exported
    function runs it ([transaction]) and then updates the cache.  Handlers that
    read a row in one statement and write it back in another are [prog]s, so
    that other calls can come in between. *)

From S2P Require Import Prelude GoStrings Interleave QuotaMath Store QuotaBatch QuotaReserve Affiliate.
From Stdlib Require Import QArith SpecFloat.
#[local] Open Scope string_scope.
#[local] Open Scope Z_scope.

Definition TopUpStatusPending : string := "pending".
Definition TopUpStatusSuccess : string := "success".
Definition TopUpStatusFailed : string := "failed".
Definition TopUpStatusExpired : string := "expired".

Definition PaymentProviderEpay : string := "epay".
Definition PaymentProviderStripe : string := "stripe".
Definition PaymentProviderCreem : string := "creem".
Definition PaymentProviderWaffo : string := "waffo".
Definition PaymentProviderWaffoPancake : string := "waffo_pancake".
Definition PaymentProviderBalance : string := "balance".

Definition ErrPaymentMethodMismatch : error := ErrNew "payment method mismatch".
Definition ErrTopUpNotFound : error := ErrNew "topup not found".
Definition ErrTopUpStatusInvalid : error := ErrNew "topup status invalid".
Definition ErrInvalidTopUpQuota : error := ErrNew "invalid top-up quota".
Definition ErrRedeemFailed : error := ErrNew "redeem.failed".
Definition no_trade_no : error := ErrNew "未提供支付单号".
Definition order_missing : error := ErrNew "充值订单不存在".
Definition order_status_wrong : error := ErrNew "充值订单状态错误".
Definition topup_failed : error := ErrNew "充值失败，请稍后重试".

(** [id] columns are auto-increment. *)
Definition next_id {K R} `{Countable K} (id : R → Z) (tbl : gmap K R) : Z :=
  1 + map_fold (λ _ r acc, Z.max (id r) acc) 0 tbl.

(** A query error that the caller replaces by one of its own. *)
Definition or_else {S A} (m : M S A) (e : error) : M S A :=
  r ← try m; match r with Ok a => mret a | Err _ => fail e end.

(** [TopUp.Insert] *)
Definition InsertTopUp (tradeNo : string) (row : TopUp) : M world unit :=
  transaction (λ _, id ← gets (λ d, next_id tp_Id (topups d)); CREATE topups tradeNo (row <| tp_Id := id |>)).
(** [TopUp.Update]: [DB.Save] of a row that was read before. *)
Definition UpdateTopUp (tradeNo : string) (row : TopUp) : M world unit :=
  transaction (λ _, SAVE topups tradeNo row).

(** ** Crediting *)

Definition topUpQuotaMaxCurrent (creditedQuota : Z) : res Z :=
  if (creditedQuota <=? 0) || (MaxQuota <=? creditedQuota) then Err ErrInvalidTopUpQuota
  else Ok (MaxQuota - 1 - creditedQuota).

Definition ValidateTopUpQuotaCapacity (userId creditedQuota : Z) : M world unit :=
  maxCurrentQuota ← lift_res (topUpQuotaMaxCurrent creditedQuota);
  user ← transaction (λ _, FIRST users userId);
  if maxCurrentQuota <? u_Quota user then fail ErrTopUpQuotaLimitExceeded else mret tt.

(** [updates] is the map of further columns, as a function on the row. *)
Definition creditTopUpQuota (userId creditedQuota : Z) (updates : User → User) : M db unit :=
  maxCurrentQuota ← lift_res (topUpQuotaMaxCurrent creditedQuota);
  n ← UPDATE users userId (λ u, u_Quota u <=? maxCurrentQuota)
        (λ u, updates u <| u_Quota := u_Quota u + creditedQuota |>);
  if n =? 1 then mret tt
  else
    user ← gets (λ d, users d !! userId);
    match user with None => fail ErrRecordNotFound | Some _ => fail ErrTopUpQuotaLimitExceeded end.

Section orders.
Context {D : Type} `{DecimalArith D} (o : affiliate_options).

Definition applyTopUpAffiliateRewardTx (now : Z) (tradeNo : string) (topUp : TopUp) : M db unit :=
  if tp_AffiliateBaseQuota topUp <=? 0 then mret tt
  else ApplyAffiliateRewardTx o now
         (MkSource AffiliateSourceTopUp (tp_Id topUp) tradeNo (tp_UserId topUp) (tp_AffiliateBaseQuota topUp)
            (tp_CreateTime topUp)).

(** [quota, err := QuotaFromDecimalStrict(..); if err != nil || quota <= 0] *)
Definition positive_quota (d : D) : res Z :=
  match QuotaFromDecimalStrict d with
  | (quota, None) => if quota <=? 0 then Err ErrInvalidTopUpQuota else Ok quota
  | (_, Some _) => Err ErrInvalidTopUpQuota
  end.

(** The amount of an order in units, its price in units, and (Creem) its
    amount in quota. *)
Definition quota_of_amount (topUp : TopUp) : res Z :=
  positive_quota (dec_Mul (dec_NewFromInt (tp_Amount topUp)) (dec_NewFromFloat (QuotaPerUnit o))).
Definition quota_of_money (topUp : TopUp) : res Z :=
  positive_quota (dec_Mul (dec_NewFromFloat (tp_Money topUp)) (dec_NewFromFloat (QuotaPerUnit o))).
Definition quota_as_amount (topUp : TopUp) : res Z := positive_quota (dec_NewFromInt (tp_Amount topUp)).

Definition mark_success (now : Z) (topUp : TopUp) : TopUp :=
  topUp <| tp_CompleteTime := now |> <| tp_Status := TopUpStatusSuccess |>.

Definition updatePendingTx (tradeNo expectedPaymentProvider targetStatus : string) : M db unit :=
  topUp ← or_else (FIRST topups tradeNo) ErrTopUpNotFound;
  if negb (bool_decide (expectedPaymentProvider = "")) &&
     negb (bool_decide (tp_PaymentProvider topUp = expectedPaymentProvider)) then fail ErrPaymentMethodMismatch
  else if negb (bool_decide (tp_Status topUp = TopUpStatusPending)) then fail ErrTopUpStatusInvalid
  else SAVE topups tradeNo (topUp <| tp_Status := targetStatus |>).

Definition UpdatePendingTopUpStatus (tradeNo expectedPaymentProvider targetStatus : string) : M world unit :=
  if bool_decide (tradeNo = "") then fail no_trade_no
  else transaction (λ _, updatePendingTx tradeNo expectedPaymentProvider targetStatus).

(** The user and the quota of a completed order; [None] for an order that was
    already completed. *)
Definition rechargeEpayTx (now : Z) (tradeNo actualPaymentMethod : string) : M db (option (Z * Z)) :=
  topUp ← or_else (FIRST topups tradeNo) ErrTopUpNotFound;
  if negb (bool_decide (tp_PaymentProvider topUp = PaymentProviderEpay)) then fail ErrPaymentMethodMismatch
  else if bool_decide (tp_Status topUp = TopUpStatusSuccess) then mret None
  else if negb (bool_decide (tp_Status topUp = TopUpStatusPending)) then fail ErrTopUpStatusInvalid
  else
    let topUp := if negb (bool_decide (actualPaymentMethod = "")) &&
                    negb (bool_decide (tp_PaymentMethod topUp = actualPaymentMethod))
                 then topUp <| tp_PaymentMethod := actualPaymentMethod |> else topUp in
    quotaToAdd ← lift_res (quota_of_amount topUp);
    SAVE topups tradeNo (mark_success now topUp);;
    creditTopUpQuota (tp_UserId topUp) quotaToAdd (λ u, u);;
    applyTopUpAffiliateRewardTx now tradeNo topUp;;
    mret (Some (tp_UserId topUp, quotaToAdd)).

(** After the commit the credit is added to the cache. *)
Definition sync_credit (credit : option (Z * Z)) : M world unit :=
  match credit with Some (userId, quota) => syncCreditUserQuotaCache userId quota | None => mret tt end.

Definition RechargeEpay (tradeNo actualPaymentMethod : string) : M world bool :=
  if bool_decide (tradeNo = "") then fail no_trade_no
  else
    credit ← transaction (λ now, rechargeEpayTx now tradeNo actualPaymentMethod);
    sync_credit credit;;
    mret (bool_decide (credit = None)).

Definition rechargeTx (now : Z) (referenceId customerId : string) : M db (option (Z * Z)) :=
  topUp ← or_else (FIRST topups referenceId) order_missing;
  if negb (bool_decide (tp_PaymentProvider topUp = PaymentProviderStripe)) then fail ErrPaymentMethodMismatch
  else if negb (bool_decide (tp_Status topUp = TopUpStatusPending)) then fail order_status_wrong
  else
    SAVE topups referenceId (mark_success now topUp);;
    quota ← lift_res (quota_of_money topUp);
    creditTopUpQuota (tp_UserId topUp) quota (λ u, u <| u_StripeCustomer := customerId |>);;
    applyTopUpAffiliateRewardTx now referenceId topUp;;
    mret (Some (tp_UserId topUp, quota)).

(** The callers of the remaining webhooks see one error. *)
Definition complete (tradeNo : string) (body : Z → M db (option (Z * Z))) : M world unit :=
  if bool_decide (tradeNo = "") then fail no_trade_no
  else
    r ← try (transaction body);
    match r with Err _ => fail topup_failed | Ok credit => sync_credit credit end.

Definition Recharge (referenceId customerId : string) : M world unit :=
  complete referenceId (λ now, rechargeTx now referenceId customerId).

Definition rechargeCreemTx (now : Z) (referenceId customerEmail : string) : M db (option (Z * Z)) :=
  topUp ← or_else (FIRST topups referenceId) order_missing;
  if negb (bool_decide (tp_PaymentProvider topUp = PaymentProviderCreem)) then fail ErrPaymentMethodMismatch
  else if negb (bool_decide (tp_Status topUp = TopUpStatusPending)) then fail order_status_wrong
  else
    SAVE topups referenceId (mark_success now topUp);;
    quota ← lift_res (quota_as_amount topUp);
    updateFields ←
      (if bool_decide (customerEmail = "") then mret false
       else user ← FIRST users (tp_UserId topUp); mret (bool_decide (u_Email user = "")));
    creditTopUpQuota (tp_UserId topUp) quota
      (λ u, if updateFields : bool then u <| u_Email := customerEmail |> else u);;
    applyTopUpAffiliateRewardTx now referenceId topUp;;
    mret (Some (tp_UserId topUp, quota)).

Definition RechargeCreem (referenceId customerEmail : string) : M world unit :=
  complete referenceId (λ now, rechargeCreemTx now referenceId customerEmail).

Definition rechargeWaffoTx (provider : string) (now : Z) (tradeNo : string) : M db (option (Z * Z)) :=
  topUp ← or_else (FIRST topups tradeNo) order_missing;
  if negb (bool_decide (tp_PaymentProvider topUp = provider)) then fail ErrPaymentMethodMismatch
  else if bool_decide (tp_Status topUp = TopUpStatusSuccess) then mret None
  else if negb (bool_decide (tp_Status topUp = TopUpStatusPending)) then fail order_status_wrong
  else
    quotaToAdd ← lift_res (quota_of_amount topUp);
    SAVE topups tradeNo (mark_success now topUp);;
    creditTopUpQuota (tp_UserId topUp) quotaToAdd (λ u, u);;
    applyTopUpAffiliateRewardTx now tradeNo topUp;;
    mret (Some (tp_UserId topUp, quotaToAdd)).

Definition RechargeWaffo (tradeNo : string) : M world unit :=
  complete tradeNo (λ now, rechargeWaffoTx PaymentProviderWaffo now tradeNo).
Definition RechargeWaffoPancake (tradeNo : string) : M world unit :=
  complete tradeNo (λ now, rechargeWaffoTx PaymentProviderWaffoPancake now tradeNo).

(** What an administrator's completion credits. *)
Definition manual_quota (topUp : TopUp) : res Z :=
  if bool_decide (tp_PaymentProvider topUp = PaymentProviderStripe) then quota_of_money topUp else quota_of_amount topUp.

Definition manualCompleteTx (now : Z) (tradeNo : string) : M db (option (Z * Z)) :=
  topUp ← or_else (FIRST topups tradeNo) order_missing;
  if bool_decide (tp_Status topUp = TopUpStatusSuccess) then mret None
  else if negb (bool_decide (tp_Status topUp = TopUpStatusPending)) then fail (ErrNew "订单状态不是待支付，无法补单")
  else
    quotaToAdd ← lift_res (manual_quota topUp);
    SAVE topups tradeNo (mark_success now topUp);;
    creditTopUpQuota (tp_UserId topUp) quotaToAdd (λ u, u);;
    applyTopUpAffiliateRewardTx now tradeNo topUp;;
    mret (Some (tp_UserId topUp, quotaToAdd)).

Definition ManualCompleteTopUp (tradeNo : string) : M world unit :=
  if bool_decide (tradeNo = "") then fail (ErrNew "未提供订单号")
  else credit ← transaction (λ now, manualCompleteTx now tradeNo); sync_credit credit.
End orders.

(** ** Redemption codes *)

Definition RedemptionCodeStatusEnabled : Z := 1.
Definition RedemptionCodeStatusDisabled : Z := 2.
Definition RedemptionCodeStatusUsed : Z := 3.

(** [First] and [Where] leave deleted rows out. *)
Definition FIRST_code (key : string) : M db Redemption :=
  r ← FIRST redemptions key; if rd_Deleted r then fail ErrRecordNotFound else mret r.

Definition redeemTx (now : Z) (key : string) (userId : Z) : M db (Z * Z) :=
  redemption ← or_else (FIRST_code key) (ErrNew "无效的兑换码");
  if negb (rd_Status redemption =? RedemptionCodeStatusEnabled) then fail (ErrNew "该兑换码已被使用")
  else if negb (rd_ExpiredTime redemption =? 0) && (rd_ExpiredTime redemption <? now) then fail (ErrNew "该兑换码已过期")
  else
    n ← UPDATE redemptions key (λ r, negb (rd_Deleted r) && (rd_Status r =? RedemptionCodeStatusEnabled))
          (λ r, r <| rd_RedeemedTime := now |> <| rd_Status := RedemptionCodeStatusUsed |> <| rd_UsedUserId := userId |>);
    if n =? 0 then fail (ErrNew "该兑换码已被使用")
    else
      _ ← UPDATE users userId (λ _, true) (λ u, u <| u_Quota ::= (λ q, q + rd_Quota redemption) |>);
      mret (userId, rd_Quota redemption).

Definition Redeem (key : string) (userId : Z) : M world Z :=
  if bool_decide (key = "") then fail (ErrNew "未提供兑换码")
  else if userId =? 0 then fail (ErrNew "无效的 user id")
  else
    r ← try (transaction (λ now, redeemTx now key userId));
    match r with
    | Err _ => fail ErrRedeemFailed
    | Ok (_, quota) => syncCreditUserQuotaCache userId quota;; mret quota
    end.

(** [Redemption.Insert]; gorm replaces a zero status and a zero quota by the
    defaults of the columns. *)
Definition insertCodeTx (key : string) (r : Redemption) : M db unit :=
  id ← gets (λ d, next_id rd_Id (redemptions d));
  CREATE redemptions key (r <| rd_Id := id |>
    <| rd_Status := if rd_Status r =? 0 then RedemptionCodeStatusEnabled else rd_Status r |>
    <| rd_Quota := if rd_Quota r =? 0 then 100 else rd_Quota r |> <| rd_Deleted := false |>).
Definition InsertRedemption (key : string) (r : Redemption) : M world unit := transaction (λ _, insertCodeTx key r).

(** [Delete] of the rows that satisfy [cond]; returns [RowsAffected]. *)
Definition delete_codes (cond : Redemption → bool) : M db Z := λ d,
  let hit r := negb (rd_Deleted r) && cond r in
  (Ok (Z.of_nat (size (filter (λ p, hit p.2 = true) (redemptions d)))),
   d <| redemptions ::= fmap (λ r, if hit r then r <| rd_Deleted := true |> else r) |>).

Definition DeleteRedemptionById (id : Z) : M world unit :=
  if id =? 0 then fail (ErrNew "id 为空！")
  else
    missing ← transaction (λ _, gets (λ d,
      bool_decide (filter (λ p, rd_Id p.2 = id ∧ rd_Deleted p.2 = false) (redemptions d) = ∅)));
    if missing : bool then fail ErrRecordNotFound
    else _ ← transaction (λ _, delete_codes (λ r, rd_Id r =? id)); mret tt.
Definition BatchDeleteRedemptions (ids : list Z) : M world Z :=
  if decide (ids = []) then mret 0
  else transaction (λ _, delete_codes (λ r, bool_decide (rd_Id r ∈ ids))).
Definition DeleteInvalidRedemptions : M world Z :=
  transaction (λ now, delete_codes (λ r,
    (rd_Status r =? RedemptionCodeStatusUsed) || (rd_Status r =? RedemptionCodeStatusDisabled) ||
    ((rd_Status r =? RedemptionCodeStatusEnabled) && negb (rd_ExpiredTime r =? 0) && (rd_ExpiredTime r <? now)))).

(** ** Activity rewards and check-ins *)

Definition claimTx (now userID : Z) (activityKey : string) (reward : Z) : M db (Z * Z) :=
  claimed ← gets (λ d, activity_claims d !! (userID, activityKey));
  match claimed with
  | Some _ => fail (ErrNew "activity reward already claimed")
  | None =>
      CREATE activity_claims (userID, activityKey) (MkClaim reward now);;
      n ← UPDATE users userID (λ _, true) (λ u, u <| u_Quota ::= (λ q, q + reward) |>);
      if n =? 1 then mret (userID, reward) else fail ErrRecordNotFound
  end.

Definition ClaimActivityReward (userID : Z) (activityKey : string) (reward : Z) : M world unit :=
  if (userID <=? 0) || bool_decide (activityKey = "") || (reward <=? 0) then fail (ErrNew "invalid activity reward claim")
  else
    _ ← transaction (λ now, claimTx now userID activityKey reward);
    log_error (cacheIncrUserQuota userID reward).

Record CheckinSetting := MkCheckinSetting { cs_Enabled : bool; cs_MinQuota : Z; cs_MaxQuota : Z }.

(** [rand.Intn(n)] for the random number [random]. *)
Definition Intn (random n : Z) : Z := random mod n.
Definition checkin_reward (setting : CheckinSetting) (random : Z) : Z :=
  if cs_MinQuota setting <? cs_MaxQuota setting
  then i64 (cs_MinQuota setting + Intn random (i64 (i64 (cs_MaxQuota setting - cs_MinQuota setting) + 1)))
  else cs_MinQuota setting.

Definition checkin_failed : error := ErrNew "签到失败，请稍后重试".
Definition checkin_update_failed : error := ErrNew "签到失败：更新额度出错".

Definition create_checkin (now userId : Z) (today : string) (quotaAwarded : Z) : M db unit :=
  or_else (CREATE checkins (userId, today) (MkCheckin quotaAwarded now)) checkin_failed.

Definition checkinTx (now userId : Z) (today : string) (quotaAwarded : Z) : M db (Z * Z) :=
  create_checkin now userId today quotaAwarded;;
  _ ← UPDATE users userId (λ _, true) (λ u, u <| u_Quota ::= (λ q, q + quotaAwarded) |>);
  mret (userId, quotaAwarded).

Definition userCheckinWithTransaction (userId : Z) (today : string) (quotaAwarded : Z) : M world Z :=
  _ ← transaction (λ now, checkinTx now userId today quotaAwarded);
  go (TaskUserQuotaDelta userId quotaAwarded);;
  mret quotaAwarded.

Definition userCheckinWithoutTransaction (userId : Z) (today : string) (quotaAwarded : Z) : M world Z :=
  or_else (transaction (λ now, create_checkin now userId today quotaAwarded)) checkin_failed;;
  r ← try (IncreaseUserQuota userId quotaAwarded true);
  match r with
  | Ok _ => mret quotaAwarded
  | Err _ =>
      log_error (transaction (λ _, modify (λ d, d <| checkins ::= delete (userId, today) |>)));;
      fail checkin_update_failed
  end.

Definition HasCheckedInToday (userId : Z) (today : string) : M world bool :=
  transaction (λ _, gets (λ d, bool_decide (is_Some (checkins d !! (userId, today))))).

(** [today] is the date of the clock in the zone of the process. *)
Definition UserCheckin (sqlite : bool) (setting : CheckinSetting) (random : Z) (today : string) (userId : Z) : M world Z :=
  if negb (cs_Enabled setting) then fail (ErrNew "签到功能未启用")
  else
    hasChecked ← HasCheckedInToday userId today;
    if hasChecked : bool then fail (ErrNew "今日已签到")
    else
      let quotaAwarded := checkin_reward setting random in
      if sqlite then userCheckinWithoutTransaction userId today quotaAwarded
      else userCheckinWithTransaction userId today quotaAwarded.
