(* ===== verification/Calendar.v ===== *)
(** * Reset times of subscription plans

    [NormalizeResetPeriod] and [calcNextResetTime] of
    src/model/subscription.go, with the parts of Go's [time] and [strings]
    packages they use.  An instant is its Unix time in seconds ([time.Unix(s,
    0)]); the process location has a fixed offset from UTC, in seconds, the
    argument [zone].  Years, months and days are those of the proleptic
    Gregorian calendar, counted in days from 1970-01-01. *)

From S2P Require Import Prelude GoStrings Store.

(** ** Civil dates *)

Definition days_from_civil (y m d : Z) : Z :=
  let y := if m <=? 2 then y - 1 else y in
  let era := y / 400 in
  let yoe := y mod 400 in
  let doy := (153 * (if 2 <? m then m - 3 else m + 9) + 2) / 5 + d - 1 in
  era * 146097 + (yoe * 365 + yoe / 4 - yoe / 100 + doy) - 719468.

Definition civil_from_days (n : Z) : Z * Z * Z :=
  let z := n + 719468 in
  let era := z / 146097 in
  let doe := z mod 146097 in
  let yoe := (doe - doe / 1460 + doe / 36524 - doe / 146096) / 365 in
  let doy := doe - (365 * yoe + yoe / 4 - yoe / 100) in
  let mp := (5 * doy + 2) / 153 in
  let d := doy - (153 * mp + 2) / 5 + 1 in
  let m := if mp <? 10 then mp + 3 else mp - 9 in
  (if m <=? 2 then yoe + era * 400 + 1 else yoe + era * 400, m, d).

(** [time.Date(y, m, d, 0, 0, 0, 0, loc)]: the month is normalised, the day
    may be any number. *)
Definition Date (zone y m d : Z) : Z :=
  days_from_civil (y + (m - 1) / 12) ((m - 1) mod 12 + 1) d * 86400 - zone.

Definition local_day (zone t : Z) : Z := (t + zone) / 86400.
(** [Weekday]: Sunday is 0, and 1970-01-01 was a Thursday. *)
Definition Weekday (zone t : Z) : Z := (local_day zone t + 4) mod 7.

(** ** [calcNextResetTime] *)

Definition NormalizeResetPeriod (period : string) : string :=
  if bool_decide (TrimSpace period ∈ ["daily"; "weekly"; "monthly"; "custom"])
  then TrimSpace period else "never".

(** [base.Add(time.Duration(secs) * time.Second).Unix()]: the product is an
    int64 number of nanoseconds. *)
Definition add_seconds (base secs : Z) : Z := base + i64 (i64 secs * 1000000000) / 1000000000.

Definition calcNextResetTime (zone base : Z) (plan : SubscriptionPlan) (endUnix : Z) : Z :=
  let period := NormalizeResetPeriod (p_QuotaResetPeriod plan) in
  let '(y, m, d) := civil_from_days (local_day zone base) in
  let finish next := if (0 <? endUnix) && (endUnix <? next) then 0 else next in
  if decide (period = "never") then 0
  else if decide (period = "daily") then finish (Date zone y m (d + 1))
  else if decide (period = "weekly") then
    let weekday := if Weekday zone base =? 0 then 7 else Weekday zone base in
    finish (Date zone y m (d + (8 - weekday)))
  else if decide (period = "monthly") then finish (Date zone y (m + 1) 1)
  else if decide (period = "custom") then
    if p_QuotaResetCustomSeconds plan <=? 0 then 0
    else finish (add_seconds base (p_QuotaResetCustomSeconds plan))
  else 0.

(** ** The calendar is sound *)

(** [doe] is a day of a 400-year era, [yoe] its year, counted from March. *)
Definition year_of_era (doe : Z) : Z := (doe - doe / 1460 + doe / 36524 - doe / 146096) / 365.
Definition day_of_era (yoe doy : Z) : Z := yoe * 365 + yoe / 4 - yoe / 100 + doy.

Lemma year_of_era_spec doe :
  0 <= doe < 146097 →
  0 <= year_of_era doe < 400 ∧
  0 <= doe - (365 * year_of_era doe + year_of_era doe / 4 - year_of_era doe / 100) <= 365 ∧
  (year_of_era doe < 399 → doe < day_of_era (year_of_era doe + 1) 0).
Proof. unfold year_of_era, day_of_era. intros H. split_and!; Z.to_euclidean_division_equations; lia. Qed.

Lemma month_of_year_spec doy :
  0 <= doy <= 365 →
  let mp := (5 * doy + 2) / 153 in
  0 <= mp <= 11 ∧ 1 <= doy - (153 * mp + 2) / 5 + 1 ∧
  (mp < 11 → doy < (153 * (mp + 1) + 2) / 5 <= doy + 31).
Proof. intros H mp. subst mp. split_and!; Z.to_euclidean_division_equations; lia. Qed.

(** A date given by its era, year of era and month counted from March. *)
Lemma days_from_civil_march era yoe mp d :
  0 <= yoe < 400 → 0 <= mp <= 11 →
  days_from_civil (yoe + era * 400 + (if mp <? 10 then 0 else 1)) (if mp <? 10 then mp + 3 else mp - 9) d =
    era * 146097 + day_of_era yoe ((153 * mp + 2) / 5 + d - 1) - 719468.
Proof.
  intros Hy Hm. unfold days_from_civil, day_of_era.
  destruct (Z.ltb_spec mp 10).
  - rewrite (proj2 (Z.leb_gt (mp + 3) 2)), (proj2 (Z.ltb_lt 2 (mp + 3))) by lia.
    replace (yoe + era * 400 + 0) with (yoe + era * 400) by lia.
    rewrite Z.div_add, Z.mod_add, Z.div_small, Z.mod_small by lia.
    replace (mp + 3 - 3) with mp by lia. lia.
  - rewrite (proj2 (Z.leb_le (mp - 9) 2)), (proj2 (Z.ltb_ge 2 (mp - 9))) by lia.
    replace (yoe + era * 400 + 1 - 1) with (yoe + era * 400) by lia.
    rewrite Z.div_add, Z.mod_add, Z.div_small, Z.mod_small by lia.
    replace (mp - 9 + 9) with mp by lia. lia.
Qed.

Lemma civil_from_days_march n :
  let era := (n + 719468) / 146097 in
  let doe := (n + 719468) mod 146097 in
  let yoe := year_of_era doe in
  let doy := doe - (365 * yoe + yoe / 4 - yoe / 100) in
  let mp := (5 * doy + 2) / 153 in
  civil_from_days n =
    (yoe + era * 400 + (if mp <? 10 then 0 else 1), if mp <? 10 then mp + 3 else mp - 9,
     doy - (153 * mp + 2) / 5 + 1).
Proof.
  intros era doe yoe doy mp. unfold civil_from_days. fold era doe. fold (year_of_era doe). fold yoe doy mp.
  assert (0 <= mp <= 11).
  { subst mp. apply month_of_year_spec. subst doy yoe doe.
    apply year_of_era_spec. by apply Z.mod_pos_bound. }
  destruct (Z.ltb_spec mp 10); [rewrite (proj2 (Z.leb_gt (mp + 3) 2)) by lia
    |rewrite (proj2 (Z.leb_le (mp - 9) 2)) by lia]; do 2 f_equal; lia.
Qed.

(** The first day of the month after the one that is [mp] months after March. *)
Lemma next_month_march era yoe mp :
  0 <= yoe < 400 → 0 <= mp <= 11 →
  let y := yoe + era * 400 + (if mp <? 10 then 0 else 1) in
  let m := if mp <? 10 then mp + 3 else mp - 9 in
  days_from_civil (y + m / 12) (m mod 12 + 1) 1 =
    if mp <? 11 then era * 146097 + day_of_era yoe ((153 * (mp + 1) + 2) / 5) - 719468
    else if yoe <? 399 then era * 146097 + day_of_era (yoe + 1) 0 - 719468
    else (era + 1) * 146097 - 719468.
Proof.
  intros Hy Hm y m. subst y m.
  assert (mp < 9 ∨ mp = 9 ∨ mp = 10 ∨ mp = 11) as [Hmp|[->|[->| ->]]] by lia.
  - rewrite (proj2 (Z.ltb_lt mp 10)), (proj2 (Z.ltb_lt mp 11)) by lia.
    rewrite (Z.div_small (mp + 3)), (Z.mod_small (mp + 3)) by lia.
    pose proof (days_from_civil_march era yoe (mp + 1) 1 Hy ltac:(lia)) as E.
    rewrite (proj2 (Z.ltb_lt (mp + 1) 10)) in E by lia.
    replace (mp + 3 + 1) with (mp + 1 + 3) by lia. replace (yoe + era * 400 + 0 + 0) with (yoe + era * 400 + 0) by lia.
    rewrite E. unfold day_of_era. lia.
  - assert (days_from_civil (yoe + era * 400 + 1) 1 1 = era * 146097 + day_of_era yoe 306 - 719468) as E
      by (apply (days_from_civil_march era yoe 10 1); lia).
    change (days_from_civil (yoe + era * 400 + 0 + 1) 1 1 = era * 146097 + day_of_era yoe 306 - 719468).
    by replace (yoe + era * 400 + 0 + 1) with (yoe + era * 400 + 1) by lia.
  - assert (days_from_civil (yoe + era * 400 + 1) 2 1 = era * 146097 + day_of_era yoe 337 - 719468) as E
      by (apply (days_from_civil_march era yoe 11 1); lia).
    change (days_from_civil (yoe + era * 400 + 1 + 0) 2 1 = era * 146097 + day_of_era yoe 337 - 719468).
    by replace (yoe + era * 400 + 1 + 0) with (yoe + era * 400 + 1) by lia.
  - change (days_from_civil (yoe + era * 400 + 1 + 0) 3 1 =
      if yoe <? 399 then era * 146097 + day_of_era (yoe + 1) 0 - 719468 else (era + 1) * 146097 - 719468).
    destruct (Z.ltb_spec yoe 399).
    + replace (yoe + era * 400 + 1 + 0) with (yoe + 1 + era * 400 + 0) by lia.
      apply (days_from_civil_march era (yoe + 1) 0 1); lia.
    + replace (yoe + era * 400 + 1 + 0) with (0 + (era + 1) * 400 + 0) by lia.
      transitivity ((era + 1) * 146097 + day_of_era 0 0 - 719468); [|change (day_of_era 0 0) with 0; lia].
      apply (days_from_civil_march (era + 1) 0 0 1); lia.
Qed.

Lemma civil_from_days_spec n y m d :
  civil_from_days n = (y, m, d) →
  days_from_civil y m d = n ∧ 1 <= m <= 12 ∧ 1 <= d ∧
  n < days_from_civil (y + m / 12) (m mod 12 + 1) 1 <= n + 31.
Proof.
  rewrite civil_from_days_march. set (era := (n + 719468) / 146097). set (doe := (n + 719468) mod 146097).
  assert (n = era * 146097 + doe - 719468) as Hn by (pose proof (Z.div_mod (n + 719468) 146097); lia).
  assert (0 <= doe < 146097) as Hdoe by (by apply Z.mod_pos_bound).
  destruct (year_of_era_spec doe Hdoe) as (Hy & Hdoy & Hny). set (yoe := year_of_era doe) in *.
  set (doy := doe - _) in *. destruct (month_of_year_spec doy Hdoy) as (Hmp & Hd & Hnm).
  set (mp := (5 * doy + 2) / 153) in *. intros [= <- <- <-].
  rewrite days_from_civil_march, next_month_march by done.
  assert (day_of_era yoe doy = doe) as Hdo by (unfold day_of_era, doy; lia).
  split_and!; try lia.
  - unfold day_of_era in *. lia.
  - destruct (Z.ltb_spec mp 10); lia.
  - destruct (Z.ltb_spec mp 10); lia.
  - destruct (Z.ltb_spec mp 11); [unfold day_of_era in *; lia|]. destruct (Z.ltb_spec yoe 399); lia.
  - assert (mp < 11 ∨ mp = 11) as [Hlt|Hmp11] by lia.
    + rewrite (proj2 (Z.ltb_lt mp 11)) by done. unfold day_of_era in *. lia.
    + rewrite (proj2 (Z.ltb_ge mp 11)) by lia.
      assert (337 <= doy) by (subst mp; Z.to_euclidean_division_equations; lia).
      destruct (Z.ltb_spec yoe 399); unfold day_of_era in *; Z.to_euclidean_division_equations; lia.
Qed.

Lemma days_from_civil_day y m d e : days_from_civil y m (d + e) = days_from_civil y m d + e.
Proof. unfold days_from_civil. lia. Qed.

(** Midnight of the [e]-th day after the local day of [t]. *)
Lemma Date_days zone t y m d e :
  civil_from_days (local_day zone t) = (y, m, d) →
  Date zone y m (d + e) = (local_day zone t + e) * 86400 - zone.
Proof.
  intros (Hd & Hm & _)%civil_from_days_spec. unfold Date.
  rewrite (Z.div_small (m - 1)), (Z.mod_small (m - 1)) by lia.
  replace (y + 0) with y by lia. replace (m - 1 + 1) with m by lia.
  rewrite days_from_civil_day, Hd. lia.
Qed.

Lemma Date_next_month zone t y m d :
  civil_from_days (local_day zone t) = (y, m, d) →
  (local_day zone t + 1) * 86400 - zone <= Date zone y (m + 1) 1 <= (local_day zone t + 31) * 86400 - zone.
Proof.
  intros (_ & Hm & _ & Hn)%civil_from_days_spec. unfold Date.
  replace (m + 1 - 1) with m by lia. lia.
Qed.

Lemma NormalizeResetPeriod_cases p :
  NormalizeResetPeriod p ∈ ["never"; "daily"; "weekly"; "monthly"; "custom"].
Proof.
  unfold NormalizeResetPeriod. destruct (bool_decide_reflect (TrimSpace p ∈ ["daily"; "weekly"; "monthly"; "custom"]));
    set_solver.
Qed.

Definition custom_ok (plan : SubscriptionPlan) : Prop := p_QuotaResetCustomSeconds plan <= max_i64 / 1000000000.

Lemma add_seconds_exact base secs : 0 <= secs <= max_i64 / 1000000000 → add_seconds base secs = base + secs.
Proof.
  intros H. unfold add_seconds. assert (in_i64 secs ∧ in_i64 (secs * 1000000000)) as [H1 H2].
  { unfold in_i64, min_i64, max_i64 in *. Z.to_euclidean_division_equations; lia. }
  rewrite (i64_id secs H1), (i64_id _ H2), Z.div_mul by lia. done.
Qed.

(** Midnight [e] days after the local day of [t]. *)
Lemma midnight_after zone t e :
  1 <= e →
  let next := (local_day zone t + e) * 86400 - zone in
  t < next ∧ (next + zone) mod 86400 = 0 ∧ next - t <= e * 86400 ∧ local_day zone next = local_day zone t + e.
Proof.
  intros He next. subst next. unfold local_day. split_and!.
  - Z.to_euclidean_division_equations; lia.
  - rewrite Z.sub_add. by apply Z.mod_mul.
  - Z.to_euclidean_division_equations; lia.
  - by rewrite Z.sub_add, Z.div_mul.
Qed.

(** The days to the next Monday. *)
Lemma days_to_monday zone t :
  let e := 8 - (if Weekday zone t =? 0 then 7 else Weekday zone t) in
  1 <= e <= 7 ∧ (local_day zone t + e + 4) mod 7 = 1.
Proof.
  unfold Weekday. set (n := local_day zone t). destruct (Z.eqb_spec ((n + 4) mod 7) 0); cbv zeta;
    Z.to_euclidean_division_equations; lia.
Qed.

Lemma finish_spec endUnix next r :
  (if (0 <? endUnix) && (endUnix <? next) then 0 else next) = r → r ≠ 0 →
  r = next ∧ (0 < endUnix → r <= endUnix).
Proof.
  destruct (Z.ltb_spec 0 endUnix), (Z.ltb_spec endUnix next); cbn; intros; subst; split; intros; (done || lia).
Qed.

(** What a next reset time promises. *)
Definition reset_time_spec (zone base : Z) (plan : SubscriptionPlan) (endUnix next : Z) : Prop :=
  base < next ∧ (0 < endUnix → next <= endUnix) ∧
  let period := NormalizeResetPeriod (p_QuotaResetPeriod plan) in
  period ≠ "never" ∧
  (period = "custom" → next = base + p_QuotaResetCustomSeconds plan) ∧
  (period ≠ "custom" → (next + zone) mod 86400 = 0 ∧ next - base <= 31 * 86400) ∧
  (period = "daily" → local_day zone next = local_day zone base + 1) ∧
  (period = "weekly" → Weekday zone next = 1 ∧ next - base <= 7 * 86400) ∧
  (period = "monthly" → ∃ y m, 1 <= m <= 12 ∧ next = Date zone y m 1).

Lemma calcNextResetTime_facts zone base plan endUnix next :
  custom_ok plan → calcNextResetTime zone base plan endUnix = next → next ≠ 0 →
  reset_time_spec zone base plan endUnix next.
Proof.
  unfold reset_time_spec, calcNextResetTime. intros Hc Hnext Hne.
  pose proof (NormalizeResetPeriod_cases (p_QuotaResetPeriod plan)) as Hp.
  set (period := NormalizeResetPeriod (p_QuotaResetPeriod plan)) in *. cbv zeta.
  destruct (civil_from_days (local_day zone base)) as [[y m] d] eqn:Hciv.
  repeat (apply elem_of_cons in Hp as [Hp|Hp]); [..|by apply not_elem_of_nil in Hp]; rewrite Hp in *;
    repeat first [rewrite decide_True in Hnext by done|rewrite decide_False in Hnext by done]; cbv zeta in Hnext.
  - congruence.
  - apply finish_spec in Hnext as [-> Hend]; [|done]. rewrite (Date_days zone base y m d 1 Hciv) in *.
    destruct (midnight_after zone base 1) as (? & ? & ? & ?); [lia|].
    split_and!; try done; intros; try split_and!; (done || lia).
  - apply finish_spec in Hnext as [-> Hend]; [|done]. destruct (days_to_monday zone base) as [He Hmon].
    rewrite (Date_days zone base y m d _ Hciv) in *. set (e := 8 - _) in *.
    destruct (midnight_after zone base e) as (? & ? & ? & Hday); [lia|].
    split_and!; try done; intros; try split_and!; try (done || lia). unfold Weekday. rewrite Hday. exact Hmon.
  - apply finish_spec in Hnext as [-> Hend]; [|done].
    destruct (Date_next_month zone base y m d Hciv) as [Hlo Hhi].
    assert (0 <= m mod 12 < 12) by (by apply Z.mod_pos_bound).
    assert (Date zone y (m + 1) 1 = Date zone (y + m / 12) (m mod 12 + 1) 1) as Hdate.
    { unfold Date. replace (m + 1 - 1) with m by lia. replace (m mod 12 + 1 - 1) with (m mod 12) by lia.
      rewrite (Z.div_small (m mod 12)), (Z.mod_small (m mod 12)), Z.add_0_r by lia. done. }
    destruct (midnight_after zone base 1) as (? & _); [lia|].
    destruct (midnight_after zone base 31) as (_ & _ & ? & _); [lia|].
    split_and!; try done; intros; try split_and!; try (done || lia).
    + unfold Date. rewrite Z.sub_add, Z.mod_mul; lia.
    + exists (y + m / 12), (m mod 12 + 1). split; [lia|done].
  - destruct (Z.leb_spec (p_QuotaResetCustomSeconds plan) 0); [congruence|].
    apply finish_spec in Hnext as [-> Hend]; [|done].
    rewrite add_seconds_exact in * by (unfold custom_ok in Hc; lia).
    split_and!; try done; lia.
Qed.

(** The next reset time is strictly after [base], at most 31 days later
    for the calendar periods (7 for weekly, the next day for daily) and
    exactly the configured number of seconds later for a custom period; it is
    a local midnight for the calendar periods, a Monday for weekly and the
    first of a month for monthly, and never after the end of the
    subscription; 0 means that there is none. *)
Theorem calcNextResetTime_spec (zone base : Z) (plan : SubscriptionPlan) (endUnix next : Z)
    (Hc : custom_ok plan) (Hnext : calcNextResetTime zone base plan endUnix = next) (Hne : next ≠ 0) :
  reset_time_spec zone base plan endUnix next.
Proof. by apply calcNextResetTime_facts. Qed.

Definition monthly_plan : SubscriptionPlan := plan_with "pro" " monthly " 0 500000.

(** From 2024-01-31 10:00 UTC the next monthly reset is 2024-02-01 00:00 in
    a zone eight hours east of UTC. *)
Lemma calcNextResetTime_spec_witness :
  calcNextResetTime 28800 1706695200 monthly_plan 0 = 1706716800 ∧ 1706695200 < 1706716800.
Proof.
  split; [by vm_compute|].
  apply (calcNextResetTime_spec 28800 1706695200 monthly_plan 0 1706716800); [by vm_compute..|done].
Defined.
