(* ===== verification/Subscription.v ===== *)
(** * Subscription quota

    The quota operations of src/model/subscription.go (pre-consume, refund,
    signed delta, periodic and administrative resets) and the delta helpers
    at the end of src/model/billing_recovery.go.  Buying, expiring and
    cancelling subscriptions is in SubscriptionOrders.v.

    [zone] is the offset of the process location (see Calendar) and
    [plan_cache] the content of the plan cache during a call; the theorems
    hold for every content.  [GetDBTimestamp] is the clock of the world. *)

From stdpp Require Import sorting.
From S2P Require Import GoStrings.
From S2P Require Import Prelude Store Calendar.
#[local] Open Scope Z_scope.

(** ** Plans *)

Definition NormalizeDefaults (p : SubscriptionPlan) : SubscriptionPlan :=
  let p := match p_AllowBalancePay p with None => p <| p_AllowBalancePay := Some true |> | Some _ => p end in
  match p_AllowWalletOverflow p with
  | None => p <| p_AllowWalletOverflow := Some true |>
  | Some _ => p
  end.

Definition getSubscriptionPlanByIdTx (plan_cache : gmap Z SubscriptionPlan) (id : Z) : M db SubscriptionPlan :=
  if id <=? 0 then fail (ErrNew "invalid plan id")
  else match plan_cache !! id with
       | Some cached => mret (NormalizeDefaults cached)
       | None => plan ← FIRST subscription_plans id; mret (NormalizeDefaults plan)
       end.

(** ** Signed deltas *)

(** [tx.Save(&sub)]; the [BeforeUpdate] hook stamps the row. *)
Definition save_subscription (now id : Z) (sub : UserSubscription) : M db UserSubscription :=
  let sub := sub <| s_UpdatedAt := now |> in
  SAVE user_subscriptions id sub;; mret sub.

Definition exceeds_total (used total : Z) : error :=
  ErrNew ("subscription used exceeds total, used=" +:+ pretty used +:+ " total=" +:+ pretty total).

Definition postConsumeUserSubscriptionDeltaTx (now subscriptionID delta : Z) : M db unit :=
  sub ← FIRST user_subscriptions subscriptionID;
  let newUsed := i64 (s_AmountUsed sub + delta) in
  let newUsed := if newUsed <? 0 then 0 else newUsed in
  if (0 <? s_AmountTotal sub) && (s_AmountTotal sub <? newUsed)
  then fail (exceeds_total newUsed (s_AmountTotal sub))
  else _ ← save_subscription now subscriptionID (sub <| s_AmountUsed := newUsed |>); mret tt.

Definition applySubscriptionDeltaTx (now subscriptionID delta : Z) : M db unit :=
  if (subscriptionID <=? 0) || (delta =? 0) then mret tt
  else postConsumeUserSubscriptionDeltaTx now subscriptionID delta.

Definition PostConsumeUserSubscriptionDelta (userSubscriptionId delta : Z) : M world unit :=
  if userSubscriptionId <=? 0 then fail (ErrNew "invalid userSubscriptionId")
  else if delta =? 0 then mret tt
  else transaction (λ now,
    sub ← FIRST user_subscriptions userSubscriptionId;
    let newUsed := i64 (s_AmountUsed sub + delta) in
    let newUsed := if newUsed <? 0 then 0 else newUsed in
    if (0 <? s_AmountTotal sub) && (s_AmountTotal sub <? newUsed)
    then fail (exceeds_total newUsed (s_AmountTotal sub))
    else _ ← save_subscription now userSubscriptionId (sub <| s_AmountUsed := newUsed |>); mret tt).

(** ** Periodic resets *)

(** The loop [for next > 0 && next <= now]: at most [2^k] turns.  Its state
    is [base], [next] and [advanced]. *)
Record reset_state := MkReset { rl_base : Z; rl_next : Z; rl_advanced : bool }.

Definition reset_due (now : Z) (s : reset_state) : bool := (0 <? rl_next s) && (rl_next s <=? now).
Definition reset_advance (zone : Z) (plan : SubscriptionPlan) (endUnix : Z) (s : reset_state) : reset_state :=
  MkReset (rl_next s) (calcNextResetTime zone (rl_next s) plan endUnix) true.

Fixpoint reset_loop (k : nat) (zone : Z) (plan : SubscriptionPlan) (endUnix now : Z) (s : reset_state) : reset_state :=
  if reset_due now s then
    match k with
    | O => reset_advance zone plan endUnix s
    | S k => reset_loop k zone plan endUnix now (reset_loop k zone plan endUnix now s)
    end
  else s.

(** Unix times fit in 63 bits, so [2^63] turns are enough. *)
Definition reset_fuel : nat := 63.

Definition reset_base (sub : UserSubscription) : Z :=
  if s_LastResetTime sub <=? 0 then s_StartTime sub else s_LastResetTime sub.
Definition first_reset (zone : Z) (sub : UserSubscription) (plan : SubscriptionPlan) : reset_state :=
  MkReset (reset_base sub) (calcNextResetTime zone (reset_base sub) plan (s_EndTime sub)) false.
Definition passed_resets (zone : Z) (sub : UserSubscription) (plan : SubscriptionPlan) (now : Z) : reset_state :=
  reset_loop reset_fuel zone plan (s_EndTime sub) now (first_reset zone sub plan).

(** The statements after the loop. *)
Definition finish_reset (now id : Z) (sub : UserSubscription) (last : reset_state) : M db UserSubscription :=
  if negb (rl_advanced last) then
    if (s_NextResetTime sub =? 0) && (0 <? rl_next last) then
      save_subscription now id (sub <| s_NextResetTime := rl_next last |> <| s_LastResetTime := rl_base last |>)
    else mret sub
  else
    save_subscription now id (sub <| s_AmountUsed := 0 |> <| s_LastResetTime := rl_base last |>
                                  <| s_NextResetTime := rl_next last |>).

Definition maybeResetUserSubscriptionWithPlanTx (zone id : Z) (sub : UserSubscription)
    (plan : SubscriptionPlan) (now : Z) : M db UserSubscription :=
  if (0 <? s_NextResetTime sub) && (now <? s_NextResetTime sub) then mret sub
  else if decide (NormalizeResetPeriod (p_QuotaResetPeriod plan) = "never") then mret sub
  else finish_reset now id sub (passed_resets zone sub plan now).

Definition resetUserSubscriptionTx (zone now id : Z) (sub : UserSubscription) (plan : SubscriptionPlan)
    (advanceResetTime : bool) : M db unit :=
  let sub := sub <| s_AmountUsed := 0 |> in
  let sub :=
    if advanceResetTime then
      let nextReset := calcNextResetTime zone now plan (s_EndTime sub) in
      sub <| s_NextResetTime := nextReset |> <| s_LastResetTime := if 0 <? nextReset then now else 0 |>
    else sub in
  _ ← save_subscription now id sub; mret tt.

(** ** Queries *)

(** [ORDER BY end_time asc, id asc] *)
Definition ends_before (a b : Z * UserSubscription) : Prop :=
  s_EndTime a.2 < s_EndTime b.2 ∨ (s_EndTime a.2 = s_EndTime b.2 ∧ a.1 <= b.1).
#[global] Instance ends_before_dec : RelDecision ends_before.
Proof. intros a b. unfold ends_before. apply _. Defined.

Definition is_active (now : Z) (s : UserSubscription) : bool :=
  bool_decide (s_Status s = "active") && (now <? s_EndTime s).

Definition active_subscriptions (now : Z) (cond : UserSubscription → bool) (d : db) : list (Z * UserSubscription) :=
  merge_sort ends_before
    (filter (λ e, is_active now e.2 && cond e.2 = true) (map_to_list (user_subscriptions d))).

Definition HasActiveUserSubscription (userId : Z) : M world bool :=
  if userId <=? 0 then fail (ErrNew "invalid userId")
  else transaction (λ now d,
    (Ok (0 <? Z.of_nat (length (active_subscriptions now (λ s, s_UserId s =? userId) d))), d)).

Definition UserActiveSubscriptionsAllowWalletOverflow (userId : Z) : M world bool :=
  if userId <=? 0 then fail (ErrNew "invalid userId")
  else transaction (λ now d,
    (Ok (Z.of_nat (length (active_subscriptions now
       (λ s, (s_UserId s =? userId) && negb (s_AllowWalletOverflow s)) d)) =? 0), d)).

(** ** Pre-consume *)

Record SubscriptionPreConsumeResult := MkPreConsumeResult {
  pcr_UserSubscriptionId : Z; pcr_PreConsumed : Z; pcr_AmountTotal : Z;
  pcr_AmountUsedBefore : Z; pcr_AmountUsedAfter : Z
}.

Definition already_refunded : error := ErrNew "subscription pre-consume already refunded".

Fixpoint preConsumeCandidates (zone now : Z) (plan_cache : gmap Z SubscriptionPlan) (requestId : string)
    (userId amount : Z) (subs : list (Z * UserSubscription)) : M db SubscriptionPreConsumeResult :=
  match subs with
  | [] => fail (ErrNew ("subscription quota insufficient, need=" +:+ pretty amount))
  | (id, candidate) :: subs =>
      plan ← getSubscriptionPlanByIdTx plan_cache (s_PlanId candidate);
      sub ← maybeResetUserSubscriptionWithPlanTx zone id candidate plan now;
      let usedBefore := s_AmountUsed sub in
      if (0 <? s_AmountTotal sub) && (i64 (s_AmountTotal sub - usedBefore) <? amount)
      then preConsumeCandidates zone now plan_cache requestId userId amount subs
      else
        created ← try (CREATE pre_consume_records requestId
                         (MkPreConsumeRecord userId id amount PcConsumed now now));
        match created with
        | Err err =>
            dup ← try (FIRST pre_consume_records requestId);
            match dup with
            | Ok dup =>
                if decide (pr_Status dup = PcRefunded) then fail already_refunded
                else mret (MkPreConsumeResult id (pr_PreConsumed dup) (s_AmountTotal sub)
                             (s_AmountUsed sub) (s_AmountUsed sub))
            | Err _ => fail err
            end
        | Ok _ =>
            sub ← save_subscription now id (sub <| s_AmountUsed := i64 (s_AmountUsed sub + amount) |>);
            mret (MkPreConsumeResult id amount (s_AmountTotal sub) usedBefore (s_AmountUsed sub))
        end
  end.

Definition preConsumeTx (zone now : Z) (plan_cache : gmap Z SubscriptionPlan) (requestId : string)
    (userId amount : Z) : M db SubscriptionPreConsumeResult :=
  existing ← gets (λ d, pre_consume_records d !! requestId);
  match existing with
  | Some existing =>
      if decide (pr_Status existing = PcRefunded) then fail already_refunded
      else
        sub ← FIRST user_subscriptions (pr_UserSubscriptionId existing);
        mret (MkPreConsumeResult (pr_UserSubscriptionId existing) (pr_PreConsumed existing)
                (s_AmountTotal sub) (s_AmountUsed sub) (s_AmountUsed sub))
  | None =>
      subs ← gets (active_subscriptions now (λ s, s_UserId s =? userId));
      if decide (subs = []) then fail (ErrNew "no active subscription")
      else preConsumeCandidates zone now plan_cache requestId userId amount subs
  end.

Definition PreConsumeUserSubscription (zone : Z) (plan_cache : gmap Z SubscriptionPlan)
    (requestId : string) (userId amount : Z) : M world SubscriptionPreConsumeResult :=
  if userId <=? 0 then fail (ErrNew "invalid userId")
  else if blank requestId then fail (ErrNew "requestId is empty")
  else if amount <=? 0 then fail (ErrNew "amount must be > 0")
  else transaction (λ now, preConsumeTx zone now plan_cache requestId userId amount).

(** ** Refund *)

Definition save_record (now : Z) (requestId : string) (r : SubscriptionPreConsumeRecord) : M db unit :=
  SAVE pre_consume_records requestId (r <| pr_UpdatedAt := now |>).

Definition refundSubscriptionPreConsumeTx (now : Z) (requestId : string) : M db unit :=
  record ← FIRST pre_consume_records requestId;
  if decide (pr_Status record = PcRefunded) then mret tt
  else if pr_PreConsumed record <=? 0 then save_record now requestId (record <| pr_Status := PcRefunded |>)
  else
    postConsumeUserSubscriptionDeltaTx now (pr_UserSubscriptionId record) (i64 (- pr_PreConsumed record));;
    save_record now requestId (record <| pr_Status := PcRefunded |>).

Definition RefundSubscriptionPreConsume (requestId : string) : M world unit :=
  if blank requestId then fail (ErrNew "requestId is empty")
  else transaction (λ now, refundSubscriptionPreConsumeTx now requestId).

(** ** Resets run by the scheduler and by administrators *)

Definition GetSubscriptionPlanById (plan_cache : gmap Z SubscriptionPlan) (id : Z) : M world SubscriptionPlan :=
  if bool_decide (is_Some (plan_cache !! id)) || (id <=? 0)
  then λ w, ((getSubscriptionPlanByIdTx plan_cache id (w_db w)).1, w)
  else transaction (λ _, getSubscriptionPlanByIdTx plan_cache id).

Definition next_reset_before (a b : Z * UserSubscription) : Prop :=
  s_NextResetTime a.2 < s_NextResetTime b.2 ∨ (s_NextResetTime a.2 = s_NextResetTime b.2 ∧ a.1 <= b.1).
#[global] Instance next_reset_before_dec : RelDecision next_reset_before.
Proof. intros a b. unfold next_reset_before. apply _. Defined.

Definition is_reset_due (now : Z) (s : UserSubscription) : bool :=
  (0 <? s_NextResetTime s) && (s_NextResetTime s <=? now).

Definition resetOneTx (zone now id : Z) (plan : SubscriptionPlan) : M db bool :=
  row ← gets (λ d, user_subscriptions d !! id);
  match row with
  | Some locked =>
      if is_reset_due now locked then
        _ ← maybeResetUserSubscriptionWithPlanTx zone id locked plan now; mret true
      else mret false
  | None => mret false
  end.

(** The loop over the due subscriptions; the count is returned along with
    the error, if any. *)
Fixpoint resetAll (zone now : Z) (plan_cache : gmap Z SubscriptionPlan) (subs : list (Z * UserSubscription))
    (resetCount : Z) : M world (Z * option error) :=
  match subs with
  | [] => mret (resetCount, None)
  | (id, sub) :: subs =>
      plan ← try (GetSubscriptionPlanById plan_cache (s_PlanId sub));
      match plan with
      | Err _ => resetAll zone now plan_cache subs resetCount
      | Ok plan =>
          r ← try (transaction (λ _, resetOneTx zone now id plan));
          match r with
          | Ok b => resetAll zone now plan_cache subs (if b : bool then resetCount + 1 else resetCount)
          | Err e => mret (resetCount, Some e)
          end
      end
  end.

Definition ResetDueSubscriptions (zone : Z) (plan_cache : gmap Z SubscriptionPlan) (limit : Z) :
    M world (Z * option error) :=
  let limit := if limit <=? 0 then 200 else limit in
  now ← GetTimestamp;
  found ← try (transaction (λ _ d,
    (Ok (take (Z.to_nat limit) (merge_sort next_reset_before
       (filter (λ e, is_reset_due now e.2 && bool_decide (s_Status e.2 = "active") = true)
          (map_to_list (user_subscriptions d))))), d)));
  match found with
  | Err e => mret (0, Some e)
  | Ok subs => resetAll zone now plan_cache subs 0
  end.

Record SubscriptionResetResult := MkResetResult {
  rr_PlanId : Z; rr_MatchedCount : Z; rr_ResetCount : Z; rr_UserCount : Z;
  rr_AdvanceResetTime : bool; rr_PlanTitle : string; rr_AffectedUserIds : list Z
}.

(** The users of [subs] in order of first appearance. *)
Definition distinct_users (subs : list (Z * UserSubscription)) : list Z :=
  foldl (λ userIds e, if decide (s_UserId e.2 ∈ userIds) then userIds else userIds ++ [s_UserId e.2]) [] subs.

Definition buildSubscriptionResetResult (planId : Z) (plan : SubscriptionPlan)
    (subs : list (Z * UserSubscription)) (advanceResetTime : bool) : SubscriptionResetResult :=
  let userIds := distinct_users subs in
  MkResetResult planId (Z.of_nat (length subs)) (Z.of_nat (length subs)) (Z.of_nat (length userIds))
    advanceResetTime (p_Title plan) userIds.

Fixpoint reset_each (zone now : Z) (plan : SubscriptionPlan) (adv : bool) (subs : list (Z * UserSubscription)) : M db unit :=
  match subs with
  | [] => mret tt
  | (id, sub) :: subs => resetUserSubscriptionTx zone now id sub plan adv;; reset_each zone now plan adv subs
  end.

Definition adminResetUserSubscriptionsByPlanTx (zone now userId planId : Z) (plan : SubscriptionPlan) (adv : bool) :
    M db SubscriptionResetResult :=
  subs ← gets (active_subscriptions now (λ s, (s_UserId s =? userId) && (s_PlanId s =? planId)));
  if decide (subs = []) then fail (ErrNew "该用户没有有效的此套餐订阅")
  else reset_each zone now plan adv subs;; mret (buildSubscriptionResetResult planId plan subs adv).

Definition AdminResetUserSubscriptionsByPlan (zone : Z) (plan_cache : gmap Z SubscriptionPlan)
    (userId planId : Z) (adv : bool) : M world SubscriptionResetResult :=
  if (userId <=? 0) || (planId <=? 0) then fail (ErrNew "invalid userId or planId")
  else transaction (λ now,
    plan ← getSubscriptionPlanByIdTx plan_cache planId;
    adminResetUserSubscriptionsByPlanTx zone now userId planId plan adv).

(** [ORDER BY user_id asc, end_time asc, id asc] *)
Definition user_ends_before (a b : Z * UserSubscription) : Prop :=
  s_UserId a.2 < s_UserId b.2 ∨ (s_UserId a.2 = s_UserId b.2 ∧ ends_before a b).
#[global] Instance user_ends_before_dec : RelDecision user_ends_before.
Proof. intros a b. unfold user_ends_before. apply _. Defined.

Definition adminResetPlanSubscriptionsTx (zone now planId : Z) (plan : SubscriptionPlan) (adv : bool) :
    M db SubscriptionResetResult :=
  subs ← gets (λ d, merge_sort user_ends_before (active_subscriptions now (λ s, s_PlanId s =? planId) d));
  reset_each zone now plan adv subs;; mret (buildSubscriptionResetResult planId plan subs adv).

Definition AdminResetPlanSubscriptions (zone : Z) (plan_cache : gmap Z SubscriptionPlan)
    (planId : Z) (adv : bool) : M world SubscriptionResetResult :=
  if planId <=? 0 then fail (ErrNew "invalid planId")
  else transaction (λ now,
    plan ← getSubscriptionPlanByIdTx plan_cache planId;
    adminResetPlanSubscriptionsTx zone now planId plan adv).

(** [DELETE .. WHERE updated_at < cutoff] *)
Definition CleanupSubscriptionPreConsumeRecords (olderThanSeconds : Z) : M world Z :=
  let olderThanSeconds := if olderThanSeconds <=? 0 then 7 * 24 * 3600 else olderThanSeconds in
  transaction (λ now d,
    let cutoff := i64 (now - olderThanSeconds) in
    let kept := filter (λ e : string * SubscriptionPreConsumeRecord, ¬ (pr_UpdatedAt e.2 < cutoff)) (pre_consume_records d) in
    (Ok (Z.of_nat (size (pre_consume_records d)) - Z.of_nat (size kept)),
     d <| pre_consume_records := kept |>)).

(** ** The reset loop ends *)

Section reset_loop.
Context (zone : Z) (plan : SubscriptionPlan) (endUnix now : Z) (Hc : custom_ok plan).

Lemma reset_advance_progress s :
  reset_due now s = true →
  rl_next (reset_advance zone plan endUnix s) = 0 ∨ rl_next s < rl_next (reset_advance zone plan endUnix s).
Proof.
  intros Hd. unfold reset_advance. cbn [rl_next].
  set (n := calcNextResetTime zone (rl_next s) plan endUnix).
  destruct (decide (n = 0)) as [->|Hn]; [by left|right].
  by apply (calcNextResetTime_facts zone (rl_next s) plan endUnix n).
Qed.

Lemma reset_loop_stop k s : reset_due now s = false → reset_loop k zone plan endUnix now s = s.
Proof. intros H. destruct k; cbn [reset_loop]; by rewrite H. Qed.

(** After [2^k] turns the loop is done or has moved [2^k] seconds on. *)
Lemma reset_loop_progress k s :
  let s' := reset_loop k zone plan endUnix now s in
  reset_due now s' = false ∨ rl_next s + 2 ^ Z.of_nat k <= rl_next s'.
Proof.
  revert s. induction k as [|k IH]; intros s; cbn [reset_loop].
  - destruct (reset_due now s) eqn:Hd; [|by left].
    destruct (reset_advance_progress s Hd) as [H0|Hlt]; [left; unfold reset_due; by rewrite H0|right]. change (2 ^ Z.of_nat 0) with 1. lia.
  - destruct (reset_due now s) eqn:Hd; [|by left].
    set (s1 := reset_loop k zone plan endUnix now s).
    destruct (IH s) as [H1|H1]; fold s1 in H1.
    + left. by rewrite reset_loop_stop.
    + destruct (IH s1) as [H2|H2]; [by left|right].
      replace (2 ^ Z.of_nat (S k)) with (2 ^ Z.of_nat k + 2 ^ Z.of_nat k)
        by (rewrite Nat2Z.inj_succ, Z.pow_succ_r; lia). lia.
Qed.

Lemma reset_loop_done s : in_i64 now → reset_due now (reset_loop reset_fuel zone plan endUnix now s) = false.
Proof.
  intros Hn. destruct (reset_due now s) eqn:Hd; [|by rewrite reset_loop_stop].
  destruct (reset_loop_progress reset_fuel s) as [H|H]; [done|].
  unfold reset_due in *. rewrite andb_true_iff, Z.ltb_lt in Hd. rewrite andb_false_iff, Z.leb_gt. right.
  change (2 ^ Z.of_nat reset_fuel) with 9223372036854775808 in H.
  unfold in_i64, max_i64 in *. lia.
Qed.

(** What holds before the loop and is kept by a turn holds after it. *)
Lemma reset_loop_ind (P : reset_state → Prop) k s :
  P s → (∀ s, P s → reset_due now s = true → P (reset_advance zone plan endUnix s)) →
  P (reset_loop k zone plan endUnix now s).
Proof.
  intros Hs Hstep. revert s Hs. induction k as [|k IH]; intros s Hs; cbn [reset_loop];
    destruct (reset_due now s) eqn:Hd; auto.
Qed.

Lemma reset_loop_advanced k s :
  reset_due now s = true → rl_advanced (reset_loop k zone plan endUnix now s) = true.
Proof.
  revert s. induction k as [|k IH]; intros s Hd; cbn [reset_loop]; rewrite Hd; [done|].
  specialize (IH s Hd). apply (reset_loop_ind (λ s, rl_advanced s = true)); [done|done].
Qed.
End reset_loop.

(** ** What a periodic reset does *)

(** A reset instant of the plan has passed since the last one. *)
Definition reset_passed (zone now : Z) (plan : SubscriptionPlan) (sub : UserSubscription) : bool :=
  negb ((0 <? s_NextResetTime sub) && (now <? s_NextResetTime sub)) &&
  bool_decide (NormalizeResetPeriod (p_QuotaResetPeriod plan) ≠ "never") &&
  reset_due now (first_reset zone sub plan).

Definition reset_outcome (zone now id : Z) (plan : SubscriptionPlan) (sub : UserSubscription)
    (d : db) (sub' : UserSubscription) (d' : db) : Prop :=
  (sub' = sub ∧ d' = d ∨ d' = d <| user_subscriptions ::= insert id sub' |>) ∧
  s_AmountTotal sub' = s_AmountTotal sub ∧ s_UserId sub' = s_UserId sub ∧ s_PlanId sub' = s_PlanId sub ∧
  s_EndTime sub' = s_EndTime sub ∧ s_Status sub' = s_Status sub ∧
  s_AmountUsed sub' = (if reset_passed zone now plan sub then 0 else s_AmountUsed sub) ∧
  (reset_passed zone now plan sub = true →
     s_LastResetTime sub' <= now ∧ (s_NextResetTime sub' <= 0 ∨ now < s_NextResetTime sub')).

Lemma passed_resets_spec zone sub plan now :
  custom_ok plan → in_i64 now →
  let last := passed_resets zone sub plan now in
  reset_due now last = false ∧ rl_advanced last = reset_due now (first_reset zone sub plan) ∧
  (rl_advanced last = true → rl_base last <= now).
Proof.
  intros Hc Hn. unfold passed_resets. split_and!.
  - by apply reset_loop_done.
  - destruct (reset_due now (first_reset zone sub plan)) eqn:Hd; [by apply reset_loop_advanced|].
    by rewrite reset_loop_stop.
  - apply (reset_loop_ind zone plan (s_EndTime sub) now (λ s, rl_advanced s = true → rl_base s <= now)); [done|].
    intros s _ Hd _. unfold reset_due in Hd. unfold reset_advance. cbn [rl_base]. lia.
Qed.

Lemma maybeReset_outcome zone id sub plan now d :
  custom_ok plan → in_i64 now →
  ∃ sub' d', maybeResetUserSubscriptionWithPlanTx zone id sub plan now d = (Ok sub', d') ∧
    reset_outcome zone now id plan sub d sub' d'.
Proof.
  intros Hc Hn. unfold maybeResetUserSubscriptionWithPlanTx, reset_outcome, reset_passed.
  destruct ((0 <? s_NextResetTime sub) && (now <? s_NextResetTime sub)); cbn [negb andb].
  { exists sub, d. split_and!; try done. by left. }
  case_decide as Hp.
  { exists sub, d. rewrite bool_decide_false by auto. cbn [andb]. split_and!; try done. by left. }
  rewrite bool_decide_true by done. cbn [andb].
  destruct (passed_resets_spec zone sub plan now Hc Hn) as (Hdone & Hadv & Hbase). revert Hdone Hadv Hbase.
  generalize (passed_resets zone sub plan now) as last. intros last Hdone Hadv Hbase. rewrite <- Hadv.
  unfold finish_reset, save_subscription, SAVE. unfold_m. destruct (rl_advanced last); cbn [negb].
  - eexists _, _. split; [done|]. cbn. split_and!; try done; [by right|]. intros _.
    specialize (Hbase eq_refl). unfold reset_due in Hdone. split; [done|lia].
  - destruct (_ && _); eexists _, _; (split; [done|]); cbn; split_and!; try done; [by right|by left].
Qed.

(** A periodic reset always terminates and succeeds.  The used amount
    becomes 0 exactly when a reset instant of the plan has passed; then the
    last reset is in the past and the next one in the future (or there is
    none).  The quota, the owner, the plan and the end are kept. *)
Theorem maybeReset_resets_when_due (zone id : Z) (sub : UserSubscription) (plan : SubscriptionPlan) (now : Z) (d : db)
    (Hc : custom_ok plan) (Hn : in_i64 now) :
  ∃ sub' d', maybeResetUserSubscriptionWithPlanTx zone id sub plan now d = (Ok sub', d') ∧
    reset_outcome zone now id plan sub d sub' d'.
Proof. by apply maybeReset_outcome. Qed.

Definition daily_plan : SubscriptionPlan := plan_with "day pass" "daily" 0 1000.
Definition used_sub (used : Z) : UserSubscription :=
  subscription_with 7 1 1000 used true 1700000000.

Lemma maybeReset_resets_when_due_witness :
  reset_passed 0 1700000000 daily_plan (used_sub 30) = false ∧
  reset_passed 0 1700100000 daily_plan (used_sub 30) = true ∧
  ∃ sub' d', maybeResetUserSubscriptionWithPlanTx 0 5 (used_sub 30) daily_plan 1700100000 empty_db = (Ok sub', d') ∧
    s_AmountUsed sub' = 0.
Proof.
  split; [by vm_compute|]. split; [by vm_compute|].
  destruct (maybeReset_resets_when_due 0 5 (used_sub 30) daily_plan 1700100000 empty_db)
    as (sub' & d' & E & _ & _ & _ & _ & _ & _ & Hu & _);
    [by vm_compute|by vm_compute|]. exists sub', d'. split; [done|]. rewrite Hu. by vm_compute.
Defined.

(** ** Pre-consume and refund by request id *)

(** Plan caches and tables whose custom reset periods do not overflow a
    [time.Duration]. *)
Definition plans_ok (plan_cache : gmap Z SubscriptionPlan) (d : db) : Prop :=
  map_Forall (λ _, custom_ok) plan_cache ∧ map_Forall (λ _, custom_ok) (subscription_plans d).

Lemma getSubscriptionPlan_inv plan_cache id d r d' :
  getSubscriptionPlanByIdTx plan_cache id d = (r, d') →
  d' = d ∧ (plans_ok plan_cache d → ∀ plan, r = Ok plan → custom_ok plan).
Proof.
  assert (∀ p, custom_ok p → custom_ok (NormalizeDefaults p)) as Hnd.
  { intros p. unfold custom_ok, NormalizeDefaults. destruct p as [? ? ? ? [] ? ? ? ? ? []]; done. }
  unfold getSubscriptionPlanByIdTx, FIRST. unfold_m. destruct (id <=? 0); [by intros [= <- <-]|].
  destruct (plan_cache !! id) as [p|] eqn:Hp.
  - intros [= <- <-]. split; [done|]. intros [Hc _] plan [= <-]. apply Hnd, (Hc _ _ Hp).
  - destruct (subscription_plans d !! id) as [p|] eqn:Hp'; intros [= <- <-]; (split; [done|]); [|done].
    intros [_ Hc] plan [= <-]. apply Hnd, (Hc _ _ Hp').
Qed.

(** The tables of [d'] differ from those of [d] in subscriptions only. *)
Definition only_subscriptions (d d' : db) : Prop := d' = d <| user_subscriptions := user_subscriptions d' |>.

Lemma only_subscriptions_refl d : only_subscriptions d d.
Proof. by destruct d. Qed.
Lemma only_subscriptions_trans d1 d2 d3 :
  only_subscriptions d1 d2 → only_subscriptions d2 d3 → only_subscriptions d1 d3.
Proof. unfold only_subscriptions. intros -> ->. by destruct d1. Qed.

Lemma reset_outcome_only zone now id plan sub d sub' d' :
  reset_outcome zone now id plan sub d sub' d' → only_subscriptions d d'.
Proof. intros [[[_ ->]| ->] _]; by destruct d. Qed.

(** A successful pre-consume of a fresh request. *)
Definition preconsumed (now : Z) (requestId : string) (userId amount : Z) (d : db)
    (r : SubscriptionPreConsumeResult) (d' : db) : Prop :=
  pcr_PreConsumed r = amount ∧ pcr_AmountUsedAfter r = i64 (pcr_AmountUsedBefore r + amount) ∧
  (0 < pcr_AmountTotal r → amount <= i64 (pcr_AmountTotal r - pcr_AmountUsedBefore r)) ∧
  pre_consume_records d' = <[requestId := MkPreConsumeRecord userId (pcr_UserSubscriptionId r) amount PcConsumed now now]>
                             (pre_consume_records d) ∧
  ∃ s, user_subscriptions d' !! pcr_UserSubscriptionId r = Some s ∧
       s_AmountUsed s = pcr_AmountUsedAfter r ∧ s_AmountTotal s = pcr_AmountTotal r.

Lemma preConsumeCandidates_ok zone now plan_cache requestId userId amount subs d r d' :
  plans_ok plan_cache d → in_i64 now → pre_consume_records d !! requestId = None →
  preConsumeCandidates zone now plan_cache requestId userId amount subs d = (Ok r, d') →
  preconsumed now requestId userId amount d r d'.
Proof.
  revert d. induction subs as [|[id cand] subs IH]; intros d Hpl Hn Hnone; [done|].
  cbn [preConsumeCandidates]. unfold mbind at 1, M_bind at 1.
  destruct (getSubscriptionPlanByIdTx plan_cache (s_PlanId cand) d) as [[plan|] d0] eqn:Hplan; [|done].
  apply getSubscriptionPlan_inv in Hplan as [-> Hplan]. specialize (Hplan Hpl plan eq_refl).
  unfold mbind at 1, M_bind at 1.
  destruct (maybeReset_outcome zone id cand plan now d Hplan Hn) as (sub & d1 & -> & Ho).
  pose proof (reset_outcome_only _ _ _ _ _ _ _ _ Ho) as Hd1. clear Ho.
  assert (pre_consume_records d1 = pre_consume_records d ∧ subscription_plans d1 = subscription_plans d)
    as [Hrec Hsp] by (by rewrite Hd1).
  destruct ((0 <? s_AmountTotal sub) && (i64 (s_AmountTotal sub - s_AmountUsed sub) <? amount)) eqn:Hfit.
  { intros E. apply IH in E; [|unfold plans_ok; by rewrite Hsp|done|by rewrite Hrec].
    unfold preconsumed in *. by rewrite Hrec in E. }
  unfold CREATE, save_subscription, SAVE. unfold_m. rewrite Hrec, Hnone. cbn.
  intros [= <- <-]. unfold preconsumed. cbn. split_and!; try done.
  - intros Ht. rewrite andb_false_iff, Z.ltb_ge, Z.ltb_ge in Hfit. lia.
  - eexists. rewrite lookup_insert_eq. by split_and!.
Qed.

Lemma preConsumeTx_inv zone now plan_cache requestId userId amount d r d' :
  plans_ok plan_cache d → in_i64 now →
  preConsumeTx zone now plan_cache requestId userId amount d = (Ok r, d') →
  match pre_consume_records d !! requestId with
  | Some rec => pr_Status rec = PcConsumed ∧ d' = d ∧ pcr_PreConsumed r = pr_PreConsumed rec ∧
                pcr_UserSubscriptionId r = pr_UserSubscriptionId rec
  | None => preconsumed now requestId userId amount d r d'
  end.
Proof.
  intros Hpl Hn. unfold preConsumeTx, FIRST. unfold_m. destruct (pre_consume_records d !! requestId) as [rec|] eqn:Hrec.
  - case_decide as Hst; [done|]. destruct (user_subscriptions d !! _) as [s|]; [|done].
    intros [= <- <-]. split_and!; try done. by destruct (pr_Status rec).
  - case_decide; [done|]. by apply preConsumeCandidates_ok.
Qed.

Lemma PreConsume_inv zone plan_cache requestId userId amount w r w' :
  PreConsumeUserSubscription zone plan_cache requestId userId amount w = (Ok r, w') →
  0 < userId ∧ blank requestId = false ∧ 0 < amount ∧
  ∃ d', preConsumeTx zone (w_now w) plan_cache requestId userId amount (w_db w) = (Ok r, d') ∧
        w' = w <| w_oracle := tail (w_oracle w) |> <| w_db := d' |>.
Proof.
  unfold PreConsumeUserSubscription. destruct (Z.leb_spec userId 0); [done|].
  destruct (blank requestId); [done|]. destruct (Z.leb_spec amount 0); [done|].
  unfold transaction. destruct (w_oracle w) as [|[msg|] o]; [|done|];
    destruct (preConsumeTx _ _ _ _ _ _ _) as [[a|] d'] eqn:E; try done; intros [= <- <-]; naive_solver.
Qed.

(** Pre-consuming a subscription is idempotent per request id.  After a
    first success, a retry with any positive amount returns the same
    subscription and the amount charged the first time, and changes nothing. *)
Theorem PreConsumeUserSubscription_idempotent (zone : Z) (plan_cache : gmap Z SubscriptionPlan) (requestId : string)
    (userId amount userId' amount' : Z) (w w' : world) (r : SubscriptionPreConsumeResult)
    (Hpl : plans_ok plan_cache (w_db w)) (Hn : in_i64 (w_now w)) (Hh : healthy w')
    (Hrun : PreConsumeUserSubscription zone plan_cache requestId userId amount w = (Ok r, w'))
    (Hu : 0 < userId') (Ha : 0 < amount') :
  ∃ r', PreConsumeUserSubscription zone plan_cache requestId userId' amount' w' = (Ok r', w') ∧
    pcr_UserSubscriptionId r' = pcr_UserSubscriptionId r ∧ pcr_PreConsumed r' = pcr_PreConsumed r ∧
    (pre_consume_records (w_db w) !! requestId = None → pcr_PreConsumed r' = amount).
Proof.
  apply PreConsume_inv in Hrun as (_ & Hb & _ & d' & Htx & ->).
  pose proof (preConsumeTx_inv _ _ _ _ _ _ _ _ _ Hpl Hn Htx) as Hinv.
  unfold PreConsumeUserSubscription. rewrite (proj2 (Z.leb_gt userId' 0)), Hb, (proj2 (Z.leb_gt amount' 0)) by lia.
  unfold transaction. rewrite Hh. cbn [w_db w_now w_oracle upd tail].
  assert (∃ rec s, pre_consume_records d' !! requestId = Some rec ∧ pr_Status rec = PcConsumed ∧
    user_subscriptions d' !! pr_UserSubscriptionId rec = Some s ∧
    pr_UserSubscriptionId rec = pcr_UserSubscriptionId r ∧ pr_PreConsumed rec = pcr_PreConsumed r)
    as (rec & s & Hrec & Hst & Hs & Hid & Hpc).
  { destruct (pre_consume_records (w_db w) !! requestId) as [rec|] eqn:Hrec.
    - destruct Hinv as (Hst & -> & ? & ?). unfold preConsumeTx, FIRST in Htx. unfold_m. rewrite Hrec in Htx.
      rewrite decide_False in Htx by congruence.
      destruct (user_subscriptions (w_db w) !! _) as [s|] eqn:Hs; [|done]. eexists _, s. by split_and!.
    - destruct Hinv as (Hpc & _ & _ & -> & s & Hs & _). rewrite lookup_insert_eq. eexists _, s. by split_and!. }
  unfold preConsumeTx, FIRST. unfold_m. rewrite Hrec, decide_False by congruence. rewrite Hs.
  exists (MkPreConsumeResult (pr_UserSubscriptionId rec) (pr_PreConsumed rec) (s_AmountTotal s)
            (s_AmountUsed s) (s_AmountUsed s)).
  split; [|cbn; split_and!; [done|done|]].
  - f_equal. revert Hh. unfold healthy. destruct w; cbn. by intros ->.
  - intros Hnone. rewrite Hnone in Hinv. destruct Hinv as [Hpa _]. congruence.
Qed.

Definition sub_db : db :=
  empty_db <| subscription_plans := {[1 := daily_plan]} |> <| user_subscriptions := {[5 := used_sub 30]} |>.
Definition sub_world : world := MkWorld sub_db ∅ empty_batch [] 1700000100 [] false false.

Lemma PreConsumeUserSubscription_idempotent_witness :
  let w' := exec (PreConsumeUserSubscription 0 ∅ "req-1" 7 400) sub_world in
  ∃ r', PreConsumeUserSubscription 0 ∅ "req-1" 7 999999 w' = (Ok r', w') ∧ pcr_PreConsumed r' = 400.
Proof.
  intros w'.
  destruct (PreConsumeUserSubscription_idempotent 0 ∅ "req-1" 7 400 7 999999 sub_world w'
    (MkPreConsumeResult 5 400 1000 30 430)) as (r' & E & _ & _ & Hp).
  - split; [apply map_Forall_empty|]. apply map_Forall_singleton. by vm_compute.
  - by vm_compute.
  - by vm_compute.
  - by vm_compute.
  - done.
  - done.
  - exists r'. split; [exact E|]. apply Hp. by vm_compute.
Defined.

(** The refund of a consumed record, and of a refunded one. *)
Lemma refundTx_consumed now requestId rec s d :
  pre_consume_records d !! requestId = Some rec → pr_Status rec = PcConsumed →
  0 < pr_PreConsumed rec → in_i64 (pr_PreConsumed rec) →
  user_subscriptions d !! pr_UserSubscriptionId rec = Some s →
  0 <= s_AmountUsed s → in_i64 (s_AmountUsed s) → (0 < s_AmountTotal s → s_AmountUsed s <= s_AmountTotal s) →
  ∃ d' s' rec', refundSubscriptionPreConsumeTx now requestId d = (Ok tt, d') ∧
    user_subscriptions d' = <[pr_UserSubscriptionId rec := s']> (user_subscriptions d) ∧
    s_AmountUsed s' = Z.max 0 (s_AmountUsed s - pr_PreConsumed rec) ∧
    pre_consume_records d' = <[requestId := rec']> (pre_consume_records d) ∧ pr_Status rec' = PcRefunded.
Proof.
  intros Hrec Hst Hpos H1 Hs H0 H2 Hle.
  unfold refundSubscriptionPreConsumeTx, postConsumeUserSubscriptionDeltaTx, FIRST, save_record,
    save_subscription, SAVE. unfold_m.
  rewrite Hrec, decide_False by congruence. rewrite (proj2 (Z.leb_gt _ 0)) by lia. rewrite Hs.
  rewrite (i64_id (- pr_PreConsumed rec)) by (unfold in_i64, min_i64, max_i64 in *; lia).
  rewrite (i64_id (s_AmountUsed s + - pr_PreConsumed rec)) by (unfold in_i64, min_i64, max_i64 in *; lia).
  set (u := if s_AmountUsed s + - pr_PreConsumed rec <? 0 then 0 else s_AmountUsed s + - pr_PreConsumed rec).
  assert (u = Z.max 0 (s_AmountUsed s - pr_PreConsumed rec)) as Hu by (unfold u; destruct (Z.ltb_spec (s_AmountUsed s + - pr_PreConsumed rec) 0); lia).
  assert ((0 <? s_AmountTotal s) && (s_AmountTotal s <? u) = false) as -> by lia.
  eexists _, _, _. by split_and!.
Qed.

Lemma refundTx_again now requestId rec d :
  pre_consume_records d !! requestId = Some rec → pr_Status rec = PcRefunded →
  refundSubscriptionPreConsumeTx now requestId d = (Ok tt, d).
Proof. intros Hrec Hst. unfold refundSubscriptionPreConsumeTx, FIRST. unfold_m. by rewrite Hrec, decide_True. Qed.

(** C18: a refund takes the pre-consumed amount back exactly once.  Charge a
    new request to a subscription, and let anything happen that leaves the
    record of the request: the refund then succeeds, takes exactly the amount of
    the request off what the subscription has used by then, but not below zero,
    and touches no other subscription and no other record; refunding again
    changes nothing, and the request id cannot be charged again.  When the
    subscription is as the charge left it, its used amount is the one before. *)
Theorem RefundSubscriptionPreConsume_undoes (zone : Z) (plan_cache : gmap Z SubscriptionPlan) (requestId : string)
    (userId amount : Z) (w w' w1 : world) (r : SubscriptionPreConsumeResult) (s1 : UserSubscription)
    (Hpl : plans_ok plan_cache (w_db w)) (Hn : in_i64 (w_now w)) (Ha : in_i64 amount)
    (Hfresh : pre_consume_records (w_db w) !! requestId = None)
    (Hrun : PreConsumeUserSubscription zone plan_cache requestId userId amount w = (Ok r, w'))
    (Hh : healthy w1)
    (Hlater : pre_consume_records (w_db w1) !! requestId = pre_consume_records (w_db w') !! requestId)
    (Hs1 : user_subscriptions (w_db w1) !! pcr_UserSubscriptionId r = Some s1)
    (H0 : 0 <= s_AmountUsed s1) (Hr1 : in_i64 (s_AmountUsed s1)) (Hle : 0 < s_AmountTotal s1 → s_AmountUsed s1 <= s_AmountTotal s1) :
  ∃ w2 s2, RefundSubscriptionPreConsume requestId w1 = (Ok tt, w2) ∧
    user_subscriptions (w_db w2) = <[pcr_UserSubscriptionId r := s2]> (user_subscriptions (w_db w1)) ∧
    s_AmountUsed s2 = Z.max 0 (s_AmountUsed s1 - amount) ∧
    (0 <= pcr_AmountUsedBefore r → in_i64 (pcr_AmountUsedBefore r + amount) →
     s_AmountUsed s1 = pcr_AmountUsedAfter r → s_AmountUsed s2 = pcr_AmountUsedBefore r) ∧
    (∀ requestId', requestId' ≠ requestId →
       pre_consume_records (w_db w2) !! requestId' = pre_consume_records (w_db w1) !! requestId') ∧
    RefundSubscriptionPreConsume requestId w2 = (Ok tt, w2) ∧
    ∀ userId' amount', 0 < userId' → 0 < amount' →
      PreConsumeUserSubscription zone plan_cache requestId userId' amount' w2 = (Err already_refunded, w2).
Proof.
  apply PreConsume_inv in Hrun as (_ & Hb & Hpos & d' & Htx & ->).
  pose proof (preConsumeTx_inv _ _ _ _ _ _ _ _ _ Hpl Hn Htx) as Hinv. rewrite Hfresh in Hinv.
  destruct Hinv as (Hpc & Haft & Hfit & Hrec & _). cbn [w_db upd] in Hlater. rewrite Hrec, lookup_insert_eq in Hlater.
  destruct (refundTx_consumed (w_now w1) requestId _ s1 (w_db w1) Hlater eq_refl Hpos Ha Hs1 H0 Hr1 Hle)
    as (d2 & s2 & rec2 & E & Hs2 & Hu2 & Hr2 & Hst2). cbn in Hs2, Hu2.
  assert (pre_consume_records d2 !! requestId = Some rec2) as Hrec2 by (by rewrite Hr2, lookup_insert_eq).
  exists (w1 <| w_oracle := [] |> <| w_db := d2 |>), s2.
  unfold RefundSubscriptionPreConsume, PreConsumeUserSubscription. rewrite Hb. unfold transaction. rewrite Hh, E.
  split_and!; [done|done|done| | | |].
  - intros Hb0 Hb1 Hsame. rewrite i64_id in Haft by done. lia.
  - intros rid' Hne. cbn. by rewrite Hr2, lookup_insert_ne.
  - cbn -[refundSubscriptionPreConsumeTx]. by rewrite (refundTx_again _ _ _ _ Hrec2 Hst2).
  - intros u' a' Hu' Ha'. rewrite (proj2 (Z.leb_gt u' 0)), (proj2 (Z.leb_gt a' 0)) by lia. cbn -[preConsumeTx].
    unfold preConsumeTx. unfold_m. by rewrite Hrec2, decide_True.
Qed.

(** A second request is charged before the first is refunded. *)
Lemma RefundSubscriptionPreConsume_undoes_witness :
  let w' := exec (PreConsumeUserSubscription 0 ∅ "req-1" 7 400) sub_world in
  let w1 := exec (PreConsumeUserSubscription 0 ∅ "req-2" 7 100) w' in
  ∃ w2 s, RefundSubscriptionPreConsume "req-1" w1 = (Ok tt, w2) ∧
    user_subscriptions (w_db w2) !! 5 = Some s ∧ s_AmountUsed s = 130.
Proof.
  intros w' w1.
  destruct (RefundSubscriptionPreConsume_undoes 0 ∅ "req-1" 7 400 sub_world w' w1
    (MkPreConsumeResult 5 400 1000 30 430) (default (used_sub 0) (user_subscriptions (w_db w1) !! 5))) as (w2 & s & E & Hs & Hu & _).
  - split; [apply map_Forall_empty|]. apply map_Forall_singleton. by vm_compute.
  - by vm_compute.
  - by vm_compute.
  - by vm_compute.
  - by vm_compute.
  - by vm_compute.
  - by vm_compute.
  - by vm_compute.
  - by vm_compute.
  - by vm_compute.
  - by vm_compute.
  - exists w2, s. split; [exact E|]. rewrite Hs. split; [by apply lookup_insert_eq|]. rewrite Hu. by vm_compute.
Defined.

(** ** Used amounts stay within the quota *)

Definition amount_bound : Z := 2 ^ 62.

Definition sub_ok (s : UserSubscription) : Prop :=
  0 < s_AmountTotal s → 0 <= s_AmountUsed s <= s_AmountTotal s ∧ s_AmountTotal s <= amount_bound.
Definition record_ok (r : SubscriptionPreConsumeRecord) : Prop := 0 <= pr_PreConsumed r <= amount_bound.
Definition subscriptions_ok (plan_cache : gmap Z SubscriptionPlan) (d : db) : Prop :=
  map_Forall (λ _, sub_ok) (user_subscriptions d) ∧ map_Forall (λ _, record_ok) (pre_consume_records d) ∧
  plans_ok plan_cache d.

Section quota_invariant.
Context (zone : Z) (plan_cache : gmap Z SubscriptionPlan).
Abbreviation ok := (subscriptions_ok plan_cache).

Lemma inv_FIRST_sub id : Inv ok (FIRST user_subscriptions id) sub_ok.
Proof.
  intros d Hd. unfold FIRST. destruct (user_subscriptions d !! id) as [s|] eqn:E; [|done].
  split; [done|]. intros ? [= <-]. apply Hd in E. done.
Qed.
Lemma inv_FIRST_record rid : Inv ok (FIRST pre_consume_records rid) record_ok.
Proof.
  intros d Hd. unfold FIRST. destruct (pre_consume_records d !! rid) as [s|] eqn:E; [|done].
  split; [done|]. intros ? [= <-]. destruct Hd as (_ & Hr & _). apply (Hr _ _ E).
Qed.

Lemma inv_save_subscription now id s : sub_ok s → Inv ok (save_subscription now id s) sub_ok.
Proof.
  intros Hs d (H1 & H2 & H3). unfold save_subscription, SAVE. unfold_m. cbn.
  split; [|by intros ? [= <-]]. split_and!; [|done|done]. by apply map_Forall_insert_2.
Qed.
Lemma inv_save_record now rid r : record_ok r → Inv ok (save_record now rid r) (λ _, True).
Proof.
  intros Hr d (H1 & H2 & H3). unfold save_record, SAVE. cbn. split; [|done].
  split_and!; [done| |done]. by apply map_Forall_insert_2.
Qed.
Lemma inv_create_record rid r : record_ok r → Inv ok (CREATE pre_consume_records rid r) (λ _, True).
Proof.
  intros Hr d (H1 & H2 & H3). unfold CREATE. destruct (pre_consume_records d !! rid); [done|].
  split; [|done]. split_and!; [done| |done]. by apply map_Forall_insert_2.
Qed.

Lemma inv_delta now id delta :
  - amount_bound <= delta <= amount_bound →
  Inv ok (postConsumeUserSubscriptionDeltaTx now id delta) (λ _, True).
Proof.
  intros Hd. unfold postConsumeUserSubscriptionDeltaTx. eapply inv_bind; [apply inv_FIRST_sub|intros s Hs].
  set (u := if _ <? 0 then 0 else _).
  destruct ((0 <? s_AmountTotal s) && (s_AmountTotal s <? u)) eqn:E; [apply inv_fail|].
  eapply inv_bind; [apply inv_save_subscription|intros; by apply inv_ret].
  intros Ht. cbn in Ht |- *. destruct (Hs Ht) as [Hu Htb]. split; [|done]. split; [|lia].
  subst u. destruct (Z.ltb_spec (i64 (s_AmountUsed s + delta)) 0); lia.
Qed.

Lemma inv_maybeReset now id sub plan :
  in_i64 now → custom_ok plan → sub_ok sub → Inv ok (maybeResetUserSubscriptionWithPlanTx zone id sub plan now) sub_ok.
Proof.
  intros Hn Hc Hs d Hd. destruct (maybeReset_outcome zone id sub plan now d Hc Hn) as (sub' & d' & E & Ho).
  rewrite E. cbn. destruct Ho as (Hd' & Ht & _ & _ & _ & _ & Hu & _).
  assert (sub_ok sub') as Hs'.
  { unfold sub_ok in *. rewrite Ht, Hu. intros Hpos. specialize (Hs Hpos). destruct (reset_passed _ _ _ _); lia. }
  split; [|by intros ? [= <-]]. destruct Hd' as [[_ ->]| ->]; [done|].
  destruct Hd as (H1 & H2 & H3). split_and!; [|done|done]. by apply map_Forall_insert_2.
Qed.

Lemma inv_getPlan id : Inv ok (getSubscriptionPlanByIdTx plan_cache id) custom_ok.
Proof.
  intros d Hd. destruct (getSubscriptionPlanByIdTx plan_cache id d) as [r d'] eqn:E.
  apply getSubscriptionPlan_inv in E as [-> Hp]. split; [done|]. apply Hp, Hd.
Qed.

Lemma inv_candidates now rid userId amount subs :
  in_i64 now → 0 < amount <= amount_bound → Forall (λ e, sub_ok e.2) subs →
  Inv ok (preConsumeCandidates zone now plan_cache rid userId amount subs) (λ _, True).
Proof.
  intros Hn Ha. induction 1 as [|[id cand] subs Hs Hsubs IH]; cbn [preConsumeCandidates]; [apply inv_fail|].
  eapply inv_bind; [apply inv_getPlan|intros plan Hplan].
  eapply inv_bind; [by apply inv_maybeReset|intros sub Hsub].
  destruct ((0 <? s_AmountTotal sub) && (i64 (s_AmountTotal sub - s_AmountUsed sub) <? amount)) eqn:E; [done|].
  eapply inv_bind; [eapply inv_try, inv_create_record; unfold record_ok; cbn; lia|intros [?|err] _].
  - eapply inv_bind; [apply inv_save_subscription|intros; by apply inv_ret].
    intros Ht. cbn in Ht |- *. destruct (Hsub Ht) as [Hu Htb]. split; [|done]. unfold amount_bound in *.
    rewrite i64_id in E by (unfold in_i64, min_i64, max_i64; lia).
    rewrite i64_id by (unfold in_i64, min_i64, max_i64; lia). lia.
  - eapply inv_bind; [eapply inv_try, inv_FIRST_record|intros [dup|] _]; [|apply inv_fail].
    case_decide; [apply inv_fail|by apply inv_ret].
Qed.

Lemma active_subscriptions_ok now cond d : ok d → Forall (λ e, sub_ok e.2) (active_subscriptions now cond d).
Proof.
  intros (Hd & _). unfold active_subscriptions. rewrite merge_sort_Permutation.
  apply Forall_forall. intros [id s] [_ Hin]%list_elem_of_filter. apply elem_of_map_to_list in Hin. apply (Hd _ _ Hin).
Qed.

Lemma inv_preConsumeTx now rid userId amount :
  in_i64 now → 0 < amount <= amount_bound →
  Inv ok (preConsumeTx zone now plan_cache rid userId amount) (λ _, True).
Proof.
  intros Hn Ha. unfold preConsumeTx. eapply inv_bind; [by apply (inv_gets _ _ (λ _, True))|intros [ex|] _].
  - case_decide; [apply inv_fail|]. eapply inv_bind; [apply inv_FIRST_sub|intros; by apply inv_ret].
  - eapply inv_bind; [apply inv_gets; intros d Hd; by apply (active_subscriptions_ok now _ d Hd)|intros subs Hs].
    case_decide; [apply inv_fail|by apply inv_candidates].
Qed.

Lemma inv_refundTx now rid : Inv ok (refundSubscriptionPreConsumeTx now rid) (λ _, True).
Proof.
  unfold refundSubscriptionPreConsumeTx. eapply inv_bind; [apply inv_FIRST_record|intros rec Hrec].
  case_decide; [by apply inv_ret|]. destruct (Z.leb_spec (pr_PreConsumed rec) 0); [by apply inv_save_record|].
  eapply inv_bind; [apply inv_delta|intros; by apply inv_save_record].
  unfold record_ok, amount_bound in *. rewrite i64_id by (unfold in_i64, min_i64, max_i64; lia). lia.
Qed.

Lemma inv_resetOneTx now id plan : in_i64 now → custom_ok plan → Inv ok (resetOneTx zone now id plan) (λ _, True).
Proof.
  intros Hn Hc. unfold resetOneTx.
  eapply inv_bind; [apply (inv_gets _ _ (λ o, ∀ s, o = Some s → sub_ok s)); intros d Hd s Hs; apply (proj1 Hd _ _ Hs)|].
  intros [s|] Hs; [|by apply inv_ret]. destruct (is_reset_due now s); [|by apply inv_ret].
  eapply inv_bind; [apply inv_maybeReset; auto|intros; by apply inv_ret].
Qed.

Lemma inv_reset_each now plan adv subs :
  Forall (λ e, sub_ok e.2) subs → Inv ok (reset_each zone now plan adv subs) (λ _, True).
Proof.
  induction 1 as [|[id s] subs Hs Hsubs IH]; cbn [reset_each]; [by apply inv_ret|].
  eapply (inv_bind _ _ _ (λ _, True)); [|done]. unfold resetUserSubscriptionTx.
  eapply inv_bind; [apply inv_save_subscription|intros; by apply inv_ret].
  destruct adv; intros Ht; cbn in Hs, Ht |- *; specialize (Hs Ht); lia.
Qed.
End quota_invariant.

(** One call of the subscription interface. *)
Inductive sub_op :=
  | OpPreConsume (requestId : string) (userId amount : Z)
  | OpRefund (requestId : string)
  | OpDelta (id delta : Z)
  | OpResetDue (limit : Z)
  | OpAdminResetUser (userId planId : Z) (adv : bool)
  | OpAdminResetPlan (planId : Z) (adv : bool)
  | OpCleanup (olderThanSeconds : Z)
  | OpTick (seconds : Z).

Definition run_sub_op (zone : Z) (plan_cache : gmap Z SubscriptionPlan) (op : sub_op) : M world unit :=
  match op with
  | OpPreConsume rid u a => _ ← PreConsumeUserSubscription zone plan_cache rid u a; mret tt
  | OpRefund rid => RefundSubscriptionPreConsume rid
  | OpDelta id delta => PostConsumeUserSubscriptionDelta id delta
  | OpResetDue limit => _ ← ResetDueSubscriptions zone plan_cache limit; mret tt
  | OpAdminResetUser u p adv => _ ← AdminResetUserSubscriptionsByPlan zone plan_cache u p adv; mret tt
  | OpAdminResetPlan p adv => _ ← AdminResetPlanSubscriptions zone plan_cache p adv; mret tt
  | OpCleanup n => _ ← CleanupSubscriptionPreConsumeRecords n; mret tt
  | OpTick n => modify (λ w, w <| w_now ::= (λ t, i64 (t + n)) |>)
  end.

(** Amounts up to [2^62] cannot overflow. *)
Definition sub_op_ok (op : sub_op) : Prop :=
  match op with
  | OpPreConsume _ _ a => a <= amount_bound
  | OpDelta _ delta => - amount_bound <= delta <= amount_bound
  | _ => True
  end.

Definition run_sub_ops (zone : Z) (plan_cache : gmap Z SubscriptionPlan) (ops : list sub_op) (w : world) : world :=
  foldl (λ w op, exec (run_sub_op zone plan_cache op) w) w ops.

Section world_invariant.
Context (zone : Z) (plan_cache : gmap Z SubscriptionPlan).

Definition world_ok (w : world) : Prop := subscriptions_ok plan_cache (w_db w) ∧ in_i64 (w_now w).

Lemma inv_world {A} (body : Z → M db A) Q :
  (∀ now, in_i64 now → Inv (subscriptions_ok plan_cache) (body now) Q) → Inv world_ok (transaction body) Q.
Proof.
  intros Hb w [Hw Hn]. unfold transaction. destruct (Hb (w_now w) Hn (w_db w) Hw) as [Hd Hq].
  destruct (w_oracle w) as [|[msg|] o]; [|done|];
    destruct (body (w_now w) (w_db w)) as [[a|e] d]; cbn in *; split; auto; try (by intros ? [= <-]); by split.
Qed.

Lemma inv_GetPlan id : Inv world_ok (GetSubscriptionPlanById plan_cache id) custom_ok.
Proof.
  unfold GetSubscriptionPlanById. destruct (_ || _).
  - intros w Hw. split; [done|]. intros plan E. destruct (inv_getPlan plan_cache id (w_db w) (proj1 Hw)) as [_ Hp].
    by apply Hp.
  - apply inv_world. intros now Hn. apply inv_getPlan.
Qed.

Lemma inv_resetAll now subs n : in_i64 now → Inv world_ok (resetAll zone now plan_cache subs n) (λ _, True).
Proof.
  intros Hn. revert n. induction subs as [|[id s] subs IH]; intros n; cbn [resetAll]; [by apply inv_ret|].
  eapply inv_bind; [eapply inv_try, inv_GetPlan|intros [plan|] Hp]; [|apply IH].
  eapply (inv_bind _ _ _ (λ _, True)); [|intros [|] _; [apply IH|by apply inv_ret]].
  eapply inv_true, inv_try, inv_world. intros now' _. by apply inv_resetOneTx.
Qed.

Lemma inv_run_sub_op op : sub_op_ok op → Inv world_ok (run_sub_op zone plan_cache op) (λ _, True).
Proof.
  destruct op as [rid u a|rid|id delta|limit|u p adv|p adv|n|n]; cbn [run_sub_op sub_op_ok]; intros Hop.
  - eapply (inv_bind _ _ _ (λ _, True)); [|intros; by apply inv_ret]. unfold PreConsumeUserSubscription.
    destruct (u <=? 0); [apply inv_fail|]. destruct (blank rid); [apply inv_fail|].
    destruct (Z.leb_spec a 0); [apply inv_fail|]. apply inv_world. intros now Hn. apply inv_preConsumeTx; [done|lia].
  - unfold RefundSubscriptionPreConsume. destruct (blank rid); [apply inv_fail|].
    apply inv_world. intros now Hn. apply inv_refundTx.
  - unfold PostConsumeUserSubscriptionDelta. destruct (id <=? 0); [apply inv_fail|].
    destruct (delta =? 0); [by apply inv_ret|]. apply inv_world. intros now Hn. by apply inv_delta.
  - eapply (inv_bind _ _ _ (λ _, True)); [|intros; by apply inv_ret]. unfold ResetDueSubscriptions.
    eapply (inv_bind _ _ _ in_i64); [apply inv_gets; by intros w []|intros now Hn].
    eapply (inv_bind _ _ _ (λ _, True)); [|intros [|] _; [by apply inv_resetAll|by apply inv_ret]].
    eapply inv_true, (inv_try _ _ (λ _, True)), inv_world. by intros _ _ d Hd.
  - eapply (inv_bind _ _ _ (λ _, True)); [|intros; by apply inv_ret]. unfold AdminResetUserSubscriptionsByPlan.
    destruct (_ || _); [apply inv_fail|]. apply inv_world. intros now Hn.
    eapply inv_bind; [apply inv_getPlan|intros plan Hplan]. unfold adminResetUserSubscriptionsByPlanTx.
    eapply inv_bind; [apply inv_gets; intros d Hd; by apply (active_subscriptions_ok plan_cache now _ d Hd)|intros subs Hs].
    case_decide; [apply inv_fail|]. eapply inv_bind; [by apply inv_reset_each|intros; by apply inv_ret].
  - eapply (inv_bind _ _ _ (λ _, True)); [|intros; by apply inv_ret]. unfold AdminResetPlanSubscriptions.
    destruct (_ <=? _); [apply inv_fail|]. apply inv_world. intros now Hn.
    eapply inv_bind; [apply inv_getPlan|intros plan Hplan]. unfold adminResetPlanSubscriptionsTx.
    eapply inv_bind; [apply (inv_gets _ _ (Forall (λ e, sub_ok e.2)))|intros subs Hs].
    { intros d Hd. rewrite merge_sort_Permutation. by apply (active_subscriptions_ok plan_cache). }
    eapply inv_bind; [by apply inv_reset_each|intros; by apply inv_ret].
  - eapply inv_bind; [|intros; by apply inv_ret]. apply (inv_world _ (λ _, True)). intros now Hn d (H1 & H2 & H3).
    cbn. split; [|done]. split_and!; [done| |done]. intros i x Hx. apply map_lookup_filter_Some in Hx as [Hx _].
    apply (H2 _ _ Hx).
  - intros w [Hw Hn]. split; [|done]. split; [done|]. apply i64_range.
Qed.
End world_invariant.

(** C19: the used amount of a limited subscription stays between 0 and its
    total, whatever sequence of pre-consumes, refunds, deltas, scheduled and
    administrative resets and record clean-ups runs, at whatever times and
    whichever of them fail. *)
Theorem subscription_used_within_total (zone : Z) (plan_cache : gmap Z SubscriptionPlan) (ops : list sub_op) (w : world)
    (Hw : subscriptions_ok plan_cache (w_db w)) (Hn : in_i64 (w_now w)) (Hops : Forall sub_op_ok ops) :
  ∀ id s, user_subscriptions (w_db (run_sub_ops zone plan_cache ops w)) !! id = Some s →
    0 < s_AmountTotal s → 0 <= s_AmountUsed s <= s_AmountTotal s.
Proof.
  assert (world_ok plan_cache (run_sub_ops zone plan_cache ops w)) as [[Hs _] _].
  { assert (world_ok plan_cache w) as H0 by done. clear Hw Hn. revert w H0.
    induction Hops as [|op ops Hop Hops IH]; intros w H0; [done|]. cbn. apply IH.
    by apply (inv_run_sub_op zone plan_cache op Hop w H0). }
  intros id s Hid Ht. apply (Hs _ _ Hid Ht).
Qed.

Lemma subscription_used_within_total_witness :
  let ops := [OpPreConsume "a" 7 600; OpPreConsume "b" 7 600; OpDelta 5 900; OpRefund "a"; OpTick 86400; OpResetDue 0;
              OpPreConsume "b" 7 600] in
  let found := user_subscriptions (w_db (run_sub_ops 0 ∅ ops sub_world)) !! 5 in
  let s := default (used_sub 0) found in
  is_Some found ∧ 0 < s_AmountTotal s ∧ 0 <= s_AmountUsed s <= s_AmountTotal s.
Proof.
  intros ops. assert (subscriptions_ok ∅ (w_db sub_world)) as Hw.
  { split_and!.
    - apply map_Forall_singleton. intros _. vm_compute. intuition congruence.
    - apply map_Forall_empty.
    - split; [apply map_Forall_empty|]. apply map_Forall_singleton. by vm_compute. }
  assert (in_i64 (w_now sub_world)) as Hn by (by vm_compute).
  assert (Forall sub_op_ok ops) as Hops by (repeat constructor; vm_compute; congruence).
  pose proof (subscription_used_within_total 0 ∅ ops sub_world Hw Hn Hops 5) as H. intros found s. clear Hw Hn Hops.
  assert (match found with Some s => 0 <? s_AmountTotal s | None => false end = true) as Hf by (by vm_compute).
  change (∀ s, found = Some s → 0 < s_AmountTotal s → 0 <= s_AmountUsed s <= s_AmountTotal s) in H.
  subst s. clearbody found. destruct found as [s'|]; [|discriminate Hf]. cbn. apply Z.ltb_lt in Hf.
  split; [exists s'; reflexivity|]. split; [exact Hf|]. exact (H s' eq_refl Hf).
Defined.

(** ** Custom periods that overflow a [time.Duration] *)

Definition overflow_plan : SubscriptionPlan := plan_with "custom" "custom" (2 ^ 55) 1000.

Lemma overflow_plan_stalls zone base endUnix :
  base <= endUnix → calcNextResetTime zone base overflow_plan endUnix = base.
Proof.
  intros He. unfold calcNextResetTime. destruct (civil_from_days _) as [[y m] d].
  assert (NormalizeResetPeriod (p_QuotaResetPeriod overflow_plan) = "custom") as -> by (by vm_compute).
  repeat first [rewrite decide_True by done|rewrite decide_False by done].
  change (p_QuotaResetCustomSeconds overflow_plan <=? 0) with false. cbv iota zeta.
  assert (add_seconds base (p_QuotaResetCustomSeconds overflow_plan) = base) as ->.
  { unfold add_seconds. replace (i64 _ / 1000000000) with 0 by (by vm_compute). lia. }
  destruct (Z.ltb_spec endUnix base); [lia|]. by rewrite andb_false_r.
Qed.

(** A custom period of [2^55] seconds, which the controller accepts
    (src/controller/subscription.go only asks for a positive number), is 0
    nanoseconds as a [time.Duration]: the next reset time is the base again
    and the loop of [maybeResetUserSubscriptionWithPlanTx] never ends. *)
Theorem custom_period_overflow_never_ends (zone base now endUnix : Z) (k : nat) (advanced : bool)
    (Hpos : 0 < base) (Hpast : base <= now) (Hend : now < endUnix) :
  reset_due now (reset_loop k zone overflow_plan endUnix now (MkReset base base advanced)) = true.
Proof.
  assert (∃ a, reset_loop k zone overflow_plan endUnix now (MkReset base base advanced) = MkReset base base a) as [a ->].
  { revert advanced. induction k as [|k IH]; intros adv; cbn [reset_loop];
      destruct (reset_due now _); try by eexists.
    - unfold reset_advance. cbn [rl_next]. rewrite overflow_plan_stalls by lia. by eexists.
    - destruct (IH adv) as [a ->]. apply IH. }
  unfold reset_due. cbn [rl_next]. lia.
Qed.

Lemma custom_period_overflow_never_ends_witness :
  reset_due 1700000500 (reset_loop 10 0 overflow_plan 1800000000 1700000500 (MkReset 1700000000 1700000000 false)) = true.
Proof. apply (custom_period_overflow_never_ends 0 1700000000 1700000500 1800000000 10 false); lia. Defined.

(** A refund after a reset takes away what other requests have used since: 400
    are charged, the period is reset, 300 are charged, and the refund of the
    first request leaves the subscription with nothing used. *)
Lemma refund_after_reset_wipes_usage :
  let w := run_sub_ops 0 ∅ [OpPreConsume "a" 7 400; OpAdminResetUser 7 1 false; OpPreConsume "b" 7 300] sub_world in
  (s_AmountUsed <$> user_subscriptions (w_db w) !! 5) = Some 300 ∧
  (s_AmountUsed <$> user_subscriptions (w_db (exec (RefundSubscriptionPreConsume "a") w)) !! 5) = Some 0.
Proof. by vm_compute. Qed.
