(* ===== verification/SubscriptionOrders.v ===== *)
(** * The life of a subscription

    The rest of src/model/subscription.go: orders and their completion,
    purchases with the wallet, subscriptions bound, cancelled and deleted by an
    administrator, the expiry pass, and the user group they raise and lower;
    with [RefreshUserGroupCache] and the script it runs
    (src/model/user_cache.go, src/model/user_auth_cache.go).

    A transaction runs as a whole ([transaction]), may fail as a whole, and the
    row locks it takes only order it against others; the two queries for an
    active upgrade, whose own errors the code takes for an empty result, fail
    only with their transaction.  [zone] and [plan_cache]
    are those of Subscription.v; the number of a balance order, made of random
    digits and the clock, is an argument. *)

From stdpp Require Import sorting.
From Stdlib Require Import SpecFloat.
From S2P Require Import Prelude GoStrings Interleave QuotaMath Store QuotaBatch QuotaReserve Affiliate TopUp Calendar Subscription.
#[local] Open Scope string_scope.
#[local] Open Scope list_scope.
#[local] Open Scope Z_scope.

(** ** When a subscription ends *)

Definition SubscriptionDurationYear : string := "year".
Definition SubscriptionDurationMonth : string := "month".
Definition SubscriptionDurationDay : string := "day".
Definition SubscriptionDurationHour : string := "hour".
Definition SubscriptionDurationCustom : string := "custom".

(** [start.AddDate(years, months, 0)]: the day may run into the next month. *)
Definition AddDate (zone start years months : Z) : Z :=
  let '(y, m, d) := civil_from_days (local_day zone start) in
  Date zone (y + years) (m + months) d + (start + zone) mod 86400.
(** [start.Add(time.Duration(n) * unit)] for a unit of [secs] seconds. *)
Definition add_units (start n secs : Z) : Z := start + i64 (n * (secs * 1000000000)) / 1000000000.

Definition calcPlanEndTime (zone start : Z) (plan : SubscriptionPlan) : res Z :=
  let unit := p_DurationUnit plan in
  let n := p_DurationValue plan in
  if (n <=? 0) && negb (bool_decide (unit = SubscriptionDurationCustom)) then Err (ErrNew "duration_value must be > 0")
  else if decide (unit = SubscriptionDurationYear) then Ok (AddDate zone start n 0)
  else if decide (unit = SubscriptionDurationMonth) then Ok (AddDate zone start 0 n)
  else if decide (unit = SubscriptionDurationDay) then Ok (add_units start (i64 (n * 24)) 3600)
  else if decide (unit = SubscriptionDurationHour) then Ok (add_units start n 3600)
  else if decide (unit = SubscriptionDurationCustom) then
    if p_CustomSeconds plan <=? 0 then Err (ErrNew "custom_seconds must be > 0") else Ok (add_units start (p_CustomSeconds plan) 1)
  else Err (ErrNew ("invalid duration_unit: " +:+ unit)).

(** ** Groups *)

(** [Find] into a string: a missing user has no group. *)
Definition getUserGroupByIdTx (userId : Z) : M db string :=
  if userId <=? 0 then fail (ErrNew "invalid userId")
  else gets (λ d, match users d !! userId with Some u => u_Group u | None => "" end).

Definition set_group (userId : Z) (group : string) : M db unit := _ ← UPDATE users userId (λ _, true) (λ u, u <| u_Group := group |>); mret tt.

(** [user_id = ? AND status = 'active' AND end_time > ? AND upgrade_group <> ''] *)
Definition keeps_group (now userId : Z) (s : UserSubscription) : bool :=
  (s_UserId s =? userId) && is_active now s && negb (bool_decide (s_UpgradeGroup s = "")).
Definition has_upgrade (now userId : Z) (but : Z → bool) (d : db) : bool :=
  bool_decide (filter (λ e, negb (but e.1) && keeps_group now userId e.2 = true) (map_to_list (user_subscriptions d)) ≠ []).

Definition downgradeUserGroupForSubscriptionTx (id : Z) (sub : UserSubscription) (now : Z) : M db string :=
  let downgradeGroup := TrimSpace (s_DowngradeGroup sub) in
  let upgradeGroup := TrimSpace (s_UpgradeGroup sub) in
  if bool_decide (downgradeGroup = "") && bool_decide (upgradeGroup = "") then mret ""
  else
    currentGroup ← getUserGroupByIdTx (s_UserId sub);
    other ← gets (has_upgrade now (s_UserId sub) (λ k, k =? id));
    if other : bool then mret ""
    else
      let target := if bool_decide (downgradeGroup = "")
        then (if negb (bool_decide (currentGroup = upgradeGroup)) then "" else TrimSpace (s_PrevUserGroup sub))
        else downgradeGroup in
      if bool_decide (target = "") || bool_decide (target = currentGroup) then mret ""
      else set_group (s_UserId sub) target;; mret target.

(** ** Creating a subscription *)

Definition purchases (userId planId : Z) (d : db) : Z :=
  Z.of_nat (length (filter (λ e, (s_UserId e.2 =? userId) && (s_PlanId e.2 =? planId) = true) (map_to_list (user_subscriptions d)))).
Definition CountUserSubscriptionsByPlan (userId planId : Z) : M world Z :=
  if (userId <=? 0) || (planId <=? 0) then fail (ErrNew "invalid userId or planId") else transaction (λ _, gets (purchases userId planId)).

Definition purchase_limit : error := ErrNew "已达到该套餐购买上限".
Definition next_subscription_id (d : db) : Z := 1 + map_fold (λ k _ acc, Z.max k acc) 0 (user_subscriptions d).

(** The group part: the group the user had, if it changes. *)
Definition upgrade_user (userId : Z) (upgradeGroup : string) : M db string :=
  if bool_decide (upgradeGroup = "") then mret ""
  else
    currentGroup ← getUserGroupByIdTx userId;
    if bool_decide (currentGroup = upgradeGroup) then mret "" else set_group userId upgradeGroup;; mret currentGroup.

Definition CreateUserSubscriptionFromPlanTx (zone nowUnix userId planId : Z) (plan : SubscriptionPlan) (source : string) : M db UserSubscription :=
  if planId =? 0 then fail (ErrNew "invalid plan")
  else if userId <=? 0 then fail (ErrNew "invalid user id")
  else
    count ← gets (purchases userId planId);
    if (0 <? p_MaxPurchasePerUser plan) && (p_MaxPurchasePerUser plan <=? count) then fail purchase_limit
    else
      endUnix ← lift_res (calcPlanEndTime zone nowUnix plan);
      let nextReset := calcNextResetTime zone nowUnix plan endUnix in
      let lastReset := if 0 <? nextReset then nowUnix else 0 in
      let upgradeGroup := TrimSpace (p_UpgradeGroup plan) in
      prevGroup ← upgrade_user userId upgradeGroup;
      let sub := MkUserSubscription userId planId (p_TotalAmount plan) 0 nowUnix endUnix "active" lastReset nextReset
        (default true (p_AllowWalletOverflow plan)) nowUnix source upgradeGroup prevGroup (TrimSpace (p_DowngradeGroup plan)) nowUnix in
      id ← gets next_subscription_id;
      CREATE user_subscriptions id sub;;
      mret sub.

(** ** The group in the cache *)

Definition cacheFieldScript (userId : Z) (field : string) (value : rval) (incoming : Z) : M redis Z :=
  let k := KUser userId in
  pv ← GET (KUserAuthFence userId); pending ← lua_number pv;
  cv ← GET (KUserAuthVersion userId); committed ← lua_number cv;
  av ← HGET k "AuthVersion"; current ← lua_number av;
  if (incoming <? pending) || (incoming <? committed) || (incoming <? current) then mret 0
  else
    (if committed <? incoming then SET (KUserAuthVersion userId) (VInt incoming) else mret tt);;
    (if (0 <? pending) && (pending <=? incoming) then DEL (KUserAuthFence userId) else mret tt);;
    present ← EXISTS k;
    if negb present then mret 1
    else if negb (current =? incoming) then mret 1
    else HSET k [(field, value); ("CacheSchema", VInt userCacheSchemaVersion)];; mret 1.

Definition updateUserCacheFieldAtVersion (userId : Z) (field : string) (value : rval) (authVersion : Z) : M world unit :=
  redis ← RedisEnabled;
  if negb redis then mret tt
  else if (userId <=? 0) || (authVersion <=? 0) then fail (ErrNew "invalid user auth version")
  else
    result ← redis_call (cacheFieldScript userId field value authVersion);
    if result =? 0 then fail ErrUserAuthCachePending else mret tt.

Definition group_changed : error := ErrNew "user group changed repeatedly during cache refresh".
Fixpoint refresh_loop (tries : nat) (userId : Z) (authoritative : User) : M world unit :=
  updateUserCacheFieldAtVersion userId "Group" (VStr (u_Group authoritative)) (u_AuthVersion authoritative);;
  match tries with
  | O => fail group_changed
  | S tries =>
      verified ← transaction (λ _, FIRST users userId);
      if (u_AuthVersion verified =? u_AuthVersion authoritative) && bool_decide (u_Group verified = u_Group authoritative) then mret tt
      else refresh_loop tries userId verified
  end.
Definition RefreshUserGroupCache (userId : Z) : M world unit :=
  redis ← RedisEnabled;
  if negb redis then mret tt
  else if userId <=? 0 then fail (ErrNew "invalid user id")
  else authoritative ← transaction (λ _, FIRST users userId); refresh_loop 3 userId authoritative.
(** [refreshSubscriptionUserGroupCache], for a group that changed. *)
Definition refresh_group (userId : Z) (group : string) : M world unit :=
  if bool_decide (group = "") || (userId <=? 0) then mret tt else log_error (RefreshUserGroupCache userId).

(** ** Orders *)

Definition ErrSubscriptionOrderNotFound : error := ErrNew "subscription order not found".
Definition ErrSubscriptionOrderStatusInvalid : error := ErrNew "subscription order status invalid".

Definition upsertSubscriptionTopUpTx (now : Z) (tradeNo : string) (order : SubscriptionOrder) : M db unit :=
  found ← try (FIRST topups tradeNo);
  match found with
  | Err e =>
      if error_is e ErrRecordNotFound then
        id ← gets (λ d, next_id tp_Id (topups d));
        CREATE topups tradeNo (MkTopUp id (so_UserId order) 0 (so_Money order) (so_PaymentMethod order) (so_PaymentProvider order)
          (so_CreateTime order) now TopUpStatusSuccess 0)
      else fail e
  | Ok topup =>
      if negb (bool_decide (tp_PaymentProvider topup = "")) && negb (bool_decide (tp_PaymentProvider topup = so_PaymentProvider order))
      then fail ErrPaymentMethodMismatch
      else if negb (bool_decide (tp_PaymentMethod topup = "")) && negb (bool_decide (tp_PaymentMethod topup = so_PaymentMethod order))
      then fail ErrPaymentMethodMismatch
      else SAVE topups tradeNo (topup <| tp_Money := so_Money order |> <| tp_PaymentProvider := so_PaymentProvider order |>
        <| tp_PaymentMethod := so_PaymentMethod order |>
        <| tp_CreateTime := if tp_CreateTime topup =? 0 then so_CreateTime order else tp_CreateTime topup |>
        <| tp_CompleteTime := now |> <| tp_Status := TopUpStatusSuccess |>)
  end.

Section orders.
Context {D : Type} `{DecimalArith D} (o : affiliate_options) (zone : Z) (plan_cache : gmap Z SubscriptionPlan).

(** The user whose group was raised and the group; [None] if nothing is left to
    be done. *)
Definition completeOrderTx (now : Z) (tradeNo providerPayload expectedPaymentProvider actualPaymentMethod : string) : M db (option (Z * string)) :=
  order ← or_else (FIRST subscription_orders tradeNo) ErrSubscriptionOrderNotFound;
  if negb (bool_decide (expectedPaymentProvider = "")) && negb (bool_decide (so_PaymentProvider order = expectedPaymentProvider))
  then fail ErrPaymentMethodMismatch
  else if bool_decide (so_Status order = TopUpStatusSuccess) then mret None
  else if negb (bool_decide (so_Status order = TopUpStatusPending)) then fail ErrSubscriptionOrderStatusInvalid
  else
    plan ← getSubscriptionPlanByIdTx plan_cache (so_PlanId order);
    _ ← FIRST users (so_UserId order);
    subscription ← CreateUserSubscriptionFromPlanTx zone now (so_UserId order) (so_PlanId order) plan "order";
    upsertSubscriptionTopUpTx now tradeNo order;;
    let order := order <| so_Status := TopUpStatusSuccess |> <| so_CompleteTime := now |> in
    let order := if bool_decide (providerPayload = "") then order else order <| so_ProviderPayload := providerPayload |> in
    let order := if bool_decide (actualPaymentMethod = "") then order else order <| so_PaymentMethod := actualPaymentMethod |> in
    SAVE subscription_orders tradeNo order;;
    (if negb (bool_decide (so_PaymentProvider order = PaymentProviderBalance)) && (0 <? so_AffiliateBaseQuota order)
     then ApplyAffiliateRewardTx (D := D) o now (MkSource AffiliateSourceSubscription (so_Id order) tradeNo (so_UserId order)
            (so_AffiliateBaseQuota order) (so_CreateTime order))
     else mret tt);;
    mret (Some (so_UserId order, if bool_decide (s_PrevUserGroup subscription = "") then "" else TrimSpace (s_UpgradeGroup subscription))).

Definition CompleteSubscriptionOrder (tradeNo providerPayload expectedPaymentProvider actualPaymentMethod : string) : M world unit :=
  if bool_decide (tradeNo = "") then fail (ErrNew "tradeNo is empty")
  else
    r ← transaction (λ now, completeOrderTx now tradeNo providerPayload expectedPaymentProvider actualPaymentMethod);
    match r with Some (userId, upgradeGroup) => refresh_group userId upgradeGroup | None => mret tt end.

Definition expireOrderTx (now : Z) (tradeNo expectedPaymentProvider : string) : M db unit :=
  order ← or_else (FIRST subscription_orders tradeNo) ErrSubscriptionOrderNotFound;
  if negb (bool_decide (expectedPaymentProvider = "")) && negb (bool_decide (so_PaymentProvider order = expectedPaymentProvider))
  then fail ErrPaymentMethodMismatch
  else if negb (bool_decide (so_Status order = TopUpStatusPending)) then mret tt
  else SAVE subscription_orders tradeNo (order <| so_Status := TopUpStatusExpired |> <| so_CompleteTime := now |>).
Definition ExpireSubscriptionOrder (tradeNo expectedPaymentProvider : string) : M world unit :=
  if bool_decide (tradeNo = "") then fail (ErrNew "tradeNo is empty") else transaction (λ now, expireOrderTx now tradeNo expectedPaymentProvider).

(** [SubscriptionOrder.Insert] *)
Definition InsertSubscriptionOrder (tradeNo : string) (order : SubscriptionOrder) : M world unit :=
  transaction (λ now,
    id ← gets (λ d, next_id so_Id (subscription_orders d));
    CREATE subscription_orders tradeNo (order <| so_Id := id |> <| so_CreateTime := if so_CreateTime order =? 0 then now else so_CreateTime order |>)).
Definition GetSubscriptionOrderByTradeNo (tradeNo : string) : M world (option SubscriptionOrder) :=
  if bool_decide (tradeNo = "") then mret None
  else r ← try (transaction (λ _, FIRST subscription_orders tradeNo)); mret (match r with Ok order => Some order | Err _ => None end).

Definition AdminBindSubscription (userId planId : Z) : M world string :=
  if (userId <=? 0) || (planId <=? 0) then fail (ErrNew "invalid userId or planId")
  else
    plan ← GetSubscriptionPlanById plan_cache planId;
    subscription ← transaction (λ now, _ ← FIRST users userId; CreateUserSubscriptionFromPlanTx zone now userId planId plan "admin");
    if bool_decide (s_PrevUserGroup subscription = "") then mret ""
    else log_error (RefreshUserGroupCache userId);; mret ("用户分组将升级到 " +:+ p_UpgradeGroup plan).

(** ** Paying with the wallet *)

Definition calcSubscriptionBalanceQuota (priceAmount : float64) : res Z :=
  if float_le priceAmount 0 then Ok 0
  else if float_le (QuotaPerUnit o) 0 then Err (ErrNew "额度单位配置错误")
  else match QuotaFromDecimalStrict (dec_Ceil (dec_Mul (dec_NewFromFloat priceAmount : D) (dec_NewFromFloat (QuotaPerUnit o)))) with
    | (quota, None) => Ok quota
    | (_, Some _) => Err (ErrNew "quota out of range")
    end.

(** The quota charged and the group the user was raised to. *)
Definition purchaseTx (now userId planId : Z) (tradeNo : string) : M db (Z * string) :=
  plan ← getSubscriptionPlanByIdTx plan_cache planId;
  if negb (p_Enabled plan) then fail (ErrNew "套餐未启用")
  else if SFltb (p_PriceAmount plan) (S754_zero false) then fail (ErrNew "套餐价格不能为负数")
  else if bool_decide (p_AllowBalancePay plan = Some false) then fail (ErrNew "该套餐不允许使用余额兑换")
  else
    requiredQuota ← lift_res (calcSubscriptionBalanceQuota (p_PriceAmount plan));
    user ← FIRST users userId;
    if (0 <? requiredQuota) && (u_Quota user <? requiredQuota) then fail (ErrNew "余额不足")
    else
      (if 0 <? requiredQuota then _ ← UPDATE users userId (λ _, true) (λ u, u <| u_Quota := u_Quota u - requiredQuota |>); mret tt else mret tt);;
      subscription ← CreateUserSubscriptionFromPlanTx zone now userId planId plan "balance";
      id ← gets (λ d, next_id so_Id (subscription_orders d));
      CREATE subscription_orders tradeNo (MkOrder id userId planId (p_PriceAmount plan) "balance" PaymentProviderBalance TopUpStatusSuccess
        now now 0 ("charged_quota=" +:+ pretty requiredQuota));;
      mret (requiredQuota, if bool_decide (s_PrevUserGroup subscription = "") then "" else TrimSpace (s_UpgradeGroup subscription)).

Definition PurchaseSubscriptionWithBalance (userId planId : Z) (tradeNo : string) : M world unit :=
  if (userId <=? 0) || (planId <=? 0) then fail (ErrNew "invalid userId or planId")
  else
    r ← transaction (λ now, purchaseTx now userId planId tradeNo);
    let '(chargedQuota, upgradeGroup) := r in
    (if 0 <? chargedQuota then log_error (cacheDecrUserQuota userId chargedQuota) else mret tt);;
    refresh_group userId upgradeGroup.
End orders.

(** ** The end of a subscription *)

Definition invalidateTx (now id : Z) : M db (Z * string) :=
  sub ← FIRST user_subscriptions id;
  let sub := sub <| s_Status := "cancelled" |> <| s_EndTime := now |> <| s_UpdatedAt := now |> in
  SAVE user_subscriptions id sub;;
  target ← downgradeUserGroupForSubscriptionTx id sub now;
  mret (s_UserId sub, target).

Definition reverts_to (target : string) : string := if bool_decide (target = "") then "" else "用户分组将回退到 " +:+ target.
Definition AdminInvalidateUserSubscription (id : Z) : M world string :=
  if id <=? 0 then fail (ErrNew "invalid userSubscriptionId")
  else r ← transaction (λ now, invalidateTx now id); refresh_group r.1 r.2;; mret (reverts_to r.2).

Definition deleteSubscriptionTx (now id : Z) : M db (Z * string) :=
  sub ← FIRST user_subscriptions id;
  target ← downgradeUserGroupForSubscriptionTx id sub now;
  modify (λ d, d <| user_subscriptions ::= delete id |>);;
  mret (s_UserId sub, target).
Definition AdminDeleteUserSubscription (id : Z) : M world string :=
  if id <=? 0 then fail (ErrNew "invalid userSubscriptionId")
  else r ← transaction (λ now, deleteSubscriptionTx now id); refresh_group r.1 r.2;; mret (reverts_to r.2).

(** [ORDER BY end_time desc, id desc] *)
Definition ends_after (a b : Z * UserSubscription) : Prop := ends_before b a.
#[global] Instance ends_after_dec : RelDecision ends_after.
Proof. intros a b. unfold ends_after. apply _. Defined.

Definition is_expiring (now : Z) (s : UserSubscription) : bool :=
  bool_decide (s_Status s = "active") && (0 <? s_EndTime s) && (s_EndTime s <=? now).
Definition last_expired (userId : Z) (d : db) : option (Z * UserSubscription) :=
  head (merge_sort ends_after (filter (λ e, (s_UserId e.2 =? userId) && bool_decide (s_Status e.2 = "expired") &&
    negb (bool_decide (s_DowngradeGroup e.2 = "") && bool_decide (s_UpgradeGroup e.2 = "")) = true) (map_to_list (user_subscriptions d)))).

(** The group a user falls to after the subscription that expired last. *)
Definition expired_target (lastExpired : UserSubscription) (currentGroup : string) : string :=
  let target := TrimSpace (s_DowngradeGroup lastExpired) in
  if bool_decide (target = "") then
    let upgradeGroup := TrimSpace (s_UpgradeGroup lastExpired) in
    let prevGroup := TrimSpace (s_PrevUserGroup lastExpired) in
    if bool_decide (upgradeGroup = "") || bool_decide (prevGroup = "") || negb (bool_decide (currentGroup = upgradeGroup)) then "" else prevGroup
  else target.

(** The rows expired and the group set, if any. *)
Definition expireUserTx (now timestamp userId : Z) : M db (Z * string) :=
  n ← gets (λ d, Z.of_nat (length (filter (λ e, (s_UserId e.2 =? userId) && is_expiring now e.2 = true) (map_to_list (user_subscriptions d)))));
  modify (λ d, d <| user_subscriptions ::= fmap (λ s, if (s_UserId s =? userId) && is_expiring now s
    then s <| s_Status := "expired" |> <| s_UpdatedAt := timestamp |> else s) |>);;
  other ← gets (has_upgrade now userId (λ _, false));
  if other : bool then mret (n, "")
  else
    last ← gets (last_expired userId);
    match last with
    | None => mret (n, "")
    | Some (_, lastExpired) =>
        currentGroup ← getUserGroupByIdTx userId;
        let target := expired_target lastExpired currentGroup in
        if bool_decide (target = "") || bool_decide (target = currentGroup) then mret (n, "")
        else set_group userId target;; mret (n, target)
    end.

(** The count that comes with an error leaves out the rows of the transaction
    that failed. *)
Fixpoint expire_users (now : Z) (userIds : list Z) (expiredCount : Z) : M world (Z * option error) :=
  match userIds with
  | [] => mret (expiredCount, None)
  | userId :: userIds =>
      r ← try (transaction (λ timestamp, expireUserTx now timestamp userId));
      match r with
      | Err e => mret (expiredCount, Some e)
      | Ok (n, cacheGroup) => refresh_group userId cacheGroup;; expire_users now userIds (expiredCount + n)
      end
  end.

(** The users in the order of their first row; the code follows a map. *)
Definition ExpireDueSubscriptions (limit : Z) : M world (Z * option error) :=
  let limit := if limit <=? 0 then 200 else limit in
  now ← GetTimestamp;
  found ← try (transaction (λ _, gets (λ d,
    take (Z.to_nat limit) (merge_sort ends_before (filter (λ e, is_expiring now e.2 = true) (map_to_list (user_subscriptions d)))))));
  match found with
  | Err e => mret (0, Some e)
  | Ok subs => expire_users now (filter (λ u, 0 < u) (distinct_users subs)) 0
  end.

(** ** What one transaction does *)

(** The tables with the group of a user set. *)
Definition with_group (userId : Z) (group : string) (d : db) : db :=
  match users d !! userId with Some u => d <| users := <[userId := u <| u_Group := group |>]> (users d) |> | None => d end.

Lemma set_group_eq userId group d : set_group userId group d = (Ok tt, with_group userId group d).
Proof. unfold set_group, UPDATE, with_group. unfold_m. by destruct (users d !! userId). Qed.

Lemma with_group_frame userId group d : let d' := with_group userId group d in
  user_subscriptions d' = user_subscriptions d ∧ subscription_orders d' = subscription_orders d ∧ subscription_plans d' = subscription_plans d ∧ topups d' = topups d.
Proof. unfold with_group. by destruct (users d !! userId). Qed.

Lemma next_id_fresh d : user_subscriptions d !! next_subscription_id d = None.
Proof.
  unfold next_subscription_id. destruct (user_subscriptions d !! _) as [s|] eqn:E; [|done]. exfalso. revert E. generalize (user_subscriptions d). intros m.
  cut (∀ k s', m !! k = Some s' → k <= map_fold (λ k _ acc, Z.max k acc) 0 m); [intros H H1; apply H in H1; lia|].
  induction m as [|i x m Hi Hm IH] using map_first_key_ind; intros k s' Hk; [done|]. rewrite map_fold_insert_first_key by done.
  apply lookup_insert_Some in Hk as [[<- _]|[_ Hk]]; [lia|]. specialize (IH k s' Hk). lia.
Qed.

(** The row a plan gives. *)
Definition plan_row (nowUnix endUnix nextReset userId planId : Z) (plan : SubscriptionPlan) (source prevGroup : string) : UserSubscription :=
  MkUserSubscription userId planId (p_TotalAmount plan) 0 nowUnix endUnix "active" (if 0 <? nextReset then nowUnix else 0) nextReset
    (default true (p_AllowWalletOverflow plan)) nowUnix source (TrimSpace (p_UpgradeGroup plan)) prevGroup (TrimSpace (p_DowngradeGroup plan)) nowUnix.

(** What a creation does to the user. *)
Definition upgraded (userId : Z) (upgradeGroup : string) (d : db) : string * db :=
  let current := match users d !! userId with Some u => u_Group u | None => "" end in
  if bool_decide (upgradeGroup = "") || bool_decide (current = upgradeGroup) then ("", d) else (current, with_group userId upgradeGroup d).

Lemma create_spec zone now userId planId plan source d sub d' :
  CreateUserSubscriptionFromPlanTx zone now userId planId plan source d = (Ok sub, d') →
  0 < userId ∧ (0 < p_MaxPurchasePerUser plan → purchases userId planId d < p_MaxPurchasePerUser plan) ∧
  ∃ endUnix, calcPlanEndTime zone now plan = Ok endUnix ∧
    let '(prev, d1) := upgraded userId (TrimSpace (p_UpgradeGroup plan)) d in
    sub = plan_row now endUnix (calcNextResetTime zone now plan endUnix) userId planId plan source prev ∧
    d' = d1 <| user_subscriptions := <[next_subscription_id d := sub]> (user_subscriptions d) |>.
Proof.
  unfold CreateUserSubscriptionFromPlanTx. destruct (planId =? 0); [done|]. destruct (userId <=? 0) eqn:Eu; [done|]. apply Z.leb_gt in Eu.
  unfold_m. destruct (_ && _) eqn:Emax; [done|]. destruct (calcPlanEndTime zone now plan) as [endUnix|e]; [|done]. cbv zeta.
  assert (upgrade_user userId (TrimSpace (p_UpgradeGroup plan)) d =
    let '(prev, d1) := upgraded userId (TrimSpace (p_UpgradeGroup plan)) d in (Ok prev, d1)) as ->.
  { unfold upgrade_user, upgraded, getUserGroupByIdTx. destruct (bool_decide (_ = "")) eqn:E1; [done|]. cbn [orb].
    rewrite (proj2 (Z.leb_gt userId 0)) by done. unfold_m. destruct (bool_decide (_ = TrimSpace _)); [done|]. by rewrite set_group_eq. }
  unfold upgraded. set (current := match users d !! userId with Some u => u_Group u | None => "" end).
  assert (0 < p_MaxPurchasePerUser plan → purchases userId planId d < p_MaxPurchasePerUser plan) as Hmax.
  { intros Hpos. rewrite (proj2 (Z.ltb_lt 0 _)) in Emax by done. by apply Z.leb_gt in Emax. }
  destruct (bool_decide (_ = "") || _); intros Hc; [|destruct (with_group_frame userId (TrimSpace (p_UpgradeGroup plan)) d) as (Es & _)];
    unfold CREATE, next_subscription_id in Hc; rewrite ?Es in Hc; fold (next_subscription_id d) in Hc; rewrite next_id_fresh in Hc;
    injection Hc as <- <-; split_and!; [done|done|by exists endUnix|done|done|by exists endUnix].
Qed.
