(* ===== verification/BillingRecovery.v ===== *)
(** * Durable billing recovery

    src/model/billing_recovery.go: the row that records what a request has
    reserved, its state machine, and the transactions that charge, extend,
    settle and refund it exactly once.

    The in-memory locks taken by [beginBillingRecoveryQuotaMutation] are the
    subject of QuotaLocks; the queue, the fences and the tables are those of
    QuotaBatch, QuotaReserve and Store. *)

From stdpp Require Import sorting.
From S2P Require Import GoStrings.
From S2P Require Import Prelude Store Calendar QuotaBatch QuotaReserve Subscription.
#[local] Open Scope Z_scope.

(** ** Creating and rebinding rows *)

Record BillingRecoveryInput := MkInput {
  in_RequestID : string; in_UserID : Z; in_TokenID : Z; in_Source : billing_source;
  in_FundingAmount : Z; in_TokenAmount : Z; in_TokenRequired : bool
}.

(** The row of [DB.Create] with the defaults of [BeforeCreate]. *)
Definition BeforeCreate (now : Z) (input : BillingRecoveryInput) : BillingRecovery :=
  MkBillingRecovery (in_UserID input) (in_TokenID input) 0 (in_Source input)
    (in_FundingAmount input) 0 (in_TokenAmount input) (in_TokenRequired input)
    0 PreConsumePrepared StatePending StatePending StatePending StatePending StatePending
    StatusActive 0 EmptyString now now.

Definition identity_conflict : error := ErrNew "billing recovery request identity conflict".

Definition billingRecoveryIsReusable (r : BillingRecovery) : bool :=
  bool_decide (br_Status r = StatusRefunded) && bool_decide (br_PreConsumeState r = PreConsumePrepared) &&
  (br_FundingAmount r =? 0) && (br_ExtraAmount r =? 0) && (br_TokenAmount r =? 0).

Definition same_identity (r : BillingRecovery) (input : BillingRecoveryInput) : bool :=
  (br_UserID r =? in_UserID input) && (br_TokenID r =? in_TokenID input) &&
  eqb (br_TokenRequired r) (in_TokenRequired input).

Definition reconcileBillingRecoveryInput (recovery : BillingRecovery) (input : BillingRecoveryInput) : M world BillingRecovery :=
  if negb (same_identity recovery input) then fail identity_conflict
  else if decide (br_Source recovery = in_Source input) then mret recovery
  else if negb (billingRecoveryIsReusable recovery) then fail identity_conflict
  else transaction (λ now,
    current ← FIRST billing_recoveries (in_RequestID input);
    if negb (same_identity current input) || negb (billingRecoveryIsReusable current) then fail identity_conflict
    else
      _ ← UPDATE billing_recoveries (in_RequestID input) (λ _, true)
            (λ r, r <| br_Source := in_Source input |> <| br_Status := StatusActive |>
                    <| br_LastError := EmptyString |> <| br_UpdatedAt := now |>);
      mret (current <| br_Source := in_Source input |> <| br_Status := StatusActive |>
                    <| br_LastError := EmptyString |>)).

Definition EnsureBillingRecovery (input : BillingRecoveryInput) : M world BillingRecovery :=
  if blank (in_RequestID input) || (in_UserID input <=? 0) || (in_TokenID input <? 0)
  then fail (ErrNew "invalid billing recovery input")
  else if negb (bool_decide (in_Source input = SourceWallet) || bool_decide (in_Source input = SourceSubscription))
  then fail (ErrNew "invalid billing recovery funding source")
  else if (in_FundingAmount input <? 0) || (in_TokenAmount input <? 0)
  then fail (ErrNew "billing recovery amounts cannot be negative")
  else if (in_TokenID input =? 0) && negb (in_TokenAmount input =? 0)
  then fail (ErrNew "billing recovery token amount requires a token")
  else
    found ← try (transaction (λ _, FIRST billing_recoveries (in_RequestID input)));
    match found with
    | Ok recovery => reconcileBillingRecoveryInput recovery input
    | Err err =>
        if negb (error_is err ErrRecordNotFound) then fail err
        else
          created ← try (transaction (λ now,
            CREATE billing_recoveries (in_RequestID input) (BeforeCreate now input);;
            mret (BeforeCreate now input)));
          match created with
          | Ok recovery => mret recovery
          | Err err =>
              again ← try (transaction (λ _, FIRST billing_recoveries (in_RequestID input)));
              match again with
              | Ok recovery => reconcileBillingRecoveryInput recovery input
              | Err _ => fail err
              end
          end
    end.

(** ** State transitions *)

Definition error_message (lastError : option error) : string :=
  match lastError with None => EmptyString | Some e => error_string e end.

Definition AbortPreparedBillingRecovery (requestID : string) (lastError : option error) : M world unit :=
  if blank requestID then fail (ErrNew "invalid billing recovery abort")
  else transaction (λ now,
    recovery ← FIRST billing_recoveries requestID;
    if decide (br_Status recovery = StatusRefunded) then mret tt
    else if negb (bool_decide (br_Status recovery = StatusActive)) ||
            negb (bool_decide (br_PreConsumeState recovery = PreConsumePrepared)) ||
            negb (br_FundingAmount recovery =? 0) || negb (br_ExtraAmount recovery =? 0) ||
            negb (br_TokenAmount recovery =? 0)
    then fail ErrBillingRecoveryStateConflict
    else
      _ ← UPDATE billing_recoveries requestID (λ _, true)
            (λ r, r <| br_Status := StatusRefunded |> <| br_LastError := error_message lastError |>
                    <| br_UpdatedAt := now |>);
      mret tt).

Definition UpdateBillingRecoveryAmounts (requestID : string)
    (subscriptionID fundingAmount extraAmount tokenAmount : Z) : M world unit :=
  if blank requestID then fail (ErrNew "invalid billing recovery update")
  else if (fundingAmount <? 0) || (extraAmount <? 0) || (tokenAmount <? 0)
  then fail (ErrNew "billing recovery amounts cannot be negative")
  else transaction (λ now,
    recovery ← FIRST billing_recoveries requestID;
    if negb (bool_decide (br_Status recovery = StatusActive)) then fail ErrBillingRecoveryStateConflict
    else
      n ← UPDATE billing_recoveries requestID (λ r, bool_decide (br_Status r = StatusActive))
            (λ r, r <| br_SubscriptionID := subscriptionID |> <| br_FundingAmount := fundingAmount |>
                    <| br_ExtraAmount := extraAmount |> <| br_TokenAmount := tokenAmount |>
                    <| br_PreConsumeState := PreConsumeCommitted |> <| br_UpdatedAt := now |>);
      if n =? 1 then mret tt else fail ErrBillingRecoveryStateConflict).

Definition settling (s : recovery_status) : bool :=
  bool_decide (s = StatusActive) || bool_decide (s = StatusSettlementPending).

Definition UpdateBillingRecoverySettlement (requestID : string) (delta : Z) : M world unit :=
  if blank requestID then fail (ErrNew "invalid billing recovery settlement")
  else
    n ← transaction (λ now, UPDATE billing_recoveries requestID (λ r, settling (br_Status r))
          (λ r, r <| br_SettlementDelta := delta |> <| br_Status := StatusSettlementPending |>
                  <| br_UpdatedAt := now |>));
    if n =? 1 then mret tt
    else
      recovery ← transaction (λ _, FIRST billing_recoveries requestID);
      if decide (br_Status recovery = StatusSettled) then mret tt
      else fail ErrBillingRecoveryStateConflict.

Definition TouchBillingRecovery (requestID : string) : M world unit :=
  if blank requestID then fail (ErrNew "invalid billing recovery heartbeat")
  else
    n ← transaction (λ now, UPDATE billing_recoveries requestID (λ r, settling (br_Status r))
          (λ r, r <| br_UpdatedAt := now |>));
    if n =? 1 then mret tt else fail ErrRecordNotFound.

(** A consumed record of a prepared subscription request proves that a
    refund is required. *)
Definition adopt_preconsume (recovery : BillingRecovery) (record : option SubscriptionPreConsumeRecord)
    (r : BillingRecovery) : BillingRecovery :=
  match record with
  | Some record =>
      if bool_decide (br_Source recovery = SourceSubscription) &&
         bool_decide (br_PreConsumeState recovery = PreConsumePrepared) &&
         bool_decide (pr_Status record = PcConsumed)
      then
        let r := r <| br_SubscriptionID := pr_UserSubscriptionId record |>
                   <| br_FundingAmount := pr_PreConsumed record |>
                   <| br_PreConsumeState := PreConsumeCommitted |> in
        if br_TokenRequired recovery then r <| br_TokenAmount := pr_PreConsumed record |> else r
      else r
  | None => r
  end.

Definition MarkBillingRecoveryRefundPending (requestID : string) (lastError : option error) : M world unit :=
  if blank requestID then fail (ErrNew "invalid billing recovery refund")
  else transaction (λ now,
    recovery ← FIRST billing_recoveries requestID;
    if decide (br_Status recovery = StatusRefunded) then mret tt
    else if negb (bool_decide (br_Status recovery = StatusActive)) &&
            negb (bool_decide (br_Status recovery = StatusRefundPending))
    then fail ErrBillingRecoveryStateConflict
    else
      record ← gets (λ d, pre_consume_records d !! requestID);
      _ ← UPDATE billing_recoveries requestID (λ _, true)
            (λ r, adopt_preconsume recovery record
                    (r <| br_Status := StatusRefundPending |> <| br_LastError := error_message lastError |>
                       <| br_Attempts ::= (λ n, n + 1) |> <| br_UpdatedAt := now |>));
      mret tt).

Definition BillingRecoverySettlementComplete (r : BillingRecovery) : bool :=
  bool_decide (br_FundingSettlement r = StateCompleted) && bool_decide (br_TokenSettlement r = StateCompleted).

Definition BillingRecoveryRefundComplete (r : BillingRecovery) : bool :=
  if negb (bool_decide (br_FundingRefund r = StateCompleted)) then false
  else if (0 <? br_ExtraAmount r) && negb (bool_decide (br_ExtraRefund r = StateCompleted)) then false
  else if (0 <? br_TokenAmount r) && negb (bool_decide (br_TokenRefund r = StateCompleted)) then false
  else true.

Definition MarkBillingRecoverySettled (requestID : string) : M world unit :=
  if blank requestID then fail (ErrNew "invalid billing recovery settlement completion")
  else transaction (λ now,
    recovery ← FIRST billing_recoveries requestID;
    if decide (br_Status recovery = StatusSettled) then mret tt
    else if negb (bool_decide (br_Status recovery = StatusSettlementPending)) ||
            negb (BillingRecoverySettlementComplete recovery)
    then fail ErrBillingRecoveryStateConflict
    else
      _ ← UPDATE billing_recoveries requestID (λ _, true)
            (λ r, r <| br_Status := StatusSettled |> <| br_LastError := EmptyString |> <| br_UpdatedAt := now |>);
      mret tt).

Definition MarkBillingRecoveryRefunded (requestID : string) (lastError : option error) : M world unit :=
  if blank requestID then fail (ErrNew "invalid billing recovery refund completion")
  else transaction (λ now,
    recovery ← FIRST billing_recoveries requestID;
    if decide (br_Status recovery = StatusRefunded) then mret tt
    else if negb (bool_decide (br_Status recovery = StatusRefundPending)) ||
            negb (BillingRecoveryRefundComplete recovery)
    then fail ErrBillingRecoveryStateConflict
    else
      _ ← UPDATE billing_recoveries requestID (λ _, true)
            (λ r, r <| br_Status := StatusRefunded |> <| br_LastError := error_message lastError |>
                    <| br_UpdatedAt := now |>);
      mret tt).

Definition updated_before (a b : string * BillingRecovery) : Prop := br_UpdatedAt a.2 <= br_UpdatedAt b.2.
#[global] Instance updated_before_dec : RelDecision updated_before.
Proof. intros a b. unfold updated_before. apply _. Defined.

Definition is_stale (cutoff : Z) (r : BillingRecovery) : bool :=
  (settling (br_Status r) || bool_decide (br_Status r = StatusRefundPending)) && (br_UpdatedAt r <? cutoff).

Definition ListStaleBillingRecoveries (cutoff limit : Z) : M world (list (string * BillingRecovery)) :=
  let limit := if (limit <=? 0) || (100 <? limit) then 100 else limit in
  transaction (λ _ d,
    (Ok (take (Z.to_nat limit) (merge_sort updated_before
       (filter (λ e, is_stale cutoff e.2 = true) (map_to_list (billing_recoveries d))))), d)).

(** ** Mutations: fences, drained queue deltas *)

Record billingRecoveryQuotaMutation := MkMutation {
  mu_userID : Z; mu_tokenID : Z; mu_userPendingDelta : Z; mu_tokenPendingDelta : Z
}.

Definition fence_resources (userID tokenID : Z) : M world unit :=
  redis ← RedisEnabled;
  (if redis && (0 <? userID) then invalidateUserQuotaCacheForMutation userID else mret tt);;
  (if redis && (0 <? tokenID) then
     token ← transaction (λ _, FIRST tokens tokenID);
     invalidateTokenCacheForMutation (t_Key token)
   else mret tt).

Definition beginBillingRecoveryQuotaMutation (requestID : string) (fenceUser fenceToken : bool) :
    M world billingRecoveryQuotaMutation :=
  if blank requestID then fail (ErrNew "billing recovery database is unavailable")
  else
    recovery ← transaction (λ _, FIRST billing_recoveries requestID);
    let userID := if fenceUser && bool_decide (br_Source recovery = SourceWallet) then br_UserID recovery else 0 in
    let tokenID := if fenceToken && br_TokenRequired recovery && (0 <? br_TokenID recovery)
                   then br_TokenID recovery else 0 in
    fence_resources userID tokenID;;
    userPendingDelta ← takePendingQuotaDelta BatchUpdateTypeUserQuota userID;
    tokenPendingDelta ← takePendingQuotaDelta BatchUpdateTypeTokenQuota tokenID;
    mret (MkMutation userID tokenID userPendingDelta tokenPendingDelta).

(** An update that must match exactly one row. *)
Definition update_one (m : M db Z) (e : error) : M db unit :=
  n ← m; if n =? 1 then mret tt else fail e.

Definition applyPendingDeltas (now : Z) (m : billingRecoveryQuotaMutation) : M db unit :=
  (if negb (mu_userPendingDelta m =? 0) then
     update_one (UPDATE users (mu_userID m) (λ _, true) (λ u, u <| u_Quota ::= (λ q, q + mu_userPendingDelta m) |>))
       ErrRecordNotFound
   else mret tt);;
  (if negb (mu_tokenPendingDelta m =? 0) then
     update_one (UPDATE tokens (mu_tokenID m) (λ _, true) (token_add now (mu_tokenPendingDelta m)))
       ErrRecordNotFound
   else mret tt).

Definition release (m : billingRecoveryQuotaMutation) (committed : bool) : M world unit :=
  if committed then mret tt
  else
    (if negb (mu_userPendingDelta m =? 0) then addNewRecord BatchUpdateTypeUserQuota (mu_userID m) (mu_userPendingDelta m)
     else mret tt);;
    (if negb (mu_tokenPendingDelta m =? 0) then addNewRecord BatchUpdateTypeTokenQuota (mu_tokenID m) (mu_tokenPendingDelta m)
     else mret tt).

(** The durable transaction of a mutation, and its release. *)
Definition with_mutation {A} (m : billingRecoveryQuotaMutation) (body : Z → M db A) : M world A :=
  r ← try (transaction (λ now, applyPendingDeltas now m;; body now));
  release m (is_ok r);;
  lift_res r.

(** ** Charging *)

(** Take [amount] from a token; [remain_quota >= amount] unless unlimited. *)
Definition charge_token (now tokenID amount : Z) (tokenUnlimited : bool) : M db unit :=
  update_one (UPDATE tokens tokenID (λ t, tokenUnlimited || (amount <=? t_RemainQuota t)) (token_add now (- amount)))
    ErrBillingRecoveryTokenQuota.

Definition preConsumeWalletTx (requestID : string) (quota : Z) (tokenUnlimited : bool) (now : Z) : M db unit :=
  recovery ← FIRST billing_recoveries requestID;
  if negb (bool_decide (br_Source recovery = SourceWallet)) || negb (bool_decide (br_Status recovery = StatusActive))
  then fail ErrBillingRecoveryStateConflict
  else if decide (br_PreConsumeState recovery = PreConsumeCommitted) then
    if (br_FundingAmount recovery =? quota) && (negb (br_TokenRequired recovery) || (br_TokenAmount recovery =? quota))
    then mret tt else fail ErrBillingRecoveryStateConflict
  else
    (if br_TokenRequired recovery && (0 <? br_TokenID recovery) && (0 <? quota)
     then charge_token now (br_TokenID recovery) quota tokenUnlimited else mret tt);;
    (if 0 <? quota then
       update_one (UPDATE users (br_UserID recovery) (λ u, quota <=? u_Quota u)
                     (λ u, u <| u_Quota ::= (λ q, q - quota) |>)) ErrBillingRecoveryFundingQuota
     else mret tt);;
    _ ← UPDATE billing_recoveries requestID (λ _, true)
          (λ r, r <| br_FundingAmount := quota |>
                  <| br_TokenAmount := if br_TokenRequired recovery then quota else 0 |>
                  <| br_PreConsumeState := PreConsumeCommitted |> <| br_UpdatedAt := now |>);
    mret tt.

Definition PreConsumeWalletBillingRecovery (requestID : string) (quota : Z) (tokenUnlimited : bool) : M world unit :=
  if blank requestID || (quota <? 0) then fail (ErrNew "invalid billing recovery wallet pre-consume")
  else if 0 <? quota then
    mutation ← beginBillingRecoveryQuotaMutation requestID true true;
    with_mutation mutation (preConsumeWalletTx requestID quota tokenUnlimited)
  else transaction (preConsumeWalletTx requestID quota tokenUnlimited).

(** [First(&marker)]: [None] when there is no row. *)
Definition find_marker (k : adjustment_key) : M db (option BillingRecoveryAdjustment) :=
  gets (λ d, adjustments d !! k).

Definition reserveTx (requestID : string) (targetQuota : Z) (tokenUnlimited : bool) (now : Z) : M db Z :=
  let key := (requestID, ComponentReserve targetQuota, OperationReserve) in
  recovery ← FIRST billing_recoveries requestID;
  if negb (bool_decide (br_Status recovery = StatusActive)) ||
     negb (bool_decide (br_PreConsumeState recovery = PreConsumeCommitted))
  then fail ErrBillingRecoveryStateConflict
  else
    let subscription := bool_decide (br_Source recovery = SourceSubscription) in
    let reserved := if subscription then i64 (br_FundingAmount recovery + br_ExtraAmount recovery)
                    else br_FundingAmount recovery in
    let delta := i64 (targetQuota - reserved) in
    if delta <=? 0 then mret 0
    else
      marker ← find_marker key;
      match marker with
      | Some marker => if adj_Amount marker =? delta then mret 0 else fail ErrBillingRecoveryStateConflict
      | None =>
          (if subscription then applySubscriptionDeltaTx now (br_SubscriptionID recovery) delta
           else update_one (UPDATE users (br_UserID recovery) (λ _, true)
                              (λ u, u <| u_Quota ::= (λ q, q - delta) |>)) ErrRecordNotFound);;
          let tokenCharged := br_TokenRequired recovery && (0 <? br_TokenID recovery) in
          (if tokenCharged then charge_token now (br_TokenID recovery) delta tokenUnlimited else mret tt);;
          _ ← UPDATE billing_recoveries requestID (λ _, true)
                (λ r, let r := r <| br_UpdatedAt := now |> in
                      let r := if subscription then r <| br_ExtraAmount ::= (λ x, x + delta) |>
                               else r <| br_FundingAmount ::= (λ x, x + delta) |> in
                      if tokenCharged then r <| br_TokenAmount ::= (λ x, x + delta) |> else r);
          CREATE adjustments key (MkAdjustment delta now);;
          mret delta
      end.

Definition ReserveBillingRecovery (requestID : string) (targetQuota delta : Z) (tokenUnlimited : bool) : M world Z :=
  if blank requestID || (targetQuota <=? 0) || (delta <=? 0) then fail (ErrNew "invalid billing recovery reservation")
  else
    mutation ← beginBillingRecoveryQuotaMutation requestID true true;
    with_mutation mutation (reserveTx requestID targetQuota tokenUnlimited).

(** ** Settling and refunding *)

Definition refundBillingRecoverySubscriptionPreConsumeTx (now : Z) (requestID : string) : M db unit :=
  record ← FIRST pre_consume_records requestID;
  if decide (pr_Status record = PcRefunded) then mret tt
  else
    (if 0 <? pr_PreConsumed record
     then postConsumeUserSubscriptionDeltaTx now (pr_UserSubscriptionId record) (i64 (- pr_PreConsumed record))
     else mret tt);;
    save_record now requestID (record <| pr_Status := PcRefunded |>).

Definition applyBillingRecoveryEffect (now : Z) (requestID : string) (recovery : BillingRecovery)
    (component : recovery_component) (operation : recovery_operation) (amount : Z) : M db unit :=
  if bool_decide (component = ComponentToken) && (br_TokenID recovery <=? 0) then mret tt
  else if amount =? 0 then mret tt
  else
    let sign := if decide (operation = OperationSettle) then -1 else 1 in
    match component with
    | ComponentFunding =>
        if decide (br_Source recovery = SourceSubscription) then
          if decide (operation = OperationRefund) then
            err ← try (refundBillingRecoverySubscriptionPreConsumeTx now requestID);
            match err with
            | Err e => if error_is e ErrRecordNotFound then mret tt else fail e
            | Ok _ => mret tt
            end
          else applySubscriptionDeltaTx now (br_SubscriptionID recovery) amount
        else
          update_one (UPDATE users (br_UserID recovery) (λ _, true)
                        (λ u, u <| u_Quota ::= (λ q, q + i64 (amount * sign)) |>)) ErrRecordNotFound
    | ComponentExtra => applySubscriptionDeltaTx now (br_SubscriptionID recovery) (i64 (- amount))
    | ComponentToken =>
        update_one (UPDATE tokens (br_TokenID recovery) (λ _, true) (token_add now (i64 (amount * sign))))
          ErrRecordNotFound
    | ComponentReserve _ => mret tt
    end.

Definition complete_component (component : recovery_component) (operation : recovery_operation) (now : Z)
    (r : BillingRecovery) : option BillingRecovery :=
  match operation, component with
  | OperationRefund, ComponentFunding => Some (r <| br_FundingRefund := StateCompleted |> <| br_UpdatedAt := now |>)
  | OperationRefund, ComponentExtra => Some (r <| br_ExtraRefund := StateCompleted |> <| br_UpdatedAt := now |>)
  | OperationRefund, ComponentToken => Some (r <| br_TokenRefund := StateCompleted |> <| br_UpdatedAt := now |>)
  | OperationRefund, ComponentReserve _ => None
  | _, ComponentFunding => Some (r <| br_FundingSettlement := StateCompleted |> <| br_UpdatedAt := now |>)
  | _, ComponentToken => Some (r <| br_TokenSettlement := StateCompleted |> <| br_UpdatedAt := now |>)
  | _, _ => None
  end.

Definition updateBillingRecoveryComponentState (now : Z) (requestID : string)
    (component : recovery_component) (operation : recovery_operation) : M db unit :=
  _ ← UPDATE billing_recoveries requestID (λ r, bool_decide (is_Some (complete_component component operation now r)))
        (λ r, default r (complete_component component operation now r));
  mret tt.

Definition component_amount (r : BillingRecovery) (component : recovery_component) (operation : recovery_operation) : Z :=
  match component, operation with
  | ComponentFunding, OperationSettle | ComponentToken, OperationSettle => br_SettlementDelta r
  | ComponentFunding, _ => br_FundingAmount r
  | ComponentExtra, _ => br_ExtraAmount r
  | ComponentToken, _ => br_TokenAmount r
  | ComponentReserve _, _ => 0
  end.

Definition adjustmentTx (requestID : string) (component : recovery_component) (operation : recovery_operation)
    (now : Z) : M db unit :=
  recovery ← FIRST billing_recoveries requestID;
  if bool_decide (operation = OperationRefund) && bool_decide (br_Status recovery = StatusSettled) then mret tt
  else
    marker ← find_marker (requestID, component, operation);
    match marker with
    | Some _ => mret tt
    | None =>
        let apply :=
          let amount := component_amount recovery component operation in
          applyBillingRecoveryEffect now requestID recovery component operation amount;;
          CREATE adjustments (requestID, component, operation) (MkAdjustment amount now);;
          updateBillingRecoveryComponentState now requestID component operation in
        match operation with
        | OperationSettle =>
            if negb (bool_decide (component = ComponentFunding)) && negb (bool_decide (component = ComponentToken))
            then fail (ErrNew "invalid billing recovery settlement component")
            else if negb (bool_decide (br_Status recovery = StatusSettlementPending))
            then fail ErrBillingRecoveryStateConflict
            else apply
        | OperationRefund =>
            if bool_decide (br_Status recovery = StatusSettled) || bool_decide (br_Status recovery = StatusRefunded)
            then mret tt
            else if negb (bool_decide (br_Status recovery = StatusActive)) &&
                    negb (bool_decide (br_Status recovery = StatusRefundPending))
            then fail ErrBillingRecoveryStateConflict
            else apply
        | OperationReserve => apply
        end
    end.

Definition ApplyBillingRecoveryAdjustment (requestID : string) (component : recovery_component)
    (operation : recovery_operation) : M world unit :=
  if blank requestID then fail (ErrNew "billing recovery database is unavailable")
  else if negb (bool_decide (component = ComponentFunding) || bool_decide (component = ComponentExtra) ||
                bool_decide (component = ComponentToken))
  then fail (ErrNew "invalid billing recovery component")
  else if negb (bool_decide (operation = OperationSettle) || bool_decide (operation = OperationRefund))
  then fail (ErrNew "invalid billing recovery operation")
  else
    mutation ← beginBillingRecoveryQuotaMutation requestID
                 (bool_decide (component = ComponentFunding)) (bool_decide (component = ComponentToken));
    with_mutation mutation (adjustmentTx requestID component operation).

(** ** Which requests a pass looks at *)

#[local] Instance updated_before_total : Total updated_before.
Proof. intros a b. unfold updated_before. lia. Qed.
#[local] Instance updated_before_trans : Transitive updated_before.
Proof. intros a b c. unfold updated_before. lia. Qed.

(** A pass of the worker takes the stale requests, oldest first.
    [ListStaleBillingRecoveries] returns at most the limit (100 when it is out
    of range) of open rows that were not touched since the cutoff; a stale row
    that is left for the next pass is not older than any row returned, and
    none is left when fewer than the limit are returned. *)
Theorem ListStale_oldest_first (cutoff limit : Z) (w w' : world) (rows : list (string * BillingRecovery))
    (Hrun : ListStaleBillingRecoveries cutoff limit w = (Ok rows, w')) :
  let n := if (limit <=? 0) || (100 <? limit) then 100 else limit in
  Z.of_nat (length rows) <= n <= 100 ∧
  (∀ rid r, (rid, r) ∈ rows → billing_recoveries (w_db w) !! rid = Some r ∧ is_stale cutoff r = true) ∧
  (∀ rid r, billing_recoveries (w_db w) !! rid = Some r → is_stale cutoff r = true → (rid, r) ∉ rows →
     Z.of_nat (length rows) = n ∧ ∀ rid' r', (rid', r') ∈ rows → br_UpdatedAt r' <= br_UpdatedAt r).
Proof.
  unfold ListStaleBillingRecoveries in Hrun. cbv zeta. set (n := if (limit <=? 0) || (100 <? limit) then 100 else limit) in *.
  assert (0 <= n <= 100) as Hn by (subst n; destruct (Z.leb_spec limit 0), (Z.ltb_spec 100 limit); cbn; lia).
  apply transaction_inv in Hrun as [_ Hrun]. injection Hrun as <- _.
  match goal with |- context [merge_sort updated_before ?l] => set (stale := l) end. set (sorted := merge_sort updated_before stale).
  assert (∀ e, e ∈ sorted ↔ billing_recoveries (w_db w) !! e.1 = Some e.2 ∧ is_stale cutoff e.2 = true) as Hin.
  { intros [k r]. subst sorted stale. rewrite merge_sort_Permutation, list_elem_of_filter, elem_of_map_to_list. cbn. tauto. }
  pose proof (StronglySorted_merge_sort updated_before stale) as Hsorted. fold sorted in Hsorted.
  rewrite <- (take_drop (Z.to_nat n) sorted) in Hsorted. split_and!.
  - rewrite length_take. lia.
  - lia.
  - intros rid r Hr. apply (Hin (rid, r)). rewrite <- (take_drop (Z.to_nat n) sorted). apply elem_of_app. by left.
  - intros rid r Hr Hst Hnot.
    assert ((rid, r) ∈ drop (Z.to_nat n) sorted) as Hd.
    { assert ((rid, r) ∈ sorted) as Hs by (by apply Hin). rewrite <- (take_drop (Z.to_nat n) sorted), elem_of_app in Hs. tauto. }
    split.
    + rewrite length_take. assert (drop (Z.to_nat n) sorted ≠ []) as Hne by (intros E; rewrite E in Hd; set_solver).
      destruct (decide (length sorted <= Z.to_nat n)%nat); [|lia]. by rewrite drop_ge in Hne.
    + intros rid' r' Hr'. exact (strongly_sorted_app _ _ _ _ _ Hsorted Hr' Hd).
Qed.

Definition sample_input : BillingRecoveryInput := MkInput "r" 7 0 SourceWallet 0 0 false.
Definition three_rows : world :=
  let row t := BeforeCreate t sample_input in
  world_of (db_of_two <| billing_recoveries := ({["a" := row 30; "b" := row 10; "c" := row 20]}) |>).

Lemma ListStale_oldest_first_witness :
  let rows := match result (ListStaleBillingRecoveries 25 1) three_rows with Ok rows => rows | Err _ => [] end in
  (fst <$> rows) = ["b"] ∧ (("c", BeforeCreate 20 sample_input) ∉ rows) ∧ Z.of_nat (length rows) = 1.
Proof.
  intros rows. assert ((fst <$> rows) = ["b"]) as Hb by (by vm_compute).
  assert (is_ok (result (ListStaleBillingRecoveries 25 1) three_rows) = true) as Hok by (by vm_compute).
  assert (ListStaleBillingRecoveries 25 1 three_rows = (Ok rows, exec (ListStaleBillingRecoveries 25 1) three_rows)) as Hrun.
  { subst rows. revert Hok. unfold result, exec. by destruct (ListStaleBillingRecoveries 25 1 three_rows) as [[l|e] w']. }
  clearbody rows. assert (("c", BeforeCreate 20 sample_input) ∉ rows) as Hc.
  { intros H. apply (list_elem_of_fmap_2 fst) in H. rewrite Hb in H. apply list_elem_of_singleton in H. done. }
  split_and!; [done|done|].
  exact (proj1 (proj2 (proj2 (ListStale_oldest_first 25 1 three_rows _ rows Hrun)) "c" (BeforeCreate 20 sample_input)
    eq_refl eq_refl Hc)).
Defined.

