(* ===== verification/BillingLedger.v ===== *)
(** * The ledger of billing recoveries

    Money is neither created nor lost: a wallet balance plus what requests
    hold of it is constant over every operation of BillingRecovery, whatever
    fails and in whatever order the operations of different requests and of
    the recovery worker interleave. *)

From S2P Require Import GoStrings.
From S2P Require Import Prelude Store Calendar QuotaBatch QuotaReserve Subscription BillingRecovery.
#[local] Open Scope Z_scope.

(** ** What a request holds *)

Definition marker_amount (d : db) (rid : string) (c : recovery_component) (o : recovery_operation) : Z :=
  match adjustments d !! (rid, c, o) with Some a => adj_Amount a | None => 0 end.

Definition held_funding (d : db) (rid : string) (r : BillingRecovery) : Z :=
  br_FundingAmount r - marker_amount d rid ComponentFunding OperationRefund
                     + marker_amount d rid ComponentFunding OperationSettle.
Definition held_token (d : db) (rid : string) (r : BillingRecovery) : Z :=
  br_TokenAmount r - marker_amount d rid ComponentToken OperationRefund
                   + marker_amount d rid ComponentToken OperationSettle.

(** Held of the wallet of [u] (requests not funded by a subscription), and
    of the token [t]. *)
Definition wallet_share (d : db) (u : Z) (rid : string) (r : BillingRecovery) : Z :=
  if decide (br_Source r ≠ SourceSubscription ∧ br_UserID r = u) then held_funding d rid r else 0.
Definition token_share (d : db) (t : Z) (rid : string) (r : BillingRecovery) : Z :=
  if decide (br_TokenID r = t) then held_token d rid r else 0.

Definition wallet_held (d : db) (u : Z) : Z := map_sum (wallet_share d u) (billing_recoveries d).
Definition token_held (d : db) (t : Z) : Z := map_sum (token_share d t) (billing_recoveries d).

Definition db_quota (d : db) (u : Z) : Z := match users d !! u with Some r => u_Quota r | None => 0 end.
Definition db_remain (d : db) (t : Z) : Z := match tokens d !! t with Some r => t_RemainQuota r | None => 0 end.

Definition wallet_total (d : db) (u : Z) : Z := db_quota d u + wallet_held d u.
Definition token_total (d : db) (t : Z) : Z := db_remain d t + token_held d t.

(** ** The invariant of the tables *)

Definition row_ok (d : db) (rid : string) (r : BillingRecovery) : Prop :=
  (br_PreConsumeState r = PreConsumePrepared →
     br_FundingAmount r = 0 ∧ br_ExtraAmount r = 0 ∧ br_TokenAmount r = 0 ∧
     ∀ c, marker_amount d rid c OperationRefund = 0) ∧
  (∀ c, is_Some (adjustments d !! (rid, c, OperationSettle)) →
     br_Status r = StatusSettlementPending ∨ br_Status r = StatusSettled).

Definition ledger_ok (d : db) : Prop :=
  (∀ rid r, billing_recoveries d !! rid = Some r → row_ok d rid r) ∧
  (∀ rid c o, is_Some (adjustments d !! (rid, c, o)) → is_Some (billing_recoveries d !! rid)).

(** What a transaction does to the totals. *)
Definition moves (d d' : db) (fw ft : Z → Z) : Prop :=
  (∀ u, wallet_total d' u = wallet_total d u + fw u) ∧
  (∀ t, 0 < t → token_total d' t = token_total d t + ft t).
Definition conserved (d d' : db) : Prop := moves d d' (λ _, 0) (λ _, 0).

(** ** Changing one row *)

Section change_row.
Context (d d' : db) (rid : string) (r r' : BillingRecovery).
Context (Hr : billing_recoveries d !! rid = Some r).
Context (Hrows : billing_recoveries d' = <[rid := r']> (billing_recoveries d)).
Context (Hothers : ∀ rid' c o, rid' ≠ rid → adjustments d' !! (rid', c, o) = adjustments d !! (rid', c, o)).

Lemma change_marker_amount rid' c o : rid' ≠ rid → marker_amount d' rid' c o = marker_amount d rid' c o.
Proof. intros Hne. unfold marker_amount. by rewrite Hothers. Qed.

Lemma change_wallet_held u : wallet_held d' u = wallet_held d u - wallet_share d u rid r + wallet_share d' u rid r'.
Proof.
  unfold wallet_held. rewrite Hrows. apply map_sum_update; [done|].
  intros k b Hne. unfold wallet_share, held_funding. by rewrite !change_marker_amount.
Qed.
Lemma change_token_held t : token_held d' t = token_held d t - token_share d t rid r + token_share d' t rid r'.
Proof.
  unfold token_held. rewrite Hrows. apply map_sum_update; [done|].
  intros k b Hne. unfold token_share, held_token. by rewrite !change_marker_amount.
Qed.

Lemma change_ledger_ok :
  ledger_ok d → row_ok d' rid r' → ledger_ok d'.
Proof.
  intros [Hok Hdom] Hr'. split.
  - intros k b. rewrite Hrows. destruct (decide (k = rid)) as [->|Hne].
    + rewrite lookup_insert_eq. by intros [= <-].
    + rewrite lookup_insert_ne by done. intros Hb. destruct (Hok _ _ Hb) as [H1 H2]. split.
      * intros Hp. destruct (H1 Hp) as (? & ? & ? & Hm). split_and!; [done..|].
        intros c. by rewrite change_marker_amount.
      * intros c. rewrite Hothers by done. apply H2.
  - intros k c o. rewrite Hrows. destruct (decide (k = rid)) as [->|Hne]; [by rewrite lookup_insert_eq|].
    rewrite Hothers, lookup_insert_ne by done. apply Hdom.
Qed.

Lemma change_moves :
  moves d d' (λ u, db_quota d' u - db_quota d u + wallet_share d' u rid r' - wallet_share d u rid r)
             (λ t, db_remain d' t - db_remain d t + token_share d' t rid r' - token_share d t rid r).
Proof.
  split; intros; unfold wallet_total, token_total; rewrite ?change_wallet_held, ?change_token_held; lia.
Qed.
End change_row.

(** ** Inverting statements *)

Lemma update_one_inv {K R} `{Countable K} (tbl : db → gmap K R) `{!Upd tbl} k cond set e d d' :
  update_one (UPDATE tbl k cond set) e d = (Ok tt, d') →
  ∃ r, tbl d !! k = Some r ∧ cond r = true ∧ d' = d <| tbl := <[k := set r]> (tbl d) |>.
Proof.
  unfold update_one. intros (n & d1 & H1 & H2)%bind_inv.
  apply UPDATE_inv in H1 as [(r & ? & ? & -> & ->)|[-> ->]]; [|done]. injection H2 as <-. eauto.
Qed.

(** Rewriting the row [rid], which is known to exist. *)
Lemma UPDATE_row rid r f d n d' :
  billing_recoveries d !! rid = Some r → UPDATE billing_recoveries rid (λ _, true) f d = (Ok n, d') →
  d' = d <| billing_recoveries := <[rid := f r]> (billing_recoveries d) |>.
Proof. unfold UPDATE. intros ->. by intros [= _ <-]. Qed.

(** ** Statements that touch money *)

Definition same_books (d d' : db) : Prop :=
  billing_recoveries d' = billing_recoveries d ∧ adjustments d' = adjustments d.

Lemma db_quota_insert d u f r :
  users d !! u = Some r →
  ∀ u', db_quota (d <| users := <[u := f r]> (users d) |>) u' =
    db_quota d u' + (if decide (u = u') then u_Quota (f r) - u_Quota r else 0).
Proof.
  intros Hr u'. unfold db_quota. cbn. rewrite lookup_insert. case_decide; [subst; rewrite Hr; lia|lia].
Qed.
Lemma db_remain_insert d t f r :
  tokens d !! t = Some r →
  ∀ t', db_remain (d <| tokens := <[t := f r]> (tokens d) |>) t' =
    db_remain d t' + (if decide (t = t') then t_RemainQuota (f r) - t_RemainQuota r else 0).
Proof.
  intros Hr t'. unfold db_remain. cbn. rewrite lookup_insert. case_decide; [subst; rewrite Hr; lia|lia].
Qed.

(** A charge: books, users other than [u] and tokens other than [t] are
    kept; [qu] leaves the wallet of [u] and [qt] the token [t]. *)
Record charged (d d' : db) (u qu t qt : Z) : Prop := {
  ch_books : same_books d d';
  ch_quota : ∀ u', db_quota d' u' = db_quota d u' - (if decide (u = u') then qu else 0);
  ch_remain : ∀ t', db_remain d' t' = db_remain d t' - (if decide (t = t') then qt else 0)
}.

Lemma charged_refl d u t : charged d d u 0 t 0.
Proof. split; [done|..]; intros; case_decide; lia. Qed.
Lemma charged_trans d1 d2 d3 u q1 q2 t r1 r2 :
  charged d1 d2 u q1 t r1 → charged d2 d3 u q2 t r2 → charged d1 d3 u (q1 + q2) t (r1 + r2).
Proof.
  intros [[H1 H2] H3 H4] [[H5 H6] H7 H8]. split; [split; congruence|..]; intros; rewrite ?H7, ?H3, ?H8, ?H4; case_decide; lia.
Qed.

Lemma charge_user u cond q e d d' t :
  update_one (UPDATE users u cond (λ x, x <| u_Quota ::= (λ y, y - q) |>)) e d = (Ok tt, d') → charged d d' u q t 0.
Proof.
  intros (r & Hr & _ & ->)%update_one_inv. split; [done|..].
  - intros u'. rewrite (db_quota_insert d u (λ x, x <| u_Quota ::= (λ y, y - q) |>) r Hr).
    cbn. case_decide; lia.
  - intros t'. unfold db_remain. cbn. case_decide; lia.
Qed.
Lemma credit_user u q e d d' t :
  update_one (UPDATE users u (λ _, true) (λ x, x <| u_Quota ::= (λ y, y + q) |>)) e d = (Ok tt, d') → charged d d' u (- q) t 0.
Proof.
  intros (r & Hr & _ & ->)%update_one_inv. split; [done|..].
  - intros u'. rewrite (db_quota_insert d u (λ x, x <| u_Quota ::= (λ y, y + q) |>) r Hr).
    cbn. case_decide; lia.
  - intros t'. unfold db_remain. cbn. case_decide; lia.
Qed.
Lemma credit_token t cond now q e d d' u :
  update_one (UPDATE tokens t cond (token_add now q)) e d = (Ok tt, d') → charged d d' u 0 t (- q).
Proof.
  intros (r & Hr & _ & ->)%update_one_inv. split; [done|..].
  - intros u'. unfold db_quota. cbn. case_decide; lia.
  - intros t'. rewrite (db_remain_insert d t (token_add now q) r Hr). cbn. case_decide; lia.
Qed.
Lemma charge_token_charged now t q unl d d' u :
  charge_token now t q unl d = (Ok tt, d') → charged d d' u 0 t q.
Proof. intros H. apply (credit_token _ _ _ _ _ _ _ u) in H. by rewrite Z.opp_involutive in H. Qed.

(** A charge recorded on the row of its request is conserved. *)
Lemma charged_conserved d d1 d2 rid r r' u qu t qt :
  billing_recoveries d !! rid = Some r → charged d d1 u qu t qt →
  users d2 = users d1 → tokens d2 = tokens d1 →
  billing_recoveries d2 = <[rid := r']> (billing_recoveries d) →
  (∀ rid' c o, rid' ≠ rid → adjustments d2 !! (rid', c, o) = adjustments d !! (rid', c, o)) →
  (∀ u', wallet_share d2 u' rid r' = wallet_share d u' rid r + (if decide (u = u') then qu else 0)) →
  (∀ t', 0 < t' → token_share d2 t' rid r' = token_share d t' rid r + (if decide (t = t') then qt else 0)) →
  conserved d d2.
Proof.
  intros Hr [_ Hq Ht] Eu Et Hrows Hadj Hw Hk.
  destruct (change_moves d d2 rid r r' Hr Hrows Hadj) as [M1 M2].
  assert (∀ u', db_quota d2 u' = db_quota d1 u') as Eq by (intros; unfold db_quota; by rewrite Eu).
  assert (∀ t', db_remain d2 t' = db_remain d1 t') as Er by (intros; unfold db_remain; by rewrite Et).
  split; [intros u'|intros t' Ht']; rewrite ?M1, ?M2 by done; rewrite ?Eq, ?Er, ?Hq, ?Ht, ?Hw, ?Hk by done;
    case_decide; lia.
Qed.

(** A program that keeps the invariant and the totals when it commits. *)
Definition Ledgered {A} (m : M db A) : Prop :=
  ∀ d a d', ledger_ok d → m d = (Ok a, d') → ledger_ok d' ∧ conserved d d'.

Lemma conserved_refl d : conserved d d.
Proof. split; intros; lia. Qed.

(** Rewriting a row without touching its amounts, owner and source. *)
Definition same_money (r r' : BillingRecovery) : Prop :=
  br_Source r' = br_Source r ∧ br_UserID r' = br_UserID r ∧ br_TokenID r' = br_TokenID r ∧
  br_FundingAmount r' = br_FundingAmount r ∧ br_TokenAmount r' = br_TokenAmount r.

Lemma relabel d rid r r' :
  ledger_ok d → billing_recoveries d !! rid = Some r → same_money r r' → row_ok d rid r' →
  let d' := d <| billing_recoveries := <[rid := r']> (billing_recoveries d) |> in
  ledger_ok d' ∧ conserved d d'.
Proof.
  intros Hok Hr (E1 & E2 & E3 & E4 & E5) Hr' d'. split.
  - by apply (change_ledger_ok d d' rid r').
  - apply (charged_conserved d d d' rid r r' 0 0 0 0); try done; [apply charged_refl|..]; intros.
    + unfold wallet_share, held_funding. rewrite E1, E2, E4. change (marker_amount d') with (marker_amount d).
      case_decide; case_decide; lia.
    + unfold token_share, held_token. rewrite E3, E5. change (marker_amount d') with (marker_amount d).
      case_decide; case_decide; lia.
Qed.

(** The amounts of a prepared row are zero. *)
Lemma prepared_zero d rid r :
  ledger_ok d → billing_recoveries d !! rid = Some r → br_PreConsumeState r = PreConsumePrepared →
  br_FundingAmount r = 0 ∧ br_ExtraAmount r = 0 ∧ br_TokenAmount r = 0.
Proof. intros [Hok _] Hr Hp. destruct (Hok _ _ Hr) as [H _]. naive_solver. Qed.

Lemma row_no_settle d rid r c :
  ledger_ok d → billing_recoveries d !! rid = Some r →
  br_Status r ≠ StatusSettlementPending → br_Status r ≠ StatusSettled →
  adjustments d !! (rid, c, OperationSettle) = None.
Proof.
  intros [Hok _] Hr H1 H2. destruct (Hok _ _ Hr) as [_ H]. apply eq_None_not_Some. intros Hs.
  destruct (H c Hs); congruence.
Qed.

(** ** Charging the wallet and the token of a request *)

Lemma if_charge_token (b : bool) now t q unl d x d' u :
  (if b then charge_token now t q unl else mret tt) d = (Ok x, d') → charged d d' u 0 t (if b then q else 0).
Proof.
  destruct b; [destruct x; apply charge_token_charged|]. intros H. mret H. apply charged_refl.
Qed.

Lemma preConsumeWalletTx_ledgered rid q unl now : 0 <= q → Ledgered (preConsumeWalletTx rid q unl now).
Proof.
  intros Hq d a d' Hok H. unfold preConsumeWalletTx in H. mstep H.
  apply FIRST_inv in Hs as [Hr ->]. rename x into r.
  destruct (_ || _) eqn:Hg; [done|]. rewrite orb_false_iff, !negb_false_iff, !bool_decide_eq_true in Hg.
  destruct Hg as [Hsrc Hst]. case_decide as Hc.
  { destruct (_ && _); [|done]. mret H. split; [done|apply conserved_refl]. }
  assert (br_PreConsumeState r = PreConsumePrepared) as Hp by (by destruct (br_PreConsumeState r)).
  destruct (prepared_zero _ _ _ Hok Hr Hp) as (Hf & He & Ht).
  mstep H. apply (if_charge_token _ _ _ _ _ _ _ _ (br_UserID r)) in Hs.
  mstep H. assert (charged d0 d1 (br_UserID r) q (br_TokenID r) 0) as Hu.
  { destruct (Z.ltb_spec 0 q); [destruct x0; by eapply charge_user|].
    mret Hs0. assert (q = 0) as -> by lia. apply charged_refl. }
  pose proof (charged_trans _ _ _ _ _ _ _ _ _ Hs Hu) as Hch. clear Hs Hu Hs0. destruct (ch_books _ _ _ _ _ _ Hch) as [Eb Ea].
  mstep H. mret H. rewrite <- Eb in Hr. pose proof (UPDATE_row _ _ _ _ _ _ Hr Hs) as ->. rewrite Eb in Hr.
  set (r' := _ <| br_UpdatedAt := now |>). split.
  - apply (change_ledger_ok d _ rid r'); cbn; [by rewrite Eb|by intros; rewrite Ea|done|].
    split; [done|]. intros c. cbn. rewrite Ea. intros Hs'. destruct Hok as [Hok _]. destruct (Hok _ _ Hr) as [_ H].
    destruct (H c Hs'); congruence.
  - eapply (charged_conserved d d1 _ rid r r' _ _ _ _ Hr Hch); try done; [cbn; by rewrite Eb|cbn; by intros; rewrite Ea|..].
    + intros u'. unfold wallet_share, held_funding, marker_amount. cbn. rewrite Ea, Hsrc, Hf.
      repeat case_decide; try naive_solver; lia.
    + intros t' Hpos. unfold token_share, held_token, marker_amount. cbn. rewrite Ea, Ht.
      case_decide; [|lia]. subst t'. rewrite (proj2 (Z.ltb_lt 0 (br_TokenID r))) by done.
      destruct (br_TokenRequired r), (Z.ltb_spec 0 q); cbn; lia.
Qed.

(** ** Subscription statements move no wallet and no token *)

Definition Neutral {A} (m : M db A) : Prop :=
  ∀ d, users (m d).2 = users d ∧ tokens (m d).2 = tokens d ∧ same_books d (m d).2.

Lemma neutral_bind {A B} (m : M db A) (k : A → M db B) : Neutral m → (∀ a, Neutral (k a)) → Neutral (m ≫= k).
Proof.
  intros Hm Hk d. unfold mbind, M_bind. specialize (Hm d). destruct (m d) as [[a|e] d1]; cbn in *; [|done].
  destruct (Hk a d1) as (H1 & H2 & H3 & H4), Hm as (H5 & H6 & H7 & H8). unfold same_books. split_and!; congruence.
Qed.
Lemma neutral_ret {A} (a : A) : Neutral (mret a).
Proof. done. Qed.
Lemma neutral_fail {A} e : Neutral (fail (A:=A) e).
Proof. done. Qed.
Lemma neutral_FIRST {K R} `{Countable K} (tbl : db → gmap K R) k : Neutral (FIRST tbl k).
Proof. intros d. unfold FIRST. by destruct (tbl d !! k). Qed.
Lemma neutral_SAVE_sub id s : Neutral (SAVE user_subscriptions id s).
Proof. done. Qed.
Lemma neutral_SAVE_rec id s : Neutral (SAVE pre_consume_records id s).
Proof. done. Qed.
Lemma neutral_try {A} (m : M db A) : Neutral m → Neutral (try m).
Proof. intros Hm d. unfold try. specialize (Hm d). by destruct (m d). Qed.
Create HintDb neutral.
#[export] Hint Resolve neutral_ret neutral_fail neutral_FIRST neutral_SAVE_sub neutral_SAVE_rec : neutral.
Ltac neutral_tac :=
  repeat first
    [ solve [auto with neutral]
    | apply neutral_bind; [|intros ?]
    | match goal with |- Neutral (if ?b then _ else _) => destruct b end ].

Lemma postConsume_neutral now id delta : Neutral (postConsumeUserSubscriptionDeltaTx now id delta).
Proof. unfold postConsumeUserSubscriptionDeltaTx, save_subscription. neutral_tac. Qed.
#[export] Hint Resolve postConsume_neutral : neutral.
Lemma applySubscriptionDelta_neutral now id delta : Neutral (applySubscriptionDeltaTx now id delta).
Proof. unfold applySubscriptionDeltaTx. neutral_tac. Qed.
Lemma refundRecoveryPreConsume_neutral now rid : Neutral (refundBillingRecoverySubscriptionPreConsumeTx now rid).
Proof. unfold refundBillingRecoverySubscriptionPreConsumeTx, save_record. neutral_tac. Qed.
#[export] Hint Resolve applySubscriptionDelta_neutral refundRecoveryPreConsume_neutral : neutral.

Lemma neutral_charged {A} (m : M db A) d r d' u t : Neutral m → m d = (r, d') → charged d d' u 0 t 0.
Proof.
  intros Hm E. destruct (Hm d) as (H1 & H2 & H3). rewrite E in *. cbn in *. split; [done|..]; intros;
    unfold db_quota, db_remain; rewrite ?H1, ?H2; case_decide; lia.
Qed.

(** ** Extending a reservation *)

Lemma reserveTx_ledgered rid target unl now : Ledgered (reserveTx rid target unl now).
Proof.
  intros d a d' Hok H. unfold reserveTx in H. mstep H. apply FIRST_inv in Hs as [Hr ->]. rename x into r.
  destruct (_ || _) eqn:Hg; [done|]. rewrite orb_false_iff, !negb_false_iff, !bool_decide_eq_true in Hg.
  destruct Hg as [Hst Hcom]. set (sub := bool_decide (br_Source r = SourceSubscription)) in *.
  cbv zeta in H. set (delta := i64 _) in H. clearbody delta.
  destruct (delta <=? 0); [mret H; split; [done|apply conserved_refl]|].
  mstep H. destruct x as [m|].
  { injection Hs as _ <-. destruct (adj_Amount m =? delta); [|done]. mret H. split; [done|apply conserved_refl]. }
  injection Hs as Hnone <-. mstep H.
  assert (charged d d0 (br_UserID r) (if sub then 0 else delta) (br_TokenID r) 0) as Hu.
  { destruct sub; [by eapply neutral_charged; [apply applySubscriptionDelta_neutral|]|destruct x; by eapply charge_user]. }
  mstep H. apply (if_charge_token _ _ _ _ _ _ _ _ (br_UserID r)) in Hs0.
  pose proof (charged_trans _ _ _ _ _ _ _ _ _ Hu Hs0) as Hch. clear Hu Hs Hs0. destruct (ch_books _ _ _ _ _ _ Hch) as [Eb Ea].
  mstep H. rewrite <- Eb in Hr. pose proof (UPDATE_row _ _ _ _ _ _ Hr Hs) as Ed2. rewrite Eb in Hr.
  mstep H. mret H. apply CREATE_inv in Hs0 as [Hadj ->].
  rewrite Ed2 in *. clear Hs Ed2. cbn in Hadj. cbv zeta beta.
  set (r' := if br_TokenRequired r && (0 <? br_TokenID r) then _ else _).
  assert (br_Source r' = br_Source r ∧ br_UserID r' = br_UserID r ∧ br_TokenID r' = br_TokenID r ∧
    br_Status r' = br_Status r ∧ br_PreConsumeState r' = PreConsumeCommitted ∧
    br_FundingAmount r' = br_FundingAmount r + (if sub then 0 else delta) ∧
    br_TokenAmount r' = br_TokenAmount r + (if br_TokenRequired r && (0 <? br_TokenID r) then delta else 0))
    as (E1 & E2 & E3 & E4 & E5 & E6 & E7).
  { subst r'. destruct (br_TokenRequired r && (0 <? br_TokenID r)), sub; cbn; split_and!; try done; lia. }
  clearbody r'. cbn. split.
  - apply (change_ledger_ok d _ rid r'); cbn; [by rewrite Eb| |done|].
    + intros rid' c o Hne. rewrite lookup_insert_ne by congruence. by rewrite Ea.
    + split; [congruence|]. intros c. cbn. rewrite lookup_insert_ne by congruence. rewrite Ea, E4.
      destruct Hok as [Hok _]. destruct (Hok _ _ Hr) as [_ H]. apply H.
  - eapply (charged_conserved d d1 _ rid r r' _ _ _ _ Hr Hch); try done; cbn; [by rewrite Eb|..].
    + intros rid' c o Hne. rewrite lookup_insert_ne by congruence. by rewrite Ea.
    + intros u'. unfold wallet_share, held_funding, marker_amount. cbn. rewrite !lookup_insert_ne by congruence.
      rewrite Ea, E1, E2, E6. subst sub.
      destruct (bool_decide_reflect (br_Source r = SourceSubscription)); repeat case_decide; try naive_solver; lia.
    + intros t' Hpos. unfold token_share, held_token, marker_amount. cbn. rewrite !lookup_insert_ne by congruence.
      rewrite Ea, E3, E7. case_decide; lia.
Qed.

(** ** Settlements and refunds *)

(** An int64 that can be negated. *)
Definition negatable (z : Z) : Prop := min_i64 < z <= max_i64.

(** What an adjustment takes (negative: gives back). *)
Definition adjustment_charge (o : recovery_operation) (amount : Z) : Z :=
  if decide (o = OperationSettle) then amount else - amount.

Lemma effect_charged now rid r c o amount d x d' :
  negatable amount →
  applyBillingRecoveryEffect now rid r c o amount d = (Ok x, d') →
  charged d d' (br_UserID r)
    (if decide (c = ComponentFunding ∧ br_Source r ≠ SourceSubscription) then adjustment_charge o amount else 0)
    (br_TokenID r)
    (if decide (c = ComponentToken ∧ 0 < br_TokenID r) then adjustment_charge o amount else 0).
Proof.
  intros Hn. unfold applyBillingRecoveryEffect, adjustment_charge.
  assert (i64 (amount * (if decide (o = OperationSettle) then -1 else 1)) =
          - (if decide (o = OperationSettle) then amount else - amount)) as Hi.
  { unfold negatable, min_i64, max_i64 in Hn. case_decide; rewrite i64_id; unfold in_i64, min_i64, max_i64; lia. }
  destruct (bool_decide (c = ComponentToken) && (br_TokenID r <=? 0)) eqn:Htok.
  { rewrite andb_true_iff, bool_decide_eq_true, Z.leb_le in Htok. destruct Htok as [-> Hle]. intros H. mret H.
    rewrite !decide_False by naive_solver lia. apply charged_refl. }
  rewrite andb_false_iff, bool_decide_eq_false, Z.leb_gt in Htok.
  destruct (Z.eqb_spec amount 0) as [->|Hne].
  { intros H. mret H. replace (if decide (o = OperationSettle) then 0 else -0) with 0 by (by case_decide).
    repeat case_decide; apply charged_refl. }
  set (q := if decide (o = OperationSettle) then amount else - amount) in *.
  set (sign := if decide (o = OperationSettle) then -1 else 1) in *. clearbody q sign.
  destruct c.
  - destruct (decide (br_Source r = SourceSubscription)) as [Hsrc|Hsrc].
    + intros H. rewrite !decide_False by (intros [? ?]; congruence).
      eapply neutral_charged; [|exact H]. destruct (decide (o = OperationRefund)) as [Ho|Ho]; [|auto with neutral].
      apply neutral_bind; [apply neutral_try; auto with neutral|].
      intros [|e]; [|destruct (error_is e _)]; auto with neutral.
    + rewrite decide_True by done. rewrite decide_False by (intros [? ?]; congruence). destruct x. intros H.
      apply (credit_user _ _ _ _ _ (br_TokenID r)) in H. by rewrite Hi, Z.opp_involutive in H.
  - rewrite !decide_False by (intros [? ?]; congruence). intros H. by eapply neutral_charged; [apply applySubscriptionDelta_neutral|].
  - rewrite decide_False by (intros [? ?]; congruence). rewrite decide_True by (destruct Htok; [done|by split]). destruct x. intros H.
    apply (credit_token _ _ _ _ _ _ _ (br_UserID r)) in H. by rewrite Hi, Z.opp_involutive in H.
  - intros H. mret H. rewrite !decide_False by (intros [? ?]; congruence). apply charged_refl.
Qed.

(** The row after [updateBillingRecoveryComponentState]. *)
Definition completed_row (c : recovery_component) (o : recovery_operation) (now : Z) (r : BillingRecovery) : BillingRecovery :=
  default r (complete_component c o now r).

Lemma completed_row_money c o now r :
  let r' := completed_row c o now r in
  same_money r r' ∧ br_Status r' = br_Status r ∧ br_PreConsumeState r' = br_PreConsumeState r ∧
  br_ExtraAmount r' = br_ExtraAmount r.
Proof. by destruct o, c. Qed.

Lemma updateComponentState_inv now rid c o r d x d' :
  billing_recoveries d !! rid = Some r →
  updateBillingRecoveryComponentState now rid c o d = (Ok x, d') →
  d' = d <| billing_recoveries := <[rid := completed_row c o now r]> (billing_recoveries d) |>.
Proof.
  intros Hr. unfold updateBillingRecoveryComponentState, UPDATE, completed_row. unfold_m. rewrite Hr.
  destruct (bool_decide_reflect (is_Some (complete_component c o now r))) as [|Hn%eq_None_not_Some]; intros H; mret H; [done|].
  rewrite Hn. cbn. rewrite insert_id by done. by destruct d.
Qed.

Lemma marker_amount_insert d d' rid c o a :
  adjustments d' = <[(rid, c, o) := a]> (adjustments d) →
  ∀ c' o', marker_amount d' rid c' o' = if decide (c' = c ∧ o' = o) then adj_Amount a else marker_amount d rid c' o'.
Proof.
  intros E c' o'. unfold marker_amount. rewrite E. destruct (decide (c' = c ∧ o' = o)) as [[-> ->]|Hne].
  - by rewrite lookup_insert_eq.
  - rewrite lookup_insert_ne; [done|]. intros [= -> ->]. by apply Hne.
Qed.

(** The books after an adjustment that was not applied before. *)
Section adjust.
Context (d d0 d' : db) (rid : string) (c : recovery_component) (o : recovery_operation) (r r' : BillingRecovery) (now : Z).
Abbreviation amt := (component_amount r c o).
Context (Hok : ledger_ok d) (Hr : billing_recoveries d !! rid = Some r).
Context (Hnone : adjustments d !! (rid, c, o) = None).
Context (Ho : o = OperationRefund ∨ o = OperationSettle ∧ (c = ComponentFunding ∨ c = ComponentToken)).
Context (Hst : o = OperationSettle → br_Status r = StatusSettlementPending).
Context (Hrows : billing_recoveries d' = <[rid := r']> (billing_recoveries d)).
Context (Hadj : adjustments d' = <[(rid, c, o) := MkAdjustment amt now]> (adjustments d)).
Context (Hm : same_money r r' ∧ br_Status r' = br_Status r ∧ br_PreConsumeState r' = br_PreConsumeState r ∧
              br_ExtraAmount r' = br_ExtraAmount r).

Lemma adjust_others rid' c' o' : rid' ≠ rid → adjustments d' !! (rid', c', o') = adjustments d !! (rid', c', o').
Proof. intros Hne. rewrite Hadj, lookup_insert_ne; [done|congruence]. Qed.

Lemma adjust_keeps_ledger : ledger_ok d'.
Proof.
  destruct Hm as ((E1 & E2 & E3 & E4 & E5) & E6 & E7 & E8).
  apply (change_ledger_ok d d' rid r'); [done|apply adjust_others|done|].
  destruct Hok as [Hok' _]. destruct (Hok' _ _ Hr) as [H1 H2]. split.
  - rewrite E7. intros Hp. destruct (H1 Hp) as (F1 & F2 & F3 & F4). split_and!; [congruence..|]. intros c'.
    rewrite (marker_amount_insert _ _ _ _ _ _ Hadj). case_decide as Hd; [|done]. destruct Hd as [_ <-]. cbn. by destruct c.
  - intros c'. rewrite E6, Hadj, lookup_insert. case_decide as Hd; [|apply H2].
    intros _. left. apply Hst. congruence.
Qed.

(** What the marker adds to the shares of the request. *)
Lemma adjust_held_funding :
  held_funding d' rid r' = held_funding d rid r + (if decide (c = ComponentFunding) then adjustment_charge o amt else 0).
Proof.
  destruct Hm as ((E1 & E2 & E3 & E4 & E5) & _). unfold held_funding, adjustment_charge.
  rewrite !(marker_amount_insert _ _ _ _ _ _ Hadj), E4. cbn [adj_Amount].
  assert (marker_amount d rid c o = 0) as H0 by (unfold marker_amount; by rewrite Hnone).
  destruct (decide (c = ComponentFunding)) as [Hc|Hc];
    [|by rewrite !decide_False by (intros []; congruence); lia].
  rewrite Hc in *. destruct Ho as [->|[-> _]].
  - rewrite (decide_True (P := _ ∧ _)), !decide_False by (done || (intros []; congruence) || congruence). lia.
  - rewrite decide_False, !decide_True by (done || (intros []; congruence)). lia.
Qed.
Lemma adjust_held_token :
  held_token d' rid r' = held_token d rid r + (if decide (c = ComponentToken) then adjustment_charge o amt else 0).
Proof.
  destruct Hm as ((E1 & E2 & E3 & E4 & E5) & _). unfold held_token, adjustment_charge.
  rewrite !(marker_amount_insert _ _ _ _ _ _ Hadj), E5. cbn [adj_Amount].
  assert (marker_amount d rid c o = 0) as H0 by (unfold marker_amount; by rewrite Hnone).
  destruct (decide (c = ComponentToken)) as [Hc|Hc];
    [|by rewrite !decide_False by (intros []; congruence); lia].
  rewrite Hc in *. destruct Ho as [->|[-> _]].
  - rewrite (decide_True (P := _ ∧ _)), !decide_False by (done || (intros []; congruence) || congruence). lia.
  - rewrite decide_False, !decide_True by (done || (intros []; congruence)). lia.
Qed.
End adjust.

Lemma adjust_ledgered now rid c o r d x d' :
  ledger_ok d → billing_recoveries d !! rid = Some r → negatable (component_amount r c o) →
  (o = OperationSettle → br_Status r = StatusSettlementPending) →
  (o = OperationRefund ∨ o = OperationSettle ∧ (c = ComponentFunding ∨ c = ComponentToken)) →
  (applyBillingRecoveryEffect now rid r c o (component_amount r c o);;
   CREATE adjustments (rid, c, o) (MkAdjustment (component_amount r c o) now);;
   updateBillingRecoveryComponentState now rid c o) d = (Ok x, d') →
  ledger_ok d' ∧ conserved d d'.
Proof.
  intros Hok Hr Hrange Hst Ho H. mstep H.
  apply effect_charged in Hs as Hch; [|done]. destruct (ch_books _ _ _ _ _ _ Hch) as [Eb Ea].
  mstep H. apply CREATE_inv in Hs0 as [Hnone ->].
  apply (updateComponentState_inv _ _ _ _ r) in H; [|cbn; by rewrite Eb].
  rewrite Ea in Hnone. pose proof (completed_row_money c o now r) as Hm. set (r' := completed_row c o now r) in *.
  assert (billing_recoveries d' = <[rid := r']> (billing_recoveries d) ∧ users d' = users d0 ∧ tokens d' = tokens d0 ∧
    adjustments d' = <[(rid, c, o) := MkAdjustment (component_amount r c o) now]> (adjustments d))
    as (Hrows & Eu & Et & Hadj) by (subst d'; cbn; by rewrite Eb, Ea).
  clearbody r'. clear H Hs. split; [by eapply (adjust_keeps_ledger d d' rid c o r r' now)|].
  pose proof Hm as [(E1 & E2 & E3 & _) _].
  eapply (charged_conserved d d0 d' rid r r' _ _ _ _ Hr Hch); try done.
  - intros rid' c' o' Hne. by rewrite (adjust_others d d' rid c o r now Hadj).
  - intros u'. unfold wallet_share. rewrite E1, E2, (adjust_held_funding d d' rid c o r r' now) by done.
    destruct (decide (br_UserID r = u')), (decide (br_Source r = SourceSubscription)), (decide (c = ComponentFunding));
      repeat (first [rewrite (decide_True (P := _ ∧ _)) by done|rewrite (decide_False (P := _ ∧ _)) by (intros []; congruence)]); lia.
  - intros t' Hpos. unfold token_share. rewrite E3, (adjust_held_token d d' rid c o r r' now) by done.
    destruct (decide (br_TokenID r = t')) as [Ht|]; [|lia]. rewrite <- Ht in Hpos. destruct (decide (c = ComponentToken));
      repeat (first [rewrite (decide_True (P := _ ∧ _)) by done|rewrite (decide_False (P := _ ∧ _)) by (intros []; congruence)]); lia.
Qed.

(** Every amount an adjustment may read is an int64 that can be negated. *)
Definition amounts_ok (d : db) : Prop :=
  ∀ rid r c o, billing_recoveries d !! rid = Some r → negatable (component_amount r c o).

Lemma adjustmentTx_ledgered rid c o now d x d' :
  ledger_ok d → amounts_ok d → o = OperationSettle ∨ o = OperationRefund →
  adjustmentTx rid c o now d = (Ok x, d') → ledger_ok d' ∧ conserved d d'.
Proof.
  intros Hok Hrange Ho H. unfold adjustmentTx in H. mstep H. apply FIRST_inv in Hs as [Hr ->]. rename x0 into r.
  destruct (_ && _); [mret H; split; [done|apply conserved_refl]|].
  mstep H. injection Hs as Hmk <-. destruct x0 as [m|]; [mret H; split; [done|apply conserved_refl]|].
  pose proof (Hrange _ _ c o Hr) as Hn. destruct Ho as [-> | ->].
  - destruct (_ && _) eqn:Hc; [done|].
    destruct (negb (bool_decide (br_Status r = StatusSettlementPending))) eqn:Hst; [done|]. rewrite negb_false_iff, bool_decide_eq_true in Hst.
    rewrite andb_false_iff, !negb_false_iff, !bool_decide_eq_true in Hc.
    eapply adjust_ledgered in H; naive_solver.
  - destruct (_ || _); [mret H; split; [done|apply conserved_refl]|]. destruct (_ && _); [done|].
    eapply adjust_ledgered in H; [done..| |]; [congruence|by left].
Qed.

(** ** The other transitions *)

(** A row that keeps its amounts and its pre-consume state, and whose new
    status is compatible with its markers. *)
Lemma relabel_row_ok d rid r r' :
  row_ok d rid r →
  br_PreConsumeState r' = br_PreConsumeState r → same_money r r' → br_ExtraAmount r' = br_ExtraAmount r →
  (br_Status r' = StatusSettlementPending ∨ br_Status r' = StatusSettled ∨
   (br_Status r ≠ StatusSettlementPending ∧ br_Status r ≠ StatusSettled)) →
  row_ok d rid r'.
Proof.
  intros [H1 H2] Hp (_ & _ & _ & E4 & E5) E8 Hst. split.
  - rewrite Hp, E4, E5, E8. apply H1.
  - intros c Hc. destruct (H2 c Hc); naive_solver.
Qed.

(** [UPDATE billing_recoveries SET .. WHERE request_id = ?] of this kind. *)
Lemma relabel_update d rid r f n d' :
  ledger_ok d → billing_recoveries d !! rid = Some r →
  UPDATE billing_recoveries rid (λ _, true) f d = (Ok n, d') →
  same_money r (f r) → br_PreConsumeState (f r) = br_PreConsumeState r → br_ExtraAmount (f r) = br_ExtraAmount r →
  (br_Status (f r) = StatusSettlementPending ∨ br_Status (f r) = StatusSettled ∨
   (br_Status r ≠ StatusSettlementPending ∧ br_Status r ≠ StatusSettled)) →
  ledger_ok d' ∧ conserved d d'.
Proof.
  intros Hok Hr H Hm Hp He Hst. apply (UPDATE_row _ r) in H as ->; [|done].
  apply (relabel d rid r); [done|done|done|]. destruct (proj1 Hok _ _ Hr) as [H1 H2].
  by apply (relabel_row_ok d rid r).
Qed.

(** ** Totals of the process: tables and queue *)

Definition wallet_sum (w : world) (u : Z) : Z := wallet_balance w u + wallet_held (w_db w) u.
Definition token_sum (w : world) (t : Z) : Z := token_balance w t + token_held (w_db w) t.

Lemma wallet_sum_eq w u : wallet_sum w u = pending BatchUpdateTypeUserQuota w u + wallet_total (w_db w) u.
Proof. unfold wallet_sum, wallet_balance, wallet_total, user_quota, db_quota. lia. Qed.
Lemma token_sum_eq w t : token_sum w t = pending BatchUpdateTypeTokenQuota w t + token_total (w_db w) t.
Proof. unfold token_sum, token_balance, token_total, token_remain, db_remain. lia. Qed.

(** What a call does to the totals of the process. *)
Definition sums_move (w w' : world) (fw ft : Z → Z) : Prop :=
  (∀ u, wallet_sum w' u = wallet_sum w u + fw u) ∧ (∀ t, 0 < t → token_sum w' t = token_sum w t + ft t).
Definition sums_kept (w w' : world) : Prop := sums_move w w' (λ _, 0) (λ _, 0).

Lemma sums_kept_refl w : sums_kept w w.
Proof. split; intros; lia. Qed.
Lemma sums_kept_trans w1 w2 w3 : sums_kept w1 w2 → sums_kept w2 w3 → sums_kept w1 w3.
Proof. intros [H1 H2] [H3 H4]. split; intros; rewrite ?H3, ?H4, ?H1, ?H2 by done; lia. Qed.
Lemma sums_kept_move w1 w2 w3 fw ft : sums_kept w1 w2 → sums_move w2 w3 fw ft → sums_move w1 w3 fw ft.
Proof. intros [H1 H2] [H3 H4]. split; intros; rewrite ?H3, ?H4, ?H1, ?H2 by done; lia. Qed.

Lemma sums_of_tables w w' fw ft :
  w_batch w' = w_batch w → moves (w_db w) (w_db w') fw ft → sums_move w w' fw ft.
Proof.
  intros Eb [H1 H2]. split; intros; rewrite ?wallet_sum_eq, ?token_sum_eq, ?H1, ?H2 by done;
    unfold pending; rewrite Eb; lia.
Qed.

Lemma same_store_sums w w' : same_store w w' → w_db w' = w_db w ∧ sums_kept w w'.
Proof.
  intros S. pose proof (same_store_db _ _ S) as E. split; [done|]. destruct S as (_ & Eb & _).
  apply sums_of_tables; [done|]. rewrite E. apply conserved_refl.
Qed.

(** A transaction whose body keeps the ledger. *)
Lemma transaction_ledgered {A} (body : Z → M db A) w r w' :
  ledger_ok (w_db w) →
  (∀ now a d', body now (w_db w) = (Ok a, d') → ledger_ok d' ∧ conserved (w_db w) d') →
  transaction body w = (r, w') → ledger_ok (w_db w') ∧ sums_kept w w'.
Proof.
  intros Hok Hb [Eb Hr]%transaction_inv. destruct r as [a|e].
  - apply Hb in Hr as [Hok' Hc]. split; [done|]. by apply sums_of_tables.
  - rewrite Hr. split; [done|]. apply sums_of_tables; [done|]. rewrite Hr. apply conserved_refl.
Qed.

(** *** Mutations *)

Lemma charged_totals d d1 u qu t qt :
  charged d d1 u qu t qt →
  (∀ u', wallet_total d1 u' = wallet_total d u' - (if decide (u = u') then qu else 0)) ∧
  (∀ t', token_total d1 t' = token_total d t' - (if decide (t = t') then qt else 0)).
Proof.
  intros [[Eb Ea] Hq Hr].
  assert (∀ rid c o, marker_amount d1 rid c o = marker_amount d rid c o) as Hm
    by (intros; unfold marker_amount; by rewrite Ea).
  split; intros; unfold wallet_total, token_total, wallet_held, token_held; rewrite ?Hq, ?Hr, Eb.
  - rewrite (map_sum_ext (wallet_share d1 u') (wallet_share d u')); [lia|].
    intros. unfold wallet_share, held_funding. by rewrite !Hm.
  - rewrite (map_sum_ext (token_share d1 t') (token_share d t')); [lia|].
    intros. unfold token_share, held_token. by rewrite !Hm.
Qed.

Lemma same_books_ok d d1 : same_books d d1 → ledger_ok d → ledger_ok d1.
Proof.
  intros [Eb Ea] [H1 H2]. split.
  - intros rid r. rewrite Eb. intros Hr. destruct (H1 _ _ Hr) as [H3 H4]. split.
    + intros Hp. destruct (H3 Hp) as (? & ? & ? & H). split_and!; [done..|]. intros c. rewrite <- (H c).
      unfold marker_amount. by rewrite Ea.
    + intros c. rewrite Ea. apply H4.
  - intros rid c o. rewrite Ea, Eb. apply H2.
Qed.

Lemma applyPendingDeltas_charged now m d x d1 :
  applyPendingDeltas now m d = (Ok x, d1) →
  charged d d1 (mu_userID m) (- mu_userPendingDelta m) (mu_tokenID m) (- mu_tokenPendingDelta m).
Proof.
  unfold applyPendingDeltas. intros H. mstep H.
  assert (charged d d0 (mu_userID m) (- mu_userPendingDelta m) (mu_tokenID m) 0) as H1.
  { destruct (Z.eqb_spec (mu_userPendingDelta m) 0) as [E|]; cbn in Hs.
    - mret Hs. rewrite E. apply charged_refl.
    - destruct x0. by apply (credit_user _ _ _ _ _ (mu_tokenID m)) in Hs. }
  assert (charged d0 d1 (mu_userID m) 0 (mu_tokenID m) (- mu_tokenPendingDelta m)) as H2.
  { destruct (Z.eqb_spec (mu_tokenPendingDelta m) 0) as [E|]; cbn in H.
    - mret H. rewrite E. apply charged_refl.
    - destruct x. by apply (credit_token _ _ _ _ _ _ _ (mu_userID m)) in H. }
  pose proof (charged_trans _ _ _ _ _ _ _ _ _ H1 H2) as H3. by rewrite Z.add_0_r, Z.add_0_l in H3.
Qed.

(** A mutation that owns the queued deltas of its resources: [w1] is [w]
    without them. *)
Definition owns (m : billingRecoveryQuotaMutation) (w w1 : world) : Prop :=
  w_db w1 = w_db w ∧
  (∀ u, pending BatchUpdateTypeUserQuota w u =
     pending BatchUpdateTypeUserQuota w1 u + (if decide (mu_userID m = u) then mu_userPendingDelta m else 0)) ∧
  (∀ t, pending BatchUpdateTypeTokenQuota w t =
     pending BatchUpdateTypeTokenQuota w1 t + (if decide (mu_tokenID m = t) then mu_tokenPendingDelta m else 0)) ∧
  (mu_userPendingDelta m ≠ 0 → b_UserQuota (w_batch w1) !! mu_userID m = None) ∧
  (mu_tokenPendingDelta m ≠ 0 → b_TokenQuota (w_batch w1) !! mu_tokenID m = None).

Lemma FIRST_frame {K R} `{Countable K} (tbl : db → gmap K R) (k : K) : Frame (transaction (λ _, FIRST tbl k)).
Proof. apply frame_read. intros now d r d'. intros [_ ?]%FIRST_inv. done. Qed.
#[export] Hint Resolve FIRST_frame : frame.

Lemma fence_resources_frame u t : Frame (fence_resources u t).
Proof.
  unfold fence_resources, RedisEnabled, invalidateUserQuotaCacheForMutation, invalidateTokenCacheForMutation,
    RedisEnabled. frame_tac.
Qed.

Lemma batch_store_set ty m b : batch_store ty (set_batch_store ty m b) = m.
Proof. by destruct ty. Qed.
Lemma batch_store_set_ne ty ty' m b : ty' ≠ ty → batch_store ty' (set_batch_store ty m b) = batch_store ty' b.
Proof. by destruct ty, ty'. Qed.

Lemma take_inv ty id w r w1 :
  takePendingQuotaDelta ty id w = (r, w1) →
  w_db w1 = w_db w ∧ ∃ delta, r = Ok delta ∧
  (∀ i, pending ty w i = pending ty w1 i + (if decide (id = i) then delta else 0)) ∧
  (∀ ty', ty' ≠ ty → batch_store ty' (w_batch w1) = batch_store ty' (w_batch w)) ∧
  (delta ≠ 0 → batch_store ty (w_batch w1) !! id = None).
Proof.
  unfold takePendingQuotaDelta. destruct (id <=? 0); intros [= <- <-].
  { split; [done|]. exists 0. split_and!; try done. intros; case_decide; lia. }
  split; [done|]. eexists. split; [done|]. unfold pending. cbn. rewrite batch_store_set. split_and!.
  - intros i. destruct (decide (id = i)) as [<-|Hi].
    + rewrite lookup_delete_eq. cbn. lia.
    + rewrite lookup_delete_ne by done. lia.
  - intros ty' Hne. by apply batch_store_set_ne.
  - intros _. apply lookup_delete_eq.
Qed.

Lemma pending_store ty w w' : batch_store ty (w_batch w') = batch_store ty (w_batch w) → ∀ i, pending ty w' i = pending ty w i.
Proof. unfold pending. by intros ->. Qed.

Lemma begin_owns rid fu ft w r w1 :
  beginBillingRecoveryQuotaMutation rid fu ft w = (r, w1) →
  match r with Ok m => owns m w w1 | Err _ => same_store w w1 end.
Proof.
  unfold beginBillingRecoveryQuotaMutation. destruct (blank rid); [by intros [= <- <-]|].
  unfold mbind at 1, M_bind at 1. pose proof (FIRST_frame billing_recoveries rid w) as S1.
  destruct (transaction (λ _, FIRST billing_recoveries rid) w) as [[row|e] w2]; cbn in S1; [|by intros [= <- <-]].
  cbv zeta. generalize (if fu && bool_decide (br_Source row = SourceWallet) then br_UserID row else 0) as u.
  generalize (if ft && br_TokenRequired row && (0 <? br_TokenID row) then br_TokenID row else 0) as t. intros t u.
  unfold mbind at 1, M_bind at 1. pose proof (fence_resources_frame u t w2) as S2.
  destruct (fence_resources u t w2) as [[[]|e] w3]; cbn in S2; [|intros [= <- <-]; by etrans].
  assert (same_store w w3) as (Ed & Eb & _) by (by etrans). clear S1 S2.
  unfold mbind at 1, M_bind at 1. destruct (takePendingQuotaDelta BatchUpdateTypeUserQuota u w3) as [r4 w4] eqn:E4.
  apply take_inv in E4 as (Ed4 & du & -> & Hp4 & Hs4 & Hn4).
  unfold mbind at 1, M_bind at 1. destruct (takePendingQuotaDelta BatchUpdateTypeTokenQuota t w4) as [r5 w5] eqn:E5.
  apply take_inv in E5 as (Ed5 & dt & -> & Hp5 & Hs5 & Hn5). intros [= <- <-]. unfold owns. cbn.
  assert (∀ ty i, pending ty w3 i = pending ty w i) as Hp3 by (intros; unfold pending; by rewrite Eb).
  pose proof (Hs4 BatchUpdateTypeTokenQuota ltac:(done)) as St. pose proof (Hs5 BatchUpdateTypeUserQuota ltac:(done)) as Su.
  split_and!; [congruence|..].
  - intros i. by rewrite <- Hp3, Hp4, (pending_store _ _ _ Su).
  - intros i. by rewrite <- Hp3, <- (pending_store _ _ _ St), Hp5.
  - intros H. cbn in Su. rewrite Su. by apply Hn4.
  - apply Hn5.
Qed.

(** Returning an owned delta to the queue puts it back exactly. *)
Lemma addNewRecord_fresh ty id v w :
  batch_store ty (w_batch w) !! id = None →
  let w' := (addNewRecord ty id v w).2 in
  addNewRecord ty id v w = (Ok tt, w') ∧ w_db w' = w_db w ∧
  (∀ i, pending ty w' i = pending ty w i + (if decide (id = i) then v else 0)) ∧
  (∀ ty', ty' ≠ ty → batch_store ty' (w_batch w') = batch_store ty' (w_batch w)).
Proof.
  intros Hn. unfold addNewRecord, pending. unfold_m. cbn. rewrite Hn. split_and!; [done|done|..].
  - intros i. rewrite batch_store_set, lookup_insert. case_decide; [subst; rewrite Hn; cbn; lia|lia].
  - intros ty' Hne. by apply batch_store_set_ne.
Qed.

Lemma release_one ty id v w :
  (v ≠ 0 → batch_store ty (w_batch w) !! id = None) →
  ∃ w', (if negb (v =? 0) then addNewRecord ty id v else mret tt) w = (Ok tt, w') ∧ w_db w' = w_db w ∧
  (∀ i, pending ty w' i = pending ty w i + (if decide (id = i) then v else 0)) ∧
  (∀ ty', ty' ≠ ty → batch_store ty' (w_batch w') = batch_store ty' (w_batch w)).
Proof.
  intros Hn. destruct (Z.eqb_spec v 0) as [->|Hv]; cbn [negb].
  - exists w. split_and!; try done. intros; case_decide; lia.
  - destruct (addNewRecord_fresh ty id v w (Hn Hv)) as (H1 & H2 & H3 & H4). eexists. by split_and!.
Qed.

Lemma release_restores m w w1 w1' :
  owns m w w1 → w_batch w1' = w_batch w1 →
  ∃ w2, release m false w1' = (Ok tt, w2) ∧ w_db w2 = w_db w1' ∧
  (∀ u, pending BatchUpdateTypeUserQuota w2 u = pending BatchUpdateTypeUserQuota w u) ∧
  (∀ t, pending BatchUpdateTypeTokenQuota w2 t = pending BatchUpdateTypeTokenQuota w t).
Proof.
  intros (_ & Hu & Ht & Nu & Nt) Eb. unfold release. rewrite <- Eb in Nu, Nt.
  assert (∀ ty i, pending ty w1' i = pending ty w1 i) as Hp by (intros; unfold pending; by rewrite Eb).
  destruct (release_one BatchUpdateTypeUserQuota (mu_userID m) (mu_userPendingDelta m) w1' Nu) as (wa & Ea & Da & Pa & Sa).
  pose proof (Sa BatchUpdateTypeTokenQuota ltac:(done)) as St. pose proof St as St'. cbn in St'. rewrite <- St' in Nt.
  destruct (release_one BatchUpdateTypeTokenQuota (mu_tokenID m) (mu_tokenPendingDelta m) wa Nt) as (wb & Ebb & Db & Pb & Sb).
  pose proof (Sb BatchUpdateTypeUserQuota ltac:(done)) as Su.
  exists wb. rewrite (bind_ok _ _ _ _ _ Ea). split_and!; [done|congruence|..]; intros i.
  - by rewrite (pending_store _ _ _ Su), Pa, Hp, Hu.
  - by rewrite Pb, (pending_store _ _ _ St), Hp, Ht.
Qed.

(** A mutation whose body keeps the ledger keeps the totals of the process,
    committed or not. *)
Lemma mutation_ledgered {A} rid fu ft (body : Z → M db A) w r w' :
  ledger_ok (w_db w) →
  (∀ now d a d', ledger_ok d → billing_recoveries d = billing_recoveries (w_db w) →
     body now d = (Ok a, d') → ledger_ok d' ∧ conserved d d') →
  (m ← beginBillingRecoveryQuotaMutation rid fu ft; with_mutation m body) w = (r, w') →
  ledger_ok (w_db w') ∧ sums_kept w w'.
Proof.
  intros Hok Hb. unfold mbind at 1, M_bind at 1.
  destruct (beginBillingRecoveryQuotaMutation rid fu ft w) as [[m|e] w1] eqn:E1; apply begin_owns in E1.
  2: { intros [= <- <-]. apply same_store_sums in E1 as [-> Hk]. done. }
  unfold with_mutation. set (tx := transaction _). unfold mbind at 1, M_bind at 1. unfold try.
  destruct (tx w1) as [rt w2] eqn:E2. apply transaction_inv in E2 as [Eb E2].
  pose proof E1 as (Ed1 & Hu & Ht & _). destruct rt as [a|e]; cbn [is_ok].
  - unfold release. unfold_m. intros [= <- <-]. mstep E2. apply applyPendingDeltas_charged in Hs as Hch.
    pose proof (ch_books _ _ _ _ _ _ Hch) as Hsb. apply charged_totals in Hch as [Hw Htt]. rewrite Ed1 in *.
    apply Hb in E2 as [Hok' [Hc1 Hc2]]; [|by eapply same_books_ok|by rewrite (proj1 Hsb)]. split; [done|].
    assert (∀ ty i, pending ty w2 i = pending ty w1 i) as Hp by (intros; unfold pending; by rewrite Eb).
    split; [intros u|intros t Hpos]; rewrite ?wallet_sum_eq, ?token_sum_eq, ?Hc1, ?Hc2, ?Hw, ?Htt, ?Hp, ?Hu, ?Ht by done;
      case_decide; lia.
  - destruct (release_restores m w w1 w2 E1 Eb) as (w3 & E3 & Ed3 & Pu & Pt).
    rewrite (bind_ok _ _ _ _ _ E3). unfold_m. intros [= <- <-]. rewrite Ed3, E2, Ed1. split; [done|].
    split; intros; rewrite ?wallet_sum_eq, ?token_sum_eq, ?Pu, ?Pt, Ed3, E2, Ed1; lia.
Qed.

(** ** The operations *)

Inductive ledger_op :=
  | LEnsure (input : BillingRecoveryInput)
  | LAbort (rid : string) (e : option error)
  | LSync (rid : string) (sub funding extra token : Z)
  | LSettlement (rid : string) (delta : Z)
  | LTouch (rid : string)
  | LMarkRefundPending (rid : string) (e : option error)
  | LMarkSettled (rid : string)
  | LMarkRefunded (rid : string) (e : option error)
  | LPreConsume (rid : string) (quota : Z) (unlimited : bool)
  | LReserve (rid : string) (target delta : Z) (unlimited : bool)
  | LAdjust (rid : string) (c : recovery_component) (o : recovery_operation).

Definition run_ledger_op (op : ledger_op) : M world unit :=
  match op with
  | LEnsure input => _ ← EnsureBillingRecovery input; mret tt
  | LAbort rid e => AbortPreparedBillingRecovery rid e
  | LSync rid s f e t => UpdateBillingRecoveryAmounts rid s f e t
  | LSettlement rid delta => UpdateBillingRecoverySettlement rid delta
  | LTouch rid => TouchBillingRecovery rid
  | LMarkRefundPending rid e => MarkBillingRecoveryRefundPending rid e
  | LMarkSettled rid => MarkBillingRecoverySettled rid
  | LMarkRefunded rid e => MarkBillingRecoveryRefunded rid e
  | LPreConsume rid q unl => PreConsumeWalletBillingRecovery rid q unl
  | LReserve rid t delta unl => _ ← ReserveBillingRecovery rid t delta unl; mret tt
  | LAdjust rid c o => ApplyBillingRecoveryAdjustment rid c o
  end.

(** A new row starts with nothing reserved, as the sessions create it. *)
Definition ledger_op_ok (op : ledger_op) : Prop :=
  match op with
  | LEnsure input => in_FundingAmount input = 0 ∧ in_TokenAmount input = 0
  | _ => True
  end.

(** Two operations state amounts that were charged elsewhere: the session
    writes what it has consumed ([LSync]), and a refund adopts the record of
    a subscription pre-consume ([LMarkRefundPending]).  The amounts a call
    states for the wallet of [u] and for the token [t]: *)
Definition declares (op : ledger_op) : option string :=
  match op with LSync rid _ _ _ _ | LMarkRefundPending rid _ => Some rid | _ => None end.

Definition declared_wallet (op : ledger_op) (d d' : db) (u : Z) : Z :=
  match declares op with
  | Some rid =>
      match billing_recoveries d !! rid, billing_recoveries d' !! rid with
      | Some r, Some r' => if decide (br_Source r ≠ SourceSubscription ∧ br_UserID r = u)
                           then br_FundingAmount r' - br_FundingAmount r else 0
      | _, _ => 0
      end
  | None => 0
  end.
Definition declared_token (op : ledger_op) (d d' : db) (t : Z) : Z :=
  match declares op with
  | Some rid =>
      match billing_recoveries d !! rid, billing_recoveries d' !! rid with
      | Some r, Some r' => if decide (br_TokenID r = t) then br_TokenAmount r' - br_TokenAmount r else 0
      | _, _ => 0
      end
  | None => 0
  end.

(** Creating a row. *)
Lemma create_row_ledgered input now d x d' :
  in_FundingAmount input = 0 ∧ in_TokenAmount input = 0 → ledger_ok d →
  CREATE billing_recoveries (in_RequestID input) (BeforeCreate now input) d = (Ok x, d') →
  ledger_ok d' ∧ conserved d d'.
Proof.
  intros [Hf Ht] [Hok Hdom] [Hnone ->]%CREATE_inv. set (rid := in_RequestID input) in *.
  assert (∀ c o, adjustments d !! (rid, c, o) = None) as Hna.
  { intros c o. apply eq_None_not_Some. intros Hs%Hdom. rewrite Hnone in Hs. by destruct Hs. }
  assert (∀ c o, marker_amount d rid c o = 0) as Hm by (intros; unfold marker_amount; by rewrite Hna).
  split; [split|split].
  - intros k b. cbn. rewrite lookup_insert. case_decide; [|apply Hok]. subst k. intros [= <-]. split; cbn.
    + intros _. split_and!; [done..|]. intros c. apply Hm.
    + intros c. rewrite Hna. by intros [].
  - intros k c o Hs. cbn. rewrite lookup_insert. case_decide; [done|]. by apply (Hdom k c o).
  - intros u. unfold wallet_total, wallet_held. cbn. rewrite map_sum_insert_new by done.
    unfold db_quota, wallet_share, held_funding. cbn.
    change (marker_amount (d <| billing_recoveries := _ |>)) with (marker_amount d). rewrite !Hm, Hf.
    case_decide; lia.
  - intros t _. unfold token_total, token_held. cbn. rewrite map_sum_insert_new by done.
    unfold db_remain, token_share, held_token. cbn.
    change (marker_amount (d <| billing_recoveries := _ |>)) with (marker_amount d). rewrite !Hm, Ht.
    case_decide; lia.
Qed.

(** Rebinding a reusable row, which holds nothing. *)
Lemma reusable_inv r :
  billingRecoveryIsReusable r = true →
  br_Status r = StatusRefunded ∧ br_PreConsumeState r = PreConsumePrepared ∧
  br_FundingAmount r = 0 ∧ br_ExtraAmount r = 0 ∧ br_TokenAmount r = 0.
Proof. unfold billingRecoveryIsReusable. rewrite !andb_true_iff, !bool_decide_eq_true, !Z.eqb_eq. tauto. Qed.

Lemma rebind_ledgered d rid r r' :
  ledger_ok d → billing_recoveries d !! rid = Some r → billingRecoveryIsReusable r = true →
  br_FundingAmount r' = 0 → br_ExtraAmount r' = 0 → br_TokenAmount r' = 0 →
  let d' := d <| billing_recoveries := <[rid := r']> (billing_recoveries d) |> in
  ledger_ok d' ∧ conserved d d'.
Proof.
  intros Hok Hr (Hst & Hp & Hf & He & Ht)%reusable_inv Hf' He' Ht' d'.
  assert (∀ c, adjustments d !! (rid, c, OperationSettle) = None) as Hns
    by (intros c; apply (row_no_settle d rid r c Hok Hr); congruence).
  assert (∀ c, marker_amount d rid c OperationSettle = 0) as Hs by (intros; unfold marker_amount; by rewrite Hns).
  destruct (proj1 Hok _ _ Hr) as [H1 _]. destruct (H1 Hp) as (_ & _ & _ & Hrf). split.
  - apply (change_ledger_ok d d' rid r'); try done. split; [done|]. intros c. cbn. rewrite Hns. by intros [].
  - apply (charged_conserved d d d' rid r r' 0 0 0 0); try done; [apply charged_refl|..]; intros.
    + unfold wallet_share, held_funding. change (marker_amount d') with (marker_amount d).
      rewrite Hf, Hf', Hs, Hrf. repeat case_decide; lia.
    + unfold token_share, held_token. change (marker_amount d') with (marker_amount d).
      rewrite Ht, Ht', Hs, Hrf. repeat case_decide; lia.
Qed.

Lemma reconcile_ledgered recovery input w r w' :
  ledger_ok (w_db w) → reconcileBillingRecoveryInput recovery input w = (r, w') →
  ledger_ok (w_db w') ∧ sums_kept w w'.
Proof.
  intros Hok. unfold reconcileBillingRecoveryInput.
  destruct (negb _); [intros [= <- <-]; split; [done|apply sums_kept_refl]|].
  case_decide; [intros [= <- <-]; split; [done|apply sums_kept_refl]|].
  destruct (negb (billingRecoveryIsReusable recovery)); [intros [= <- <-]; split; [done|apply sums_kept_refl]|].
  apply transaction_ledgered; [done|]. intros now a d' Hb. mstep Hb. apply FIRST_inv in Hs as [Hr ->]. rename x into cur.
  destruct (negb (same_identity cur input) || negb (billingRecoveryIsReusable cur)) eqn:Hg; [done|].
  rewrite orb_false_iff, !negb_false_iff in Hg. destruct Hg as [_ Hre]. mstep Hb. mret Hb.
  apply (UPDATE_row _ cur) in Hs as ->; [|done]. pose proof (reusable_inv _ Hre) as (_ & _ & ? & ? & ?).
  by apply (rebind_ledgered _ _ cur).
Qed.

Lemma transaction_read {K R} `{Countable K} (tbl : db → gmap K R) k w r w' :
  transaction (λ _, FIRST tbl k) w = (r, w') → w_db w' = w_db w ∧ sums_kept w w'.
Proof. intros E. apply same_store_sums. pose proof (FIRST_frame tbl k w) as Hf. by rewrite E in Hf. Qed.

Lemma Ensure_ledgered input w r w' :
  in_FundingAmount input = 0 ∧ in_TokenAmount input = 0 → ledger_ok (w_db w) →
  EnsureBillingRecovery input w = (r, w') → ledger_ok (w_db w') ∧ sums_kept w w'.
Proof.
  intros Hz Hok. unfold EnsureBillingRecovery.
  do 4 (match goal with |- (if ?b then _ else _) _ = _ → _ => destruct b end;
    [intros [= <- <-]; split; [done|apply sums_kept_refl]|]).
  unfold mbind at 1, M_bind at 1. unfold try at 1.
  destruct (transaction (λ _, FIRST billing_recoveries (in_RequestID input)) w) as [r1 w1] eqn:E1.
  apply transaction_read in E1 as [Ed1 K1]. rewrite <- Ed1 in Hok. destruct r1 as [row|e].
  { intros [Hok' K2]%reconcile_ledgered; [|done]. split; [done|by eapply sums_kept_trans]. }
  destruct (negb (error_is e ErrRecordNotFound)); [intros [= <- <-]; done|].
  unfold mbind at 1, M_bind at 1. unfold try at 1.
  destruct (transaction _ w1) as [r2 w2] eqn:E2.
  apply transaction_ledgered in E2 as [Hok2 K2]; [|done|].
  2: { intros now a d' Hb. mstep Hb. mret Hb. by apply create_row_ledgered in Hs. }
  assert (sums_kept w w2) as K12 by (by eapply sums_kept_trans). destruct r2 as [row|e2]; [by intros [= <- <-]|].
  unfold mbind at 1, M_bind at 1. unfold try at 1.
  destruct (transaction (λ _, FIRST billing_recoveries (in_RequestID input)) w2) as [r3 w3] eqn:E3.
  apply transaction_read in E3 as [Ed3 K3]. rewrite <- Ed3 in Hok2.
  assert (sums_kept w w3) as K13 by (by eapply sums_kept_trans). destruct r3 as [row|e3]; [|by intros [= <- <-]].
  intros [Hok' K4]%reconcile_ledgered; [|done]. split; [done|by eapply sums_kept_trans].
Qed.

(** A transition that only relabels its row. *)
Lemma relabel_tx {A} (body : Z → BillingRecovery → M db A) rid w r w' :
  ledger_ok (w_db w) →
  (∀ now row d x d', ledger_ok d → billing_recoveries d !! rid = Some row → body now row d = (Ok x, d') →
     ledger_ok d' ∧ conserved d d') →
  transaction (λ now, row ← FIRST billing_recoveries rid; body now row) w = (r, w') →
  ledger_ok (w_db w') ∧ sums_kept w w'.
Proof.
  intros Hok Hb. apply transaction_ledgered; [done|]. intros now a d' H. mstep H.
  apply FIRST_inv in Hs as [Hr ->]. by eapply Hb.
Qed.

Lemma settling_cases s : settling s = true → s = StatusActive ∨ s = StatusSettlementPending.
Proof. unfold settling. rewrite orb_true_iff, !bool_decide_eq_true. done. Qed.

(** A guarded update that keeps the amounts. *)
Lemma settling_update rid f w r w' :
  ledger_ok (w_db w) →
  (∀ now r, same_money r (f now r) ∧ br_PreConsumeState (f now r) = br_PreConsumeState r ∧
            br_ExtraAmount (f now r) = br_ExtraAmount r ∧
            (br_Status (f now r) = StatusSettlementPending ∨ br_Status (f now r) = br_Status r)) →
  transaction (λ now, UPDATE billing_recoveries rid (λ r, settling (br_Status r)) (f now)) w = (r, w') →
  ledger_ok (w_db w') ∧ sums_kept w w'.
Proof.
  intros Hok Hf. apply transaction_ledgered; [done|]. intros now n d'.
  intros [(row & Hr & Hst & _ & ->)|[_ ->]]%UPDATE_inv; [|split; [done|apply conserved_refl]].
  destruct (Hf now row) as (Hm & Hp & He & Hs). apply (relabel _ _ row); [done|done|done|].
  destruct (proj1 Hok _ _ Hr) as [H1 H2]. apply (relabel_row_ok _ _ row); try done.
  apply settling_cases in Hst. destruct Hs as [->|Hs]; [by left|]. rewrite Hs. destruct Hst as [-> | ->]; [|by left].
  right. right. done.
Qed.

(** Writing amounts on an active row, or adopting a pre-consume record. *)
Lemma declare_row d rid r r' :
  ledger_ok d → billing_recoveries d !! rid = Some r →
  br_Source r' = br_Source r → br_UserID r' = br_UserID r → br_TokenID r' = br_TokenID r →
  row_ok d rid r' →
  let d' := d <| billing_recoveries := <[rid := r']> (billing_recoveries d) |> in
  ledger_ok d' ∧
  moves d d' (λ u, if decide (br_Source r ≠ SourceSubscription ∧ br_UserID r = u) then br_FundingAmount r' - br_FundingAmount r else 0)
             (λ t, if decide (br_TokenID r = t) then br_TokenAmount r' - br_TokenAmount r else 0).
Proof.
  intros Hok Hr E1 E2 E3 Hr' d'. split; [by apply (change_ledger_ok d d' rid r')|].
  destruct (change_moves d d' rid r r' Hr eq_refl (λ _ _ _ _, eq_refl)) as [M1 M2]. split.
  - intros u. rewrite M1. unfold wallet_share, held_funding. rewrite E1, E2.
    change (marker_amount d') with (marker_amount d). change (db_quota d') with (db_quota d). case_decide; lia.
  - intros t Ht. rewrite M2 by done. unfold token_share, held_token. rewrite E3.
    change (marker_amount d') with (marker_amount d). change (db_remain d') with (db_remain d). case_decide; lia.
Qed.

Lemma adopt_preconsume_spec row rec r :
  let r' := adopt_preconsume row rec r in
  br_Source r' = br_Source r ∧ br_UserID r' = br_UserID r ∧ br_TokenID r' = br_TokenID r ∧ br_Status r' = br_Status r ∧
  (br_PreConsumeState r' = PreConsumePrepared → r' = r).
Proof.
  unfold adopt_preconsume. destruct rec as [rec|]; [|done]. destruct (_ && _); [|done].
  by destruct (br_TokenRequired row).
Qed.

(** What one call does to the ledger. *)
Definition op_moves (op : ledger_op) (w w' : world) : Prop :=
  ledger_ok (w_db w') ∧ sums_move w w' (declared_wallet op (w_db w) (w_db w')) (declared_token op (w_db w) (w_db w')).

Lemma op_moves_kept op w w' : declares op = None → ledger_ok (w_db w') ∧ sums_kept w w' → op_moves op w w'.
Proof.
  intros Hd [Hok [H1 H2]]. split; [done|]. unfold declared_wallet, declared_token. rewrite Hd. by split.
Qed.

Lemma declare_tx op rid (body : Z → BillingRecovery → M db unit) w r w' :
  declares op = Some rid → ledger_ok (w_db w) →
  (∀ now row x d', billing_recoveries (w_db w) !! rid = Some row → body now row (w_db w) = (Ok x, d') →
     d' = w_db w ∨ ∃ row', d' = w_db w <| billing_recoveries := <[rid := row']> (billing_recoveries (w_db w)) |> ∧
       br_Source row' = br_Source row ∧ br_UserID row' = br_UserID row ∧ br_TokenID row' = br_TokenID row ∧
       row_ok (w_db w) rid row') →
  transaction (λ now, row ← FIRST billing_recoveries rid; body now row) w = (r, w') →
  op_moves op w w'.
Proof.
  intros Hd Hok Hb [Eb H]%transaction_inv.
  assert (w_db w' = w_db w → op_moves op w w') as Hsame.
  { intros E. split; [by rewrite E|]. unfold declared_wallet, declared_token. rewrite Hd, E.
    apply sums_of_tables; [done|]. rewrite E. split; intros; destruct (billing_recoveries (w_db w) !! rid); try case_decide; lia. }
  destruct r as [x|e]; [|by apply Hsame]. mstep H. apply FIRST_inv in Hs as [Hr ->].
  apply Hb in H as [Hdb|(row' & Hdb & E1 & E2 & E3 & Hrow)]; [by apply Hsame| |done].
  destruct (declare_row _ _ _ _ Hok Hr E1 E2 E3 Hrow) as [Hok' [M1 M2]]. rewrite <- Hdb in *. split; [done|].
  unfold declared_wallet, declared_token. rewrite Hd, Hr.
  assert (billing_recoveries (w_db w') !! rid = Some row') as -> by (rewrite Hdb; cbn; apply lookup_insert_eq).
  apply sums_of_tables; [done|]. by split.
Qed.

Lemma sync_moves rid s f e t w r w' :
  ledger_ok (w_db w) → run_ledger_op (LSync rid s f e t) w = (r, w') → op_moves (LSync rid s f e t) w w'.
Proof.
  intros Hok. cbn [run_ledger_op]. unfold UpdateBillingRecoveryAmounts.
  assert (op_moves (LSync rid s f e t) w w) as Hsame.
  { split; [done|]. apply sums_of_tables; [done|]. unfold declared_wallet, declared_token. cbn.
    split; intros; destruct (billing_recoveries (w_db w) !! rid); try case_decide; lia. }
  destruct (blank rid); [by intros [= <- <-]|]. destruct (_ || _); [by intros [= <- <-]|].
  eapply declare_tx; [done|done|]. intros now row x d' Hr H.
  destruct (bool_decide_reflect (br_Status row = StatusActive)) as [Hst|]; cbn in H; [|done].
  mstep H. apply UPDATE_inv in Hs as [(row0 & Hr0 & _ & -> & ->)|[-> ->]]; [|done]. mret H.
  right. eexists. split; [done|]. assert (row0 = row) as -> by congruence. split_and!; try done. split; [done|].
  intros c Hc. cbn. destruct (proj1 Hok _ _ Hr) as [_ H2]. apply (H2 c Hc).
Qed.

Lemma mark_refund_moves rid e w r w' :
  ledger_ok (w_db w) → run_ledger_op (LMarkRefundPending rid e) w = (r, w') → op_moves (LMarkRefundPending rid e) w w'.
Proof.
  intros Hok. cbn [run_ledger_op]. unfold MarkBillingRecoveryRefundPending.
  destruct (blank rid).
  { intros [= <- <-]. split; [done|]. apply sums_of_tables; [done|]. unfold declared_wallet, declared_token. cbn.
    split; intros; destruct (billing_recoveries (w_db w) !! rid); try case_decide; lia. }
  eapply declare_tx; [done|done|]. intros now row x d' Hr H. case_decide; [mret H; by left|].
  destruct (_ && _) eqn:Hg; [done|]. mstep H. injection Hs as <- <-. mstep H. mret H.
  apply (UPDATE_row _ row) in Hs as ->; [|done]. right. eexists. split; [done|].
  set (row' := row <| br_Status := _ |> <| br_LastError := _ |> <| br_Attempts ::= _ |> <| br_UpdatedAt := _ |>).
  destruct (adopt_preconsume_spec row (pre_consume_records (w_db w) !! rid) row') as (E1 & E2 & E3 & E4 & E5).
  split_and!; try done. destruct (proj1 Hok _ _ Hr) as [H1 H2]. split.
  - intros Hp. rewrite (E5 Hp). apply H1. by rewrite (E5 Hp) in Hp.
  - intros c Hc. exfalso. rewrite andb_false_iff, !negb_false_iff, !bool_decide_eq_true in Hg.
    destruct (H2 c Hc), Hg; congruence.
Qed.

(** The transitions that keep the amounts. *)
Lemma kept_refl w : ledger_ok (w_db w) → ledger_ok (w_db w) ∧ sums_kept w w.
Proof. intros H. split; [done|apply sums_kept_refl]. Qed.
Lemma nothing_done {A} d (x : A) r d' :
  ledger_ok d → (Ok x, d) = (Ok r, d') → ledger_ok d' ∧ conserved d d'.
Proof. intros Hok [= _ <-]. split; [done|apply conserved_refl]. Qed.

Lemma abort_ledgered rid e w r w' :
  ledger_ok (w_db w) → AbortPreparedBillingRecovery rid e w = (r, w') → ledger_ok (w_db w') ∧ sums_kept w w'.
Proof.
  intros Hok. unfold AbortPreparedBillingRecovery. destruct (blank rid); [intros [= <- <-]; by apply kept_refl|].
  apply relabel_tx; [done|]. clear. intros now row d x d' Hok Hr H. case_decide; [by eapply nothing_done|].
  destruct (_ || _) eqn:Hg; [done|]. rewrite !orb_false_iff, !negb_false_iff, !bool_decide_eq_true in Hg.
  mstep H. mret H. eapply relabel_update; [done|done|exact Hs|done..|]. cbn. right. right. naive_solver congruence.
Qed.

Lemma settled_ledgered rid w r w' :
  ledger_ok (w_db w) → MarkBillingRecoverySettled rid w = (r, w') → ledger_ok (w_db w') ∧ sums_kept w w'.
Proof.
  intros Hok. unfold MarkBillingRecoverySettled. destruct (blank rid); [intros [= <- <-]; by apply kept_refl|].
  apply relabel_tx; [done|]. clear. intros now row d x d' Hok Hr H. case_decide; [by eapply nothing_done|].
  destruct (_ || _); [done|]. mstep H. mret H. eapply relabel_update; [done|done|exact Hs|done..|]. cbn. auto.
Qed.

Lemma refunded_ledgered rid e w r w' :
  ledger_ok (w_db w) → MarkBillingRecoveryRefunded rid e w = (r, w') → ledger_ok (w_db w') ∧ sums_kept w w'.
Proof.
  intros Hok. unfold MarkBillingRecoveryRefunded. destruct (blank rid); [intros [= <- <-]; by apply kept_refl|].
  apply relabel_tx; [done|]. clear. intros now row d x d' Hok Hr H. case_decide; [by eapply nothing_done|].
  destruct (_ || _) eqn:Hg; [done|]. rewrite !orb_false_iff, !negb_false_iff, !bool_decide_eq_true in Hg.
  mstep H. mret H. eapply relabel_update; [done|done|exact Hs|done..|]. cbn. right. right.
  destruct Hg as [-> _]. done.
Qed.

Lemma settlement_ledgered rid delta w r w' :
  ledger_ok (w_db w) → UpdateBillingRecoverySettlement rid delta w = (r, w') → ledger_ok (w_db w') ∧ sums_kept w w'.
Proof.
  intros Hok. unfold UpdateBillingRecoverySettlement. destruct (blank rid); [intros [= <- <-]; by apply kept_refl|].
  unfold mbind at 1, M_bind at 1. destruct (transaction _ w) as [r1 w1] eqn:E1.
  apply (settling_update rid (λ now r, r <| br_SettlementDelta := delta |> <| br_Status := StatusSettlementPending |>
    <| br_UpdatedAt := now |>)) in E1 as [Hok1 K1]; [|done|by intros; split_and!; auto].
  destruct r1 as [n|e]; [|by intros [= <- <-]]. destruct (n =? 1); [by intros [= <- <-]|].
  unfold mbind at 1, M_bind at 1. destruct (transaction _ w1) as [r2 w2] eqn:E2. apply transaction_read in E2 as [Ed K2].
  rewrite <- Ed in Hok1. assert (sums_kept w w2) by (by eapply sums_kept_trans).
  destruct r2 as [row|e]; [|by intros [= <- <-]]. case_decide; by intros [= <- <-].
Qed.

Lemma touch_ledgered rid w r w' :
  ledger_ok (w_db w) → TouchBillingRecovery rid w = (r, w') → ledger_ok (w_db w') ∧ sums_kept w w'.
Proof.
  intros Hok. unfold TouchBillingRecovery. destruct (blank rid); [intros [= <- <-]; by apply kept_refl|].
  unfold mbind at 1, M_bind at 1. destruct (transaction _ w) as [r1 w1] eqn:E1.
  apply (settling_update rid (λ now r, r <| br_UpdatedAt := now |>)) in E1 as [Hok1 K1]; [|done|by intros; split_and!; auto].
  destruct r1 as [n|e]; [|by intros [= <- <-]]. destruct (n =? 1); by intros [= <- <-].
Qed.

Lemma preconsume_ledgered rid q unl w r w' :
  ledger_ok (w_db w) → PreConsumeWalletBillingRecovery rid q unl w = (r, w') → ledger_ok (w_db w') ∧ sums_kept w w'.
Proof.
  intros Hok. unfold PreConsumeWalletBillingRecovery. destruct (blank rid); [intros [= <- <-]; by apply kept_refl|].
  destruct (Z.ltb_spec q 0); cbn [orb]; [intros [= <- <-]; by apply kept_refl|].
  destruct (0 <? q).
  - apply mutation_ledgered; [done|]. intros now d a d' Hd _. by apply preConsumeWalletTx_ledgered.
  - apply transaction_ledgered; [done|]. intros now a d'. by apply preConsumeWalletTx_ledgered.
Qed.

Lemma reserve_ledgered rid tgt delta unl w r w' :
  ledger_ok (w_db w) → ReserveBillingRecovery rid tgt delta unl w = (r, w') → ledger_ok (w_db w') ∧ sums_kept w w'.
Proof.
  intros Hok. unfold ReserveBillingRecovery. destruct (_ || _); [intros [= <- <-]; by apply kept_refl|].
  apply mutation_ledgered; [done|]. intros now d a d' Hd _. by apply reserveTx_ledgered.
Qed.

Lemma adjustment_ledgered rid c o w r w' :
  ledger_ok (w_db w) → amounts_ok (w_db w) → ApplyBillingRecoveryAdjustment rid c o w = (r, w') →
  ledger_ok (w_db w') ∧ sums_kept w w'.
Proof.
  intros Hok Ham. unfold ApplyBillingRecoveryAdjustment. destruct (blank rid); [intros [= <- <-]; by apply kept_refl|].
  destruct (negb _) eqn:Hc; [intros [= <- <-]; by apply kept_refl|]. clear Hc.
  destruct (negb _) eqn:Ho; [intros [= <- <-]; by apply kept_refl|].
  rewrite negb_false_iff, orb_true_iff, !bool_decide_eq_true in Ho.
  apply mutation_ledgered; [done|]. intros now d a d' Hd Eb H.
  eapply adjustmentTx_ledgered; [done| |done|done]. intros k row c' o'. rewrite Eb. apply Ham.
Qed.

(** One call of the interface, with any pattern of failures. *)
Lemma ledger_op_moves op w r w' :
  ledger_ok (w_db w) → amounts_ok (w_db w) → ledger_op_ok op → run_ledger_op op w = (r, w') → op_moves op w w'.
Proof.
  intros Hok Ham Hop H. destruct op as [input|rid e|rid s f e t|rid delta|rid|rid e|rid|rid e|rid q unl|rid tgt delta unl|rid c o];
    try (by apply sync_moves in H); try (by apply mark_refund_moves in H); apply op_moves_kept; try done; cbn [run_ledger_op] in H.
  - unfold mbind, M_bind in H. destruct (EnsureBillingRecovery input w) as [[row|e] w1] eqn:E; mret H;
      by eapply Ensure_ledgered.
  - by eapply abort_ledgered.
  - by eapply settlement_ledgered.
  - by eapply touch_ledgered.
  - by eapply settled_ledgered.
  - by eapply refunded_ledgered.
  - by eapply preconsume_ledgered.
  - unfold mbind, M_bind in H. destruct (ReserveBillingRecovery rid tgt delta unl w) as [[n|e] w1] eqn:E; mret H;
      by eapply reserve_ledgered.
  - by eapply adjustment_ledgered.
Qed.

(** ** Runs *)

(** Any interleaving of calls; [fw] and [ft] add up the declared amounts.
    Between calls time passes, the cache changes, goroutines run and other
    calls fail ([ledger_run_env]). *)
Inductive ledger_run : world → (Z → Z) → (Z → Z) → world → Prop :=
  | ledger_run_nil w : ledger_run w (λ _, 0) (λ _, 0) w
  | ledger_run_step w op r w1 fw ft w' :
      amounts_ok (w_db w) → ledger_op_ok op → run_ledger_op op w = (r, w1) → ledger_run w1 fw ft w' →
      ledger_run w (λ u, declared_wallet op (w_db w) (w_db w1) u + fw u)
                   (λ t, declared_token op (w_db w) (w_db w1) t + ft t) w'
  | ledger_run_env w w1 fw ft w' :
      w_db w1 = w_db w → w_batch w1 = w_batch w → ledger_run w1 fw ft w' → ledger_run w fw ft w'.

(** C6: no interleaving of billing calls creates or loses quota.  Whatever
    database and Redis calls fail, and in whatever order requests, retries
    and the recovery worker call the billing operations, a user's wallet
    balance plus what the wallet-funded requests hold of it changes only by
    the amounts that sessions declare; the same for every token. *)
Theorem billing_conserves_quota (w w' : world) (fw ft : Z → Z)
    (Hok : ledger_ok (w_db w)) (Hrun : ledger_run w fw ft w') :
  ledger_ok (w_db w') ∧
  (∀ u, wallet_sum w' u = wallet_sum w u + fw u) ∧ (∀ t, 0 < t → token_sum w' t = token_sum w t + ft t).
Proof.
  induction Hrun as [w|w op r w1 fw ft w' Ham Hop Hr Hrun IH|w w1 fw ft w' Ed Eb Hrun IH].
  - split_and!; try done; intros; lia.
  - apply ledger_op_moves in Hr as [Hok1 [M1 M2]]; [|done..]. destruct (IH Hok1) as (? & H1 & H2). split_and!; [done|..].
    + intros u. rewrite H1, M1. lia.
    + intros t Ht. rewrite H2, M2 by done. lia.
  - rewrite Ed in IH. destruct (IH Hok) as (? & H1 & H2).
    assert (sums_kept w w1) as [K1 K2] by (apply sums_of_tables; [done|]; rewrite Ed; apply conserved_refl).
    split_and!; [done|..]; intros; rewrite ?H1, ?H2, ?K1, ?K2 by done; lia.
Qed.

(** *** A run on concrete data *)

Definition row_amounts_ok (r : BillingRecovery) : Prop :=
  negatable (br_FundingAmount r) ∧ negatable (br_ExtraAmount r) ∧ negatable (br_TokenAmount r) ∧
  negatable (br_SettlementDelta r).
#[global] Instance negatable_dec z : Decision (negatable z).
Proof. unfold negatable. apply _. Defined.
#[global] Instance row_amounts_ok_dec r : Decision (row_amounts_ok r).
Proof. unfold row_amounts_ok. apply _. Defined.

Definition amounts_check (d : db) : bool := bool_decide (map_Forall (λ _, row_amounts_ok) (billing_recoveries d)).
Lemma amounts_check_ok d : amounts_check d = true → amounts_ok d.
Proof.
  unfold amounts_check. rewrite bool_decide_eq_true. intros H rid r c o Hr. destruct (H _ _ Hr) as (H1 & H2 & H3 & H4).
  destruct c, o; cbn; try done; unfold negatable, min_i64, max_i64; lia.
Qed.

Definition run_ops (ops : list ledger_op) (w : world) : world := foldl (λ w op, exec (run_ledger_op op) w) w ops.
Fixpoint checked_ops (ops : list ledger_op) (w : world) : bool :=
  match ops with [] => true | op :: ops => amounts_check (w_db w) && checked_ops ops (exec (run_ledger_op op) w) end.

Lemma run_ops_ledger_run ops w :
  Forall ledger_op_ok ops → checked_ops ops w = true → ∃ fw ft, ledger_run w fw ft (run_ops ops w).
Proof.
  intros Hops. revert w. induction Hops as [|op ops Hop Hops IH]; intros w Hc; [eexists _, _; constructor|].
  cbn in Hc. apply andb_true_iff in Hc as [H1 H2]. destruct (IH _ H2) as (fw & ft & Hr).
  eexists _, _. eapply ledger_run_step; [by apply amounts_check_ok|done|apply surjective_pairing|exact Hr].
Qed.

Definition wallet_input (rid : string) : BillingRecoveryInput := MkInput rid 7 11 SourceWallet 0 0 true.

Lemma ledger_ok_empty d : billing_recoveries d = ∅ → adjustments d = ∅ → ledger_ok d.
Proof.
  intros E1 E2. split; [intros rid r; by rewrite E1, lookup_empty|].
  intros rid c o. rewrite E2, lookup_empty. by intros [].
Qed.

(** The third database call fails, the reservation is extended, and the
    request is refunded twice over. *)
Definition sample_ops : list ledger_op :=
  [LEnsure (wallet_input "r1"); LPreConsume "r1" 30 false; LPreConsume "r1" 30 false; LReserve "r1" 50 20 false;
   LMarkRefundPending "r1" None; LAdjust "r1" ComponentFunding OperationRefund;
   LAdjust "r1" ComponentFunding OperationRefund; LAdjust "r1" ComponentToken OperationRefund; LMarkRefunded "r1" None].
Definition sample_world : world :=
  world_of db_of_two <| w_oracle := [None; None; Some "connection lost"] |>
    <| w_batch := empty_batch <| b_UserQuota := {[7 := -40]} |> |> <| w_BatchUpdateEnabled := true |>.

Lemma billing_conserves_quota_witness :
  wallet_balance (run_ops (take 4 sample_ops) sample_world) 7 = 10 ∧
  wallet_balance (run_ops sample_ops sample_world) 7 = 60 ∧
  ∃ fw, wallet_sum (run_ops sample_ops sample_world) 7 = wallet_sum sample_world 7 + fw 7.
Proof.
  split; [by vm_compute|]. split; [by vm_compute|].
  destruct (run_ops_ledger_run sample_ops sample_world) as (fw & ft & Hrun);
    [by repeat constructor|by vm_compute|]. exists fw.
  revert Hrun. generalize (run_ops sample_ops sample_world) as w'. intros w' Hrun.
  assert (ledger_ok (w_db sample_world)) as Hok by (by apply ledger_ok_empty).
  exact (proj1 (proj2 (billing_conserves_quota sample_world w' fw ft Hok Hrun)) 7).
Defined.
