(* ===== verification/Credits.v ===== *)
(** * Quota enters a wallet once

    The operations of Affiliate.v and TopUp.v that pay into wallets, in one
    run with the billing operations of BillingLedger.v.  What can be paid out
    is a [source]: an order, a redemption code, an activity, a check-in day, a
    transfer of affiliate quota.  A source is [closed] once it cannot be paid
    out any more, and no operation opens a closed source again (editing a code
    as an administrator apart, see CodeEdits.v). *)

From S2P Require Import GoStrings.
From S2P Require Import Prelude QuotaMath Store Calendar QuotaBatch QuotaReserve Affiliate TopUp Subscription BillingRecovery BillingLedger.
From Stdlib Require Import QArith SpecFloat.
#[local] Open Scope string_scope.
#[local] Open Scope Z_scope.

(** ** Sources *)

Inductive source :=
  | SrcOrder (tradeNo : string)
  | SrcCode (key : string)
  | SrcActivity (user : Z) (activity : string)
  | SrcCheckin (user : Z) (date : string)
  | SrcTransfer (uuid : string).
#[global] Instance source_eq_dec : EqDecision source.
Proof. solve_decision. Defined.

Definition closed (d : db) (s : source) : Prop :=
  match s with
  | SrcOrder t => ∃ r, topups d !! t = Some r ∧ tp_Status r ≠ TopUpStatusPending
  | SrcCode k => ∃ r, redemptions d !! k = Some r ∧ rd_Status r ≠ RedemptionCodeStatusEnabled
  | SrcActivity u a => is_Some (activity_claims d !! (u, a))
  | SrcCheckin u day => is_Some (checkins d !! (u, day))
  | SrcTransfer uuid => is_Some (affiliate_ledgers d !! ("transfer:" +:+ uuid))
  end.

(** A payment: what was paid out, to whom, and what reached the wallet. *)
Record credit := MkCredit { cr_source : source; cr_user : Z; cr_amount : Z }.

Definition paid_to (u : Z) (cs : list credit) : Z :=
  foldr (λ c acc, (if decide (cr_user c = u) then cr_amount c else 0) + acc) 0 cs.

(** ** Operations *)

Inductive credit_op :=
  | CInsertTopUp (tradeNo : string) (row : TopUp)
  | CUpdateTopUp (tradeNo : string) (row : TopUp)
  | CUpdatePending (tradeNo provider status : string)
  | CEpay (tradeNo method : string)
  | CStripe (tradeNo customer : string)
  | CCreem (tradeNo email : string)
  | CWaffo (tradeNo : string)
  | CWaffoPancake (tradeNo : string)
  | CManual (tradeNo : string)
  | CRedeem (key : string) (user : Z)
  | CInsertCode (key : string) (row : Redemption)
  | CDeleteCode (id : Z)
  | CBatchDelete (ids : list Z)
  | CDeleteInvalid
  | CClaim (user : Z) (activity : string) (reward : Z)
  | CCheckin (sqlite : bool) (setting : CheckinSetting) (random : Z) (today : string) (user : Z)
  | CTransfer (uuid : string) (user amount : Z)
  | CThaw (user : Z)
  | CInvite (inviter : Z).

Section credits.
Context {D : Type} `{DecimalArith D} (o : affiliate_options).

Definition run_credit_op (op : credit_op) : M world unit :=
  match op with
  | CInsertTopUp t r => InsertTopUp t r
  | CUpdateTopUp t r => UpdateTopUp t r
  | CUpdatePending t p s => UpdatePendingTopUpStatus t p s
  | CEpay t m => _ ← RechargeEpay o t m; mret tt
  | CStripe t c => Recharge o t c
  | CCreem t e => RechargeCreem o t e
  | CWaffo t => RechargeWaffo o t
  | CWaffoPancake t => RechargeWaffoPancake o t
  | CManual t => ManualCompleteTopUp o t
  | CRedeem k u => _ ← Redeem k u; mret tt
  | CInsertCode k r => InsertRedemption k r
  | CDeleteCode id => DeleteRedemptionById id
  | CBatchDelete ids => _ ← BatchDeleteRedemptions ids; mret tt
  | CDeleteInvalid => _ ← DeleteInvalidRedemptions; mret tt
  | CClaim u a q => ClaimActivityReward u a q
  | CCheckin b s r day u => _ ← UserCheckin b s r day u; mret tt
  | CTransfer uuid u q => _ ← TransferAffiliateQuota o uuid u q; mret tt
  | CThaw u => _ ← ThawAffiliateQuota u; mret tt
  | CInvite u => inviteUser o u
  end.

(** A row that is written back is not pending any more; a status that is set
    directly is final. *)
Definition credit_op_ok (op : credit_op) : Prop :=
  match op with
  | CUpdateTopUp _ r => tp_Status r ≠ TopUpStatusPending
  | CUpdatePending _ _ s => s ≠ TopUpStatusPending
  | _ => True
  end.

Definition if_user (d : db) (u q : Z) : Z := match users d !! u with Some _ => q | None => 0 end.

(** What an operation pays out when it does. *)
Definition credit_of (op : credit_op) (d : db) : option credit :=
  let order t quota :=
    match topups d !! t with
    | Some r => match quota r with Ok q => Some (MkCredit (SrcOrder t) (tp_UserId r) q) | Err _ => None end
    | None => None
    end in
  match op with
  | CEpay t _ | CWaffo t | CWaffoPancake t => order t (quota_of_amount o)
  | CStripe t _ => order t (quota_of_money o)
  | CCreem t _ => order t (quota_as_amount (D:=D))
  | CManual t => order t (manual_quota o)
  | CRedeem k u =>
      match redemptions d !! k with Some r => Some (MkCredit (SrcCode k) u (if_user d u (rd_Quota r))) | None => None end
  | CClaim u a q => Some (MkCredit (SrcActivity u a) u q)
  | CCheckin _ s r day u => Some (MkCredit (SrcCheckin u day) u (if_user d u (checkin_reward s r)))
  | CTransfer uuid u q => Some (MkCredit (SrcTransfer uuid) u q)
  | _ => None
  end.

(** ** One step *)

(** The tables of billing and every wallet but the credited one are kept, no
    closed source opens, and a credit closes an open source. *)
Record credit_step (d d' : db) (c : option credit) : Prop := {
  cs_books : same_books d d';
  cs_tokens : tokens d' = tokens d;
  cs_quota : ∀ u, db_quota d' u = db_quota d u + paid_to u (option_list c);
  cs_closed : ∀ s, closed d s → closed d' s;
  cs_credit : ∀ x, c = Some x → ¬ closed d (cr_source x) ∧ closed d' (cr_source x)
}.

Lemma credit_step_refl d : credit_step d d None.
Proof. split; try done. intros u. cbn. lia. Qed.

Lemma credit_step_trans d1 d2 d3 c :
  credit_step d1 d2 None → credit_step d2 d3 c → credit_step d1 d3 c.
Proof.
  intros [[A1 A2] A3 A4 A5 _] [[B1 B2] B3 B4 B5 B6]. split; [split; congruence|congruence| |auto|].
  - intros u. rewrite B4, A4. cbn. lia.
  - intros x Hx. destruct (B6 x Hx) as [H1 H2]. split; [|done]. intros H3. by apply H1, A5.
Qed.

Lemma credit_step_after d1 d2 d3 c :
  credit_step d1 d2 c → credit_step d2 d3 None → credit_step d1 d3 c.
Proof.
  intros [[A1 A2] A3 A4 A5 A6] [[B1 B2] B3 B4 B5 _]. split; [split; congruence|congruence| |auto|].
  - intros u. rewrite B4, A4. cbn. lia.
  - intros x Hx. destruct (A6 x Hx) as [H1 H2]. auto.
Qed.
End credits.

(** ** Statements that pay nothing *)

Definition Quiet {A} (m : M db A) : Prop := ∀ d, credit_step d (m d).2 None.

Lemma quiet_bind {A B} (m : M db A) (k : A → M db B) : Quiet m → (∀ a, Quiet (k a)) → Quiet (m ≫= k).
Proof.
  intros Hm Hk d. unfold mbind, M_bind. specialize (Hm d). destruct (m d) as [[a|e] d1]; cbn in *; [|done].
  eapply credit_step_trans; [done|apply Hk].
Qed.
Lemma quiet_same {A} (m : M db A) : (∀ d, (m d).2 = d) → Quiet m.
Proof. intros Hm d. rewrite Hm. apply credit_step_refl. Qed.
Lemma quiet_ret {A} (a : A) : Quiet (mret a).
Proof. by apply quiet_same. Qed.
Lemma quiet_fail {A} e : Quiet (fail (A:=A) e).
Proof. by apply quiet_same. Qed.
Lemma quiet_gets {A} (f : db → A) : Quiet (gets f).
Proof. by apply quiet_same. Qed.
Lemma quiet_lift_res {A} (r : res A) : Quiet (lift_res r).
Proof. by apply quiet_same. Qed.
Lemma quiet_FIRST {K R} `{Countable K} (tbl : db → gmap K R) k : Quiet (FIRST tbl k).
Proof. apply quiet_same. intros d. unfold FIRST. by destruct (tbl d !! k). Qed.
Lemma quiet_try {A} (m : M db A) : Quiet m → Quiet (try m).
Proof. intros Hm d. unfold try. specialize (Hm d). by destruct (m d). Qed.

(** A ledger that keeps its keys keeps closed transfers. *)
Lemma quiet_ledger d L :
  (∀ k, is_Some (affiliate_ledgers d !! k) → is_Some (L !! k)) → credit_step d (d <| affiliate_ledgers := L |>) None.
Proof.
  intros HL. split; try done; [intros u; unfold db_quota; cbn; lia|]. intros [t|k|u a|u day|uuid] Hs; try exact Hs.
  by apply HL.
Qed.
Lemma quiet_CREATE_ledger k r : Quiet (CREATE affiliate_ledgers k r).
Proof.
  intros d. unfold CREATE. destruct (affiliate_ledgers d !! k) eqn:E; [apply credit_step_refl|]. apply quiet_ledger.
  intros k' Hk'. rewrite lookup_insert. by case_decide.
Qed.

(** Changing columns of a user. *)
Lemma step_user d u r r' (c : option credit) :
  users d !! u = Some r → (∀ u', paid_to u' (option_list c) = if decide (u = u') then u_Quota r' - u_Quota r else 0) →
  (∀ x, c = Some x → ¬ closed d (cr_source x) ∧ closed (d <| users := <[u := r']> (users d) |>) (cr_source x)) →
  credit_step d (d <| users := <[u := r']> (users d) |>) c.
Proof.
  intros Hr Hp Hc. split; try done. intros u'. rewrite (db_quota_insert d u (λ _, r') r Hr), Hp. lia.
Qed.
Lemma quiet_UPDATE_user u cond f : (∀ r, u_Quota (f r) = u_Quota r) → Quiet (UPDATE users u cond f).
Proof.
  intros Hf d. unfold UPDATE. destruct (users d !! u) as [r|] eqn:E; [|apply credit_step_refl].
  destruct (cond r); [|apply credit_step_refl]. cbn. apply (step_user _ _ r); [done| |done].
  intros u'. rewrite Hf. cbn. case_decide; lia.
Qed.

Create HintDb quiet.
#[export] Hint Resolve quiet_ret quiet_fail quiet_gets quiet_lift_res quiet_FIRST quiet_CREATE_ledger : quiet.
Ltac quiet_tac :=
  repeat first
    [ solve [auto with quiet]
    | apply quiet_bind; [|intros ?]
    | apply quiet_try
    | match goal with |- Quiet (if ?b then _ else _) => destruct b end
    | match goal with |- Quiet (match ?x with _ => _ end) => destruct x end ].

Section quiet_ops.
Context {D : Type} `{DecimalArith D} (o : affiliate_options).

Lemma quiet_accrue now src key i rate q : Quiet (accrueTx o now src key i rate q).
Proof. unfold accrueTx. quiet_tac; apply quiet_UPDATE_user; intros r; by destruct (0 <? AffiliateFreezeHours o). Qed.

Lemma quiet_reward now src : Quiet (ApplyAffiliateRewardTx o now src).
Proof.
  pose proof quiet_accrue. unfold ApplyAffiliateRewardTx, rewardInviterTx, createAffiliateSkipTx. quiet_tac.
Qed.

Lemma quiet_topup_reward now t r : Quiet (applyTopUpAffiliateRewardTx o now t r).
Proof. unfold applyTopUpAffiliateRewardTx. pose proof quiet_reward. quiet_tac. Qed.

Lemma quiet_thaw now u : Quiet (ThawAffiliateQuotaTx now u).
Proof.
  unfold ThawAffiliateQuotaTx. quiet_tac; [|by apply quiet_UPDATE_user].
  intros d. cbn. apply quiet_ledger. intros k. rewrite lookup_fmap. by intros [r ->].
Qed.
End quiet_ops.

(** ** Paying an order *)

Lemma creditTopUpQuota_inv u q f d d' :
  creditTopUpQuota u q f d = (Ok tt, d') →
  ∃ r, users d !! u = Some r ∧ 0 < q < MaxQuota ∧ u_Quota r <= MaxQuota - 1 - q ∧
    d' = d <| users := <[u := f r <| u_Quota := u_Quota r + q |>]> (users d) |>.
Proof.
  unfold creditTopUpQuota, topUpQuotaMaxCurrent. intros (m & d1 & H1 & H2)%bind_inv.
  destruct (_ || _) eqn:Hq; [done|]. injection H1 as <- <-. apply orb_false_iff in Hq as [?%Z.leb_gt ?%Z.leb_gt].
  mstep H2. apply UPDATE_inv in Hs as [(r & Hr & Hc & -> & ->)|[-> ->]].
  - cbn in H2. injection H2 as <-. apply Z.leb_le in Hc. exists r. split_and!; [done|lia|lia|lia|done].
  - cbn in H2. mstep H2. mret Hs. by destruct (users d !! u).
Qed.

Lemma or_else_inv {S A} (m : M S A) e s a s' :
  or_else m e s = (Ok a, s') → m s = (Ok a, s').
Proof. unfold or_else. unfold_m. destruct (m s) as [[x|err] s1]; [|done]. done. Qed.

(** Writing the row of an order, with a credit or without. *)
Lemma step_order d t r r' :
  topups d !! t = Some r → tp_Status r' ≠ TopUpStatusPending →
  credit_step d (d <| topups := <[t := r']> (topups d) |>) None.
Proof.
  intros Hr Hr'. split; try done; [intros u; unfold db_quota; cbn; lia|].
  intros [t'|k|u a|u day|uuid] Hs; try exact Hs. destruct Hs as (r1 & E1 & E2). cbn.
  destruct (decide (t = t')) as [->|Hne]; [exists r'|exists r1]; rewrite lookup_insert; by case_decide.
Qed.

(** The shape of every completion: the order was pending, is saved as
    successful and its user is credited. *)
Lemma step_complete d d2 t r r' u q f :
  topups d !! t = Some r → tp_Status r = TopUpStatusPending → tp_Status r' ≠ TopUpStatusPending →
  creditTopUpQuota u q f (d <| topups := <[t := r']> (topups d) |>) = (Ok tt, d2) →
  credit_step d d2 (Some (MkCredit (SrcOrder t) u q)).
Proof.
  intros Hr Hp Hr' (x & Hx & Hq & _ & ->)%creditTopUpQuota_inv. cbn in *. split; try done.
  - intros u'. unfold db_quota. cbn. rewrite lookup_insert. case_decide as E; [subst; rewrite Hx; cbn; lia|lia].
  - intros s Hs. pose proof (cs_closed _ _ _ (step_order d t r r' Hr Hr') s Hs) as Hs'. by destruct s.
  - intros ? [= <-]. cbn. split; [intros (r1 & E1 & E2); congruence|]. exists r'. by rewrite lookup_insert_eq.
Qed.

(** ** The bodies of the transactions *)

(** A body that reports what it credited. *)
Definition order_body (t : string) (quota : TopUp → res Z) (m : M db (option (Z * Z))) : Prop :=
  ∀ d a d', m d = (Ok a, d') →
  (a = None ∧ d' = d ∧ tp_Status <$> topups d !! t = Some TopUpStatusSuccess) ∨
  (∃ r q, a = Some (tp_UserId r, q) ∧ topups d !! t = Some r ∧ tp_Status r = TopUpStatusPending ∧ quota r = Ok q ∧
     credit_step d d' (Some (MkCredit (SrcOrder t) (tp_UserId r) q)) ∧ db_quota d' (tp_UserId r) < MaxQuota).

(** Step over the guards of a body. *)
Ltac guards H :=
  repeat match type of H with
  | (if ?b then _ else _) ?d = _ => let E := fresh "E" in destruct b eqn:E; [try discriminate H|try discriminate H]
  end.
Lemma lift_res_inv {S A} (r : res A) (s : S) a s' : lift_res r s = (Ok a, s') → r = Ok a ∧ s' = s.
Proof. by intros [= -> ->]. Qed.
Lemma SAVE_inv {K R} `{Countable K} (tbl : db → gmap K R) `{!Upd tbl} k r d x d' :
  SAVE tbl k r d = (Ok x, d') → d' = d <| tbl := <[k := r]> (tbl d) |>.
Proof. by intros [= _ <-]. Qed.

Section bodies.
Context {D : Type} `{DecimalArith D} (o : affiliate_options).

(** After the credit comes the reward of the inviter, which pays nothing. *)
Lemma pay_then_reward t r r' u q f now x d d1 d2 d3 a :
  topups d !! t = Some r → tp_Status r = TopUpStatusPending → tp_Status r' ≠ TopUpStatusPending →
  d1 = d <| topups := <[t := r']> (topups d) |> →
  creditTopUpQuota u q f d1 = (Ok tt, d2) → applyTopUpAffiliateRewardTx o now t x d2 = (Ok a, d3) →
  credit_step d d3 (Some (MkCredit (SrcOrder t) u q)) ∧ db_quota d3 u < MaxQuota.
Proof.
  intros Hr Hp Hr' -> Hc Ha. pose proof (quiet_topup_reward o now t x d2) as Hq. rewrite Ha in Hq. cbn in Hq. split.
  - eapply credit_step_after; [by eapply step_complete|done].
  - rewrite (cs_quota _ _ _ Hq). apply creditTopUpQuota_inv in Hc as (y & Hy & _ & Hc & ->). unfold db_quota. cbn.
    rewrite lookup_insert_eq. cbn. lia.
Qed.

Lemma pending_status r : negb (bool_decide (tp_Status r = TopUpStatusPending)) = false → tp_Status r = TopUpStatusPending.
Proof. by intros ?%negb_false_iff%bool_decide_eq_true. Qed.

(** The last three statements of a completion. *)
Ltac finish_order H r Hr :=
  right; exists r;
  repeat match type of H with (_ ≫= _) _ = _ => mstep H end;
  repeat match goal with
  | Hs : lift_res _ _ = _ |- _ => apply lift_res_inv in Hs as [? ->]
  | Hs : SAVE _ _ _ _ = _ |- _ => apply SAVE_inv in Hs
  end;
  injection H as <- <-;
  eexists; split; [reflexivity|]; split; [exact Hr|]; split; [by apply pending_status|]; split; [eassumption|];
  match goal with x : unit |- _ => destruct x end;
  repeat match goal with x : unit |- _ => destruct x end;
  eapply pay_then_reward; [exact Hr|by apply pending_status|..|eassumption|eassumption|eassumption]; done.

Lemma epay_body now t m : order_body t (quota_of_amount o) (rechargeEpayTx o now t m).
Proof.
  intros d a d' H0. unfold rechargeEpayTx in H0. mstep H0. apply or_else_inv, FIRST_inv in Hs as [Hr ->]. guards H0.
  { left. injection H0 as <- <-. rewrite Hr. cbn. split_and!; [done..|]. f_equal. by eapply bool_decide_eq_true_1. }
  destruct (_ && _) in H0; cbv zeta in H0; finish_order H0 x Hr.
Qed.

Lemma stripe_body now t c : order_body t (quota_of_money o) (rechargeTx o now t c).
Proof.
  intros d a d' H0. unfold rechargeTx in H0. mstep H0. apply or_else_inv, FIRST_inv in Hs as [Hr ->]. guards H0.
  finish_order H0 x Hr.
Qed.

Lemma creem_body now t e : order_body t (quota_as_amount (D:=D)) (rechargeCreemTx o now t e).
Proof.
  intros d a d' H0. unfold rechargeCreemTx in H0. mstep H0. apply or_else_inv, FIRST_inv in Hs as [Hr ->]. guards H0.
  mstep H0. apply SAVE_inv in Hs. mstep H0. apply lift_res_inv in Hs0 as [Hq ->]. mstep H0.
  assert (d1 = d0) as -> by (destruct (bool_decide (e = "")); [by injection Hs0|mstep Hs0; apply FIRST_inv in Hs1 as [_ ->]; by injection Hs0]).
  finish_order H0 x Hr.
Qed.

Lemma waffo_body p now t : order_body t (quota_of_amount o) (rechargeWaffoTx o p now t).
Proof.
  intros d a d' H0. unfold rechargeWaffoTx in H0. mstep H0. apply or_else_inv, FIRST_inv in Hs as [Hr ->]. guards H0.
  { left. injection H0 as <- <-. rewrite Hr. cbn. split_and!; [done..|]. f_equal. by eapply bool_decide_eq_true_1. }
  finish_order H0 x Hr.
Qed.

Lemma manual_body now t : order_body t (manual_quota o) (manualCompleteTx o now t).
Proof.
  intros d a d' H0. unfold manualCompleteTx in H0. mstep H0. apply or_else_inv, FIRST_inv in Hs as [Hr ->]. guards H0.
  { left. injection H0 as <- <-. rewrite Hr. cbn. split_and!; [done..|]. f_equal. by eapply bool_decide_eq_true_1. }
  finish_order H0 x Hr.
Qed.
End bodies.

(** *** Codes, activities, check-ins, transfers *)

(** [UPDATE users SET quota = quota + q WHERE id = u] *)
Lemma pay_user u q d n d' :
  UPDATE users u (λ _, true) (λ r, r <| u_Quota ::= (λ x, x + q) |>) d = (Ok n, d') →
  (∀ u', db_quota d' u' = db_quota d u' + (if decide (u = u') then if_user d u q else 0)) ∧
  same_books d d' ∧ tokens d' = tokens d ∧ (∀ s, closed d s → closed d' s) ∧ (n = 1 → is_Some (users d !! u)).
Proof.
  unfold if_user, UPDATE. destruct (users d !! u) as [r|] eqn:Hr; intros [= <- <-]; split_and!; try done; intros u'.
  - rewrite (db_quota_insert d u (λ r, r <| u_Quota ::= (λ x, x + q) |>) r Hr). cbn. case_decide; lia.
  - case_decide; lia.
Qed.

(** A source is closed, then its user is paid. *)
Lemma close_then_pay s u q d d1 n d2 :
  UPDATE users u (λ _, true) (λ r, r <| u_Quota ::= (λ x, x + q) |>) d1 = (Ok n, d2) →
  users d1 = users d → credit_step d d1 None → ¬ closed d s → closed d1 s →
  credit_step d d2 (Some (MkCredit s u (if_user d u q))).
Proof.
  intros (B1 & [B2 B3] & B4 & B5 & _)%pay_user Eu [[A1 A2] A3 A4 A5 _] Ho Hc. split; [split; congruence|congruence| |auto|].
  - intros u'. rewrite B1, A4. unfold if_user. rewrite Eu. cbn. case_decide; lia.
  - intros ? [= <-]. auto.
Qed.

Lemma step_code d k r r' :
  redemptions d !! k = Some r → (rd_Status r' = RedemptionCodeStatusEnabled → rd_Status r = RedemptionCodeStatusEnabled) →
  credit_step d (d <| redemptions := <[k := r']> (redemptions d) |>) None.
Proof.
  intros Hr Hr'. split; try done; [intros u; unfold db_quota; cbn; lia|].
  intros [t|k'|u a|u day|uuid] Hs; try exact Hs. destruct Hs as (r1 & E1 & E2). cbn.
  destruct (decide (k = k')) as [->|Hne]; [exists r'|exists r1]; rewrite lookup_insert; case_decide; naive_solver.
Qed.

Lemma redeem_body now k u d x d' :
  redeemTx now k u d = (Ok x, d') →
  ∃ r, redemptions d !! k = Some r ∧ x = (u, rd_Quota r) ∧
    credit_step d d' (Some (MkCredit (SrcCode k) u (if_user d u (rd_Quota r)))).
Proof.
  unfold redeemTx, FIRST_code. intros H0. mstep H0. apply or_else_inv in Hs. mstep Hs. apply FIRST_inv in Hs0 as [Hr ->].
  destruct (rd_Deleted x1) eqn:Ed; [done|]. injection Hs as <- <-. guards H0. apply negb_false_iff, Z.eqb_eq in E.
  mstep H0. apply UPDATE_inv in Hs as [(r & Hr1 & _ & -> & ->)|[-> ->]]; [|done]. assert (r = x1) as -> by congruence.
  cbn in H0. mstep H0. injection H0 as <- <-. exists x1. split_and!; [done|done|].
  eapply close_then_pay; [exact Hs|done| |intros (r & E1 & E2); congruence|].
  - apply (step_code d k x1); [done|]. cbn. done.
  - eexists. cbn. by rewrite lookup_insert_eq.
Qed.

Lemma step_activity d k c :
  credit_step d (d <| activity_claims := <[k := c]> (activity_claims d) |>) None.
Proof.
  split; try done; [intros u; unfold db_quota; cbn; lia|].
  intros [t|k'|u a|u day|uuid] Hs; try exact Hs. cbn in *. rewrite lookup_insert. by case_decide.
Qed.
Lemma step_checkin d k c :
  credit_step d (d <| checkins := <[k := c]> (checkins d) |>) None.
Proof.
  split; try done; [intros u; unfold db_quota; cbn; lia|].
  intros [t|k'|u a|u day|uuid] Hs; try exact Hs. cbn in *. rewrite lookup_insert. by case_decide.
Qed.

Lemma claim_body now u a q d x d' :
  claimTx now u a q d = (Ok x, d') → x = (u, q) ∧ credit_step d d' (Some (MkCredit (SrcActivity u a) u q)).
Proof.
  unfold claimTx. intros H0. mstep H0. injection Hs as <- <-. destruct (activity_claims d !! (u, a)) eqn:E; [done|].
  mstep H0. apply CREATE_inv in Hs as [_ ->]. mstep H0. destruct (x1 =? 1) eqn:E1; [|done]. injection H0 as <- <-. split; [done|].
  pose proof (pay_user _ _ _ _ _ Hs) as (_ & _ & _ & _ & Hu). destruct (Hu ltac:(lia)) as [r Hr]. cbn in Hr.
  replace q with (if_user d u q) at 1 by (unfold if_user; by rewrite Hr).
  eapply close_then_pay; [exact Hs|done|apply step_activity|cbn; rewrite E; by intros []|].
  cbn. by rewrite lookup_insert_eq.
Qed.

Lemma create_checkin_inv now u day q d x d' :
  create_checkin now u day q d = (Ok x, d') →
  checkins d !! (u, day) = None ∧ d' = d <| checkins := <[(u, day) := MkCheckin q now]> (checkins d) |>.
Proof. by intros H%or_else_inv%CREATE_inv. Qed.

Lemma checkin_body now u day q d x d' :
  checkinTx now u day q d = (Ok x, d') →
  x = (u, q) ∧ credit_step d d' (Some (MkCredit (SrcCheckin u day) u (if_user d u q))).
Proof.
  unfold checkinTx. intros H0. mstep H0. apply create_checkin_inv in Hs as [E ->]. mstep H0. injection H0 as <- <-. split; [done|].
  eapply close_then_pay; [exact Hs|done|apply step_checkin|cbn; rewrite E; by intros []|].
  cbn. by rewrite lookup_insert_eq.
Qed.

Lemma transfer_body uuid now u q d x d' :
  transferTx uuid now u q d = (Ok x, d') → credit_step d d' (Some (MkCredit (SrcTransfer uuid) u q)).
Proof.
  unfold transferTx. intros H0. mstep H0. pose proof (quiet_thaw now u d) as Q. rewrite Hs in Q. cbn in Q. clear Hs.
  mstep H0. apply FIRST_inv in Hs as [Hu ->]. guards H0. mstep H0.
  unfold UPDATE in Hs. rewrite Hu in Hs. injection Hs as <- <-. mstep H0. apply FIRST_inv in Hs as [_ ->]. mstep H0. apply CREATE_inv in Hs as [En ->].
  injection H0 as _ <-. eapply credit_step_trans; [exact Q|]. cbn in En. split; try done.
  - intros u'. unfold db_quota. cbn. rewrite lookup_insert. case_decide as E'; [subst; rewrite Hu; cbn; lia|lia].
  - intros [t|k|v a|v day|id] Hs; try exact Hs. cbn in *. rewrite lookup_insert. by case_decide.
  - intros ? [= <-]. cbn. rewrite lookup_insert_eq. split; [rewrite En; by intros []|done].
Qed.

(** ** Operations of the process *)

(** The call credits nothing or what [f] says of the tables it started on. *)
Definition pays_out (f : db → option credit) (w w' : world) : Prop :=
  w_batch w' = w_batch w ∧
  ∃ c, (c = None ∨ c = f (w_db w)) ∧ credit_step (w_db w) (w_db w') c.

Lemma pays_out_nothing f w w' :
  w_batch w' = w_batch w → credit_step (w_db w) (w_db w') None → pays_out f w w'.
Proof. intros Eb Hs. split; [done|]. eauto. Qed.
Lemma pays_out_same f w w' : w_batch w' = w_batch w → w_db w' = w_db w → pays_out f w w'.
Proof. intros Eb Ed. apply pays_out_nothing; [done|]. rewrite Ed. apply credit_step_refl. Qed.
Lemma pays_out_then f w w1 w2 : pays_out f w w1 → same_store w1 w2 → pays_out f w w2.
Proof.
  intros [Eb (c & Hc & Hs)] (Ed & Eb' & _). split; [congruence|]. exists c. by rewrite Ed.
Qed.

Lemma transaction_pays {A} f (body : Z → M db A) w r w' :
  transaction body w = (r, w') →
  (∀ now a d', body now (w_db w) = (Ok a, d') → ∃ c, (c = None ∨ c = f (w_db w)) ∧ credit_step (w_db w) d' c) →
  pays_out f w w'.
Proof.
  intros [Eb Hr]%transaction_inv Hb. destruct r as [a|e]; [|by apply pays_out_same].
  split; [done|]. by eapply Hb.
Qed.
Lemma quiet_transaction {A} f (body : Z → M db A) w r w' :
  transaction body w = (r, w') → (∀ now, Quiet (body now)) → pays_out f w w'.
Proof.
  intros Ht Hq. eapply transaction_pays; [done|]. intros now a d' Hb. exists None. split; [by left|].
  specialize (Hq now (w_db w)). by rewrite Hb in Hq.
Qed.

Lemma frame_sync u q : Frame (syncCreditUserQuotaCache u q).
Proof. unfold syncCreditUserQuotaCache, log_error, cacheIncrUserQuota, cacheApplyUserQuotaDelta, RedisEnabled, GetTimestamp. frame_tac. Qed.
Lemma frame_sync_credit c : Frame (sync_credit c).
Proof. destruct c as [[u q]|]; [apply frame_sync|apply frame_ret]. Qed.
#[export] Hint Resolve frame_sync frame_sync_credit : frame.

Lemma frame_run {A} (m : M world A) w r w' : m w = (r, w') → Frame m → same_store w w'.
Proof. intros Hm Hf. specialize (Hf w). by rewrite Hm in Hf. Qed.

(** A call that pays and then touches only the cache. *)
Lemma pays_then_frame {A B} f (m : M world A) (k : A → M world B) w r w' :
  (m ≫= k) w = (r, w') → (∀ r w1, m w = (r, w1) → pays_out f w w1) → (∀ a, Frame (k a)) → pays_out f w w'.
Proof.
  unfold mbind, M_bind. intros Hb Hm Hk. destruct (m w) as [[a|e] w1] eqn:E.
  - eapply pays_out_then; [by eapply Hm|]. by eapply frame_run.
  - injection Hb as <- <-. by eapply Hm.
Qed.
Lemma pays_then_frame_try {A B} f (m : M world A) (k : res A → M world B) w r w' :
  (try m ≫= k) w = (r, w') → (∀ r w1, m w = (r, w1) → pays_out f w w1) → (∀ a, Frame (k a)) → pays_out f w w'.
Proof.
  unfold try, mbind, M_bind. intros Hb Hm Hk. destruct (m w) as [x w1] eqn:E.
  eapply pays_out_then; [by eapply Hm|]. by eapply frame_run.
Qed.

Section op_pays.
Context {D : Type} `{DecimalArith D} (o : affiliate_options).

(** The transactions of the webhooks. *)
Lemma order_transaction t quota body f w r w' :
  (∀ now, order_body t quota (body now)) →
  (∀ d x q, topups d !! t = Some x → quota x = Ok q → f d = Some (MkCredit (SrcOrder t) (tp_UserId x) q)) →
  transaction body w = (r, w') → pays_out f w w'.
Proof.
  intros Hb Hf Ht. eapply transaction_pays; [done|]. intros now a d' H1.
  destruct (Hb now _ _ _ H1) as [(_ & -> & _)|(x & q & _ & Hx & _ & Hq & Hs & _)].
  - exists None. split; [by left|apply credit_step_refl].
  - eexists. split; [right; by rewrite (Hf _ _ _ Hx Hq)|done].
Qed.

Lemma complete_pays t quota body f w r w' :
  (∀ now, order_body t quota (body now)) →
  (∀ d x q, topups d !! t = Some x → quota x = Ok q → f d = Some (MkCredit (SrcOrder t) (tp_UserId x) q)) →
  complete t body w = (r, w') → pays_out f w w'.
Proof.
  intros Hb Hf. unfold complete. destruct (bool_decide (t = "")); [intros [= <- <-]; by apply pays_out_same|].
  intros Ht. eapply pays_then_frame_try; [exact Ht| |].
  - intros. by eapply order_transaction.
  - intros [c|e]; auto with frame.
Qed.

Lemma delete_codes_quiet cond : Quiet (delete_codes cond).
Proof.
  intros d. cbn. split; try done; [intros u; unfold db_quota; cbn; lia|].
  intros [t|k'|u a|u day|uuid] Hs; try exact Hs. destruct Hs as (r1 & E1 & E2). cbn. rewrite lookup_fmap, E1. cbn.
  eexists. split; [reflexivity|]. by destruct (_ && _).
Qed.

Lemma insert_topup_quiet t r : Quiet (id ← gets (λ d, next_id tp_Id (topups d)); CREATE topups t (r <| tp_Id := id |>)).
Proof.
  apply quiet_bind; [apply quiet_gets|]. intros id d. unfold CREATE. destruct (topups d !! t) eqn:E; [apply credit_step_refl|].
  split; try done; [intros u; unfold db_quota; cbn; lia|].
  intros [t'|k'|u a|u day|uuid] Hs; try exact Hs. destruct Hs as (r1 & E1 & E2). exists r1. cbn.
  rewrite lookup_insert_ne by congruence. done.
Qed.
Lemma insert_code_quiet k f : Quiet (id ← gets (λ d, next_id rd_Id (redemptions d)); CREATE redemptions k (f id)).
Proof.
  apply quiet_bind; [apply quiet_gets|]. intros id d. unfold CREATE. destruct (redemptions d !! k) eqn:E; [apply credit_step_refl|].
  split; try done; [intros u; unfold db_quota; cbn; lia|].
  intros [t'|k'|u a|u day|uuid] Hs; try exact Hs. destruct Hs as (r1 & E1 & E2). exists r1. cbn.
  rewrite lookup_insert_ne by congruence. done.
Qed.
Lemma save_topup_quiet t r : tp_Status r ≠ TopUpStatusPending → Quiet (SAVE topups t r).
Proof.
  intros Hr d. cbn. split; try done; [intros u; unfold db_quota; cbn; lia|].
  intros [t'|k'|u a|u day|uuid] Hs; try exact Hs. destruct Hs as (r1 & E1 & E2). cbn.
  destruct (decide (t = t')) as [->|]; [exists r|exists r1]; rewrite lookup_insert; by case_decide.
Qed.
Lemma update_pending_quiet t p s : s ≠ TopUpStatusPending → Quiet (updatePendingTx t p s).
Proof.
  intros Hs. unfold updatePendingTx, or_else. quiet_tac. by apply save_topup_quiet.
Qed.
End op_pays.

(** *** Check-in without a transaction *)

Section checkin.
Context (u : Z) (day : string) (q : Z) (f : db → option credit).
Context (Hf : ∀ d, f d = Some (MkCredit (SrcCheckin u day) u (if_user d u q))).

Lemma increase_direct w r w' :
  IncreaseUserQuota u q true w = (r, w') →
  w_batch w' = w_batch w ∧
  match r with
  | Ok _ => ∃ n, UPDATE users u (λ _, true) (λ x, x <| u_Quota ::= (λ y, y + q) |>) (w_db w) = (Ok n, w_db w')
  | Err _ => w_db w' = w_db w
  end.
Proof.
  unfold IncreaseUserQuota. destruct (q <? 0); [by intros [= <- <-]|]. unfold go, BatchUpdateEnabled. msimpl.
  unfold increaseUserQuota. intros [Eb Hr]%transaction_inv. split; [done|]. destruct r as [x|e]; [|done].
  cbn in Hr. mstep Hr. injection Hr as <- <-. eauto.
Qed.

Lemma checkin_without_pays w r w' : userCheckinWithoutTransaction u day q w = (r, w') → pays_out f w w'.
Proof using Hf.
  unfold userCheckinWithoutTransaction, or_else, mbind at 1, M_bind at 1, mbind at 1, M_bind at 1. unfold try at 1.
  destruct (transaction _ w) as [[x|e] w1] eqn:E1; apply transaction_inv in E1 as [Eb1 E1];
    [|intros [= <- <-]; by apply pays_out_same].
  apply create_checkin_inv in E1 as [Hno E1]. unfold_m. destruct (IncreaseUserQuota u q true w1) as [[y|e] w2] eqn:E2;
    apply increase_direct in E2 as [Eb2 E2]; intros H0.
  - injection H0 as <- <-. destruct E2 as [n E2]. split; [congruence|].
    eexists. split; [right; symmetry; apply Hf|]. eapply close_then_pay; [exact E2|by rewrite E1|..].
    + rewrite E1. apply step_checkin.
    + cbn. rewrite Hno. by intros [].
    + cbn. rewrite E1. cbn. by rewrite lookup_insert_eq.
  - revert H0. unfold log_error. unfold_m. destruct (transaction _ w2) as [r3 w3] eqn:E3. apply transaction_inv in E3 as [Eb3 E3].
    intros [= <- <-]. apply pays_out_nothing; [congruence|]. destruct r3 as [z|e3].
    + injection E3 as _ E3. rewrite <- E3, E2, E1. cbn. split; try done; [intros v; unfold db_quota; cbn; lia|].
      intros [t|k|v a|v dy|id] Hs; try exact Hs. cbn in *. by rewrite delete_insert_id.
    + rewrite E3, E2, E1. apply step_checkin.
Qed.

Lemma checkin_with_pays w r w' : userCheckinWithTransaction u day q w = (r, w') → pays_out f w w'.
Proof using Hf.
  unfold userCheckinWithTransaction, mbind at 1, M_bind at 1. destruct (transaction _ w) as [rt w1] eqn:E1.
  assert (pays_out f w w1) as Hp.
  { eapply transaction_pays; [done|]. intros now a d' Hb. apply checkin_body in Hb as [_ Hb].
    eexists. split; [right; symmetry; apply Hf|done]. }
  destruct rt as [x|e]; [|by intros [= <- <-]]. unfold go. msimpl. intros [= <- <-].
  destruct Hp as [Eb Hp]. split; [done|exact Hp].
Qed.
End checkin.

Lemma UserCheckin_pays sq s rnd day u f w r w' :
  (∀ d, f d = Some (MkCredit (SrcCheckin u day) u (if_user d u (checkin_reward s rnd)))) →
  UserCheckin sq s rnd day u w = (r, w') → pays_out f w w'.
Proof.
  intros Hf. unfold UserCheckin. destruct (negb _); [intros [= <- <-]; by apply pays_out_same|].
  unfold mbind at 1, M_bind at 1, HasCheckedInToday. destruct (transaction _ w) as [rt w1] eqn:E1.
  apply transaction_inv in E1 as [Eb E1]. assert (w_db w1 = w_db w) as Ed.
  { destruct rt; [by injection E1|done]. }
  destruct rt as [[]|e]; [intros [= <- <-]; by apply pays_out_same| |intros [= <- <-]; by apply pays_out_same].
  intros H0. assert (pays_out f w1 w') as [Eb1 Hp].
  { destruct sq; [by eapply checkin_without_pays|by eapply checkin_with_pays]. }
  split; [congruence|]. by rewrite <- Ed.
Qed.

Section all_ops.
Context {D : Type} `{DecimalArith D} (o : affiliate_options).

Lemma redeem_pays k u w r w' : Redeem k u w = (r, w') → pays_out (credit_of o (CRedeem k u)) w w'.
Proof.
  unfold Redeem. destruct (bool_decide _); [intros [= <- <-]; by apply pays_out_same|].
  destruct (u =? 0); [intros [= <- <-]; by apply pays_out_same|]. intros Hr. eapply pays_then_frame_try; [exact Hr| |].
  - intros r1 w1 Ht. eapply transaction_pays; [done|]. intros now a d' (x & Hx & _ & Hs)%redeem_body.
    eexists. split; [right|exact Hs]. cbn. by rewrite Hx.
  - intros [[x q]|e]; [|auto with frame]. frame_tac.
Qed.

Lemma activity_claim_pays u a q w r w' : ClaimActivityReward u a q w = (r, w') → pays_out (credit_of o (CClaim u a q)) w w'.
Proof.
  unfold ClaimActivityReward. destruct (_ || _); [intros [= <- <-]; by apply pays_out_same|]. intros Hr.
  eapply pays_then_frame; [exact Hr| |].
  - intros r1 w1 Ht. eapply transaction_pays; [done|]. intros now x d' [_ Hs]%claim_body. eexists. split; [by right|done].
  - intros x. unfold log_error, cacheIncrUserQuota, cacheApplyUserQuotaDelta, RedisEnabled, GetTimestamp. frame_tac.
Qed.

Lemma transfer_pays uuid u q w r w' :
  TransferAffiliateQuota o uuid u q w = (r, w') → pays_out (credit_of o (CTransfer uuid u q)) w w'.
Proof.
  unfold TransferAffiliateQuota. destruct (negb _); [intros [= <- <-]; by apply pays_out_same|].
  destruct (_ || _); [intros [= <- <-]; by apply pays_out_same|]. intros Hr. eapply pays_then_frame; [exact Hr| |].
  - intros r1 w1 Ht. eapply transaction_pays; [done|]. intros now x d' Hs. cbv beta in Hs. apply (transfer_body uuid now u q) in Hs. eexists. split; [by right|done].
  - intros x. frame_tac.
Qed.

Lemma delete_code_pays id f w r w' : DeleteRedemptionById id w = (r, w') → pays_out f w w'.
Proof.
  unfold DeleteRedemptionById. destruct (id =? 0); [intros [= <- <-]; by apply pays_out_same|].
  unfold mbind at 1, M_bind at 1. destruct (transaction _ w) as [rt w1] eqn:E1. apply transaction_inv in E1 as [Eb E1].
  assert (w_db w1 = w_db w) as Ed by (destruct rt; [by injection E1|done]).
  destruct rt as [[]|e]; [intros [= <- <-]; by apply pays_out_same| |intros [= <- <-]; by apply pays_out_same].
  intros Ht. assert (pays_out (λ _, None) w1 w') as [Eb1 (c & Hc & Hs)].
  { eapply pays_then_frame; [exact Ht| |intros; apply frame_ret]. intros r1 w2 E2.
    eapply quiet_transaction; [exact E2|]. intros; apply delete_codes_quiet. }
  apply pays_out_nothing; [congruence|]. rewrite Ed in Hs. by destruct Hc as [->| ->].
Qed.

Lemma order_credit_of t quota (f : db → option credit) :
  (∀ d, f d = match topups d !! t with
              | Some r => match quota r with Ok q => Some (MkCredit (SrcOrder t) (tp_UserId r) q) | Err _ => None end
              | None => None
              end) →
  ∀ d x q, topups d !! t = Some x → quota x = Ok q → f d = Some (MkCredit (SrcOrder t) (tp_UserId x) q).
Proof. intros Hf d x q Hx Hq. by rewrite Hf, Hx, Hq. Qed.

Lemma credit_op_pays op w r w' :
  credit_op_ok op → run_credit_op o op w = (r, w') → pays_out (credit_of o op) w w'.
Proof.
  intros Hok. destruct op; cbn [run_credit_op credit_op_ok] in *; intros Hr.
  - eapply quiet_transaction; [exact Hr|]. intros. apply insert_topup_quiet.
  - eapply quiet_transaction; [exact Hr|]. intros. by apply save_topup_quiet.
  - unfold UpdatePendingTopUpStatus in Hr. destruct (bool_decide _); [injection Hr as <- <-; by apply pays_out_same|].
    eapply quiet_transaction; [exact Hr|]. intros. by apply update_pending_quiet.
  - eapply pays_then_frame; [exact Hr| |intros; apply frame_ret]. clear Hr. intros r1 w1. unfold RechargeEpay.
    destruct (bool_decide _); [intros [= <- <-]; by apply pays_out_same|]. intros Hr.
    eapply pays_then_frame; [exact Hr| |intros c; frame_tac].
    intros r2 w2. eapply order_transaction with (quota := quota_of_amount o); [intros; apply epay_body|by apply order_credit_of].
  - revert Hr. eapply complete_pays with (quota := quota_of_money o); [intros; apply stripe_body|by apply order_credit_of].
  - revert Hr. eapply complete_pays with (quota := quota_as_amount (D:=D)); [intros; apply creem_body|by apply order_credit_of].
  - revert Hr. eapply complete_pays with (quota := quota_of_amount o); [intros; apply waffo_body|by apply order_credit_of].
  - revert Hr. eapply complete_pays with (quota := quota_of_amount o); [intros; apply waffo_body|by apply order_credit_of].
  - unfold ManualCompleteTopUp in Hr. destruct (bool_decide _); [injection Hr as <- <-; by apply pays_out_same|].
    eapply pays_then_frame; [exact Hr| |intros c; apply frame_sync_credit].
    intros r2 w2. eapply order_transaction with (quota := manual_quota o); [intros; apply manual_body|by apply order_credit_of].
  - eapply pays_then_frame; [exact Hr| |intros; apply frame_ret]. intros r1 w1. apply redeem_pays.
  - eapply quiet_transaction; [exact Hr|]. intros. apply insert_code_quiet.
  - by eapply delete_code_pays.
  - eapply pays_then_frame; [exact Hr| |intros; apply frame_ret]. intros r1 w1. unfold BatchDeleteRedemptions.
    case_decide; [intros [= <- <-]; by apply pays_out_same|]. intros Ht. eapply quiet_transaction; [exact Ht|]. intros; apply delete_codes_quiet.
  - eapply pays_then_frame; [exact Hr| |intros; apply frame_ret]. intros r1 w1 Ht. eapply quiet_transaction; [exact Ht|].
    intros; apply delete_codes_quiet.
  - by eapply activity_claim_pays.
  - eapply pays_then_frame; [exact Hr| |intros; apply frame_ret]. intros r1 w1. by apply UserCheckin_pays.
  - eapply pays_then_frame; [exact Hr| |intros; apply frame_ret]. intros r1 w1. apply transfer_pays.
  - eapply pays_then_frame; [exact Hr| |intros; apply frame_ret]. intros r1 w1 Ht. eapply quiet_transaction; [exact Ht|].
    intros; apply quiet_thaw.
  - eapply quiet_transaction; [exact Hr|]. intros now. apply quiet_bind; [by apply quiet_UPDATE_user|]. intros n. quiet_tac.
Qed.
End all_ops.

(** ** Billing leaves payments alone

    The operations on billing rows touch neither the tables of payments nor
    the affiliate columns. *)

Definition aff_of (d : db) (u : Z) : option (Z * Z * Z) :=
  (λ r, (u_AffQuota r, u_AffFrozenQuota r, u_AffHistoryQuota r)) <$> users d !! u.

Record pay_same (d d' : db) : Prop := {
  ps_topups : topups d' = topups d;
  ps_codes : redemptions d' = redemptions d;
  ps_ledgers : affiliate_ledgers d' = affiliate_ledgers d;
  ps_checkins : checkins d' = checkins d;
  ps_claims : activity_claims d' = activity_claims d;
  ps_aff : ∀ u, aff_of d' u = aff_of d u
}.
#[global] Instance pay_same_preorder : PreOrder pay_same.
Proof.
  split; [by split|]. intros d1 d2 d3 [A1 A2 A3 A4 A5 A6] [B1 B2 B3 B4 B5 B6].
  split; congruence.
Qed.

Lemma pay_same_closed d d' s : pay_same d d' → closed d s ↔ closed d' s.
Proof. intros [A1 A2 A3 A4 A5 _]. destruct s; cbn; by rewrite ?A1, ?A2, ?A3, ?A4, ?A5. Qed.

(** Programs that move the tables along a relation only, failures included. *)
Definition KeepsDb (R : relation db) {A} (m : M db A) : Prop := ∀ d, R d (m d).2.
Definition Keeps (R : relation db) {A} (m : M world A) : Prop := ∀ w, R (w_db w) (w_db (m w).2).

Section keeps.
Context {R : relation db} `{!PreOrder R}.

Lemma keepsdb_bind {A B} (m : M db A) (k : A → M db B) : KeepsDb R m → (∀ a, KeepsDb R (k a)) → KeepsDb R (m ≫= k).
Proof.
  intros Hm Hk d. unfold mbind, M_bind. specialize (Hm d). destruct (m d) as [[a|e] d1]; cbn in *; [|done].
  etrans; [done|apply Hk].
Qed.
Lemma keepsdb_same {A} (m : M db A) : (∀ d, (m d).2 = d) → KeepsDb R m.
Proof. intros Hm d. by rewrite Hm. Qed.
Lemma keepsdb_ret {A} (a : A) : KeepsDb R (mret a).
Proof. by apply keepsdb_same. Qed.
Lemma keepsdb_fail {A} e : KeepsDb R (fail (A:=A) e).
Proof. by apply keepsdb_same. Qed.
Lemma keepsdb_gets {A} (f : db → A) : KeepsDb R (gets f).
Proof. by apply keepsdb_same. Qed.
Lemma keepsdb_lift_res {A} (r : res A) : KeepsDb R (lift_res r).
Proof. by apply keepsdb_same. Qed.
Lemma keepsdb_FIRST {K T} `{Countable K} (tbl : db → gmap K T) k : KeepsDb R (FIRST tbl k).
Proof. apply keepsdb_same. intros d. unfold FIRST. by destruct (tbl d !! k). Qed.
Lemma keepsdb_try {A} (m : M db A) : KeepsDb R m → KeepsDb R (try m).
Proof. intros Hm d. unfold try. specialize (Hm d). by destruct (m d). Qed.
Lemma keepsdb_UPDATE {K T} `{Countable K} (tbl : db → gmap K T) `{!Upd tbl} k c f :
  (∀ d m, R d (d <| tbl := m |>)) → KeepsDb R (UPDATE tbl k c f).
Proof. intros Ht d. unfold UPDATE. destruct (tbl d !! k) as [r|]; [|reflexivity]. destruct (c r); [apply Ht|reflexivity]. Qed.
Lemma keepsdb_CREATE {K T} `{Countable K} (tbl : db → gmap K T) `{!Upd tbl} k r :
  (∀ d m, R d (d <| tbl := m |>)) → KeepsDb R (CREATE tbl k r).
Proof. intros Ht d. unfold CREATE. destruct (tbl d !! k); [reflexivity|apply Ht]. Qed.
Lemma keepsdb_SAVE {K T} `{Countable K} (tbl : db → gmap K T) `{!Upd tbl} k r :
  (∀ d m, R d (d <| tbl := m |>)) → KeepsDb R (SAVE tbl k r).
Proof. intros Ht d. apply Ht. Qed.
Lemma keepsdb_UPDATE_user k c f :
  (∀ d r, users d !! k = Some r → R d (d <| users := <[k := f r]> (users d) |>)) → KeepsDb R (UPDATE users k c f).
Proof.
  intros Hf d. unfold UPDATE. destruct (users d !! k) as [r|] eqn:E; [|reflexivity].
  destruct (c r); [by apply Hf|reflexivity].
Qed.

Lemma pay_keeps_bind {A B} (m : M world A) (k : A → M world B) : Keeps R m → (∀ a, Keeps R (k a)) → Keeps R (m ≫= k).
Proof.
  intros Hm Hk w. unfold mbind, M_bind. specialize (Hm w). destruct (m w) as [[a|e] w1]; cbn in *; [|done].
  etrans; [done|apply Hk].
Qed.
Lemma keeps_frame {A} (m : M world A) : Frame m → Keeps R m.
Proof. intros Hm w. destruct (Hm w) as (E & _). by rewrite E. Qed.
Lemma keeps_same {A} (m : M world A) : (∀ w, w_db (m w).2 = w_db w) → Keeps R m.
Proof. intros Hm w. by rewrite Hm. Qed.
Lemma keeps_try {A} (m : M world A) : Keeps R m → Keeps R (try m).
Proof. intros Hm w. unfold try. specialize (Hm w). by destruct (m w). Qed.
Lemma keeps_transaction {A} (body : Z → M db A) : (∀ now, KeepsDb R (body now)) → Keeps R (transaction body).
Proof.
  intros Hb w. destruct (transaction body w) as [r w'] eqn:E. apply transaction_inv in E as [_ E]. cbn. destruct r as [a|e].
  - specialize (Hb (w_now w) (w_db w)). by rewrite E in Hb.
  - by rewrite E.
Qed.
Lemma keeps_addNewRecord ty id v : Keeps R (addNewRecord ty id v).
Proof. by apply keeps_same. Qed.
Lemma keeps_take ty id : Keeps R (takePendingQuotaDelta ty id).
Proof. apply keeps_same. intros w. unfold takePendingQuotaDelta. by destruct (id <=? 0). Qed.
End keeps.

Lemma aff_of_update d k r r' :
  users d !! k = Some r →
  (u_AffQuota r', u_AffFrozenQuota r', u_AffHistoryQuota r') = (u_AffQuota r, u_AffFrozenQuota r, u_AffHistoryQuota r) →
  ∀ u, aff_of (d <| users := <[k := r']> (users d) |>) u = aff_of d u.
Proof.
  intros Hr E u. unfold aff_of. cbn. rewrite lookup_insert. case_decide; [subst; rewrite Hr; cbn; by rewrite E|done].
Qed.

Create HintDb keeps.
#[export] Hint Resolve keepsdb_ret keepsdb_fail keepsdb_gets keepsdb_lift_res keepsdb_FIRST keeps_addNewRecord keeps_take : keeps.
#[export] Hint Extern 0 (PreOrder _) => apply _ : keeps.
#[export] Hint Extern 1 (Keeps _ _) => solve [apply keeps_frame; frame_tac] : keeps.
Ltac keeps_step :=
  first
    [ solve [auto with keeps]
    | apply keepsdb_bind; [|intros ?]
    | apply pay_keeps_bind; [|intros ?]
    | apply keepsdb_try
    | apply keeps_try
    | apply keeps_transaction; intros ?
    | solve [apply keepsdb_UPDATE_user; split; try done; by eapply aff_of_update]
    | solve [apply keepsdb_UPDATE; by split]
    | solve [apply keepsdb_CREATE; by split]
    | solve [apply keepsdb_SAVE; by split]
    | match goal with |- KeepsDb _ (if ?b then _ else _) => destruct b end
    | match goal with |- Keeps _ (if ?b then _ else _) => destruct b end
    | match goal with |- KeepsDb _ (match ?x with _ => _ end) => destruct x end
    | match goal with |- Keeps _ (match ?x with _ => _ end) => destruct x end ].
Ltac keeps_tac := repeat keeps_step.

Lemma keeps_begin rid fu ft : Keeps pay_same (beginBillingRecoveryQuotaMutation rid fu ft).
Proof.
  unfold beginBillingRecoveryQuotaMutation, fence_resources, invalidateUserQuotaCacheForMutation,
    invalidateTokenCacheForMutation, RedisEnabled. keeps_tac.
Qed.
Lemma keeps_with_mutation {A} m (body : Z → M db A) : (∀ now, KeepsDb pay_same (body now)) → Keeps pay_same (with_mutation m body).
Proof. intros Hb. unfold with_mutation, applyPendingDeltas, update_one, release. keeps_tac. Qed.
Lemma keeps_postConsume now id delta : KeepsDb pay_same (postConsumeUserSubscriptionDeltaTx now id delta).
Proof. unfold postConsumeUserSubscriptionDeltaTx, save_subscription. keeps_tac. Qed.
Lemma keeps_effect now rid r c op amount : KeepsDb pay_same (applyBillingRecoveryEffect now rid r c op amount).
Proof.
  pose proof keeps_postConsume. unfold applyBillingRecoveryEffect, refundBillingRecoverySubscriptionPreConsumeTx,
    applySubscriptionDeltaTx, save_record, update_one. keeps_tac.
Qed.

Lemma keeps_update_one tbl e : KeepsDb pay_same tbl → KeepsDb pay_same (update_one tbl e).
Proof. intros Ht. unfold update_one. keeps_tac. Qed.
Lemma keeps_charge_token now t q unl : KeepsDb pay_same (charge_token now t q unl).
Proof. apply keeps_update_one. keeps_tac. Qed.
Lemma keeps_find_marker k : KeepsDb pay_same (find_marker k).
Proof. apply keepsdb_gets. Qed.
#[local] Hint Resolve keeps_begin keeps_postConsume keeps_effect keeps_charge_token keeps_find_marker : keeps.

Lemma keeps_preConsumeWallet rid q unl now : KeepsDb pay_same (preConsumeWalletTx rid q unl now).
Proof. unfold preConsumeWalletTx, update_one. keeps_tac. Qed.
Lemma keeps_reserveTx rid t unl now : KeepsDb pay_same (reserveTx rid t unl now).
Proof. unfold reserveTx, applySubscriptionDeltaTx, update_one. cbv zeta. keeps_tac. Qed.
Lemma keeps_adjustmentTx rid c op now : KeepsDb pay_same (adjustmentTx rid c op now).
Proof. unfold adjustmentTx, updateBillingRecoveryComponentState. cbv zeta. keeps_tac. Qed.

Lemma keeps_mutation {A} rid fu ft (body : Z → M db A) :
  (∀ now, KeepsDb pay_same (body now)) → Keeps pay_same (m ← beginBillingRecoveryQuotaMutation rid fu ft; with_mutation m body).
Proof. intros Hb. apply pay_keeps_bind; [apply keeps_begin|]. intros m. by apply keeps_with_mutation. Qed.

Lemma keeps_ledger_op op : Keeps pay_same (run_ledger_op op).
Proof.
  destruct op; cbn [run_ledger_op].
  9: { unfold PreConsumeWalletBillingRecovery. keeps_step; [keeps_tac|].
       keeps_step; [apply keeps_mutation, keeps_preConsumeWallet|apply keeps_transaction, keeps_preConsumeWallet]. }
  9: { apply pay_keeps_bind; [|intros; keeps_tac]. unfold ReserveBillingRecovery. keeps_step; [keeps_tac|].
       apply keeps_mutation, keeps_reserveTx. }
  9: { unfold ApplyBillingRecoveryAdjustment. do 3 (keeps_step; [keeps_tac|]). apply keeps_mutation, keeps_adjustmentTx. }
  all: unfold EnsureBillingRecovery, reconcileBillingRecoveryInput, AbortPreparedBillingRecovery, UpdateBillingRecoveryAmounts,
      UpdateBillingRecoverySettlement, TouchBillingRecovery, MarkBillingRecoveryRefundPending, MarkBillingRecoverySettled,
      MarkBillingRecoveryRefunded; keeps_tac.
Qed.

(** ** Runs *)

Section runs.
Context {D : Type} `{DecimalArith D} (o : affiliate_options).

(** Billing calls, payment calls and whatever else leaves tables and queue
    alone, in any order; the payment calls are recorded with the tables they
    started on. *)
Inductive books_run : world → (Z → Z) → list (credit_op * db) → world → Prop :=
  | books_run_nil w : books_run w (λ _, 0) [] w
  | books_run_bill w op r w1 fw calls w' :
      amounts_ok (w_db w) → ledger_op_ok op → run_ledger_op op w = (r, w1) → books_run w1 fw calls w' →
      books_run w (λ u, declared_wallet op (w_db w) (w_db w1) u + fw u) calls w'
  | books_run_pay w op r w1 fw calls w' :
      credit_op_ok op → run_credit_op o op w = (r, w1) → books_run w1 fw calls w' →
      books_run w fw ((op, w_db w) :: calls) w'
  | books_run_env w w1 fw calls w' :
      w_db w1 = w_db w → w_batch w1 = w_batch w → books_run w1 fw calls w' → books_run w fw calls w'.

(** What each call pays out when it does. *)
Definition payable (calls : list (credit_op * db)) : list credit := omap (λ p, credit_of o p.1 p.2) calls.

Lemma credit_step_sum w w1 c :
  w_batch w1 = w_batch w → credit_step (w_db w) (w_db w1) c →
  ∀ u, wallet_sum w1 u = wallet_sum w u + paid_to u (option_list c).
Proof.
  intros Eb [[E1 E2] _ Hq _ _] u. rewrite !wallet_sum_eq. unfold wallet_total. rewrite Hq.
  assert (wallet_held (w_db w1) u = wallet_held (w_db w) u) as ->; [|unfold pending; rewrite Eb; lia].
  unfold wallet_held. rewrite E1. apply map_sum_ext. intros k r _. unfold wallet_share, held_funding, marker_amount.
  by rewrite !E2.
Qed.

Lemma paid_to_cons u c cs : paid_to u (c :: cs) = paid_to u [c] + paid_to u cs.
Proof. unfold paid_to. cbn [foldr]. lia. Qed.

(** C10: every payment reaches a wallet once.  In any interleaving of billing
    calls and payment calls, whatever fails, the quota that enters wallets is a
    selection [cs] of what the calls pay out, no order, code, activity, day or
    transfer is paid twice, each was open before and is closed after, and a
    wallet with what requests hold of it changes only by the declared amounts
    and by the payments to it. *)
Theorem wallets_account_for_credits w fw calls w'
    (Hok : ledger_ok (w_db w)) (Hrun : books_run w fw calls w') :
  ∃ cs, cs `sublist_of` payable calls ∧ NoDup (cr_source <$> cs) ∧
    (∀ s, closed (w_db w) s → closed (w_db w') s) ∧
    Forall (λ c, ¬ closed (w_db w) (cr_source c) ∧ closed (w_db w') (cr_source c)) cs ∧
    ∀ u, wallet_sum w' u = wallet_sum w u + fw u + paid_to u cs.
Proof.
  induction Hrun as [w|w op r w1 fw calls w' Ham Hop Hr Hrun IH|w op r w1 fw calls w' Hop Hr Hrun IH
    |w w1 fw calls w' Ed Eb Hrun IH].
  - exists []. split_and!; [constructor|constructor|done|constructor|]. intros u. cbn. lia.
  - pose proof (keeps_ledger_op op w) as Hk. rewrite Hr in Hk. cbn in Hk.
    apply ledger_op_moves in Hr as [Hok1 [M1 _]]; [|done..].
    destruct (IH Hok1) as (cs & H1 & H2 & H3 & H4 & H5). exists cs. split_and!; [done|done|..].
    + intros s Hs. by apply H3, (pay_same_closed _ _ _ Hk).
    + eapply Forall_impl; [exact H4|]. intros c [H6 H7]. split; [|done]. by rewrite (pay_same_closed _ _ _ Hk).
    + intros u. rewrite H5, M1. lia.
  - apply credit_op_pays in Hr as [Eb (c & Hc & Hs)]; [|done].
    destruct IH as (cs & H1 & H2 & H3 & H4 & H5).
    { eapply same_books_ok; [|done]. apply (cs_books _ _ _ Hs). }
    pose proof (credit_step_sum _ _ _ Eb Hs) as Hsum. pose proof (cs_closed _ _ _ Hs) as Hcl.
    assert (Forall (λ c, ¬ closed (w_db w) (cr_source c) ∧ closed (w_db w') (cr_source c)) cs) as H4'.
    { eapply Forall_impl; [exact H4|]. intros x [H6 H7]. split; [|done]. intros H8. by apply H6, Hcl. }
    destruct c as [c|].
    + destruct Hc as [|Hc]; [done|]. destruct (cs_credit _ _ _ Hs c eq_refl) as [Ho Hcc]. exists (c :: cs). split_and!.
      * unfold payable. cbn. rewrite <- Hc. by apply sublist_skip.
      * cbn. constructor; [|done]. intros (x & Ex & Hx)%list_elem_of_fmap. rewrite Forall_forall in H4.
        destruct (H4 x Hx) as [H6 _]. apply H6. by rewrite <- Ex.
      * auto.
      * constructor; [|done]. auto.
      * intros u. rewrite H5, Hsum, (paid_to_cons u c cs). cbn. lia.
    + exists cs. split_and!; [|done|auto|done|].
      * unfold payable. cbn. destruct (credit_of o op (w_db w)); [by apply sublist_cons|done].
      * intros u. rewrite H5, Hsum. cbn. lia.
  - rewrite Ed in IH. destruct (IH Hok) as (cs & H1 & H2 & H3 & H4 & H5). exists cs. split_and!; [done..|].
    intros u. rewrite H5, !wallet_sum_eq. unfold pending. rewrite Ed, Eb. lia.
Qed.
End runs.

(** *** A run on concrete data *)

Section sample.
Context {D : Type} `{DecimalArith D} (o : affiliate_options).

Definition run_calls (ops : list credit_op) (w : world) : world := foldl (λ w op, exec (run_credit_op o op) w) w ops.

Lemma run_calls_books ops w :
  Forall credit_op_ok ops → ∃ calls, books_run o w (λ _, 0) calls (run_calls ops w).
Proof. unfold run_calls.
  intros Hops. revert w. induction Hops as [|op ops Hop Hops IH]; intros w; [eexists; constructor|].
  destruct (IH (exec (run_credit_op o op) w)) as [calls Hc]. eexists. cbn [foldl].
  eapply books_run_pay; [done|apply surjective_pairing|exact Hc].
Qed.
End sample.

Definition sample_options : affiliate_options :=
  MkAffOptions (float_of_pos false 500000) true 1600000000 1000 0 0 (S754_zero false) 0 true.
Definition epay_order : TopUp := MkTopUp 1 7 3 (S754_zero false) "alipay" "epay" 1700000000 0 "pending" 20000.
Definition gift_code : Redemption := MkRedemption 1 1 1 "gift" 250 1700000000 0 0 0 false.
Definition payment_world : world :=
  world_of (db_of_two <| topups := {["T1" := epay_order]} |> <| redemptions := {["K1" := gift_code]} |>)
    <| w_oracle := [None; Some "connection lost"] |>.
(** The webhook of the order arrives three times, the second call fails; the
    code is redeemed twice. *)
Definition sample_payments : list credit_op :=
  [CEpay "T1" "wxpay"; CEpay "T1" ""; CEpay "T1" ""; CRedeem "K1" 7; CRedeem "K1" 7; CManual "T1"].
Definition after_payments : world := run_calls (D:=Q) sample_options sample_payments payment_world.

Lemma wallets_account_for_credits_witness :
  wallet_balance payment_world 7 = 100 ∧ wallet_balance after_payments 7 = 1500350 ∧
  ∃ calls cs, cs `sublist_of` payable (D:=Q) sample_options calls ∧ NoDup (cr_source <$> cs) ∧
    wallet_sum after_payments 7 = wallet_sum payment_world 7 + paid_to 7 cs.
Proof.
  split; [by vm_compute|]. split; [by vm_compute|]. unfold after_payments.
  destruct (run_calls_books (D:=Q) sample_options sample_payments payment_world) as [calls Hrun]; [by repeat constructor|].
  exists calls. revert Hrun. generalize (run_calls (D:=Q) sample_options sample_payments payment_world) as w'. intros w' Hrun.
  assert (ledger_ok (w_db payment_world)) as Hok by (by apply ledger_ok_empty).
  destruct (wallets_account_for_credits (D:=Q) sample_options payment_world (λ _, 0) calls w' Hok Hrun)
    as (cs & H1 & H2 & _ & _ & H3). exists cs. split_and!; [done|done|]. rewrite H3. lia.
Defined.

(** ** One completion *)

Section completion.
Context {D : Type} `{DecimalArith D} (o : affiliate_options).

(** The order that a call completes, and what it is worth to that call. *)
Definition completes (op : credit_op) : option (string * (TopUp → res Z)) :=
  match op with
  | CEpay t _ | CWaffo t | CWaffoPancake t => Some (t, quota_of_amount o)
  | CStripe t _ => Some (t, quota_of_money o)
  | CCreem t _ => Some (t, quota_as_amount (D:=D))
  | CManual t => Some (t, manual_quota o)
  | _ => None
  end.

(** The order was pending, is worth [q] and is closed; [q] is in the wallet of
    its user, which stays below the ceiling of the column. *)
Definition paid_order (t : string) (quota : TopUp → res Z) (w w' : world) : Prop :=
  ∃ r q, topups (w_db w) !! t = Some r ∧ tp_Status r = TopUpStatusPending ∧ quota r = Ok q ∧
    closed (w_db w') (SrcOrder t) ∧ db_quota (w_db w') (tp_UserId r) < MaxQuota ∧
    ∀ u, db_quota (w_db w') u = db_quota (w_db w) u + (if decide (tp_UserId r = u) then q else 0).

Lemma order_outcome {B} t quota body (k : option (Z * Z) → M world B) w r w' :
  (∀ now, order_body t quota (body now)) → (∀ c, Frame (k c)) → (∀ c w, is_ok (k c w).1 = true) →
  (transaction body ≫= k) w = (r, w') →
  if is_ok r then
    paid_order t quota w w' ∨ w_db w' = w_db w ∧ tp_Status <$> topups (w_db w) !! t = Some TopUpStatusSuccess
  else w_db w' = w_db w.
Proof.
  intros Hb Hk Hok. unfold mbind, M_bind. destruct (transaction body w) as [[c|e] w1] eqn:E;
    apply transaction_inv in E as [Eb E]; [|by intros [= <- <-]].
  intros Hr. pose proof (Hok c w1) as Ho. rewrite Hr in Ho. cbn in Ho. rewrite Ho.
  apply frame_run in Hr as (Ed & _); [|apply Hk].
  destruct (Hb _ _ _ _ E) as [(_ & E' & Hs)|(x & q & _ & Hx & Hp & Hq & Hs & Hm)]; [right; by rewrite Ed|left].
  exists x, q. rewrite Ed. split; [done|]. split; [done|]. split; [done|]. split; [|split; [done|]].
  - apply (cs_credit _ _ _ Hs _ eq_refl).
  - intros u. rewrite (cs_quota _ _ _ Hs). cbn. case_decide; lia.
Qed.

Lemma sync_credit_ok c w : is_ok (sync_credit c w).1 = true.
Proof.
  destruct c as [[u q]|]; [|done]. cbn. unfold syncCreditUserQuotaCache. destruct (q <=? 0); [done|].
  unfold log_error. unfold_m. by destruct (cacheIncrUserQuota u q w).
Qed.

Lemma complete_outcome t quota body w r w' :
  (∀ now, order_body t quota (body now)) → complete t body w = (r, w') →
  if is_ok r then
    paid_order t quota w w' ∨ w_db w' = w_db w ∧ tp_Status <$> topups (w_db w) !! t = Some TopUpStatusSuccess
  else w_db w' = w_db w.
Proof.
  intros Hb. unfold complete. destruct (bool_decide _); [by intros [= <- <-]|]. unfold try, mbind, M_bind. intros Hr.
  pose proof (order_outcome t quota body sync_credit w) as Ho. unfold mbind, M_bind in Ho.
  destruct (transaction body w) as [[c|e] w1] eqn:E.
  - eapply Ho; [done|apply frame_sync_credit|apply sync_credit_ok|done].
  - injection Hr as <- <-. apply (Ho (Err e) w1); [done|apply frame_sync_credit|apply sync_credit_ok|done].
Qed.

(** A call that completes an order pays it exactly when it was pending.
    A call that returns an error has changed nothing; a call that succeeds has
    closed the pending order, added exactly its worth to the wallet of its user
    and to no other, and left that wallet below the int32 ceiling, or it found
    the order already successful and changed nothing. *)
Theorem order_completion_pays op t quota w r w'
    (Hop : completes op = Some (t, quota)) (Hr : run_credit_op o op w = (r, w')) :
  if is_ok r then
    paid_order t quota w w' ∨ w_db w' = w_db w ∧ tp_Status <$> topups (w_db w) !! t = Some TopUpStatusSuccess
  else w_db w' = w_db w.
Proof.
  destruct op; cbn [completes run_credit_op] in *; try done; injection Hop as <- <-.
  - unfold RechargeEpay in Hr. destruct (bool_decide _); [by injection Hr as <- <-|].
    match type of Hr with (?m ≫= _) _ = _ => destruct (m w) as [rb w1] eqn:E end.
    assert (is_ok r = is_ok rb ∧ w' = w1) as [-> ->].
    { unfold mbind at 1, M_bind at 1 in Hr. rewrite E in Hr. clear E. destruct rb; injection Hr as <- <-; by split. }
    apply (order_outcome tradeNo (quota_of_amount o)) in E;
      [exact E|intros; apply epay_body|intros c; apply frame_bind; [apply frame_sync_credit|intros; apply frame_ret]|].
    intros c w2; pose proof (sync_credit_ok c w2) as Hs; unfold mbind, M_bind; by destruct (sync_credit c w2) as [[]].
  - revert Hr. eapply complete_outcome with (quota := quota_of_money o). intros; apply stripe_body.
  - revert Hr. eapply complete_outcome with (quota := quota_as_amount (D:=D)). intros; apply creem_body.
  - revert Hr. eapply complete_outcome with (quota := quota_of_amount o). intros; apply waffo_body.
  - revert Hr. eapply complete_outcome with (quota := quota_of_amount o). intros; apply waffo_body.
  - unfold ManualCompleteTopUp in Hr. destruct (bool_decide _); [by injection Hr as <- <-|].
    revert Hr. eapply order_outcome with (quota := manual_quota o); [intros; apply manual_body|apply frame_sync_credit|apply sync_credit_ok].
Qed.
End completion.

Definition first_call : res unit * world := run_credit_op (D:=Q) sample_options (CEpay "T1" "wxpay") payment_world.

Lemma order_completion_pays_witness :
  is_ok first_call.1 = true ∧ paid_order "T1" (quota_of_amount (D:=Q) sample_options) payment_world first_call.2.
Proof.
  assert (is_ok first_call.1 = true) as E by (by vm_compute). split; [exact E|].
  assert (tp_Status <$> topups (w_db payment_world) !! "T1" = Some TopUpStatusPending) as Hs by (by vm_compute).
  pose proof (order_completion_pays (D:=Q) sample_options (CEpay "T1" "wxpay") "T1" (quota_of_amount (D:=Q) sample_options)
    payment_world first_call.1 first_call.2 eq_refl (surjective_pairing first_call)) as Hp.
  rewrite E in Hp. destruct Hp as [Hp|[_ Hs']]; [exact Hp|]. rewrite Hs in Hs'. discriminate Hs'.
Defined.

(** ** An administrator's completion of a Creem order *)

Section creem.
Context {D : Type} `{DecimalArithLaws D} (o : affiliate_options).

Lemma positive_quota_int (d : D) n :
  (dec_value d == inject_Z n)%Q → 0 < n →
  positive_quota d = if n <? MaxQuota then Ok n else Err ErrInvalidTopUpQuota.
Proof.
  intros Hd Hn. pose proof (QuotaFromDecimalStrict_int d n Hd ltac:(unfold MinQuota; lia)) as Hs. unfold positive_quota.
  destruct (n <? MaxQuota).
  - rewrite Hs. by destruct (Z.leb_spec n 0); [lia|].
  - destruct Hs as [c ->]. done.
Qed.

Lemma quota_as_amount_ok (r : TopUp) q : quota_as_amount (D:=D) r = Ok q → tp_Amount r = q ∧ 0 < q.
Proof.
  unfold quota_as_amount, positive_quota. destruct (QuotaFromDecimalStrict _) as [q' [c|]] eqn:E; [done|].
  destruct (Z.leb_spec q' 0); [done|]. intros [= ->]. apply QuotaFromDecimalStrict_ok in E as [E _].
  rewrite (Qround_away_int _ (tp_Amount r)) in E by apply dec_NewFromInt_exact. split; [done|lia].
Qed.

(** An administrator cannot complete a Creem order for its worth.  The
    webhook credits the amount of the order, which is quota; the manual
    completion takes it for units and multiplies it by QuotaPerUnit, so that it
    credits 500000 times as much, or refuses the order when that leaves the
    int32 range (every order of more than 4294 quota). *)
Theorem manual_completion_misprices_creem t email by_webhook by_hand (r : TopUp) (q : Z)
    (Hunit : QuotaPerUnit o = float_of_pos false 500000) (Hcreem : tp_PaymentProvider r = PaymentProviderCreem)
    (Hwebhook : completes (D:=D) o (CCreem t email) = Some (t, by_webhook)) (Hworth : by_webhook r = Ok q)
    (Hhand : completes (D:=D) o (CManual t) = Some (t, by_hand)) :
  by_hand r = (if q * 500000 <? MaxQuota then Ok (q * 500000) else Err ErrInvalidTopUpQuota) ∧ by_hand r ≠ Ok q.
Proof.
  injection Hwebhook as <-. injection Hhand as <-. apply quota_as_amount_ok in Hworth as [Ha Hq].
  assert (manual_quota (D:=D) o r = if q * 500000 <? MaxQuota then Ok (q * 500000) else Err ErrInvalidTopUpQuota) as E.
  { unfold manual_quota. rewrite Hcreem. cbn. unfold quota_of_amount. rewrite Hunit, Ha. apply positive_quota_int; [|lia].
    rewrite dec_Mul_exact, dec_NewFromInt_exact, (dec_NewFromFloat_int _ 500000); [|done|by vm_compute|lia].
    by rewrite inject_Z_mult. }
  split; [exact E|]. rewrite E. destruct (Z.ltb_spec (q * 500000) MaxQuota); [|done]. injection 1. lia.
Qed.
End creem.

Definition creem_order : TopUp := MkTopUp 2 7 4000 (S754_zero false) "creem" "creem" 1700000000 0 "pending" 0.

Lemma manual_completion_misprices_creem_witness :
  quota_as_amount (D:=Q) creem_order = Ok 4000 ∧ manual_quota (D:=Q) sample_options creem_order = Ok 2000000000.
Proof.
  assert (quota_as_amount (D:=Q) creem_order = Ok 4000) as E by (by vm_compute). split; [exact E|].
  exact (proj1 (manual_completion_misprices_creem (D:=Q) sample_options "T2" "" _ _ creem_order 4000 eq_refl eq_refl eq_refl E eq_refl)).
Defined.
