(* ===== verification/SubscriptionLife.v ===== *)
(** * Orders and limits of subscriptions

    Theorems about SubscriptionOrders.v: an order grants one subscription, no
    user holds more of a plan than it allows, and a purchase with the wallet
    costs exactly its price. *)

From stdpp Require Import sorting.
From Stdlib Require Import SpecFloat QArith.QArith_base.
From S2P Require Import Prelude GoStrings Interleave QuotaMath Store QuotaBatch QuotaReserve Affiliate TopUp Calendar Subscription SubscriptionOrders BillingRecovery BillingLedger Credits.
#[local] Open Scope string_scope.
#[local] Open Scope list_scope.
#[local] Open Scope Z_scope.

(** ** Tables that stay *)

(** Subscriptions, orders and plans are as before. *)
Record sub_same (d d' : db) : Prop := MkSubSame {
  ss_subs : user_subscriptions d' = user_subscriptions d;
  ss_orders : subscription_orders d' = subscription_orders d;
  ss_plans : subscription_plans d' = subscription_plans d
}.
#[global] Instance sub_same_preorder : PreOrder sub_same.
Proof. split; [by split|]. intros d1 d2 d3 [A1 A2 A3] [B1 B2 B3]. split; congruence. Qed.

(** Orders and plans are as before, and nobody has more subscriptions. *)
Record life_same (d d' : db) : Prop := MkLifeSame {
  ls_orders : subscription_orders d' = subscription_orders d;
  ls_plans : subscription_plans d' = subscription_plans d;
  ls_purchases : ∀ u p, purchases u p d' <= purchases u p d
}.
#[global] Instance life_same_preorder : PreOrder life_same.
Proof.
  split; [intros d; split; [done..|lia]|]. intros d1 d2 d3 [A1 A2 A3] [B1 B2 B3]. split; [congruence..|].
  intros u p. specialize (A3 u p). specialize (B3 u p). lia.
Qed.
Lemma sub_life d d' : sub_same d d' → life_same d d'.
Proof. intros [A1 A2 A3]. split; [done..|]. intros u p. unfold purchases. by rewrite A1. Qed.

Lemma keepsdb_weaken {A} (R R' : relation db) (m : M db A) : (∀ d d', R d d' → R' d d') → KeepsDb R m → KeepsDb R' m.
Proof. intros HR Hm d. by apply HR. Qed.

Lemma same_set_group u g : KeepsDb sub_same (set_group u g).
Proof. unfold set_group. keeps_tac. Qed.
Lemma same_group u : KeepsDb sub_same (getUserGroupByIdTx u).
Proof. unfold getUserGroupByIdTx. keeps_tac. Qed.
#[local] Hint Resolve same_set_group same_group : keeps.
Lemma same_downgrade id sub now : KeepsDb sub_same (downgradeUserGroupForSubscriptionTx id sub now).
Proof. unfold downgradeUserGroupForSubscriptionTx. cbv zeta. keeps_tac. Qed.
Lemma same_upsert now t order : KeepsDb sub_same (upsertSubscriptionTopUpTx now t order).
Proof. unfold upsertSubscriptionTopUpTx. keeps_tac. Qed.
Lemma same_reward {D} `{DecimalArith D} o now src : KeepsDb sub_same (ApplyAffiliateRewardTx (D := D) o now src).
Proof. unfold ApplyAffiliateRewardTx, rewardInviterTx, accrueTx, createAffiliateSkipTx. cbv zeta. keeps_tac. Qed.
#[local] Hint Resolve same_downgrade same_upsert same_reward : keeps.

(** ** How many subscriptions of a plan a user has *)

Definition owned (u p : Z) (m : gmap Z UserSubscription) : Z :=
  Z.of_nat (length (filter (λ e, (s_UserId e.2 =? u) && (s_PlanId e.2 =? p) = true) (map_to_list m))).
Definition counts (u p : Z) (s : UserSubscription) : Z := if (s_UserId s =? u) && (s_PlanId s =? p) then 1 else 0.

Lemma owned_insert u p m id s : m !! id = None → owned u p (<[id := s]> m) = owned u p m + counts u p s.
Proof.
  intros Hid. unfold owned, counts. rewrite (map_to_list_insert _ _ _ Hid), filter_cons. cbn. destruct (_ && _).
  - rewrite decide_True by done. cbn [length]. lia.
  - rewrite decide_False by done. lia.
Qed.
Lemma owned_delete u p m id s : m !! id = Some s → owned u p m = owned u p (delete id m) + counts u p s.
Proof. intros Hid. rewrite <-(insert_delete_id m id s Hid) at 1. apply owned_insert, lookup_delete_eq. Qed.
Lemma owned_replace u p m id s s' : m !! id = Some s → s_UserId s' = s_UserId s → s_PlanId s' = s_PlanId s → owned u p (<[id := s']> m) = owned u p m.
Proof.
  intros Hid E1 E2. rewrite (owned_delete u p m id s Hid). rewrite <-insert_delete_eq, owned_insert by apply lookup_delete_eq.
  unfold counts. by rewrite E1, E2.
Qed.
Lemma owned_fmap u p m f : (∀ s, s_UserId (f s) = s_UserId s ∧ s_PlanId (f s) = s_PlanId s) → owned u p (f <$> m) = owned u p m.
Proof.
  intros Hf. induction m as [|i x m Hi IH] using map_ind; [by rewrite fmap_empty|]. rewrite fmap_insert, !owned_insert by (rewrite ?lookup_fmap, Hi; done).
  rewrite IH. unfold counts. by destruct (Hf x) as [-> ->].
Qed.

(** ** Endings *)

Lemma life_invalidate now id : KeepsDb life_same (invalidateTx now id).
Proof.
  intros d. unfold invalidateTx, FIRST. unfold mbind at 1, M_bind at 1. destruct (user_subscriptions d !! id) as [s|] eqn:E; [|done].
  cbn [snd]. unfold mbind at 1, M_bind at 1, SAVE. etrans; [|apply (keepsdb_weaken _ _ _ sub_life)].
  - split; [done..|]. intros u p. apply Z.eq_le_incl. by apply (owned_replace _ _ _ _ s).
  - keeps_tac.
Qed.
Lemma life_delete now id : KeepsDb life_same (deleteSubscriptionTx now id).
Proof.
  unfold deleteSubscriptionTx. apply keepsdb_bind; [keeps_tac|intros s]. apply keepsdb_bind; [apply (keepsdb_weaken _ _ _ sub_life); keeps_tac|intros target].
  apply keepsdb_bind; [|intros _; keeps_tac]. intros d. split; [done..|]. intros u p. cbn. destruct (user_subscriptions d !! id) as [x|] eqn:E.
  - change (owned u p (delete id (user_subscriptions d)) <= owned u p (user_subscriptions d)). rewrite (owned_delete u p _ id x E).
    unfold counts. destruct (_ && _); lia.
  - unfold purchases. cbn. by rewrite delete_id.
Qed.
Lemma life_expire_user now ts u : KeepsDb life_same (expireUserTx now ts u).
Proof.
  unfold expireUserTx. apply keepsdb_bind; [keeps_tac|intros n]. apply keepsdb_bind; [|intros _].
  - intros d. split; [done..|]. intros v p. apply Z.eq_le_incl. apply owned_fmap. intros s. by destruct (_ && _).
  - apply (keepsdb_weaken _ _ _ sub_life). cbv zeta. keeps_tac.
Qed.

(** ** Beginnings *)

Lemma frame_refresh_loop n u a : Frame (refresh_loop n u a).
Proof.
  assert (∀ f v ver, Frame (updateUserCacheFieldAtVersion u f v ver)) as Hf.
  { intros f v ver. unfold updateUserCacheFieldAtVersion, RedisEnabled. frame_tac. }
  revert a. induction n as [|n IH]; intros a; cbn [refresh_loop]; (apply frame_bind; [apply Hf|intros _]); [frame_tac|].
  apply frame_bind; [apply frame_read; intros now d x d' [_ ->]%FIRST_inv; done|]. intros v. destruct (_ && _); [frame_tac|apply IH].
Qed.
Lemma frame_RefreshUserGroupCache u : Frame (RefreshUserGroupCache u).
Proof.
  unfold RefreshUserGroupCache, RedisEnabled. frame_step; [frame_tac|]. frame_step; [frame_tac|]. frame_step; [frame_tac|].
  apply frame_bind; [apply frame_read; intros now d x d' [_ ->]%FIRST_inv; done|]. intros v. apply frame_refresh_loop.
Qed.
Lemma frame_refresh_group_user u : Frame (log_error (RefreshUserGroupCache u)).
Proof. unfold log_error. apply frame_bind; [apply frame_try, frame_RefreshUserGroupCache|intros; frame_tac]. Qed.
Lemma frame_refresh u g : Frame (refresh_group u g).
Proof. unfold refresh_group. destruct (_ || _); [frame_tac|apply frame_refresh_group_user]. Qed.

(** The expiry pass keeps what the transaction of each user keeps. *)
Section expiry.
Context {R : relation db} `{!PreOrder R} (HR : ∀ now ts u, KeepsDb R (expireUserTx now ts u)).
Lemma keeps_expire_users now us n : Keeps R (expire_users now us n).
Proof using All.
  revert n. induction us as [|u us IH]; intros n; cbn [expire_users]; [keeps_tac|]. apply pay_keeps_bind; [apply keeps_try, keeps_transaction; intros; apply HR|].
  intros [[k g]|e]; [|keeps_tac]. apply pay_keeps_bind; [apply keeps_frame, frame_refresh|intros _; apply IH].
Qed.
Lemma keeps_expire_due limit : Keeps R (ExpireDueSubscriptions limit).
Proof using All.
  unfold ExpireDueSubscriptions, GetTimestamp. cbv zeta. apply pay_keeps_bind; [keeps_tac|intros now]. apply pay_keeps_bind; [keeps_tac|].
  intros [subs|e]; [apply keeps_expire_users|keeps_tac].
Qed.
End expiry.

(** One more subscription of the plan, within its limit. *)
Definition one_granted (userId planId : Z) (plan : SubscriptionPlan) (d d' : db) : Prop :=
  subscription_plans d' = subscription_plans d ∧ (0 < p_MaxPurchasePerUser plan → purchases userId planId d < p_MaxPurchasePerUser plan) ∧
  ∃ sub, user_subscriptions d' = <[next_subscription_id d := sub]> (user_subscriptions d) ∧ s_UserId sub = userId ∧ s_PlanId sub = planId.

Lemma create_grants zone now u p plan src d sub d' : CreateUserSubscriptionFromPlanTx zone now u p plan src d = (Ok sub, d') →
  one_granted u p plan d d' ∧ subscription_orders d' = subscription_orders d.
Proof.
  intros Hc. apply create_spec in Hc as (_ & Hmax & endUnix & _ & Hd). unfold upgraded in Hd. destruct (_ || _); destruct Hd as [-> ->].
  - split; [split_and!; [done..|eauto]|done].
  - destruct (with_group_frame u (TrimSpace (p_UpgradeGroup plan)) d) as (E1 & E2 & E3 & _). split; [split_and!; [done..|eexists; eauto]|done].
Qed.

Lemma keeps_sub {A} (m : M db A) d r d' : KeepsDb sub_same m → m d = (r, d') → sub_same d d'.
Proof. intros Hm E. specialize (Hm d). by rewrite E in Hm. Qed.

Lemma plan_same plan_cache id d r d' : getSubscriptionPlanByIdTx plan_cache id d = (r, d') → d' = d.
Proof. intros E. by apply getSubscriptionPlan_inv in E as [-> _]. Qed.

Lemma or_else_first {K R} `{Countable K} (tbl : db → gmap K R) k e d x d' : or_else (FIRST tbl k) e d = (Ok x, d') → tbl d !! k = Some x ∧ d' = d.
Proof. unfold or_else, FIRST. unfold_m. destruct (tbl d !! k); naive_solver. Qed.

Section runs.
Context {D : Type} `{DecimalArith D} (o : affiliate_options) (zone : Z) (plan_cache : gmap Z SubscriptionPlan).

Lemma complete_spec now t payload provider method d r d' :
  completeOrderTx (D := D) o zone plan_cache now t payload provider method d = (Ok r, d') →
  ∃ order, subscription_orders d !! t = Some order ∧
  ((so_Status order = TopUpStatusSuccess ∧ r = None ∧ d' = d) ∨
   (so_Status order = TopUpStatusPending ∧ ∃ plan order', (getSubscriptionPlanByIdTx plan_cache (so_PlanId order) d).1 = Ok plan ∧
     one_granted (so_UserId order) (so_PlanId order) plan d d' ∧
     subscription_orders d' = <[t := order']> (subscription_orders d) ∧ so_Status order' = TopUpStatusSuccess)).
Proof.
  intros Hc. unfold completeOrderTx in Hc. mstep Hc. apply or_else_first in Hs as [Ho ->]. exists x. split; [done|].
  destruct (_ && _); [done|]. destruct (bool_decide_reflect (so_Status x = TopUpStatusSuccess)) as [Es|Es]; [injection Hc as <- <-; by left|].
  destruct (bool_decide_reflect (so_Status x = TopUpStatusPending)) as [Ep|Ep]; [|done]. right. split; [done|]. cbn [negb] in Hc.
  mstep Hc. pose proof (plan_same _ _ _ _ _ Hs) as ->. mstep Hc. apply FIRST_inv in Hs0 as [_ ->]. mstep Hc.
  apply create_grants in Hs0 as [(G1 & G2 & sub & G3 & G4) G5]. mstep Hc. apply keeps_sub in Hs0 as [U1 U2 U3]; [|keeps_tac].
  cbv zeta in Hc. mstep Hc. injection Hs0 as _ <-. mstep Hc. apply keeps_sub in Hs0 as [A1 A2 A3]; [|keeps_tac]. injection Hc as _ <-.
  eexists x0, _. split_and!; [by rewrite Hs| | |].
  - split_and!; [rewrite A3; cbn; congruence|done|]. exists sub. split_and!; [rewrite A1; cbn; congruence|naive_solver..].
  - rewrite A2. cbn. by rewrite U2, G5.
  - by destruct (bool_decide (payload = "")), (bool_decide (method = "")).
Qed.

(** The wallet of a user. *)
Definition wallet (d : db) (u : Z) : option Z := u_Quota <$> users d !! u.

Lemma create_wallet now u p plan src d sub d' v : CreateUserSubscriptionFromPlanTx zone now u p plan src d = (Ok sub, d') → wallet d' v = wallet d v.
Proof.
  intros Hc. apply create_spec in Hc as (_ & _ & endUnix & _ & Hd). unfold upgraded, with_group in Hd. destruct (_ || _); destruct Hd as [_ ->]; [done|].
  unfold wallet. destruct (users d !! u) as [r|] eqn:E; [|done]. cbn. destruct (decide (u = v)) as [->|Hne];
    [by rewrite lookup_insert_eq, E|by rewrite lookup_insert_ne].
Qed.

Lemma purchase_spec now u p t d charged g d' :
  purchaseTx (D := D) o zone plan_cache now u p t d = (Ok (charged, g), d') →
  ∃ plan quota, (getSubscriptionPlanByIdTx plan_cache p d).1 = Ok plan ∧ p_Enabled plan = true ∧
    calcSubscriptionBalanceQuota (D := D) o (p_PriceAmount plan) = Ok charged ∧ wallet d u = Some quota ∧ (0 < charged → charged <= quota) ∧
    (∀ v, wallet d' v = if decide (v = u) then Some (quota - Z.max 0 charged) else wallet d v) ∧ one_granted u p plan d d' ∧
    subscription_orders d !! t = None ∧ ∃ order, subscription_orders d' = <[t := order]> (subscription_orders d) ∧ so_Status order = TopUpStatusSuccess.
Proof.
  intros Hc. unfold purchaseTx in Hc. mstep Hc. pose proof (plan_same _ _ _ _ _ Hs) as ->. destruct (p_Enabled x) eqn:Een; [|done]. cbn [negb] in Hc.
  destruct (SFltb _ _); [done|]. destruct (bool_decide _); [done|]. mstep Hc. unfold lift_res in Hs0. injection Hs0 as Eq <-. mstep Hc.
  apply FIRST_inv in Hs0 as [Hu ->]. destruct (_ && _) eqn:Eshort; [done|]. mstep Hc.
  assert (sub_same d d0 ∧ ∀ v, wallet d0 v = if decide (v = u) then Some (u_Quota x1 - Z.max 0 x0) else wallet d v) as [Hsame Hw].
  { unfold wallet. destruct (0 <? x0) eqn:E0.
    - apply Z.ltb_lt in E0. unfold UPDATE in Hs0. unfold_m. rewrite Hu in Hs0. injection Hs0 as _ <-. split; [by split|]. intros v. cbn. case_decide as Ev.
      + subst v. rewrite lookup_insert_eq. cbn. f_equal. lia.
      + by rewrite lookup_insert_ne.
    - apply Z.ltb_ge in E0. injection Hs0 as _ <-. split; [done|]. intros v. case_decide as Ev; [|done]. subst v. rewrite Hu. cbn. f_equal. lia. }
  destruct Hsame as [S1 S2 S3]. mstep Hc. pose proof (create_wallet _ _ _ _ _ _ _ _ u Hs1) as _. pose proof Hs1 as Hcr. apply create_grants in Hs1 as [(G1 & G2 & sub & G3 & G4) G5].
  mstep Hc. injection Hs1 as _ <-. mstep Hc. apply CREATE_inv in Hs1 as [Hnone ->]. injection Hc as <- _ <-.
  exists x, (u_Quota x1). assert (next_subscription_id d0 = next_subscription_id d) as En by (unfold next_subscription_id; by rewrite S1).
  assert (∀ a b, purchases a b d0 = purchases a b d) as Ep by (intros a b; unfold purchases; by rewrite S1).
  split_and!; [by rewrite Hs|done|done|unfold wallet; by rewrite Hu| |intros v| | |].
  - intros Hpos. rewrite (proj2 (Z.ltb_lt 0 x0)) in Eshort by done. by apply Z.ltb_ge in Eshort.
  - rewrite <-Hw. exact (create_wallet _ _ _ _ _ _ _ _ v Hcr).
  - split_and!; [cbn; congruence|by rewrite <-Ep|]. exists sub. cbn. rewrite <-En, <-S1. by split.
  - by rewrite <-S2, <-G5.
  - eexists. split; [cbn; by rewrite G5, S2|done].
Qed.

(** ** Sequences of calls *)

Inductive life_op :=
  | OpInsertOrder (tradeNo : string) (order : SubscriptionOrder)
  | OpComplete (tradeNo payload provider method : string)
  | OpExpireOrder (tradeNo provider : string)
  | OpBind (userId planId : Z)
  | OpPurchase (userId planId : Z) (tradeNo : string)
  | OpInvalidate (id : Z)
  | OpDeleteSubscription (id : Z)
  | OpExpireDue (limit : Z).

Definition run_life (op : life_op) : M world unit :=
  match op with
  | OpInsertOrder t order => InsertSubscriptionOrder t order
  | OpComplete t payload provider method => CompleteSubscriptionOrder (D := D) o zone plan_cache t payload provider method
  | OpExpireOrder t provider => ExpireSubscriptionOrder t provider
  | OpBind u p => _ ← AdminBindSubscription zone plan_cache u p; mret tt
  | OpPurchase u p t => PurchaseSubscriptionWithBalance (D := D) o zone plan_cache u p t
  | OpInvalidate id => _ ← AdminInvalidateUserSubscription id; mret tt
  | OpDeleteSubscription id => _ ← AdminDeleteUserSubscription id; mret tt
  | OpExpireDue limit => _ ← ExpireDueSubscriptions limit; mret tt
  end.

(** No user has more subscriptions of a plan than the plan allows. *)
Definition limits_kept (d : db) : Prop := ∀ u p plan, (getSubscriptionPlanByIdTx plan_cache p d).1 = Ok plan → 0 < p_MaxPurchasePerUser plan →
  purchases u p d <= p_MaxPurchasePerUser plan.

(** An order that can still grant a subscription. *)
Definition order_open (t : string) (d : db) : nat :=
  match subscription_orders d !! t with Some x => if bool_decide (so_Status x = TopUpStatusPending) then 1 else 0 | None => 1 end.
(** How many subscriptions a call added for the order. *)
Definition grants (t : string) (op : life_op) (d d' : db) : nat :=
  match op with
  | OpComplete t' _ _ _ => if decide (t' = t) then (size (user_subscriptions d') - size (user_subscriptions d))%nat else 0
  | _ => 0
  end.

Definition plans_unchanged (d d' : db) : Prop := subscription_plans d' = subscription_plans d.
(** What every call respects. *)
Record lives (t : string) (d d' : db) : Prop := MkLives {
  lv_plans : plans_unchanged d d';
  lv_limits : limits_kept d → limits_kept d';
  lv_order : (order_open t d' <= order_open t d)%nat
}.
#[local] Instance lives_preorder t : PreOrder (lives t).
Proof. split; [by split|]. intros d1 d2 d3 [A1 A2 A3] [B1 B2 B3]. split; [unfold plans_unchanged in *; congruence|auto|lia]. Qed.

Lemma plan_by_table p d d' : plans_unchanged d d' → (getSubscriptionPlanByIdTx plan_cache p d').1 = (getSubscriptionPlanByIdTx plan_cache p d).1.
Proof.
  intros E. unfold getSubscriptionPlanByIdTx, FIRST. destruct (p <=? 0); [done|]. destruct (plan_cache !! p); [done|]. unfold_m. unfold plans_unchanged in E.
  rewrite E. by destruct (subscription_plans d !! p).
Qed.

Lemma life_lives t d d' : life_same d d' → lives t d d'.
Proof.
  intros [A1 A2 A3]. split; [done| |unfold order_open; by rewrite A1]. intros Hl u p plan Hp Hpos. rewrite (plan_by_table p d d' A2) in Hp.
  specialize (Hl u p plan Hp Hpos). specialize (A3 u p). lia.
Qed.

Lemma granted_limits u p plan d d' : (getSubscriptionPlanByIdTx plan_cache p d).1 = Ok plan → one_granted u p plan d d' → limits_kept d → limits_kept d'.
Proof.
  intros Hp (G1 & G2 & sub & G3 & G4 & G5) Hl v q plan' Hq Hpos. rewrite (plan_by_table q d d' G1) in Hq.
  change (purchases v q d') with (owned v q (user_subscriptions d')). rewrite G3, owned_insert by apply next_id_fresh. unfold counts. rewrite G4, G5.
  change (owned v q (user_subscriptions d)) with (purchases v q d). specialize (Hl v q plan' Hq Hpos).
  destruct ((u =? v) && (p =? q)) eqn:E; [|lia]. apply andb_true_iff in E as [->%Z.eqb_eq ->%Z.eqb_eq]. rewrite Hp in Hq. injection Hq as <-.
  specialize (G2 Hpos). lia.
Qed.
Lemma granted_size u p plan d d' : one_granted u p plan d d' → size (user_subscriptions d') = S (size (user_subscriptions d)).
Proof. intros (_ & _ & sub & -> & _). by rewrite map_size_insert_None by apply next_id_fresh. Qed.

Lemma transaction_cases {A} (body : Z → M db A) w r w' : transaction body w = (r, w') →
  match r with Ok a => ∃ now, body now (w_db w) = (Ok a, w_db w') | Err _ => w_db w' = w_db w end.
Proof. intros E. apply transaction_inv in E as [_ E]. destruct r; eauto. Qed.

(** A transaction and then calls that leave the tables alone. *)
Lemma then_frame {A B} (body : Z → M db A) (k : A → M world B) w : (∀ a, Frame (k a)) →
  w_db ((a ← transaction body; k a) w).2 = w_db (transaction body w).2.
Proof. intros Hk. unfold mbind, M_bind. destruct (transaction body w) as [[a|e] w1]; [|done]. by destruct (Hk a w1) as (E & _). Qed.

Definition op_fine (t : string) (op : life_op) (d d' : db) : Prop :=
  plans_unchanged d d' ∧ (limits_kept d → limits_kept d') ∧ (order_open t d' + grants t op d d' <= order_open t d)%nat.

Lemma fine_same t op d : op_fine t op d d.
Proof. split_and!; [done..|]. destruct op; cbn; try lia. case_decide; lia. Qed.
Lemma fine_lives t op d d' : (∀ t' a b c, op ≠ OpComplete t' a b c) → lives t d d' → op_fine t op d d'.
Proof. intros Hop [A1 A2 A3]. split_and!; [done..|]. destruct op; cbn; try lia. by edestruct Hop. Qed.

Lemma complete_fine t t' payload provider method w : op_fine t (OpComplete t' payload provider method) (w_db w)
  (w_db (CompleteSubscriptionOrder (D := D) o zone plan_cache t' payload provider method w).2).
Proof.
  unfold CompleteSubscriptionOrder. destruct (bool_decide _); [apply fine_same|]. rewrite then_frame by (intros [[u g]|]; [apply frame_refresh|frame_tac]).
  destruct (transaction _ w) as [r w1] eqn:E. apply transaction_cases in E. cbn [snd]. destruct r as [r|e]; [|rewrite E; apply fine_same].
  destruct E as [now E]. apply complete_spec in E as (x & Hx & [(_ & _ & ->)|(Ep & plan & x' & Hp & Hg & Eo & Es)]); [apply fine_same|].
  split_and!; [apply Hg|by eapply granted_limits|]. cbn [grants]. unfold order_open. rewrite Eo. case_decide as Et.
  - subst t'. rewrite lookup_insert_eq, Hx, (granted_size _ _ _ _ _ Hg), Es, (bool_decide_true (so_Status x = _)) by done.
    rewrite bool_decide_false by done. lia.
  - rewrite lookup_insert_ne by done. lia.
Qed.

Lemma purchase_lives t u p t' w : lives t (w_db w) (w_db (PurchaseSubscriptionWithBalance (D := D) o zone plan_cache u p t' w).2).
Proof.
  unfold PurchaseSubscriptionWithBalance. destruct (_ || _); [done|]. rewrite then_frame.
  2: { intros [c g]. apply frame_bind; [|intros; apply frame_refresh]. unfold log_error, cacheDecrUserQuota, cacheIncrUserQuota, cacheApplyUserQuotaDelta, eval_quota, RedisEnabled. frame_tac. }
  destruct (transaction _ w) as [r w1] eqn:E. apply transaction_cases in E. cbn [snd]. destruct r as [[c g]|e]; [|by rewrite E].
  destruct E as [now E]. apply purchase_spec in E as (plan & quota & Hp & _ & _ & _ & _ & _ & Hg & Hnone & x & Eo & Es).
  split; [apply Hg|by eapply granted_limits|]. unfold order_open. rewrite Eo. destruct (decide (t = t')) as [->|Hne].
  - rewrite lookup_insert_eq, Hnone. destruct (bool_decide _); lia.
  - by rewrite lookup_insert_ne.
Qed.

Lemma bind_lives t u p w : lives t (w_db w) (w_db (AdminBindSubscription zone plan_cache u p w).2).
Proof.
  unfold AdminBindSubscription. destruct (_ || _); [done|]. unfold mbind at 1, M_bind at 1.
  assert (w_db (GetSubscriptionPlanById plan_cache p w).2 = w_db w ∧ ∀ plan, (GetSubscriptionPlanById plan_cache p w).1 = Ok plan →
    (getSubscriptionPlanByIdTx plan_cache p (w_db w)).1 = Ok plan) as [Hdb Hplan].
  { unfold GetSubscriptionPlanById. destruct (_ || _); [done|]. destruct (transaction _ w) as [r w1] eqn:E. apply transaction_cases in E. cbn.
    destruct r as [x|e]; [|done]. destruct E as [_ E]. pose proof (plan_same _ _ _ _ _ E). split; [done|]. intros plan [= ->]. by rewrite E. }
  destruct (GetSubscriptionPlanById plan_cache p w) as [[plan|e] w1]; cbn in Hdb, Hplan; [|cbn; by rewrite Hdb]. specialize (Hplan plan eq_refl).
  rewrite then_frame.
  2: { intros sub. destruct (bool_decide _); [frame_tac|]. apply frame_bind; [|intros; frame_tac]. apply (frame_refresh_group_user u). }
  destruct (transaction _ w1) as [r w2] eqn:E. apply transaction_cases in E. cbn [snd]. rewrite Hdb in E. destruct r as [x|e]; [|by rewrite E].
  destruct E as [now E]. mstep E. apply FIRST_inv in Hs as [_ ->]. apply create_grants in E as [Hg Eo].
  split; [apply Hg|by eapply granted_limits|unfold order_open; by rewrite Eo].
Qed.

Lemma limits_same d d' : user_subscriptions d' = user_subscriptions d → plans_unchanged d d' → limits_kept d → limits_kept d'.
Proof.
  intros E1 E2 Hl u p plan Hp Hpos. rewrite (plan_by_table p d d' E2) in Hp. specialize (Hl u p plan Hp Hpos). unfold purchases in *. by rewrite E1.
Qed.

Lemma insert_lives t t' x w : lives t (w_db w) (w_db (InsertSubscriptionOrder t' x w).2).
Proof.
  destruct (InsertSubscriptionOrder t' x w) as [r w1] eqn:E. apply transaction_cases in E. cbn [snd]. destruct r as [[]|e]; [|by rewrite E].
  destruct E as [now E]. mstep E. injection Hs as _ <-. apply CREATE_inv in E as [Hn ->]. split; [done|by apply limits_same|].
  unfold order_open. cbn. destruct (decide (t = t')) as [->|Hne]; [rewrite lookup_insert_eq, Hn; destruct (bool_decide _); lia|by rewrite lookup_insert_ne].
Qed.
Lemma expire_order_lives t t' provider w : lives t (w_db w) (w_db (ExpireSubscriptionOrder t' provider w).2).
Proof.
  unfold ExpireSubscriptionOrder. destruct (bool_decide _); [done|]. destruct (transaction _ w) as [r w1] eqn:E. apply transaction_cases in E.
  cbn [snd]. destruct r as [[]|e]; [|by rewrite E]. destruct E as [now E]. unfold expireOrderTx in E. mstep E. apply or_else_first in Hs as [Hx ->].
  destruct (_ && _); [done|]. destruct (bool_decide_reflect (so_Status x = TopUpStatusPending)) as [Ep|Ep]; cbn [negb] in E; [|by injection E as <-].
  injection E as <-. split; [done|by apply limits_same|]. unfold order_open. cbn. destruct (decide (t = t')) as [->|Hne]; [|by rewrite lookup_insert_ne].
  rewrite lookup_insert_eq. cbn. rewrite bool_decide_false by done. lia.
Qed.

Lemma keeps_lives {A} t (m : M world A) : Keeps life_same m → ∀ w, lives t (w_db w) (w_db (m w).2).
Proof. intros Hm w. apply life_lives, Hm. Qed.
Lemma keeps_ending (body : Z → Z → M db (Z * string)) id : (∀ now, KeepsDb life_same (body now id)) →
  Keeps life_same (r ← transaction (λ now, body now id); refresh_group r.1 r.2;; mret (reverts_to r.2)).
Proof.
  intros Hb. apply pay_keeps_bind; [by apply keeps_transaction|intros r]. apply pay_keeps_bind; [apply keeps_frame, frame_refresh|intros _; keeps_tac].
Qed.

Lemma run_mret {A} (m : M world A) w : w_db ((_ ← m; mret tt) w).2 = w_db (m w).2.
Proof. unfold mbind, M_bind. by destruct (m w) as [[a|e] w1]. Qed.

Lemma life_op_fine t op w : op_fine t op (w_db w) (w_db (run_life op w).2).
Proof.
  destruct op; cbn [run_life]; rewrite ?run_mret; [|apply complete_fine|..]; apply fine_lives; try done;
    [apply insert_lives|apply expire_order_lives|apply bind_lives|apply purchase_lives|..]; apply keeps_lives.
  - unfold AdminInvalidateUserSubscription. destruct (_ <=? 0); [keeps_tac|]. apply keeps_ending. intros now. apply life_invalidate.
  - unfold AdminDeleteUserSubscription. destruct (_ <=? 0); [keeps_tac|]. apply keeps_ending. intros now. apply life_delete.
  - apply keeps_expire_due. intros. apply life_expire_user.
Qed.

(** A run of calls, whatever fails, with the subscriptions granted for an order. *)
Definition life_step (t : string) (s : world * nat) (op : life_op) : world * nat :=
  let w' := (run_life op s.1).2 in (w', s.2 + grants t op (w_db s.1) (w_db w'))%nat.
Definition life_runs (t : string) (ops : list life_op) (w : world) : world * nat := foldl (life_step t) (w, 0%nat) ops.

Lemma life_runs_fine t ops s : let s' := foldl (life_step t) s ops in
  (limits_kept (w_db s.1) → limits_kept (w_db s'.1)) ∧ (s'.2 + order_open t (w_db s'.1) <= s.2 + order_open t (w_db s.1))%nat.
Proof.
  revert s. induction ops as [|op ops IH]; intros s; [done|]. cbn [foldl]. destruct (IH (life_step t s op)) as [H1 H2].
  destruct (life_op_fine t op s.1) as (_ & F2 & F3). unfold life_step in *. cbn [fst snd] in *. split; [auto|lia].
Qed.

(** C20: an order grants one subscription: in any sequence of calls on orders
    and subscriptions, repeated webhooks and failing statements included, the
    completions of an order add at most one subscription, and none once the
    order is no longer pending. *)
Theorem order_grants_one_subscription t ops w :
  ((life_runs t ops w).2 + order_open t (w_db (life_runs t ops w).1) <= order_open t (w_db w))%nat.
Proof. destruct (life_runs_fine t ops (w, 0%nat)) as [_ H1]. exact H1. Qed.

(** C21: no sequence of purchases, completed orders and bindings gives a user
    more subscriptions of a plan than the plan allows. *)
Theorem purchase_limit_kept t ops w : limits_kept (w_db w) → limits_kept (w_db (life_runs t ops w).1).
Proof. intros Hl. destruct (life_runs_fine t ops (w, 0%nat)) as [H1 _]. by apply H1. Qed.

(** The calls after a purchase: they cannot fail, and leave the tables alone. *)
Lemma log_error_ok (m : M world unit) w : Frame m → ∃ w1, log_error m w = (Ok tt, w1) ∧ w_db w1 = w_db w.
Proof. intros Hm. destruct (Hm w) as (E & _). unfold log_error. unfold_m. destruct (m w) as [[[]|e] w1]; eauto. Qed.
Lemma after_purchase u c g w : ∃ w1,
  ((if 0 <? c then log_error (cacheDecrUserQuota u c) else mret tt);; refresh_group u g) w = (Ok tt, w1) ∧ w_db w1 = w_db w.
Proof.
  assert (∃ w1, (if 0 <? c then log_error (cacheDecrUserQuota u c) else mret tt) w = (Ok tt, w1) ∧ w_db w1 = w_db w) as (w1 & E1 & H1).
  { destruct (0 <? c); [|by eexists]. apply log_error_ok. unfold cacheDecrUserQuota, cacheIncrUserQuota, cacheApplyUserQuotaDelta, eval_quota, RedisEnabled. frame_tac. }
  assert (∃ w2, refresh_group u g w1 = (Ok tt, w2) ∧ w_db w2 = w_db w1) as (w2 & E2 & H2).
  { unfold refresh_group. destruct (_ || _); [by eexists|]. apply log_error_ok, frame_RefreshUserGroupCache. }
  exists w2. unfold mbind, M_bind. by rewrite E1, E2, H2, H1.
Qed.

(** C22: a purchase with the wallet that fails leaves the tables as they were;
    one that succeeds takes exactly the price of an enabled plan from a wallet
    that holds it, and gives one subscription of that plan. *)
Theorem balance_purchase_exact u p t w :
  let '(r, w') := PurchaseSubscriptionWithBalance (D := D) o zone plan_cache u p t w in
  match r with
  | Err _ => w_db w' = w_db w
  | Ok _ => ∃ plan quota charged, (getSubscriptionPlanByIdTx plan_cache p (w_db w)).1 = Ok plan ∧ p_Enabled plan = true ∧
      calcSubscriptionBalanceQuota (D := D) o (p_PriceAmount plan) = Ok charged ∧ wallet (w_db w) u = Some quota ∧ (0 < charged → charged <= quota) ∧
      (∀ v, wallet (w_db w') v = if decide (v = u) then Some (quota - Z.max 0 charged) else wallet (w_db w) v) ∧
      one_granted u p plan (w_db w) (w_db w')
  end.
Proof.
  unfold PurchaseSubscriptionWithBalance. destruct (_ || _); [done|]. unfold mbind at 1, M_bind at 1.
  destruct (transaction _ w) as [[[c g]|e] w1] eqn:E; apply transaction_cases in E; [|done]. destruct E as [now E].
  apply purchase_spec in E as (plan & quota & H1 & H2 & H3 & H4 & H5 & H6 & H7 & _).
  destruct (after_purchase u c g w1) as (w2 & -> & Hdb). rewrite Hdb. exists plan, quota, c. by split_and!.
Qed.
End runs.

(** ** A plan that may be bought once *)

Definition vip_plan : SubscriptionPlan :=
  MkPlan "vip" "never" 0 0 None (float_of_pos false 2) "month" 1 0 true None 1 "vip" "".
Definition vip_world : world :=
  world_of (empty_db <| users := {[7 := user_with 5000 <| u_Group := "default" |>]} |> <| subscription_plans := {[1 := vip_plan]} |>
    <| subscription_orders := {["P1" := MkOrder 1 7 1 (float_of_pos false 2) "card" "stripe" TopUpStatusPending 1700000000 0 0 ""]} |>).
Definition vip_options : affiliate_options := MkAffOptions (float_of_pos false 1000) false 0 0 0 0 (float_of_pos false 3) 5 true.
Definition vip_calls : list life_op := [OpPurchase 7 1 "B1"; OpComplete "P1" "" "" ""; OpPurchase 7 1 "B2"; OpBind 7 1; OpExpireDue 0].

Lemma purchase_limit_kept_witness :
  let w' := (life_runs (D := Q) vip_options 0 ∅ "P1" vip_calls vip_world).1 in
  purchases 7 1 (w_db w') = 1 ∧ wallet (w_db w') 7 = Some 3000 ∧ limits_kept ∅ (w_db w').
Proof.
  intros w'. split; [by vm_compute|]. split; [by vm_compute|].
  apply (purchase_limit_kept (D := Q) vip_options 0 ∅ "P1" vip_calls vip_world).
  intros u p plan _ Hpos. change (purchases u p (w_db vip_world)) with 0. lia.
Defined.
