(* ===== verification/SubscriptionGroups.v ===== *)
(** * The groups subscriptions raise

    A plan may raise its holder to a group.  [upgrade_undone]: when the
    subscription ends, the group the user had before is restored.
    [renewed_upgrade_stays]: not when it was bought while the user was already
    in the group, as in every renewal before expiry. *)

From stdpp Require Import sorting.
From S2P Require Import Prelude GoStrings Interleave QuotaMath Store QuotaBatch QuotaReserve Affiliate TopUp Calendar Subscription SubscriptionOrders BillingRecovery BillingLedger Credits SubscriptionLife.
#[local] Open Scope string_scope.
#[local] Open Scope list_scope.
#[local] Open Scope Z_scope.

Definition group_of (u : Z) (d : db) : option string := u_Group <$> users d !! u.

(** Expiry passes at given times with given limits. *)
Definition pass (w : world) (call : Z * Z) : world := (ExpireDueSubscriptions call.2 (w <| w_now := call.1 |>)).2.
Definition passes (calls : list (Z * Z)) (w : world) : world := foldl pass w calls.

(** ** The subscription that expired last *)

#[local] Instance ends_after_total : Total ends_after.
Proof. intros a b. unfold ends_after, ends_before. lia. Qed.
#[local] Instance ends_after_trans : Transitive ends_after.
Proof. intros a b c. unfold ends_after, ends_before. lia. Qed.

Lemma merge_sort_head {A} (le : relation A) `{!RelDecision le, !Total le, !Transitive le} l x : x ∈ l → (∀ y, y ∈ l → y = x ∨ ¬ le y x) →
  head (merge_sort le l) = Some x.
Proof.
  intros Hx Hl. pose proof (StronglySorted_merge_sort le l) as Hs. rewrite <-(merge_sort_Permutation le l) in Hx.
  assert (∀ y, y ∈ merge_sort le l → y = x ∨ ¬ le y x) as Hl' by (intros y; rewrite merge_sort_Permutation; apply Hl).
  destruct (merge_sort le l) as [|h t]; [by apply not_elem_of_nil in Hx|]. cbn. apply elem_of_cons in Hx as [->|Hx]; [done|].
  apply StronglySorted_inv in Hs as [_ Hs]. rewrite Forall_forall in Hs. destruct (Hl' h) as [->|Hn]; [left|done|]. by destruct (Hn (Hs x Hx)).
Qed.

(** A row that defines a group transition and has expired. *)
Definition expired_transition (u : Z) (s : UserSubscription) : Prop :=
  s_UserId s = u ∧ s_Status s = "expired" ∧ (s_DowngradeGroup s ≠ "" ∨ s_UpgradeGroup s ≠ "").

Lemma last_expired_spec u d k s : user_subscriptions d !! k = Some s → expired_transition u s →
  (∀ k' s', user_subscriptions d !! k' = Some s' → k' ≠ k → s_UserId s' = u → s_EndTime s' < s_EndTime s) →
  last_expired u d = Some (k, s).
Proof.
  intros Hk (H1 & H2 & H3) Hmax. unfold last_expired. apply (merge_sort_head ends_after).
  - apply list_elem_of_filter. split; [|by apply elem_of_map_to_list]. cbn. rewrite H1, Z.eqb_refl, bool_decide_true by done. cbn.
    apply negb_true_iff, andb_false_iff. rewrite !bool_decide_eq_false. naive_solver.
  - intros [k' s'] [Hf Hin]%list_elem_of_filter. apply elem_of_map_to_list in Hin. cbn in *. destruct (decide (k' = k)) as [->|Hne]; [left; congruence|right].
    apply andb_true_iff in Hf as [[Hu _]%andb_true_iff _]. apply Z.eqb_eq in Hu. specialize (Hmax k' s' Hin Hne Hu). unfold ends_after, ends_before. cbn. lia.
Qed.

(** The rows after the first statement of the pass. *)
Definition marked_row (now ts u : Z) (s : UserSubscription) : UserSubscription :=
  if (s_UserId s =? u) && is_expiring now s then s <| s_Status := "expired" |> <| s_UpdatedAt := ts |> else s.

Lemma marked_frame now ts u s : let s' := marked_row now ts u s in s_UserId s' = s_UserId s ∧ s_EndTime s' = s_EndTime s ∧
  s_UpgradeGroup s' = s_UpgradeGroup s ∧ s_PrevUserGroup s' = s_PrevUserGroup s ∧ s_DowngradeGroup s' = s_DowngradeGroup s.
Proof. unfold marked_row. by destruct (_ && _). Qed.

(** Whether another subscription keeps the group. *)
Lemma has_upgrade_true now u but d k s : user_subscriptions d !! k = Some s → but k = false → keeps_group now u s = true → has_upgrade now u but d = true.
Proof.
  intros Hk Hb Hg. apply bool_decide_eq_true. intros E. apply (not_elem_of_nil (k, s)). rewrite <-E. apply list_elem_of_filter.
  split; [cbn; by rewrite Hb, Hg|by apply elem_of_map_to_list].
Qed.
Lemma has_upgrade_false now u but d : (∀ k s, user_subscriptions d !! k = Some s → keeps_group now u s = false) → has_upgrade now u but d = false.
Proof.
  intros Hall. apply bool_decide_eq_false. intros Hn. apply Hn, elem_of_nil_inv. intros [k s] [Hf Hin]%list_elem_of_filter.
  apply elem_of_map_to_list in Hin. cbn in Hf. rewrite (Hall k s Hin), andb_false_r in Hf. done.
Qed.

(** ** A renewed subscription *)

(** The user is in the group of a subscription that ends after all others and
    remembers no group. *)
Record renewed (u : Z) (g : string) (d : db) : Prop := MkRenewed {
  rn_group : group_of u d = Some g;
  rn_row : ∃ k s, user_subscriptions d !! k = Some s ∧ s_UserId s = u ∧ s_UpgradeGroup s ≠ "" ∧ s_PrevUserGroup s = "" ∧ s_DowngradeGroup s = "" ∧
    (s_Status s = "active" ∨ s_Status s = "expired") ∧ 0 < s_EndTime s ∧
    ∀ k' s', user_subscriptions d !! k' = Some s' → k' ≠ k → s_UserId s' = u → s_EndTime s' < s_EndTime s
}.
Definition stays (u : Z) (g : string) (d d' : db) : Prop := renewed u g d → renewed u g d'.
#[local] Instance stays_preorder u g : PreOrder (stays u g).
Proof. split; [by intros d ?|]. intros d1 d2 d3 H1 H2 H. by apply H2, H1. Qed.

Lemma marked_renewed now ts v u g d : renewed u g d → renewed u g (d <| user_subscriptions := marked_row now ts v <$> user_subscriptions d |>).
Proof.
  intros [Hg (k & s & Hk & Hu & Hup & Hp & Hd & Hst & He & Hmax)]. split; [done|]. exists k, (marked_row now ts v s).
  destruct (marked_frame now ts v s) as (E1 & E2 & E3 & E4 & E5). cbn. rewrite lookup_fmap, Hk, E1, E2, E3, E4, E5. split_and!; try done.
  - unfold marked_row. destruct (_ && _); [by right|done].
  - intros k' s'. rewrite lookup_fmap. intros (s0 & Hs0 & ->)%fmap_Some Hne. destruct (marked_frame now ts v s0) as (-> & -> & _). by apply (Hmax k').
Qed.

Lemma set_group_other u v g t d : v ≠ u → renewed u g d → renewed u g (with_group v t d).
Proof.
  intros Hne [Hg Hr]. destruct (with_group_frame v t d) as (E & _). split; [|by rewrite E]. unfold group_of, with_group in *.
  destruct (users d !! v); [|done]. cbn. by rewrite lookup_insert_ne.
Qed.

(** What the transaction of a user leaves. *)
Definition marked_db (now ts v : Z) (d : db) : db := d <| user_subscriptions := marked_row now ts v <$> user_subscriptions d |>.
Definition lowered (v : Z) (d : db) : db :=
  match last_expired v d with
  | Some (_, s) =>
      let current := default "" (group_of v d) in
      let target := expired_target s current in
      if (v <=? 0) || bool_decide (target = "") || bool_decide (target = current) then d else with_group v target d
  | None => d
  end.
Lemma expire_user_db now ts v d : (expireUserTx now ts v d).2 =
  let d1 := marked_db now ts v d in if has_upgrade now v (λ _, false) d1 then d1 else lowered v d1.
Proof.
  unfold expireUserTx, lowered, group_of. unfold_m. change (d <| user_subscriptions ::= _ |>) with (marked_db now ts v d).
  destruct (has_upgrade _ _ _ _); [done|]. destruct (last_expired v _) as [[k s]|]; [|done]. unfold getUserGroupByIdTx. destruct (v <=? 0); [done|]. unfold_m.
  assert (match users (marked_db now ts v d) !! v with Some u => u_Group u | None => "" end = default "" (u_Group <$> users (marked_db now ts v d) !! v)) as ->
    by (by destruct (users _ !! v)).
  destruct (_ || _); [done|]. by rewrite set_group_eq.
Qed.

Lemma prevless s current : s_DowngradeGroup s = "" → s_PrevUserGroup s = "" → expired_target s current = "".
Proof. intros Hd Hp. unfold expired_target. rewrite Hd, Hp. cbn. by rewrite orb_true_r. Qed.

Lemma stays_expire now ts v u g : KeepsDb (stays u g) (expireUserTx now ts v).
Proof.
  intros d Hr. apply (marked_renewed now ts v) in Hr. fold (marked_db now ts v d) in Hr. rewrite expire_user_db. cbv zeta.
  destruct (has_upgrade _ _ _ _) eqn:Eh; [done|]. unfold lowered. destruct (decide (v = u)) as [->|Hne].
  - pose proof Hr as [_ (k & s & Hk & Hu & Hup & Hp & Hd & Hst & He & Hmax)].
    assert (s_Status s = "expired") as Hex.
    { destruct Hst as [Ha|]; [|done]. exfalso. cbn in Hk. rewrite lookup_fmap in Hk. apply fmap_Some in Hk as (s0 & Hk & ->).
      destruct (marked_frame now ts u s0) as (E1 & E2 & E3 & _). destruct (decide (now < s_EndTime s0)) as [Hl|Hl].
      - rewrite (has_upgrade_true now u _ _ k (marked_row now ts u s0)) in Eh; [done|cbn; by rewrite lookup_fmap, Hk|done|].
        unfold keeps_group, is_active. rewrite Hu, Ha, E2, Z.eqb_refl, (bool_decide_false (_ = "")) by done. cbn. by rewrite (proj2 (Z.ltb_lt _ _) Hl).
      - revert Ha. unfold marked_row, is_expiring. rewrite E2 in He. rewrite <-E1, Hu, Z.eqb_refl, (proj2 (Z.ltb_lt _ _) He), (proj2 (Z.leb_le (s_EndTime s0) now)) by lia.
        cbn. destruct (bool_decide_reflect (s_Status s0 = "active")); cbn; done. }
    rewrite (last_expired_spec u _ k s Hk) by (try done; split_and!; auto). rewrite prevless by done. by rewrite orb_true_r.
  - destruct (last_expired v _) as [[k s]|]; [|done]. destruct (_ || _); [done|]. by apply set_group_other.
Qed.

Lemma passes_renewed u g calls w : renewed u g (w_db w) → renewed u g (w_db (passes calls w)).
Proof.
  revert w. induction calls as [|[now limit] calls IH]; intros w Hr; [done|]. cbn. apply IH.
  by apply (keeps_expire_due (R := stays u g) (λ now ts v, stays_expire now ts v u g) limit (w <| w_now := now |>)).
Qed.

(** What [CreateUserSubscriptionFromPlanTx] does for a user in a group. *)
Lemma create_group zone now u p plan src d sub d' current : group_of u d = Some current → TrimSpace (p_UpgradeGroup plan) ≠ "" →
  CreateUserSubscriptionFromPlanTx zone now u p plan src d = (Ok sub, d') →
  user_subscriptions d' = <[next_subscription_id d := sub]> (user_subscriptions d) ∧ s_UserId sub = u ∧ s_Status sub = "active" ∧
  s_UpgradeGroup sub = TrimSpace (p_UpgradeGroup plan) ∧ s_DowngradeGroup sub = TrimSpace (p_DowngradeGroup plan) ∧
  if decide (current = TrimSpace (p_UpgradeGroup plan)) then s_PrevUserGroup sub = "" ∧ users d' = users d
  else s_PrevUserGroup sub = current ∧ users d' = users (with_group u (TrimSpace (p_UpgradeGroup plan)) d).
Proof.
  intros Hg Hne Hc. apply create_spec in Hc as (_ & _ & e & _ & Hd). unfold upgraded in Hd.
  assert (match users d !! u with Some u => u_Group u | None => "" end = current) as Ecur by (unfold group_of in Hg; destruct (users d !! u); by simplify_eq/=).
  rewrite Ecur, (bool_decide_false (_ = "")) in Hd by done. cbn [orb] in Hd. case_bool_decide as Eg; destruct Hd as [-> ->]; case_decide; done.
Qed.

(** A subscription bought while its holder is already in the group of the
    plan, as in every renewal before expiry, keeps the user in the group for
    good: it remembers no group to return to, and when it ends last, no expiry
    pass, at any time, lowers the user again. *)
Theorem renewed_upgrade_stays zone now u p plan src w sub d' g calls :
  group_of u (w_db w) = Some g → TrimSpace (p_UpgradeGroup plan) = g → g ≠ "" → TrimSpace (p_DowngradeGroup plan) = "" →
  CreateUserSubscriptionFromPlanTx zone now u p plan src (w_db w) = (Ok sub, d') → 0 < s_EndTime sub →
  (∀ k s, user_subscriptions (w_db w) !! k = Some s → s_UserId s = u → s_EndTime s < s_EndTime sub) →
  group_of u (w_db (passes calls (w <| w_db := d' |>))) = Some g.
Proof.
  intros Hg Eg Hne Hdown Hc He Hmax. subst g. destruct (create_group _ _ _ _ _ _ _ _ _ _ Hg Hne Hc) as (Es & Hu & Hst & Hup & Hdn & Hprev).
  rewrite decide_True in Hprev by done. destruct Hprev as [Hprev Eu]. apply passes_renewed. cbn. split; [unfold group_of; by rewrite Eu|].
  exists (next_subscription_id (w_db w)), sub. rewrite Es, lookup_insert_eq, Hup, Hdn, Hdown. split_and!; auto.
  intros k s Hk Hk'. rewrite lookup_insert_ne in Hk by done. by apply (Hmax k).
Qed.

(** Otherwise an upgrade is undone: a subscription that raises the group
    of a user who has no other is in force until it ends, and the expiry of the
    user then restores the users as they were. *)
Theorem upgrade_undone zone now u p plan src d sub d' g0 later ts :
  group_of u d = Some g0 → g0 ≠ "" → TrimSpace g0 = g0 →
  TrimSpace (p_UpgradeGroup plan) = p_UpgradeGroup plan → p_UpgradeGroup plan ≠ "" → p_UpgradeGroup plan ≠ g0 → p_DowngradeGroup plan = "" →
  (∀ k s, user_subscriptions d !! k = Some s → s_UserId s ≠ u) →
  CreateUserSubscriptionFromPlanTx zone now u p plan src d = (Ok sub, d') → 0 < s_EndTime sub →
  group_of u d' = Some (p_UpgradeGroup plan) ∧
  (later < s_EndTime sub → users (expireUserTx later ts u d').2 = users d') ∧
  (s_EndTime sub <= later → users (expireUserTx later ts u d').2 = users d).
Proof.
  intros Hg Hg0 Ht0 Htg Hne Hdiff Hdown Hnone Hc He. assert (0 < u) as Hu0 by (by apply create_spec in Hc as [? _]).
  destruct (create_group _ _ _ _ _ _ _ _ _ _ Hg ltac:(by rewrite Htg) Hc) as (Es & Hu & Hst & Hup & Hdn & Hprev).
  rewrite Htg, Hdown in *. rewrite decide_False in Hprev by done. destruct Hprev as [Hprev Eu]. set (g := p_UpgradeGroup plan) in *.
  unfold group_of in Hg. destruct (users d !! u) as [r|] eqn:Er; [|done]. injection Hg as Hg.
  unfold with_group in Eu. rewrite Er in Eu. cbn in Eu.
  assert (group_of u d' = Some g) as Hg' by (unfold group_of; by rewrite Eu, lookup_insert_eq).
  set (k := next_subscription_id d) in *. set (sub' := marked_row later ts u sub). destruct (marked_frame later ts u sub) as (F1 & F2 & F3 & F4 & F5). fold sub' in F1, F2, F3, F4, F5.
  assert (user_subscriptions (marked_db later ts u d') !! k = Some sub') as Hk by (cbn; by rewrite lookup_fmap, Es, lookup_insert_eq).
  assert (∀ k' s, user_subscriptions (marked_db later ts u d') !! k' = Some s → k' ≠ k → s_UserId s ≠ u) as Hothers.
  { cbn. intros k' s. rewrite lookup_fmap, Es. intros (s0 & Hs0 & ->)%fmap_Some Hk'. rewrite lookup_insert_ne in Hs0 by done.
    destruct (marked_frame later ts u s0) as (-> & _). by apply (Hnone k'). }
  split_and!; [done|intros Hl|intros Hl]; rewrite expire_user_db; cbv zeta.
  - rewrite (has_upgrade_true later u _ _ k sub' Hk); [done..|]. unfold keeps_group, is_active, sub', marked_row, is_expiring.
    rewrite (proj2 (Z.leb_gt (s_EndTime sub) later)), !andb_false_r, Hu, Hst, Hup, Z.eqb_refl, (bool_decide_false (g = "")), (proj2 (Z.ltb_lt later _)) by done. done.
  - assert (sub' = sub <| s_Status := "expired" |> <| s_UpdatedAt := ts |>) as Esub.
    { unfold sub', marked_row, is_expiring. by rewrite Hu, Hst, Z.eqb_refl, (proj2 (Z.ltb_lt 0 _)), (proj2 (Z.leb_le (s_EndTime sub) later)) by done. }
    rewrite has_upgrade_false.
    2: { intros k' s Hs. unfold keeps_group, is_active. destruct (decide (k' = k)) as [->|Hk']; [|by rewrite (proj2 (Z.eqb_neq _ _) (Hothers k' s Hs Hk'))].
      rewrite Hk in Hs. injection Hs as <-. rewrite Esub. cbn. by rewrite andb_false_r. }
    unfold lowered. rewrite (last_expired_spec u _ k sub' Hk); [|split_and!; [congruence|by rewrite Esub|right; congruence]|].
    2: { intros k' s Hs Hk' E. by destruct (Hothers k' s Hs Hk'). }
    change (group_of u (marked_db later ts u d')) with (group_of u d'). rewrite Hg'. cbn [from_option id].
    assert (expired_target sub' g = g0) as ->.
    { unfold expired_target. rewrite F3, F4, F5, Hup, Hdn, Hprev, Htg, Ht0. cbn.
      by rewrite (bool_decide_true (g = g)), (bool_decide_false (g = "")), (bool_decide_false (g0 = "")) by done. }
    rewrite (proj2 (Z.leb_gt u 0)), !bool_decide_false by done. cbn. unfold with_group. cbn. rewrite Eu, lookup_insert_eq. cbn. rewrite insert_insert_eq.
    apply insert_id. rewrite Er. f_equal. destruct r. cbn in *. by subst.
Qed.

(** A month bought, and renewed after ten days. *)
Definition first_month : M db UserSubscription := CreateUserSubscriptionFromPlanTx 0 1700000000 7 1 (vip_plan <| p_MaxPurchasePerUser := 0 |>) "order".
Definition second_month : M db UserSubscription := CreateUserSubscriptionFromPlanTx 0 1700864000 7 1 (vip_plan <| p_MaxPurchasePerUser := 0 |>) "order".
Definition vip_month : world := vip_world <| w_db := (first_month (w_db vip_world)).2 |>.
Definition vip_sub (r : res UserSubscription) : UserSubscription := match r with Ok s => s | Err _ => subscription_with 0 0 0 0 true 0 end.

Lemma renewed_upgrade_stays_witness :
  let d' := (second_month (w_db vip_month)).2 in
  let calls := [(1703000000, 0); (1704000000, 0); (1800000000, 0)] in
  let w' := passes calls (vip_month <| w_db := d' |>) in
  (s_Status <$> user_subscriptions (w_db w')) = {[1 := "expired"; 2 := "expired"]} ∧ group_of 7 (w_db w') = Some "vip".
Proof.
  intros d' calls w'. split; [by vm_compute|].
  apply (renewed_upgrade_stays 0 1700864000 7 1 (vip_plan <| p_MaxPurchasePerUser := 0 |>) "order" vip_month (vip_sub (second_month (w_db vip_month)).1) d' "vip" calls).
  1-6: by vm_compute.
  intros k s Hk _.
  assert (forallb (λ e, s_EndTime e.2 <? s_EndTime (vip_sub (second_month (w_db vip_month)).1)) (map_to_list (user_subscriptions (w_db vip_month))) = true)
    as HF by (by vm_compute).
  apply elem_of_map_to_list, list_elem_of_In in Hk. exact (proj1 (Z.ltb_lt _ _) (proj1 (forallb_forall _ _) HF (k, s) Hk)).
Defined.

Lemma upgrade_undone_witness :
  let d' := (first_month (w_db vip_world)).2 in
  group_of 7 d' = Some "vip" ∧ users (expireUserTx 1702000000 1702000000 7 d').2 = users d' ∧
  users (expireUserTx 1703000000 1703000000 7 d').2 = users (w_db vip_world).
Proof.
  intros d'. assert (s_EndTime (vip_sub (first_month (w_db vip_world)).1) = 1702592000) as Hend by (by vm_compute).
  assert (p_UpgradeGroup (vip_plan <| p_MaxPurchasePerUser := 0 |>) = "vip") as Hvip by (by vm_compute).
  assert (∀ later ts, group_of 7 d' = Some "vip" ∧ (later < 1702592000 → users (expireUserTx later ts 7 d').2 = users d') ∧
    (1702592000 <= later → users (expireUserTx later ts 7 d').2 = users (w_db vip_world))) as Hall.
  { intros later ts. rewrite <-Hend, <-Hvip. apply (upgrade_undone 0 1700000000 7 1 (vip_plan <| p_MaxPurchasePerUser := 0 |>) "order" (w_db vip_world)
      (vip_sub (first_month (w_db vip_world)).1) d' "default" later ts).
    1-7: by vm_compute.
    1: by intros k s Hk.
    all: by vm_compute. }
  split; [apply (Hall 0 0)|]. split; [by apply Hall|by apply Hall].
Defined.
