(* ===== verification/AffiliateBooks.v ===== *)
(** * The books of affiliate rewards

    The affiliate columns of a user agree with the ledger: what is frozen is
    the sum of the accruals that are not thawed, and everything ever earned is
    available, frozen or transferred.  No invitee earns an inviter more than
    the cap.  Every payment operation keeps this, in every order. *)

From S2P Require Import GoStrings.
From S2P Require Import Prelude QuotaMath Store Calendar QuotaBatch QuotaReserve Affiliate TopUp Subscription BillingRecovery BillingLedger Credits.
From Stdlib Require Import QArith SpecFloat.
#[local] Open Scope string_scope.
#[local] Open Scope Z_scope.

Definition still_frozen (u : Z) (r : AffiliateLedger) : bool :=
  (al_UserId r =? u) && bool_decide (al_Action r = ActionAccrue) && (0 <? al_FrozenUntil r) && (al_ThawedAt r =? 0).
Definition frozen_rows (d : db) (u : Z) : Z :=
  map_sum (λ _ r, if still_frozen u r then al_RewardQuota r else 0) (affiliate_ledgers d).
Definition transferred (d : db) (u : Z) : Z :=
  map_sum (λ _ r, if decide (al_UserId r = u ∧ al_Action r = ActionTransfer) then al_RewardQuota r else 0)
    (affiliate_ledgers d).

Section books.
Context {D : Type} `{DecimalArith D} (o : affiliate_options).

(** The columns of one user: available, frozen, ever earned. *)
Definition columns_agree (d : db) (u : Z) (c : Z * Z * Z) : Prop :=
  let '(available, frozen, earned) := c in
  0 <= available ∧ frozen = frozen_rows d u ∧ available + frozen + transferred d u = earned.

Record aff_books (d : db) : Prop := {
  ab_rewards : ∀ k r, affiliate_ledgers d !! k = Some r → al_Action r = ActionAccrue → 0 < al_RewardQuota r;
  ab_columns : ∀ u c, aff_of d u = Some c → columns_agree d u c;
  ab_cap : ∀ cap, invitee_cap (D:=D) o = Ok cap → 0 < cap → ∀ i v, accrued_for i v d <= cap
}.

(** The columns are 32 bits wide. *)
Definition aff_columns_ok (d : db) : Prop :=
  ∀ u a f e, aff_of d u = Some (a, f, e) → a <= MaxQuota ∧ f <= MaxQuota.

Lemma aff_books_same d d' :
  affiliate_ledgers d' = affiliate_ledgers d → (∀ u, aff_of d' u = aff_of d u) → aff_books d → aff_books d'.
Proof.
  intros El Ea [H1 H2 H3]. split.
  - rewrite El. exact H1.
  - intros u c. rewrite Ea. intros Hc%H2. destruct c as [[a f] e].
    unfold columns_agree, frozen_rows, transferred in *. by rewrite El.
  - intros cap Hc Hp i v. unfold accrued_for. rewrite El. by apply H3.
Qed.

(** *** A new row in the ledger *)

Section new_row.
Context (d : db) (key : string) (r : AffiliateLedger) (U : gmap Z User).
Context (Hnew : affiliate_ledgers d !! key = None).
Let d' := d <| users := U |> <| affiliate_ledgers := <[key := r]> (affiliate_ledgers d) |>.

Lemma new_frozen_rows u : frozen_rows d' u = frozen_rows d u + (if still_frozen u r then al_RewardQuota r else 0).
Proof. unfold frozen_rows. cbn. rewrite map_sum_insert_new by done. lia. Qed.
Lemma new_transferred u :
  transferred d' u = transferred d u +
    (if decide (al_UserId r = u ∧ al_Action r = ActionTransfer) then al_RewardQuota r else 0).
Proof. unfold transferred. cbn. rewrite map_sum_insert_new by done. lia. Qed.
Lemma new_accrued i v :
  accrued_for i v d' = accrued_for i v d +
    (if decide (al_UserId r = i ∧ al_InviteeId r = v ∧ al_Action r = ActionAccrue) then al_RewardQuota r else 0).
Proof. unfold accrued_for. cbn. rewrite map_sum_insert_new by done. lia. Qed.

(** The books stay in order when the columns follow the row. *)
Lemma aff_books_row :
  aff_books d → (al_Action r = ActionAccrue → 0 < al_RewardQuota r) →
  (al_Action r = ActionAccrue → ∀ cap, invitee_cap (D:=D) o = Ok cap → 0 < cap →
     accrued_for (al_UserId r) (al_InviteeId r) d + al_RewardQuota r <= cap) →
  (∀ u a f e, aff_of d' u = Some (a, f, e) → ∃ a0 f0 e0, aff_of d u = Some (a0, f0, e0) ∧ 0 <= a ∧
     f = f0 + (if still_frozen u r then al_RewardQuota r else 0) ∧
     a + f - e = a0 + f0 - e0 -
       (if decide (al_UserId r = u ∧ al_Action r = ActionTransfer) then al_RewardQuota r else 0)) →
  aff_books d'.
Proof.
  intros [H1 H2 H3] Hpos Hcap Hcol. split.
  - intros k x. cbn. rewrite lookup_insert_Some. intros [[_ <-]|[_ Hx]]; [done|by eapply H1].
  - intros u [[a f] e] Hc. destruct (Hcol _ _ _ _ Hc) as (a0 & f0 & e0 & Hc0 & Ha & Hf & He).
    destruct (H2 _ _ Hc0) as (_ & Hf0 & He0). unfold columns_agree. rewrite new_frozen_rows, new_transferred.
    split_and!; [done|lia|lia].
  - intros cap Hc Hp i v. rewrite new_accrued.
    destruct (decide (al_UserId r = i ∧ al_InviteeId r = v ∧ al_Action r = ActionAccrue)) as [E|_]; [|specialize (H3 cap Hc Hp i v); lia].
    destruct E as (<- & <- & E). by apply Hcap.
Qed.
End new_row.

(** *** Programs that keep the books when they commit *)

(** The ledger and the affiliate columns are kept. *)
Definition aff_same (d d' : db) : Prop :=
  affiliate_ledgers d' = affiliate_ledgers d ∧ ∀ u, aff_of d' u = aff_of d u.
#[global] Instance aff_same_preorder : PreOrder aff_same.
Proof. split; [done|]. intros d1 d2 d3 [A1 A2] [B1 B2]. split; congruence. Qed.

Definition Books {A} (m : M db A) : Prop :=
  ∀ d a d', aff_books d → m d = (Ok a, d') → aff_books d'.

Lemma books_bind {A B} (m : M db A) (k : A → M db B) : Books m → (∀ a, Books (k a)) → Books (m ≫= k).
Proof. intros Hm Hk d a d' Hb H0. mstep H0. eapply Hk; [by eapply Hm|exact H0]. Qed.
Lemma books_keeps {A} (m : M db A) : KeepsDb aff_same m → Books m.
Proof. intros Hm d a d' Hb H0. specialize (Hm d). rewrite H0 in Hm. destruct Hm. by eapply aff_books_same. Qed.

(** The row of a skip moves nothing. *)
Lemma skip_books src key i reason : Books (createAffiliateSkipTx src key i reason).
Proof.
  intros d a d' Hb [Hn ->]%CREATE_inv. apply (aff_books_row d key _ (users d) Hn); [done|done|done|].
  intros u a0 f e Ha. exists a0, f, e. destruct (ab_columns _ Hb _ _ Ha) as (? & _).
  split_and!; [done|done|..]; [unfold still_frozen; cbn; rewrite andb_false_r; cbn; lia|].
  case_decide as E; [by destruct E|lia].
Qed.

(** The end of a freeze is in the future. *)
Lemma period_end_pos base amount unit_ e :
  0 < base <= max_i64 → affiliatePeriodEndUnix base amount unit_ = Ok e → 0 < e.
Proof.
  intros Hb. unfold affiliatePeriodEndUnix. destruct (_ || _) eqn:E1; [done|].
  apply orb_false_iff in E1 as [?%Z.ltb_ge ?%Z.leb_gt]. destruct (amount =? 0); [intros [= <-]; lia|].
  destruct (_ <? amount) eqn:E2; [done|]. apply Z.ltb_ge in E2.
  assert (0 <= amount * unit_ <= max_i64) as Hd.
  { split; [nia|]. pose proof (Z.mul_quot_le max_i64 unit_ ltac:(unfold max_i64; lia) ltac:(lia)). nia. }
  rewrite (i64_id (amount * unit_)) by (unfold in_i64, min_i64, max_i64 in *; nia).
  revert Hd. generalize (amount * unit_) as delta. intros delta Hd.
  rewrite (i64_id (max_i64 - delta)) by (unfold in_i64, min_i64, max_i64 in *; lia).
  destruct (_ <? base) eqn:E3; [done|]. apply Z.ltb_ge in E3. intros [= <-].
  rewrite i64_id by (unfold in_i64, min_i64, max_i64 in *; lia). lia.
Qed.

(** An unconditional update of one row. *)
Lemma UPDATE_all_inv {K R} `{Countable K} (tbl : db → gmap K R) `{!Upd tbl} k set d n d' :
  UPDATE tbl k (λ _, true) set d = (Ok n, d') →
  (∃ r, tbl d !! k = Some r ∧ n = 1 ∧ d' = d <| tbl := <[k := set r]> (tbl d) |>) ∨
  (tbl d !! k = None ∧ n = 0 ∧ d' = d).
Proof. unfold UPDATE. destruct (tbl d !! k) as [r|] eqn:E; intros [= <- <-]; [left; eauto|by right]. Qed.

Lemma aff_of_Some d u r :
  users d !! u = Some r → aff_of d u = Some (u_AffQuota r, u_AffFrozenQuota r, u_AffHistoryQuota r).
Proof. unfold aff_of. by intros ->. Qed.

(** The columns of the other users stay. *)
Lemma aff_of_insert d d' u r u' c :
  users d' = <[u := r]> (users d) → aff_of d' u' = Some c →
  (u = u' ∧ c = (u_AffQuota r, u_AffFrozenQuota r, u_AffHistoryQuota r)) ∨ (u ≠ u' ∧ aff_of d u' = Some c).
Proof.
  intros E. unfold aff_of. rewrite E, lookup_insert. case_decide; [intros [= <-]; by left|by right].
Qed.

Lemma accrue_books now src key i rate q d a d' :
  0 < now <= max_i64 → 0 < q → aff_books d →
  (∀ cap, invitee_cap (D:=D) o = Ok cap → 0 < cap → accrued_for i (src_InviteeId src) d + q <= cap) →
  accrueTx o now src key i rate q d = (Ok a, d') → aff_books d'.
Proof.
  intros Hnow Hq Hb Hcap H0. unfold accrueTx in H0. mstep H0.
  assert (d0 = d ∧ (if 0 <? AffiliateFreezeHours o then 0 < x else x = 0)) as [-> Hx].
  { destruct (0 <? _); [apply lift_res_inv in Hs as [Hs ->]|by mret Hs]. split; [done|]. by eapply period_end_pos. }
  mstep H0. mstep H0. apply FIRST_inv in Hs1 as [Hu ->]. apply CREATE_inv in H0 as [Hn ->].
  apply UPDATE_all_inv in Hs0 as [(r & Hr & -> & ->)|(Hno & -> & ->)]; [|congruence]. cbn in Hn.
  eapply (aff_books_row d key _ _ Hn); [done|done|auto|].
  intros u av fr ea Hc. eapply (aff_of_insert d) in Hc as [[<- Hc]|[Hne Hc]]; [| |reflexivity].
  - do 3 eexists. split; [by apply aff_of_Some|]. destruct (ab_columns _ Hb _ _ (aff_of_Some _ _ _ Hr)) as (Ha & _).
    unfold still_frozen. cbn. rewrite Z.eqb_refl, bool_decide_eq_true_2, decide_False by naive_solver.
    destruct (0 <? AffiliateFreezeHours o); injection Hc as -> -> ->; cbn.
    { rewrite (proj2 (Z.ltb_lt 0 x)) by lia. cbn. lia. }
    { subst x. cbn. lia. }
  - exists av, fr, ea. destruct (ab_columns _ Hb _ _ Hc) as (Ha & _). unfold still_frozen. cbn.
    rewrite (proj2 (Z.eqb_neq i u)), decide_False by naive_solver. cbn. split_and!; [done|done|lia|lia].
Qed.

(** What the cap leaves. *)
Lemma capped_reward_le cap acc q q' :
  capped_reward cap acc q = Some q' → 0 <= acc → cap <= MaxQuota → 0 < q →
  0 < q' <= q ∧ (0 < cap → acc + q' <= cap).
Proof.
  unfold capped_reward, MaxQuota. destruct (0 <? cap) eqn:E; [apply Z.ltb_lt in E|apply Z.ltb_ge in E; intros [= <-]; lia].
  destruct (cap <=? acc) eqn:E1; [done|]. apply Z.leb_gt in E1. intros [= <-] **.
  rewrite i64_id by (unfold in_i64, min_i64, max_i64; lia). lia.
Qed.

Lemma accrued_nonneg d i v : aff_books d → 0 <= accrued_for i v d.
Proof.
  intros Hb. apply map_sum_nonneg. intros k r Hr. case_decide as E; [|done].
  pose proof (ab_rewards _ Hb _ _ Hr (proj2 (proj2 E))). lia.
Qed.

Context `{!DecimalArithLaws D}.

Lemma invitee_cap_le cap : invitee_cap (D:=D) o = Ok cap → cap <= MaxQuota.
Proof.
  unfold invitee_cap, AffiliateBaseQuotaFromUSD, AffiliateBaseQuotaFromPayment.
  destruct (_ || _ || _ || _ || _); [destruct (_ || _); [intros [= <-]; unfold MaxQuota; lia|done]|].
  destruct (negb _); [destruct (_ || _); [intros [= <-]; unfold MaxQuota; lia|done]|].
  destruct (QuotaFromDecimalStrict _) as [q [c|]] eqn:E.
  - destruct (_ || _); [intros [= <-]; unfold MaxQuota; lia|done].
  - apply QuotaFromDecimalStrict_ok in E as [_ ?].
    destruct (q <=? 0); [destruct (_ || _); [intros [= <-]; unfold MaxQuota; lia|done]|intros [= <-]; lia].
Qed.

Lemma reward_inviter_books now src key i invitee inviter :
  0 < now <= max_i64 → Books (rewardInviterTx o now src key i invitee inviter).
Proof.
  intros Hnow d a d' Hb. unfold rewardInviterTx. destruct (_ || _); [by apply skip_books|].
  intros H0. mstep H0. apply lift_res_inv in Hs as [_ ->]. destruct x; [by eapply skip_books|].
  destruct (_ <=? 0) eqn:Ez; [by eapply skip_books|]. apply Z.leb_gt in Ez.
  mstep H0. apply lift_res_inv in Hs as [Hcap ->]. mstep H0. injection Hs as <- <-.
  destruct (capped_reward _ _ _) as [q|] eqn:Ec; [|by eapply skip_books].
  apply capped_reward_le in Ec as [Hq Hle]; [|by apply accrued_nonneg|by apply invitee_cap_le|done].
  destruct (quota_limit_reached _ _); [by eapply skip_books|].
  eapply (accrue_books _ _ _ _ _ q); [done|lia|done| |exact H0]. intros cap Hc Hp. rewrite Hcap in Hc. injection Hc as ->. by apply Hle.
Qed.

Lemma reward_books now src : 0 < now <= max_i64 → Books (ApplyAffiliateRewardTx o now src).
Proof.
  intros Hnow d a d' Hb. unfold ApplyAffiliateRewardTx. destruct (_ || _); [by intros [= <- <-]|].
  intros H0. mstep H0. injection Hs as <- <-. destruct (affiliate_ledgers d !! _); [by injection H0 as <- <-|].
  mstep H0. apply FIRST_inv in Hs as [_ ->]. destruct (_ <=? 0); [by eapply skip_books|].
  destruct (_ || _); [by eapply skip_books|]. destruct (negb _); [by eapply skip_books|]. mstep H0.
  unfold try, FIRST in Hs. destruct (users d !! _) as [r|]; injection Hs as <- <-.
  - by eapply reward_inviter_books.
  - destruct (error_is _ _); [by eapply skip_books|done].
Qed.

(** *** Thawing *)

Section thaw.
Context (d : db) (now u : Z) (Hnow : 0 < now).
Let thaw (r : AffiliateLedger) := if due_for_thaw u now r then r <| al_ThawedAt := now |> else r.
Let L' := thaw <$> affiliate_ledgers d.

(** Every due row was frozen and is not any more; the others stay. *)
Lemma thaw_row u' r :
  (if still_frozen u' r then al_RewardQuota r else 0) =
  (if still_frozen u' (thaw r) then al_RewardQuota (thaw r) else 0) +
  (if decide (u = u') then if due_for_thaw u now r then al_RewardQuota r else 0 else 0).
Proof.
  unfold thaw. destruct (due_for_thaw u now r) eqn:E; [|case_decide; lia]. unfold due_for_thaw in E.
  apply andb_prop in E as [[[[E1%Z.eqb_eq E2]%andb_prop E3]%andb_prop E4]%andb_prop E5].
  unfold still_frozen. cbn. rewrite E1, E2, E3, E5, (proj2 (Z.eqb_neq now 0)) by lia.
  destruct (decide (u = u')) as [E|E]; [subst u'; rewrite Z.eqb_refl|rewrite (proj2 (Z.eqb_neq u u')) by done]; cbn; lia.
Qed.

Lemma thaw_frozen_rows u' d' : affiliate_ledgers d' = L' →
  frozen_rows d' u' = frozen_rows d u' - (if decide (u = u') then thaw_sum u now d else 0).
Proof.
  intros E. unfold frozen_rows, thaw_sum. rewrite E. unfold L'. rewrite map_sum_fmap.
  rewrite (map_sum_ext (λ _ r, if still_frozen u' r then al_RewardQuota r else 0) _ (affiliate_ledgers d)
    (λ k r _, thaw_row u' r)), map_sum_add.
  case_decide; [lia|]. rewrite map_sum_zero. lia.
Qed.

Lemma thaw_kept (f : AffiliateLedger → Z) d' : affiliate_ledgers d' = L' →
  (∀ r, f (r <| al_ThawedAt := now |>) = f r) → map_sum (λ _ r, f r) (affiliate_ledgers d') = map_sum (λ _ r, f r) (affiliate_ledgers d).
Proof.
  intros E Hf. rewrite E. unfold L'. rewrite map_sum_fmap. apply map_sum_ext. intros k r _. unfold thaw.
  destruct (due_for_thaw u now r); [apply Hf|done].
Qed.

Lemma thaw_sum_le : aff_books d → 0 <= thaw_sum u now d <= frozen_rows d u.
Proof.
  intros Hb. unfold thaw_sum, frozen_rows. split; [apply map_sum_nonneg|apply map_sum_le]; intros k r Hr.
  - destruct (due_for_thaw u now r) eqn:E; [|done]. unfold due_for_thaw in E.
    apply andb_prop in E as [[[[_ E2]%andb_prop _]%andb_prop _]%andb_prop _]. apply bool_decide_eq_true in E2.
    pose proof (ab_rewards _ Hb _ _ Hr E2). lia.
  - rewrite (thaw_row u r), decide_True by done. enough (0 <= if still_frozen u (thaw r) then al_RewardQuota (thaw r) else 0) by lia.
    destruct (still_frozen u (thaw r)) eqn:E; [|done]. unfold still_frozen in E.
    apply andb_prop in E as [[[_ E2]%andb_prop _]%andb_prop _]. apply bool_decide_eq_true in E2.
    pose proof (ab_rewards _ Hb _ _ Hr). unfold thaw in *. destruct (due_for_thaw u now r); cbn in *; intuition lia.
Qed.
End thaw.

Lemma thaw_books now u d a d' :
  0 < now → aff_columns_ok d → aff_books d → ThawAffiliateQuotaTx now u d = (Ok a, d') → aff_books d'.
Proof.
  intros Hnow Hok Hb. unfold ThawAffiliateQuotaTx. intros H0. mstep H0. apply FIRST_inv in Hs as [Hu ->].
  mstep H0. injection Hs as <- <-. pose proof (aff_of_Some _ _ _ Hu) as Hc. pose proof (Hok _ _ _ _ Hc) as [_ Hf].
  destruct (ab_columns _ Hb _ _ Hc) as (Ha & Ef & Ee). pose proof (thaw_sum_le d now u Hnow Hb) as Hle.
  rewrite i64_id in H0 by (unfold in_i64, min_i64, max_i64, MaxQuota in *; lia).
  destruct (_ <=? 0); [by injection H0 as <- <-|]. mstep H0. injection Hs as _ <-. mstep H0. injection H0 as <- <-.
  apply UPDATE_all_inv in Hs as [(r & Hr & _ & ->)|(Hno & _)]; [|cbn in Hno; congruence].
  cbn in Hr. assert (r = x) as -> by congruence. set (d2 := _ <| users := _ |>).
  assert (affiliate_ledgers d2 = (λ r, if due_for_thaw u now r then r <| al_ThawedAt := now |> else r) <$> affiliate_ledgers d)
    as EL by done.
  assert (users d2 = <[u := x <| u_AffQuota ::= (λ q, q + thaw_sum u now d) |>
            <| u_AffFrozenQuota ::= (λ q, if thaw_sum u now d <=? q then q - thaw_sum u now d else 0) |>]> (users d)) as EU by done.
  clearbody d2. split.
  - intros k r. rewrite EL, lookup_fmap. intros (r0 & Er & ->)%fmap_Some. intros Hact.
    pose proof (ab_rewards _ Hb _ _ Er). destruct (due_for_thaw u now r0); auto.
  - intros u' [[av fr] ea] Hc'. unfold columns_agree, transferred. rewrite (thaw_frozen_rows d now u Hnow u' d2 EL).
    rewrite (thaw_kept d now u (λ r, if decide (al_UserId r = u' ∧ al_Action r = ActionTransfer) then al_RewardQuota r else 0) d2 EL) by done.
    apply (aff_of_insert d _ _ _ _ _ EU) in Hc' as [[<- Hc']|[Hne Hc']].
    + rewrite decide_True by done. cbn in Hc'. rewrite (proj2 (Z.leb_le _ _)) in Hc' by lia. injection Hc' as -> -> ->.
      unfold transferred in Ee. lia.
    + rewrite decide_False by done. destruct (ab_columns _ Hb _ _ Hc') as (? & ? & Ee'). unfold transferred in Ee'. lia.
  - intros cap Hcap Hp i v. unfold accrued_for.
    rewrite (thaw_kept d now u (λ r, if decide (al_UserId r = i ∧ al_InviteeId r = v ∧ al_Action r = ActionAccrue) then al_RewardQuota r else 0) d2 EL) by done.
    by apply (ab_cap _ Hb).
Qed.

(** *** Transfers and registrations *)

Lemma transfer_books uuid now u q d a d' :
  0 < now → 0 < q → aff_columns_ok d → aff_books d → transferTx uuid now u q d = (Ok a, d') → aff_books d'.
Proof.
  intros Hnow Hq Hok Hb. unfold transferTx. intros H0. mstep H0. apply thaw_books in Hs as Hb1; [|done..]. clear Hb Hs.
  mstep H0. apply FIRST_inv in Hs as [Hu ->]. destruct (_ <? q) eqn:Eq; [done|]. apply Z.ltb_ge in Eq.
  destruct (MaxQuota <=? _); [done|]. mstep H0. apply UPDATE_all_inv in Hs as [(r & Hr & _ & ->)|(Hno & _)]; [|congruence].
  assert (r = x0) as -> by congruence. mstep H0. apply FIRST_inv in Hs as [_ ->]. mstep H0.
  apply CREATE_inv in Hs as [Hn ->]. injection H0 as <- <-. cbn in Hn.
  eapply (aff_books_row d0 _ _ _ Hn); [done|done|done|].
  intros u' av fr ea Hc. eapply (aff_of_insert d0) in Hc as [[<- Hc]|[Hne Hc]]; [| |reflexivity].
  - do 3 eexists. split; [by apply aff_of_Some|]. injection Hc as -> -> ->.
    unfold still_frozen. cbn. rewrite andb_false_r, decide_True by done. cbn. lia.
  - exists av, fr, ea. destruct (ab_columns _ Hb1 _ _ Hc) as (Ha & _). unfold still_frozen. cbn.
    rewrite andb_false_r, decide_False by naive_solver. cbn. split_and!; [done|done|lia|lia].
Qed.

Lemma invite_books u d a d' :
  0 <= QuotaForInviter o → aff_books d →
  UPDATE users u (λ _, true)
    (λ u, u <| u_AffQuota ::= (λ q, q + QuotaForInviter o) |> <| u_AffHistoryQuota ::= (λ q, q + QuotaForInviter o) |>) d
    = (Ok a, d') → aff_books d'.
Proof.
  intros Hq Hb [(r & Hr & _ & ->)|(_ & _ & ->)]%UPDATE_all_inv; [|done]. split; [apply (ab_rewards _ Hb)| |apply (ab_cap _ Hb)].
  intros u' [[av fr] ea] Hc. eapply (aff_of_insert d) in Hc as [[<- Hc]|[Hne Hc]]; [| |reflexivity].
  - injection Hc as -> -> ->. destruct (ab_columns _ Hb _ _ (aff_of_Some _ _ _ Hr)) as (? & ? & ?).
    unfold columns_agree, frozen_rows, transferred in *. cbn. lia.
  - exact (ab_columns _ Hb _ _ Hc).
Qed.

(** ** The operations *)

(** Of an operation on the world: what it does to the tables is one committed
    transaction that keeps the books, around which nothing moves. *)
Definition BooksW {A} (m : M world A) : Prop :=
  ∀ w r w', 0 < w_now w <= max_i64 → aff_columns_ok (w_db w) → aff_books (w_db w) → m w = (r, w') → aff_books (w_db w').

Lemma booksw_keeps {A} (m : M world A) : Keeps aff_same m → BooksW m.
Proof. intros Hm w r w' _ _ Hb E. specialize (Hm w). rewrite E in Hm. destruct Hm. by eapply aff_books_same. Qed.
Lemma booksw_bind {A B} (m : M world A) (k : A → M world B) : BooksW m → (∀ a, Keeps aff_same (k a)) → BooksW (m ≫= k).
Proof.
  intros Hm Hk w r w' Hnow Hok Hb. unfold mbind, M_bind. destruct (m w) as [[a|e] w1] eqn:E.
  - intros E1. specialize (Hk a w1). rewrite E1 in Hk. destruct Hk. eapply aff_books_same; [done..|by eapply Hm].
  - intros [= <- <-]. by eapply Hm.
Qed.
Lemma booksw_try {A} (m : M world A) : BooksW m → BooksW (try m).
Proof. intros Hm w r w' Hnow Hok Hb. unfold try. destruct (m w) as [x w1] eqn:E. intros [= <- <-]. by eapply Hm. Qed.
Lemma booksw_transaction {A} (body : Z → M db A) :
  (∀ now, 0 < now <= max_i64 → Books (body now)) → BooksW (transaction body).
Proof.
  intros Hbody w r w' Hnow _ Hb [_ E]%transaction_inv. destruct r; [by eapply Hbody|by rewrite E].
Qed.

Ltac order_books :=
  repeat first
    [ solve [apply books_keeps; unfold or_else, creditTopUpQuota; keeps_tac]
    | solve [auto using reward_books]
    | apply books_bind; [|intros ?]
    | match goal with |- Books (if ?b then _ else _) => destruct b end ].

Lemma topup_reward_books now t r : 0 < now <= max_i64 → Books (applyTopUpAffiliateRewardTx o now t r).
Proof. intros Hnow. unfold applyTopUpAffiliateRewardTx. order_books. Qed.
#[local] Hint Resolve topup_reward_books : core.
Lemma epay_books now t m : 0 < now <= max_i64 → Books (rechargeEpayTx o now t m).
Proof. intros Hnow. unfold rechargeEpayTx. cbv zeta. order_books. Qed.
Lemma stripe_books now t c : 0 < now <= max_i64 → Books (rechargeTx o now t c).
Proof. intros Hnow. unfold rechargeTx. order_books. Qed.
Lemma creem_books now t e : 0 < now <= max_i64 → Books (rechargeCreemTx o now t e).
Proof.
  intros Hnow. unfold rechargeCreemTx. order_books. apply books_keeps, keepsdb_UPDATE_user. intros d r Hr. split; [done|].
  apply (aff_of_update d _ r); [done|]. by destruct a2.
Qed.
Lemma waffo_books p now t : 0 < now <= max_i64 → Books (rechargeWaffoTx o p now t).
Proof. intros Hnow. unfold rechargeWaffoTx. order_books. Qed.
Lemma manual_books now t : 0 < now <= max_i64 → Books (manualCompleteTx o now t).
Proof. intros Hnow. unfold manualCompleteTx. order_books. Qed.

Lemma complete_books t body : (∀ now, 0 < now <= max_i64 → Books (body now)) → BooksW (complete t body).
Proof.
  intros Hb. unfold complete. destruct (bool_decide _); [apply booksw_keeps; keeps_tac|].
  apply booksw_bind; [by apply booksw_try, booksw_transaction|]. intros r. keeps_tac.
Qed.

Lemma keeps_increase u q : Keeps aff_same (IncreaseUserQuota u q true).
Proof.
  intros w. destruct (IncreaseUserQuota u q true w) as [r w'] eqn:E. cbn. apply increase_direct in E as [_ E]. destruct r; [|by rewrite E].
  destruct E as [n [(x & Hx & _ & ->)|(_ & _ & ->)]%UPDATE_all_inv]; [|done]. split; [done|]. by eapply aff_of_update.
Qed.

Lemma keeps_checkin b s rnd day u : Keeps aff_same (UserCheckin b s rnd day u).
Proof.
  pose proof keeps_increase. unfold UserCheckin, HasCheckedInToday, userCheckinWithoutTransaction, userCheckinWithTransaction,
    checkinTx, create_checkin, or_else, log_error. keeps_tac; by intros ?.
Qed.

Lemma credit_op_books op : 0 <= QuotaForInviter o → BooksW (run_credit_op o op).
Proof.
  intros Hq. destruct op; cbn [run_credit_op].
  - apply booksw_keeps. unfold InsertTopUp. keeps_tac.
  - apply booksw_keeps. unfold UpdateTopUp. keeps_tac.
  - apply booksw_keeps. unfold UpdatePendingTopUpStatus, updatePendingTx, or_else. keeps_tac.
  - apply booksw_bind; [|intros; keeps_tac]. unfold RechargeEpay. destruct (bool_decide _); [apply booksw_keeps; keeps_tac|].
    apply booksw_bind; [apply booksw_transaction; intros; by apply epay_books|]. intros c. keeps_tac.
  - apply complete_books. intros; by apply stripe_books.
  - apply complete_books. intros; by apply creem_books.
  - apply complete_books. intros; by apply waffo_books.
  - apply complete_books. intros; by apply waffo_books.
  - unfold ManualCompleteTopUp. destruct (bool_decide _); [apply booksw_keeps; keeps_tac|].
    apply booksw_bind; [apply booksw_transaction; intros; by apply manual_books|]. intros c. keeps_tac.
  - apply booksw_keeps. unfold Redeem, redeemTx, FIRST_code, or_else. keeps_tac.
  - apply booksw_keeps. unfold InsertRedemption, insertCodeTx. keeps_tac.
  - apply booksw_keeps. unfold DeleteRedemptionById. keeps_tac; by intros d.
  - apply booksw_keeps. unfold BatchDeleteRedemptions. keeps_tac; by intros d.
  - apply booksw_keeps. unfold DeleteInvalidRedemptions. keeps_tac; by intros d.
  - apply booksw_keeps. unfold ClaimActivityReward, claimTx, log_error, cacheIncrUserQuota, cacheApplyUserQuotaDelta, RedisEnabled,
      GetTimestamp. keeps_tac.
  - apply booksw_keeps. pose proof keeps_checkin. keeps_tac.
  - apply booksw_bind; [|intros; keeps_tac]. unfold TransferAffiliateQuota.
    destruct (negb _); [apply booksw_keeps; keeps_tac|]. destruct (_ || _) eqn:Ea; [apply booksw_keeps; keeps_tac|].
    apply orb_false_iff in Ea as [Ea%Z.leb_gt _]. apply booksw_bind; [|intros; keeps_tac].
    intros w r w' Hnow Hok Hb [_ E]%transaction_inv. destruct r; [|by rewrite E]. eapply transfer_books; [| |done..]; lia.
  - apply booksw_bind; [|intros; keeps_tac]. intros w r w' Hnow Hok Hb [_ E]%transaction_inv. destruct r; [|by rewrite E].
    eapply thaw_books; [|done..]. lia.
  - apply booksw_transaction. intros now Hnow d a d' Hb H0. mstep H0. eapply invite_books in Hs; [|done..].
    destruct (_ =? 0); [done|by injection H0 as <- <-].
Qed.
End books.

(** ** Runs *)

Section runs.
Context {D : Type} `{DecimalArithLaws D} (o : affiliate_options).

(** Payment calls, billing calls and whatever else leaves the tables alone, in
    any order.  A call starts after 1970 and on columns of 32 bits. *)
Inductive aff_run : world → world → Prop :=
  | aff_run_nil w : aff_run w w
  | aff_run_pay w op r w1 w' :
      0 < w_now w <= max_i64 → aff_columns_ok (w_db w) → run_credit_op o op w = (r, w1) → aff_run w1 w' → aff_run w w'
  | aff_run_bill w op r w1 w' : run_ledger_op op w = (r, w1) → aff_run w1 w' → aff_run w w'
  | aff_run_env w w1 w' : w_db w1 = w_db w → aff_run w1 w' → aff_run w w'.

(** C12: the affiliate columns agree with the ledger.  In any interleaving of
    payments, registrations, thaws, transfers and billing calls, whatever
    fails: what a user has frozen is the sum of the accruals that are not
    thawed, what is available is not negative, and available, frozen and
    transferred quota add up to what was ever earned; every accrual is positive
    and one invitee never earns an inviter more than the cap. *)
Theorem affiliate_books_balance w w'
    (Hq : 0 <= QuotaForInviter o) (Hb : aff_books (D:=D) o (w_db w)) (Hrun : aff_run w w') :
  aff_books (D:=D) o (w_db w').
Proof.
  induction Hrun as [w|w op r w1 w' Hnow Hok Hr Hrun IH|w op r w1 w' Hr Hrun IH|w w1 w' Ed Hrun IH]; [done|apply IH..].
  - by eapply credit_op_books.
  - pose proof (keeps_ledger_op op w) as Hk. rewrite Hr in Hk. cbn in Hk.
    eapply aff_books_same; [by apply ps_ledgers|by apply ps_aff|done].
  - by rewrite Ed.
Qed.
End runs.

(** *** A run on concrete data *)

(** A call at a time. *)
Section sample.
Context {D : Type} `{DecimalArithLaws D} (o : affiliate_options).

Definition columns_fit (d : db) : bool :=
  forallb (λ p, (u_AffQuota p.2 <=? MaxQuota) && (u_AffFrozenQuota p.2 <=? MaxQuota)) (map_to_list (users d)).
Lemma columns_fit_ok d : columns_fit d = true → aff_columns_ok d.
Proof.
  unfold columns_fit, aff_columns_ok, aff_of. rewrite forallb_forall. intros Hf u a f e.
  intros (r & Hr & [= -> -> ->])%fmap_Some. specialize (Hf (u, r)). cbn in Hf.
  apply andb_prop in Hf as [?%Z.leb_le ?%Z.leb_le]; [done|]. by apply list_elem_of_In, elem_of_map_to_list.
Qed.

(** The clock is set before each call. *)
Fixpoint timed_calls (calls : list (Z * credit_op)) (w : world) : world :=
  match calls with
  | [] => w
  | (now, op) :: calls => timed_calls calls (exec (run_credit_op o op) (w <| w_now := now |>))
  end.
Fixpoint timed_ok (calls : list (Z * credit_op)) (w : world) : bool :=
  match calls with
  | [] => true
  | (now, op) :: calls =>
      (0 <? now) && (now <=? max_i64) && columns_fit (w_db w) &&
      timed_ok calls (exec (run_credit_op o op) (w <| w_now := now |>))
  end.
Lemma timed_calls_run calls w : timed_ok calls w = true → aff_run o w (timed_calls calls w).
Proof.
  revert w. induction calls as [|[now op] calls IH]; intros w; cbn [timed_ok timed_calls]; [constructor|].
  intros [[[?%Z.ltb_lt ?%Z.leb_le]%andb_prop Hf%columns_fit_ok]%andb_prop Hr%IH]%andb_prop.
  apply (aff_run_env _ _ (w <| w_now := now |>)); [done|].
  eapply aff_run_pay; [done|done|apply surjective_pairing|exact Hr].
Qed.
End sample.

(** User 8 was invited by user 7; rewards are 10 percent, frozen for a day and
    capped at 3 units per invitee. *)
Definition freezing_options : affiliate_options :=
  MkAffOptions (float_of_pos false 1000) true 1600000000 1000 24 0 (float_of_pos false 3) 5 true.
Definition invited_world : world :=
  world_of (empty_db
    <| users := {[7 := user_with 100 <| u_AffCodeEnabled := true |>;
                  8 := user_with 50 <| u_InviterId := 7 |>]} |>
    <| topups := {["T1" := epay_order <| tp_UserId := 8 |>;
                   "T2" := epay_order <| tp_Id := 2 |> <| tp_UserId := 8 |>]} |>).
Definition affiliate_calls : list (Z * credit_op) :=
  [(1700000100, CEpay "T1" ""); (1700000200, CEpay "T2" ""); (1700000300, CEpay "T1" "");
   (1700050000, CTransfer "x1" 7 1000); (1700086500, CThaw 7); (1700086550, CTransfer "x2" 7 2000); (1700086551, CInvite 7)].

Lemma affiliate_books_balance_witness :
  let w' := timed_calls (D:=Q) freezing_options affiliate_calls invited_world in
  aff_of (w_db w') 7 = Some (5, 1000, 3005) ∧ wallet_balance w' 7 = 2100 ∧
  aff_books (D:=Q) freezing_options (w_db w').
Proof.
  intros w'. split; [by vm_compute|]. split; [by vm_compute|].
  apply (affiliate_books_balance (D:=Q) freezing_options invited_world); [done| |].
  - split.
    + intros k r Hk. vm_compute in Hk. done.
    + intros u c. unfold aff_of. cbn. intros (r & Hr & ->)%fmap_Some.
      apply lookup_insert_Some in Hr as [[<- <-]|[_ Hr]]; [by vm_compute|].
      apply lookup_singleton_Some in Hr as [<- <-]. by vm_compute.
    + intros cap _ Hp i v. unfold accrued_for. cbn. rewrite map_sum_empty. lia.
  - apply timed_calls_run. by vm_compute.
Defined.
