(* ===== verification/CodeEdits.v ===== *)
(** * Editing redemption codes

    [UpdateRedemption] of src/controller/redemption.go reads a code, changes
    some columns of the copy and writes five columns back; [Redeem] runs in
    between.  Programs over the tables, interleaved statement by statement;
    the transaction of [Redeem] is one statement. *)

From S2P Require Import Prelude Interleave QuotaMath Store QuotaBatch QuotaReserve Affiliate TopUp BillingRecovery BillingLedger Credits.
#[local] Open Scope string_scope.
#[local] Open Scope Z_scope.

(** ** Programs *)

Definition GetRedemptionById (id : Z) : M db Redemption :=
  if id =? 0 then fail (ErrNew "id 为空！")
  else
    found ← gets (λ d, head (filter (λ p, rd_Id p.2 = id ∧ rd_Deleted p.2 = false) (map_to_list (redemptions d))));
    match found with Some (_, r) => mret r | None => fail ErrRecordNotFound end.

(** [Redemption.Update]: these columns, whatever their values. *)
Definition UpdateCode (clean : Redemption) : M db unit := modify (λ d, d <| redemptions ::= fmap (λ r,
  if negb (rd_Deleted r) && (rd_Id r =? rd_Id clean)
  then r <| rd_Name := rd_Name clean |> <| rd_Status := rd_Status clean |> <| rd_Quota := rd_Quota clean |>
         <| rd_RedeemedTime := rd_RedeemedTime clean |> <| rd_ExpiredTime := rd_ExpiredTime clean |>
  else r) |>).

Definition expired_time_invalid : error := ErrNew "过期时间不能早于当前时间".

Definition UpdateRedemption (statusOnly : bool) (redemption : Redemption) : prog db unit :=
  cleanRedemption ← query (GetRedemptionById (rd_Id redemption));
  cleanRedemption ←
    (if statusOnly then mret (cleanRedemption <| rd_Status := rd_Status redemption |>)
     else
       now ← clock;
       if negb (rd_ExpiredTime redemption =? 0) && (rd_ExpiredTime redemption <? now) then throw expired_time_invalid
       else mret (cleanRedemption <| rd_Name := rd_Name redemption |> <| rd_Quota := rd_Quota redemption |>
                    <| rd_ExpiredTime := rd_ExpiredTime redemption |>));
  query (UpdateCode cleanRedemption).

(** A transaction that fails leaves the tables alone. *)
Definition atomic {A} (m : M db A) : M db A := λ d,
  match m d with (Ok a, d') => (Ok a, d') | (Err e, _) => (Err e, d) end.

Definition redeem (key : string) (userId : Z) : prog db unit :=
  now ← clock; _ ← query (atomic (redeemTx now key userId)); mret tt.

Definition insert_code (key : string) (r : Redemption) : prog db unit :=
  _ ← query (atomic (insertCodeTx key r)); mret tt.
Definition delete_code (id : Z) : prog db unit := _ ← query (delete_codes (λ r, rd_Id r =? id)); mret tt.

Inductive code_op :=
  | RedeemCode (key : string) (user : Z)
  | EditCode (statusOnly : bool) (r : Redemption)
  | InsertCode (key : string) (r : Redemption)
  | DeleteCode (id : Z).
Definition code_prog (op : code_op) : prog db unit :=
  match op with
  | RedeemCode k u => redeem k u
  | EditCode b r => UpdateRedemption b r
  | InsertCode k r => insert_code k r
  | DeleteCode id => delete_code id
  end.

(** ** How often a code pays *)

Section count.
Context (key : string).

(** A code that is not used up, or does not exist yet, can pay once. *)
Definition payable_code (d : db) : nat :=
  match redemptions d !! key with
  | Some r => if rd_Status r =? RedemptionCodeStatusEnabled then 1 else 0
  | None => 1
  end.

Definition redeemed (op : code_op) (r : res unit) : nat :=
  match op, r with RedeemCode k _, Ok _ => if decide (k = key) then 1 else 0 | _, _ => 0 end.
Definition edit_budget (op : code_op) : nat := match op with EditCode _ _ => 1 | _ => 0 end.

Lemma payable_le d : (payable_code d <= 1)%nat.
Proof. unfold payable_code. destruct (_ !! key) as [r|]; [|lia]. destruct (_ =? _); lia. Qed.

Lemma payable_closed d : payable_code d = 0%nat ↔ closed d (SrcCode key).
Proof.
  unfold payable_code, closed. destruct (redemptions d !! key) as [r|]; [|naive_solver].
  destruct (_ =? _) eqn:E; [apply Z.eqb_eq in E|apply Z.eqb_neq in E]; naive_solver.
Qed.
(** A change that keeps closed sources closed makes nothing payable. *)
Lemma payable_step d d' c : credit_step d d' c → (payable_code d' <= payable_code d)%nat.
Proof.
  intros Hs. pose proof (payable_le d'). destruct (payable_code d) as [|n] eqn:E; [|lia].
  apply payable_closed, (cs_closed _ _ _ Hs), payable_closed in E. lia.
Qed.

Lemma redeem_pays_once k u : pays (λ _, True) payable_code (redeemed (RedeemCode k u)) 0 (redeem k u).
Proof.
  intros now. split; [|cbn; lia]. intros d _. split; [done|]. unfold query. cbn. unfold atomic.
  destruct (redeemTx now k u d) as [[x|e] d'] eqn:E; cbn; [|exists 0%nat; split; [lia|done]].
  exists (if decide (k = key) then 1 else 0)%nat. split; [|done].
  apply redeem_body in E as (r & Hr & _ & Hs). case_decide as Ek; [subst k|apply payable_step in Hs; lia].
  destruct (cs_credit _ _ _ Hs _ eq_refl) as [Ho Hc]. apply payable_closed in Hc. rewrite <- payable_closed in Ho. lia.
Qed.

(** A statement that keeps what is payable costs nothing. *)
Lemma pays_quiet {A B} (m : M db A) (k : A → B) (cost : res B → nat) :
  (∀ r, cost r = 0%nat) → Quiet m → pays (λ _, True) payable_code cost 0 (a ← query m; mret (k a)).
Proof.
  intros Hc Hm. split; [|intros msg; cbn; rewrite Hc; lia]. intros d _. split; [done|]. exists 0%nat. specialize (Hm d).
  apply payable_step in Hm. split; [lia|]. destruct (m d) as [[a|e] d1]; cbn; rewrite Hc; lia.
Qed.

Lemma edit_pays_once b r : pays (λ _, True) payable_code (redeemed (EditCode b r)) 1 (UpdateRedemption b r).
Proof.
  assert (∀ x, pays (λ _, True) payable_code (redeemed (EditCode b r)) 1 (query (UpdateCode x))) as Hw.
  { intros x. split; [|cbn; lia]. intros d _. split; [done|]. exists 0%nat. split; [|cbn; lia].
    pose proof (payable_le (UpdateCode x d).2). lia. }
  split; [|cbn; lia]. intros d _. assert ((GetRedemptionById (rd_Id r) d).2 = d) as ->.
  { unfold GetRedemptionById. destruct (_ =? 0); [done|]. unfold_m. by destruct (head _) as [[? ?]|]. }
  split; [done|]. exists 1%nat. split; [lia|]. destruct (GetRedemptionById (rd_Id r) d).1 as [x|e]; [|cbn; lia].
  cbn [prog_bind]. destruct b; [apply Hw|]. intros now. cbn. destruct (_ && _); [cbn; lia|apply Hw].
Qed.

Lemma quiet_atomic {A} (m : M db A) : Quiet m → Quiet (atomic m).
Proof. intros Hm d. unfold atomic. specialize (Hm d). destruct (m d) as [[a|e] d1]; [done|apply credit_step_refl]. Qed.

Lemma code_op_pays op : pays (λ _, True) payable_code (redeemed op) (edit_budget op) (code_prog op).
Proof.
  destruct op; [apply redeem_pays_once|apply edit_pays_once|..]; apply pays_quiet; try done.
  - apply quiet_atomic, insert_code_quiet.
  - apply delete_codes_quiet.
Qed.

(** How many of the calls that have returned redeemed the code. *)
Definition redemptions_of (c : config db code_op unit) : nat := spent redeemed c.
Definition edits (acts : list (action code_op)) : nat := sum_list_with edit_budget (spawned acts).

(** C17: a code pays once, and once more at most for every edit.  Whatever the
    interleaving of redemptions, edits, insertions and deletions, statement by
    statement and with failing statements. *)
Theorem code_pays_once_per_edit acts d now :
  (redemptions_of (run_actions code_prog acts (MkConfig d now [])) <= payable_code d + edits acts)%nat.
Proof.
  apply (interleaving_pays code_prog (λ _, True) payable_code redeemed edit_budget).
  - apply still_pays.
  - split; [done|]. exists []. split; [cbn; lia|constructor].
  - apply Forall_true. apply code_op_pays.
Qed.
End count.

(** An administrator who renames a code while it is redeemed makes it pay
    again: the edit writes the status it read before the redemption back,
    although the request does not change the status. *)
Theorem rename_reopens_redeemed_code :
  let d := db_of_two <| redemptions := {["K1" := gift_code]} |> in
  let rename := EditCode false (gift_code <| rd_Name := "spring" |>) in
  let acts := [Spawn rename; Step 0; Step 0;
               Spawn (RedeemCode "K1" 7); Step 1; Step 1;
               Step 0;
               Spawn (RedeemCode "K1" 8); Step 2; Step 2] in
  let c := run_actions code_prog acts (MkConfig d 1700000000 []) in
  redemptions_of "K1" c = 2%nat ∧ payable_code "K1" d = 1%nat ∧
  db_quota (c_db c) 7 = 350 ∧ db_quota (c_db c) 8 = 300.
Proof. by vm_compute. Qed.
