(* ===== verification/BillingMachine.v ===== *)
(** * The state machine of a billing recovery

    An abstract transition system for the row and the markers of one request,
    the proof that every operation of BillingRecovery refines it, and what
    the machine guarantees: settlement and refund exclude each other, a
    refunded request holds nothing, a settled one exactly what was settled. *)

From S2P Require Import GoStrings.
From S2P Require Import Prelude Store Calendar QuotaBatch QuotaReserve Subscription BillingRecovery BillingLedger.
#[local] Open Scope Z_scope.

(** ** The abstract machine *)

Definition same_identity_row (r r' : BillingRecovery) : Prop :=
  br_UserID r' = br_UserID r ∧ br_TokenID r' = br_TokenID r ∧ br_TokenRequired r' = br_TokenRequired r.

Definition same_progress (r r' : BillingRecovery) : Prop :=
  br_FundingRefund r' = br_FundingRefund r ∧ br_ExtraRefund r' = br_ExtraRefund r ∧
  br_TokenRefund r' = br_TokenRefund r ∧ br_FundingSettlement r' = br_FundingSettlement r ∧
  br_TokenSettlement r' = br_TokenSettlement r.

Definition same_amounts (r r' : BillingRecovery) : Prop :=
  br_FundingAmount r' = br_FundingAmount r ∧ br_ExtraAmount r' = br_ExtraAmount r ∧
  br_TokenAmount r' = br_TokenAmount r ∧ br_PreConsumeState r' = br_PreConsumeState r.

(** The request a call is about. *)
Definition op_request (op : ledger_op) : string :=
  match op with
  | LEnsure input => in_RequestID input
  | LAbort rid _ | LSync rid _ _ _ _ | LSettlement rid _ | LTouch rid | LMarkRefundPending rid _
  | LMarkSettled rid | LMarkRefunded rid _ | LPreConsume rid _ _ | LReserve rid _ _ _ | LAdjust rid _ _ => rid
  end.

Definition is_ensure (op : ledger_op) : bool := match op with LEnsure _ => true | _ => false end.

(** Edges that leave the markers alone. *)
Inductive row_edge (op : ledger_op) (r r' : BillingRecovery) : Prop :=
  | edge_abort :
      br_Status r = StatusActive → br_PreConsumeState r = PreConsumePrepared →
      br_Status r' = StatusRefunded → br_Source r' = br_Source r → same_amounts r r' → row_edge op r r'
  | edge_rebind :
      is_ensure op = true → billingRecoveryIsReusable r = true → br_Status r' = StatusActive → same_amounts r r' → row_edge op r r'
  | edge_declare :
      br_Status r = StatusActive → br_Status r' = StatusActive → br_Source r' = br_Source r →
      br_PreConsumeState r' = PreConsumeCommitted → 0 <= br_TokenAmount r' → row_edge op r r'
  | edge_settling :
      settling (br_Status r) = true → br_Status r' = StatusSettlementPending → br_Source r' = br_Source r →
      same_amounts r r' → row_edge op r r'
  | edge_touch :
      br_Status r' = br_Status r → br_Source r' = br_Source r → same_amounts r r' → row_edge op r r'
  | edge_refunding :
      br_Status r = StatusActive ∨ br_Status r = StatusRefundPending → br_Status r' = StatusRefundPending →
      br_Source r' = br_Source r → (br_Source r ≠ SourceSubscription → same_amounts r r') →
      (br_PreConsumeState r' = PreConsumePrepared → same_amounts r r') → row_edge op r r'
  | edge_settled :
      br_Status r = StatusSettlementPending → BillingRecoverySettlementComplete r = true →
      br_Status r' = StatusSettled → br_Source r' = br_Source r → same_amounts r r' → row_edge op r r'
  | edge_refunded :
      br_Status r = StatusRefundPending → BillingRecoveryRefundComplete r = true →
      br_Status r' = StatusRefunded → br_Source r' = br_Source r → same_amounts r r' → row_edge op r r'.

(** Steps of the books under a call: only [LEnsure] rebinds, only [LAdjust]
    records a settlement or refund. *)
Inductive book_step (op : ledger_op) (d d' : db) : Prop :=
  | book_same : same_books d d' → book_step op d d'
  | book_create r :
      billing_recoveries d !! op_request op = None →
      br_Status r = StatusActive → br_PreConsumeState r = PreConsumePrepared →
      br_FundingRefund r = StatePending → br_ExtraRefund r = StatePending → br_TokenRefund r = StatePending →
      br_FundingSettlement r = StatePending → br_TokenSettlement r = StatePending → 0 <= br_TokenAmount r →
      billing_recoveries d' = <[op_request op := r]> (billing_recoveries d) → adjustments d' = adjustments d →
      book_step op d d'
  | book_row r r' :
      billing_recoveries d !! op_request op = Some r → row_edge op r r' → same_identity_row r r' → same_progress r r' →
      billing_recoveries d' = <[op_request op := r']> (billing_recoveries d) → adjustments d' = adjustments d →
      book_step op d d'
  | book_reserve r r' target a :
      billing_recoveries d !! op_request op = Some r → br_Status r = StatusActive → br_PreConsumeState r = PreConsumeCommitted →
      br_Status r' = StatusActive → br_PreConsumeState r' = PreConsumeCommitted → br_Source r' = br_Source r →
      same_identity_row r r' → same_progress r r' → br_TokenAmount r <= br_TokenAmount r' →
      billing_recoveries d' = <[op_request op := r']> (billing_recoveries d) →
      adjustments d' = <[(op_request op, ComponentReserve target, OperationReserve) := a]> (adjustments d) → book_step op d d'
  | book_adjust r rid c o now :
      op = LAdjust rid c o →
      billing_recoveries d !! rid = Some r → adjustments d !! (rid, c, o) = None →
      (o = OperationSettle ∧ (c = ComponentFunding ∨ c = ComponentToken) ∧ br_Status r = StatusSettlementPending) ∨
      (o = OperationRefund ∧ (br_Status r = StatusActive ∨ br_Status r = StatusRefundPending)) →
      billing_recoveries d' = <[rid := completed_row c o now r]> (billing_recoveries d) →
      adjustments d' = <[(rid, c, o) := MkAdjustment (component_amount r c o) now]> (adjustments d) →
      book_step op d d'.

(** ** Refinement *)

Lemma same_books_trans d1 d2 d3 : same_books d1 d2 → same_books d2 d3 → same_books d1 d3.
Proof. unfold same_books. intros [-> ->]. done. Qed.

(** Charges before a step do not matter to the books. *)
Lemma book_step_after op d d1 d' : same_books d d1 → book_step op d1 d' → book_step op d d'.
Proof.
  intros [Eb Ea]. destruct 1 as [[E1 E2]|r Hr|r r' Hr|r r' tgt a Hr|r rid c o now Hop Hr]; rewrite ?Eb, ?Ea in *.
  - apply book_same. by split.
  - eapply book_create; eauto.
  - eapply book_row; eauto.
  - eapply book_reserve; eauto.
  - eapply book_adjust; eauto.
Qed.

Lemma transaction_book {A} op (body : Z → M db A) w r w' :
  (∀ now a d', body now (w_db w) = (Ok a, d') → book_step op (w_db w) d') →
  transaction body w = (r, w') → book_step op (w_db w) (w_db w').
Proof.
  intros Hb [_ H]%transaction_inv. destruct r as [a|e]; [by eapply Hb|]. rewrite H. by apply book_same.
Qed.

(** What the body of a mutation does to the books is what the mutation does,
    for every relation that ignores charges. *)
Lemma mutation_books {A} (R : db → db → Prop) rid' fu ft (body : Z → M db A) w r w' :
  (∀ d d', same_books d d' → R d d') → (∀ d d1 d', same_books d d1 → R d1 d' → R d d') →
  (∀ now d a d', body now d = (Ok a, d') → R d d') →
  (m ← beginBillingRecoveryQuotaMutation rid' fu ft; with_mutation m body) w = (r, w') →
  R (w_db w) (w_db w').
Proof.
  intros Hsame Hafter Hb. unfold mbind at 1, M_bind at 1.
  destruct (beginBillingRecoveryQuotaMutation rid' fu ft w) as [[m|e] w1] eqn:E1; apply begin_owns in E1.
  2: { intros [= <- <-]. apply same_store_db in E1 as ->. by apply Hsame. }
  unfold with_mutation. set (tx := transaction _). unfold mbind at 1, M_bind at 1. unfold try.
  destruct (tx w1) as [rt w2] eqn:E2. apply transaction_inv in E2 as [Eb E2].
  pose proof E1 as (Ed1 & _). rewrite <- Ed1. destruct rt as [a|e]; cbn [is_ok].
  - unfold release. unfold_m. intros [= <- <-]. mstep E2. apply applyPendingDeltas_charged, ch_books in Hs.
    apply (Hafter _ d); [done|by eapply Hb].
  - destruct (release_restores m w w1 w2 E1 Eb) as (w3 & E3 & Ed3 & _).
    rewrite (bind_ok _ _ _ _ _ E3). unfold_m. intros [= <- <-]. rewrite Ed3, E2. by apply Hsame.
Qed.

Lemma mutation_book {A} op rid' fu ft (body : Z → M db A) w r w' :
  (∀ now d a d', body now d = (Ok a, d') → book_step op d d') →
  (m ← beginBillingRecoveryQuotaMutation rid' fu ft; with_mutation m body) w = (r, w') →
  book_step op (w_db w) (w_db w').
Proof. apply mutation_books; [apply book_same|apply book_step_after]. Qed.

(** A transaction that rewrites its row along an edge, or does nothing. *)
Lemma edge_tx {A} op (body : Z → BillingRecovery → M db A) w r w' :
  (∀ now row d x d', billing_recoveries d !! op_request op = Some row → body now row d = (Ok x, d') →
     d' = d ∨ ∃ row', d' = d <| billing_recoveries := <[op_request op := row']> (billing_recoveries d) |> ∧
       row_edge op row row' ∧ same_identity_row row row' ∧ same_progress row row') →
  transaction (λ now, row ← FIRST billing_recoveries (op_request op); body now row) w = (r, w') →
  book_step op (w_db w) (w_db w').
Proof.
  intros Hb. apply transaction_book. intros now a d' H. mstep H. apply FIRST_inv in Hs as [Hr ->].
  apply Hb in H as [->|(row' & -> & He & Hi & Hp)]; [by apply book_same| |done]. by eapply book_row.
Qed.

(** The same for a guarded [UPDATE]. *)
Lemma edge_update op f w r w' :
  (∀ now row, settling (br_Status row) = true →
     row_edge op row (f now row) ∧ same_identity_row row (f now row) ∧ same_progress row (f now row)) →
  transaction (λ now, UPDATE billing_recoveries (op_request op) (λ r, settling (br_Status r)) (f now)) w = (r, w') →
  book_step op (w_db w) (w_db w').
Proof.
  intros Hf. apply transaction_book. intros now n d'.
  intros [(row & Hr & Hst & _ & ->)|[_ ->]]%UPDATE_inv; [|by apply book_same].
  destruct (Hf now row Hst) as (He & Hi & Hp). by eapply book_row.
Qed.

(** Each operation. *)
Ltac done_nothing := by intros [= <- <-]; apply book_same.

Lemma abort_refines rid e w r w' :
  AbortPreparedBillingRecovery rid e w = (r, w') → book_step (LAbort rid e) (w_db w) (w_db w').
Proof.
  unfold AbortPreparedBillingRecovery. destruct (blank rid); [done_nothing|]. apply (edge_tx (LAbort rid e)).
  intros now row d x d' Hr H. cbn [op_request] in Hr |- *. case_decide; [mret H; by left|]. destruct (_ || _) eqn:Hg; [done|].
  rewrite !orb_false_iff, !negb_false_iff, !bool_decide_eq_true in Hg. destruct Hg as [[[[Hst Hp] _] _] _].
  mstep H. mret H. apply (UPDATE_row _ row) in Hs as ->; [|done]. right. eexists. split; [done|]. split; [|done].
  by apply edge_abort.
Qed.

Lemma sync_refines rid s f e t w r w' :
  UpdateBillingRecoveryAmounts rid s f e t w = (r, w') → book_step (LSync rid s f e t) (w_db w) (w_db w').
Proof.
  unfold UpdateBillingRecoveryAmounts. destruct (blank rid); [done_nothing|]. destruct (_ || _) eqn:Hg; [done_nothing|].
  apply (edge_tx (LSync rid s f e t)). intros now row d x d' Hr H. cbn [op_request] in Hr |- *.
  destruct (bool_decide_reflect (br_Status row = StatusActive)) as [Hst|]; cbn in H; [|done].
  mstep H. apply UPDATE_inv in Hs as [(row0 & Hr0 & _ & -> & ->)|[-> ->]]; [|done]. mret H.
  assert (row0 = row) as -> by congruence. right. eexists. split; [done|]. split; [|done].
  apply edge_declare; try done. cbn. lia.
Qed.

Lemma settlement_refines rid delta w r w' :
  UpdateBillingRecoverySettlement rid delta w = (r, w') → book_step (LSettlement rid delta) (w_db w) (w_db w').
Proof.
  unfold UpdateBillingRecoverySettlement. destruct (blank rid); [done_nothing|].
  unfold mbind at 1, M_bind at 1. destruct (transaction _ w) as [r1 w1] eqn:E1.
  apply (edge_update (LSettlement rid delta) (λ now r, r <| br_SettlementDelta := delta |> <| br_Status := StatusSettlementPending |>
    <| br_UpdatedAt := now |>)) in E1; [|intros now row Hst; split; [by apply edge_settling|done]].
  destruct r1 as [n|e]; [|by intros [= <- <-]]. destruct (n =? 1); [by intros [= <- <-]|].
  unfold mbind at 1, M_bind at 1. destruct (transaction _ w1) as [r2 w2] eqn:E2. apply transaction_read in E2 as [Ed _].
  rewrite <- Ed in E1. destruct r2 as [row|e]; [|by intros [= <- <-]]. case_decide; by intros [= <- <-].
Qed.

Lemma touch_refines rid w r w' : TouchBillingRecovery rid w = (r, w') → book_step (LTouch rid) (w_db w) (w_db w').
Proof.
  unfold TouchBillingRecovery. destruct (blank rid); [done_nothing|].
  unfold mbind at 1, M_bind at 1. destruct (transaction _ w) as [r1 w1] eqn:E1.
  apply (edge_update (LTouch rid) (λ now r, r <| br_UpdatedAt := now |>)) in E1; [|intros now row Hst; split; [by apply edge_touch|done]].
  destruct r1 as [n|e]; [|by intros [= <- <-]]. destruct (n =? 1); by intros [= <- <-].
Qed.

Lemma mark_refund_refines rid e w r w' :
  MarkBillingRecoveryRefundPending rid e w = (r, w') → book_step (LMarkRefundPending rid e) (w_db w) (w_db w').
Proof.
  unfold MarkBillingRecoveryRefundPending. destruct (blank rid); [done_nothing|]. apply (edge_tx (LMarkRefundPending rid e)).
  intros now row d x d' Hr H. cbn [op_request] in Hr |- *. case_decide; [mret H; by left|]. destruct (_ && _) eqn:Hg; [done|].
  rewrite andb_false_iff, !negb_false_iff, !bool_decide_eq_true in Hg.
  mstep H. injection Hs as <- <-. mstep H. mret H. apply (UPDATE_row _ row) in Hs as ->; [|done].
  right. eexists. split; [done|]. unfold adopt_preconsume.
  destruct (pre_consume_records d !! rid) as [rec|];
    [|split; [by apply edge_refunding|done]].
  destruct (_ && _ && _) eqn:Hc; [|split; [by apply edge_refunding|done]].
  rewrite !andb_true_iff, !bool_decide_eq_true in Hc. destruct Hc as [[Hsrc _] _].
  destruct (br_TokenRequired row); (split; [apply edge_refunding; cbn; try done; intros; congruence|done]).
Qed.

Lemma settled_refines rid w r w' : MarkBillingRecoverySettled rid w = (r, w') → book_step (LMarkSettled rid) (w_db w) (w_db w').
Proof.
  unfold MarkBillingRecoverySettled. destruct (blank rid); [done_nothing|]. apply (edge_tx (LMarkSettled rid)).
  intros now row d x d' Hr H. cbn [op_request] in Hr |- *. case_decide; [mret H; by left|]. destruct (_ || _) eqn:Hg; [done|].
  rewrite orb_false_iff, !negb_false_iff, !bool_decide_eq_true in Hg. destruct Hg as [Hst Hc].
  mstep H. mret H. apply (UPDATE_row _ row) in Hs as ->; [|done]. right. eexists. split; [done|]. split; [|done].
  by apply edge_settled.
Qed.

Lemma refunded_refines rid e w r w' :
  MarkBillingRecoveryRefunded rid e w = (r, w') → book_step (LMarkRefunded rid e) (w_db w) (w_db w').
Proof.
  unfold MarkBillingRecoveryRefunded. destruct (blank rid); [done_nothing|]. apply (edge_tx (LMarkRefunded rid e)).
  intros now row d x d' Hr H. cbn [op_request] in Hr |- *. case_decide; [mret H; by left|]. destruct (_ || _) eqn:Hg; [done|].
  rewrite orb_false_iff, !negb_false_iff, !bool_decide_eq_true in Hg. destruct Hg as [Hst Hc].
  mstep H. mret H. apply (UPDATE_row _ row) in Hs as ->; [|done]. right. eexists. split; [done|]. split; [|done].
  by apply edge_refunded.
Qed.

Lemma preConsumeTx_book rid q unl now d x d' :
  0 <= q → preConsumeWalletTx rid q unl now d = (Ok x, d') → book_step (LPreConsume rid q unl) d d'.
Proof.
  intros Hq. unfold preConsumeWalletTx. intros H. mstep H. apply FIRST_inv in Hs as [Hr ->]. rename x0 into row.
  destruct (_ || _) eqn:Hg; [done|]. rewrite orb_false_iff, !negb_false_iff, !bool_decide_eq_true in Hg.
  destruct Hg as [Hsrc Hst]. case_decide as Hc; [destruct (_ && _); [mret H; by apply book_same|done]|].
  mstep H. apply (if_charge_token _ _ _ _ _ _ _ _ 0), ch_books in Hs.
  mstep H. assert (same_books d0 d1) as Hu.
  { destruct (0 <? q); [|mret Hs0; done]. destruct x1. by apply (charge_user _ _ _ _ _ _ 0), ch_books in Hs0. }
  apply (book_step_after _ _ d1); [by eapply same_books_trans|]. mstep H. mret H.
  assert (billing_recoveries d1 !! rid = Some row) as Hr1 by (by rewrite (proj1 Hu), (proj1 Hs)).
  apply (UPDATE_row _ row) in Hs1 as ->; [|done].
  eapply (book_row _ _ _ row); [done|..|reflexivity|done]; [|done|done].
  apply edge_declare; try done. cbn. destruct (br_TokenRequired row); lia.
Qed.

Lemma preconsume_refines rid q unl w r w' :
  PreConsumeWalletBillingRecovery rid q unl w = (r, w') → book_step (LPreConsume rid q unl) (w_db w) (w_db w').
Proof.
  unfold PreConsumeWalletBillingRecovery. destruct (_ || _) eqn:Hg; [done_nothing|].
  assert (0 <= q) by lia. destruct (0 <? q).
  - apply mutation_book. intros now d a d'. by apply preConsumeTx_book.
  - apply transaction_book. intros now a d'. by apply preConsumeTx_book.
Qed.

Lemma reserveTx_book rid tgt delta unl now d x d' : reserveTx rid tgt unl now d = (Ok x, d') → book_step (LReserve rid tgt delta unl) d d'.
Proof.
  unfold reserveTx. intros H. mstep H. apply FIRST_inv in Hs as [Hr ->]. rename x0 into row.
  destruct (_ || _) eqn:Hg; [done|]. rewrite orb_false_iff, !negb_false_iff, !bool_decide_eq_true in Hg.
  destruct Hg as [Hst Hp]. cbv zeta in H. set (dlt := i64 _) in H. clearbody dlt.
  destruct (Z.leb_spec dlt 0); [mret H; by apply book_same|]. mstep H. injection Hs as Hmk <-. destruct x0 as [m|].
  { destruct (adj_Amount m =? dlt); [|done]. mret H. by apply book_same. }
  mstep H. assert (same_books d d0) as Hu.
  { destruct (bool_decide (br_Source row = SourceSubscription)).
    - by eapply (neutral_charged _ _ _ _ 0 0 (applySubscriptionDelta_neutral _ _ _)), ch_books in Hs.
    - destruct x0. by apply (charge_user _ _ _ _ _ _ 0), ch_books in Hs. }
  mstep H. apply (if_charge_token _ _ _ _ _ _ _ _ 0), ch_books in Hs0.
  apply (book_step_after _ _ d1); [by eapply same_books_trans|].
  assert (billing_recoveries d1 !! rid = Some row) as Hr1 by (by rewrite (proj1 Hs0), (proj1 Hu)).
  mstep H. apply (UPDATE_row _ row) in Hs1 as ->; [|done]. mstep H. mret H. apply CREATE_inv in Hs1 as [_ ->].
  eapply (book_reserve _ _ _ row _ tgt); [done|done|done|..|reflexivity|reflexivity];
    destruct (bool_decide (br_Source row = SourceSubscription)), (br_TokenRequired row && (0 <? br_TokenID row)); try done;
    cbn; lia.
Qed.

Lemma reserve_refines rid tgt delta unl w r w' :
  ReserveBillingRecovery rid tgt delta unl w = (r, w') → book_step (LReserve rid tgt delta unl) (w_db w) (w_db w').
Proof.
  unfold ReserveBillingRecovery. destruct (_ || _); [done_nothing|].
  apply mutation_book. intros now d a d'. apply reserveTx_book.
Qed.

Lemma effect_books now rid r c o amount d x d' :
  applyBillingRecoveryEffect now rid r c o amount d = (Ok x, d') → same_books d d'.
Proof.
  unfold applyBillingRecoveryEffect. destruct (_ && _); [intros H; by mret H|].
  destruct (amount =? 0); [intros H; by mret H|]. destruct c.
  - destruct (decide (br_Source r = SourceSubscription)).
    + intros H. eapply (neutral_charged _ _ _ _ 0 0), ch_books in H; [done|].
      destruct (decide (o = OperationRefund)); [|auto with neutral].
      apply neutral_bind; [apply neutral_try; auto with neutral|].
      intros [|err]; [|destruct (error_is err _)]; auto with neutral.
    + destruct x. by intros (u & _ & _ & ->)%update_one_inv.
  - intros H. by eapply (neutral_charged _ _ _ _ 0 0 (applySubscriptionDelta_neutral _ _ _)), ch_books in H.
  - destruct x. by intros (u & _ & _ & ->)%update_one_inv.
  - intros H. by mret H.
Qed.

(** An adjustment records its marker and completes its column, or leaves the
    books alone. *)
Definition adjusts (rid : string) (c : recovery_component) (o : recovery_operation) (d d' : db) : Prop :=
  same_books d d' ∨
  ∃ row now, billing_recoveries d !! rid = Some row ∧ adjustments d !! (rid, c, o) = None ∧
    ((o = OperationSettle ∧ (c = ComponentFunding ∨ c = ComponentToken) ∧ br_Status row = StatusSettlementPending) ∨
     (o = OperationRefund ∧ (br_Status row = StatusActive ∨ br_Status row = StatusRefundPending))) ∧
    billing_recoveries d' = <[rid := completed_row c o now row]> (billing_recoveries d) ∧
    adjustments d' = <[(rid, c, o) := MkAdjustment (component_amount row c o) now]> (adjustments d).

Lemma adjusts_after rid c o d d1 d' : same_books d d1 → adjusts rid c o d1 d' → adjusts rid c o d d'.
Proof.
  intros [Eb Ea] [[E1 E2]|(row & now & H)]; [left; split; congruence|right; exists row, now]. by rewrite Eb, Ea in H.
Qed.

Lemma adjustmentTx_adjusts rid c o now d x d' :
  o = OperationSettle ∨ o = OperationRefund → adjustmentTx rid c o now d = (Ok x, d') → adjusts rid c o d d'.
Proof.
  intros Ho. unfold adjustmentTx. intros H. mstep H. apply FIRST_inv in Hs as [Hr ->]. rename x0 into row.
  destruct (_ && _); [mret H; by left|]. mstep H. injection Hs as Hmk <-.
  destruct x0 as [m|]; [mret H; by left|]. cbv zeta in H.
  set (apply := applyBillingRecoveryEffect _ _ _ _ _ _ ≫= _) in H.
  assert (∀ d', apply d = (Ok x, d') →
    (o = OperationSettle ∧ (c = ComponentFunding ∨ c = ComponentToken) ∧ br_Status row = StatusSettlementPending) ∨
    (o = OperationRefund ∧ (br_Status row = StatusActive ∨ br_Status row = StatusRefundPending)) → adjusts rid c o d d') as Hap.
  { clear H. intros d2 H Hg. subst apply. mstep H. apply effect_books in Hs. apply (adjusts_after _ _ _ _ d0); [done|].
    mstep H. apply CREATE_inv in Hs0 as [Hn ->].
    apply (updateComponentState_inv _ _ _ _ row) in H as ->; [|cbn; by rewrite (proj1 Hs)].
    right. exists row, now. split_and!; [by rewrite (proj1 Hs)|done|done|reflexivity|reflexivity]. }
  clearbody apply. destruct Ho as [-> | ->].
  - destruct (_ && _) eqn:Hc; [done|].
    destruct (negb (bool_decide (br_Status row = StatusSettlementPending))) eqn:Hst; [done|].
    rewrite negb_false_iff, bool_decide_eq_true in Hst.
    rewrite andb_false_iff, !negb_false_iff, !bool_decide_eq_true in Hc. apply Hap in H; auto.
  - destruct (_ || _); [mret H; by left|]. destruct (_ && _) eqn:Hg; [done|].
    rewrite andb_false_iff, !negb_false_iff, !bool_decide_eq_true in Hg. apply Hap in H; auto.
Qed.

Lemma adjustment_adjusts rid c o w r w' :
  ApplyBillingRecoveryAdjustment rid c o w = (r, w') → adjusts rid c o (w_db w) (w_db w').
Proof.
  unfold ApplyBillingRecoveryAdjustment. destruct (blank rid); [intros [= <- <-]; by left|].
  destruct (negb _) eqn:Hc; [intros [= <- <-]; by left|]. clear Hc. destruct (negb _) eqn:Ho; [intros [= <- <-]; by left|].
  rewrite negb_false_iff, orb_true_iff, !bool_decide_eq_true in Ho.
  apply mutation_books; [by left|apply adjusts_after|]. intros now d a d'. by apply adjustmentTx_adjusts.
Qed.

Lemma adjustment_refines rid c o w r w' :
  ApplyBillingRecoveryAdjustment rid c o w = (r, w') → book_step (LAdjust rid c o) (w_db w) (w_db w').
Proof.
  intros [H|(row & now & Hr & Hn & Hg & H1 & H2)]%adjustment_adjusts; [by apply book_same|]. by eapply book_adjust.
Qed.

Lemma reconcile_refines row input w r w' :
  reconcileBillingRecoveryInput row input w = (r, w') → book_step (LEnsure input) (w_db w) (w_db w').
Proof.
  unfold reconcileBillingRecoveryInput. destruct (negb _); [done_nothing|]. case_decide as Hsrc; [done_nothing|].
  destruct (negb (billingRecoveryIsReusable row)); [done_nothing|]. apply transaction_book.
  intros now a d' H. mstep H. apply FIRST_inv in Hs as [Hr ->]. rename x into cur.
  destruct (negb (same_identity cur input) || negb (billingRecoveryIsReusable cur)) eqn:Hg; [done|].
  rewrite orb_false_iff, !negb_false_iff in Hg. destruct Hg as [_ Hre]. mstep H. mret H.
  apply (UPDATE_row _ cur) in Hs as ->; [|done].
  eapply (book_row _ _ _ cur); [done|..|reflexivity|done]; [|done|done].
  by apply edge_rebind.
Qed.

(** [EnsureBillingRecovery] is a lookup, an insertion or a rebinding. *)
Lemma ensure_refines input w r w' :
  EnsureBillingRecovery input w = (r, w') → book_step (LEnsure input) (w_db w) (w_db w').
Proof.
  unfold EnsureBillingRecovery.
  do 4 (match goal with |- (if ?b then _ else _) _ = _ → _ => destruct b eqn:? end; [done_nothing|]).
  unfold mbind at 1, M_bind at 1. unfold try at 1.
  destruct (transaction (λ _, FIRST billing_recoveries (in_RequestID input)) w) as [r1 w1] eqn:E1.
  apply transaction_read in E1 as [<- _]. destruct r1 as [row|e]; [apply reconcile_refines|].
  destruct (negb (error_is e ErrRecordNotFound)); [done_nothing|].
  unfold mbind at 1, M_bind at 1. unfold try at 1. destruct (transaction _ w1) as [r2 w2] eqn:E2.
  apply transaction_inv in E2 as [_ E2]. destruct r2 as [row|e2].
  { intros [= <- <-]. mstep E2. injection E2 as _ <-. apply CREATE_inv in Hs as [Hn ->].
    eapply (book_create _ _ _ (BeforeCreate (w_now w1) input)); try done. cbn. lia. }
  unfold mbind at 1, M_bind at 1. unfold try at 1.
  destruct (transaction (λ _, FIRST billing_recoveries (in_RequestID input)) w2) as [r3 w3] eqn:E3.
  apply transaction_read in E3 as [Ed3 _]. rewrite <- E2, <- Ed3.
  destruct r3 as [row|e3]; [apply reconcile_refines|done_nothing].
Qed.

Lemma op_book_step op w r w' :
  run_ledger_op op w = (r, w') → book_step op (w_db w) (w_db w').
Proof.
  intros Hrun. destruct op; cbn [run_ledger_op op_request] in *;
    eauto using abort_refines, sync_refines, settlement_refines, touch_refines, mark_refund_refines,
      settled_refines, refunded_refines, preconsume_refines, adjustment_refines.
  - unfold mbind, M_bind in Hrun. destruct (EnsureBillingRecovery input w) as [[row|e] w1] eqn:E; mret Hrun;
      by eapply ensure_refines.
  - unfold mbind, M_bind in Hrun. destruct (ReserveBillingRecovery rid target delta unlimited w) as [[n|e] w1] eqn:E;
      mret Hrun; by eapply reserve_refines.
Qed.

(** C8: every operation of src/model/billing_recovery.go refines the abstract
    machine.  Whatever fails, a call either leaves the rows and markers as
    they were or makes one step of the machine on its own request. *)
Theorem billing_operation_refines (op : ledger_op) (w : world) :
  book_step op (w_db w) (w_db (exec (run_ledger_op op) w)).
Proof. unfold exec. destruct (run_ledger_op op w) as [r w'] eqn:E. by eapply op_book_step. Qed.

(** ** The status graph *)

Definition status_edge (s s' : recovery_status) : bool :=
  match s, s' with
  | StatusActive, _ => negb (bool_decide (s' = StatusSettled))
  | StatusSettlementPending, (StatusSettlementPending | StatusSettled) => true
  | StatusRefundPending, (StatusRefundPending | StatusRefunded) => true
  | StatusSettled, StatusSettled => true
  | StatusRefunded, (StatusRefunded | StatusActive) => true
  | _, _ => false
  end.

Lemma row_edge_status op r r' :
  row_edge op r r' → status_edge (br_Status r) (br_Status r') = true ∧
  (br_Status r = StatusRefunded → br_Status r' = StatusActive → billingRecoveryIsReusable r = true).
Proof.
  destruct 1 as [Hs _ Hs'|_ Hre Hs'|Hs Hs'|Hs Hs'|Hs|[Hs|Hs] Hs'|Hs _ Hs'|Hs _ Hs'].
  - rewrite Hs, Hs'. done.
  - destruct (reusable_inv _ Hre) as (Hs & _). rewrite Hs, Hs'. done.
  - rewrite Hs, Hs'. done.
  - apply settling_cases in Hs as [Hs|Hs]; rewrite Hs, Hs'; done.
  - rewrite Hs. split; [by destruct (br_Status r)|congruence].
  - rewrite Hs, Hs'. done.
  - rewrite Hs, Hs'. done.
  - rewrite Hs, Hs'. done.
  - rewrite Hs, Hs'. done.
Qed.

(** The status of every request moves only along
    active -> settlement_pending -> settled and
    active -> refund_pending -> refunded (or directly to refunded when
    nothing was reserved); settled is final, and a refunded row becomes active
    again only when it never held anything. *)
Theorem billing_status_moves (op : ledger_op) (w : world) (rid : string) (r : BillingRecovery)
    (Hr : billing_recoveries (w_db w) !! rid = Some r) :
  ∃ r', billing_recoveries (w_db (exec (run_ledger_op op) w)) !! rid = Some r' ∧
    status_edge (br_Status r) (br_Status r') = true ∧
    (br_Status r = StatusRefunded → br_Status r' = StatusActive → billingRecoveryIsReusable r = true).
Proof.
  assert (status_edge (br_Status r) (br_Status r) = true) as Hrefl by (by destruct (br_Status r)).
  pose proof (op_book_step op w (run_ledger_op op w).1 (exec (run_ledger_op op) w) (surjective_pairing _)) as Hs.
  assert (∀ (m : gmap string BillingRecovery) q, m = billing_recoveries (w_db w) → op_request op ≠ rid →
    ∃ r', <[op_request op := q]> m !! rid = Some r' ∧ status_edge (br_Status r) (br_Status r') = true ∧
    (br_Status r = StatusRefunded → br_Status r' = StatusActive → billingRecoveryIsReusable r = true)) as Hother.
  { intros m q -> Hne. exists r. rewrite lookup_insert_ne by done. split_and!; [done|done|congruence]. }
  destruct Hs as [[Eb _]|q Hn _ _ _ _ _ _ _ _ Hrows _|q q' Hq He _ _ Hrows _
    |q q' t a Hq Hs _ Hs' _ _ _ _ _ Hrows _|q rid' c o now Hop Hq _ _ Hrows _].
  - exists r. rewrite Eb. split_and!; [done|done|congruence].
  - rewrite Hrows. apply Hother; [done|]. intros <-. congruence.
  - rewrite Hrows. destruct (decide (op_request op = rid)) as [E|]; [|by apply Hother].
    rewrite E in *. assert (q = r) as -> by congruence. rewrite lookup_insert_eq. exists q'. split; [done|].
    by apply (row_edge_status op).
  - rewrite Hrows. destruct (decide (op_request op = rid)) as [E|]; [|by apply Hother].
    rewrite E in *. assert (q = r) as -> by congruence. rewrite lookup_insert_eq. exists q'. rewrite Hs, Hs'. done.
  - assert (rid' = op_request op) as -> by (by rewrite Hop).
    rewrite Hrows. destruct (decide (op_request op = rid)) as [E|]; [|by apply Hother].
    rewrite E in *. assert (q = r) as -> by congruence. rewrite lookup_insert_eq.
    eexists. split; [done|]. destruct (completed_row_money c o now r) as (_ & -> & _). split; [done|congruence].
Qed.

Lemma billing_status_moves_witness :
  let w := run_ops (take 5 sample_ops) sample_world in
  ∃ r', billing_recoveries (w_db (exec (run_ledger_op (LSettlement "r1" 5)) w)) !! "r1" = Some r' ∧
    br_Status r' = StatusRefundPending.
Proof.
  intros w. destruct (billing_recoveries (w_db w) !! "r1") as [r|] eqn:Hr; [|by vm_compute in Hr].
  destruct (billing_status_moves (LSettlement "r1" 5) w "r1" r Hr) as (r' & E & _).
  exists r'. split; [exact E|]. vm_compute in E. by injection E as <-.
Defined.

(** ** Exactly once

    The callers of the package mark a request before they refund it, and do
    not rebind a request that a refund has already touched. *)

Definition disciplined (op : ledger_op) (d : db) : Prop :=
  match op with
  | LAdjust rid _ OperationRefund => ∀ r, billing_recoveries d !! rid = Some r → br_Status r ≠ StatusActive
  | LEnsure input => ∀ r, billing_recoveries d !! in_RequestID input = Some r → billingRecoveryIsReusable r = true →
      ∀ c, adjustments d !! (in_RequestID input, c, OperationRefund) = None
  | _ => True
  end.

Definition marked (d : db) (rid : string) (c : recovery_component) (o : recovery_operation) : Prop :=
  is_Some (adjustments d !! (rid, c, o)).

(** Completed columns have their marker. *)
Definition progress_ok (d : db) (rid : string) (r : BillingRecovery) : Prop :=
  (br_FundingRefund r = StateCompleted → marked d rid ComponentFunding OperationRefund) ∧
  (br_TokenRefund r = StateCompleted → marked d rid ComponentToken OperationRefund) ∧
  (br_FundingSettlement r = StateCompleted → marked d rid ComponentFunding OperationSettle) ∧
  (br_TokenSettlement r = StateCompleted → marked d rid ComponentToken OperationSettle).

Definition row_exact (d : db) (rid : string) (r : BillingRecovery) : Prop :=
  progress_ok d rid r ∧ (br_Source r ≠ SourceSubscription → 0 <= br_TokenAmount r) ∧
  (∀ c, marked d rid c OperationRefund →
     (br_Status r = StatusRefundPending ∨ br_Status r = StatusRefunded) ∧
     (br_Source r ≠ SourceSubscription → marker_amount d rid c OperationRefund = component_amount r c OperationRefund)) ∧
  (br_Status r = StatusRefunded →
     br_PreConsumeState r = PreConsumePrepared ∨ BillingRecoveryRefundComplete r = true) ∧
  (br_Status r = StatusSettled → BillingRecoverySettlementComplete r = true).

Definition exact (d : db) : Prop := ∀ rid r, billing_recoveries d !! rid = Some r → row_exact d rid r.

Lemma row_exact_ext d d' rid r :
  (∀ c o, o ≠ OperationReserve → adjustments d' !! (rid, c, o) = adjustments d !! (rid, c, o)) →
  row_exact d rid r → row_exact d' rid r.
Proof.
  intros Ha ((P1 & P2 & P3 & P4) & Ht & Hm & Hrf & Hse).
  assert (∀ c o, o ≠ OperationReserve → marked d' rid c o ↔ marked d rid c o) as Hk
    by (intros c o Ho; unfold marked; by rewrite Ha).
  assert (∀ c o, o ≠ OperationReserve → marker_amount d' rid c o = marker_amount d rid c o) as Hn
    by (intros c o Ho; unfold marker_amount; by rewrite Ha).
  split_and!; try done.
  - unfold progress_ok. rewrite !Hk by done. done.
  - intros c. rewrite Hk, Hn by done. apply Hm.
Qed.

(** Changing one row and only its own markers. *)
Lemma exact_change d d' rid r' :
  exact d → billing_recoveries d' = <[rid := r']> (billing_recoveries d) →
  (∀ k c o, k ≠ rid → adjustments d' !! (k, c, o) = adjustments d !! (k, c, o)) →
  row_exact d' rid r' → exact d'.
Proof.
  intros Hex Hrows Hadj Hr' k b. rewrite Hrows. destruct (decide (k = rid)) as [->|Hne].
  { rewrite lookup_insert_eq. by intros [= <-]. }
  rewrite lookup_insert_ne by done. intros Hb. apply Hex in Hb. by apply (row_exact_ext d); [intros; apply Hadj|].
Qed.

(** The refund columns and the amounts decide [BillingRecoveryRefundComplete]. *)
Lemma complete_same r r' :
  same_progress r r' →
  BillingRecoverySettlementComplete r' = BillingRecoverySettlementComplete r ∧
  (same_amounts r r' → BillingRecoveryRefundComplete r' = BillingRecoveryRefundComplete r).
Proof.
  intros (E1 & E2 & E3 & E4 & E5). unfold BillingRecoverySettlementComplete, BillingRecoveryRefundComplete.
  rewrite E1, E2, E3, E4, E5. split; [done|]. intros (_ & E7 & E8 & _). by rewrite E7, E8.
Qed.

Lemma progress_ok_same d d' rid r r' :
  (∀ c o, adjustments d' !! (rid, c, o) = adjustments d !! (rid, c, o)) → same_progress r r' →
  progress_ok d rid r → progress_ok d' rid r'.
Proof.
  intros Ha (E1 & E2 & E3 & E4 & E5). unfold progress_ok, marked. rewrite !Ha, E1, E3, E4, E5. done.
Qed.

Lemma component_amount_same r r' c :
  same_amounts r r' → component_amount r' c OperationRefund = component_amount r c OperationRefund.
Proof. intros (E1 & E2 & E3 & _). destruct c; cbn; congruence. Qed.

(** Along an edge: unmarked rows, and rows that keep source and amounts. *)
Section edge.
Context (d : db) (rid : string) (r r' : BillingRecovery).
Context (Hex : row_exact d rid r) (Hpr : same_progress r r').

Lemma edge_unmarked :
  (∀ c, ¬ marked d rid c OperationRefund) →
  (br_Source r' ≠ SourceSubscription → 0 <= br_TokenAmount r') →
  (br_Status r' = StatusRefunded → br_PreConsumeState r' = PreConsumePrepared ∨ BillingRecoveryRefundComplete r' = true) →
  br_Status r' ≠ StatusSettled → row_exact d rid r'.
Proof.
  destruct Hex as (Hp & _). intros Hno Ht Hrf Hse. split_and!; try done.
  - by eapply progress_ok_same.
  - by intros c Hc%Hno.
Qed.

Lemma edge_kept :
  br_Source r' = br_Source r → same_amounts r r' →
  (br_Status r = StatusRefundPending ∨ br_Status r = StatusRefunded →
   br_Status r' = StatusRefundPending ∨ br_Status r' = StatusRefunded) →
  (br_Status r' = StatusRefunded → br_Status r = StatusRefunded ∨
     br_PreConsumeState r = PreConsumePrepared ∨ BillingRecoveryRefundComplete r = true) →
  (br_Status r' = StatusSettled → br_Status r = StatusSettled ∨ BillingRecoverySettlementComplete r = true) →
  row_exact d rid r'.
Proof.
  destruct Hex as (Hp & Ht & Hm & Hrf & Hse). intros Es Ea Hst Hr Hs.
  destruct (complete_same r r' Hpr) as [Cs Cr]. specialize (Cr Ea). pose proof Ea as (A1 & A2 & A3 & A4). split_and!.
  - by eapply progress_ok_same.
  - by rewrite Es, A3.
  - intros c [H1 H2]%Hm. split; [auto|]. rewrite Es, (component_amount_same r r' c Ea). done.
  - rewrite A4, Cr. intros [H|H]%Hr; auto.
  - rewrite Cs. intros [H|H]%Hs; auto.
Qed.
End edge.

Lemma edge_exact op d rid r r' :
  (is_ensure op = true → billingRecoveryIsReusable r = true → ∀ c, ¬ marked d rid c OperationRefund) →
  row_ok d rid r → row_exact d rid r → row_edge op r r' → same_progress r r' → row_exact d rid r'.
Proof.
  intros Hre Hok Hex He Hpr. pose proof Hex as (_ & Ht & Hm & _).
  assert (br_Status r = StatusActive → ∀ c, ¬ marked d rid c OperationRefund) as Hact.
  { intros Hst c [[H|H] _]%Hm; congruence. }
  destruct He as [Hs Hp Hs' Es Ea|Hen Hr Hs' Ea|Hs Hs' Es Hp Ht'|Hs Hs' Es Ea|Hs Es Ea|Hs Hs' Es Hns Hpp|Hs Hc Hs' Es Ea|Hs Hc Hs' Es Ea].
  - eapply edge_kept; try done; rewrite Hs, Hs'; auto; naive_solver.
  - destruct (reusable_inv r Hr) as (_ & _ & _ & _ & Ht0). destruct Ea as (_ & _ & Et & _).
    eapply (edge_unmarked _ _ r); try done; rewrite ?Hs', ?Et, ?Ht0; try done. by apply Hre.
  - eapply (edge_unmarked _ _ r); try done; rewrite ?Hs'; try done. by apply Hact.
  - apply settling_cases in Hs as [Hs|Hs]; eapply edge_kept; try done; rewrite Hs, Hs'; naive_solver.
  - eapply edge_kept; try done; rewrite Hs; auto.
  - destruct (decide (br_Source r = SourceSubscription)) as [Hsub|Hsub].
    + destruct Hex as (Hpg & _ & _ & _ & _). split_and!; try (rewrite Hs'; done).
      * by eapply progress_ok_same.
      * by rewrite Es.
      * intros c _. rewrite Es. split; [by left|done].
    + eapply edge_kept; try done; [by apply Hns|..]; rewrite Hs'; auto; done.
  - eapply edge_kept; try done; rewrite Hs, Hs'; auto; naive_solver.
  - eapply edge_kept; try done; rewrite Hs, Hs'; auto; naive_solver.
Qed.

(** An adjustment completes its column and records its marker. *)
Lemma adjust_exact d d' rid c o now r :
  row_exact d rid r → adjustments d !! (rid, c, o) = None →
  (o = OperationSettle ∧ (c = ComponentFunding ∨ c = ComponentToken) ∧ br_Status r = StatusSettlementPending) ∨
  (o = OperationRefund ∧ br_Status r = StatusRefundPending) →
  adjustments d' = <[(rid, c, o) := MkAdjustment (component_amount r c o) now]> (adjustments d) →
  row_exact d' rid (completed_row c o now r).
Proof.
  intros ((P1 & P2 & P3 & P4) & Ht & Hm & Hrf & Hse) Hnone Hg Hadj.
  pose proof (marker_amount_insert d d' rid c o _ Hadj) as Hma. cbn in Hma.
  destruct (completed_row_money c o now r) as ((E1 & E2 & E3 & E4 & E5) & E6 & E7 & E8).
  assert (∀ c' o', marked d rid c' o' → marked d' rid c' o') as Hup.
  { intros c' o' Hs. unfold marked. rewrite Hadj, lookup_insert. case_decide; [done|exact Hs]. }
  assert (marked d' rid c o) as Hnew by (unfold marked; rewrite Hadj, lookup_insert_eq; done).
  assert (∀ c' o', marked d' rid c' o' → marked d rid c' o' ∨ c' = c ∧ o' = o) as Hdown.
  { intros c' o'. unfold marked. rewrite Hadj, lookup_insert. case_decide; [right; naive_solver|by left]. }
  split_and!.
  - assert (o ≠ OperationReserve) as Ho by (by destruct Hg as [(-> & _)|[-> _]]).
    unfold progress_ok. destruct o, c; try done; cbn; split_and!; auto.
  - by rewrite E1, E5.
  - intros c' Hc. rewrite E1, E6, Hma.
    assert (component_amount (completed_row c o now r) c' OperationRefund = component_amount r c' OperationRefund) as ->
      by (destruct c'; cbn; congruence).
    destruct (Hdown _ _ Hc) as [Hd|[-> <-]].
    + destruct (Hm _ Hd) as [H1 H2]. split; [done|]. rewrite decide_False; [done|].
      intros [-> <-]. unfold marked in Hd. rewrite Hnone in Hd. by destruct Hd.
    + rewrite decide_True by done. destruct Hg as [[? _]|[_ Hst]]; [done|]. auto.
  - rewrite E6. intros Hst. destruct Hg as [(_ & _ & H)|[_ H]]; congruence.
  - rewrite E6. intros Hst. destruct Hg as [(_ & _ & H)|[_ H]]; congruence.
Qed.

Lemma op_exact op w r w' :
  ledger_ok (w_db w) → disciplined op (w_db w) → exact (w_db w) → run_ledger_op op w = (r, w') → exact (w_db w').
Proof.
  intros Hok Hd Hex Hrun. pose proof (op_book_step op w r w' Hrun) as Hs.
  destruct Hs as [[Eb Ea]|q Hn Hst Hp Hf1 Hf2 Hf3 Hf4 Hf5 Ht Hrows Hadj|q q' Hq He Hi Hpr Hrows Hadj
    |q q' t a Hq Hs Hp Hs' Hp' Hsrc Hi Hpr Ht Hrows Hadj|q rid c o now Hop Hq Hn Hg Hrows Hadj].
  - intros k b. rewrite Eb. intros Hb. apply Hex in Hb. unfold row_exact, progress_ok, marked, marker_amount in *.
    by rewrite Ea.
  - eapply exact_change; [done|done|by intros; rewrite Hadj|].
    assert (∀ c o, ¬ marked (w_db w') (op_request op) c o) as Hno.
    { intros c o. unfold marked. rewrite Hadj. intros Hs%(proj2 Hok). rewrite Hn in Hs. by destruct Hs. }
    split_and!; try congruence; [unfold progress_ok; split_and!; congruence|by intros c Hc%Hno].
  - eapply exact_change; [done|done|by intros; rewrite Hadj|].
    assert (row_exact (w_db w) (op_request op) q') as Hq'.
    { apply (edge_exact op _ _ q); [|by apply Hok|by apply Hex|done|done]. intros Hen Hre c Hc.
      destruct op; try done. unfold marked in Hc. cbn in Hc, Hd. rewrite (Hd _ Hq Hre) in Hc. by destruct Hc. }
    unfold row_exact, progress_ok, marked, marker_amount in *. by rewrite Hadj.
  - eapply exact_change; [done|done|intros; rewrite Hadj, lookup_insert_ne by congruence; done|].
    assert (∀ c o, o ≠ OperationReserve → adjustments (w_db w') !! (op_request op, c, o) = adjustments (w_db w) !! (op_request op, c, o))
      as Hsame by (intros; rewrite Hadj, lookup_insert_ne by congruence; done).
    assert (row_exact (w_db w) (op_request op) q') as Hq'.
    { apply (edge_unmarked _ _ q); [by apply Hex|done|..]; try congruence.
      - intros c Hc. apply Hex in Hq as (_ & _ & Hm & _). destruct (Hm c Hc) as [[|] _]; congruence.
      - rewrite Hsrc. intros Hns. apply Hex in Hq as (_ & H0 & _). specialize (H0 Hns). lia. }
    by apply (row_exact_ext (w_db w)).
  - eapply exact_change; [done|done|intros; rewrite Hadj, lookup_insert_ne by congruence; done|].
    eapply adjust_exact; [by apply Hex|done| |done]. destruct Hg as [Hg|(-> & Hst)]; [by left|right].
    split; [done|]. subst op. cbn in Hd. destruct Hst as [Hst|Hst]; [|done]. by apply Hd in Hst.
Qed.

(** ** What a closed request holds *)

Lemma refund_complete_inv r :
  BillingRecoveryRefundComplete r = true →
  br_FundingRefund r = StateCompleted ∧ (br_TokenRefund r = StateCompleted ∨ br_TokenAmount r <= 0).
Proof.
  unfold BillingRecoveryRefundComplete.
  destruct (bool_decide_reflect (br_FundingRefund r = StateCompleted)); cbn; [|done].
  destruct (_ && _); [done|]. destruct (Z.ltb_spec 0 (br_TokenAmount r)); cbn; [|auto].
  destruct (bool_decide_reflect (br_TokenRefund r = StateCompleted)); cbn; auto. done.
Qed.

Inductive billing_run : world → world → Prop :=
  | billing_run_nil w : billing_run w w
  | billing_run_step w op r w1 w' :
      amounts_ok (w_db w) → ledger_op_ok op → disciplined op (w_db w) → run_ledger_op op w = (r, w1) →
      billing_run w1 w' → billing_run w w'
  | billing_run_env w w1 w' : w_db w1 = w_db w → billing_run w1 w' → billing_run w w'.

Lemma billing_run_exact w w' :
  billing_run w w' → ledger_ok (w_db w) → exact (w_db w) → ledger_ok (w_db w') ∧ exact (w_db w').
Proof.
  induction 1 as [w|w op r w1 w' Ham Hop Hd Hr Hrun IH|w w1 w' Ed Hrun IH]; intros Hok Hex; [done|..].
  - pose proof (op_exact _ _ _ _ Hok Hd Hex Hr). apply ledger_op_moves in Hr as [Hok1 _]; auto.
  - rewrite Ed in IH. auto.
Qed.

Lemma unmarked_amount d rid c o : ¬ marked d rid c o → marker_amount d rid c o = 0.
Proof. unfold marked, marker_amount. destruct (adjustments d !! (rid, c, o)); [|done]. intros []. by eexists. Qed.


(** *** Runs on concrete data *)

Definition disciplined_check (op : ledger_op) (d : db) : bool :=
  match op with
  | LAdjust rid _ OperationRefund =>
      match billing_recoveries d !! rid with
      | Some r => negb (bool_decide (br_Status r = StatusActive))
      | None => true
      end
  | LEnsure input =>
      match billing_recoveries d !! in_RequestID input with Some r => negb (billingRecoveryIsReusable r) | None => true end
  | _ => true
  end.

Lemma disciplined_check_ok op d : disciplined_check op d = true → disciplined op d.
Proof.
  destruct op as [input|rid e|rid s f e t|rid delta|rid|rid e|rid|rid e|rid q unl|rid tgt delta unl|rid c o]; cbn; try done.
  - intros H r Hr Hre. rewrite Hr, Hre in H. done.
  - destruct o; try done. intros H r Hr. rewrite Hr in H. by apply negb_true_iff, bool_decide_eq_false in H.
Qed.

Fixpoint disciplined_ops (ops : list ledger_op) (w : world) : bool :=
  match ops with
  | [] => true
  | op :: ops => amounts_check (w_db w) && disciplined_check op (w_db w) && disciplined_ops ops (exec (run_ledger_op op) w)
  end.

Lemma run_ops_billing_run ops w :
  Forall ledger_op_ok ops → disciplined_ops ops w = true → billing_run w (run_ops ops w).
Proof.
  intros Hops. revert w. induction Hops as [|op ops Hop Hops IH]; intros w Hc; [constructor|].
  cbn in Hc. rewrite !andb_true_iff in Hc. destruct Hc as [[H1 H2] H3].
  eapply billing_run_step; [by apply amounts_check_ok|done|by apply disciplined_check_ok|apply surjective_pairing|by apply IH].
Qed.

Lemma exact_empty d : billing_recoveries d = ∅ → exact d.
Proof. intros E rid r. by rewrite E, lookup_empty. Qed.


(** ** Rebinding a request that the worker has closed *)

(** A subscription attempt stalls before it reserves anything; the recovery
    worker closes the stale row; the fallback rebinds it to the wallet and
    charges 30; the request fails and is refunded. *)
Definition rebind_ops : list ledger_op :=
  [LEnsure (MkInput "r1" 7 11 SourceSubscription 0 0 true);
   LMarkRefundPending "r1" None; LAdjust "r1" ComponentFunding OperationRefund; LMarkRefunded "r1" None;
   LEnsure (wallet_input "r1"); LPreConsume "r1" 30 false;
   LMarkRefundPending "r1" None; LAdjust "r1" ComponentFunding OperationRefund;
   LAdjust "r1" ComponentToken OperationRefund; LMarkRefunded "r1" None].

(** Without the discipline the refund is lost.  The marker that the worker
    left makes the refund of the rebound request a no-op: the request ends as
    refunded, the token is given back, and the 30 units taken from the wallet
    never return. *)
Theorem rebound_request_loses_refund :
  let w' := run_ops rebind_ops (world_of db_of_two) in
  (br_Status <$> billing_recoveries (w_db w') !! "r1") = Some StatusRefunded ∧
  wallet_balance (world_of db_of_two) 7 = 100 ∧ wallet_balance w' 7 = 70 ∧
  token_balance w' 11 = token_balance (world_of db_of_two) 11.
Proof. by vm_compute. Qed.
