(* ===== verification/RequestProgress.v ===== *)
(** * How far one request has come

    The calls that settle and refund a wallet-funded request, seen from the
    state in which it was reserved: each call keeps [progress], and
    [progress] determines the balances.  The sessions (SessionExact) and the
    recovery worker (RecoveryWorker) are both verified against it. *)

From S2P Require Import GoStrings.
From S2P Require Import Prelude Store Calendar QuotaBatch QuotaReserve Subscription BillingRecovery BillingLedger.
From S2P Require Import BillingMachine.
#[local] Open Scope Z_scope.

(** ** Successful adjustments leave their marker *)

Lemma mutation_ok {A} rid' fu ft (body : Z → M db A) w a w' :
  (m ← beginBillingRecoveryQuotaMutation rid' fu ft; with_mutation m body) w = (Ok a, w') →
  ∃ now d, same_books (w_db w) d ∧ body now d = (Ok a, w_db w').
Proof.
  unfold mbind at 1, M_bind at 1.
  destruct (beginBillingRecoveryQuotaMutation rid' fu ft w) as [[m|e] w1] eqn:E1; [|done].
  apply begin_owns in E1. unfold with_mutation. set (tx := transaction _). unfold mbind at 1, M_bind at 1. unfold try.
  destruct (tx w1) as [rt w2] eqn:E2. apply transaction_inv in E2 as [Eb E2].
  pose proof E1 as (Ed1 & _). destruct rt as [b|e]; cbn [is_ok].
  - unfold release. unfold_m. intros [= -> <-]. mstep E2. apply applyPendingDeltas_charged, ch_books in Hs.
    rewrite Ed1 in Hs. eauto.
  - destruct (release_restores m w w1 w2 E1 Eb) as (w3 & E3 & _). rewrite (bind_ok _ _ _ _ _ E3). done.
Qed.

Lemma adjustmentTx_marks rid c o now d x d' r :
  adjustmentTx rid c o now d = (Ok x, d') → billing_recoveries d !! rid = Some r →
  br_Status r ≠ StatusSettled → br_Status r ≠ StatusRefunded → marked d' rid c o.
Proof.
  intros H Hr Hs1 Hs2. unfold adjustmentTx in H. mstep H. apply FIRST_inv in Hs as [Hr' ->].
  assert (x0 = r) as -> by congruence. rewrite (bool_decide_false (br_Status r = StatusSettled)) in H by done.
  rewrite andb_false_r in H. mstep H. injection Hs as Hmk <-. destruct x0 as [m|]; [mret H; by exists m|].
  cbv zeta in H. set (apply := applyBillingRecoveryEffect _ _ _ _ _ _ ≫= _) in H.
  assert (∀ d', apply d = (Ok x, d') → marked d' rid c o) as Hap.
  { clear H. intros d2 H. subst apply. mstep H. apply effect_books in Hs.
    mstep H. apply CREATE_inv in Hs0 as [Hn ->]. apply (updateComponentState_inv _ _ _ _ r) in H as ->;
      [|cbn; by rewrite (proj1 Hs)]. unfold marked. cbn. by rewrite lookup_insert_eq. }
  clearbody apply. destruct o; [| |by apply Hap].
  - destruct (_ && _); [done|]. destruct (negb _); [done|]. by apply Hap.
  - rewrite (bool_decide_false (br_Status r = StatusRefunded)) in H by done. cbn in H. destruct (_ && _); [done|]. by apply Hap.
Qed.

Lemma adjustment_marks rid c o w x w' r :
  ApplyBillingRecoveryAdjustment rid c o w = (Ok x, w') → billing_recoveries (w_db w) !! rid = Some r →
  br_Status r ≠ StatusSettled → br_Status r ≠ StatusRefunded → marked (w_db w') rid c o.
Proof.
  unfold ApplyBillingRecoveryAdjustment. destruct (blank rid); [done|]. destruct (negb _); [done|].
  destruct (negb _); [done|]. intros (now & d & Hb & H)%mutation_ok Hr. eapply adjustmentTx_marks; [exact H|].
  by rewrite (proj1 Hb).
Qed.

Lemma marker_insert_inv d d' rid c o a c' o' b :
  adjustments d' = <[(rid, c, o) := a]> (adjustments d) → adjustments d' !! (rid, c', o') = Some b →
  (c' = c ∧ o' = o ∧ b = a) ∨ adjustments d !! (rid, c', o') = Some b.
Proof.
  intros ->. destruct (decide ((rid, c, o) = (rid, c', o'))) as [E|]; [|rewrite lookup_insert_ne by done; by right].
  injection E as -> ->. rewrite lookup_insert_eq. intros [= <-]. by left.
Qed.

Lemma marked_insert d d' rid c o a c' o' :
  adjustments d' = <[(rid, c, o) := a]> (adjustments d) →
  marked d' rid c' o' ↔ (c' = c ∧ o' = o) ∨ marked d rid c' o'.
Proof.
  intros E. unfold marked. split.
  - intros [b [(-> & -> & _)|Hb]%(marker_insert_inv _ _ _ _ _ _ _ _ _ E)]; [by left|right; by exists b].
  - rewrite E. intros [[-> ->]|Hb]; [by rewrite lookup_insert_eq|].
    destruct (decide ((rid, c, o) = (rid, c', o'))) as [->|]; [by rewrite lookup_insert_eq|by rewrite lookup_insert_ne].
Qed.

(** The converse of [progress_ok]. *)
Definition columns_kept (d : db) (rid : string) (r : BillingRecovery) : Prop :=
  (marked d rid ComponentFunding OperationRefund → br_FundingRefund r = StateCompleted) ∧
  (marked d rid ComponentExtra OperationRefund → br_ExtraRefund r = StateCompleted) ∧
  (marked d rid ComponentToken OperationRefund → br_TokenRefund r = StateCompleted) ∧
  (marked d rid ComponentFunding OperationSettle → br_FundingSettlement r = StateCompleted) ∧
  (marked d rid ComponentToken OperationSettle → br_TokenSettlement r = StateCompleted).

Lemma row_tx {A} rid (body : Z → BillingRecovery → M db A) w r w' :
  transaction (λ now, row ← FIRST billing_recoveries rid; body now row) w = (r, w') →
  match r with
  | Ok a => ∃ row, billing_recoveries (w_db w) !! rid = Some row ∧ body (w_now w) row (w_db w) = (Ok a, w_db w')
  | Err _ => w_db w' = w_db w
  end.
Proof.
  intros [_ H]%transaction_inv. destruct r as [a|e]; [|done]. mstep H. apply FIRST_inv in Hs as [Hr ->]. eauto.
Qed.

Definition columns_pending (r : BillingRecovery) : Prop :=
  br_FundingRefund r = StatePending ∧ br_ExtraRefund r = StatePending ∧ br_TokenRefund r = StatePending ∧
  br_FundingSettlement r = StatePending ∧ br_TokenSettlement r = StatePending.

Definition refunding (s : recovery_status) : Prop := s = StatusRefundPending ∨ s = StatusRefunded.

(** ** Progress *)

Section progress.
Context (rid : string) (delta : Z) (w0 : world) (r0 : BillingRecovery).
Context (Hdelta : negatable delta) (Hr0 : billing_recoveries (w_db w0) !! rid = Some r0).
Context (Hwallet : br_Source r0 = SourceWallet).
Context (Hfresh : ∀ c o, o ≠ OperationReserve → adjustments (w_db w0) !! (rid, c, o) = None).

(** Since [w0], only the row [rid] and its markers have changed; it owes
    what it owed; a settlement is of [delta], a refund of the reserved
    amount; completed columns have markers. *)
Record progress (w : world) (r : BillingRecovery) : Prop := {
  pg_ok : ledger_ok (w_db w);
  pg_amounts : amounts_ok (w_db w);
  pg_sums : sums_kept w0 w;
  pg_rows : billing_recoveries (w_db w) = <[rid := r]> (billing_recoveries (w_db w0));
  pg_others : ∀ k c o, k ≠ rid → adjustments (w_db w) !! (k, c, o) = adjustments (w_db w0) !! (k, c, o);
  pg_money : same_money r0 r;
  pg_pre : br_PreConsumeState r = br_PreConsumeState r0;
  pg_extra : br_ExtraAmount r = br_ExtraAmount r0;
  pg_delta : br_Status r = StatusSettlementPending ∨ br_Status r = StatusSettled → br_SettlementDelta r = delta;
  pg_settle : ∀ c a, adjustments (w_db w) !! (rid, c, OperationSettle) = Some a → adj_Amount a = delta;
  pg_refund : ∀ c a, adjustments (w_db w) !! (rid, c, OperationRefund) = Some a →
    adj_Amount a = component_amount r0 c OperationRefund;
  pg_refunding : ∀ c, marked (w_db w) rid c OperationRefund → refunding (br_Status r);
  pg_columns : progress_ok (w_db w) rid r;
  pg_marked : columns_kept (w_db w) rid r;
  pg_settled : br_Status r = StatusSettled → BillingRecoverySettlementComplete r = true;
  pg_refunded : br_Status r = StatusRefunded → BillingRecoveryRefundComplete r = true
}.

Lemma progress_row w r : progress w r → billing_recoveries (w_db w) !! rid = Some r.
Proof. intros P. rewrite (pg_rows _ _ P). apply lookup_insert_eq. Qed.

(** The balances are a function of the markers. *)
Lemma progress_balances w r :
  progress w r →
  (∀ u, wallet_balance w u = wallet_balance w0 u +
     (if decide (u = br_UserID r0) then marker_amount (w_db w) rid ComponentFunding OperationRefund -
        marker_amount (w_db w) rid ComponentFunding OperationSettle else 0)) ∧
  (∀ t, 0 < t → token_balance w t = token_balance w0 t +
     (if decide (t = br_TokenID r0) then marker_amount (w_db w) rid ComponentToken OperationRefund -
        marker_amount (w_db w) rid ComponentToken OperationSettle else 0)).
Proof.
  intros P. destruct (pg_sums _ _ P) as [S1 S2], (pg_money _ _ P) as (E1 & E2 & E3 & E4 & E5).
  pose proof (change_wallet_held _ _ rid r0 r Hr0 (pg_rows _ _ P) (pg_others _ _ P)) as Hw.
  pose proof (change_token_held _ _ rid r0 r Hr0 (pg_rows _ _ P) (pg_others _ _ P)) as Ht.
  assert (∀ c o, o ≠ OperationReserve → marker_amount (w_db w0) rid c o = 0) as Hm
    by (intros c o Ho; unfold marker_amount; by rewrite Hfresh).
  unfold wallet_sum, token_sum in S1, S2.
  unfold wallet_share, token_share, held_funding, held_token in Hw, Ht. rewrite E1, E2, E4, Hwallet in Hw. rewrite E3, E5 in Ht.
  split.
  - intros u. specialize (S1 u). specialize (Hw u). rewrite !Hm in Hw by done. repeat case_decide; naive_solver lia.
  - intros t Htp. specialize (S2 t Htp). specialize (Ht t). rewrite !Hm in Ht by done. repeat case_decide; naive_solver lia.
Qed.

(** ** Steps *)

Lemma progress_same w w' r : w_db w' = w_db w → sums_kept w w' → progress w r → progress w' r.
Proof.
  intros Ed Hs P. constructor; rewrite ?Ed; try apply P. eapply sums_kept_trans; [apply P|done].
Qed.

Lemma progress_env w w' r : w_db w' = w_db w → w_batch w' = w_batch w → progress w r → progress w' r.
Proof.
  intros Ed Eb. apply progress_same; [done|]. apply sums_of_tables; [done|]. rewrite Ed. apply conserved_refl.
Qed.

Lemma amounts_ok_change d d' r :
  billing_recoveries d' = <[rid := r]> (billing_recoveries d) →
  (∀ c o, negatable (component_amount r c o)) → amounts_ok d → amounts_ok d'.
Proof.
  intros E Hr H k b c o. rewrite E, lookup_insert. case_decide; [intros [= <-]; apply Hr|apply H].
Qed.

(** Rewriting the row without touching its amounts and columns. *)
Lemma progress_relabel w w' r r' :
  progress w r → ledger_ok (w_db w') → sums_kept w w' →
  billing_recoveries (w_db w') = <[rid := r']> (billing_recoveries (w_db w)) →
  adjustments (w_db w') = adjustments (w_db w) →
  same_money r r' → same_progress r r' → br_ExtraAmount r' = br_ExtraAmount r →
  br_PreConsumeState r' = br_PreConsumeState r →
  br_SettlementDelta r' = delta ∨ br_SettlementDelta r' = br_SettlementDelta r →
  (br_Status r' = StatusSettlementPending ∨ br_Status r' = StatusSettled → br_SettlementDelta r' = delta) →
  (br_Status r' = StatusSettled → BillingRecoverySettlementComplete r' = true) →
  (br_Status r' = StatusRefunded → BillingRecoveryRefundComplete r' = true) →
  (refunding (br_Status r) → refunding (br_Status r')) →
  progress w' r'.
Proof.
  intros P Hok Hs Hrows Hadj Hm Hp He Hpre Hd Hd' Hst Hrf Hre.
  assert (∀ k c o, k ≠ rid → adjustments (w_db w') !! (k, c, o) = adjustments (w_db w0) !! (k, c, o)) as Hoth
    by (intros; rewrite Hadj; by apply (pg_others _ _ P)).
  constructor; try done; rewrite ?Hadj; try apply P.
  - eapply amounts_ok_change; [exact Hrows| |apply P]. intros c o.
    pose proof (pg_amounts _ _ P _ _ c o (progress_row _ _ P)) as Ha.
    destruct Hm as (_ & _ & _ & E1 & E2).
    destruct c, o; cbn in *; rewrite ?E1, ?E2, ?He; try done;
      by destruct Hd as [-> | ->].
  - eapply sums_kept_trans; [apply P|done].
  - rewrite Hrows, (pg_rows _ _ P). apply insert_insert_eq.
  - destruct (pg_money _ _ P) as (?&?&?&?&?), Hm as (?&?&?&?&?). split_and!; congruence.
  - rewrite Hpre. apply P.
  - rewrite He. apply P.
  - intros c Hc. apply Hre, (pg_refunding _ _ P c). unfold marked in *. by rewrite Hadj in Hc.
  - destruct (pg_columns _ _ P) as (P1&P2&P3&P4), Hp as (Q1&Q2&Q3&Q4&Q5). unfold progress_ok, marked in *.
    rewrite Hadj, Q1, Q3, Q4, Q5. done.
  - destruct (pg_marked _ _ P) as (P1&P2&P3&P4&P5), Hp as (Q1&Q2&Q3&Q4&Q5). unfold columns_kept, marked in *.
    rewrite Hadj, Q1, Q2, Q3, Q4, Q5. done.
Qed.

(** Recording a component: its marker and its column. *)
Lemma progress_adjusts w w' r c o :
  o = OperationSettle ∨ o = OperationRefund ∧ br_Status r ≠ StatusActive →
  progress w r → ledger_ok (w_db w') → sums_kept w w' → adjusts rid c o (w_db w) (w_db w') →
  ∃ r', progress w' r' ∧ br_Status r' = br_Status r ∧ same_identity_row r r'.
Proof.
  intros Ho P Hok Hs [Hsame|(row & now & Hr & Hn & Hg & Hrows & Hadj)].
  { exists r. split; [|done]. destruct Hsame as [E1 E2]. apply (progress_relabel w w' r r P); auto; try done; try apply P.
    rewrite E1, insert_id; [done|by apply progress_row]. }
  rewrite (progress_row _ _ P) in Hr. injection Hr as <-. exists (completed_row c o now r).
  assert (component_amount r c o = if decide (o = OperationSettle) then delta else component_amount r0 c OperationRefund) as Hamt.
  { destruct (pg_money _ _ P) as (_ & _ & _ & E4 & E5). pose proof (pg_extra _ _ P) as E6.
    destruct Hg as [(-> & [-> | ->] & Hst)|(-> & _)]; cbn; [by apply P; left..|]. by destruct c. }
  destruct (completed_row_money c o now r) as (M & Est & Epre & Eex).
  split; [|split; [done|by destruct c, o]]. constructor; try done; rewrite ?Hrows.
  - eapply amounts_ok_change; [exact Hrows| |apply P]. intros c' o'.
    pose proof (pg_amounts _ _ P _ _ c' o' (progress_row _ _ P)). by destruct c, o, c', o'.
  - eapply sums_kept_trans; [apply P|done].
  - rewrite (pg_rows _ _ P). apply insert_insert_eq.
  - intros k c' o' Hk. rewrite Hadj, lookup_insert_ne by congruence. by apply P.
  - destruct (pg_money _ _ P) as (?&?&?&?&?), M as (?&?&?&?&?). split_and!; congruence.
  - rewrite Epre. apply P.
  - rewrite Eex. apply P.
  - rewrite Est. intros H. by rewrite <- (pg_delta _ _ P H); destruct c, o.
  - intros c' a [(-> & <- & ->)|Ha]%(marker_insert_inv _ _ _ _ _ _ _ _ _ Hadj); [by cbn; rewrite Hamt|by apply P in Ha].
  - intros c' a [(-> & <- & ->)|Ha]%(marker_insert_inv _ _ _ _ _ _ _ _ _ Hadj); [by cbn; rewrite Hamt|by apply P in Ha].
  - rewrite Est. intros c' [[-> <-]|Hc]%(marked_insert _ _ _ _ _ _ _ _ Hadj); [|by apply (pg_refunding _ _ P c')].
    destruct Hg as [(? & _)|(_ & [Ha|Ha])]; [done| |by left]. destruct Ho as [?|[_ ?]]; done.
  - destruct (pg_columns _ _ P) as (P1&P2&P3&P4). unfold progress_ok. rewrite !(marked_insert _ _ _ _ _ _ _ _ Hadj).
    clear -Ho P1 P2 P3 P4. destruct Ho as [-> | [-> _]], c; cbn; split_and!; auto.
  - destruct (pg_marked _ _ P) as (P1&P2&P3&P4&P5). unfold columns_kept. rewrite !(marked_insert _ _ _ _ _ _ _ _ Hadj).
    clear -Ho P1 P2 P3 P4 P5. destruct Ho as [-> | [-> _]], c; cbn; split_and!; intros [[? ?]|?]; auto; discriminate.
  - rewrite Est. intros H. destruct Hg as [(_ & _ & H')|(_ & [H'|H'])]; congruence.
  - rewrite Est. intros H. destruct Hg as [(_ & _ & H')|(_ & [H'|H'])]; congruence.
Qed.

(** *** The calls *)

Lemma adjust_step w r c o res w' :
  o = OperationSettle ∨ o = OperationRefund ∧ br_Status r ≠ StatusActive → progress w r →
  ApplyBillingRecoveryAdjustment rid c o w = (res, w') →
  ∃ r', progress w' r' ∧ br_Status r' = br_Status r ∧ same_identity_row r r' ∧
    (is_ok res = true → br_Status r ≠ StatusSettled → br_Status r ≠ StatusRefunded → marked (w_db w') rid c o).
Proof.
  intros Ho P H. destruct (adjustment_ledgered _ _ _ _ _ _ (pg_ok _ _ P) (pg_amounts _ _ P) H) as [Hok Hs].
  destruct (progress_adjusts w w' r c o Ho P Hok Hs (adjustment_adjusts _ _ _ _ _ _ H)) as (r' & P' & Est & Hid).
  exists r'. split_and!; try done; try apply Hid. destruct res as [x|e]; [|done]. intros _ H1 H2.
  eapply adjustment_marks; [exact H|by apply progress_row|done|done].
Qed.

Lemma settlement_step w r res w' :
  progress w r → UpdateBillingRecoverySettlement rid delta w = (res, w') →
  ∃ r', progress w' r' ∧ same_identity_row r r' ∧
    (br_Status r' = br_Status r ∨ settling (br_Status r) = true ∧ br_Status r' = StatusSettlementPending) ∧
    (is_ok res = true → br_Status r' = StatusSettlementPending ∨ br_Status r' = StatusSettled).
Proof.
  intros P H. destruct (settlement_ledgered _ _ _ _ _ (pg_ok _ _ P) H) as [Hok Hs].
  unfold UpdateBillingRecoverySettlement in H. destruct (blank rid).
  { injection H as <- <-. exists r. split_and!; auto; done. }
  unfold mbind at 1, M_bind at 1 in H. destruct (transaction _ w) as [r1 w1] eqn:E1.
  apply transaction_inv in E1 as [_ E1]. destruct r1 as [n|e].
  2: { injection H as <- <-. exists r. split_and!; auto; try done. by eapply progress_same. }
  apply UPDATE_inv in E1 as [(row & Hr & Hst & -> & Ed)|[-> Ed]]; cbn in H.
  - injection H as <- <-. rewrite (progress_row _ _ P) in Hr. injection Hr as <-. eexists. split.
    + eapply (progress_relabel w w1 r _ P Hok Hs); rewrite ?Ed; cbn; try reflexivity; auto; try done.
      intros [H|H]; apply settling_cases in Hst as [?|?]; congruence.
    + cbn. split_and!; auto; done.
  - unfold mbind at 1, M_bind at 1 in H. destruct (transaction _ w1) as [r2 w2] eqn:E2.
    pose proof (transaction_read _ _ _ _ _ E2) as [Ed2 _]. apply transaction_inv in E2 as [_ E2].
    destruct r2 as [row|e]; [|injection H as <- <-; exists r; split_and!; auto; try done; eapply progress_same; [|done..]; congruence].
    apply FIRST_inv in E2 as [Hr _]. rewrite Ed, (progress_row _ _ P) in Hr. injection Hr as <-.
    case_decide; injection H as <- <-; exists r; split_and!; auto; try done; (eapply progress_same; [|done..]; congruence).
Qed.

Lemma settled_step w r res w' :
  progress w r → MarkBillingRecoverySettled rid w = (res, w') →
  ∃ r', progress w' r' ∧ same_identity_row r r' ∧ (br_Status r' = br_Status r ∨ br_Status r' = StatusSettled) ∧
    (is_ok res = true → br_Status r' = StatusSettled).
Proof.
  intros P H. destruct (settled_ledgered _ _ _ _ (pg_ok _ _ P) H) as [Hok Hs].
  unfold MarkBillingRecoverySettled in H. destruct (blank rid).
  { injection H as <- <-. exists r. split_and!; auto; done. }
  apply row_tx in H. destruct res as [x|e]; [|exists r; split_and!; auto; try done; by eapply progress_same].
  destruct H as (row & Hr & H). rewrite (progress_row _ _ P) in Hr. injection Hr as <-.
  case_decide as Hst; [injection H as _ Ed; exists r; split_and!; auto; try done; by eapply progress_same|].
  destruct (_ || _) eqn:Hg; [done|]. rewrite orb_false_iff, !negb_false_iff, bool_decide_eq_true in Hg.
  destruct Hg as [Hsp Hc]. mstep H. injection H as _ ->. apply (UPDATE_row _ r) in Hs0 as Ed; [|by apply progress_row].
  eexists. split.
  - eapply (progress_relabel w w' r _ P Hok Hs); rewrite ?Ed; cbn; try reflexivity; auto; try done.
    + intros _. apply P. by left.
    + intros [H|H]; congruence.
  - cbn. split_and!; auto; done.
Qed.

Lemma refund_pending_step w r e res w' :
  progress w r → MarkBillingRecoveryRefundPending rid e w = (res, w') →
  ∃ r', progress w' r' ∧ same_identity_row r r' ∧
    (br_Status r' = br_Status r ∨
     (br_Status r = StatusActive ∨ br_Status r = StatusRefundPending) ∧ br_Status r' = StatusRefundPending) ∧
    (is_ok res = true → br_Status r' = StatusRefundPending ∨ br_Status r' = StatusRefunded).
Proof.
  intros P H. pose proof (ledger_op_moves (LMarkRefundPending rid e) w res w' (pg_ok _ _ P) (pg_amounts _ _ P) I H) as [Hok Hmv].
  assert (∀ r', billing_recoveries (w_db w') = <[rid := r']> (billing_recoveries (w_db w)) →
    br_FundingAmount r' = br_FundingAmount r → br_TokenAmount r' = br_TokenAmount r → sums_kept w w') as Hkept.
  { intros r' Hrows E1 E2. destruct Hmv as [H1 H2]. unfold declared_wallet, declared_token in H1, H2. cbn [declares] in H1, H2.
    rewrite (progress_row _ _ P), Hrows, lookup_insert_eq, E1 in H1. rewrite (progress_row _ _ P), Hrows, lookup_insert_eq, E2 in H2.
    split; intros; [rewrite H1|rewrite H2 by done]; rewrite Z.sub_diag;
      match goal with |- context [decide ?b] => destruct (decide b) end; lia. }
  assert (w_db w' = w_db w → sums_kept w w') as Hkept0.
  { intros Ed. apply (Hkept r); [|done|done]. rewrite Ed, insert_id; [done|by apply progress_row]. }
  unfold MarkBillingRecoveryRefundPending in H. destruct (blank rid).
  { injection H as <- <-. exists r. split_and!; auto; done. }
  apply row_tx in H. destruct res as [x|e1]; [|exists r; split_and!; auto; try done; by apply (progress_same w); [|apply Hkept0|]].
  destruct H as (row & Hr & H). rewrite (progress_row _ _ P) in Hr. injection Hr as <-.
  case_decide as Hst; [injection H as _ Ed; exists r; split_and!; auto; try done; by apply (progress_same w); [|apply Hkept0|]|].
  destruct (_ && _) eqn:Hg; [done|]. rewrite andb_false_iff, !negb_false_iff, !bool_decide_eq_true in Hg.
  mstep H. injection Hs as <- <-. mstep H. injection H as _ ->. apply (UPDATE_row _ r) in Hs as Ed; [|by apply progress_row].
  assert (∀ x, adopt_preconsume r (pre_consume_records (w_db w) !! rid) x = x) as Had.
  { intros x'. unfold adopt_preconsume. destruct (pg_money _ _ P) as (E & _). rewrite E, Hwallet.
    by destruct (pre_consume_records (w_db w) !! rid). }
  rewrite Had in Ed. eexists. split.
  - eapply (progress_relabel w w' r _ P Hok); rewrite ?Ed; cbn; try reflexivity; auto; try done.
    + eapply Hkept; rewrite ?Ed; cbn; reflexivity.
    + naive_solver.
    + by left.
  - cbn. split_and!; auto; done.
Qed.

Lemma refunded_step w r e res w' :
  progress w r → MarkBillingRecoveryRefunded rid e w = (res, w') →
  ∃ r', progress w' r' ∧ same_identity_row r r' ∧ (br_Status r' = br_Status r ∨ br_Status r' = StatusRefunded) ∧
    (is_ok res = true → br_Status r' = StatusRefunded).
Proof.
  intros P H. destruct (refunded_ledgered _ _ _ _ _ (pg_ok _ _ P) H) as [Hok Hs].
  unfold MarkBillingRecoveryRefunded in H. destruct (blank rid).
  { injection H as <- <-. exists r. split_and!; auto; done. }
  apply row_tx in H. destruct res as [x|e1]; [|exists r; split_and!; auto; try done; by eapply progress_same].
  destruct H as (row & Hr & H). rewrite (progress_row _ _ P) in Hr. injection Hr as <-.
  case_decide as Hst; [injection H as _ Ed; exists r; split_and!; auto; try done; by eapply progress_same|].
  destruct (_ || _) eqn:Hg; [done|]. rewrite orb_false_iff, !negb_false_iff, bool_decide_eq_true in Hg.
  destruct Hg as [Hsp Hc]. mstep H. injection H as _ ->. apply (UPDATE_row _ r) in Hs0 as Ed; [|by apply progress_row].
  eexists. split.
  - eapply (progress_relabel w w' r _ P Hok Hs); rewrite ?Ed; cbn; try reflexivity; auto; try done.
    + naive_solver.
    + by right.
  - cbn. split_and!; auto; done.
Qed.

(** The request as it was reserved. *)
Lemma progress_start :
  ledger_ok (w_db w0) → amounts_ok (w_db w0) → br_Status r0 = StatusActive → columns_pending r0 → progress w0 r0.
Proof.
  intros Hok Ham Hst (E1 & E2 & E3 & E4 & E5). constructor; try done; try (rewrite Hst; naive_solver).
  - apply sums_kept_refl.
  - by rewrite insert_id.
  - intros c a. by rewrite Hfresh.
  - intros c a. by rewrite Hfresh.
  - intros c [a Ha]. by rewrite Hfresh in Ha.
  - unfold progress_ok. rewrite E1, E3, E4, E5. done.
  - unfold columns_kept, marked. rewrite !Hfresh by done. split_and!; by intros [].
Qed.
End progress.
