(* ===== verification/BillingSession.v ===== *)
(** * The billing session of a request

    src/service/billing_session.go, src/service/funding_source.go,
    src/service/billing.go and the token and fallback paths of
    src/service/quota.go: the in-memory session that pre-consumes, extends,
    settles and refunds one request through the durable rows of
    BillingRecovery.

    A session method runs in [M senv]: the process state, the [RelayInfo] the
    session points to and the session itself.  Each method holds the session
    mutex, so it is one step.  Log lines, back-off sleeps and the quota
    notifications have no state and are left out. *)

From S2P Require Import GoStrings.
From S2P Require Import Prelude ApiErrors QuotaMath Store Calendar QuotaBatch QuotaReserve Subscription BillingRecovery.
#[local] Open Scope Z_scope.

(** ** Data *)

Record SubscriptionFundingState := MkSubFunding {
  sf_requestId : string; sf_userId : Z; sf_modelName : string; sf_amount : Z;
  sf_subscriptionId : Z; sf_preConsumed : Z; sf_AmountTotal : Z; sf_AmountUsedAfter : Z;
  sf_PlanId : Z; sf_PlanTitle : string
}.
#[global] Instance eta_SubFunding : Eta SubscriptionFundingState := λ r,
  MkSubFunding (sf_requestId r) (sf_userId r) (sf_modelName r) (sf_amount r) (sf_subscriptionId r)
    (sf_preConsumed r) (sf_AmountTotal r) (sf_AmountUsedAfter r) (sf_PlanId r) (sf_PlanTitle r).

(** The implementations of the interface [FundingSource]. *)
Inductive FundingSource :=
  | WalletFunding (userId consumed : Z)
  | SubscriptionFunding (f : SubscriptionFundingState).

Definition Source (f : FundingSource) : billing_source :=
  match f with WalletFunding _ _ => SourceWallet | SubscriptionFunding _ => SourceSubscription end.

(** [recoveryStop] and [recoveryDone]: never made, open, closed. *)
Inductive heartbeat := HeartbeatNone | HeartbeatRunning | HeartbeatStopped.

Record BillingSession := MkSession {
  bs_funding : FundingSource; bs_recoveryID : string;
  bs_preConsumedQuota : Z; bs_tokenConsumed : Z; bs_extraReserved : Z;
  bs_trusted : bool; bs_fundingSettled : bool; bs_settled : bool; bs_refunded : bool;
  bs_recoveryNeedsRefund : bool; bs_fundingRefunded : bool; bs_extraRefunded : bool; bs_tokenRefunded : bool;
  bs_refundInProgress : bool; bs_refundErr : option error; bs_heartbeat : heartbeat
}.
#[global] Instance eta_Session : Eta BillingSession := λ r,
  MkSession (bs_funding r) (bs_recoveryID r) (bs_preConsumedQuota r) (bs_tokenConsumed r) (bs_extraReserved r)
    (bs_trusted r) (bs_fundingSettled r) (bs_settled r) (bs_refunded r) (bs_recoveryNeedsRefund r)
    (bs_fundingRefunded r) (bs_extraRefunded r) (bs_tokenRefunded r) (bs_refundInProgress r) (bs_refundErr r)
    (bs_heartbeat r).

(** The literal [&BillingSession{funding: ..., recoveryID: ...}]. *)
Definition new_session (f : FundingSource) (recoveryID : string) : BillingSession :=
  MkSession f recoveryID 0 0 0 false false false false false false false false false None HeartbeatNone.

(** The fields of [relaycommon.RelayInfo] the billing code uses;
    [UserSetting.BillingPreference] and [PriceData] are flattened. *)
Record RelayInfo := MkRelayInfo {
  ri_RequestId : string; ri_UserId : Z; ri_UserQuota : Z;
  ri_TokenId : Z; ri_TokenKey : string; ri_TokenUnlimited : bool;
  ri_IsPlayground : bool; ri_ForcePreConsume : bool; ri_BillingPreference : string;
  ri_LogicalBillingModel : string; ri_OriginModelName : string;
  ri_QuotaToPreConsume : Z; ri_FreeModel : bool; ri_QuotaClamp : option error;
  ri_FinalPreConsumedQuota : Z; ri_BillingSource : billing_source;
  ri_SubscriptionId : Z; ri_SubscriptionPreConsumed : Z; ri_SubscriptionPostDelta : Z;
  ri_SubscriptionAmountTotal : Z; ri_SubscriptionAmountUsedAfterPreConsume : Z;
  ri_SubscriptionPlanId : Z; ri_SubscriptionPlanTitle : string;
  ri_BillingSettlementError : option error; ri_BillingRefundError : option error
}.
#[global] Instance eta_RelayInfo : Eta RelayInfo := λ r,
  MkRelayInfo (ri_RequestId r) (ri_UserId r) (ri_UserQuota r) (ri_TokenId r) (ri_TokenKey r) (ri_TokenUnlimited r)
    (ri_IsPlayground r) (ri_ForcePreConsume r) (ri_BillingPreference r) (ri_LogicalBillingModel r)
    (ri_OriginModelName r) (ri_QuotaToPreConsume r) (ri_FreeModel r) (ri_QuotaClamp r)
    (ri_FinalPreConsumedQuota r) (ri_BillingSource r) (ri_SubscriptionId r) (ri_SubscriptionPreConsumed r)
    (ri_SubscriptionPostDelta r) (ri_SubscriptionAmountTotal r) (ri_SubscriptionAmountUsedAfterPreConsume r)
    (ri_SubscriptionPlanId r) (ri_SubscriptionPlanTitle r) (ri_BillingSettlementError r) (ri_BillingRefundError r).

Definition BillingModelName (info : RelayInfo) : string :=
  if decide (ri_LogicalBillingModel info ≠ EmptyString) then ri_LogicalBillingModel info else ri_OriginModelName info.

Definition NormalizeBillingPreference (pref : string) : string :=
  let p := TrimSpace pref in
  if bool_decide (p ∈ ["subscription_first"; "wallet_first"; "subscription_only"; "wallet_only"])
  then p else "subscription_first".

(** What the sessions read of their surroundings: the zone and the plan
    caches of Subscription, the display text of a quota, a fresh request id,
    the configured unit and the token quota in the request context. *)
Record surroundings := MkSurroundings {
  su_zone : Z; su_plan_cache : gmap Z SubscriptionPlan; su_plan_info_cache : gmap Z (Z * string);
  su_FormatQuota : Z → string; su_NewRequestId : string; su_QuotaPerUnit : float64; su_token_quota : Z
}.

(** The state a method of a session works on. *)
Record senv := MkSenv { se_world : world; se_info : RelayInfo; se_session : BillingSession }.
#[global] Instance eta_senv : Eta senv := λ r, MkSenv (se_world r) (se_info r) (se_session r).

Definition on_world {A} (m : M world A) : M senv A := λ e,
  let '(r, w) := m (se_world e) in (r, e <| se_world := w |>).
Definition on_session (f : BillingSession → BillingSession) : M senv unit :=
  modify (λ e, e <| se_session ::= f |>).
Definition on_info (f : RelayInfo → RelayInfo) : M senv unit := modify (λ e, e <| se_info ::= f |>).

(** [if err := m; err != nil { log }]. *)
Definition ignore {S A} (m : M S A) : M S unit := _ ← try m; mret tt.

(** Call [m] until it succeeds, [1 + n] times at most; the last error. *)
Fixpoint retry {S A} (n : nat) (m : M S A) : M S A :=
  match n with
  | O => m
  | S n =>
      r ← try m;
      match r with Ok a => mret a | Err _ => retry n m end
  end.

Section session.
Context (su : surroundings).

(** ** Funding sources *)

Definition GetSubscriptionPlanInfoByUserSubscriptionId (userSubscriptionId : Z) : M world (Z * string) :=
  if userSubscriptionId <=? 0 then fail (ErrNew "invalid userSubscriptionId")
  else
    match su_plan_info_cache su !! userSubscriptionId with
    | Some cached => mret cached
    | None =>
        sub ← transaction (λ _, FIRST user_subscriptions userSubscriptionId);
        plan ← GetSubscriptionPlanById (su_plan_cache su) (s_PlanId sub);
        mret (s_PlanId sub, p_Title plan)
    end.

(** The method returns the funding with its fields filled in. *)
Definition Funding_PreConsume (f : FundingSource) (amount : Z) : M world FundingSource :=
  match f with
  | WalletFunding userId consumed =>
      if amount <=? 0 then mret f
      else
        reserved ← TryReserveUserQuota userId amount;
        if negb reserved then fail ErrInsufficientWalletQuota else mret (WalletFunding userId amount)
  | SubscriptionFunding s =>
      res ← PreConsumeUserSubscription (su_zone su) (su_plan_cache su) (sf_requestId s) (sf_userId s) (sf_amount s);
      let s := s <| sf_subscriptionId := pcr_UserSubscriptionId res |> <| sf_preConsumed := pcr_PreConsumed res |>
                 <| sf_AmountTotal := pcr_AmountTotal res |> <| sf_AmountUsedAfter := pcr_AmountUsedAfter res |> in
      planInfo ← try (GetSubscriptionPlanInfoByUserSubscriptionId (pcr_UserSubscriptionId res));
      match planInfo with
      | Ok (planId, title) => mret (SubscriptionFunding (s <| sf_PlanId := planId |> <| sf_PlanTitle := title |>))
      | Err _ => mret (SubscriptionFunding s)
      end
  end.

Definition Funding_Settle (f : FundingSource) (delta : Z) : M world unit :=
  if delta =? 0 then mret tt
  else
    match f with
    | WalletFunding userId _ =>
        if 0 <? delta then DecreaseUserQuota userId delta false else IncreaseUserQuota userId (i64 (- delta)) false
    | SubscriptionFunding s => PostConsumeUserSubscriptionDelta (sf_subscriptionId s) delta
    end.

Definition refundWithRetry (fn : M world unit) : M world unit := retry 2 fn.

Definition Funding_Refund (f : FundingSource) : M world unit :=
  match f with
  | WalletFunding userId consumed =>
      if consumed <=? 0 then mret tt else IncreaseUserQuota userId consumed false
  | SubscriptionFunding s =>
      if sf_preConsumed s <=? 0 then mret tt else refundWithRetry (RefundSubscriptionPreConsume (sf_requestId s))
  end.

(** src/service/quota.go *)
Definition PreConsumeTokenQuota (info : RelayInfo) (quota : Z) : M world unit :=
  if quota <? 0 then fail negative_quota
  else if ri_IsPlayground info then mret tt
  else
    reserved ← TryReserveTokenQuota (ri_TokenId info) (ri_TokenKey info) quota (ri_TokenUnlimited info);
    if negb reserved then
      token ← try (GetTokenByKey (ri_TokenKey info) false);
      let remainQuota := match token with Ok (_, t) => t_RemainQuota t | Err _ => 0 end in
      fail (ErrNew ("token quota is not enough, token remain quota: " +:+ su_FormatQuota su remainQuota +:+
                    ", need quota: " +:+ su_FormatQuota su quota))
    else mret tt.

(** ** Keeping the durable row and the RelayInfo in step *)

Definition consumed_amount (f : FundingSource) : Z :=
  match f with WalletFunding _ consumed => consumed | SubscriptionFunding s => sf_preConsumed s end.

Definition syncRecovery : M senv unit :=
  s ← gets se_session; info ← gets se_info;
  if decide (bs_recoveryID s = EmptyString) then mret tt
  else
    let subscriptionID := match bs_funding s with
                          | SubscriptionFunding f => sf_subscriptionId f
                          | WalletFunding _ _ => ri_SubscriptionId info
                          end in
    let tokenAmount := if ri_IsPlayground info then 0 else bs_tokenConsumed s in
    on_world (UpdateBillingRecoveryAmounts (bs_recoveryID s) subscriptionID (consumed_amount (bs_funding s))
                (bs_extraReserved s) tokenAmount).

Definition syncBillingRecoveryWithRetry : M senv unit := retry 2 syncRecovery.

Definition syncRelayInfo : M senv unit :=
  s ← gets se_session;
  on_info (λ info, info <| ri_FinalPreConsumedQuota := bs_preConsumedQuota s |>
                        <| ri_BillingSource := Source (bs_funding s) |>);;
  match bs_funding s with
  | SubscriptionFunding sub =>
      on_info (λ info,
        info <| ri_SubscriptionId := sf_subscriptionId sub |>
             <| ri_SubscriptionPreConsumed := i64 (sf_preConsumed sub + bs_extraReserved s) |>
             <| ri_SubscriptionPostDelta := 0 |>
             <| ri_SubscriptionAmountTotal := sf_AmountTotal sub |>
             <| ri_SubscriptionAmountUsedAfterPreConsume := i64 (sf_AmountUsedAfter sub + bs_extraReserved s) |>
             <| ri_SubscriptionPlanId := sf_PlanId sub |> <| ri_SubscriptionPlanTitle := sf_PlanTitle sub |>)
  | WalletFunding _ _ =>
      on_info (λ info, info <| ri_SubscriptionId := 0 |> <| ri_SubscriptionPreConsumed := 0 |>)
  end.

Definition startRecoveryHeartbeat : M senv unit :=
  on_session (λ s,
    if decide (bs_recoveryID s = EmptyString) then s
    else match bs_heartbeat s with HeartbeatNone => s <| bs_heartbeat := HeartbeatRunning |> | _ => s end).

(** One tick of the goroutine that [startRecoveryHeartbeat] starts. *)
Definition heartbeat_tick : M senv unit :=
  s ← gets se_session;
  match bs_heartbeat s with
  | HeartbeatRunning => ignore (on_world (TouchBillingRecovery (bs_recoveryID s)))
  | _ => mret tt
  end.

Definition stopRecoveryHeartbeat : M senv unit :=
  on_session (λ s, match bs_heartbeat s with HeartbeatNone => s | _ => s <| bs_heartbeat := HeartbeatStopped |> end).

(** ** Settling *)

Definition settle_component (rid : string) (c : recovery_component) : M senv unit :=
  on_world (ApplyBillingRecoveryAdjustment rid c OperationSettle).

(** The tail of [Settle]: [settled] is taken back when the row does not
    close. *)
Definition finish_settle : M senv unit :=
  s ← gets se_session;
  on_session (λ s, s <| bs_settled := true |>);;
  (if decide (bs_recoveryID s = EmptyString) then mret tt
   else
     r ← try (on_world (MarkBillingRecoverySettled (bs_recoveryID s)));
     match r with
     | Ok _ => mret tt
     | Err err => on_session (λ s, s <| bs_settled := false |>);; fail err
     end);;
  stopRecoveryHeartbeat.

Definition settle_token (delta : Z) : M senv unit :=
  s ← gets se_session; info ← gets se_info;
  if decide (bs_recoveryID s ≠ EmptyString) then
    (* the error is kept in [tokenErr], which this branch does not return *)
    ignore (settle_component (bs_recoveryID s) ComponentToken)
  else if ri_IsPlayground info then mret tt
  else on_world (if 0 <? delta then DecreaseTokenQuota (ri_TokenId info) (ri_TokenKey info) delta
                 else IncreaseTokenQuota (ri_TokenId info) (ri_TokenKey info) (i64 (- delta))).

Definition Settle (actualQuota : Z) : M senv unit :=
  s ← gets se_session;
  let rid := bs_recoveryID s in
  let durable := negb (bool_decide (rid = EmptyString)) in
  if bs_settled s then mret tt
  else
    let delta := i64 (actualQuota - bs_preConsumedQuota s) in
    (if durable then on_world (UpdateBillingRecoverySettlement rid delta) else mret tt);;
    if delta =? 0 then
      (if durable then settle_component rid ComponentFunding;; settle_component rid ComponentToken else mret tt);;
      finish_settle
    else
      (if bs_fundingSettled s then mret tt
       else
         (if durable then settle_component rid ComponentFunding else on_world (Funding_Settle (bs_funding s) delta));;
         on_session (λ s, s <| bs_fundingSettled := true |>));;
      settle_token delta;;
      (if decide (Source (bs_funding s) = SourceSubscription)
       then on_info (λ info, info <| ri_SubscriptionPostDelta ::= (λ z, i64 (z + delta)) |>) else mret tt);;
      finish_settle.

(** ** Refunding *)

Definition subscription_preconsumed (f : FundingSource) : bool :=
  match f with SubscriptionFunding s => 0 <? sf_preConsumed s | WalletFunding _ _ => false end.

Definition needsRefundLocked (info : RelayInfo) (s : BillingSession) : bool :=
  if bs_settled s || bs_refunded s then false
  else if negb (bs_fundingSettled s) && negb (bs_fundingRefunded s) &&
          ((0 <? bs_tokenConsumed s) || subscription_preconsumed (bs_funding s)) then true
  else if negb (bs_extraRefunded s) && (0 <? bs_extraReserved s) &&
          bool_decide (Source (bs_funding s) = SourceSubscription) then true
  else negb (bs_tokenRefunded s) && (0 <? bs_tokenConsumed s) && negb (ri_IsPlayground info).

Definition NeedsRefund : M senv bool := gets (λ e, needsRefundLocked (se_info e) (se_session e)).

Definition refundComponentsCompleteLocked (s : BillingSession) (isPlayground : bool) (tokenConsumed : Z) : bool :=
  if negb (bs_fundingSettled s) && negb (bs_fundingRefunded s) then false
  else if (0 <? bs_extraReserved s) && bool_decide (Source (bs_funding s) = SourceSubscription) &&
          negb (bs_extraRefunded s) then false
  else isPlayground || (tokenConsumed <=? 0) || bs_tokenRefunded s.

Definition refund_component (rid : string) (c : recovery_component) : M senv unit :=
  on_world (ApplyBillingRecoveryAdjustment rid c OperationRefund).

(** One component of [Refund].  [refundErr] and whether the component is
    done, before and after; a skipped component ([runs = false]) changes
    neither. *)
Definition refund_part (runs : bool) (ctx : string) (m : M senv unit) (refundErr : option error) (done : bool) :
    M senv (option error * bool) :=
  if runs then
    r ← try m;
    match r with
    | Ok _ => mret (refundErr, true)
    | Err err => mret (Some (ErrWrap ctx err), done)
    end
  else mret (refundErr, done).

Definition none {A} (o : option A) : bool := match o with None => true | Some _ => false end.

(** The calls of [Refund] between its two critical sections. *)
Definition refund_components (s : BillingSession) (info : RelayInfo) : M senv (option error * bool * bool * bool) :=
  let rid := bs_recoveryID s in
  let durable := negb (bool_decide (rid = EmptyString)) in
  refundErr ← (if durable then
                 r ← try (on_world (MarkBillingRecoveryRefundPending rid None));
                 mret (match r with Ok _ => None | Err err => Some (ErrWrap "mark billing recovery pending" err) end)
               else mret None);
  '(refundErr, fundingRefunded) ←
    refund_part (negb (bs_fundingRefunded s) && negb (bs_fundingSettled s)) "refund billing source"
      (if none refundErr && durable then refund_component rid ComponentFunding
       else if none refundErr then on_world (Funding_Refund (bs_funding s)) else mret tt)
      refundErr (bs_fundingRefunded s);
  '(refundErr, extraRefunded) ←
    refund_part (none refundErr && negb (bs_extraRefunded s) && (0 <? bs_extraReserved s) &&
                 bool_decide (Source (bs_funding s) = SourceSubscription) && (0 <? ri_SubscriptionId info))
      "refund subscription extra reserve"
      (if durable then refund_component rid ComponentExtra
       else on_world (PostConsumeUserSubscriptionDelta (ri_SubscriptionId info) (i64 (- bs_extraReserved s))))
      refundErr (bs_extraRefunded s);
  '(refundErr, tokenRefunded) ←
    refund_part (none refundErr && negb (bs_tokenRefunded s) && (0 <? bs_tokenConsumed s) &&
                 negb (ri_IsPlayground info)) "refund token quota"
      (if durable then refund_component rid ComponentToken
       else on_world (IncreaseTokenQuota (ri_TokenId info) (ri_TokenKey info) (bs_tokenConsumed s)))
      refundErr (bs_tokenRefunded s);
  mret (refundErr, fundingRefunded, extraRefunded, tokenRefunded).

(** The second critical section of [Refund] and what follows it. *)
Definition finish_refund (isPlayground : bool) (tokenConsumed : Z) (parts : option error * bool * bool * bool) : M senv unit :=
  let '(refundErr, fundingRefunded, extraRefunded, tokenRefunded) := parts in
  on_session (λ s, s <| bs_fundingRefunded := fundingRefunded |> <| bs_extraRefunded := extraRefunded |>
                     <| bs_tokenRefunded := isPlayground || (tokenConsumed <=? 0) || tokenRefunded |>
                     <| bs_refundInProgress := false |> <| bs_refundErr := refundErr |>);;
  on_info (λ info, info <| ri_BillingRefundError := refundErr |>);;
  on_session (λ s, if none refundErr && refundComponentsCompleteLocked s isPlayground tokenConsumed
                   then s <| bs_refunded := true |> else s);;
  if none refundErr then
    s ← gets se_session;
    if negb (bool_decide (bs_recoveryID s = EmptyString)) && refundComponentsCompleteLocked s isPlayground tokenConsumed
    then
      r ← try (on_world (MarkBillingRecoveryRefunded (bs_recoveryID s) None));
      match r with
      | Ok _ => mret tt
      | Err err =>
          on_session (λ s, s <| bs_refundErr := Some err |>);;
          on_info (λ info, info <| ri_BillingRefundError := Some err |>)
      end
    else mret tt
  else mret tt.

Definition Refund : M senv unit :=
  s ← gets se_session; info ← gets se_info;
  if bs_settled s || bs_refunded s || bs_refundInProgress s || negb (needsRefundLocked info s) then mret tt
  else
    on_session (λ s, s <| bs_refundInProgress := true |>);;
    stopRecoveryHeartbeat;;
    parts ← refund_components s info;
    finish_refund (ri_IsPlayground info) (bs_tokenConsumed s) parts.

(** ** Extending a reservation *)

Definition add_consumed (delta : Z) (f : FundingSource) : FundingSource :=
  match f with WalletFunding u c => WalletFunding u (i64 (c + delta)) | f => f end.

Definition wrap_error (ctx : string) (m : M world unit) : M world unit :=
  r ← try m; match r with Ok _ => mret tt | Err err => fail (ErrWrap ctx err) end.

Definition reserveFunding (delta : Z) : M senv unit :=
  s ← gets se_session;
  match bs_funding s with
  | WalletFunding userId _ =>
      r ← try (on_world (DecreaseUserQuota userId delta false));
      match r with
      | Ok _ => on_session (λ s, s <| bs_funding ::= add_consumed delta |>)
      | Err err => fail (NewError err ErrorCodeUpdateDataError [ErrOptionWithSkipRetry])
      end
  | SubscriptionFunding f =>
      r ← try (on_world (PostConsumeUserSubscriptionDelta (sf_subscriptionId f) delta));
      match r with
      | Ok _ => mret tt
      | Err err => fail (forbidden (ErrNew ("订阅额度不足或未配置订阅: " +:+ error_string err)) ErrorCodeInsufficientUserQuota)
      end
  end.

Definition rollbackFundingReserve (delta : Z) : M senv unit :=
  s ← gets se_session;
  match bs_funding s with
  | WalletFunding userId _ =>
      on_world (wrap_error "rollback wallet funding reserve" (IncreaseUserQuota userId delta false));;
      on_session (λ s, s <| bs_funding ::= add_consumed (- delta) |>)
  | SubscriptionFunding f =>
      on_world (wrap_error "rollback subscription funding reserve"
                  (PostConsumeUserSubscriptionDelta (sf_subscriptionId f) (i64 (- delta))))
  end.

Definition reserveToken (delta : Z) : M senv unit :=
  info ← gets se_info;
  if (delta <=? 0) || ri_IsPlayground info then mret tt
  else
    r ← try (on_world (PreConsumeTokenQuota info delta));
    match r with
    | Ok _ => mret tt
    | Err err => fail (forbidden err ErrorCodePreConsumeTokenQuotaFailed)
    end.

(** [errors.Join] of two errors that may be nil. *)
Definition join (e1 e2 : option error) : option error :=
  match e1, e2 with
  | None, e | e, None => e
  | Some e1, Some e2 => Some (ErrJoin e1 e2)
  end.
Definition err_of {A} (r : res A) : option error := match r with Ok _ => None | Err e => Some e end.

Definition rollbackReservedDelta (delta : Z) : M senv (option error) :=
  if delta <=? 0 then mret None
  else
    info ← gets se_info;
    tokenErr ← (if ri_IsPlayground info then mret None
                else
                  r ← try (on_world (wrap_error "rollback token reserve"
                                       (IncreaseTokenQuota (ri_TokenId info) (ri_TokenKey info) delta)));
                  (if is_ok r then on_session (λ s, s <| bs_tokenConsumed ::= (λ z, i64 (z - delta)) |>) else mret tt);;
                  mret (err_of r));
    r ← try (rollbackFundingReserve delta);
    (if is_ok r then on_session (λ s, s <| bs_preConsumedQuota ::= (λ z, i64 (z - delta)) |>
                                        <| bs_extraReserved ::= (λ z, i64 (z - delta)) |>)
     else mret tt);;
    syncRelayInfo;;
    mret (join tokenErr (err_of r)).

(** The durable branch of [Reserve]. *)
Definition reserve_durable (targetQuota delta : Z) : M senv unit :=
  s ← gets se_session; info ← gets se_info;
  appliedDelta ← on_world (ReserveBillingRecovery (bs_recoveryID s) targetQuota delta (ri_TokenUnlimited info));
  if appliedDelta <=? 0 then mret tt
  else
    on_session (λ s,
      let s := s <| bs_funding ::= add_consumed appliedDelta |>
                 <| bs_preConsumedQuota ::= (λ z, i64 (z + appliedDelta)) |> in
      let s := if ri_IsPlayground info then s else s <| bs_tokenConsumed ::= (λ z, i64 (z + appliedDelta)) |> in
      if decide (Source (bs_funding s) = SourceSubscription)
      then s <| bs_extraReserved ::= (λ z, i64 (z + appliedDelta)) |> else s);;
    syncRelayInfo.

Definition Reserve (targetQuota : Z) : M senv unit :=
  s ← gets se_session;
  let durable := negb (bool_decide (bs_recoveryID s = EmptyString)) in
  if bs_settled s || bs_refunded s || bs_trusted s || (targetQuota <=? bs_preConsumedQuota s) then mret tt
  else
    let delta := i64 (targetQuota - bs_preConsumedQuota s) in
    if delta <=? 0 then mret tt
    else if durable then reserve_durable targetQuota delta
    else
      reserveFunding delta;;
      r ← try (reserveToken delta);
      match r with
      | Err err =>
          rollback ← try (rollbackFundingReserve delta);
          (if is_ok rollback then mret tt
           else
             on_session (λ s, s <| bs_preConsumedQuota ::= (λ z, i64 (z + delta)) |>
                                <| bs_extraReserved ::= (λ z, i64 (z + delta)) |>);;
             syncRelayInfo;;
             on_session (λ s, s <| bs_recoveryNeedsRefund := true |>);;
             (if durable then ignore syncBillingRecoveryWithRetry else mret tt));;
          fail err
      | Ok _ =>
          on_session (λ s, s <| bs_preConsumedQuota ::= (λ z, i64 (z + delta)) |>
                             <| bs_tokenConsumed ::= (λ z, i64 (z + delta)) |>
                             <| bs_extraReserved ::= (λ z, i64 (z + delta)) |>);;
          syncRelayInfo;;
          if durable then
            r ← try syncBillingRecoveryWithRetry;
            match r with
            | Ok _ => mret tt
            | Err err =>
                rollbackErr ← rollbackReservedDelta delta;
                ignore syncBillingRecoveryWithRetry;;
                (if none rollbackErr then mret tt else on_session (λ s, s <| bs_recoveryNeedsRefund := true |>));;
                fail (default err (join (Some err) rollbackErr))
            end
          else mret tt
      end.

(** ** Pre-consuming *)

Definition shouldTrust (info : RelayInfo) (s : BillingSession) : bool :=
  if ri_ForcePreConsume info then false
  else
    let trustQuota := GetTrustQuota (su_QuotaPerUnit su) in
    if trustQuota <=? 0 then false
    else
      let tokenTrusted := ri_TokenUnlimited info || (trustQuota <? su_token_quota su) in
      if negb tokenTrusted then false
      else match Source (bs_funding s) with SourceWallet => trustQuota <? ri_UserQuota info | _ => false end.

Definition insufficient_wallet (info : RelayInfo) : M senv unit :=
  r ← try (on_world (GetUserQuota (ri_UserId info) false));
  let userQuota := match r with Ok q => q | Err _ => 0 end in
  fail (forbidden (ErrNew ("用户额度不足, 剩余额度: " +:+ su_FormatQuota su userQuota)) ErrorCodeInsufficientUserQuota).

(** The durable wallet branch of [preConsume]: one transaction charges the
    wallet and the token. *)
Definition preConsume_wallet (effectiveQuota : Z) : M senv unit :=
  s ← gets se_session; info ← gets se_info;
  r ← try (on_world (PreConsumeWalletBillingRecovery (bs_recoveryID s) effectiveQuota (ri_TokenUnlimited info)));
  match r with
  | Err err =>
      if error_is err ErrBillingRecoveryTokenQuota
      then fail (forbidden err ErrorCodePreConsumeTokenQuotaFailed)
      else if error_is err ErrBillingRecoveryFundingQuota || error_is err ErrInsufficientWalletQuota
      then insufficient_wallet info
      else fail (NewError err ErrorCodeUpdateDataError [ErrOptionWithSkipRetry])
  | Ok _ =>
      on_session (λ s, s <| bs_funding ::= (λ f, match f with WalletFunding u _ => WalletFunding u effectiveQuota | f => f end) |>
                         <| bs_tokenConsumed ::= (λ z, if ri_IsPlayground info then z else effectiveQuota) |>
                         <| bs_preConsumedQuota := effectiveQuota |>);;
      syncRelayInfo
  end.

(** The other branch: the token first, then the funding source, with the
    token given back when the funding fails. *)
Definition preConsume_parts (effectiveQuota : Z) : M senv unit :=
  info ← gets se_info;
  (if 0 <? effectiveQuota then
     r ← try (on_world (PreConsumeTokenQuota info effectiveQuota));
     match r with
     | Ok _ => on_session (λ s, s <| bs_tokenConsumed := effectiveQuota |>)
     | Err err => fail (forbidden err ErrorCodePreConsumeTokenQuotaFailed)
     end
   else mret tt);;
  s ← gets se_session;
  r ← try (on_world (Funding_PreConsume (bs_funding s) effectiveQuota));
  match r with
  | Err err =>
      (if (0 <? bs_tokenConsumed s) && negb (ri_IsPlayground info) then
         rollback ← try (on_world (IncreaseTokenQuota (ri_TokenId info) (ri_TokenKey info) (bs_tokenConsumed s)));
         match rollback with
         | Err _ => on_session (λ s, s <| bs_recoveryNeedsRefund := true |>);; ignore syncRecovery
         | Ok _ => on_session (λ s, s <| bs_tokenConsumed := 0 |>)
         end
       else mret tt);;
      if error_is err ErrInsufficientWalletQuota then insufficient_wallet info
      else
        let errMsg := error_string err in
        if Contains errMsg "no active subscription" || Contains errMsg "subscription quota insufficient"
        then fail (forbidden (ErrNew ("订阅额度不足或未配置订阅: " +:+ errMsg)) ErrorCodeInsufficientUserQuota)
        else fail (NewError err ErrorCodeUpdateDataError [ErrOptionWithSkipRetry])
  | Ok f =>
      on_session (λ s, s <| bs_funding := f |> <| bs_preConsumedQuota := effectiveQuota |>);;
      syncRelayInfo
  end.

Definition preConsume (quota : Z) : M senv unit :=
  s ← gets se_session; info ← gets se_info;
  let trusted := shouldTrust info s in
  (if trusted then on_session (λ s, s <| bs_trusted := true |>) else mret tt);;
  let effectiveQuota := if trusted then 0 else quota in
  if negb (bool_decide (bs_recoveryID s = EmptyString)) && bool_decide (Source (bs_funding s) = SourceWallet)
  then preConsume_wallet effectiveQuota
  else preConsume_parts effectiveQuota.
End session.

(** ** Opening a session *)

(** The state of the functions that own a request: [relayInfo.Billing] is
    the session, when there is one. *)
Record renv := MkRenv { re_world : world; re_info : RelayInfo; re_billing : option BillingSession }.
#[global] Instance eta_renv : Eta renv := λ r, MkRenv (re_world r) (re_info r) (re_billing r).

(** Run the methods of a session that is not yet (or no longer) shared;
    returns the session next to their result. *)
Definition with_session {A} (s : BillingSession) (m : M senv A) : M renv (res A * BillingSession) := λ e,
  let '(r, e') := m (MkSenv (re_world e) (re_info e) s) in
  (Ok (r, se_session e'), e <| re_world := se_world e' |> <| re_info := se_info e' |>).

Definition of_world {A} (m : M world A) : M renv A := λ e,
  let '(r, w) := m (re_world e) in (r, e <| re_world := w |>).

Definition ensureBillingRecovery : M senv unit :=
  s ← gets se_session; info ← gets se_info;
  if decide (bs_recoveryID s = EmptyString) then fail (ErrNew "billing recovery request identity is unavailable")
  else
    _ ← on_world (EnsureBillingRecovery (MkInput (bs_recoveryID s) (ri_UserId info) (ri_TokenId info)
          (Source (bs_funding s)) 0 0 (negb (ri_IsPlayground info) && (0 <? ri_TokenId info))));
    mret tt.

Definition recordBillingPreConsumeFailure (cause : error) : M senv unit :=
  s ← gets se_session;
  if decide (bs_recoveryID s = EmptyString) then mret tt
  else if bs_recoveryNeedsRefund s
  then ignore (on_world (MarkBillingRecoveryRefundPending (bs_recoveryID s) (Some cause)))
  else ignore (on_world (AbortPreparedBillingRecovery (bs_recoveryID s) (Some cause))).

Section opening.
Context (su : surroundings).

(** The common part of the closures [tryWallet] and [trySubscription]. *)
Definition open_session (quota : Z) : M senv unit :=
  s ← gets se_session;
  r ← try ensureBillingRecovery;
  match r with
  | Err err => fail (NewError err ErrorCodeUpdateDataError [ErrOptionWithSkipRetry])
  | Ok _ =>
      r ← try (preConsume su quota);
      match r with
      | Err apiErr => recordBillingPreConsumeFailure (api_Err apiErr);; fail apiErr
      | Ok _ =>
          r ← try syncRecovery;
          match r with
          | Err err =>
              ignore (on_world (MarkBillingRecoveryRefundPending (bs_recoveryID s) (Some err)));;
              Refund;;
              fail (NewError err ErrorCodeUpdateDataError [ErrOptionWithSkipRetry])
          | Ok _ => startRecoveryHeartbeat
          end
      end
  end.

Definition start (s : BillingSession) (quota : Z) : M renv BillingSession :=
  '(r, s) ← with_session s (open_session quota);
  match r with Ok _ => mret s | Err err => fail err end.

Definition tryWallet (preConsumedQuota : Z) : M renv BillingSession :=
  info ← gets re_info;
  r ← try (of_world (GetUserQuota (ri_UserId info) false));
  match r with
  | Err err => fail (NewError err ErrorCodeQueryDataError [ErrOptionWithSkipRetry])
  | Ok userQuota =>
      if userQuota <=? 0 then
        fail (forbidden (ErrNew ("用户额度不足, 剩余额度: " +:+ su_FormatQuota su userQuota)) ErrorCodeInsufficientUserQuota)
      else if i64 (userQuota - preConsumedQuota) <? 0 then
        fail (forbidden (ErrNew ("预扣费额度失败, 用户剩余额度: " +:+ su_FormatQuota su userQuota +:+
                                 ", 需要预扣费额度: " +:+ su_FormatQuota su preConsumedQuota))
                ErrorCodeInsufficientUserQuota)
      else
        modify (λ e, e <| re_info ::= (λ i, i <| ri_UserQuota := userQuota |>) |>);;
        start (new_session (WalletFunding (ri_UserId info) 0) (ri_RequestId info)) preConsumedQuota
  end.

Definition trySubscription (preConsumedQuota : Z) : M renv BillingSession :=
  info ← gets re_info;
  let subConsume := if preConsumedQuota <=? 0 then 1 else preConsumedQuota in
  start (new_session (SubscriptionFunding (MkSubFunding (ri_RequestId info) (ri_UserId info) (BillingModelName info)
                        subConsume 0 0 0 0 0 EmptyString)) (ri_RequestId info)) subConsume.

(** A [relayInfo] that is nil is refused before anything else; here there
    is one. *)
Definition NewBillingSession (preConsumedQuota : Z) : M renv BillingSession :=
  modify (λ e, e <| re_info ::= (λ i, if blank (ri_RequestId i) then i <| ri_RequestId := su_NewRequestId su |> else i) |>);;
  info ← gets re_info;
  let pref := NormalizeBillingPreference (ri_BillingPreference info) in
  if decide (pref = "subscription_only") then trySubscription preConsumedQuota
  else if decide (pref = "wallet_only") then tryWallet preConsumedQuota
  else if decide (pref = "wallet_first") then
    r ← try (tryWallet preConsumedQuota);
    match r with
    | Ok session => mret session
    | Err err =>
        if decide (GetErrorCode err = ErrorCodeInsufficientUserQuota) then trySubscription preConsumedQuota else fail err
    end
  else
    hasSub ← try (of_world (HasActiveUserSubscription (ri_UserId info)));
    match hasSub with
    | Err err => fail (NewError err ErrorCodeQueryDataError [ErrOptionWithSkipRetry])
    | Ok false => tryWallet preConsumedQuota
    | Ok true =>
        r ← try (trySubscription preConsumedQuota);
        match r with
        | Ok session => mret session
        | Err apiErr =>
            if decide (GetErrorCode apiErr = ErrorCodeInsufficientUserQuota) then
              allow ← try (of_world (UserActiveSubscriptionsAllowWalletOverflow (ri_UserId info)));
              match allow with
              | Err err => fail (NewError err ErrorCodeQueryDataError [ErrOptionWithSkipRetry])
              | Ok true => tryWallet preConsumedQuota
              | Ok false => fail apiErr
              end
            else fail apiErr
        end
    end.

(** ** src/service/billing.go *)

Definition PreConsumeBilling (preConsumedQuota : Z) : M renv unit :=
  info ← gets re_info;
  match ri_QuotaClamp info with
  | Some clamp => fail (NewErrorWithStatusCode clamp ErrorCodeModelPriceError 400 [ErrOptionWithSkipRetry])
  | None =>
      if preConsumedQuota <? 0
      then fail (NewErrorWithStatusCode (ErrNew ("pre-consume quota cannot be negative: " +:+ pretty preConsumedQuota))
                   ErrorCodeModelPriceError 400 [ErrOptionWithSkipRetry])
      else
        session ← NewBillingSession preConsumedQuota;
        modify (λ e, e <| re_billing := Some session |>)
  end.

(** A method of [relayInfo.Billing]. *)
Definition billing {A} (s : BillingSession) (m : M senv A) : M renv A :=
  '(r, s) ← with_session s m;
  modify (λ e, e <| re_billing := Some s |>);;
  lift_res r.

Definition PrepareBillingForSelectedModel : M renv unit :=
  info ← gets re_info;
  session ← gets re_billing;
  match session with
  | None => if ri_FreeModel info then mret tt else PreConsumeBilling (ri_QuotaToPreConsume info)
  | Some s =>
      r ← try (billing s (Reserve su (ri_QuotaToPreConsume info)));
      match r with
      | Err err => fail (NewError err ErrorCodeUpdateDataError [ErrOptionWithSkipRetry])
      | Ok _ =>
          session ← gets re_billing;
          let pre := match session with Some s => bs_preConsumedQuota s | None => 0 end in
          modify (λ e, e <| re_info ::= (λ i, i <| ri_FinalPreConsumedQuota := pre |>) |>)
      end
  end.
End opening.

(** The path of requests without a session (src/service/quota.go). *)
Definition postConsumeQuotaWithResult (quota : Z) : M renv unit :=
  info ← gets re_info;
  (if decide (ri_BillingSource info = SourceSubscription) then
     if ri_SubscriptionId info =? 0 then fail (ErrNew "subscription id is missing")
     else if quota =? 0 then mret tt
     else
       of_world (PostConsumeUserSubscriptionDelta (ri_SubscriptionId info) quota);;
       modify (λ e, e <| re_info ::= (λ i, i <| ri_SubscriptionPostDelta ::= (λ z, i64 (z + quota)) |>) |>)
   else of_world (if 0 <? quota then DecreaseUserQuota (ri_UserId info) quota false
                  else IncreaseUserQuota (ri_UserId info) (i64 (- quota)) false));;
  if ri_IsPlayground info then mret tt
  else of_world (if 0 <? quota then DecreaseTokenQuota (ri_TokenId info) (ri_TokenKey info) quota
                 else IncreaseTokenQuota (ri_TokenId info) (ri_TokenKey info) (i64 (- quota))).

Definition SettleBilling (actualQuota : Z) : M renv unit :=
  session ← gets re_billing;
  match session with
  | Some s =>
      r ← try (billing s (retry 2 (Settle actualQuota)));
      modify (λ e, e <| re_info ::= (λ i, i <| ri_BillingSettlementError := err_of r |>) |>);;
      lift_res r
  | None =>
      info ← gets re_info;
      let quotaDelta := i64 (actualQuota - ri_FinalPreConsumedQuota info) in
      if negb (quotaDelta =? 0) then
        r ← try (postConsumeQuotaWithResult quotaDelta);
        modify (λ e, e <| re_info ::= (λ i, i <| ri_BillingSettlementError := err_of r |>) |>);;
        lift_res r
      else modify (λ e, e <| re_info ::= (λ i, i <| ri_BillingSettlementError := None |>) |>)
  end.
