(* ===== verification/PriceHelper.v ===== *)
(** * What a request reserves

    src/types/price_data.go and src/relay/helper/price.go: the price of the
    selected model and the quota a request reserves before it is sent.
    Products of prices are binary64 products.  A Go map of extra ratios is the
    list of its entries in the order of a walk. *)

From Stdlib Require Import SpecFloat QArith.QArith_base.
From S2P Require Import Prelude GoStrings Interleave QuotaMath RouteSelect ChannelKeys RetryPlan RelayLoop CompactRetry ToolPrices ModelPrices Store QuotaBatch BillingSession.
#[local] Open Scope string_scope.
#[local] Open Scope list_scope.
#[local] Open Scope Z_scope.

(** ** Prices *)

Definition fmul (a b : float64) : float64 := SFmul 53 1024 a b.
Definition fone : float64 := float_of_int 1.
Definition fzero : float64 := S754_zero false.

Record PriceData := MkPriceData {
  pd_FreeModel : bool; pd_ModelPrice : float64; pd_ModelRatio : float64; pd_CompletionRatio : float64; pd_CacheRatio : float64;
  pd_CacheCreationRatio : float64; pd_CacheCreation5mRatio : float64; pd_CacheCreation1hRatio : float64; pd_ImageRatio : float64;
  pd_AudioRatio : float64; pd_AudioCompletionRatio : float64; pd_otherRatios : list (string * float64); pd_UsePrice : bool;
  pd_Quota : Z; pd_QuotaToPreConsume : Z; pd_ChannelRatio : float64
}.
#[global] Instance eta_PriceData : Eta PriceData := λ p,
  MkPriceData (pd_FreeModel p) (pd_ModelPrice p) (pd_ModelRatio p) (pd_CompletionRatio p) (pd_CacheRatio p) (pd_CacheCreationRatio p)
    (pd_CacheCreation5mRatio p) (pd_CacheCreation1hRatio p) (pd_ImageRatio p) (pd_AudioRatio p) (pd_AudioCompletionRatio p)
    (pd_otherRatios p) (pd_UsePrice p) (pd_Quota p) (pd_QuotaToPreConsume p) (pd_ChannelRatio p).
Definition no_price_data : PriceData :=
  MkPriceData false fzero fzero fzero fzero fzero fzero fzero fzero fzero fzero [] false 0 0 fzero.

Definition isValidOtherRatio (ratio : float64) : bool :=
  SFltb fzero ratio && match ratio with S754_infinity false => false | _ => true end.
Definition AddOtherRatio (key : string) (ratio : float64) (p : PriceData) : PriceData :=
  if negb (isValidOtherRatio ratio) then p
  else p <| pd_otherRatios ::= (λ l, filter (λ e, e.1 ≠ key) l ++ [(key, ratio)]) |>.
Definition ReplaceOtherRatios (ratios : list (string * float64)) (p : PriceData) : PriceData :=
  foldl (λ p e, AddOtherRatio e.1 e.2 p) (p <| pd_otherRatios := [] |>) ratios.
(** The ratios a walk multiplies by. *)
Definition other_ratios (p : PriceData) : list float64 :=
  filter (λ ratio, isValidOtherRatio ratio && negb (SFeqb ratio fone) = true) (pd_otherRatios p).*2.
Definition OtherRatioMultiplier (p : PriceData) : float64 := foldl fmul fone (other_ratios p).
Definition ApplyOtherRatiosToFloat (p : PriceData) (value : float64) : float64 := fmul value (OtherRatioMultiplier p).
Definition ApplyOtherRatiosToDecimal {D} `{DecimalArith D} (p : PriceData) (value : D) : D :=
  foldl (λ value ratio, dec_Mul value (dec_NewFromFloat ratio)) value (other_ratios p).
Definition RemoveOtherRatiosFromFloat (p : PriceData) (value : float64) : float64 := foldl fdiv value (other_ratios p).

(** ** The request *)

(** [billingexpr.TokenParams] and [BillingSnapshot] *)
Record TokenParams := MkTokenParams {
  P_ : float64; C_ : float64; Len_ : float64; CR_ : float64; CC_ : float64; CC1h_ : float64; Img_ : float64; ImgO_ : float64; AI_ : float64; AO_ : float64
}.
Record BillingSnapshot := MkSnapshot {
  sn_BillingMode : string; sn_ModelName : string; sn_ExprString : string; sn_GroupRatio : float64;
  sn_EstimatedPromptTokens : Z; sn_EstimatedCompletionTokens : Z; sn_EstimatedQuotaBeforeGroup : float64; sn_EstimatedQuotaAfterGroup : Z;
  sn_EstimatedTier : string; sn_QuotaPerUnit : float64; sn_ExprVersion : Z
}.
Definition DefaultExprVersion : Z := 1.
Definition ParseExprVersion (exprStr : string) : Z * string :=
  match strip_prefix "v1:" exprStr with Some body => (1, body) | None => (DefaultExprVersion, exprStr) end.

Inductive relay_mode := RelayModeResponses | RelayModeResponsesCompact | RelayModeOther.
#[global] Instance relay_mode_eq_dec : EqDecision relay_mode.
Proof. solve_decision. Defined.

(** [relaycommon.RelayInfo] as far as prices are concerned; the rest of it is
    [RelayInfo].  [RI] is the request an expression may look at. *)
Record price_info {RI : Type} := MkPriceInfo {
  pi_info : RelayInfo; pi_RelayMode : relay_mode; pi_AcceptUnsetRatioModel : bool; pi_UsingGroup : string;
  pi_PricingModelName : string; pi_ModelPricingSource : string; pi_PriceData : PriceData;
  pi_TieredBillingSnapshot : option BillingSnapshot; pi_BillingRequestInput : option RI
}.
#[global] Arguments price_info : clear implicits.
#[global] Arguments MkPriceInfo {_}.
#[global] Instance eta_price_info RI : Eta (price_info RI) := λ i,
  MkPriceInfo (pi_info i) (pi_RelayMode i) (pi_AcceptUnsetRatioModel i) (pi_UsingGroup i) (pi_PricingModelName i) (pi_ModelPricingSource i)
    (pi_PriceData i) (pi_TieredBillingSnapshot i) (pi_BillingRequestInput i).

(** [info.PriceData = priceData]: the two fields billing reads are in [RelayInfo]. *)
Definition set_price {RI} (p : PriceData) (i : price_info RI) : price_info RI :=
  i <| pi_PriceData := p |> <| pi_info ::= (λ r, r <| ri_QuotaToPreConsume := pd_QuotaToPreConsume p |> <| ri_FreeModel := pd_FreeModel p |>) |>.

Record TokenCountMeta := MkMeta { tm_MaxTokens : Z; tm_ImagePriceRatio : float64; tm_BillingRatios : list (string * float64) }.

Record price_options := MkPriceOptions {
  po_pricing : pricing; po_default_prices : gmap string float64; po_PreConsumedQuota : Z; po_QuotaPerUnit : float64; po_EnableFreeModelPreConsume : bool
}.

(** ** The price of a model *)

Definition claudeCacheCreation1hMultiplier : float64 := float_ratio 8 5.
Definition defaultTieredPreConsumeMaxTokens : Z := 8192.

(** [admin]: the user is an administrator ([model.IsAdmin]). *)
Definition modelPriceNotConfiguredError (modelName : string) (admin : bool) : error :=
  if admin then ErrNew ("模型 " +:+ modelName +:+ " 的价格未配置。请前往「系统设置 → 运营设置」开启自用模式，或在「系统设置 → 分组与模型定价设置」中为该模型配置价格；Model "
    +:+ modelName +:+ " price not configured. Go to System Settings → Operation Settings to enable self-use mode, or configure the model price in System Settings → Group & Model Pricing.")
  else ErrNew ("模型 " +:+ modelName +:+ " 的价格尚未由管理员配置，暂时无法使用，请联系站点管理员开启该模型；Model "
    +:+ modelName +:+ " has not been priced by the administrator yet. Please contact the site administrator to enable this model.").

(** A strict conversion as the error it returns. *)
Definition strict (r : Z * option QuotaClamp) : res Z :=
  match r with (quota, None) => Ok quota | (_, Some clamp) => Err (ErrNew ("quota conversion (" +:+ Op clamp +:+ ")")) end.

Section helper.
Context {RI : Type} (o : price_options) (admin : bool).
(** [run_expr]: the cost and the tier an expression gives; [request_input]: the
    headers and body it may look at. *)
Context (run_expr : string → TokenParams → RI → res (float64 * string)) (request_input : res RI).
Abbreviation ps := (po_pricing o).

(** [channel_ratio]: what the context holds, [Some None] for a value that is
    no float. *)
Definition ratio_of (channel_ratio : option (option float64)) : float64 :=
  match channel_ratio with None => fone | Some value => default fzero value end.
Definition HandleChannelRatio (channel_ratio : option (option float64)) : M (price_info RI) float64 :=
  modify (λ i, i <| pi_UsingGroup := "" |>);;
  mret (ratio_of channel_ratio).

Definition modelPriceHelperTiered (pricingModel : string) (promptTokens : Z) (meta : TokenCountMeta) (channelRatio : float64) : M (price_info RI) PriceData :=
  info ← gets pi_info;
  match GetBillingExpr ps pricingModel with
  | None => fail (ErrNew ("model " +:+ BillingModelName info +:+ " is configured as tiered_expr but has no billing expression"))
  | Some exprStr =>
      let estimatedCompletionTokens :=
        if (tm_MaxTokens meta =? 0) && negb (SFeqb channelRatio fzero) then defaultTieredPreConsumeMaxTokens else tm_MaxTokens meta in
      requestInput ← lift_res request_input;
      r ← try (lift_res (run_expr exprStr (MkTokenParams (float_of_int promptTokens) (float_of_int estimatedCompletionTokens) (float_of_int promptTokens)
             fzero fzero fzero fzero fzero fzero fzero) requestInput));
      match r with
      | Err e => fail (ErrWrap ("model " +:+ BillingModelName info +:+ " tiered expr run failed") e)
      | Ok (rawCost, matchedTier) =>
          let quotaBeforeGroup := fmul (fdiv rawCost (float_of_int 1000000)) (po_QuotaPerUnit o) in
          preConsumedQuota ← lift_res (strict (QuotaRoundStrict (fmul quotaBeforeGroup channelRatio)));
          let freeModel := negb (po_EnableFreeModelPreConsume o) && SFeqb channelRatio fzero in
          let preConsumedQuota := if freeModel then 0 else preConsumedQuota in
          let snapshot := MkSnapshot BillingModeTieredExpr (BillingModelName info) exprStr channelRatio promptTokens estimatedCompletionTokens
            quotaBeforeGroup preConsumedQuota matchedTier (po_QuotaPerUnit o) (ParseExprVersion exprStr).1 in
          let priceData := no_price_data <| pd_FreeModel := freeModel |> <| pd_ChannelRatio := channelRatio |> <| pd_QuotaToPreConsume := preConsumedQuota |> in
          modify (λ i, set_price priceData (i <| pi_TieredBillingSnapshot := Some snapshot |> <| pi_BillingRequestInput := Some requestInput |>));;
          mret priceData
      end
  end.

(** The ratios of a model priced by tokens, and what it reserves. *)
Definition ratio_price (info : price_info RI) (pricingModel : string) (promptTokens : Z) (meta : TokenCountMeta) (channelRatio : float64) : res PriceData :=
  let preConsumedTokens := Z.max promptTokens (po_PreConsumedQuota o) in
  let preConsumedTokens := if tm_MaxTokens meta =? 0 then preConsumedTokens else i64 (preConsumedTokens + tm_MaxTokens meta) in
  let '(modelRatio, success, matchName) := GetModelRatio ps pricingModel in
  if negb success && negb (pi_AcceptUnsetRatioModel info) then Err (modelPriceNotConfiguredError matchName admin)
  else
    let cacheCreationRatio := GetCreateCacheRatio ps pricingModel in
    match strict (QuotaFromFloatStrict (fmul (float_of_int preConsumedTokens) (fmul modelRatio channelRatio))) with
    | Err e => Err e
    | Ok quota =>
        Ok (MkPriceData false (float_of_int (-1)) modelRatio (GetCompletionRatio ps pricingModel) (GetCacheRatio ps pricingModel) cacheCreationRatio
              cacheCreationRatio (fmul cacheCreationRatio claudeCacheCreation1hMultiplier) (GetImageRatio ps pricingModel)
              (GetAudioRatio ps pricingModel) (GetAudioCompletionRatio ps pricingModel) [] false 0 quota channelRatio)
    end.
(** The price of a model priced by calls. *)
Definition call_price (modelPrice : float64) (meta : TokenCountMeta) (channelRatio : float64) : PriceData :=
  no_price_data <| pd_ModelPrice := if SFeqb (tm_ImagePriceRatio meta) fzero then modelPrice else fmul modelPrice (tm_ImagePriceRatio meta) |>
    <| pd_UsePrice := true |> <| pd_ChannelRatio := channelRatio |>.

Definition mark_free (p : PriceData) : PriceData :=
  if po_EnableFreeModelPreConsume o then p
  else if SFeqb (pd_ChannelRatio p) fzero || SFeqb (if pd_UsePrice p then pd_ModelPrice p else pd_ModelRatio p) fzero
  then p <| pd_QuotaToPreConsume := 0 |> <| pd_FreeModel := true |> else p.

Definition ModelPriceHelper (channel_ratio : option (option float64)) (promptTokens : Z) (meta : TokenCountMeta) : M (price_info RI) PriceData :=
  i ← gets id;
  let billingModel := BillingModelName (pi_info i) in
  let pricingLookupModel :=
    if bool_decide (pi_RelayMode i = RelayModeResponsesCompact) && negb (HasSuffix billingModel CompactModelSuffix)
    then billingModel +:+ CompactModelSuffix else billingModel in
  let '(pricingModel, pricingSource) :=
    if negb (bool_decide (ri_LogicalBillingModel (pi_info i) = "")) || HasSuffix pricingLookupModel CompactModelSuffix
    then ResolveModel ps pricingLookupModel else (billingModel, "direct") in
  modify (λ i, i <| pi_PricingModelName := pricingModel |> <| pi_ModelPricingSource := pricingSource |>);;
  channelRatio ← HandleChannelRatio channel_ratio;
  if bool_decide (GetBillingMode ps pricingModel = BillingModeTieredExpr) then modelPriceHelperTiered pricingModel promptTokens meta channelRatio
  else
    modify (λ i, i <| pi_TieredBillingSnapshot := None |> <| pi_BillingRequestInput := None |>);;
    priceData ← match GetModelPrice ps pricingModel with
      | None => p ← lift_res (ratio_price i pricingModel promptTokens meta channelRatio); mret (mark_free p)
      | Some modelPrice =>
          let p := mark_free (call_price modelPrice meta channelRatio) in
          let p := foldl (λ p e, AddOtherRatio e.1 e.2 p) p (tm_BillingRatios meta) in
          quota ← lift_res (strict (QuotaFromFloatStrict (ApplyOtherRatiosToFloat p (fmul (fmul (pd_ModelPrice p) (po_QuotaPerUnit o)) channelRatio))));
          mret (p <| pd_QuotaToPreConsume := quota |>)
      end;
    modify (set_price priceData);;
    mret priceData.

Definition per_call_price (name : string) : option float64 :=
  match GetModelPrice ps name with Some price => Some price | None => po_default_prices o !! name end.
Definition ModelPriceHelperPerCall (channel_ratio : option (option float64)) : M (price_info RI) PriceData :=
  channelRatio ← HandleChannelRatio channel_ratio;
  i ← gets id;
  let name := ri_OriginModelName (pi_info i) in
  match per_call_price name with
  | Some modelPrice =>
      quota ← lift_res (strict (QuotaFromFloatStrict (fmul (fmul modelPrice (po_QuotaPerUnit o)) channelRatio)));
      let free := negb (po_EnableFreeModelPreConsume o) && (SFeqb channelRatio fzero || SFeqb modelPrice fzero) in
      mret (no_price_data <| pd_FreeModel := free |> <| pd_ModelPrice := modelPrice |> <| pd_UsePrice := true |>
        <| pd_Quota := if free then 0 else quota |> <| pd_ChannelRatio := channelRatio |>)
  | None =>
      let '(modelRatio, ratioSuccess, matchName) := GetModelRatio ps name in
      if negb ratioSuccess && negb (pi_AcceptUnsetRatioModel i) then fail (modelPriceNotConfiguredError matchName admin)
      else
        quota ← lift_res (strict (QuotaFromFloatStrict (fmul (fmul (fdiv modelRatio (float_of_int 2)) (po_QuotaPerUnit o)) channelRatio)));
        let free := negb (po_EnableFreeModelPreConsume o) && (SFeqb channelRatio fzero || SFeqb modelRatio fzero) in
        mret (no_price_data <| pd_FreeModel := free |> <| pd_ModelPrice := float_of_int (-1) |> <| pd_ModelRatio := modelRatio |>
          <| pd_Quota := if free then 0 else quota |> <| pd_ChannelRatio := channelRatio |>)
  end.
End helper.

(** ** Reservations are never negative *)

(** Not negative: zero, positive, or not a number. *)
Definition fpos (x : float64) : Prop := match x with S754_nan => True | S754_zero s | S754_infinity s | S754_finite s _ _ => s = false end.

Lemma round_aux_sign m e l : fpos (binary_round_aux 53 1024 false m e l).
Proof. unfold binary_round_aux. destruct (shr_fexp _ _ _ _ _) as [r e']. destruct (shr_fexp _ _ _ _ _) as [r' e'']. destruct (shr_m r'); [done|by destruct (_ <=? _)|done]. Qed.
Lemma fpos_mul a b : fpos a → fpos b → fpos (fmul a b).
Proof.
  unfold fmul. destruct a as [s|s| |s m e], b as [t|t| |t n f]; cbn [fpos]; intros -> || intros _; intros -> || intros _; try done. apply round_aux_sign.
Qed.
Lemma fpos_div a b : fpos a → fpos b → fpos (fdiv a b).
Proof.
  unfold fdiv. destruct a as [s|s| |s m e], b as [t|t| |t n f]; cbn [fpos]; intros -> || intros _; intros -> || intros _; try done.
  unfold SFdiv. destruct (SFdiv_core_binary _ _ _ _ _ _) as [[q e'] l]. apply round_aux_sign.
Qed.
Lemma fpos_of_int n : 0 <= n → fpos (float_of_int n).
Proof.
  intros Hn. unfold float_of_int, binary_normalize. destruct n as [|n|n]; [done| |lia]. unfold binary_round. destruct (shl_align _ _ _) as [m e]. apply round_aux_sign.
Qed.
Lemma fpos_ratio n d : 0 <= n → 0 <= d → fpos (float_ratio n d).
Proof. intros Hn Hd. apply (fpos_div (float_of_int n) (float_of_int d)); by apply fpos_of_int. Qed.
Lemma fpos_valid r : isValidOtherRatio r = true → fpos r.
Proof. unfold isValidOtherRatio, SFltb, fzero. destruct r as [[]|[]| |[] m e]; cbn; done. Qed.
Lemma fpos_round x : fpos x → fpos (math_Round x).
Proof.
  destruct x as [s|s| |s m e]; cbn [fpos math_Round]; intros Hx; try done. destruct (0 <=? e); [done|]. destruct (Z.abs _) as [|n|n]; [done| |done].
  subst s. unfold float_of_pos. by destruct (_ * _).
Qed.
Lemma fpos_value x : fpos x → (0 <= float_value x)%Q.
Proof.
  destruct x as [s|s| |s m e]; cbn [fpos float_value]; intros Hx; [done..|]. subst s. unfold dyadic. destruct (0 <=? e) eqn:E; unfold QArith_base.Qle; cbn; [|lia].
  apply Z.leb_le in E. pose proof (Z.pow_nonneg 2 e ltac:(lia)). nia.
Qed.

Lemma strict_saturate x op q : fpos x → strict (strictQuota (saturateQuota x op)) = Ok q → 0 <= q < MaxQuota.
Proof.
  intros Hx. unfold strict, strictQuota. destruct (saturateQuota x op) as [q' [c|]] eqn:E; [done|]. intros [= <-].
  apply saturateQuota_None in E as (_ & Hmin & Hhi & ->). apply fpos_value in Hx. pose proof (Qtrunc_mono _ _ Hx) as Hlo. split; [exact Hlo|].
  by apply (Qtrunc_inside _ MinQuota MaxQuota).
Qed.

(** Tables without negative prices. *)
Record pricing_ok (ps : pricing) : Prop := MkPricingOk {
  pk_prices : map_Forall (λ _, fpos) (modelPriceMap ps);
  pk_ratios : map_Forall (λ _, fpos) (modelRatioMap ps);
  pk_catalogue : ∀ name fuzzy e, catalogue ps name fuzzy = Some e → fpos (en_ModelRatio e)
}.
Lemma price_fpos ps name price : pricing_ok ps → GetModelPrice ps name = Some price → fpos price.
Proof.
  intros [Hp _ _]. unfold GetModelPrice. cbv zeta. destruct (modelPriceMap ps !! FormatMatchingModelName name) as [x|] eqn:E; [intros [= <-]; by apply (Hp _ _ E)|].
  destruct (HasSuffix _ _); [|done]. intros E'. by apply (Hp _ _ E').
Qed.
Lemma ratio_fpos ps name : pricing_ok ps → fpos (GetModelRatio ps name).1.1.
Proof.
  intros [_ Hr Hc]. unfold GetModelRatio. cbv zeta.
  assert (∀ n, fpos (match autoPricingEntry ps n with Some e => (en_ModelRatio e, true, n) | None => (unset_ratio, SelfUseModeEnabled ps, n) end).1.1) as Hauto.
  { intros n. unfold autoPricingEntry. destruct (negb _); [by apply fpos_ratio|]. destruct (hasManualFixedPrice _ _); [by apply fpos_ratio|].
    destruct (catalogue ps n _) as [e|] eqn:E; [by apply (Hc _ _ _ E)|by apply fpos_ratio]. }
  destruct (modelRatioMap ps !! FormatMatchingModelName name) as [x|] eqn:E; [by apply (Hr _ _ E)|]. destruct (HasSuffix _ _); [|apply Hauto].
  destruct (modelRatioMap ps !! CompactWildcardModelKey) as [x|] eqn:E'; [by apply (Hr _ _ E')|apply Hauto].
Qed.

Lemma fpos_multiplier p : fpos (OtherRatioMultiplier p).
Proof.
  unfold OtherRatioMultiplier. assert (Forall fpos (other_ratios p)) as Hl.
  { apply Forall_forall. intros x [Hx _]%list_elem_of_filter. apply andb_prop in Hx as [Hx _]. by apply fpos_valid. }
  assert (fpos fone) as H1 by (by apply fpos_of_int). revert H1. generalize fone. induction Hl as [|x l Hx _ IH]; intros a Ha; [done|]. cbn. by apply IH, fpos_mul.
Qed.
Lemma add_ratios_frame l p : let p' := foldl (λ p e, AddOtherRatio e.1 e.2 p) p l in
  pd_ModelPrice p' = pd_ModelPrice p ∧ pd_FreeModel p' = pd_FreeModel p.
Proof.
  revert p. induction l as [|e l IH]; intros p; [done|]. cbn. destruct (IH (AddOtherRatio e.1 e.2 p)) as [-> ->]. unfold AddOtherRatio. by destruct (negb _).
Qed.
Lemma mark_free_range o p : 0 <= pd_QuotaToPreConsume p < MaxQuota → 0 <= pd_QuotaToPreConsume (mark_free o p) < MaxQuota.
Proof. intros Hp. unfold mark_free. destruct (po_EnableFreeModelPreConsume o); [done|]. by destruct (_ || _). Qed.

Section reservations.
Context {RI : Type} (o : price_options) (admin : bool) (run_expr : string → TokenParams → RI → res (float64 * string)) (request_input : res RI).

(** What the tables, the request and the expressions must satisfy. *)
Record sound_prices (ratio : float64) (promptTokens : Z) (meta : TokenCountMeta) : Prop := MkSoundPrices {
  sp_tables : pricing_ok (po_pricing o); sp_unit : fpos (po_QuotaPerUnit o); sp_ratio : fpos ratio; sp_image : fpos (tm_ImagePriceRatio meta);
  sp_prompt : 0 <= promptTokens; sp_reserve : 0 <= po_PreConsumedQuota o; sp_max : 0 <= tm_MaxTokens meta;
  sp_fits : Z.max promptTokens (po_PreConsumedQuota o) + tm_MaxTokens meta < 2 ^ 63;
  sp_expr : ∀ e t r c tier, run_expr e t r = Ok (c, tier) → fpos c
}.

Lemma ratio_range ratio promptTokens meta (i : price_info RI) pm pd : sound_prices ratio promptTokens meta →
  ratio_price o admin i pm promptTokens meta ratio = Ok pd → 0 <= pd_QuotaToPreConsume pd < MaxQuota.
Proof.
  intros Hs. unfold ratio_price. pose proof (ratio_fpos (po_pricing o) pm (sp_tables _ _ _ Hs)) as Hr. cbv zeta.
  destruct (GetModelRatio (po_pricing o) pm) as [[modelRatio success] name]. cbn in Hr. destruct (_ && _); [done|].
  destruct (strict _) as [q|e] eqn:E; [|done]. intros [= <-]. cbn. apply strict_saturate in E; [done|]. destruct Hs.
  apply fpos_mul; [|by apply fpos_mul]. apply fpos_of_int. destruct (_ =? 0); [lia|]. rewrite i64_id by (unfold in_i64, min_i64, max_i64; lia). lia.
Qed.
Lemma call_range ratio promptTokens meta price quota p : sound_prices ratio promptTokens meta → fpos price → pd_ModelPrice p = pd_ModelPrice (call_price price meta ratio) →
  strict (QuotaFromFloatStrict (ApplyOtherRatiosToFloat p (fmul (fmul (pd_ModelPrice p) (po_QuotaPerUnit o)) ratio))) = Ok quota → 0 <= quota < MaxQuota.
Proof.
  intros Hs Hp Ep E. destruct Hs. apply strict_saturate in E; [done|]. unfold ApplyOtherRatiosToFloat. rewrite Ep.
  repeat apply fpos_mul; try done; [|apply fpos_multiplier]. cbn. destruct (SFeqb _ _); [done|by apply fpos_mul].
Qed.
Lemma tiered_range ratio promptTokens meta pm i pd i' : sound_prices ratio promptTokens meta →
  modelPriceHelperTiered o run_expr request_input pm promptTokens meta ratio i = (Ok pd, i') →
  0 <= pd_QuotaToPreConsume pd < MaxQuota ∧ ∃ i0, i' = set_price pd i0.
Proof.
  intros Hs. unfold modelPriceHelperTiered. unfold_m. destruct (GetBillingExpr _ _) as [e|]; [|done]. destruct request_input as [ri|]; [|done]. cbv zeta.
  destruct (run_expr e _ ri) as [[c tier]|] eqn:Ee; [|done]. apply (sp_expr _ _ _ Hs) in Ee. destruct (strict _) as [q|] eqn:Eq; [|done].
  intros [= <- <-]. cbn. split; [|by eexists]. destruct Hs. apply strict_saturate in Eq; [by destruct (_ && _)|].
  apply fpos_round, fpos_mul; [apply fpos_mul; [apply fpos_div|]|]; try done.
Qed.

(** With non-negative tables, channel ratio and expressions, what a
    request reserves is neither negative nor above the largest quota, for any
    numbers of tokens whose sum is an [int]; a product out of range is an error.
    The reservation is recorded where billing reads it. *)
Theorem reservation_in_range channel_ratio promptTokens meta i pd i' :
  sound_prices (ratio_of channel_ratio) promptTokens meta →
  ModelPriceHelper o admin run_expr request_input channel_ratio promptTokens meta i = (Ok pd, i') →
  0 <= pd_QuotaToPreConsume pd < MaxQuota ∧ pi_PriceData i' = pd ∧ ri_QuotaToPreConsume (pi_info i') = pd_QuotaToPreConsume pd ∧
  ri_FreeModel (pi_info i') = pd_FreeModel pd.
Proof.
  intros Hs. unfold ModelPriceHelper, HandleChannelRatio. unfold_m. cbv zeta. destruct (if _ : bool then _ else _) as [pm src].
  destruct (bool_decide _); [intros E; by apply (tiered_range _ _ _ _ _ _ _ Hs) in E as (Hq & i0 & ->)|].
  destruct (GetModelPrice _ _) as [price|] eqn:Ep.
  - apply price_fpos in Ep; [|apply Hs]. destruct (strict _) as [q|] eqn:Eq; [|done]. intros [= <- <-]. split; [|done]. cbn.
    apply (call_range _ promptTokens meta price) in Eq; [done|done|done|]. destruct (add_ratios_frame (tm_BillingRatios meta) (mark_free o (call_price price meta (ratio_of channel_ratio)))) as [-> _].
    unfold mark_free. destruct (po_EnableFreeModelPreConsume o); [done|]. by destruct (_ || _).
  - destruct (ratio_price _ _ _ _ _ _ _) as [p|] eqn:Er; [|done]. intros [= <- <-]. split; [|done]. by apply mark_free_range, (ratio_range _ _ _ _ _ _ Hs Er).
Qed.

(** The model whose price is looked up. *)
Definition looked_up (i : price_info RI) : string :=
  let name := BillingModelName (pi_info i) in
  if bool_decide (pi_RelayMode i = RelayModeResponsesCompact) && negb (HasSuffix name CompactModelSuffix) then name +:+ CompactModelSuffix else name.
Lemma resolved_model i (b : bool) : let name := looked_up i in
  (if negb b || HasSuffix name CompactModelSuffix then ResolveModel (po_pricing o) name else (BillingModelName (pi_info i), "direct")).1 = (ResolveModel (po_pricing o) name).1.
Proof.
  cbv zeta. destruct (HasSuffix (looked_up i) CompactModelSuffix) eqn:E; [by rewrite orb_true_r|]. rewrite orb_false_r.
  assert (looked_up i = BillingModelName (pi_info i)) as El.
  { unfold looked_up in *. destruct (_ && _); [|done]. by rewrite HasSuffix_app in E. }
  destruct b; [|done]. unfold ResolveModel. by rewrite E, El.
Qed.
Lemma conversion_result x : (∃ q, strict (QuotaFromFloatStrict x) = Ok q) ∨ strict (QuotaFromFloatStrict x) = Err (ErrNew "quota conversion (QuotaFromFloat)").
Proof.
  unfold QuotaFromFloatStrict, QuotaFromFloatChecked, saturateQuota. repeat match goal with |- context [if ?b then _ else _] => destruct b end; eauto.
Qed.

(** C35: the models that count as configured are those that can be priced.
    Unless its price is tiered, a request for a configured model, or of a user
    who accepts models without a ratio, gets a price or has a quota that is out
    of range, and any other request is refused as one without a price. *)
Theorem configured_models_are_priced channel_ratio promptTokens meta i :
  let m := (ResolveModel (po_pricing o) (looked_up i)).1 in
  let r := (ModelPriceHelper o admin run_expr request_input channel_ratio promptTokens meta i).1 in
  GetBillingMode (po_pricing o) m ≠ BillingModeTieredExpr →
  if HasModelBillingConfig (po_pricing o) (looked_up i) || pi_AcceptUnsetRatioModel i
  then (∃ pd, r = Ok pd) ∨ r = Err (ErrNew "quota conversion (QuotaFromFloat)")
  else r = Err (modelPriceNotConfiguredError (GetModelRatio (po_pricing o) m).2 admin).
Proof.
  cbv zeta. intros Hm. unfold ModelPriceHelper, HandleChannelRatio, HasModelBillingConfig. unfold_m. cbv zeta.
  pose proof (resolved_model i (bool_decide (ri_LogicalBillingModel (pi_info i) = ""))) as Er. unfold looked_up in *. cbv zeta in Er.
  destruct (if negb (bool_decide (ri_LogicalBillingModel (pi_info i) = "")) || _ then _ else _) as [pm src]. cbn [fst] in Er. rewrite <-Er in *.
  rewrite !(bool_decide_false (GetBillingMode _ _ = _)) by done. destruct (GetModelPrice (po_pricing o) pm) as [price|]; cbn [negb].
  - rewrite bool_decide_true by eauto. destruct (conversion_result (ApplyOtherRatiosToFloat
      (foldl (λ p e, AddOtherRatio e.1 e.2 p) (mark_free o (call_price price meta (ratio_of channel_ratio))) (tm_BillingRatios meta))
      (fmul (fmul (pd_ModelPrice (foldl (λ p e, AddOtherRatio e.1 e.2 p) (mark_free o (call_price price meta (ratio_of channel_ratio))) (tm_BillingRatios meta))) (po_QuotaPerUnit o))
        (ratio_of channel_ratio)))) as [[q ->]| ->]; [left; by eexists|by right].
  - rewrite bool_decide_false by (by intros []). unfold ratio_price. cbv zeta. destruct (GetModelRatio (po_pricing o) pm) as [[ratio [|]] name]; cbn [fst snd negb andb orb];
      [|unfold id; destruct (pi_AcceptUnsetRatioModel i); cbn [negb]; [|done]];
      (match goal with |- context [strict (QuotaFromFloatStrict ?x)] => destruct (conversion_result x) as [[q ->]| ->] end; [left; by eexists|by right]).
Qed.
End reservations.

(** A model at ratio 5/4 behind a channel at 2: a prompt of 100 tokens, with
    room for 1000 more, reserves 2750 quotas. *)
Definition sample_pricing : pricing :=
  MkPricing ∅ {["m" := float_ratio 5 4]} ∅ ∅ ∅ ∅ ∅ ∅ false false false (λ _ _, None) ∅ ∅.
Definition sample_price_options : price_options := MkPriceOptions sample_pricing ∅ 0 (float_of_int 500000) false.
Definition sample_price_info : price_info unit :=
  MkPriceInfo (MkRelayInfo "req-1" 7 0 11 "sk" false false true "wallet_only" "m" "m" 30 false None 0 (SourceOther EmptyString) 0 0 0 0 0 0 EmptyString None None)
    RelayModeOther false "" "" "" no_price_data None None.
Lemma reservation_in_range_witness :
  let r := ModelPriceHelper sample_price_options false (λ _ _ _, Err ErrRecordNotFound) (Ok tt) (Some (Some (float_of_int 2))) 100 (MkMeta 1000 fzero []) sample_price_info in
  ri_QuotaToPreConsume (pi_info r.2) = 2750 ∧ ∃ pd, r.1 = Ok pd ∧ 0 <= pd_QuotaToPreConsume pd < MaxQuota.
Proof.
  intros r. split; [by vm_compute|].
  assert (sound_prices sample_price_options (λ (_ : string) (_ : TokenParams) (_ : unit), Err ErrRecordNotFound) (ratio_of (Some (Some (float_of_int 2)))) 100 (MkMeta 1000 fzero [])) as Hs.
  { constructor; try done. split; [apply map_Forall_empty|by apply map_Forall_singleton|done]. }
  destruct r as [[pd|e] i'] eqn:E; [|exfalso; by vm_compute in E]. exists pd. split; [done|].
  exact (proj1 (reservation_in_range sample_price_options false _ (Ok tt) _ 100 _ sample_price_info pd i' Hs E)).
Defined.

Lemma configured_models_are_priced_witness :
  let other := sample_price_info <| pi_info ::= (λ i, i <| ri_LogicalBillingModel := "n" |>) |> in
  let r i := (ModelPriceHelper sample_price_options false (λ _ _ _, Err ErrRecordNotFound) (Ok tt) None 100 (MkMeta 1000 fzero []) i).1 in
  ((∃ pd, r sample_price_info = Ok pd) ∨ r sample_price_info = Err (ErrNew "quota conversion (QuotaFromFloat)")) ∧
  r other = Err (modelPriceNotConfiguredError "n" false).
Proof.
  split.
  - exact (configured_models_are_priced sample_price_options false (λ _ _ _, Err ErrRecordNotFound) (Ok tt) None 100 (MkMeta 1000 fzero []) sample_price_info ltac:(discriminate)).
  - exact (configured_models_are_priced sample_price_options false (λ _ _ _, Err ErrRecordNotFound) (Ok tt) None 100 (MkMeta 1000 fzero [])
      (sample_price_info <| pi_info ::= (λ i, i <| ri_LogicalBillingModel := "n" |>) |>) ltac:(discriminate)).
Defined.
