(* ===== verification/TextQuota.v ===== *)
(** * The price of a text request

    src/service/text_quota.go with the parts it calls: the usage a provider
    reported (src/service/billing_usage.go, src/relaykit/dto), tiered prices
    (src/service/tiered_settle.go, src/pkg/billingexpr/settle.go) and the
    estimate of cache writes at OpenRouter (src/service/quota.go).

    Quotas are computed with decimals: [DecimalOps] adds to the arithmetic of
    QuotaMath.v what is used here.  The tools of a request are a Go map, here
    the list of its entries in the order of a walk.  Log lines and the content
    of the consumption log are left out. *)

From stdpp Require Import sorting.
From Stdlib Require Import Ascii SpecFloat QArith.QArith_base.
From S2P Require Import Prelude GoStrings Interleave QuotaMath RouteSelect ChannelKeys RetryPlan RelayLoop CompactRetry ToolPrices ModelPrices Store QuotaBatch BillingSession PriceHelper.
#[local] Open Scope string_scope.
#[local] Open Scope list_scope.
#[local] Open Scope Z_scope.

(** ** Decimals *)

Class DecimalOps (D : Type) := {
  dec_DecimalArith :: DecimalArith D;
  dec_zero : D;
  dec_Add : D → D → D;
  dec_Sub : D → D → D;
  dec_IsZero : D → bool;
  dec_IsNegative : D → bool;
  dec_LessThanOrEqual : D → D → bool
}.
(** Sums are exact, comparisons compare values; a float keeps its sign, and so
    does a quotient, which may be rounded. *)
Class DecimalOpsLaws (D : Type) `{DecimalOps D} := {
  dec_DecimalArithLaws :: DecimalArithLaws D;
  dec_zero_value : (dec_value (dec_zero : D) == 0)%Q;
  dec_Add_exact : ∀ a b : D, (dec_value (dec_Add a b) == dec_value a + dec_value b)%Q;
  dec_Sub_exact : ∀ a b : D, (dec_value (dec_Sub a b) == dec_value a - dec_value b)%Q;
  dec_IsZero_spec : ∀ a : D, dec_IsZero a = true ↔ (dec_value a == 0)%Q;
  dec_IsNegative_spec : ∀ a : D, dec_IsNegative a = true ↔ (dec_value a < 0)%Q;
  dec_LessThanOrEqual_spec : ∀ a b : D, dec_LessThanOrEqual a b = true ↔ (dec_value a <= dec_value b)%Q;
  dec_NewFromFloat_sign : ∀ x, is_finite x = true → fpos x → (0 <= dec_value (dec_NewFromFloat x : D))%Q;
  dec_Div_sign : ∀ a b : D, (0 <= dec_value a)%Q → (0 < dec_value b)%Q → (0 <= dec_value (dec_Div a b))%Q
}.

(** Rational numbers are such decimals. *)
#[export] Instance Q_DecimalOps : DecimalOps Q :=
  {| dec_zero := 0%Q;
     dec_Add := Qplus;
     dec_Sub := Qminus;
     dec_IsZero q := Qeq_bool q 0;
     dec_IsNegative q := negb (Qle_bool 0 q);
     dec_LessThanOrEqual := Qle_bool |}.
#[export] Instance Q_DecimalOpsLaws : DecimalOpsLaws Q.
Proof.
  split; [apply _|done|done|done|intros a; apply Qeq_bool_iff| |intros a b; apply Qle_bool_iff|intros x _; apply fpos_value|].
  - intros a. cbn. rewrite negb_true_iff. split; [|intros Hn; apply not_true_iff_false; rewrite Qle_bool_iff; by apply Qlt_not_le].
    intros Hf%not_true_iff_false. rewrite Qle_bool_iff in Hf. by apply Qnot_le_lt.
  - intros a b Ha Hb. cbn in *. unfold Qdiv. apply Qmult_le_0_compat; [done|]. apply Qinv_le_0_compat. by apply Qlt_le_weak.
Qed.

(** ** Usage *)

Record InputTokenDetails := MkInDetails {
  in_CachedTokens : Z; in_CachedCreationTokens : Z; in_CacheWriteTokens : Z; in_TextTokens : Z; in_AudioTokens : Z; in_ImageTokens : Z
}.
#[global] Instance eta_InDetails : Eta InputTokenDetails := λ d,
  MkInDetails (in_CachedTokens d) (in_CachedCreationTokens d) (in_CacheWriteTokens d) (in_TextTokens d) (in_AudioTokens d) (in_ImageTokens d).
Record OutputTokenDetails := MkOutDetails { out_TextTokens : Z; out_AudioTokens : Z; out_ImageTokens : Z; out_ReasoningTokens : Z }.
#[global] Instance eta_OutDetails : Eta OutputTokenDetails := λ d,
  MkOutDetails (out_TextTokens d) (out_AudioTokens d) (out_ImageTokens d) (out_ReasoningTokens d).
Definition no_in : InputTokenDetails := MkInDetails 0 0 0 0 0 0.
Definition no_out : OutputTokenDetails := MkOutDetails 0 0 0 0.

(** [Cost any] as JSON gives it. *)
Inductive any_cost := CostNil | CostFloat (x : float64) | CostOther.

(** [dto.Usage] without the usage of the provider. *)
Record usage_core := MkUsage {
  us_PromptTokens : Z; us_CompletionTokens : Z; us_TotalTokens : Z; us_UsageSemantic : string; us_UsageSource : string;
  us_PromptTokensDetails : InputTokenDetails; us_CompletionTokenDetails : OutputTokenDetails; us_InputTokens : Z; us_OutputTokens : Z;
  us_ClaudeCacheCreation5mTokens : Z; us_ClaudeCacheCreation1hTokens : Z; us_Cost : any_cost
}.
#[global] Instance eta_Usage : Eta usage_core := λ u,
  MkUsage (us_PromptTokens u) (us_CompletionTokens u) (us_TotalTokens u) (us_UsageSemantic u) (us_UsageSource u) (us_PromptTokensDetails u)
    (us_CompletionTokenDetails u) (us_InputTokens u) (us_OutputTokens u) (us_ClaudeCacheCreation5mTokens u) (us_ClaudeCacheCreation1hTokens u) (us_Cost u).
Definition plain_usage (prompt completion total : Z) : usage_core := MkUsage prompt completion total "" "" no_in no_out 0 0 0 0 CostNil.

Record ClaudeUsage := MkClaude {
  cl_InputTokens : Z; cl_CacheCreationInputTokens : Z; cl_CacheReadInputTokens : Z; cl_OutputTokens : Z;
  cl_CacheCreation : option (Z * Z); cl_ClaudeCacheCreation5mTokens : Z; cl_ClaudeCacheCreation1hTokens : Z
}.
Record GeminiUsageMetadata := MkGemini {
  ge_PromptTokenCount : Z; ge_ToolUsePromptTokenCount : Z; ge_CandidatesTokenCount : Z; ge_TotalTokenCount : Z; ge_ThoughtsTokenCount : Z;
  ge_CachedContentTokenCount : Z; ge_PromptTokensDetails : list (string * Z); ge_ToolUsePromptTokensDetails : list (string * Z);
  ge_CandidatesTokensDetails : list (string * Z)
}.
(** [dto.BillingUsage]: what the provider itself reported. *)
Record BillingUsage := MkBillingUsage {
  bu_Source : string; bu_Semantic : string; bu_OpenAIUsage : option usage_core; bu_ClaudeUsage : option ClaudeUsage;
  bu_GeminiUsageMetadata : option GeminiUsageMetadata
}.
Record Usage := MkFullUsage { uf_core : usage_core; uf_BillingUsage : option BillingUsage }.

Definition CacheCreationTokensTotal (d : InputTokenDetails) : Z :=
  let total := if in_CachedCreationTokens d <? in_CacheWriteTokens d then in_CacheWriteTokens d else in_CachedCreationTokens d in
  if total <? 0 then 0 else total.

(** [strings.EqualFold(s, t)] for an ASCII [t]: besides the ASCII letters only
    the long s and the Kelvin sign fold to ASCII. *)
Fixpoint fold_text (s : string) : string :=
  match s with
  | EmptyString => EmptyString
  | String a (String b s' as s1) =>
      if bool_decide (bytes [197; 191]%N = String a (String b EmptyString)) then String "s"%char (fold_text s')
      else match s' with
        | String c s'' => if bool_decide (bytes [226; 132; 170]%N = String a (String b (String c EmptyString))) then String "k"%char (fold_text s'')
                          else String (lower_byte a) (fold_text s1)
        | EmptyString => String (lower_byte a) (fold_text s1)
        end
  | String a s1 => String (lower_byte a) (fold_text s1)
  end.
Definition EqualFold (s t : string) : bool := bool_decide (fold_text s = t).

Definition usageFromOpenAIBillingUsage (b : BillingUsage) (u : usage_core) : usage_core :=
  let u := if (us_PromptTokens u =? 0) && (0 <? us_InputTokens u) then u <| us_PromptTokens := us_InputTokens u |> else u in
  let u := if (us_CompletionTokens u =? 0) && (0 <? us_OutputTokens u) then u <| us_CompletionTokens := us_OutputTokens u |> else u in
  let u := if (us_InputTokens u =? 0) && (0 <? us_PromptTokens u) then u <| us_InputTokens := us_PromptTokens u |> else u in
  let u := if (us_OutputTokens u =? 0) && (0 <? us_CompletionTokens u) then u <| us_OutputTokens := us_CompletionTokens u |> else u in
  let u := if us_TotalTokens u =? 0 then u <| us_TotalTokens := i64 (us_PromptTokens u + us_CompletionTokens u) |> else u in
  u <| us_UsageSemantic := "openai" |> <| us_UsageSource := bu_Source b |>.

Definition usageFromClaudeBillingUsage (c : ClaudeUsage) : usage_core :=
  let '(e5m, e1h) := default (0, 0) (cl_CacheCreation c) in
  let cacheCreation5m := if e5m =? 0 then cl_ClaudeCacheCreation5mTokens c else e5m in
  let cacheCreation1h := if e1h =? 0 then cl_ClaudeCacheCreation1hTokens c else e1h in
  MkUsage (cl_InputTokens c) (cl_OutputTokens c) (i64 (cl_InputTokens c + cl_OutputTokens c)) "anthropic" "claude_messages"
    (no_in <| in_CachedTokens := cl_CacheReadInputTokens c |> <| in_CachedCreationTokens := cl_CacheCreationInputTokens c |>) no_out
    (i64 (cl_InputTokens c + cl_CacheReadInputTokens c + cl_CacheCreationInputTokens c)) (cl_OutputTokens c) cacheCreation5m cacheCreation1h CostNil.

Definition addGeminiInputTokenDetail (d : InputTokenDetails) (detail : string * Z) : InputTokenDetails :=
  if bool_decide (detail.1 = "AUDIO") then d <| in_AudioTokens ::= (λ z, i64 (z + detail.2)) |>
  else if bool_decide (detail.1 = "IMAGE") then d <| in_ImageTokens ::= (λ z, i64 (z + detail.2)) |>
  else if bool_decide (detail.1 = "TEXT") then d <| in_TextTokens ::= (λ z, i64 (z + detail.2)) |>
  else d.
Definition addGeminiOutputTokenDetail (d : OutputTokenDetails) (detail : string * Z) : OutputTokenDetails :=
  if bool_decide (detail.1 = "IMAGE") then d <| out_ImageTokens ::= (λ z, i64 (z + detail.2)) |>
  else if bool_decide (detail.1 = "AUDIO") then d <| out_AudioTokens ::= (λ z, i64 (z + detail.2)) |>
  else if bool_decide (detail.1 = "TEXT") then d <| out_TextTokens ::= (λ z, i64 (z + detail.2)) |>
  else d.

Definition usageFromGeminiBillingUsage (g : GeminiUsageMetadata) : usage_core :=
  let promptTokens := i64 (ge_PromptTokenCount g + ge_ToolUsePromptTokenCount g) in
  let ins := foldl addGeminiInputTokenDetail (no_in <| in_CachedTokens := ge_CachedContentTokenCount g |>)
    (ge_PromptTokensDetails g ++ ge_ToolUsePromptTokensDetails g) in
  let outs := foldl addGeminiOutputTokenDetail (no_out <| out_ReasoningTokens := ge_ThoughtsTokenCount g |>) (ge_CandidatesTokensDetails g) in
  let u := MkUsage promptTokens (i64 (ge_CandidatesTokenCount g + ge_ThoughtsTokenCount g)) (ge_TotalTokenCount g) "gemini" "gemini_chat" ins outs 0 0 0 0 CostNil in
  let u := if us_TotalTokens u =? 0 then u <| us_TotalTokens := i64 (us_PromptTokens u + us_CompletionTokens u) |>
    else if us_CompletionTokens u <=? 0 then u <| us_CompletionTokens := i64 (us_TotalTokens u - us_PromptTokens u) |> else u in
  if (0 <? us_PromptTokens u) && (in_TextTokens ins =? 0) && (in_AudioTokens ins =? 0)
  then u <| us_PromptTokensDetails ::= (λ d, d <| in_TextTokens := us_PromptTokens u |>) |> else u.

(** [if x != nil && guard { return f(x), true }] *)
Definition read_as {A} (x : option A) (guard : bool) (f : A → usage_core) : option usage_core := if guard then f <$> x else None.
Definition usageFromBillingUsage (u : Usage) : option usage_core :=
  b ← uf_BillingUsage u;
  let source := TrimSpace (bu_Source b) in
  let semantic := TrimSpace (bu_Semantic b) in
  read_as (bu_OpenAIUsage b) (EqualFold source "oai_chat" || EqualFold source "oai_responses" || EqualFold semantic "openai") (usageFromOpenAIBillingUsage b)
  ∪ read_as (bu_ClaudeUsage b) (EqualFold source "claude_messages" || EqualFold semantic "anthropic") usageFromClaudeBillingUsage
  ∪ read_as (bu_GeminiUsageMetadata b) (EqualFold source "gemini_chat" || EqualFold semantic "gemini") usageFromGeminiBillingUsage.
Definition effectiveBillingUsage (u : Usage) : usage_core := default (uf_core u) (usageFromBillingUsage u).

(** ** Tools *)

Record ToolSurchargeItem := MkItem { it_Name : string; it_Count : Z; it_Price : float64 }.
Definition max_int : Z := 2 ^ 63 - 1.

Definition collectToolSurchargeItem (idx : toolPriceIndex) (name : string) (count : Z) (modelName : string) (items : list ToolSurchargeItem) : list ToolSurchargeItem :=
  if count <=? 0 then items
  else
    let price := GetToolPriceForModel idx name modelName in
    if float_le price 0 || negb (is_finite price) then items else items ++ [MkItem name count price].

(** [less] of the sort is the strict part. *)
Definition item_le (a b : ToolSurchargeItem) : Prop :=
  if decide (it_Name a = it_Name b) then SFltb (it_Price b) (it_Price a) = false else String.le (it_Name a) (it_Name b).
#[global] Instance item_le_dec : RelDecision item_le.
Proof. intros a b. unfold item_le. destruct (decide _); apply _. Defined.

Definition merge_item (merged : list ToolSurchargeItem) (item : ToolSurchargeItem) : list ToolSurchargeItem :=
  match last merged with
  | Some l =>
      if bool_decide (it_Name l = it_Name item) && SFeqb (it_Price l) (it_Price item)
      then removelast merged ++ [MkItem (it_Name l) (if max_int - it_Count l <? it_Count item then max_int else it_Count l + it_Count item) (it_Price l)]
      else merged ++ [item]
  | None => merged ++ [item]
  end.
Definition mergeToolSurchargeItems (items : list ToolSurchargeItem) : list ToolSurchargeItem := foldl merge_item [] (merge_sort item_le items).

(** What the context and [RelayInfo] say of a request. *)
Record text_request {RI : Type} := MkTextRequest {
  tr_RelayMode : relay_mode; tr_PriceData : PriceData; tr_TieredBillingSnapshot : option BillingSnapshot; tr_BillingRequestInput : option RI;
  tr_ChannelType : option Z; tr_ChannelId : Z; tr_FinalRequestRelayFormat : string; tr_RequestConversionChain : list string; tr_RelayFormat : string;
  tr_EstimatePromptTokens : Z; tr_BuiltInTools : option (list (string * option Z));
  tr_claude_web_search_requests : Z; tr_gemini_google_search_call : bool
}.
#[global] Arguments text_request : clear implicits.
#[global] Arguments MkTextRequest {_}.

Definition GetFinalRequestRelayFormat {RI} (t : text_request RI) : string :=
  if negb (bool_decide (tr_FinalRequestRelayFormat t = "")) then tr_FinalRequestRelayFormat t
  else default (tr_RelayFormat t) (last (tr_RequestConversionChain t)).

(** Settings: the price of a quota unit, the tool prices and the built-in ratios. *)
Record text_options := MkTextOptions { to_QuotaPerUnit : float64; to_tools : toolPriceIndex; to_defaultModelRatio : gmap string float64 }.

Definition tool_items {RI} (o : text_options) (t : text_request RI) (modelName : string) : list ToolSurchargeItem :=
  let items := foldl (λ items e, match e.2 with Some n => collectToolSurchargeItem (to_tools o) e.1 n modelName items | None => items end) []
    (default [] (tr_BuiltInTools t)) in
  let items := if negb (bool_decide (tr_RelayMode t = RelayModeResponses)) && HasSuffix modelName "search-preview"
    then collectToolSurchargeItem (to_tools o) "web_search_preview" 1 modelName items else items in
  let items := collectToolSurchargeItem (to_tools o) "web_search" (tr_claude_web_search_requests t) modelName items in
  if tr_gemini_google_search_call t then collectToolSurchargeItem (to_tools o) "google_search" 1 modelName items else items.

Section decimals.
Context {D : Type} `{DecimalOps D}.

(** ** The summary *)

Record textQuotaSummary := MkSummary {
  sm_PromptTokens : Z; sm_CompletionTokens : Z; sm_TotalTokens : Z; sm_CacheTokens : Z; sm_CacheCreationTokens : Z;
  sm_CacheCreationTokens5m : Z; sm_CacheCreationTokens1h : Z; sm_ImageTokens : Z; sm_AudioTokens : Z; sm_ModelName : string;
  sm_Quota : Z; sm_IsClaudeUsageSemantic : bool; sm_ToolSurchargeItems : list ToolSurchargeItem; sm_ToolCallSurchargeQuota : D
}.
Definition hasBillableUsage (s : textQuotaSummary) : bool := (0 <? sm_TotalTokens s) || negb (dec_IsZero (sm_ToolCallSurchargeQuota s)).

Definition item_quota (o : text_options) (groupRatio : float64) (item : ToolSurchargeItem) : D :=
  dec_Mul (dec_Mul (dec_Div (dec_Mul (dec_NewFromFloat (it_Price item)) (dec_NewFromInt (it_Count item))) (dec_NewFromInt 1000))
    (dec_NewFromFloat groupRatio)) (dec_NewFromFloat (to_QuotaPerUnit o)).
(** [calculateTextToolCallSurcharge]: the items and their quota. *)
Definition calculateTextToolCallSurcharge {RI} (o : text_options) (t : text_request RI) (modelName : string) (groupRatio : float64) : list ToolSurchargeItem * D :=
  let items := mergeToolSurchargeItems (tool_items o t modelName) in
  (items, foldl (λ surcharge item, dec_Add surcharge (item_quota o groupRatio item)) dec_zero items).

Definition isLegacyClaudeDerivedOpenAIUsage {RI} (t : text_request RI) (u : usage_core) : bool :=
  if bool_decide (GetFinalRequestRelayFormat t = "claude") then false
  else if negb (bool_decide (us_UsageSource u = "")) || negb (bool_decide (us_UsageSemantic u = "")) then false
  else (0 <? us_ClaudeCacheCreation5mTokens u) || (0 <? us_ClaudeCacheCreation1hTokens u).
Definition usageSemanticFromUsage {RI} (t : text_request RI) (u : option usage_core) : string :=
  match u with
  | Some u => if negb (bool_decide (us_UsageSemantic u = "")) then us_UsageSemantic u
              else if bool_decide (GetFinalRequestRelayFormat t = "claude") then "anthropic" else "openai"
  | None => if bool_decide (GetFinalRequestRelayFormat t = "claude") then "anthropic" else "openai"
  end.

Definition ChannelTypeOpenRouter : Z := 20.
Definition hasCustomModelRatio (o : text_options) (modelName : string) (currentRatio : float64) : bool :=
  match to_defaultModelRatio o !! modelName with Some r => negb (SFeqb currentRatio r) | None => true end.
(** [int(x)]: out of range the result is up to the machine ([wild]). *)
Definition go_int (wild : float64 → Z) (x : float64) : Z :=
  if is_finite x && (- 2 ^ 63 <=? float_int x) && (float_int x <? 2 ^ 63) then float_int x else wild x.

Definition CalcOpenRouterCacheCreateTokens (o : text_options) (wild : float64 → Z) (u : usage_core) (p : PriceData) : Z :=
  if SFeqb (pd_CacheCreationRatio p) fone then 0
  else
    let quotaPrice := fdiv (pd_ModelRatio p) (to_QuotaPerUnit o) in
    let promptCacheCreatePrice := fmul quotaPrice (pd_CacheCreationRatio p) in
    let promptCacheReadPrice := fmul quotaPrice (pd_CacheRatio p) in
    let completionPrice := fmul quotaPrice (pd_CompletionRatio p) in
    let cost := match us_Cost u with CostFloat x => x | _ => fzero end in
    let promptCacheReadTokens := float_of_int (in_CachedTokens (us_PromptTokensDetails u)) in
    go_int wild (math_Round (fdiv
      (fsub (fadd (fsub cost (fmul (float_of_int (us_PromptTokens u)) quotaPrice)) (fmul promptCacheReadTokens (fsub quotaPrice promptCacheReadPrice)))
        (fmul (float_of_int (us_CompletionTokens u)) completionPrice))
      (fsub promptCacheCreatePrice quotaPrice))).

(** [usage.Cost != 0] compares an interface with the [int] zero; JSON puts no
    [int] into it. *)
Definition cost_not_int_zero (c : any_cost) : bool := match c with CostNil | CostFloat _ | CostOther => true end.

(** The prompt tokens and the cache writes of Claude models at OpenRouter. *)
Definition openrouter_tokens (o : text_options) (wild : float64 → Z) (p : PriceData) (u : usage_core) (modelName : string) (prompt cache creation : Z) : Z * Z :=
  let prompt := i64 (prompt - cache) in
  let isUsingCustomSettings := pd_UsePrice p || hasCustomModelRatio o modelName (pd_ModelRatio p) in
  let creation :=
    if (creation =? 0) && negb (SFeqb (pd_CacheCreationRatio p) fone) && cost_not_int_zero (us_Cost u) && negb isUsingCustomSettings then
      let maybeCacheCreationTokens := CalcOpenRouterCacheCreateTokens o wild u p in
      if (0 <=? maybeCacheCreationTokens) && (maybeCacheCreationTokens <=? prompt) then maybeCacheCreationTokens else creation
    else creation in
  (i64 (prompt - creation), creation).

(** The tokens of a request by kind, as they are billed. *)
Record token_counts := MkCounts {
  tc_prompt : Z; tc_completion : Z; tc_cache : Z; tc_creation : Z; tc_5m : Z; tc_1h : Z; tc_image : Z; tc_audio : Z
}.
(** Cache reads and writes are counted apart from the prompt. *)
Definition cached_with_ratio (p : PriceData) (n : token_counts) : D :=
  if dec_IsZero (dec_NewFromInt (tc_cache n)) then dec_zero else dec_Mul (dec_NewFromInt (tc_cache n)) (dec_NewFromFloat (pd_CacheRatio p)).
Definition writes (n : token_counts) : bool := negb (dec_IsZero (dec_NewFromInt (tc_creation n))) || ((0 <? tc_5m n) || (0 <? tc_1h n)).
Definition written_with_ratio (p : PriceData) (n : token_counts) (apart : bool) : D :=
  if writes n then
    if negb apart then dec_Mul (dec_NewFromInt (tc_creation n)) (dec_NewFromFloat (pd_CacheCreationRatio p))
    else
      let remaining := i64 (i64 (tc_creation n - tc_5m n) - tc_1h n) in
      let remaining := if remaining <? 0 then 0 else remaining in
      dec_Add (dec_Add (dec_Mul (dec_NewFromInt remaining) (dec_NewFromFloat (pd_CacheCreationRatio p)))
        (dec_Mul (dec_NewFromInt (tc_5m n)) (dec_NewFromFloat (pd_CacheCreation5mRatio p))))
        (dec_Mul (dec_NewFromInt (tc_1h n)) (dec_NewFromFloat (pd_CacheCreation1hRatio p)))
  else dec_zero.
Definition image_with_ratio (p : PriceData) (n : token_counts) : D :=
  if dec_IsZero (dec_NewFromInt (tc_image n)) then dec_zero else dec_Mul (dec_NewFromInt (tc_image n)) (dec_NewFromFloat (pd_ImageRatio p)).

(** Whether audio input has a price of its own. *)
Definition audio_priced (n : token_counts) (modelName : string) : bool :=
  negb (dec_IsZero (dec_NewFromInt (tc_audio n))) && SFltb fzero (GetGeminiInputAudioPricePerMillionTokens modelName).
Definition audio_quota (o : text_options) (p : PriceData) (n : token_counts) (modelName : string) : D :=
  if audio_priced n modelName then
    dec_Mul (dec_Mul (dec_Mul (dec_Div (dec_NewFromFloat (GetGeminiInputAudioPricePerMillionTokens modelName)) (dec_NewFromInt 1000000))
      (dec_NewFromInt (tc_audio n))) (dec_NewFromFloat (pd_ChannelRatio p))) (dec_NewFromFloat (to_QuotaPerUnit o))
  else dec_zero.

(** The prompt tokens billed at the plain price.  [apart]: the provider does
    not count cached tokens as prompt tokens. *)
Definition base_tokens (n : token_counts) (apart : bool) (modelName : string) : D :=
  let base := dec_NewFromInt (tc_prompt n) in
  let base := if dec_IsZero (dec_NewFromInt (tc_cache n)) || apart then base else dec_Sub base (dec_NewFromInt (tc_cache n)) in
  let base := if writes n && negb apart then dec_Sub base (dec_NewFromInt (tc_creation n)) else base in
  let base := if dec_IsZero (dec_NewFromInt (tc_image n)) then base else dec_Sub base (dec_NewFromInt (tc_image n)) in
  let base := if audio_priced n modelName then dec_Sub base (dec_NewFromInt (tc_audio n)) else base in
  if dec_IsNegative base then dec_zero else base.

Definition ratio_of_price (p : PriceData) : D := dec_Mul (dec_NewFromFloat (pd_ModelRatio p)) (dec_NewFromFloat (pd_ChannelRatio p)).

Definition token_decimal (o : text_options) (p : PriceData) (n : token_counts) (apart : bool) (modelName : string) (surcharge : D) : D :=
  let promptQuota := dec_Add (dec_Add (dec_Add (base_tokens n apart modelName) (cached_with_ratio p n)) (image_with_ratio p n)) (written_with_ratio p n apart) in
  let completionQuota := dec_Mul (dec_NewFromInt (tc_completion n)) (dec_NewFromFloat (pd_CompletionRatio p)) in
  let quota := dec_Add (dec_Mul (dec_Add promptQuota completionQuota) (ratio_of_price p)) (audio_quota o p n modelName) in
  let quota := dec_Add (ApplyOtherRatiosToDecimal p quota) surcharge in
  if negb (dec_IsZero (ratio_of_price p)) && dec_LessThanOrEqual quota dec_zero then dec_NewFromInt 1 else quota.
Definition call_decimal (o : text_options) (p : PriceData) (surcharge : D) : D :=
  let quota := dec_Mul (dec_Mul (dec_NewFromFloat (pd_ModelPrice p)) (dec_NewFromFloat (to_QuotaPerUnit o))) (dec_NewFromFloat (pd_ChannelRatio p)) in
  dec_Add (ApplyOtherRatiosToDecimal p (dec_Add quota dec_zero)) surcharge.

(** [calculateTextQuotaSummary], with the clamp it notes. *)
Definition calculateTextQuotaSummary {RI} (o : text_options) (wild : float64 → Z) (t : text_request RI) (modelName : string) (usage : option usage_core)
    : textQuotaSummary * option QuotaClamp :=
  let p := tr_PriceData t in
  let isClaude := bool_decide (usageSemanticFromUsage t usage = "anthropic") in
  let u := default (plain_usage (tr_EstimatePromptTokens t) 0 (tr_EstimatePromptTokens t)) usage in
  let d := us_PromptTokensDetails u in
  let total := i64 (us_PromptTokens u + us_CompletionTokens u) in
  let legacyClaudeDerived := isLegacyClaudeDerivedOpenAIUsage t u in
  let '(prompt, creation) :=
    if bool_decide (tr_ChannelType t = Some ChannelTypeOpenRouter) && isClaude
    then openrouter_tokens o wild p u modelName (us_PromptTokens u) (in_CachedTokens d) (CacheCreationTokensTotal d)
    else (us_PromptTokens u, CacheCreationTokensTotal d) in
  let n := MkCounts prompt (us_CompletionTokens u) (in_CachedTokens d) creation (us_ClaudeCacheCreation5mTokens u) (us_ClaudeCacheCreation1hTokens u)
    (in_ImageTokens d) (in_AudioTokens d) in
  let '(items, surcharge) := calculateTextToolCallSurcharge o t modelName (pd_ChannelRatio p) in
  let decimal := if negb (pd_UsePrice p) then token_decimal o p n (isClaude || legacyClaudeDerived) modelName surcharge else call_decimal o p surcharge in
  let '(quota, clamp) := QuotaFromDecimalChecked decimal in
  let s := MkSummary prompt (us_CompletionTokens u) total (in_CachedTokens d) creation (us_ClaudeCacheCreation5mTokens u) (us_ClaudeCacheCreation1hTokens u)
    (in_ImageTokens d) (in_AudioTokens d) modelName quota isClaude items surcharge in
  let final := if negb (hasBillableUsage s) then 0 else if negb (dec_IsZero (ratio_of_price p)) && (quota =? 0) then 1 else quota in
  (MkSummary prompt (us_CompletionTokens u) total (in_CachedTokens d) creation (us_ClaudeCacheCreation5mTokens u) (us_ClaudeCacheCreation1hTokens u)
    (in_ImageTokens d) (in_AudioTokens d) modelName final isClaude items surcharge, clamp).

(** ** Tiered prices *)

(** [usedVars["cr"]] and the others. *)
Definition BuildTieredTokenParams (u : usage_core) (isClaudeUsageSemantic : bool) (usedVars : string → bool) : TokenParams :=
  let d := us_PromptTokensDetails u in
  let p := float_of_int (us_PromptTokens u) in
  let c := float_of_int (us_CompletionTokens u) in
  let cr := float_of_int (in_CachedTokens d) in
  let anthropic := bool_decide (us_UsageSemantic u = "anthropic") in
  let cc5m := float_of_int (if anthropic then us_ClaudeCacheCreation5mTokens u else CacheCreationTokensTotal d) in
  let cc1h := if anthropic then float_of_int (us_ClaudeCacheCreation1hTokens u) else fzero in
  let img := float_of_int (in_ImageTokens d) in
  let ai := float_of_int (in_AudioTokens d) in
  let imgO := float_of_int (out_ImageTokens (us_CompletionTokenDetails u)) in
  let ao := float_of_int (out_AudioTokens (us_CompletionTokenDetails u)) in
  let inputLen := if isClaudeUsageSemantic then fadd (fadd (fadd p cr) cc5m) cc1h else p in
  let less (used : string) (x y : float64) := if negb isClaudeUsageSemantic && usedVars used then fsub x y else x in
  let p := less "ai" (less "img" (less "cc1h" (less "cc" (less "cr" p cr) cc5m) cc1h) img) ai in
  let c := less "ao" (less "img_o" c imgO) ao in
  MkTokenParams (if SFltb p fzero then fzero else p) (if SFltb c fzero then fzero else c) inputLen cr cc5m cc1h img imgO ai ao.

Record TieredResult := MkTiered { ti_ActualQuotaBeforeGroup : float64; ti_ActualQuotaAfterGroup : Z; ti_CrossedTier : bool; ti_Clamp : option QuotaClamp }.
Definition quotaConversion (exprOutput : float64) (snap : BillingSnapshot) : float64 :=
  fmul (fdiv exprOutput (float_of_int 1000000)) (sn_QuotaPerUnit snap).

Context {RI : Type} (o : text_options) (wild : float64 → Z).
(** The interpreter, the variables an expression uses, and the request an
    expression sees when none was kept. *)
Context (run_expr : string → TokenParams → RI → res (float64 * string)) (used_vars : string → string → bool) (no_request : RI).

Definition ComputeTieredQuotaWithRequest (snap : BillingSnapshot) (params : TokenParams) (request : RI) : res TieredResult :=
  match run_expr (sn_ExprString snap) params request with
  | Err e => Err e
  | Ok (cost, matchedTier) =>
      let quotaBeforeGroup := quotaConversion cost snap in
      let '(afterGroup, clamp) := QuotaRoundChecked (fmul quotaBeforeGroup (sn_GroupRatio snap)) in
      Ok (MkTiered quotaBeforeGroup afterGroup (negb (bool_decide (matchedTier = sn_EstimatedTier snap))) clamp)
  end.

(** The quota and the result, if the price is tiered. *)
Definition TryTieredSettle (t : text_request RI) (finalPreConsumed : Z) (params : TokenParams) : option (Z * option TieredResult) :=
  match tr_TieredBillingSnapshot t with
  | Some snap =>
      if negb (bool_decide (sn_BillingMode snap = BillingModeTieredExpr)) then None
      else match ComputeTieredQuotaWithRequest snap params (default no_request (tr_BillingRequestInput t)) with
        | Err e => Some (if finalPreConsumed <=? 0 then sn_EstimatedQuotaAfterGroup snap else finalPreConsumed, None)
        | Ok tr => Some (ti_ActualQuotaAfterGroup tr, Some tr)
        end
  | None => None
  end.

Definition composeTieredTextQuota (t : text_request RI) (s : textQuotaSummary) (tieredQuota : Z) (tieredResult : option TieredResult) : Z * option QuotaClamp :=
  if dec_IsZero (sm_ToolCallSurchargeQuota s) then (tieredQuota, None)
  else match tieredResult, tr_TieredBillingSnapshot t with
    | Some tr, Some snap =>
        QuotaFromDecimalChecked (dec_Add (dec_Mul (dec_NewFromFloat (ti_ActualQuotaBeforeGroup tr)) (dec_NewFromFloat (sn_GroupRatio snap))) (sm_ToolCallSurchargeQuota s))
    | _, _ => QuotaFromDecimalChecked (dec_Add (dec_NewFromInt tieredQuota) (sm_ToolCallSurchargeQuota s))
    end.

(** ** Charging *)

(** The first clamp is kept, for the consumption log. *)
Definition noteQuotaClamp (clamp : option QuotaClamp) : M renv unit :=
  match clamp with
  | None => mret tt
  | Some c => modify (λ e, e <| re_info ::= (λ i, match ri_QuotaClamp i with
      | None => i <| ri_QuotaClamp := Some (ErrNew ("quota conversion (" +:+ Op c +:+ ")")) |> | Some _ => i end) |>)
  end.

Definition tiered_quota (t : text_request RI) (usage : usage_core) (s : textQuotaSummary) : M renv Z :=
  info ← gets re_info;
  let vars := match tr_TieredBillingSnapshot t with Some snap => used_vars (sn_ExprString snap) | None => λ _, false end in
  match TryTieredSettle t (ri_FinalPreConsumedQuota info) (BuildTieredTokenParams usage (sm_IsClaudeUsageSemantic s) vars) with
  | None => mret (sm_Quota s)
  | Some (tieredQuota, tieredRes) =>
      noteQuotaClamp (tieredRes ≫= ti_Clamp);;
      let '(quota, clamp) := composeTieredTextQuota t s tieredQuota tieredRes in
      noteQuotaClamp clamp;;
      mret quota
  end.

(** The quota that is charged. *)
Definition PostTextConsumeQuota (t : text_request RI) (usage : option Usage) : M renv Z :=
  info ← gets re_info;
  let billingUsage := effectiveBillingUsage <$> usage in
  let '(s, clamp) := calculateTextQuotaSummary o wild t (BillingModelName info) billingUsage in
  noteQuotaClamp clamp;;
  quota ← match billingUsage with None => mret (sm_Quota s) | Some u => tiered_quota t u s end;
  (if hasBillableUsage s then
     of_world (UpdateUserUsedQuotaAndRequestCount (ri_UserId info) quota);;
     of_world (UpdateChannelUsedQuota (tr_ChannelId t) quota)
   else mret tt);;
  _ ← try (SettleBilling quota);
  mret quota.
End decimals.
