(* ===== verification/SessionExact.v ===== *)
(** * What a billing session charges

    The session of BillingSession over the rows of BillingRecovery: a
    wallet-funded request that is pre-consumed and settled pays exactly its
    actual quota, whatever calls fail on the way and however often they are
    retried; a refund gives back exactly what was reserved. *)

From S2P Require Import GoStrings.
From S2P Require Import Prelude QuotaMath Store Calendar QuotaBatch QuotaReserve Subscription BillingRecovery.
From S2P Require Import BillingLedger BillingMachine RequestProgress BillingSession.
#[local] Open Scope Z_scope.

(** ** Settling *)

Section settle.
Context (rid : string) (delta pre actual : Z) (w0 : world) (r0 : BillingRecovery).
Context (Hrid : rid ≠ EmptyString) (Hdelta : negatable delta) (Hactual : i64 (actual - pre) = delta).
Context (Hr0 : billing_recoveries (w_db w0) !! rid = Some r0) (Hwallet : br_Source r0 = SourceWallet).
Context (Hfresh : ∀ c o, o ≠ OperationReserve → adjustments (w_db w0) !! (rid, c, o) = None).
Abbreviation progress := (progress rid delta w0 r0).

Definition at_session (settled : bool) (e : senv) : Prop :=
  bs_recoveryID (se_session e) = rid ∧ bs_preConsumedQuota (se_session e) = pre ∧ bs_settled (se_session e) = settled ∧
  Source (bs_funding (se_session e)) = SourceWallet.

(** Not settled yet, and settled. *)
Definition charging (w : world) : Prop := ∃ r, progress w r ∧ ¬ refunding (br_Status r).
Definition unsettled (e : senv) : Prop := at_session false e ∧ charging (se_world e).
Definition settled (e : senv) : Prop :=
  at_session true e ∧ ∃ r, progress (se_world e) r ∧ br_Status r = StatusSettled.

Lemma on_world_unsettled {A} (m : M world A) :
  (∀ w r res w', progress w r → ¬ refunding (br_Status r) → m w = (res, w') → charging w') →
  Triple unsettled (on_world m) (λ _, unsettled).
Proof.
  intros Hm e [Hs (r & P & Hst)]. unfold on_world. destruct (m (se_world e)) as [res w'] eqn:E. cbn.
  split; [done|]. by eapply Hm.
Qed.

Lemma settle_component_unsettled c : Triple unsettled (settle_component rid c) (λ _, unsettled).
Proof.
  apply on_world_unsettled. intros w r res w' P Hst H.
  destruct (adjust_step rid delta w0 r0 Hdelta w r c OperationSettle res w' (or_introl eq_refl) P H) as (r' & ? & E & _).
  exists r'. by rewrite E.
Qed.

Lemma mark_settled_at b :
  Triple (λ e, at_session b e ∧ charging (se_world e)) (on_world (MarkBillingRecoverySettled rid))
    (λ res e, at_session b e ∧ ∃ r, progress (se_world e) r ∧ ¬ refunding (br_Status r) ∧
       (is_ok res = true → br_Status r = StatusSettled)).
Proof.
  intros e [Hs (r & P & Hnr)]. unfold on_world. destruct (MarkBillingRecoverySettled rid (se_world e)) as [res w'] eqn:E. cbn.
  destruct (settled_step rid delta w0 r0 Hdelta _ r res w' P E) as (r' & P' & _ & Hs' & Hst). split; [done|].
  exists r'. split_and!; try done. destruct Hs' as [-> | ->]; [done|]. by intros [|].
Qed.

Lemma finish_settle_settles :
  Triple unsettled finish_settle (λ res e, match res with Ok _ => settled e | Err _ => unsettled e end).
Proof.
  unfold finish_settle. apply triple_gets. intros e [(-> & _) _].
  eapply triple_bind with (R := λ res e, match res with Ok _ => at_session true e ∧ charging (se_world e) | _ => unsettled e end);
    [|intros _|done].
  { intros [w i s] [(E1 & E2 & E3 & E4) Hp]. done. }
  eapply triple_bind with (R := λ res e, match res with Ok _ => settled e | Err _ => unsettled e end); [|intros _|done].
  2: { intros [w i s] [H Hp]. unfold stopRecoveryHeartbeat, on_session, modify. split; [|done].
       unfold at_session. cbn. by destruct (bs_heartbeat s). }
  destruct (decide (rid = EmptyString)); [done|].
  eapply triple_bind_try; [apply mark_settled_at|intros [x|err]]; cbn.
  - apply triple_ret. intros e' (H & r & P & _ & Hst). split; [done|]. eauto.
  - eapply triple_bind with (R := λ _, unsettled); [|intros _; by apply triple_fail|done].
    intros [w i s] ((? & ? & _ & ?) & r & P & Hnr & _). split; [done|by exists r].
Qed.

Lemma settle_token_unsettled : Triple unsettled (settle_token delta) (λ _, unsettled).
Proof.
  unfold settle_token. apply triple_gets. intros e [(-> & _) _]. apply triple_gets. intros ? _.
  destruct (decide _); [|done]. unfold ignore.
  eapply triple_bind_try; [apply settle_component_unsettled|intros a; by apply triple_ret].
Qed.

Lemma Settle_settles :
  Triple unsettled (Settle actual) (λ res e, match res with Ok _ => settled e | Err _ => unsettled e end).
Proof.
  unfold Settle. apply triple_gets. intros e [(-> & -> & -> & ->) _]. rewrite bool_decide_false by done. cbn [negb].
  rewrite Hactual. eapply triple_bind with (R := λ _, unsettled); [|intros _|done].
  { apply on_world_unsettled. intros w r res w' P Hst H.
    destruct (settlement_step rid delta w0 r0 Hdelta w r res w' P H) as (r' & ? & _ & Hs & _).
    exists r'. split; [done|]. destruct Hs as [-> |[_ ->]]; [done|]. by intros [|]. }
  destruct (delta =? 0).
  - eapply triple_bind with (R := λ _, unsettled); [|intros _; apply finish_settle_settles|done].
    eapply triple_bind; [apply settle_component_unsettled|intros ?; apply settle_component_unsettled|done].
  - eapply triple_bind with (R := λ _, unsettled); [|intros _|done].
    { destruct (bs_fundingSettled _); [by apply triple_ret|].
      eapply triple_bind; [apply settle_component_unsettled|intros ?|done]. by intros [w i s] H. }
    eapply triple_bind; [apply settle_token_unsettled|intros ?|done].
    eapply triple_bind with (R := λ _, unsettled); [by apply triple_ret|intros _; apply finish_settle_settles|done].
Qed.

Lemma retry_settles n :
  Triple unsettled (retry n (Settle actual)) (λ res e, match res with Ok _ => settled e | Err _ => unsettled e end).
Proof.
  induction n as [|n IH]; [apply Settle_settles|]. cbn [retry].
  eapply triple_bind_try; [apply Settle_settles|intros [x|err]; [by apply triple_ret|exact IH]].
Qed.

(** Where the settlement has left the balances: each of the wallet and the
    token is charged [delta], or not yet. *)
Lemma charging_balances w r :
  progress w r → ¬ refunding (br_Status r) →
  (∀ u, wallet_balance w u = wallet_balance w0 u -
     (if decide (u = br_UserID r0) then marker_amount (w_db w) rid ComponentFunding OperationSettle else 0)) ∧
  (∀ t, 0 < t → token_balance w t = token_balance w0 t -
     (if decide (t = br_TokenID r0) then marker_amount (w_db w) rid ComponentToken OperationSettle else 0)).
Proof.
  intros P Hst. destruct (progress_balances rid delta w0 r0 Hr0 Hwallet Hfresh _ r P) as [B1 B2].
  assert (∀ c, marker_amount (w_db w) rid c OperationRefund = 0) as Hz.
  { intros c. apply unmarked_amount. by intros H%(pg_refunding _ _ _ _ _ _ P). }
  rewrite Hz in B1, B2.
  split; intros; [rewrite B1|rewrite B2 by done]; destruct (decide _); lia.
Qed.

Lemma settle_marker w r c :
  progress w r → marker_amount (w_db w) rid c OperationSettle = 0 ∨ marker_amount (w_db w) rid c OperationSettle = delta.
Proof.
  intros P. unfold marker_amount. destruct (adjustments _ !! _) as [a|] eqn:E; [right|by left].
  exact (pg_settle _ _ _ _ _ _ P _ _ E).
Qed.

Lemma settled_markers w r :
  progress w r → br_Status r = StatusSettled →
  marker_amount (w_db w) rid ComponentFunding OperationSettle = delta ∧
  marker_amount (w_db w) rid ComponentToken OperationSettle = delta.
Proof.
  intros P Hst. pose proof (pg_settled _ _ _ _ _ _ P Hst) as Hc. unfold BillingRecoverySettlementComplete in Hc.
  rewrite andb_true_iff, !bool_decide_eq_true in Hc. destruct Hc as [S1 S2].
  destruct (pg_columns _ _ _ _ _ _ P) as (_ & _ & P3 & P4). destruct (P3 S1) as [a1 Ha1], (P4 S2) as [a2 Ha2].
  unfold marker_amount. rewrite Ha1, Ha2. split; [by apply P in Ha1|by apply P in Ha2].
Qed.
End settle.

(** ** Reserving *)

(** What a call did to the rows and markers, as one rewritten row. *)
Definition rewrites (rid : string) (d d' : db) (r : BillingRecovery) : Prop :=
  billing_recoveries d' = <[rid := r]> (billing_recoveries d) ∧ adjustments d' = adjustments d.

Lemma rewrites_trans rid d d1 d2 r1 r2 : rewrites rid d d1 r1 → rewrites rid d1 d2 r2 → rewrites rid d d2 r2.
Proof. intros [E1 E2] [E3 E4]. split; [by rewrite E3, E1, insert_insert_eq|congruence]. Qed.
Lemma rewrites_row rid d d' r : rewrites rid d d' r → billing_recoveries d' !! rid = Some r.
Proof. intros [-> _]. apply lookup_insert_eq. Qed.

(** A request id that has no row gets a fresh one. *)
Lemma ensure_fresh input w x w' :
  EnsureBillingRecovery input w = (Ok x, w') → billing_recoveries (w_db w) !! in_RequestID input = None →
  ∃ now, rewrites (in_RequestID input) (w_db w) (w_db w') (BeforeCreate now input).
Proof.
  unfold EnsureBillingRecovery. do 4 (match goal with |- (if ?b then _ else _) _ = _ → _ => destruct b eqn:? end; [done|]).
  intros H Hnone. unfold mbind at 1, M_bind at 1 in H. unfold try at 1 in H.
  destruct (transaction (λ _, FIRST billing_recoveries (in_RequestID input)) w) as [r1 w1] eqn:E1.
  pose proof (transaction_read _ _ _ _ _ E1) as [Ed1 _]. apply transaction_inv in E1 as [_ E1].
  destruct r1 as [row|e]; [apply FIRST_inv in E1 as [? _]; congruence|].
  destruct (negb (error_is e ErrRecordNotFound)); [done|].
  unfold mbind at 1, M_bind at 1 in H. unfold try at 1 in H. destruct (transaction _ w1) as [r2 w2] eqn:E2.
  apply transaction_inv in E2 as [_ E2]. destruct r2 as [row|e2].
  - injection H as _ <-. mstep E2. apply CREATE_inv in Hs as [_ ->]. injection E2 as _ E2.
    exists (w_now w1). split; rewrite <- E2, <- Ed1; done.
  - unfold mbind at 1, M_bind at 1 in H. unfold try at 1 in H.
    destruct (transaction (λ _, FIRST billing_recoveries (in_RequestID input)) w2) as [r3 w3] eqn:E3.
    apply transaction_inv in E3 as [_ E3]. destruct r3 as [row|e3]; [|done]. apply FIRST_inv in E3 as [? _]. congruence.
Qed.

(** The row of a committed wallet reservation. *)
Definition reserved_row (quota now : Z) (r : BillingRecovery) : BillingRecovery :=
  r <| br_FundingAmount := quota |> <| br_TokenAmount := if br_TokenRequired r then quota else 0 |>
    <| br_PreConsumeState := PreConsumeCommitted |> <| br_UpdatedAt := now |>.

Lemma preConsumeWalletTx_fresh rid q unl now d x d' r :
  preConsumeWalletTx rid q unl now d = (Ok x, d') → billing_recoveries d !! rid = Some r →
  br_PreConsumeState r = PreConsumePrepared → rewrites rid d d' (reserved_row q now r).
Proof.
  intros H Hr Hp. unfold preConsumeWalletTx in H. mstep H. apply FIRST_inv in Hs as [Hr' ->].
  assert (x0 = r) as -> by congruence. destruct (_ || _); [done|]. rewrite decide_False in H by congruence.
  mstep H. apply (if_charge_token _ _ _ _ _ _ _ _ 0), ch_books in Hs.
  mstep H. assert (same_books d0 d1) as Hu.
  { destruct (0 <? q); [|mret Hs0; done]. destruct x1. by apply (charge_user _ _ _ _ _ _ 0), ch_books in Hs0. }
  destruct Hs as [B1 B2], Hu as [B3 B4]. mstep H. injection H as _ <-. apply (UPDATE_row _ r) in Hs as ->; [|by rewrite B3, B1].
  split; cbn; [by rewrite B3, B1|by rewrite B4, B2].
Qed.

Lemma preconsume_fresh rid q unl w x w' r :
  PreConsumeWalletBillingRecovery rid q unl w = (Ok x, w') → billing_recoveries (w_db w) !! rid = Some r →
  br_PreConsumeState r = PreConsumePrepared →
  ∃ now, rewrites rid (w_db w) (w_db w') (reserved_row q now r).
Proof.
  unfold PreConsumeWalletBillingRecovery. destruct (_ || _); [done|]. intros H Hr Hp. destruct (0 <? q).
  - apply mutation_ok in H as (now & d & [B1 B2] & H). exists now.
    rewrite <- B1 in Hr. apply (preConsumeWalletTx_fresh _ _ _ _ _ _ _ r) in H as [E1 E2]; [|done|done].
    split; congruence.
  - apply transaction_inv in H as [_ H]. exists (w_now w). by eapply preConsumeWalletTx_fresh.
Qed.

Lemma sync_rewrites rid s f e t w x w' r :
  UpdateBillingRecoveryAmounts rid s f e t w = (Ok x, w') → billing_recoveries (w_db w) !! rid = Some r →
  ∃ now, br_Status r = StatusActive ∧ rewrites rid (w_db w) (w_db w')
    (r <| br_SubscriptionID := s |> <| br_FundingAmount := f |> <| br_ExtraAmount := e |> <| br_TokenAmount := t |>
       <| br_PreConsumeState := PreConsumeCommitted |> <| br_UpdatedAt := now |>).
Proof.
  unfold UpdateBillingRecoveryAmounts. destruct (blank rid); [done|]. destruct (_ || _); [done|].
  intros (row & Hr' & H)%row_tx Hr. assert (row = r) as -> by congruence.
  destruct (bool_decide_reflect (br_Status r = StatusActive)) as [Hst|]; cbn in H; [|done].
  mstep H. apply UPDATE_inv in Hs as [(row0 & Hr0 & _ & -> & ->)|[-> ->]]; [|done].
  assert (row0 = r) as -> by congruence. exists (w_now w). split; [done|].
  cbn in H. injection H as _ <-. done.
Qed.

(** A request reserved between [w] and [w']: [q] of the wallet of [u], [qt] of
    the token [t], and nothing of anybody else. *)
Record reserved (w w' : world) (rid : string) (r : BillingRecovery) (u t q qt : Z) : Prop := {
  rv_ok : ledger_ok (w_db w');
  rv_amounts : amounts_ok (w_db w');
  rv_row : billing_recoveries (w_db w') !! rid = Some r;
  rv_status : br_Status r = StatusActive;
  rv_columns : columns_pending r;
  rv_source : br_Source r = SourceWallet;
  rv_user : br_UserID r = u;
  rv_token : br_TokenID r = t;
  rv_funding : br_FundingAmount r = q;
  rv_token_amount : br_TokenAmount r = qt;
  rv_extra : br_ExtraAmount r = 0;
  rv_fresh : ∀ c o, adjustments (w_db w') !! (rid, c, o) = None;
  rv_wallets : ∀ v, wallet_balance w' v = wallet_balance w v - (if decide (v = u) then q else 0);
  rv_tokens : ∀ v, 0 < v → token_balance w' v = token_balance w v - (if decide (v = t) then qt else 0)
}.

Lemma ledger_fresh d rid c o : ledger_ok d → billing_recoveries d !! rid = None → adjustments d !! (rid, c, o) = None.
Proof. intros [_ Hdom] Hn. apply eq_None_not_Some. intros [r Hr]%Hdom. congruence. Qed.

(** A fresh row adds what it holds to the totals. *)
Lemma fresh_row_held d d' rid r :
  ledger_ok d → billing_recoveries d !! rid = None → rewrites rid d d' r →
  (∀ u, wallet_held d' u = wallet_held d u + (if decide (br_Source r ≠ SourceSubscription ∧ br_UserID r = u) then br_FundingAmount r else 0)) ∧
  (∀ t, token_held d' t = token_held d t + (if decide (br_TokenID r = t) then br_TokenAmount r else 0)).
Proof.
  intros Hok Hn [Er Ea]. assert (∀ k c o, marker_amount d' k c o = marker_amount d k c o) as Hm
    by (intros; unfold marker_amount; by rewrite Ea).
  assert (∀ c o, marker_amount d rid c o = 0) as Hz
    by (intros c o; unfold marker_amount; by rewrite (ledger_fresh d rid c o)).
  split; intros v; unfold wallet_held, token_held; rewrite Er, map_sum_insert_new by done.
  - rewrite (map_sum_ext (wallet_share d' v) (wallet_share d v)) by (intros; unfold wallet_share, held_funding; by rewrite !Hm).
    unfold wallet_share, held_funding. rewrite !Hm, !Hz. case_decide; lia.
  - rewrite (map_sum_ext (token_share d' v) (token_share d v)) by (intros; unfold token_share, held_token; by rewrite !Hm).
    unfold token_share, held_token. rewrite !Hm, !Hz. case_decide; lia.
Qed.

(** Ensuring, charging and declaring a fresh wallet request reserves it. *)
Lemma open_reserves rid u t req q unl sub qt w row w1 w2 w3 :
  ledger_ok (w_db w) → amounts_ok (w_db w) → billing_recoveries (w_db w) !! rid = None →
  0 <= q <= MaxQuota → (0 < t → qt = if req : bool then q else 0) → negatable qt →
  EnsureBillingRecovery (MkInput rid u t SourceWallet 0 0 req) w = (Ok row, w1) →
  PreConsumeWalletBillingRecovery rid q unl w1 = (Ok tt, w2) →
  UpdateBillingRecoveryAmounts rid sub q 0 qt w2 = (Ok tt, w3) →
  ∃ r, reserved w w3 rid r u t q qt.
Proof.
  intros Hok Ham Hnone Hq Hqt Hneg H1 H2 H3. set (input := MkInput rid u t SourceWallet 0 0 req) in *.
  destruct (Ensure_ledgered input w (Ok row) w1 (conj eq_refl eq_refl) Hok H1) as [Hok1 S1].
  destruct (ensure_fresh input w row w1 H1 Hnone) as [n1 R1]. cbn [in_RequestID input] in R1.
  destruct (preconsume_ledgered rid q unl w1 _ w2 Hok1 H2) as [Hok2 S2].
  destruct (preconsume_fresh rid q unl w1 _ w2 _ H2 (rewrites_row _ _ _ _ R1) eq_refl) as [n2 R2].
  destruct (sync_moves rid sub q 0 qt w2 _ w3 Hok2 H3) as [Hok3 S3].
  destruct (sync_rewrites rid sub q 0 qt w2 _ w3 _ H3 (rewrites_row _ _ _ _ R2)) as (n3 & _ & R3).
  match type of R3 with rewrites _ _ _ ?row3 => set (r := row3) in * end. exists r.
  pose proof (rewrites_trans _ _ _ _ _ _ (rewrites_trans _ _ _ _ _ _ R1 R2) R3) as R.
  destruct (fresh_row_held _ _ _ _ Hok Hnone R) as [Hw Ht].
  destruct S1 as [S1w S1t], S2 as [S2w S2t], S3 as [S3w S3t]. unfold declared_wallet, declared_token in S3w, S3t.
  cbn [declares] in S3w, S3t. rewrite (rewrites_row _ _ _ _ R2), (rewrites_row _ _ _ _ R3) in S3w, S3t. cbn in S3w, S3t.
  unfold wallet_sum, token_sum in *. cbn in Hw, Ht.
  constructor; try done.
  - eapply amounts_ok_change; [apply R| |done]. intros c o. unfold negatable, min_i64, max_i64, MaxQuota in *. destruct c, o; cbn; lia.
  - by eapply rewrites_row.
  - intros c o. rewrite (proj2 R). by apply ledger_fresh.
  - intros v. specialize (S1w v). specialize (S2w v). specialize (S3w v). specialize (Hw v). cbn in Hw.
    repeat case_decide; naive_solver lia.
  - intros v Hv. specialize (S1t v Hv). specialize (S2t v Hv). specialize (S3t v Hv). specialize (Ht v). cbn in Ht.
    repeat case_decide; naive_solver lia.
Qed.

(** The session that [NewBillingSession] returns for a wallet request. *)
Record opened (s : BillingSession) (rid : string) (u q qt : Z) : Prop := {
  op_funding : bs_funding s = WalletFunding u q;
  op_rid : bs_recoveryID s = rid;
  op_pre : bs_preConsumedQuota s = q;
  op_token : bs_tokenConsumed s = qt;
  op_extra : bs_extraReserved s = 0;
  op_flags : bs_settled s = false ∧ bs_refunded s = false ∧ bs_fundingSettled s = false ∧ bs_fundingRefunded s = false ∧
    bs_tokenRefunded s = false ∧ bs_refundInProgress s = false
}.

(** The quota that is charged: none when the request is trusted. *)
Definition effective_quota (su : surroundings) (info : RelayInfo) (quota : Z) : Z :=
  if shouldTrust su info (new_session (WalletFunding (ri_UserId info) 0) (ri_RequestId info)) then 0 else quota.

Lemma bind_try_inv {S A B} (m : M S A) (k : res A → M S B) s b s' :
  (try m ≫= k) s = (Ok b, s') → ∃ r s1, m s = (r, s1) ∧ k r s1 = (Ok b, s').
Proof. unfold try, mbind, M_bind. destruct (m s) as [r s1]. eauto. Qed.

Lemma bind_gets {S A B} (f : S → A) (k : A → M S B) s : (gets f ≫= k) s = k (f s) s.
Proof. done. Qed.
Lemma bind_on_session {B} f (k : M senv B) e : (on_session f;; k) e = k (e <| se_session ::= f |>).
Proof. done. Qed.
Lemma bind_on_info {B} f (k : M senv B) e : (on_info f;; k) e = k (e <| se_info ::= f |>).
Proof. done. Qed.

Lemma on_world_inv {A} (m : M world A) e r e' :
  on_world m e = (r, e') → ∃ w', m (se_world e) = (r, w') ∧ e' = e <| se_world := w' |>.
Proof. unfold on_world. destruct (m (se_world e)) as [r1 w1]. intros [= <- <-]. eauto. Qed.

Lemma preConsume_inv su q w i e' :
  let u := ri_UserId i in let rid := ri_RequestId i in let eff := effective_quota su i q in
  rid ≠ EmptyString →
  preConsume su q (MkSenv w i (new_session (WalletFunding u 0) rid)) = (Ok tt, e') →
  PreConsumeWalletBillingRecovery rid eff (ri_TokenUnlimited i) w = (Ok tt, se_world e') ∧
  opened (se_session e') rid u eff (if ri_IsPlayground i then 0 else eff) ∧ bs_heartbeat (se_session e') = HeartbeatNone ∧
  ri_IsPlayground (se_info e') = ri_IsPlayground i.
Proof.
  cbv zeta. unfold effective_quota. set (s0 := new_session _ _). intros Hrid H. unfold preConsume in H.
  unfold gets in H. unfold mbind at 1 2, M_bind at 1 2 in H. cbn [se_session se_info] in H.
  set (tr := shouldTrust su i s0) in *. set (eff := if tr then 0 else q) in *.
  rewrite bool_decide_false in H by done. cbn [negb andb] in H. rewrite bool_decide_true in H by done.
  apply bind_inv in H as (x & e1 & He1 & H).
  assert (∃ b, e1 = MkSenv w i (s0 <| bs_trusted := b |>)) as [b ->].
  { destruct tr; injection He1 as _ <-; [by exists true|by exists false]. }
  clear He1. unfold preConsume_wallet, gets in H. unfold mbind at 1 2, M_bind at 1 2 in H.
  cbn [se_session se_info] in H. apply bind_try_inv in H as (r & e2 & (w' & Hp & ->)%on_world_inv & H).
  destruct r as [[]|err]; [|destruct (error_is err _); [done|]; destruct (_ || _); [|done];
    unfold insufficient_wallet in H; by apply bind_try_inv in H as (? & ? & _ & ?)].
  injection H as <-. cbn in *. split; [done|]. split; [|done]. by destruct (ri_IsPlayground i).
Qed.

Lemma open_session_inv su q w i e' :
  let u := ri_UserId i in let rid := ri_RequestId i in let eff := effective_quota su i q in
  let tok := if ri_IsPlayground i then 0 else eff in
  rid ≠ EmptyString →
  open_session su q (MkSenv w i (new_session (WalletFunding u 0) rid)) = (Ok tt, e') →
  ∃ row w1 w2 sub, 
    EnsureBillingRecovery (MkInput rid u (ri_TokenId i) SourceWallet 0 0 (negb (ri_IsPlayground i) && (0 <? ri_TokenId i))) w = (Ok row, w1) ∧
    PreConsumeWalletBillingRecovery rid eff (ri_TokenUnlimited i) w1 = (Ok tt, w2) ∧
    UpdateBillingRecoveryAmounts rid sub eff 0 tok w2 = (Ok tt, se_world e') ∧
    opened (se_session e') rid u eff tok.
Proof.
  cbv zeta. intros Hrid H. unfold open_session in H.
  apply bind_inv in H as (s0 & e0 & [= <- <-] & H).
  apply bind_try_inv in H as (r1 & e1 & H1 & H).
  unfold ensureBillingRecovery in H1. unfold gets, mbind at 1 2, M_bind at 1 2 in H1. cbn in H1.
  rewrite decide_False in H1 by done. destruct r1 as [[]|err]; [|done].
  apply bind_inv in H1 as (row & e2 & (w1 & H1 & ->)%on_world_inv & [= <-]). exists row, w1. cbn in H1 |- *.
  apply bind_try_inv in H as (r2 & e2 & H2 & H). destruct r2 as [[]|err]; [|apply bind_inv in H as (? & ? & _ & H); done].
  destruct (preConsume_inv su q w1 i e2 Hrid H2) as (Hp & Ho & Hh & Hpl).
  apply bind_try_inv in H as (r3 & e3 & H3 & H).
  destruct r3 as [[]|err]; [|apply bind_inv in H as (? & ? & _ & H); apply bind_inv in H as (? & ? & _ & H); done].
  unfold syncRecovery, gets in H3. unfold mbind at 1 2, M_bind at 1 2 in H3. cbn [se_session se_info] in H3.
  destruct Ho as [F1 F2 F3 F4 F5 F6]. rewrite F1, F2, F4, F5, Hpl in H3. rewrite decide_False in H3 by done.
  apply on_world_inv in H3 as (w3 & H3 & ->). injection H as <-. cbn in *.
  replace (if ri_IsPlayground i then 0 else _) with (if ri_IsPlayground i then 0 else effective_quota su i q) in H3
    by (by destruct (ri_IsPlayground i)).
  eexists _, _. split_and!; [done..|]. rewrite F2, Hh. rewrite decide_False by done. by constructor.
Qed.

Lemma GetUserQuota_frame id b : Frame (GetUserQuota id b).
Proof. unfold GetUserQuota, RedisEnabled. frame_tac. apply frame_read. by intros ???? [= _ <-]. Qed.

Lemma of_world_inv {A} (m : M world A) e r e' :
  of_world m e = (r, e') → ∃ w', m (re_world e) = (r, w') ∧ e' = e <| re_world := w' |>.
Proof. unfold of_world. destruct (m (re_world e)) as [r1 w1]. intros [= <- <-]. eauto. Qed.

(** Reserving does not depend on what only the cache sees. *)
Lemma reserved_frame w0 w w' rid r u t q qt :
  w_db w = w_db w0 → w_batch w = w_batch w0 → reserved w w' rid r u t q qt → reserved w0 w' rid r u t q qt.
Proof.
  intros Ed Eb R. constructor; try apply R; intros.
  - rewrite (rv_wallets _ _ _ _ _ _ _ _ R). unfold wallet_balance, user_quota, pending. by rewrite Ed, Eb.
  - rewrite (rv_tokens _ _ _ _ _ _ _ _ R) by done. unfold token_balance, token_remain, pending. by rewrite Ed, Eb.
Qed.

(** A request that is about to be billed from the wallet. *)
Record wallet_request (e : renv) (quota : Z) : Prop := {
  wr_ok : ledger_ok (w_db (re_world e));
  wr_amounts : amounts_ok (w_db (re_world e));
  wr_id : blank (ri_RequestId (re_info e)) = false;
  wr_new : billing_recoveries (w_db (re_world e)) !! ri_RequestId (re_info e) = None;
  wr_pref : NormalizeBillingPreference (ri_BillingPreference (re_info e)) = "wallet_only";
  wr_quota : 0 <= quota <= MaxQuota
}.

Lemma start_reserves su q e s e' :
  ledger_ok (w_db (re_world e)) → amounts_ok (w_db (re_world e)) → ri_RequestId (re_info e) ≠ EmptyString →
  billing_recoveries (w_db (re_world e)) !! ri_RequestId (re_info e) = None → 0 <= q <= MaxQuota →
  start su (new_session (WalletFunding (ri_UserId (re_info e)) 0) (ri_RequestId (re_info e))) q e = (Ok s, e') →
  let i := re_info e in let eff := effective_quota su i q in let tok := if ri_IsPlayground i then 0 else eff in
  opened s (ri_RequestId i) (ri_UserId i) eff tok ∧
  ∃ r, reserved (re_world e) (re_world e') (ri_RequestId i) r (ri_UserId i) (ri_TokenId i) eff tok.
Proof.
  intros Hok Ham Hrid Hnew Hq H. cbv zeta. unfold start, with_session in H.
  apply bind_inv in H as ([r1 s1] & e1 & H1 & H). destruct (open_session su q _) as [r2 e2] eqn:E.
  injection H1 as <- <- <-. destruct r2 as [[]|err]; [|done]. injection H as <- <-.
  destruct (open_session_inv su q (re_world e) (re_info e) e2 Hrid E) as (row & w1 & w2 & sub & H1 & H2 & H3 & Ho).
  split; [done|]. assert (0 <= effective_quota su (re_info e) q <= MaxQuota) as Heff
    by (unfold effective_quota, MaxQuota in *; destruct (shouldTrust _ _ _); lia).
  eapply open_reserves; [done|done|done|exact Heff| | |exact H1|exact H2|exact H3].
  - intros Ht. destruct (ri_IsPlayground (re_info e)); cbn; [done|]. by destruct (Z.ltb_spec 0 (ri_TokenId (re_info e))); [|lia].
  - unfold negatable, min_i64, max_i64, MaxQuota in *. destruct (ri_IsPlayground (re_info e)); lia.
Qed.

Lemma PreConsumeBilling_reserves su q e e1 :
  wallet_request e q → PreConsumeBilling su q e = (Ok tt, e1) →
  ∃ s r eff, re_billing e1 = Some s ∧ (eff = q ∨ eff = 0) ∧
    let tok := if ri_IsPlayground (re_info e) then 0 else eff in
    opened s (ri_RequestId (re_info e)) (ri_UserId (re_info e)) eff tok ∧
    reserved (re_world e) (re_world e1) (ri_RequestId (re_info e)) r (ri_UserId (re_info e)) (ri_TokenId (re_info e)) eff tok.
Proof.
  intros [Hok Ham Hid Hnew Hpref Hq] H. unfold PreConsumeBilling in H.
  apply bind_inv in H as (i & e0 & [= <- <-] & H). destruct (ri_QuotaClamp _); [done|].
  destruct (Z.ltb_spec q 0); [lia|]. apply bind_inv in H as (s & e2 & H & [= <-]). cbn.
  unfold NewBillingSession in H. apply bind_inv in H as ([] & e3 & E3 & H).
  assert (e3 = e) as -> by (injection E3 as <-; destruct e as [we ie be]; unfold upd; cbn in Hid |- *; by rewrite Hid). clear E3.
  apply bind_inv in H as (i & e3 & [= <- <-] & H). cbv zeta in H. rewrite Hpref in H.
  rewrite decide_False, decide_True in H by done.
  unfold tryWallet in H. apply bind_inv in H as (i & e3 & [= <- <-] & H).
  apply bind_try_inv in H as (r1 & e3 & (w1 & E1 & ->)%of_world_inv & H). cbn in E1.
  destruct r1 as [uq|err]; [|done]. destruct (uq <=? 0); [done|]. destruct (_ <? 0); [done|].
  apply bind_inv in H as ([] & e3 & [= <-] & H).
  pose proof (GetUserQuota_frame (ri_UserId (re_info e)) false (re_world e)) as (Ed & Eb & _). rewrite E1 in Ed, Eb. cbn in Ed, Eb.
  assert (ri_RequestId (re_info e) ≠ EmptyString) as Hrid by (intros E; by rewrite E in Hid).
  rewrite <- Ed in Hok, Ham, Hnew.
  match type of H with start _ _ _ ?e3 = _ =>
    destruct (start_reserves su q e3 s e2 Hok Ham Hrid Hnew Hq H) as [Ho [r R]] end.
  set (eff := effective_quota _ _ _) in *. exists s, r, eff. split; [done|]. split.
  { subst eff. unfold effective_quota. destruct (shouldTrust _ _ _); auto. }
  split; [exact Ho|]. by apply (reserved_frame _ w1).
Qed.

(** ** Whole requests *)

Lemma SettleBilling_inv actual e s res e2 :
  re_billing e = Some s → SettleBilling actual e = (res, e2) →
  ∃ e', retry 2 (Settle actual) (MkSenv (re_world e) (re_info e) s) = (res, e') ∧
    re_world e2 = se_world e' ∧ re_billing e2 = Some (se_session e').
Proof.
  intros Hs. unfold SettleBilling, billing, with_session, gets. unfold mbind at 1, M_bind at 1. rewrite Hs.
  unfold mbind, M_bind, try, modify, lift_res. destruct (retry 2 (Settle actual) _) as [r e'].
  intros [= <- <-]. by exists e'.
Qed.

(** Later in the same process: the clock, the cache and the faults ahead may
    be different, the tables and the queue are the same. *)
Definition later (e e' : renv) : Prop :=
  re_billing e' = re_billing e ∧ w_db (re_world e') = w_db (re_world e) ∧ w_batch (re_world e') = w_batch (re_world e).

Lemma i64_small z : - MaxQuota <= z <= MaxQuota → i64 z = z.
Proof. unfold MaxQuota. intros. apply i64_id. unfold in_i64, min_i64, max_i64. lia. Qed.

(** The settlement of an opened session, from the state where it is reserved. *)
Lemma settle_opened actual w e1 e2 rid r u t q qt s res :
  rid ≠ EmptyString → reserved w (re_world e1) rid r u t q qt → re_billing e1 = Some s → opened s rid u q qt →
  0 <= q <= MaxQuota → 0 <= actual <= MaxQuota → SettleBilling actual e1 = (res, e2) →
  ∃ r', progress rid (actual - q) (re_world e1) r (re_world e2) r' ∧ ¬ refunding (br_Status r') ∧
    (is_ok res = true → br_Status r' = StatusSettled).
Proof.
  intros Hrid R Hs Ho Hq Ha H. destruct (SettleBilling_inv _ _ _ _ _ Hs H) as (e' & E & -> & _).
  assert (negatable (actual - q)) as Hneg by (unfold negatable, min_i64, max_i64, MaxQuota in *; lia).
  assert (i64 (actual - q) = actual - q) as Hi by (apply i64_small; lia).
  assert (∀ c o, o ≠ OperationReserve → adjustments (w_db (re_world e1)) !! (rid, c, o) = None) as Hfr
    by (intros; apply R).
  assert (progress rid (actual - q) (re_world e1) r (re_world e1) r) as P0 by (by apply progress_start; try apply R).
  destruct Ho as [F1 F2 F3 F4 F5 (F6 & _)].
  pose proof (retry_settles rid (actual - q) q actual (re_world e1) r Hrid Hneg Hi 2
    (MkSenv (re_world e1) (re_info e1) s)) as T. rewrite E in T. cbn in T.
  assert (unsettled rid (actual - q) q (re_world e1) r (MkSenv (re_world e1) (re_info e1) s)) as Hu.
  { split; [unfold at_session; cbn; by rewrite F1|]. exists r. split; [done|]. rewrite (rv_status _ _ _ _ _ _ _ _ R). by intros [|]. }
  specialize (T Hu). destruct res as [x|err].
  - destruct T as (_ & r' & P & Hst). exists r'. split_and!; try done. rewrite Hst. by intros [|].
  - destruct T as (_ & r' & P & Hst). by exists r'.
Qed.

(** The rows of billing and the balances are the same. *)
Record counted (w w' : world) : Prop := MkCounted {
  ct_rows : billing_recoveries (w_db w') = billing_recoveries (w_db w);
  ct_markers : adjustments (w_db w') = adjustments (w_db w);
  ct_wallets : ∀ v, wallet_balance w' v = wallet_balance w v;
  ct_tokens : ∀ v, token_balance w' v = token_balance w v
}.
#[global] Instance counted_preorder : PreOrder counted.
Proof.
  split; [by split|]. intros w1 w2 w3 [A1 A2 A3 A4] [B1 B2 B3 B4]. split; [congruence..| |]; intros v; [by rewrite B3|by rewrite B4].
Qed.
Lemma counted_same w w' : w_db w' = w_db w → w_batch w' = w_batch w → counted w w'.
Proof.
  intros Ed Eb. split; [by rewrite Ed..| |]; intros v; unfold wallet_balance, user_quota, token_balance, token_remain, pending; by rewrite Ed, Eb.
Qed.
Lemma reserved_counted w w1 w1' rid r u t q qt : counted w1 w1' → reserved w w1 rid r u t q qt → reserved w w1' rid r u t q qt.
Proof.
  intros [E1 E2 E3 E4] []. constructor; rewrite ?E1, ?E2; try done.
  - unfold ledger_ok, row_ok, marker_amount in *. by rewrite E1, E2.
  - unfold amounts_ok in *. by rewrite E1.
  - intros v. rewrite E3. auto.
  - intros v Hv. rewrite E4. auto.
Qed.
Lemma reserved_later w w1 w1' rid r u t q qt :
  w_db w1' = w_db w1 → w_batch w1' = w_batch w1 → reserved w w1 rid r u t q qt → reserved w w1' rid r u t q qt.
Proof. intros Ed Eb. by apply reserved_counted, counted_same. Qed.

(** A settlement that returns nil has charged the actual quota. *)
Lemma reserved_pays (pl : bool) w e1 e2 rid r u t q s actual :
  rid ≠ EmptyString → reserved w (re_world e1) rid r u t q (if pl then 0 else q) → re_billing e1 = Some s → opened s rid u q (if pl then 0 else q) →
  0 <= q <= MaxQuota → 0 <= actual <= MaxQuota → SettleBilling actual e1 = (Ok tt, e2) →
  (∀ v, wallet_balance (re_world e2) v = wallet_balance w v - (if decide (v = u) then actual else 0)) ∧
  (pl = false → ∀ v, 0 < v → token_balance (re_world e2) v = token_balance w v - (if decide (v = t) then actual else 0)) ∧
  (br_Status <$> billing_recoveries (w_db (re_world e2)) !! rid) = Some StatusSettled.
Proof.
  intros Hrid R Hs Ho Hq Hactual Hsettle. destruct (settle_opened _ _ _ _ _ _ _ _ _ _ _ _ Hrid R Hs Ho Hq Hactual Hsettle) as (r' & P & Hnr & Hst).
  specialize (Hst eq_refl). destruct (settled_markers _ _ _ _ _ _ P Hst) as [M1 M2].
  assert (∀ c o, o ≠ OperationReserve → adjustments (w_db (re_world e1)) !! (rid, c, o) = None) as Hfr by (intros; apply R).
  destruct (charging_balances _ _ _ _ (rv_row _ _ _ _ _ _ _ _ R) (rv_source _ _ _ _ _ _ _ _ R) Hfr _ _ P Hnr) as [B1 B2].
  rewrite M1, (rv_user _ _ _ _ _ _ _ _ R) in B1. rewrite M2, (rv_token _ _ _ _ _ _ _ _ R) in B2.
  split_and!.
  - intros v. rewrite B1, (rv_wallets _ _ _ _ _ _ _ _ R). destruct (decide _); lia.
  - intros -> v Hv. rewrite B2, (rv_tokens _ _ _ _ _ _ _ _ R) by done. destruct (decide _); lia.
  - rewrite (progress_row _ _ _ _ _ _ P). cbn. by rewrite Hst.
Qed.

(** C1: a wallet-funded request pays exactly its actual quota.  When
    [PreConsumeBilling] returns nil and [SettleBilling], with all its retries
    and whatever database and Redis calls fail in between, returns nil, the
    user's wallet has lost exactly [actual], the token exactly [actual], and
    nobody else anything; the trust bypass and the size of the reservation do
    not matter. *)
Theorem request_pays_actual_quota (su : surroundings) (quota actual : Z) (e e1 e1' e2 : renv)
    (Hreq : wallet_request e quota) (Hactual : 0 <= actual <= MaxQuota)
    (Hopen : PreConsumeBilling su quota e = (Ok tt, e1)) (Hlater : later e1 e1')
    (Hsettle : SettleBilling actual e1' = (Ok tt, e2)) :
  let i := re_info e in
  (∀ v, wallet_balance (re_world e2) v = wallet_balance (re_world e) v - (if decide (v = ri_UserId i) then actual else 0)) ∧
  (ri_IsPlayground i = false → ∀ v, 0 < v →
     token_balance (re_world e2) v = token_balance (re_world e) v - (if decide (v = ri_TokenId i) then actual else 0)) ∧
  (br_Status <$> billing_recoveries (w_db (re_world e2)) !! ri_RequestId i) = Some StatusSettled.
Proof.
  cbv zeta. destruct (PreConsumeBilling_reserves _ _ _ _ Hreq Hopen) as (s & r & q & Hs & Hq & Ho & R). cbv zeta in Ho, R.
  destruct Hlater as (Eb & Ed & Ebt). apply (reserved_later _ _ (re_world e1')) in R; [|done|done].
  assert (ri_RequestId (re_info e) ≠ EmptyString) as Hrid by (intros E; pose proof (wr_id _ _ Hreq) as Hb; by rewrite E in Hb).
  assert (0 <= q <= MaxQuota) as Hq' by (pose proof (wr_quota _ _ Hreq); unfold MaxQuota in *; lia).
  rewrite <- Eb in Hs. exact (reserved_pays _ _ _ _ _ _ _ _ _ _ _ Hrid R Hs Ho Hq' Hactual Hsettle).
Qed.

(** *** On concrete data *)

Lemma runs_ok {S} (m : M S unit) s : is_ok (result m s) = true → m s = (Ok tt, exec m s).
Proof. unfold result, exec. by destruct (m s) as [[[]|e] s']. Qed.

Definition sample_su : surroundings := MkSurroundings 0 ∅ ∅ (λ _, EmptyString) "fresh" (float_of_pos false 500000) 0.
Definition sample_info (playground : bool) : RelayInfo :=
  MkRelayInfo "req-1" 7 0 11 "sk" false playground true " wallet_only" EmptyString "gpt" 30 false None
    0 (SourceOther EmptyString) 0 0 0 0 0 0 EmptyString None None.
Definition sample_env (playground : bool) : renv := MkRenv (world_of db_of_two) (sample_info playground) None.
Definition faulty (faults : list (option string)) (e : renv) : renv := e <| re_world ::= (λ w, w <| w_oracle := faults |>) |>.

Lemma later_faulty faults e : later e (faulty faults e).
Proof. done. Qed.

Lemma sample_request playground : wallet_request (sample_env playground) 30.
Proof.
  constructor; try done. by apply ledger_ok_empty.
Qed.

(** The second and the fourth call of the settlement fail; 45 are used. *)
Lemma request_pays_actual_quota_witness :
  let e1 := exec (PreConsumeBilling sample_su 30) (sample_env false) in
  let e1' := faulty [None; Some "deadlock"; None; Some "lost"] e1 in
  let e2 := exec (SettleBilling 45) e1' in
  wallet_balance (re_world e1) 7 = 70 ∧
  wallet_balance (re_world e2) 7 = wallet_balance (re_world (sample_env false)) 7 - 45.
Proof.
  intros e1 e1' e2. split; [by vm_compute|].
  pose proof (runs_ok (PreConsumeBilling sample_su 30) (sample_env false) ltac:(by vm_compute)) as H1.
  pose proof (runs_ok (SettleBilling 45) e1' ltac:(by vm_compute)) as H2.
  change (exec (PreConsumeBilling sample_su 30) (sample_env false)) with e1 in H1.
  change (exec (SettleBilling 45) e1') with e2 in H2.
  pose proof (later_faulty [None; Some "deadlock"; None; Some "lost"] e1 : later e1 e1') as Hl.
  clearbody e2. clearbody e1'. clearbody e1.
  exact (proj1 (request_pays_actual_quota sample_su 30 45 (sample_env false) e1 e1' e2 (sample_request false)
    ltac:(unfold MaxQuota; lia) H1 Hl H2) 7).
Defined.

(** ** Refunding *)

Section refund.
Context (rid : string) (w0 : world) (r0 : BillingRecovery).
Context (Hrid : rid ≠ EmptyString).
Context (Hr0 : billing_recoveries (w_db w0) !! rid = Some r0) (Hwallet : br_Source r0 = SourceWallet).
Context (Hfresh : ∀ c o, o ≠ OperationReserve → adjustments (w_db w0) !! (rid, c, o) = None).
Abbreviation progress := (progress rid 0 w0 r0).

Lemma zero_negatable : negatable 0.
Proof. unfold negatable, min_i64, max_i64. lia. Qed.

(** Between the two critical sections: the session [s] and the request info
    [i] are as they were; without an error so far the row is refunding. *)
Definition returning (s : BillingSession) (i : RelayInfo) (err : option error) (e : senv) : Prop :=
  se_session e = s ∧ se_info e = i ∧
  ∃ r, progress (se_world e) r ∧ br_Status r ≠ StatusSettlementPending ∧
    br_Status r ≠ StatusSettled ∧ (err = None → refunding (br_Status r)).

Lemma refund_component_returning s i c :
  Triple (returning s i None) (refund_component rid c) (λ _, returning s i None).
Proof.
  intros e (<- & <- & r & P & H1 & H2 & H3). unfold refund_component, on_world.
  destruct (ApplyBillingRecoveryAdjustment rid c OperationRefund (se_world e)) as [res w'] eqn:E. cbn. specialize (H3 eq_refl).
  assert (br_Status r ≠ StatusActive) as Hna by (destruct H3; congruence).
  destruct (adjust_step rid 0 w0 r0 zero_negatable _ r c OperationRefund res w' (or_intror (conj eq_refl Hna)) P E)
    as (r' & P' & Est & _).
  split_and!; [done|done|]. exists r'. rewrite Est. auto.
Qed.

Lemma mark_pending_returning s i :
  Triple (returning s i (Some ErrRecordNotFound)) (on_world (MarkBillingRecoveryRefundPending rid None))
    (λ res, returning s i (match res with Ok _ => None | Err e => Some (ErrWrap "mark billing recovery pending" e) end)).
Proof.
  intros e (<- & <- & r & P & H1 & H2 & _). unfold on_world.
  destruct (MarkBillingRecoveryRefundPending rid None (se_world e)) as [res w'] eqn:E. cbn.
  destruct (refund_pending_step rid 0 w0 r0 zero_negatable Hwallet _ r None res w' P E) as (r' & P' & _ & Hs & Hok).
  assert (br_Status r' ≠ StatusSettlementPending ∧ br_Status r' ≠ StatusSettled) as [Q1 Q2]
    by (destruct Hs as [-> |[_ ->]]; done).
  split_and!; [done|done|]. exists r'. split_and!; [done..|]. destruct res; [intros _; by apply Hok|done].
Qed.

(** A part of the refund that calls [m] when no error occurred before it. *)
Lemma refund_part_returning s i runs ctx m err flag :
  (runs = true → err = None → Triple (returning s i None) m (λ _, returning s i None)) →
  (runs = true → err ≠ None → m = mret tt) →
  Triple (returning s i err) (refund_part runs ctx m err flag)
    (λ res e, ∃ err' flag', res = Ok (err', flag') ∧ returning s i err' e ∧
       (err' = None → err = None ∧ flag' = (runs || flag))).
Proof.
  intros Hm Hno. unfold refund_part. destruct runs; [|apply triple_ret; intros e H; by exists err, flag].
  assert (Triple (returning s i err) m (λ _, returning s i err)) as Hm'.
  { destruct err as [e|]; [|by apply Hm]. rewrite Hno by done. by apply triple_ret. }
  eapply triple_bind_try; [exact Hm'|]. intros [x|e]; apply triple_ret; intros e' H.
  - by exists err, true.
  - exists (Some (ErrWrap ctx e)), flag. split; [done|]. split; [|done].
    destruct H as (? & ? & r & ? & ? & ? & _). split_and!; [done|done|]. by exists r.
Qed.

Context (s : BillingSession) (i : RelayInfo) (u q qt : Z) (Ho : opened s rid u q qt).

Lemma refund_components_returning s' :
  Triple (returning s' i (Some ErrRecordNotFound)) (refund_components s i)
    (λ res e, ∃ err f x t, res = Ok (err, f, x, t) ∧ returning s' i err e ∧
       (err = None → f = true ∧ (ri_IsPlayground i || (qt <=? 0) || t) = true)).
Proof.
  destruct Ho as [F1 F2 F3 F4 F5 (F6 & F7 & F8 & F9 & F10 & F11)].
  unfold refund_components. rewrite F1, F2, F4, F5, F8, F9, F10. rewrite bool_decide_false by done. cbn [negb andb Source].
  eapply triple_bind with (R := λ res e, ∃ err, res = Ok err ∧ returning s' i err e); [|intros err|by intros ?? (? & ? & _)].
  { eapply triple_bind_try; [apply mark_pending_returning|]. intros res. apply triple_ret. eauto. }
  apply (triple_weaken (returning s' i err)); [by intros e (? & [= <-] & ?)|].
  eapply triple_bind; [apply refund_part_returning|intros [err1 f]|by intros ?? (? & ? & ? & _)].
  { intros _ ->. apply refund_component_returning. }
  { intros _ Hne. by destruct err. }
  apply (triple_weaken (λ e, returning s' i err1 e ∧ (err1 = None → f = true)));
    [intros e (? & ? & [= <- <-] & ? & H); split; [done|]; intros E; by destruct (H E)|].
  apply triple_pure. intros Hf.
  eapply triple_bind; [apply refund_part_returning; [|by destruct err1]|intros [err2 x]|by intros ?? (? & ? & ? & _)].
  { by rewrite !andb_false_r. }
  apply (triple_weaken (λ e, returning s' i err2 e ∧ (err2 = None → f = true)));
    [intros e (? & ? & [= <- <-] & ? & H); split; [done|]; intros E; apply Hf; by destruct (H E)|].
  apply triple_pure. intros Hf2.
  eapply triple_bind; [apply refund_part_returning; [|by destruct err2]|intros [err3 t]|by intros ?? (? & ? & ? & _)].
  { intros _ ->. apply refund_component_returning. }
  apply triple_ret. intros e (err' & t' & [= <- <-] & H & Hn). eexists _, _, _, _. split; [done|]. split; [done|].
  intros E. destruct (Hn E) as [E2 ->]. split; [auto|]. rewrite E2. cbn.
  destruct (ri_IsPlayground i); cbn; [done|]. destruct (Z.ltb_spec 0 qt), (Z.leb_spec qt 0); cbn; try done; lia.
Qed.

(** Where a refund leaves the request; it is complete when no error is
    reported on the [RelayInfo]. *)
Definition returned (e : senv) : Prop :=
  ∃ r, progress (se_world e) r ∧ br_Status r ≠ StatusSettlementPending ∧ br_Status r ≠ StatusSettled ∧
    (ri_BillingRefundError (se_info e) = None → br_Status r = StatusRefunded).

Lemma mark_refunded_returned s' i' :
  Triple (returning s' i' None)
    (r ← try (on_world (MarkBillingRecoveryRefunded rid None));
     match r with
     | Ok _ => mret tt
     | Err err =>
         on_session (λ s, s <| bs_refundErr := Some err |>);;
         on_info (λ info, info <| ri_BillingRefundError := Some err |>)
     end) (λ _, returned).
Proof.
  eapply triple_bind_try with (R := λ res e, ∃ r, progress (se_world e) r ∧ br_Status r ≠ StatusSettlementPending ∧
    br_Status r ≠ StatusSettled ∧ (is_ok res = true → br_Status r = StatusRefunded)).
  - intros e (_ & _ & r & P & Q1 & Q2 & _). unfold on_world.
    destruct (MarkBillingRecoveryRefunded rid None (se_world e)) as [res w'] eqn:E. cbn.
    destruct (refunded_step rid 0 w0 r0 zero_negatable _ r None res w' P E) as (r' & P' & _ & Hs & Hok).
    exists r'. split_and!; try done; by destruct Hs as [-> | ->].
  - intros [x|err].
    + apply triple_ret. intros e (r & P & Q1 & Q2 & Hok). exists r. split_and!; auto.
    + intros [w i1 s1] (r & P & Q1 & Q2 & _). exists r. split_and!; done.
Qed.

Lemma finish_refund_returned s' err f x t :
  bs_recoveryID s' = rid → bs_extraReserved s' = 0 → (err = None → f = true ∧ (ri_IsPlayground i || (qt <=? 0) || t) = true) →
  Triple (returning s' i err) (finish_refund (ri_IsPlayground i) qt (err, f, x, t)) (λ _, returned).
Proof.
  intros Hid Hex Hparts e (Es & Ei & r & P & Q1 & Q2 & Hst). unfold finish_refund.
  rewrite bind_on_session, bind_on_info, bind_on_session. destruct e as [w i1 s1]. cbn in Es, Ei, P. subst s1 i1.
  set (s2 := s' <| bs_fundingRefunded := f |> <| bs_extraRefunded := x |> <| bs_tokenRefunded := ri_IsPlayground i || (qt <=? 0) || t |>
                <| bs_refundInProgress := false |> <| bs_refundErr := err |>).
  assert (bs_recoveryID s2 = rid) as Hid2 by done.
  assert (err = None → refundComponentsCompleteLocked s2 (ri_IsPlayground i) qt = true) as Hc.
  { intros E. destruct (Hparts E) as [-> Ht]. unfold refundComponentsCompleteLocked. subst s2. cbn. rewrite Hex, Ht.
    rewrite !andb_false_r. cbn. by rewrite ?orb_true_r. }
  change (upd se_session _ (upd se_info _ (upd se_session _ (MkSenv w i s')))) with
    (MkSenv w (i <| ri_BillingRefundError := err |>)
       (if none err && refundComponentsCompleteLocked s2 (ri_IsPlayground i) qt then s2 <| bs_refunded := true |> else s2)).
  clearbody s2. destruct err as [err|]; cbn [none andb].
  { exists r. split_and!; done. }
  rewrite Hc, bind_gets by done. cbn [se_session].
  change (refundComponentsCompleteLocked (s2 <| bs_refunded := true |>) (ri_IsPlayground i) qt) with
    (refundComponentsCompleteLocked s2 (ri_IsPlayground i) qt).
  change (bs_recoveryID (s2 <| bs_refunded := true |>)) with (bs_recoveryID s2).
  rewrite Hc, Hid2 by done. rewrite bool_decide_false by done. cbn [negb andb].
  eapply mark_refunded_returned. split_and!; [reflexivity|reflexivity|]. exists r. done.
Qed.

Lemma Refund_returns :
  0 < qt →
  Triple (λ e, se_session e = s ∧ se_info e = i ∧ ∃ r, progress (se_world e) r ∧
            br_Status r ≠ StatusSettlementPending ∧ br_Status r ≠ StatusSettled) Refund (λ _, returned).
Proof.
  intros Hqt e (Es & Ei & r & P & Q1 & Q2). pose proof Ho as [F1 F2 F3 F4 F5 (F6 & F7 & F8 & F9 & F10 & F11)].
  unfold Refund. rewrite !bind_gets, Es, Ei, F6, F7, F11. cbn [orb].
  assert (needsRefundLocked i s = true) as ->.
  { unfold needsRefundLocked. rewrite F4, F6, F7, F8, F9. by destruct (Z.ltb_spec 0 qt); [|lia]. }
  cbn [negb]. unfold stopRecoveryHeartbeat. rewrite !bind_on_session, F4.
  match goal with |- context [(refund_components s i ≫= _) ?e1] => set (e2 := e1) end.
  assert (bs_recoveryID (se_session e2) = rid ∧ bs_extraReserved (se_session e2) = 0) as [E1 E2].
  { destruct e as [w i1 s1]. cbn in Es. subst s1 e2. unfold upd. cbn. by destruct (bs_heartbeat s). }
  assert (returning (se_session e2) i (Some ErrRecordNotFound) e2) as Hret.
  { split_and!; [done|by destruct e|]. by exists r. }
  clearbody e2. enough (Triple (returning (se_session e2) i (Some ErrRecordNotFound))
    (refund_components s i ≫= finish_refund (ri_IsPlayground i) qt) (λ _, returned)) as T by exact (T e2 Hret).
  eapply triple_bind; [apply refund_components_returning|intros [[[err f] x] t]|by intros ?? (? & ? & ? & ? & ? & _)].
  apply (triple_weaken (λ e, returning (se_session e2) i err e ∧
    (err = None → f = true ∧ (ri_IsPlayground i || (qt <=? 0) || t) = true))); [|apply triple_pure].
  - intros e3 (? & ? & ? & ? & [= <- <- <- <-] & H & Hp). split; [exact H|exact Hp].
  - intros Hp. by apply finish_refund_returned.
Qed.
End refund.

(** The balances of a request that is being given back. *)
Lemma returning_balances rid w0 r0 w r :
  billing_recoveries (w_db w0) !! rid = Some r0 → br_Source r0 = SourceWallet →
  (∀ c o, o ≠ OperationReserve → adjustments (w_db w0) !! (rid, c, o) = None) → progress rid 0 w0 r0 w r →
  (∀ u, wallet_balance w u = wallet_balance w0 u +
     (if decide (u = br_UserID r0) then marker_amount (w_db w) rid ComponentFunding OperationRefund else 0)) ∧
  (∀ t, 0 < t → token_balance w t = token_balance w0 t +
     (if decide (t = br_TokenID r0) then marker_amount (w_db w) rid ComponentToken OperationRefund else 0)).
Proof.
  intros Hr0 Hw Hfr P. destruct (progress_balances rid 0 w0 r0 Hr0 Hw Hfr _ r P) as [B1 B2].
  assert (∀ c, marker_amount (w_db w) rid c OperationSettle = 0) as Hz
    by (intros c; by destruct (settle_marker _ _ _ _ w r c P)).
  rewrite Hz in B1, B2. split; intros; [rewrite B1|rewrite B2 by done]; destruct (decide _); lia.
Qed.

Lemma refund_marker rid delta w0 r0 w r c :
  progress rid delta w0 r0 w r →
  marker_amount (w_db w) rid c OperationRefund = 0 ∨
  marker_amount (w_db w) rid c OperationRefund = component_amount r0 c OperationRefund.
Proof.
  intros P. unfold marker_amount. destruct (adjustments _ !! _) as [a|] eqn:E; [right|by left].
  exact (pg_refund _ _ _ _ _ _ P _ _ E).
Qed.

Lemma refunded_markers rid delta w0 r0 w r :
  progress rid delta w0 r0 w r → br_Status r = StatusRefunded → 0 <= br_TokenAmount r0 →
  marker_amount (w_db w) rid ComponentFunding OperationRefund = br_FundingAmount r0 ∧
  marker_amount (w_db w) rid ComponentToken OperationRefund = br_TokenAmount r0.
Proof.
  intros P Hst H0. destruct (refund_complete_inv _ (pg_refunded _ _ _ _ _ _ P Hst)) as [Hf Ht].
  destruct (pg_columns _ _ _ _ _ _ P) as (P1 & P2 & _), (pg_money _ _ _ _ _ _ P) as (_ & _ & _ & _ & E5). split.
  - destruct (P1 Hf) as [a Ha]. unfold marker_amount. rewrite Ha. exact (pg_refund _ _ _ _ _ _ P _ _ Ha).
  - destruct Ht as [Ht|Ht].
    + destruct (P2 Ht) as [a Ha]. unfold marker_amount. rewrite Ha. exact (pg_refund _ _ _ _ _ _ P _ _ Ha).
    + destruct (refund_marker _ _ _ _ _ _ ComponentToken P) as [-> | ->]; cbn; lia.
Qed.

Lemma billing_inv {A} s (m : M senv A) e res e2 :
  billing s m e = (res, e2) →
  ∃ e', m (MkSenv (re_world e) (re_info e) s) = (res, e') ∧ re_world e2 = se_world e' ∧ re_info e2 = se_info e'.
Proof.
  unfold billing, with_session. unfold mbind, M_bind, modify, lift_res. destruct (m _) as [r e']. intros [= <- <-]. by exists e'.
Qed.

(** C7: a refund gives back what was reserved, once.  Take a request that is
    no playground request and is paid from the wallet alone, and whose session
    holds token quota after the reservation.  When that session is refunded,
    with any calls failing, the user gets back nothing or exactly what was
    reserved, and so does the token; when no refund error is left on the
    [RelayInfo], every wallet and every token is exactly as it was before the
    request, and the row is refunded. *)
Theorem refund_restores_reservation (su : surroundings) (quota : Z) (e e1 e1' e2 : renv) (s : BillingSession) (res : Prelude.res unit)
    (Hreq : wallet_request e quota) (Hpl : ri_IsPlayground (re_info e) = false)
    (Hopen : PreConsumeBilling su quota e = (Ok tt, e1)) (Hlater : later e1 e1')
    (Hs : re_billing e1 = Some s) (Hheld : 0 < bs_tokenConsumed s) (Hrefund : billing s Refund e1' = (res, e2)) :
  let i := re_info e in
  (wallet_balance (re_world e2) (ri_UserId i) = wallet_balance (re_world e) (ri_UserId i) ∨
   wallet_balance (re_world e2) (ri_UserId i) = wallet_balance (re_world e1) (ri_UserId i)) ∧
  (0 < ri_TokenId i →
   token_balance (re_world e2) (ri_TokenId i) = token_balance (re_world e) (ri_TokenId i) ∨
   token_balance (re_world e2) (ri_TokenId i) = token_balance (re_world e1) (ri_TokenId i)) ∧
  (ri_BillingRefundError (re_info e2) = None →
     (∀ v, wallet_balance (re_world e2) v = wallet_balance (re_world e) v) ∧
     (∀ v, 0 < v → token_balance (re_world e2) v = token_balance (re_world e) v) ∧
     (br_Status <$> billing_recoveries (w_db (re_world e2)) !! ri_RequestId i) = Some StatusRefunded).
Proof.
  cbv zeta. destruct (PreConsumeBilling_reserves _ _ _ _ Hreq Hopen) as (s' & r & q & Hs' & Hq & Ho & R). cbv zeta in Ho, R.
  rewrite Hpl in Ho, R. assert (s' = s) as -> by congruence. clear Hs'. destruct Hlater as (_ & Ed & Ebt).
  pose proof (reserved_later _ _ (re_world e1') _ _ _ _ _ _ Ed Ebt R) as R'.
  assert (ri_RequestId (re_info e) ≠ EmptyString) as Hrid by (intros E; pose proof (wr_id _ _ Hreq) as Hb; by rewrite E in Hb).
  rewrite (op_token _ _ _ _ _ Ho) in Hheld. destruct (billing_inv _ _ _ _ _ Hrefund) as (e' & E & -> & ->).
  assert (∀ c o, o ≠ OperationReserve → adjustments (w_db (re_world e1')) !! (ri_RequestId (re_info e), c, o) = None) as Hfr
    by (intros; apply R').
  assert (progress (ri_RequestId (re_info e)) 0 (re_world e1') r (re_world e1') r) as P0 by (by apply progress_start; try apply R').
  pose proof (Refund_returns _ (re_world e1') r Hrid (rv_source _ _ _ _ _ _ _ _ R') s (re_info e1') _ _ _ Ho Hheld
    (MkSenv (re_world e1') (re_info e1') s)) as T. rewrite E in T. cbn in T.
  destruct T as (r' & P & Q1 & Q2 & Hok).
  { split_and!; [done|done|]. exists r. rewrite (rv_status _ _ _ _ _ _ _ _ R'). done. }
  destruct (returning_balances _ _ _ _ _ (rv_row _ _ _ _ _ _ _ _ R') (rv_source _ _ _ _ _ _ _ _ R') Hfr P) as [B1 B2].
  rewrite (rv_user _ _ _ _ _ _ _ _ R') in B1. rewrite (rv_token _ _ _ _ _ _ _ _ R') in B2. split; [|split].
  - rewrite B1, (rv_wallets _ _ _ _ _ _ _ _ R'), (rv_wallets _ _ _ _ _ _ _ _ R), !decide_True by done.
    destruct (refund_marker _ _ _ _ _ _ ComponentFunding P) as [-> | ->]; cbn; rewrite ?(rv_funding _ _ _ _ _ _ _ _ R'); lia.
  - intros Ht. rewrite B2, (rv_tokens _ _ _ _ _ _ _ _ R'), (rv_tokens _ _ _ _ _ _ _ _ R), !decide_True by done.
    destruct (refund_marker _ _ _ _ _ _ ComponentToken P) as [-> | ->]; cbn; rewrite ?(rv_token_amount _ _ _ _ _ _ _ _ R'); lia.
  - intros He. assert (0 <= br_TokenAmount r) as H0 by (rewrite (rv_token_amount _ _ _ _ _ _ _ _ R'); lia).
    destruct (refunded_markers _ _ _ _ _ _ P (Hok He) H0) as [M1 M2].
    rewrite M1, (rv_funding _ _ _ _ _ _ _ _ R') in B1. rewrite M2, (rv_token_amount _ _ _ _ _ _ _ _ R') in B2. split_and!.
    + intros v. rewrite B1, (rv_wallets _ _ _ _ _ _ _ _ R'). destruct (decide _); lia.
    + intros v Hv. rewrite B2, (rv_tokens _ _ _ _ _ _ _ _ R') by done. destruct (decide _); lia.
    + rewrite (progress_row _ _ _ _ _ _ P). cbn. by rewrite Hok.
Qed.

(** One call of the refund fails and is retried by the caller later; here
    the first attempt gets through. *)
Lemma refund_restores_reservation_witness :
  let e1 := exec (PreConsumeBilling sample_su 30) (sample_env false) in
  let e1' := faulty [] e1 in
  match re_billing e1 with
  | Some s => let e2 := exec (billing s Refund) e1' in
      wallet_balance (re_world e1) 7 = 70 ∧ wallet_balance (re_world e2) 7 = wallet_balance (re_world (sample_env false)) 7
  | None => False
  end.
Proof.
  intros e1 e1'. pose proof (runs_ok (PreConsumeBilling sample_su 30) (sample_env false) ltac:(by vm_compute)) as H1.
  change (exec (PreConsumeBilling sample_su 30) (sample_env false)) with e1 in H1.
  assert (match re_billing e1 with
          | Some s => (wallet_balance (re_world e1) 7 =? 70) && (0 <? bs_tokenConsumed s) &&
              none (ri_BillingRefundError (re_info (exec (billing s Refund) e1')))
          | None => false end = true) as Hc by (vm_compute; reflexivity).
  pose proof (later_faulty [] e1 : later e1 e1') as Hl. clearbody e1'. clearbody e1.
  destruct (re_billing e1) as [s|] eqn:Hs; [|done]. rewrite !andb_true_iff in Hc.
  destruct Hc as [[Hw Hpos] Hnone]. split; [by apply Z.eqb_eq|].
  apply Z.ltb_lt in Hpos. assert (ri_BillingRefundError (re_info (exec (billing s Refund) e1')) = None) as He
    by (by destruct (ri_BillingRefundError _)).
  exact (proj1 (proj2 (proj2 (refund_restores_reservation sample_su 30 (sample_env false) e1 e1' (exec (billing s Refund) e1') s _
    (sample_request false) eq_refl H1 Hl Hs Hpos (surjective_pairing _))) He) 7).
Defined.

(** The refund of a playground request is skipped.  A playground request
    consumes no token quota, and [needsRefundLocked] asks only for token quota
    or a subscription: the session of a wallet-funded playground request
    says it needs no refund, and [Refund] leaves its 30 units charged; only
    the recovery worker can give them back. *)
Theorem playground_refund_is_skipped :
  let e1 := exec (PreConsumeBilling sample_su 30) (sample_env true) in
  match re_billing e1 with
  | Some s =>
      wallet_balance (re_world (sample_env true)) 7 = 100 ∧ wallet_balance (re_world e1) 7 = 70 ∧
      bs_funding s = WalletFunding 7 30 ∧ needsRefundLocked (re_info e1) s = false ∧
      wallet_balance (re_world (exec (billing s Refund) e1)) 7 = 70 ∧
      (br_Status <$> billing_recoveries (w_db (re_world (exec (billing s Refund) e1))) !! "req-1") = Some StatusActive
  | None => False
  end.
Proof. by vm_compute. Qed.

(** ** A retried settlement of a subscription request *)

Definition sub_env : renv :=
  let d := db_of_two <| subscription_plans := {[3 := plan_with "pro" "never" 0 1000]} |>
                     <| user_subscriptions := {[5 := subscription_with 7 3 1000 0 false 1699999000]} |> in
  MkRenv (world_of d) (sample_info false <| ri_BillingPreference := "subscription_only" |> <| ri_TokenKey := "k" |>) None.

(** A retried settlement reports its delta twice.  [Settle] drops the error
    of the durable token adjustment, so the attempt in which it fails has
    already added the delta to [SubscriptionPostDelta] when the row refuses to
    close, and the retry adds it again: the subscription is charged 45 for
    a request that used 45, and the [RelayInfo] that feeds the consume log and
    the low-quota notice reports a post-consume delta of 30 instead of 15. *)
Theorem retried_settlement_counts_delta_twice :
  let e1 := exec (PreConsumeBilling sample_su 30) sub_env in
  let e2 := run (SettleBilling 45) (faulty [None; None; None; Some "deadlock"] e1) in
  is_ok e2.1 = true ∧
  (s_AmountUsed <$> user_subscriptions (w_db (re_world e1)) !! 5) = Some 30 ∧
  (s_AmountUsed <$> user_subscriptions (w_db (re_world e2.2)) !! 5) = Some 45 ∧
  ri_SubscriptionPostDelta (re_info e2.2) = 30.
Proof. by vm_compute. Qed.

(** A refund that fails to mark the row does not refund the wallet when it
    is called again.  The first [Refund] cannot mark the row, skips the funding
    part and records it as refunded; the second one gives back the token only,
    and the row, whose funding column is pending, refuses to close. *)
Theorem retried_refund_skips_funding :
  let e1 := exec (PreConsumeBilling sample_su 30) (sample_env false) in
  let refund e := match re_billing e with Some s => exec (billing s Refund) e | None => e end in
  let e2 := refund (faulty [Some "deadlock"] e1) in
  let e3 := refund e2 in
  wallet_balance (re_world e1) 7 = 70 ∧ token_balance (re_world e1) 11 = 30 ∧
  wallet_balance (re_world e3) 7 = 70 ∧ token_balance (re_world e3) 11 = 60 ∧
  (bs_fundingRefunded <$> re_billing e2) = Some true ∧
  ri_BillingRefundError (re_info e3) = Some ErrBillingRecoveryStateConflict.
Proof. by vm_compute. Qed.
