(* ===== verification/TextCharge.v ===== *)
(** * What a text request is charged

    Theorems about TextQuota.v: tokens are billed by kind, each kind at its own
    price ([tokens_billed_by_kind]), the charge stays in range and is neither lost
    nor free ([text_quota_in_range]), the order in which Go walks over the tools
    of a request does not matter ([surcharge_order_free]), and the wallet pays
    exactly the computed quota ([text_request_pays_price]). *)

From stdpp Require Import sorting.
From Stdlib Require Import SpecFloat QArith Lqa.
From S2P Require Import Prelude GoStrings Interleave QuotaMath RouteSelect ChannelKeys RetryPlan RelayLoop CompactRetry ToolPrices ModelPrices Store QuotaBatch BillingRecovery BillingLedger BillingSession SessionExact PriceHelper TextQuota.
#[local] Open Scope string_scope.
#[local] Open Scope list_scope.
#[local] Open Scope Z_scope.

(** A price that is a number and not negative. *)
Definition good (x : float64) : Prop := is_finite x = true ∧ fpos x.
Record price_ok (p : PriceData) : Prop := MkPriceOk {
  po_price : pd_UsePrice p = true → good (pd_ModelPrice p); po_ratio : good (pd_ModelRatio p); po_completion : good (pd_CompletionRatio p);
  po_cache : good (pd_CacheRatio p); po_creation : good (pd_CacheCreationRatio p); po_5m : good (pd_CacheCreation5mRatio p);
  po_1h : good (pd_CacheCreation1hRatio p); po_image : good (pd_ImageRatio p); po_channel : good (pd_ChannelRatio p)
}.

(** ** Merging tool calls *)

(** The calls of a tool. *)
Definition calls (name : string) (l : list ToolSurchargeItem) : Z := foldr Z.add 0 (it_Count <$> filter (λ i, it_Name i = name) l).
(** One line per tool, its calls saturated. *)
Definition line_of (f : string → float64) (l : list ToolSurchargeItem) (name : string) : ToolSurchargeItem :=
  MkItem name (Z.min max_int (calls name l)) (f name).

Lemma calls_app name l x : calls name (l ++ [x]) = calls name l + (if decide (it_Name x = name) then it_Count x else 0).
Proof.
  unfold calls. rewrite filter_app, filter_cons, fmap_app, foldr_app. case_decide; cbn; [|by rewrite Z.add_0_r].
  generalize (filter (λ i, it_Name i = name) l). intros m. induction m as [|y m IH]; cbn; lia.
Qed.
Lemma calls_perm name l l' : l ≡ₚ l' → calls name l = calls name l'.
Proof.
  unfold calls. induction 1 as [|x l l' _ IH|x y l|l1 l2 l3 _ IH1 _ IH2]; rewrite ?filter_cons; [done| | |congruence]; repeat case_decide; cbn; lia.
Qed.
Lemma calls_pos name l : Forall (λ i, 0 < it_Count i <= max_int) l → 0 <= calls name l.
Proof. intros Hl. unfold calls. induction Hl as [|x l Hx _ IH]; [done|]. rewrite filter_cons. case_decide; cbn; lia. Qed.

(** Items whose price is that of their tool. *)
Definition priced_by (f : string → float64) (i : ToolSurchargeItem) : Prop :=
  0 < it_Count i <= max_int ∧ it_Price i = f (it_Name i) ∧ SFltb (it_Price i) (it_Price i) = false ∧ SFeqb (it_Price i) (it_Price i) = true.

(** The merged lines: one per tool, in the order of names. *)
Record merged_as (f : string → float64) (l m : list ToolSurchargeItem) (names : list string) : Prop := MkMerged {
  mg_lines : m = line_of f l <$> names; mg_sorted : StronglySorted String.le names; mg_nodup : NoDup names;
  mg_names : ∀ n, n ∈ names ↔ n ∈ it_Name <$> l
}.

Lemma merged_snoc f l m names x : Forall (priced_by f) (l ++ [x]) → Forall (λ y, String.le (it_Name y) (it_Name x)) l →
  merged_as f l m names → ∃ names', merged_as f (l ++ [x]) (merge_item m x) names'.
Proof.
  intros [Hl Hx]%Forall_app Hle [-> Hs Hnd Hn]. rewrite Forall_singleton in Hx. destruct Hx as (Hcx & Hpx & Hlt & Heq).
  assert (∀ n, n ∈ names → n ≠ it_Name x → line_of f (l ++ [x]) n = line_of f l n) as Hother.
  { intros n _ Hne. unfold line_of. rewrite calls_app, decide_False by done. by rewrite Z.add_0_r. }
  assert (∀ n, n ∈ names → String.le n (it_Name x)) as Hmax.
  { intros n Hin. apply Hn, list_elem_of_fmap in Hin as (y & -> & Hy). rewrite Forall_forall in Hle. by apply Hle. }
  assert (0 <= calls (it_Name x) l) as Hpos by (apply calls_pos; eapply Forall_impl; [exact Hl|by intros ? []]).
  destruct (decide (it_Name x ∈ names)) as [Hin|Hin]; [exists names|exists (names ++ [it_Name x])]; unfold merge_item.
  - destruct names as [|k ns _] using rev_ind; [by apply not_elem_of_nil in Hin|]. assert (k = it_Name x) as ->.
    { apply (anti_symm String.le); [apply Hmax, elem_of_app; right; by left|]. apply elem_of_app in Hin as [Hin|Hin%list_elem_of_singleton]; [|by rewrite Hin].
      apply StronglySorted_app in Hs as [Hs _]. apply Hs; [done|by left]. }
    apply NoDup_app in Hnd as (Hns & Hdisj & _). rewrite fmap_app.
    change (line_of f l <$> [it_Name x]) with [line_of f l (it_Name x)]. rewrite last_snoc. cbn [line_of it_Name it_Price it_Count].
    rewrite <-Hpx, bool_decide_true, Heq by done. cbn [andb]. rewrite removelast_last. split; [|done| |].
    + rewrite fmap_app. f_equal; [apply list_fmap_ext; intros i n Hi; symmetry; apply Hother; [apply elem_of_app; left|]|].
      * by eapply list_elem_of_lookup_2.
      * intros ->. apply (Hdisj (it_Name x)); [by eapply list_elem_of_lookup_2|by left].
      * cbn. unfold line_of. rewrite calls_app, decide_True, <-Hpx by done. do 3 f_equal. destruct (Z.ltb_spec (max_int - Z.min max_int (calls (it_Name x) l)) (it_Count x)); lia.
    + apply NoDup_app. split_and!; [done|done|apply NoDup_singleton].
    + intros n. rewrite Hn, fmap_app, elem_of_app. cbn. rewrite list_elem_of_singleton. split; [by left|]. intros [?| ->]; [done|]. by apply Hn.
  - assert (calls (it_Name x) l = 0) as Hc0.
    { unfold calls. replace (filter (λ i, it_Name i = it_Name x) l) with (@nil ToolSurchargeItem); [done|]. symmetry. apply elem_of_nil_inv.
      intros y [Ey Hy]%list_elem_of_filter. apply Hin, Hn. rewrite <-Ey. by apply list_elem_of_fmap_2. }
    assert ((match last (line_of f l <$> names) with Some i => if bool_decide (it_Name i = it_Name x) && SFeqb (it_Price i) (it_Price x)
        then removelast (line_of f l <$> names) ++ [MkItem (it_Name i) (if max_int - it_Count i <? it_Count x then max_int else it_Count i + it_Count x) (it_Price i)]
        else (line_of f l <$> names) ++ [x] | None => (line_of f l <$> names) ++ [x] end) = (line_of f l <$> names) ++ [x]) as ->.
    { destruct names as [|k ns _] using rev_ind; [done|]. rewrite fmap_app. change (line_of f l <$> [k]) with [line_of f l k]. rewrite last_snoc. cbn [line_of it_Name]. rewrite bool_decide_false; [done|]. intros ->. apply Hin, elem_of_app. right. by left. }
    split.
    + rewrite fmap_app. f_equal; [apply list_fmap_ext; intros i n Hi; symmetry; apply Hother; [by eapply list_elem_of_lookup_2|]|].
      * intros ->. by apply Hin, (list_elem_of_lookup_2 _ i).
      * cbn. unfold line_of. rewrite calls_app, decide_True, Hc0, <-Hpx by done. destruct x as [xn xc xp]. cbn in *. do 2 f_equal. lia.
    + apply StronglySorted_app. split_and!; [intros a b Ha ->%list_elem_of_singleton; by apply Hmax|done|by repeat constructor].
    + apply NoDup_app. split_and!; [done|by intros n Hn1 ->%list_elem_of_singleton|apply NoDup_singleton].
    + intros n. rewrite fmap_app, !elem_of_app, Hn. done.
Qed.

Lemma SFltb_asym x y : SFltb x y = true → SFltb y x = false.
Proof.
  unfold SFltb. destruct x as [[]|[]| |[] m e], y as [[]|[]| |[] n f]; cbn; try done; rewrite (Z.compare_antisym e f);
    destruct (Z.compare e f); cbn; try done; pose proof (Pos.compare_cont_antisym m n Eq) as Ec; cbn in Ec; rewrite <-Ec; by destruct (Pos.compare_cont Eq m n).
Qed.
#[local] Instance item_le_total : Total item_le.
Proof.
  intros a b. unfold item_le. destruct (decide (it_Name a = it_Name b)) as [E|E].
  - rewrite decide_True by done. destruct (SFltb (it_Price b) (it_Price a)) eqn:Es; [right; by apply SFltb_asym|by left].
  - rewrite decide_False by congruence. apply (total String.le).
Qed.

Lemma merge_lines f l : Forall (priced_by f) l → ∃ names, merged_as f l (mergeToolSurchargeItems l) names.
Proof.
  intros Hl. unfold mergeToolSurchargeItems. pose proof (Sorted_merge_sort item_le l) as Hs. pose proof (merge_sort_Permutation item_le l) as Hp.
  assert (Forall (priced_by f) (merge_sort item_le l)) as Hl' by (by rewrite Hp).
  assert (StronglySorted (λ a b, String.le (it_Name a) (it_Name b)) (merge_sort item_le l)) as Hss.
  { apply Sorted_StronglySorted; [intros a b c; apply (transitivity (R:=String.le))|]. revert Hs. generalize (merge_sort item_le l). intros m Hm.
    induction Hm as [|a m Hm IH Hd]; [constructor|]. constructor; [done|]. destruct Hd as [|b m Hab]; constructor. unfold item_le in Hab. destruct (decide _) as [E|]; [|done].
    rewrite E. apply (reflexivity (R:=String.le)). }
  assert (∃ names, merged_as f (merge_sort item_le l) (foldl merge_item [] (merge_sort item_le l)) names) as [names [M1 M2 M3 M4]].
  { revert Hl' Hss. generalize (merge_sort item_le l). intros m. induction m as [|x m IH] using rev_ind; intros Hm Hss.
    - exists []. split; [done|constructor|constructor|by intros n].
    - rewrite foldl_app. apply StronglySorted_app in Hss as (Hx & Hss & _). pose proof (proj1 (proj1 (Forall_app _ _ _) Hm)) as Hm'. destruct (IH Hm' Hss) as [names Hnames].
      apply (merged_snoc f m _ names x); [done| |done]. apply Forall_forall. intros y Hy. apply Hx; [done|by left]. }
  exists names. split; [|done|done|].
  - rewrite M1. apply list_fmap_ext. intros i n _. unfold line_of. by rewrite (calls_perm n _ _ Hp).
  - intros n. rewrite M4. by rewrite Hp.
Qed.

Lemma merge_perm f l l' : Forall (priced_by f) l → l ≡ₚ l' → mergeToolSurchargeItems l = mergeToolSurchargeItems l'.
Proof.
  intros Hl Hp. destruct (merge_lines f l Hl) as [names [-> S1 N1 E1]]. destruct (merge_lines f l' ltac:(by rewrite <-Hp)) as [names' [-> S2 N2 E2]].
  assert (names = names') as ->.
  { apply (StronglySorted_unique String.le); [done|done|]. apply NoDup_Permutation; [done|done|]. intros n. rewrite E1, E2. by rewrite Hp. }
  apply list_fmap_ext. intros i n _. unfold line_of. by rewrite (calls_perm n _ _ Hp).
Qed.
Section charges.
Context {D : Type} `{DecimalOpsLaws D}.
Abbreviation val := (dec_value (D := D)).
Abbreviation price := (λ x, val (dec_NewFromFloat x)).

Lemma price_nonneg x : good x → (0 <= val (dec_NewFromFloat x : D))%Q.
Proof. intros [H1 H2]. by apply (dec_NewFromFloat_sign (D:=D)). Qed.
Lemma mul_nonneg a b : (0 <= val a)%Q → (0 <= val b)%Q → (0 <= val (dec_Mul a b))%Q.
Proof. intros. rewrite (dec_Mul_exact (D:=D)). by apply Qmult_le_0_compat. Qed.
Lemma add_nonneg a b : (0 <= val a)%Q → (0 <= val b)%Q → (0 <= val (dec_Add a b))%Q.
Proof. intros Ha Hb. rewrite (dec_Add_exact (D:=D)). apply (Qplus_le_compat 0 _ 0 _ Ha Hb). Qed.
Lemma int_nonneg n : 0 <= n → (0 <= val (dec_NewFromInt n))%Q.
Proof. intros Hn. rewrite (dec_NewFromInt_exact (D:=D)). by rewrite (Zle_Qle 0 n) in Hn. Qed.
Lemma zero_nonneg : (0 <= val dec_zero)%Q.
Proof. by rewrite (dec_zero_value (D:=D)). Qed.
#[local] Hint Resolve price_nonneg mul_nonneg add_nonneg int_nonneg zero_nonneg : quota.

Lemma good_ratio r : isValidOtherRatio r = true → good r.
Proof. intros Hr. split; [|by apply fpos_valid]. revert Hr. unfold isValidOtherRatio, SFltb, fzero. by destruct r as [[]|[]| |[] m e]. Qed.
Lemma apply_nonneg p d : (0 <= val d)%Q → (0 <= val (ApplyOtherRatiosToDecimal p d))%Q.
Proof.
  unfold ApplyOtherRatiosToDecimal. assert (Forall good (other_ratios p)) as Hl.
  { apply Forall_forall. intros x [Hx _]%list_elem_of_filter. apply andb_prop in Hx as [Hx _]. by apply good_ratio. }
  revert d. induction Hl as [|x l Hx _ IH]; intros d Hd; [done|]. cbn. apply IH. auto with quota.
Qed.

(** ** Tools *)

Definition item_ok (i : ToolSurchargeItem) : Prop := 0 < it_Count i <= max_int ∧ good (it_Price i).
Lemma collect_ok idx name count model items : count <= max_int → Forall item_ok items → Forall item_ok (collectToolSurchargeItem idx name count model items).
Proof.
  intros Hc Hi. unfold collectToolSurchargeItem. destruct (count <=? 0) eqn:E; [done|]. apply Z.leb_gt in E. cbv zeta.
  destruct (float_le _ 0) eqn:E1; [done|]. destruct (is_finite _) eqn:E2; [|done]. cbn. apply Forall_app. split; [done|]. constructor; [|constructor].
  split; [cbn; lia|]. cbn. split; [done|]. destruct (GetToolPriceForModel idx name model) as [s|s| |[] m e]; cbn in *; try done.
  exfalso. revert E1. unfold Qle_bool, dyadic. destruct (0 <=? e) eqn:Ee; cbn; intros Hle%Z.leb_gt; [|lia]. apply Z.leb_le in Ee.
  pose proof (Z.pow_nonneg 2 e ltac:(lia)). nia.
Qed.
Lemma merge_item_ok merged item : Forall item_ok merged → item_ok item → Forall item_ok (merge_item merged item).
Proof.
  intros Hm Hi. unfold merge_item. destruct (last merged) as [l|] eqn:El; [|by apply Forall_app_2; [done|apply Forall_singleton]].
  apply last_Some in El as [m ->]. apply Forall_app in Hm as [Hm Hl]. rewrite Forall_singleton in Hl. destruct (_ && _).
  - rewrite removelast_last. apply Forall_app. split; [done|]. apply Forall_singleton. destruct Hl as [Hl1 Hl2], Hi as [Hi1 _]. split; [cbn|done].
    destruct (Z.ltb_spec (max_int - it_Count l) (it_Count item)); unfold max_int in *; lia.
  - rewrite !Forall_app, !Forall_singleton. done.
Qed.
Lemma merge_ok items : Forall item_ok items → Forall item_ok (mergeToolSurchargeItems items).
Proof.
  intros Hi. unfold mergeToolSurchargeItems. rewrite <-(merge_sort_Permutation item_le items) in Hi. revert Hi. generalize (merge_sort item_le items). intros l Hl.
  assert (Forall item_ok []) as Hnil by constructor. revert Hnil. generalize (@nil ToolSurchargeItem). induction Hl as [|x l Hx _ IH]; intros acc Hacc; [done|].
  cbn. apply IH. by apply merge_item_ok.
Qed.

(** The counts of a request fit into an [int]. *)
Definition tools_ok {RI} (t : text_request RI) : Prop :=
  Forall (λ e, ∀ n, e.2 = Some n → n <= max_int) (default [] (tr_BuiltInTools t)) ∧ tr_claude_web_search_requests t <= max_int.
Lemma tool_items_ok {RI} o (t : text_request RI) model : tools_ok t → Forall item_ok (tool_items o t model).
Proof.
  intros [Ht Hc]. unfold tool_items. cbv zeta.
  assert (∀ items, Forall item_ok items → Forall item_ok (foldl (λ items e, match e.2 with Some n => collectToolSurchargeItem (to_tools o) e.1 n model items | None => items end)
    items (default [] (tr_BuiltInTools t)))) as Hf.
  { induction Ht as [|[name n] l Hn _ IH]; intros items Hi; [done|]. cbn. apply IH. destruct n as [n|]; [|done]. apply collect_ok; [by apply Hn|done]. }
  assert (1 <= max_int) as H1 by done. specialize (Hf [] ltac:(constructor)).
  destruct (tr_gemini_google_search_call t); repeat (apply collect_ok; [done|]); destruct (_ && _); try done; by apply collect_ok.
Qed.

(** The request with the tools of a walk over its map. *)
Definition with_tools {RI} (t : text_request RI) (l : list (string * option Z)) : text_request RI :=
  MkTextRequest (tr_RelayMode t) (tr_PriceData t) (tr_TieredBillingSnapshot t) (tr_BillingRequestInput t) (tr_ChannelType t) (tr_ChannelId t)
    (tr_FinalRequestRelayFormat t) (tr_RequestConversionChain t) (tr_RelayFormat t) (tr_EstimatePromptTokens t) (Some l)
    (tr_claude_web_search_requests t) (tr_gemini_google_search_call t).
Lemma collect_app idx name count model items : collectToolSurchargeItem idx name count model items = items ++ collectToolSurchargeItem idx name count model [].
Proof. unfold collectToolSurchargeItem. destruct (count <=? 0); [by rewrite app_nil_r|]. cbv zeta. destruct (_ || _); [by rewrite app_nil_r|done]. Qed.
Definition entry_items (o : text_options) (model : string) (e : string * option Z) : list ToolSurchargeItem :=
  match e.2 with Some n => collectToolSurchargeItem (to_tools o) e.1 n model [] | None => [] end.
Lemma walk_items o model l items :
  foldl (λ items e, match e.2 with Some n => collectToolSurchargeItem (to_tools o) e.1 n model items | None => items end) items l = items ++ (l ≫= entry_items o model).
Proof.
  revert items. induction l as [|[name n] l IH]; intros items; cbn [foldl]; [by rewrite app_nil_r|]. rewrite IH, bind_cons, app_assoc. f_equal.
  unfold entry_items. destruct n as [n|]; cbn; [apply collect_app|by rewrite app_nil_r].
Qed.
Lemma tool_items_perm {RI} o (t : text_request RI) model l l' : l ≡ₚ l' → tool_items o (with_tools t l) model ≡ₚ tool_items o (with_tools t l') model.
Proof.
  intros Hp. unfold tool_items. cbv zeta. cbn [with_tools tr_BuiltInTools tr_RelayMode tr_claude_web_search_requests tr_gemini_google_search_call default from_option].
  rewrite !walk_items. assert ([] ++ (l ≫= entry_items o model) ≡ₚ [] ++ (l' ≫= entry_items o model)) as Hw by (by rewrite Hp).
  assert (∀ name c a b, a ≡ₚ b → collectToolSurchargeItem (to_tools o) name c model a ≡ₚ collectToolSurchargeItem (to_tools o) name c model b) as Hc.
  { intros name c a b Hab. rewrite (collect_app _ _ _ _ a), (collect_app _ _ _ _ b). by rewrite Hab. }
  destruct (_ && _), (tr_gemini_google_search_call t); repeat apply Hc; done.
Qed.
(** The price of an item is that of its tool. *)
Lemma collect_priced idx name count model items : Forall (λ i, it_Price i = GetToolPriceForModel idx (it_Name i) model) items →
  Forall (λ i, it_Price i = GetToolPriceForModel idx (it_Name i) model) (collectToolSurchargeItem idx name count model items).
Proof. intros Hi. unfold collectToolSurchargeItem. destruct (count <=? 0); [done|]. cbv zeta. destruct (_ || _); [done|]. apply Forall_app. by repeat constructor. Qed.
Lemma tool_items_priced {RI} o (t : text_request RI) model : tools_ok t → Forall (priced_by (λ name, GetToolPriceForModel (to_tools o) name model)) (tool_items o t model).
Proof.
  intros Ht. pose proof (tool_items_ok o t model Ht) as Hok. assert (Forall (λ i, it_Price i = GetToolPriceForModel (to_tools o) (it_Name i) model) (tool_items o t model)) as Hp.
  { unfold tool_items. cbv zeta. rewrite walk_items. assert (Forall (λ i, it_Price i = GetToolPriceForModel (to_tools o) (it_Name i) model) ([] ++ (default [] (tr_BuiltInTools t) ≫= entry_items o model))) as Hw.
    { apply Forall_bind, Forall_true. intros [name [n|]]; [by apply collect_priced|constructor]. }
    destruct (_ && _), (tr_gemini_google_search_call t); repeat apply collect_priced; done. }
  apply Forall_forall. rewrite !Forall_forall in *. intros i Hi. destruct (Hok i Hi) as [Hc [Hf _]]. split_and!; [lia|lia|by apply Hp| |];
    revert Hf; destruct (it_Price i) as [[]|[]| |[] m e]; try done; intros _; unfold SFltb, SFeqb; cbn; rewrite Z.compare_refl; by rewrite Pos.compare_cont_refl.
Qed.
Lemma items_order_free {RI} o (t : text_request RI) model l l' : tools_ok (with_tools t l) → l ≡ₚ l' →
  mergeToolSurchargeItems (tool_items o (with_tools t l) model) = mergeToolSurchargeItems (tool_items o (with_tools t l') model).
Proof. intros Ht Hp. eapply merge_perm; [by apply tool_items_priced|by apply tool_items_perm]. Qed.

Lemma item_quota_nonneg o ratio i : item_ok i → good ratio → good (to_QuotaPerUnit o) → (0 <= val (item_quota o ratio i))%Q.
Proof.
  intros [Hi Hp] Hr Hu. unfold item_quota. repeat apply mul_nonneg; auto with quota. apply (dec_Div_sign (D:=D)); [|by rewrite (dec_NewFromInt_exact (D:=D))].
  apply mul_nonneg; auto with quota. apply int_nonneg. lia.
Qed.
Lemma surcharge_nonneg {RI} o (t : text_request RI) model ratio : tools_ok t → good ratio → good (to_QuotaPerUnit o) →
  (0 <= val (calculateTextToolCallSurcharge o t model ratio).2)%Q.
Proof.
  intros Ht Hr Hu. cbn. pose proof (merge_ok _ (tool_items_ok o t model Ht)) as Hi. revert Hi. generalize (mergeToolSurchargeItems (tool_items o t model)).
  intros l Hl. pose proof zero_nonneg as Hz. revert Hz. generalize (dec_zero (D:=D)). induction Hl as [|i l Hx _ IH]; intros a Ha; [done|]. cbn. apply IH.
  apply add_nonneg; [done|]. by apply item_quota_nonneg.
Qed.

(** ** The range of a charge *)

Lemma clamp_nonneg q : (0 <= q)%Q → 0 <= clampQuota (Qround_away q) <= MaxQuota.
Proof.
  intros Hq. assert (0 <= Qround_away q) as Hr; [|unfold clampQuota, MinQuota, MaxQuota in *; lia].
  unfold Qround_away, Qle in *. cbn in Hq. destruct (Z.ltb_spec (Qnum q) 0); [lia|]. apply Z.div_pos; lia.
Qed.

Lemma audio_price_good model : good (GetGeminiInputAudioPricePerMillionTokens model).
Proof.
  unfold GetGeminiInputAudioPricePerMillionTokens. repeat match goal with |- good (if ?b then _ else _) => destruct b end; split; vm_compute; reflexivity.
Qed.
Lemma audio_nonneg o p n model : price_ok p → good (to_QuotaPerUnit o) → 0 <= tc_audio n → (0 <= val (audio_quota o p n model))%Q.
Proof.
  intros Hp Hu Hn. unfold audio_quota. destruct (audio_priced n model); [|apply zero_nonneg].
  repeat apply mul_nonneg; auto with quota; [|apply price_nonneg, Hp]. apply (dec_Div_sign (D:=D)); [|by rewrite (dec_NewFromInt_exact (D:=D))].
  apply price_nonneg, audio_price_good.
Qed.

(** A decimal for tokens is positive, or the model is free. *)
Lemma token_decimal_nonneg o p n apart model surcharge : price_ok p → good (to_QuotaPerUnit o) → 0 <= tc_audio n → (0 <= val surcharge)%Q →
  (0 <= val (token_decimal o p n apart model surcharge))%Q.
Proof.
  intros Hp Hu Hn Hs. unfold token_decimal. cbv zeta. destruct (dec_IsZero (ratio_of_price p)) eqn:Ez; cbn [negb andb].
  - apply (dec_IsZero_spec (D:=D)) in Ez. apply add_nonneg; [|done]. apply apply_nonneg. rewrite (dec_Add_exact (D:=D)), (dec_Mul_exact (D:=D)), Ez.
    pose proof (audio_nonneg o p n model Hp Hu Hn). lra.
  - destruct (dec_LessThanOrEqual _ _) eqn:El; [by rewrite (dec_NewFromInt_exact (D:=D))|]. apply Qnot_lt_le. intros Hlt.
    apply not_true_iff_false in El. apply El, (dec_LessThanOrEqual_spec (D:=D)). rewrite (dec_zero_value (D:=D)). by apply Qlt_le_weak.
Qed.
Lemma call_decimal_nonneg o p surcharge : price_ok p → pd_UsePrice p = true → good (to_QuotaPerUnit o) → (0 <= val surcharge)%Q → (0 <= val (call_decimal o p surcharge))%Q.
Proof.
  intros Hp Hup Hu Hs. unfold call_decimal. apply add_nonneg; [|done]. apply apply_nonneg, add_nonneg; [|apply zero_nonneg].
  repeat apply mul_nonneg; apply price_nonneg; [by apply Hp|done|apply Hp].
Qed.

(** The kinds of tokens of a summary, as they are billed. *)
Definition counts_of (s : textQuotaSummary (D:=D)) : token_counts :=
  MkCounts (sm_PromptTokens s) (sm_CompletionTokens s) (sm_CacheTokens s) (sm_CacheCreationTokens s) (sm_CacheCreationTokens5m s)
    (sm_CacheCreationTokens1h s) (sm_ImageTokens s) (sm_AudioTokens s).

(** The quota of a summary is that of its decimal, unless there is nothing to
    bill or the quota would be lost in rounding. *)
Lemma summary_quota {RI} o wild (t : text_request RI) model usage :
  let s := (calculateTextQuotaSummary (D:=D) o wild t model usage).1 in
  let p := tr_PriceData t in
  let u := default (plain_usage (tr_EstimatePromptTokens t) 0 (tr_EstimatePromptTokens t)) usage in
  let apart := sm_IsClaudeUsageSemantic s || isLegacyClaudeDerivedOpenAIUsage t u in
  let decimal := if pd_UsePrice p then call_decimal o p (sm_ToolCallSurchargeQuota s) else token_decimal o p (counts_of s) apart model (sm_ToolCallSurchargeQuota s) in
  let quota := clampQuota (Qround_away (val decimal)) in
  sm_ToolCallSurchargeQuota s = (calculateTextToolCallSurcharge o t model (pd_ChannelRatio p)).2 ∧ sm_AudioTokens s = in_AudioTokens (us_PromptTokensDetails u) ∧
  sm_Quota s = if negb (hasBillableUsage s) then 0 else if negb (dec_IsZero (ratio_of_price p : D)) && (quota =? 0) then 1 else quota.
Proof.
  cbv zeta. unfold calculateTextQuotaSummary. cbv zeta. destruct (if _ : bool then openrouter_tokens _ _ _ _ _ _ _ _ else _) as [prompt creation].
  destruct (calculateTextToolCallSurcharge o t model _) as [items surcharge] eqn:Es. destruct (QuotaFromDecimalChecked _) as [q c] eqn:Eq. cbn [fst snd sm_ToolCallSurchargeQuota].
  split_and!; [done|done|]. cbn [sm_Quota].
  match type of Eq with QuotaFromDecimalChecked ?d = _ => pose proof (QuotaFromDecimal_clamps d) as Hc end. unfold QuotaFromDecimal in Hc. rewrite Eq in Hc. cbn [fst] in Hc.
  subst q. unfold counts_of. cbn [sm_PromptTokens sm_CompletionTokens sm_CacheTokens sm_CacheCreationTokens sm_CacheCreationTokens5m sm_CacheCreationTokens1h sm_ImageTokens sm_AudioTokens sm_IsClaudeUsageSemantic sm_ToolCallSurchargeQuota].
  by destruct (pd_UsePrice (tr_PriceData t)).
Qed.

Lemma summary_range {RI} o wild (t : text_request RI) model usage :
  price_ok (tr_PriceData t) → good (to_QuotaPerUnit o) → tools_ok t →
  0 <= in_AudioTokens (us_PromptTokensDetails (default (plain_usage 0 0 0) usage)) →
  let s := (calculateTextQuotaSummary (D:=D) o wild t model usage).1 in
  0 <= sm_Quota s <= MaxQuota ∧ (hasBillableUsage s = false → sm_Quota s = 0) ∧
  (hasBillableUsage s = true → dec_IsZero (ratio_of_price (tr_PriceData t) : D) = false → 1 <= sm_Quota s).
Proof.
  intros Hp Hu Ht Ha. cbv zeta. destruct (summary_quota o wild t model usage) as (Es & Eau & Eq). cbv zeta in Es, Eau, Eq.
  pose proof (surcharge_nonneg o t model (pd_ChannelRatio (tr_PriceData t)) Ht ltac:(apply Hp) Hu) as Hs. rewrite <-Es in Hs.
  set (s := (calculateTextQuotaSummary o wild t model usage).1) in *. assert (0 <= tc_audio (counts_of s)) as Hau.
  { change (0 <= sm_AudioTokens s). rewrite Eau. by destruct usage. }
  set (decimal := if pd_UsePrice _ then _ else _) in Eq. assert (0 <= val decimal)%Q as Hd.
  { subst decimal. destruct (pd_UsePrice (tr_PriceData t)) eqn:Eu; [by apply call_decimal_nonneg|by apply token_decimal_nonneg]. }
  apply clamp_nonneg in Hd. rewrite Eq. destruct (hasBillableUsage s); cbn [negb]; [|split_and!; [done|done|done|done]].
  destruct (dec_IsZero _); cbn [negb andb]; [split_and!; [lia|lia|done|done]|].
  destruct (Z.eqb_spec (clampQuota (Qround_away (val decimal))) 0); split_and!; try done; unfold MaxQuota in *; lia.
Qed.

(** Whatever an upstream reports, the quota of a text request is neither
    negative nor above the largest quota; without tokens and without tool calls
    it is zero, and otherwise at least one if the model has a ratio that is not
    zero. *)
Theorem text_quota_in_range {RI} o wild (t : text_request RI) model usage :
  price_ok (tr_PriceData t) → good (to_QuotaPerUnit o) → tools_ok t →
  0 <= in_AudioTokens (us_PromptTokensDetails (default (plain_usage 0 0 0) usage)) →
  let s := (calculateTextQuotaSummary (D:=D) o wild t model usage).1 in
  0 <= sm_Quota s <= MaxQuota ∧ (hasBillableUsage s = false → sm_Quota s = 0) ∧
  (hasBillableUsage s = true → dec_IsZero (ratio_of_price (tr_PriceData t) : D) = false → 1 <= sm_Quota s).
Proof. apply summary_range. Qed.

(** C11: the summary of a text request, its quota and its tool lines, does not
    depend on the order in which Go walks over the map of the tools. *)
Theorem surcharge_order_free {RI} o wild (t : text_request RI) model usage l l' : tools_ok (with_tools t l) → l ≡ₚ l' →
  calculateTextQuotaSummary (D:=D) o wild (with_tools t l) model usage = calculateTextQuotaSummary o wild (with_tools t l') model usage.
Proof.
  intros Ht Hp. unfold calculateTextQuotaSummary, calculateTextToolCallSurcharge. rewrite (items_order_free o t model l l' Ht Hp). reflexivity.
Qed.

(** ** The reference price *)

Definition audio_part (n : token_counts) (model : string) : Z := if audio_priced (D:=D) n model then tc_audio n else 0.
(** The prompt tokens that are of no special kind; none, if a provider reports
    kinds that overlap and are more than the prompt together. *)
Definition fresh_tokens (n : token_counts) (apart : bool) (model : string) : Z :=
  Z.max 0 (tc_prompt n - (if apart then 0 else tc_cache n + tc_creation n) - tc_image n - audio_part n model).
(** Cache writes: at one price, or apart at those of their lifetimes. *)
Definition written_price (p : PriceData) (n : token_counts) (apart : bool) : Q :=
  if apart then inject_Z (Z.max 0 (tc_creation n - tc_5m n - tc_1h n)) * price (pd_CacheCreationRatio p)
    + inject_Z (tc_5m n) * price (pd_CacheCreation5mRatio p) + inject_Z (tc_1h n) * price (pd_CacheCreation1hRatio p)
  else inject_Z (tc_creation n) * price (pd_CacheCreationRatio p).
Definition others (p : PriceData) : Q := foldr (λ r q, price r * q)%Q 1%Q (other_ratios p).
Definition reference_price (o : text_options) (p : PriceData) (n : token_counts) (apart : bool) (model : string) (surcharge : D) : Q :=
  ((inject_Z (fresh_tokens n apart model) + inject_Z (tc_cache n) * price (pd_CacheRatio p) + inject_Z (tc_image n) * price (pd_ImageRatio p)
    + written_price p n apart + inject_Z (tc_completion n) * price (pd_CompletionRatio p)) * (price (pd_ModelRatio p) * price (pd_ChannelRatio p))
   + val (audio_quota o p n model)) * others p + val surcharge.

(** Token counts that are not negative and whose differences are [int]s. *)
Definition counts_ok (n : token_counts) : Prop :=
  Forall (λ z, 0 <= z <= 2 ^ 60) [tc_prompt n; tc_completion n; tc_cache n; tc_creation n; tc_5m n; tc_1h n; tc_image n; tc_audio n].

Lemma Qround_away_comp a b : (0 <= a)%Q → (a == b)%Q → Qround_away a = Qround_away b.
Proof.
  intros Ha E. destruct (Qround_away_spec a) as ([A1 _] & A2 & _), (Qround_away_spec b) as ([B1 _] & B2 & _). specialize (A2 Ha). specialize (B2 ltac:(by rewrite <-E)).
  assert (inject_Z (2 * Qround_away a - 1) < inject_Z (2 * Qround_away b + 1))%Q as H1 by lra.
  assert (inject_Z (2 * Qround_away b - 1) < inject_Z (2 * Qround_away a + 1))%Q as H2 by lra. rewrite <-Zlt_Qlt in H1, H2. lia.
Qed.

Lemma int_val n : (val (dec_NewFromInt n : D) == inject_Z n)%Q.
Proof. apply (dec_NewFromInt_exact (D:=D)). Qed.
Lemma int_IsZero n : dec_IsZero (dec_NewFromInt n : D) = (n =? 0).
Proof.
  apply eq_bool_prop_intro. rewrite !Is_true_true, (dec_IsZero_spec (D:=D)), int_val, Z.eqb_eq. unfold Qeq. cbn. lia.
Qed.
Lemma counted_with n x : (val (if n =? 0 then dec_zero else dec_Mul (dec_NewFromInt n) (dec_NewFromFloat x) : D) == inject_Z n * price x)%Q.
Proof.
  destruct (Z.eqb_spec n 0) as [->|]; [rewrite (dec_zero_value (D:=D)); ring|]. by rewrite (dec_Mul_exact (D:=D)), int_val.
Qed.
Lemma others_val p d : (val (ApplyOtherRatiosToDecimal p d : D) == val d * others p)%Q.
Proof.
  unfold ApplyOtherRatiosToDecimal, others. generalize (other_ratios p). intros l.
  revert d. induction l as [|r l IH]; intros d; cbn [foldl foldr]; [ring|]. rewrite IH, (dec_Mul_exact (D:=D)). ring.
Qed.
Lemma sub_val (a : D) x y : (val a == inject_Z x)%Q → (val (dec_Sub a (dec_NewFromInt y)) == inject_Z (x - y))%Q.
Proof. intros E. rewrite (dec_Sub_exact (D:=D)), E, int_val. unfold Qeq. cbn. lia. Qed.
Lemma sub_unless (b : bool) (a : D) x y : (val a == inject_Z x)%Q → (val (if b then a else dec_Sub a (dec_NewFromInt y)) == inject_Z (x - if b then 0 else y))%Q.
Proof. intros E. destruct b; [by rewrite Z.sub_0_r|by apply sub_val]. Qed.
Lemma sub_when (b : bool) (a : D) x y : (val a == inject_Z x)%Q → (val (if b then dec_Sub a (dec_NewFromInt y) else a) == inject_Z (x - if b then y else 0))%Q.
Proof. intros E. destruct b; [by apply sub_val|by rewrite Z.sub_0_r]. Qed.

Lemma base_val n apart model : (val (base_tokens n apart model : D) == inject_Z (fresh_tokens n apart model))%Q.
Proof.
  unfold base_tokens. cbv zeta. unfold writes. rewrite !int_IsZero.
  set (b1 := if (tc_cache n =? 0) || apart then _ else _). pose proof (sub_unless _ _ _ (tc_cache n) (int_val (tc_prompt n)) : val b1 == _)%Q as E1.
  set (b2 := if _ && negb apart then _ else b1). pose proof (sub_when _ _ _ (tc_creation n) E1 : val b2 == _)%Q as E2.
  set (b3 := if tc_image n =? 0 then b2 else _). pose proof (sub_unless _ _ _ (tc_image n) E2 : val b3 == _)%Q as E3.
  set (b4 := if audio_priced n model then _ else b3). pose proof (sub_when _ _ _ (tc_audio n) E3 : val b4 == _)%Q as E4.
  set (rest := tc_prompt n - (if apart then 0 else tc_cache n + tc_creation n) - tc_image n - audio_part n model).
  assert (val b4 == inject_Z rest)%Q as E.
  { rewrite E4. unfold rest, audio_part. destruct apart, (audio_priced n model), (Z.eqb_spec (tc_cache n) 0), (Z.eqb_spec (tc_creation n) 0), (Z.eqb_spec (tc_image n) 0), ((0 <? tc_5m n) || (0 <? tc_1h n));
      cbn [orb andb negb]; unfold Qeq; cbn; lia. }
  change (fresh_tokens n apart model) with (Z.max 0 rest). destruct (dec_IsNegative b4) eqn:En.
  - apply (dec_IsNegative_spec (D:=D)) in En. rewrite E in En. rewrite <-(Zlt_Qlt _ 0) in En. rewrite Z.max_l by lia. apply (dec_zero_value (D:=D)).
  - apply not_true_iff_false in En. rewrite (dec_IsNegative_spec (D:=D)), E in En. apply Qnot_lt_le in En. rewrite <-(Zle_Qle 0) in En. by rewrite Z.max_r.
Qed.
Lemma written_val p n apart : counts_ok n → (val (written_with_ratio p n apart : D) == written_price p n apart)%Q.
Proof.
  intros Hs. unfold counts_ok in Hs. rewrite !Forall_cons in Hs. unfold written_with_ratio. destruct (writes n) eqn:Ew.
  - destruct apart; cbn [negb written_price]; [|by rewrite (dec_Mul_exact (D:=D)), int_val]. cbv zeta.
    rewrite !(i64_id (tc_creation n - tc_5m n)), !i64_id by (unfold in_i64, min_i64, max_i64; lia).
    replace (if tc_creation n - tc_5m n - tc_1h n <? 0 then 0 else tc_creation n - tc_5m n - tc_1h n) with (Z.max 0 (tc_creation n - tc_5m n - tc_1h n))
      by (destruct (Z.ltb_spec (tc_creation n - tc_5m n - tc_1h n) 0); lia).
    by rewrite !(dec_Add_exact (D:=D)), !(dec_Mul_exact (D:=D)), !int_val.
  - unfold writes in Ew. rewrite int_IsZero in Ew. apply orb_false_iff in Ew as [E1 E2%orb_false_iff]. apply negb_false_iff, Z.eqb_eq in E1. destruct E2 as [E2%Z.ltb_ge E3%Z.ltb_ge].
    assert (tc_5m n = 0) as E4 by lia. assert (tc_1h n = 0) as E5 by lia. unfold written_price. rewrite E1, E4, E5, (dec_zero_value (D:=D)). change (Z.max 0 (0 - 0 - 0)) with 0. change (inject_Z 0) with 0%Q. destruct apart; ring.
Qed.

Lemma Qplus_nonneg a b : (0 <= a)%Q → (0 <= b)%Q → (0 <= a + b)%Q.
Proof. intros. lra. Qed.
Lemma int_price_nonneg n x : 0 <= n → good x → (0 <= inject_Z n * price x)%Q.
Proof. intros Hn Hx. apply Qmult_le_0_compat; [by rewrite (Zle_Qle 0 n) in Hn|by apply price_nonneg]. Qed.
Lemma parts_nonneg p n apart model : price_ok p → counts_ok n →
  (0 <= val (dec_Add (dec_Add (dec_Add (base_tokens n apart model) (cached_with_ratio p n)) (image_with_ratio p n)) (written_with_ratio p n apart) : D))%Q.
Proof.
  intros Hp Hc. pose proof Hc as Hs. unfold counts_ok in Hs. rewrite !Forall_cons in Hs. destruct Hp. repeat apply add_nonneg.
  - rewrite base_val, <-(Zle_Qle 0). apply Z.le_max_l.
  - unfold cached_with_ratio. rewrite int_IsZero, counted_with. apply int_price_nonneg; [lia|done].
  - unfold image_with_ratio. rewrite int_IsZero, counted_with. apply int_price_nonneg; [lia|done].
  - rewrite (written_val p n apart Hc). unfold written_price. destruct apart; [|apply int_price_nonneg; [lia|done]].
    pose proof (int_price_nonneg (Z.max 0 (tc_creation n - tc_5m n - tc_1h n)) _ ltac:(lia) po_creation0).
    pose proof (int_price_nonneg (tc_5m n) _ ltac:(lia) po_5m0). pose proof (int_price_nonneg (tc_1h n) _ ltac:(lia) po_1h0). cbv beta in *.
    rewrite <-Qplus_assoc. repeat (apply Qplus_nonneg; [done|]). done.
Qed.

(** The decimal of a request is its reference price, if that is not zero. *)
Lemma token_decimal_val o p n apart model surcharge : price_ok p → good (to_QuotaPerUnit o) → counts_ok n → (0 <= val surcharge)%Q →
  dec_IsZero (ratio_of_price p : D) = false → let ref := reference_price o p n apart model surcharge in
  (0 <= ref)%Q ∧ ((val (token_decimal o p n apart model surcharge) == ref)%Q ∨ (ref == 0)%Q ∧ (val (token_decimal o p n apart model surcharge) == 1)%Q).
Proof.
  intros Hp Hu Hc Hs Hz ref. unfold token_decimal. cbv zeta. rewrite Hz. cbn [negb andb].
  set (d := dec_Add (ApplyOtherRatiosToDecimal p _) surcharge).
  assert (val d == ref)%Q as E.
  { subst d ref. unfold reference_price, ratio_of_price. rewrite (dec_Add_exact (D:=D)), others_val, !(dec_Add_exact (D:=D)), !(dec_Mul_exact (D:=D)), !(dec_Add_exact (D:=D)), !(dec_Mul_exact (D:=D)).
    rewrite base_val, (written_val p n apart Hc), int_val. unfold cached_with_ratio, image_with_ratio. rewrite !int_IsZero, !counted_with. ring. }
  assert (0 <= val d)%Q as Hd.
  { subst d. apply add_nonneg; [|done]. pose proof Hc as Hsm. unfold counts_ok in Hsm. rewrite !Forall_cons in Hsm. apply apply_nonneg, add_nonneg; [|apply audio_nonneg; [done|done|lia]].
    apply mul_nonneg; [apply add_nonneg; [by apply (parts_nonneg p n apart model)|]|]; apply mul_nonneg; try (apply price_nonneg, Hp). apply int_nonneg. lia. }
  rewrite E in Hd. split; [done|]. destruct (dec_LessThanOrEqual d dec_zero) eqn:El.
  - right. apply (dec_LessThanOrEqual_spec (D:=D)) in El. rewrite E, (dec_zero_value (D:=D)) in El. split; [lra|apply int_val].
  - by left.
Qed.

End charges.

(** ** Charging the wallet *)

(** Counting the use of a quota changes no balance. *)
Lemma counted_update_used id q c : ∀ w, counted w (updateUserUsedQuotaAndRequestCount id q c w).2.
Proof.
  intros w. unfold updateUserUsedQuotaAndRequestCount, log_error. unfold_m. destruct (transaction _ w) as [r w1] eqn:E. apply transaction_inv in E as [Eb E]. cbn [snd].
  destruct r as [n|e]; [|by apply counted_same]. unfold UPDATE in E. unfold_m. destruct (users (w_db w) !! id) as [u|] eqn:Eu; injection E as _ E; [|by apply counted_same].
  split; [by rewrite <-E..| |]; intros v; unfold wallet_balance, user_quota, token_balance, token_remain, pending; rewrite Eb, <-E; [|done]. f_equal. cbn.
  destruct (decide (id = v)) as [->|Hne]; [by rewrite lookup_insert_eq, Eu|by rewrite lookup_insert_ne].
Qed.
Lemma counted_update_channel id q w : counted w (updateChannelUsedQuota id q w).2.
Proof.
  unfold updateChannelUsedQuota, log_error. unfold_m. destruct (transaction _ w) as [r w1] eqn:E. apply transaction_inv in E as [Eb E]. cbn [snd].
  destruct r as [n|e]; [|by apply counted_same]. unfold UPDATE in E. unfold_m. destruct (channels (w_db w) !! id) as [u|]; injection E as _ E; [|by apply counted_same].
  split; [by rewrite <-E..| |]; intros v; unfold wallet_balance, user_quota, token_balance, token_remain, pending; by rewrite Eb, <-E.
Qed.
Lemma counted_record ty id q w : ty ≠ BatchUpdateTypeUserQuota → ty ≠ BatchUpdateTypeTokenQuota → counted w (addNewRecord ty id q w).2.
Proof.
  intros H1 H2. split; [done..| |]; intros v; unfold wallet_balance, token_balance, pending; f_equal; unfold addNewRecord; unfold_m; cbn; by destruct ty.
Qed.
Lemma counted_used id q w : counted w (UpdateUserUsedQuotaAndRequestCount id q w).2.
Proof.
  unfold UpdateUserUsedQuotaAndRequestCount, BatchUpdateEnabled. unfold_m. destruct (w_BatchUpdateEnabled w); [|apply counted_update_used].
  etrans; [apply (counted_record BatchUpdateTypeUsedQuota id q); done|by apply (counted_record BatchUpdateTypeRequestCount id 1)].
Qed.
Lemma counted_channel id q w : counted w (UpdateChannelUsedQuota id q w).2.
Proof.
  unfold UpdateChannelUsedQuota, BatchUpdateEnabled. unfold_m. destruct (w_BatchUpdateEnabled w); [|apply counted_update_channel]. by apply counted_record.
Qed.

Section paying.
Context {D : Type} `{DecimalOpsLaws D} {RI : Type} (o : text_options) (wild : float64 → Z).
Context (run_expr : string → TokenParams → RI → res (float64 * string)) (used_vars : string → string → bool) (no_request : RI).
Abbreviation post := (PostTextConsumeQuota (D:=D) o wild run_expr used_vars no_request).

(** The quota of a usage: of its tokens and tools, or the tiered one. *)
Definition charged_quota (t : text_request RI) (info : RelayInfo) (usage : option Usage) : Z :=
  let bu := effectiveBillingUsage <$> usage in
  let s := (calculateTextQuotaSummary (D:=D) o wild t (BillingModelName info) bu).1 in
  match bu with
  | None => sm_Quota s
  | Some u =>
      let vars := match tr_TieredBillingSnapshot t with Some snap => used_vars (sn_ExprString snap) | None => λ _, false end in
      match TryTieredSettle run_expr no_request t (ri_FinalPreConsumedQuota info) (BuildTieredTokenParams u (sm_IsClaudeUsageSemantic s) vars) with
      | Some (tieredQuota, tieredResult) => (composeTieredTextQuota t s tieredQuota tieredResult).1
      | None => sm_Quota s
      end
  end.
Lemma charged_untiered t info usage : tr_TieredBillingSnapshot t = None →
  charged_quota t info usage = sm_Quota (calculateTextQuotaSummary (D:=D) o wild t (BillingModelName info) (effectiveBillingUsage <$> usage)).1.
Proof. intros Ht. unfold charged_quota, TryTieredSettle. rewrite Ht. by destruct usage. Qed.

(** Steps that change neither the tables nor the session, and of the request
    only the clamp it notes. *)
Definition kept (e e' : renv) : Prop :=
  re_world e' = re_world e ∧ re_billing e' = re_billing e ∧ ri_FinalPreConsumedQuota (re_info e') = ri_FinalPreConsumedQuota (re_info e).
Lemma kept_note clamp e : ∃ e', noteQuotaClamp clamp e = (Ok tt, e') ∧ kept e e'.
Proof.
  unfold noteQuotaClamp. destruct clamp as [c|]; [|by exists e]. eexists. split; [done|]. split_and!; [done|done|]. cbn. by destruct (ri_QuotaClamp (re_info e)).
Qed.
Lemma tiered_spec t u s e : ∃ e', tiered_quota (D:=D) run_expr used_vars no_request t u s e = (Ok (
    let vars := match tr_TieredBillingSnapshot t with Some snap => used_vars (sn_ExprString snap) | None => λ _, false end in
    match TryTieredSettle run_expr no_request t (ri_FinalPreConsumedQuota (re_info e)) (BuildTieredTokenParams u (sm_IsClaudeUsageSemantic s) vars) with
    | Some (q, r) => (composeTieredTextQuota t s q r).1 | None => sm_Quota s end), e') ∧ kept e e'.
Proof.
  unfold tiered_quota. unfold mbind at 1, M_bind at 1, gets. cbv zeta. destruct (TryTieredSettle _ _ _ _ _) as [[q r]|]; [|by exists e].
  unfold mbind at 1, M_bind at 1. destruct (kept_note (r ≫= ti_Clamp) e) as (e1 & -> & A1 & B1 & C1).
  destruct (composeTieredTextQuota t s q r) as [quota clamp]. unfold mbind, M_bind. destruct (kept_note clamp e1) as (e2 & -> & A2 & B2 & C2).
  exists e2. split; [done|]. split_and!; congruence.
Qed.

Lemma used_ok id q w : (UpdateUserUsedQuotaAndRequestCount id q w).1 = Ok tt.
Proof. unfold UpdateUserUsedQuotaAndRequestCount, BatchUpdateEnabled. unfold_m. destruct (w_BatchUpdateEnabled w); [done|]. unfold updateUserUsedQuotaAndRequestCount, log_error. unfold_m. by destruct (transaction _ w). Qed.
Lemma channel_ok id q w : (UpdateChannelUsedQuota id q w).1 = Ok tt.
Proof. unfold UpdateChannelUsedQuota, BatchUpdateEnabled. unfold_m. destruct (w_BatchUpdateEnabled w); [done|]. unfold updateChannelUsedQuota, log_error. unfold_m. by destruct (transaction _ w). Qed.
Lemma count_spec (b : bool) u c q e : ∃ e', (if b then of_world (UpdateUserUsedQuotaAndRequestCount u q);; of_world (UpdateChannelUsedQuota c q) else mret tt) e = (Ok tt, e') ∧
  counted (re_world e) (re_world e') ∧ re_billing e' = re_billing e.
Proof.
  destruct b; [|by exists e]. unfold of_world, mbind, M_bind. pose proof (counted_used u q (re_world e)) as C1. pose proof (used_ok u q (re_world e)) as O1.
  destruct (UpdateUserUsedQuotaAndRequestCount u q (re_world e)) as [r1 w1]. cbn in C1, O1. subst r1. cbn.
  pose proof (counted_channel c q w1) as C2. pose proof (channel_ok c q w1) as O2. destruct (UpdateChannelUsedQuota c q w1) as [r2 w2]. cbn in C2, O2. subst r2.
  eexists. split_and!; [done|by etrans|done].
Qed.

(** A charge: what is settled, and from which state. *)
Lemma post_spec t usage e r e2 : post t usage e = (r, e2) →
  ∃ e0 r', r = Ok (charged_quota t (re_info e) usage) ∧ counted (re_world e) (re_world e0) ∧ re_billing e0 = re_billing e ∧
    SettleBilling (charged_quota t (re_info e) usage) e0 = (r', e2).
Proof.
  unfold PostTextConsumeQuota, charged_quota. unfold mbind at 1, M_bind at 1, gets. cbv zeta. generalize (effectiveBillingUsage <$> usage). intros bu.
  destruct (calculateTextQuotaSummary _ _ _ _ _) as [s clamp]. cbn [fst]. unfold mbind at 1, M_bind at 1.
  destruct (kept_note clamp e) as (e1 & -> & A1 & B1 & C1). unfold mbind at 1, M_bind at 1. set (q := match bu with Some _ => _ | None => _ end : Z).
  assert (∃ e3, (match bu with Some u => tiered_quota (D:=D) run_expr used_vars no_request t u s | None => mret (sm_Quota s) end) e1 = (Ok q, e3) ∧ kept e1 e3)
    as (e3 & E3 & A3 & B3 & _).
  { subst q. destruct bu as [u|]; [|by exists e1]. destruct (tiered_spec t u s e1) as (e3 & E3 & K3). exists e3. rewrite E3, C1. done. }
  replace (match bu with Some u => tiered_quota _ _ _ t u s | None => mret (sm_Quota s) end e1) with (Ok q, e3) by (by destruct bu).
  unfold mbind at 1, M_bind at 1. destruct (count_spec (hasBillableUsage s) (ri_UserId (re_info e)) (tr_ChannelId t) q e3) as (e4 & -> & C4 & G4).
  unfold try, mbind, M_bind. destruct (SettleBilling q e4) as [r' e5] eqn:E5. intros [= <- <-]. rewrite A3, A1 in C4. exists e4, r'. split_and!; try done. congruence.
Qed.

Lemma settlement_error q e s r e2 : re_billing e = Some s → SettleBilling q e = (r, e2) → ri_BillingSettlementError (re_info e2) = None → r = Ok tt.
Proof.
  intros Hs. unfold SettleBilling, billing, with_session, gets. unfold mbind at 1, M_bind at 1. rewrite Hs. unfold mbind, M_bind, try, modify, lift_res.
  destruct (retry 2 (Settle q) _) as [r' e']. intros [= <- <-]. cbn. by destruct r' as [[]|].
Qed.

(** Prices, options and tools without negative numbers, or a tiered quota that
    is in range. *)
Definition charge_ok (t : text_request RI) (info : RelayInfo) (usage : option Usage) : Prop :=
  match tr_TieredBillingSnapshot t with
  | None => price_ok (tr_PriceData t) ∧ good (to_QuotaPerUnit o) ∧ tools_ok t ∧
      0 <= in_AudioTokens (us_PromptTokensDetails (default (plain_usage 0 0 0) (effectiveBillingUsage <$> usage)))
  | Some _ => 0 <= charged_quota t info usage <= MaxQuota
  end.
Lemma charge_range t info usage : charge_ok t info usage → 0 <= charged_quota t info usage <= MaxQuota.
Proof.
  unfold charge_ok. destruct (tr_TieredBillingSnapshot t) eqn:E; [done|]. intros (Hp & Hu & Ht & Ha). rewrite charged_untiered by done.
  by destruct (summary_range (D:=D) o wild t (BillingModelName info) _ Hp Hu Ht Ha).
Qed.

(** C2: a text request pays its price.  When a request that is paid from the
    wallet alone was reserved and its usage is charged, and the settlement
    reports no error, the wallet of the user has lost exactly the quota of the
    usage, that of its tokens and tools or the tiered one, the token as well
    unless it is a playground request, and nobody else anything, whatever calls
    failed in between.  Prices, options, tool counts and audio tokens are not
    negative, or a tiered quota is in range. *)
Theorem text_request_pays_price su quota e e1 e1' t usage r e2 :
  wallet_request e quota → PreConsumeBilling su quota e = (Ok tt, e1) → later e1 e1' → charge_ok t (re_info e1') usage →
  post t usage e1' = (r, e2) → ri_BillingSettlementError (re_info e2) = None →
  let i := re_info e in
  let charged := charged_quota t (re_info e1') usage in
  r = Ok charged ∧
  (∀ v, wallet_balance (re_world e2) v = wallet_balance (re_world e) v - (if decide (v = ri_UserId i) then charged else 0)) ∧
  (ri_IsPlayground i = false → ∀ v, 0 < v →
     token_balance (re_world e2) v = token_balance (re_world e) v - (if decide (v = ri_TokenId i) then charged else 0)) ∧
  (br_Status <$> billing_recoveries (w_db (re_world e2)) !! ri_RequestId i) = Some StatusSettled.
Proof.
  intros Hreq Hopen (Eb & Ed & Ebt) Hok Hpost Herr. cbv zeta. apply post_spec in Hpost as (e0 & r' & -> & C0 & G0 & E0).
  apply charge_range in Hok as Hq. destruct (PreConsumeBilling_reserves _ _ _ _ Hreq Hopen) as (s & row & eff & Hs & Heff & Ho & R). cbv zeta in Ho, R.
  apply (reserved_later _ _ (re_world e1')) in R; [|done|done]. apply (reserved_counted _ _ _ _ _ _ _ _ _ C0) in R.
  rewrite <-Eb, <-G0 in Hs. rewrite (settlement_error _ _ _ _ _ Hs E0 Herr) in E0. split; [done|].
  assert (ri_RequestId (re_info e) ≠ EmptyString) as Hrid by (intros E; pose proof (wr_id _ _ Hreq) as Hb; by rewrite E in Hb).
  assert (0 <= eff <= MaxQuota) as Hq' by (pose proof (wr_quota _ _ Hreq); unfold MaxQuota in *; lia).
  exact (reserved_pays _ _ _ _ _ _ _ _ _ _ _ Hrid R Hs Ho Hq' Hq E0).
Qed.
End paying.

(** ** Samples *)

(** A chat at ratio 5/4, its completions four times that, its cached tokens an
    eighth, with three searches at 10 per thousand. *)
Definition sample_price : PriceData :=
  MkPriceData false (float_of_int (-1)) (float_ratio 5 4) (float_of_int 4) (float_ratio 1 8) (float_ratio 5 4) (float_ratio 5 4) (float_of_int 2) fone fone fone
    [("n", float_of_int 2)] false 0 0 fone.
Definition sample_text_options : text_options :=
  MkTextOptions (float_of_int 500000) (MkToolIndex {["web_search" := float_of_int 10]} ∅) ∅.
Definition sample_text : text_request unit :=
  MkTextRequest RelayModeOther sample_price None None (Some 1) 3 "" [] "openai" 100 (Some [("web_search", Some 2); ("file_search", None)]) 1 false.
Definition sample_usage : usage_core := plain_usage 1000 20 1020 <| us_PromptTokensDetails ::= (λ d, d <| in_CachedTokens := 800 |>) |>.

Lemma sample_price_ok : price_ok sample_price.
Proof. split; [done|..]; split; vm_compute; reflexivity. Qed.
Lemma sample_unit_ok : good (to_QuotaPerUnit sample_text_options).
Proof. split; vm_compute; reflexivity. Qed.
Lemma sample_tools_ok l : Forall (λ e, ∀ n, e.2 = Some n → n <= 5) l → tools_ok (with_tools sample_text l).
Proof. intros Hl. split; [|done]. cbn. eapply Forall_impl; [exact Hl|]. intros [name n] Hn k Hk. specialize (Hn k Hk). unfold max_int. lia. Qed.

Lemma text_quota_in_range_witness :
  let s := (calculateTextQuotaSummary (D:=Q) sample_text_options (λ _, 0) sample_text "m" (Some sample_usage)).1 in
  sm_Quota s = 15950 ∧ 1 <= sm_Quota s.
Proof.
  split; [by vm_compute|].
  refine (proj2 (proj2 (text_quota_in_range (D:=Q) sample_text_options (λ _, 0) sample_text "m" (Some sample_usage) sample_price_ok sample_unit_ok _ _)) _ _).
  - apply (sample_tools_ok [("web_search", Some 2); ("file_search", None)]). repeat constructor; cbn; intros n [= <-]; lia.
  - done.
  - by vm_compute.
  - by vm_compute.
Defined.

Lemma surcharge_order_free_witness :
  calculateTextQuotaSummary (D:=Q) sample_text_options (λ _, 0) (with_tools sample_text [("web_search", Some 2); ("file_search", Some 1)]) "m" (Some sample_usage) =
  calculateTextQuotaSummary sample_text_options (λ _, 0) (with_tools sample_text [("file_search", Some 1); ("web_search", Some 2)]) "m" (Some sample_usage).
Proof.
  apply (surcharge_order_free (D:=Q)); [|apply Permutation_swap]. apply sample_tools_ok. repeat constructor; cbn; intros n [= <-]; lia.
Defined.

(** 900 cached and 300 written tokens of a prompt of 1000: nothing is left at
    the plain price. *)
Definition overlapping_usage : usage_core :=
  plain_usage 1000 20 1020 <| us_PromptTokensDetails ::= (λ d, d <| in_CachedTokens := 900 |> <| in_CacheWriteTokens := 300 |>) |>.

(** Ten tokens and four of an answer cost 65; two calls on the way fail. *)
Definition small_text : text_request unit :=
  MkTextRequest RelayModeOther sample_price None None (Some 1) 3 "" [] "openai" 100 None 0 false.
Lemma small_tools_ok : tools_ok small_text.
Proof. by split; [constructor|]. Qed.
Lemma text_request_pays_price_witness :
  let e1 := exec (PreConsumeBilling sample_su 30) (sample_env false) in
  let e1' := faulty [None; None; None; Some "deadlock"; None; Some "lost"] e1 in
  let usage := Some (MkFullUsage (plain_usage 10 4 14) None) in
  let e2 := exec (PostTextConsumeQuota (D:=Q) sample_text_options (λ _, 0) (λ _ _ _, Err ErrRecordNotFound) (λ _ _, false) tt small_text usage) e1' in
  wallet_balance (re_world e2) 7 = wallet_balance (re_world (sample_env false)) 7 - 65.
Proof.
  intros e1 e1' usage e2.
  pose proof (runs_ok (PreConsumeBilling sample_su 30) (sample_env false) ltac:(by vm_compute)) as H1.
  change (exec (PreConsumeBilling sample_su 30) (sample_env false)) with e1 in H1.
  destruct (PostTextConsumeQuota (D:=Q) sample_text_options (λ _, 0) (λ _ _ _, Err ErrRecordNotFound) (λ _ _, false) tt small_text usage e1') as [r e2'] eqn:E2.
  assert (e2 = e2') as E by exact (f_equal snd E2).
  assert (ri_BillingSettlementError (re_info e2) = None) as Herr by (by vm_compute).
  pose proof (later_faulty [None; None; None; Some "deadlock"; None; Some "lost"] e1 : later e1 e1') as Hl.
  rewrite E in *. clear E.
  assert (charged_quota (D:=Q) sample_text_options (λ _, 0) (λ _ _ _, Err ErrRecordNotFound) (λ _ _, false) tt small_text (re_info e1') usage = 65) as Eq by (by vm_compute).
  assert (charge_ok (D:=Q) sample_text_options (λ _, 0) (λ _ _ _, Err ErrRecordNotFound) (λ _ _, false) tt small_text (re_info e1') usage) as Hok
    by (split_and!; [apply sample_price_ok|apply sample_unit_ok|apply small_tools_ok|by apply Z.leb_le]).
  pose proof (proj1 (proj2 (text_request_pays_price (D:=Q) sample_text_options (λ _, 0) (λ _ _ _, Err ErrRecordNotFound) (λ _ _, false) tt
    sample_su 30 (sample_env false) e1 e1' small_text usage r e2' (sample_request false) H1 Hl Hok E2 Herr)) 7) as H. rewrite Eq in H. exact H.
Defined.

(** A tiered price whose expression has a part per call is charged for a
    response without usage as well, although the code reports that nothing can
    be charged; the columns that count the use of a user stay as they were. *)
Definition tiered_text : text_request unit :=
  MkTextRequest RelayModeOther no_price_data (Some (MkSnapshot BillingModeTieredExpr "m" "tier" fone 10 4 (float_of_int 20) 20 "base" (float_of_int 500000) 1)) None
    (Some 1) 3 "" [] "openai" 100 None 0 false.
Lemma empty_tiered_response_is_charged :
  let e1 := exec (PreConsumeBilling sample_su 30) (sample_env false) in
  let e2 := exec (PostTextConsumeQuota (D:=Q) sample_text_options (λ _, 0) (λ _ _ _, Ok (float_of_int 40, "base")) (λ _ _, false) tt tiered_text
    (Some (MkFullUsage (plain_usage 0 0 0) None))) e1 in
  wallet_balance (re_world e2) 7 = wallet_balance (re_world (sample_env false)) 7 - 20 ∧
  (u_UsedQuota <$> users (w_db (re_world e2)) !! 7) = (u_UsedQuota <$> users (w_db (re_world (sample_env false))) !! 7).
Proof. by vm_compute. Qed.
