(* ===== verification/RecoveryWorker.v ===== *)
(** * The recovery worker

    src/service/billing_recovery.go: the task that finishes the requests a
    process left behind.  Whatever fails while it runs, it never settles or
    refunds a request twice; when nothing fails it closes the request. *)

From stdpp Require Import sorting.
From S2P Require Import GoStrings.
From S2P Require Import Prelude SystemTask QuotaMath Store Calendar QuotaBatch QuotaReserve Subscription BillingRecovery.
From S2P Require Import BillingLedger BillingMachine RequestProgress BillingSession SessionExact.
#[local] Open Scope Z_scope.

(** ** The worker *)

Definition loadBillingRecovery (requestID : string) : M world BillingRecovery :=
  transaction (λ _, FIRST billing_recoveries requestID).

Definition recoverBillingSettlement (requestID : string) : M world recovery_status :=
  recovery ← loadBillingRecovery requestID;
  (if bool_decide (br_FundingSettlement recovery ≠ StateCompleted)
   then ApplyBillingRecoveryAdjustment requestID ComponentFunding OperationSettle else mret tt);;
  recovery ← loadBillingRecovery requestID;
  (if bool_decide (br_TokenSettlement recovery ≠ StateCompleted)
   then ApplyBillingRecoveryAdjustment requestID ComponentToken OperationSettle else mret tt);;
  current ← loadBillingRecovery requestID;
  if negb (BillingRecoverySettlementComplete current) then fail (ErrNew "billing recovery settlement remains incomplete")
  else
    MarkBillingRecoverySettled requestID;;
    mret StatusSettled.

Definition recoverBillingRefund (requestID : string) : M world recovery_status :=
  MarkBillingRecoveryRefundPending requestID None;;
  recovery ← loadBillingRecovery requestID;
  (if bool_decide (br_FundingRefund recovery ≠ StateCompleted)
   then ApplyBillingRecoveryAdjustment requestID ComponentFunding OperationRefund else mret tt);;
  recovery ← loadBillingRecovery requestID;
  (if (0 <? br_ExtraAmount recovery) && bool_decide (br_ExtraRefund recovery ≠ StateCompleted)
   then ApplyBillingRecoveryAdjustment requestID ComponentExtra OperationRefund else mret tt);;
  recovery ← loadBillingRecovery requestID;
  (if (0 <? br_TokenAmount recovery) && bool_decide (br_TokenRefund recovery ≠ StateCompleted)
   then ApplyBillingRecoveryAdjustment requestID ComponentToken OperationRefund else mret tt);;
  current ← loadBillingRecovery requestID;
  if negb (BillingRecoveryRefundComplete current) then fail (ErrNew "billing recovery refund remains incomplete")
  else
    MarkBillingRecoveryRefunded requestID None;;
    mret StatusRefunded.

Definition recoverOneBillingRecovery (requestID : string) : M world recovery_status :=
  recovery ← loadBillingRecovery requestID;
  match br_Status recovery with
  | StatusSettlementPending => recoverBillingSettlement requestID
  | StatusActive | StatusRefundPending => recoverBillingRefund requestID
  | s => mret s
  end.

Record BillingRecoverySummary := MkSummary {
  bsum_Scanned : Z; bsum_Settled : Z; bsum_Refunded : Z; bsum_Pending : Z; bsum_Failed : Z
}.
#[global] Instance eta_Summary : Eta BillingRecoverySummary := λ r,
  MkSummary (bsum_Scanned r) (bsum_Settled r) (bsum_Refunded r) (bsum_Pending r) (bsum_Failed r).

Definition count_status (r : res recovery_status) (summary : BillingRecoverySummary) : BillingRecoverySummary :=
  match r with
  | Err _ => summary <| bsum_Failed ::= Z.succ |>
  | Ok StatusSettled => summary <| bsum_Settled ::= Z.succ |>
  | Ok StatusRefunded => summary <| bsum_Refunded ::= Z.succ |>
  | Ok _ => summary <| bsum_Pending ::= Z.succ |>
  end.

(** The loop over the stale rows; [ctx_err k] is what [ctx.Err()] says before
    the [k]-th row from the end.  The summary is returned with the error. *)
Fixpoint recoverRows (ctx_err : nat → option error) (rows : list (string * BillingRecovery))
    (summary : BillingRecoverySummary) : M world (BillingRecoverySummary * option error) :=
  match rows with
  | [] => mret (summary, None)
  | (requestID, _) :: rows =>
      match ctx_err (length rows) with
      | Some err => mret (summary, Some err)
      | None =>
          r ← try (recoverOneBillingRecovery requestID);
          recoverRows ctx_err rows (count_status r (summary <| bsum_Scanned ::= Z.succ |>))
      end
  end.

Definition RecoverStaleBillingRecoveries (ctx_err : nat → option error) (cutoff limit : Z) :
    M world (BillingRecoverySummary * option error) :=
  rows ← try (ListStaleBillingRecoveries cutoff limit);
  match rows with
  | Err err => mret (MkSummary 0 0 0 0 0, Some err)
  | Ok rows => recoverRows ctx_err rows (MkSummary 0 0 0 0 0)
  end.

(** ** Its schedule *)

(** [env name] is the integer in an environment variable; [None] when it is
    unset or not a number. *)
Definition GetEnvOrDefault (env : string → option Z) (name : string) (defaultValue : Z) : Z :=
  default defaultValue (env name).

Definition second : Z := 1000000000.

(** Durations are nanoseconds in 64 bits. *)
Definition BillingRecoveryStaleAfter (env : string → option Z) : Z :=
  let seconds := GetEnvOrDefault env "BILLING_RECOVERY_STALE_SECONDS" 300 in
  let seconds := if seconds <? 30 then 30 else seconds in
  i64 (seconds * second).

Definition BillingRecoveryHeartbeatInterval (env : string → option Z) : Z :=
  let interval := Z.quot (BillingRecoveryStaleAfter env) 3 in
  if interval <? 5 * second then 5 * second else interval.

Definition BillingRecoveryBatchLimit (env : string → option Z) : Z :=
  let limit := GetEnvOrDefault env "BILLING_RECOVERY_BATCH_LIMIT" 100 in
  if (limit <=? 0) || (100 <? limit) then 100 else limit.

Definition resultStatus (summary : BillingRecoverySummary) : SystemTaskStatus :=
  if 0 <? bsum_Failed summary then SystemTaskStatusFailed else SystemTaskStatusSucceeded.

(** The seconds of a duration are truncated to an integer at once. *)
Definition recovery_cutoff (env : string → option Z) (now : Z) : Z :=
  i64 (now - Z.quot (BillingRecoveryStaleAfter env) second).

(** [Run] of the task handler; what it records of the pass. *)
Definition billingRecoveryHandler_Run (env : string → option Z) (ctx_err : nat → option error) :
    M world (SystemTaskStatus * BillingRecoverySummary * option error) :=
  now ← GetTimestamp;
  '(summary, err) ← RecoverStaleBillingRecoveries ctx_err (recovery_cutoff env now) (BillingRecoveryBatchLimit env);
  mret (resultStatus summary, summary, err).

(** ** Calls that succeed when nothing fails *)

Lemma healthy_transaction {A} (body : Z → M db A) w a d' :
  healthy w → body (w_now w) (w_db w) = (Ok a, d') →
  ∃ w', transaction body w = (Ok a, w') ∧ healthy w' ∧ w_db w' = d' ∧ w_batch w' = w_batch w.
Proof.
  unfold healthy, transaction. intros -> ->. eexists. split; [done|]. done.
Qed.

Lemma healthy_ok {A} (body : Z → M db A) w a :
  healthy w → (body (w_now w) (w_db w)).1 = Ok a → ∃ w', transaction body w = (Ok a, w').
Proof.
  intros Hh H. destruct (body (w_now w) (w_db w)) as [r d] eqn:E. cbn in H. subst r.
  destruct (healthy_transaction body w a d Hh E) as (w' & ? & _). by exists w'.
Qed.

Lemma healthy_redis_call {A} (script : M redis A) w a rd :
  healthy w → script (w_redis w) = (Ok a, rd) →
  ∃ w', redis_call script w = (Ok a, w') ∧ healthy w' ∧ w_db w' = w_db w ∧ w_batch w' = w_batch w.
Proof. unfold healthy, redis_call. intros -> ->. eexists. split; [done|]. done. Qed.

(** The accounts a request is charged to exist. *)
Definition accounts (u t : Z) (d : db) : Prop := is_Some (users d !! u) ∧ (0 < t → is_Some (tokens d !! t)).

Definition ready (u t : Z) (w : world) : Prop := healthy w ∧ accounts u t (w_db w).

Lemma invalidate_user_ok u w :
  healthy w → ∃ w', invalidateUserQuotaCacheForMutation u w = (Ok tt, w') ∧ healthy w' ∧ w_db w' = w_db w.
Proof.
  intros Hh. unfold invalidateUserQuotaCacheForMutation, RedisEnabled. rewrite bind_gets. destruct (_ || _); [by exists w|].
  destruct (healthy_redis_call (SET (KUserQuotaFence u) (VInt 1)) w tt _ Hh eq_refl) as (w1 & E1 & H1 & D1 & _).
  destruct (healthy_redis_call (DEL (KUser u)) w1 tt _ H1 eq_refl) as (w2 & E2 & H2 & D2 & _).
  exists w2. rewrite (bind_ok _ _ _ _ _ E1). split; [done|]. split; [done|congruence].
Qed.

Lemma invalidate_token_ok key w :
  healthy w → ∃ w', invalidateTokenCacheForMutation key w = (Ok tt, w') ∧ healthy w' ∧ w_db w' = w_db w.
Proof.
  intros Hh. unfold invalidateTokenCacheForMutation, RedisEnabled. rewrite bind_gets. destruct (_ || _); [by exists w|].
  destruct (healthy_redis_call (SET (KTokenFence key) (VInt 1)) w tt _ Hh eq_refl) as (w1 & E1 & H1 & D1 & _).
  destruct (healthy_redis_call (DEL (KToken key)) w1 tt _ H1 eq_refl) as (w2 & E2 & H2 & D2 & _).
  exists w2. rewrite (bind_ok _ _ _ _ _ E1). split; [done|]. split; [done|congruence].
Qed.

Lemma fence_ok u t w :
  healthy w → (0 < t → is_Some (tokens (w_db w) !! t)) →
  ∃ w', fence_resources u t w = (Ok tt, w') ∧ healthy w' ∧ w_db w' = w_db w.
Proof.
  intros Hh Ht. unfold fence_resources, RedisEnabled. rewrite bind_gets. set (rd := w_RedisEnabled w).
  assert (∃ w1, (if rd && (0 <? u) then invalidateUserQuotaCacheForMutation u else mret tt) w = (Ok tt, w1) ∧ healthy w1 ∧
    w_db w1 = w_db w) as (w1 & E1 & H1 & D1).
  { destruct (_ && _); [by apply invalidate_user_ok|by exists w]. }
  rewrite (bind_ok _ _ _ _ _ E1). destruct rd; cbn [andb]; [|by exists w1].
  destruct (Z.ltb_spec 0 t); [|by exists w1]. rewrite <- D1 in Ht. destruct (Ht ltac:(done)) as [tok Htok].
  destruct (healthy_transaction (λ _, FIRST tokens t) w1 tok (w_db w1)) as (w2 & E2 & H2 & D2 & _);
    [done|unfold FIRST; by rewrite Htok|]. rewrite (bind_ok _ _ _ _ _ E2).
  destruct (invalidate_token_ok (t_Key tok) w2 H2) as (w3 & E3 & H3 & D3). exists w3. split; [done|]. split; [done|congruence].
Qed.

Lemma update_one_ok {K R} `{Countable K} (tbl : db → gmap K R) `{!Upd tbl} k cond set e d r :
  tbl d !! k = Some r → cond r = true →
  update_one (UPDATE tbl k cond set) e d = (Ok tt, d <| tbl := <[k := set r]> (tbl d) |>).
Proof. intros Hr Hc. unfold update_one, UPDATE, mbind, M_bind. by rewrite Hr, Hc. Qed.

Lemma accounts_user u t d f v : accounts u t d → accounts u t (d <| users := <[v := f]> (users d) |>).
Proof.
  intros [H1 H2]. split; cbn; [|done]. rewrite lookup_insert. by case_decide.
Qed.
Lemma accounts_token u t d f v : accounts u t d → accounts u t (d <| tokens := <[v := f]> (tokens d) |>).
Proof. intros [H1 H2]. split; cbn; [done|]. rewrite lookup_insert. by case_decide. Qed.

Lemma applyPending_ok u t now m d :
  accounts u t d → mu_userID m = u ∨ mu_userPendingDelta m = 0 →
  mu_tokenID m = t ∧ 0 < t ∨ mu_tokenPendingDelta m = 0 →
  ∃ d', applyPendingDeltas now m d = (Ok tt, d') ∧ accounts u t d' ∧ same_books d d'.
Proof.
  intros Ha Hu Ht. unfold applyPendingDeltas.
  assert (∃ d1, (if negb (mu_userPendingDelta m =? 0) then
      update_one (UPDATE users (mu_userID m) (λ _, true) (λ u, u <| u_Quota ::= (λ q, q + mu_userPendingDelta m) |>)) ErrRecordNotFound
      else mret tt) d = (Ok tt, d1) ∧ accounts u t d1 ∧ same_books d d1) as (d1 & E1 & A1 & B1).
  { destruct (Z.eqb_spec (mu_userPendingDelta m) 0) as [|Hne]; cbn; [by exists d|]. destruct Hu as [-> |]; [|done].
    destruct (proj1 Ha) as [x Hx]. rewrite (update_one_ok _ _ _ _ _ _ x) by done. eexists. split; [done|].
    split; [|done]. by apply accounts_user. }
  rewrite (bind_ok _ _ _ _ _ E1).
  destruct (Z.eqb_spec (mu_tokenPendingDelta m) 0) as [|Hne]; cbn; [by exists d1|]. destruct Ht as [[-> Htp]|]; [|done].
  destruct (proj2 A1 Htp) as [x Hx]. rewrite (update_one_ok _ _ _ _ _ _ x) by done. eexists. split; [done|].
  split; [by apply accounts_token|done].
Qed.

Lemma take_ok ty id w :
  healthy w → ∃ delta w', takePendingQuotaDelta ty id w = (Ok delta, w') ∧ healthy w' ∧ w_db w' = w_db w ∧ (id <= 0 → delta = 0).
Proof.
  intros Hh. unfold takePendingQuotaDelta. destruct (Z.leb_spec id 0); [by exists 0, w|].
  eexists _, _. split; [done|]. split; [done|]. split; [done|lia].
Qed.

Lemma begin_ok rid fu ft w r :
  blank rid = false → healthy w → billing_recoveries (w_db w) !! rid = Some r →
  accounts (br_UserID r) (br_TokenID r) (w_db w) →
  ∃ m w', beginBillingRecoveryQuotaMutation rid fu ft w = (Ok m, w') ∧ healthy w' ∧ w_db w' = w_db w ∧
    (mu_userID m = br_UserID r ∨ mu_userPendingDelta m = 0) ∧
    (mu_tokenID m = br_TokenID r ∧ 0 < br_TokenID r ∨ mu_tokenPendingDelta m = 0).
Proof.
  intros Hb Hh Hr [Hu Ht]. unfold beginBillingRecoveryQuotaMutation. rewrite Hb.
  destruct (healthy_transaction (λ _, FIRST billing_recoveries rid) w r (w_db w)) as (w1 & E1 & H1 & D1 & _);
    [done|unfold FIRST; by rewrite Hr|]. rewrite (bind_ok _ _ _ _ _ E1). cbv zeta.
  set (uid := if fu && bool_decide (br_Source r = SourceWallet) then br_UserID r else 0).
  set (tid := if ft && br_TokenRequired r && (0 <? br_TokenID r) then br_TokenID r else 0).
  assert (uid = br_UserID r ∨ uid = 0) as Huid by (unfold uid; destruct (fu && _); auto).
  assert (tid = br_TokenID r ∧ 0 < br_TokenID r ∨ tid = 0) as Htid.
  { subst tid. destruct ft, (br_TokenRequired r); cbn; auto. destruct (Z.ltb_spec 0 (br_TokenID r)); auto. }
  destruct (fence_ok uid tid w1 H1) as (w2 & E2 & H2 & D2).
  { rewrite D1. destruct Htid as [[-> _]| ->]; [done|lia]. }
  rewrite (bind_ok _ _ _ _ _ E2).
  destruct (take_ok BatchUpdateTypeUserQuota uid w2 H2) as (du & w3 & E3 & H3 & D3 & Hdu). rewrite (bind_ok _ _ _ _ _ E3).
  destruct (take_ok BatchUpdateTypeTokenQuota tid w3 H3) as (dt & w4 & E4 & H4 & D4 & Hdt). rewrite (bind_ok _ _ _ _ _ E4).
  eexists _, w4. split; [done|]. split; [done|]. split; [congruence|]. cbn. split.
  - destruct Huid as [->| ->]; [by left|right; by apply Hdu].
  - destruct Htid as [[-> ?]| ->]; [by left|right; by apply Hdt].
Qed.

Lemma effect_ok now rid r c o amount d :
  br_Source r = SourceWallet → c = ComponentFunding ∨ c = ComponentToken → accounts (br_UserID r) (br_TokenID r) d →
  ∃ d', applyBillingRecoveryEffect now rid r c o amount d = (Ok tt, d') ∧ accounts (br_UserID r) (br_TokenID r) d' ∧ same_books d d'.
Proof.
  intros Hs Hc Ha. unfold applyBillingRecoveryEffect. destruct (_ && _) eqn:Hg; [by exists d|].
  destruct (amount =? 0); [by exists d|]. destruct Hc as [-> | ->].
  - rewrite decide_False by congruence. destruct (proj1 Ha) as [x Hx]. rewrite (update_one_ok _ _ _ _ _ _ x) by done.
    eexists. split; [done|]. split; [by apply accounts_user|done].
  - rewrite bool_decide_true in Hg by done. cbn in Hg. apply Z.leb_gt in Hg.
    destruct (proj2 Ha Hg) as [x Hx]. rewrite (update_one_ok _ _ _ _ _ _ x) by done.
    eexists. split; [done|]. split; [by apply accounts_token|done].
Qed.

Lemma adjustmentTx_ok now rid r c o d :
  br_Source r = SourceWallet → c = ComponentFunding ∨ c = ComponentToken → billing_recoveries d !! rid = Some r →
  accounts (br_UserID r) (br_TokenID r) d →
  o = OperationSettle ∧ br_Status r = StatusSettlementPending ∨ o = OperationRefund ∧ br_Status r = StatusRefundPending →
  ∃ d', adjustmentTx rid c o now d = (Ok tt, d') ∧ accounts (br_UserID r) (br_TokenID r) d'.
Proof.
  intros Hs Hc Hr Ha Hst. unfold adjustmentTx.
  assert (FIRST billing_recoveries rid d = (Ok r, d)) as EF by (unfold FIRST; by rewrite Hr). rewrite (bind_ok _ _ _ _ _ EF).
  assert (br_Status r ≠ StatusSettled ∧ br_Status r ≠ StatusRefunded) as [N1 N2] by (destruct Hst as [[_ ->]|[_ ->]]; done).
  rewrite (bool_decide_false (br_Status r = StatusSettled)) by done. rewrite andb_false_r.
  unfold find_marker. rewrite bind_gets.
  destruct (adjustments d !! ((rid, c, o) : adjustment_key)) as [a|] eqn:Hm; [by exists d|].
  destruct (effect_ok now rid r c o (component_amount r c o) d Hs Hc Ha) as (d1 & E1 & A1 & B1).
  set (apply := applyBillingRecoveryEffect _ _ _ _ _ _ ≫= _).
  assert (∃ d', apply d = (Ok tt, d') ∧ accounts (br_UserID r) (br_TokenID r) d') as Hap.
  { subst apply. rewrite (bind_ok _ _ _ _ _ E1). unfold CREATE, updateBillingRecoveryComponentState, UPDATE, mbind, M_bind.
    rewrite (proj2 B1), Hm. cbn. rewrite (proj1 B1), Hr.
    match goal with |- context [bool_decide ?p] => destruct (bool_decide p) end; eexists; (split; [done|]); apply A1. }
  clearbody apply. destruct Hst as [[-> Hst]|[-> Hst]]; rewrite Hst; cbn; [|exact Hap].
  destruct Hc as [-> | ->]; cbn; exact Hap.
Qed.

Lemma adjust_ok rid r c o w :
  blank rid = false → br_Source r = SourceWallet → c = ComponentFunding ∨ c = ComponentToken →
  billing_recoveries (w_db w) !! rid = Some r → ready (br_UserID r) (br_TokenID r) w →
  o = OperationSettle ∧ br_Status r = StatusSettlementPending ∨ o = OperationRefund ∧ br_Status r = StatusRefundPending →
  ∃ w', ApplyBillingRecoveryAdjustment rid c o w = (Ok tt, w') ∧ ready (br_UserID r) (br_TokenID r) w'.
Proof.
  intros Hb Hs Hc Hr [Hh Ha] Hst. unfold ApplyBillingRecoveryAdjustment. rewrite Hb.
  assert (bool_decide (c = ComponentFunding) || bool_decide (c = ComponentExtra) || bool_decide (c = ComponentToken) = true) as ->
    by (destruct Hc as [-> | ->]; done).
  assert (bool_decide (o = OperationSettle) || bool_decide (o = OperationRefund) = true) as ->
    by (destruct Hst as [[-> _]|[-> _]]; done). cbn [negb].
  destruct (begin_ok rid (bool_decide (c = ComponentFunding)) (bool_decide (c = ComponentToken)) w r Hb Hh Hr Ha)
    as (m & w1 & E1 & H1 & D1 & Mu & Mt). rewrite (bind_ok _ _ _ _ _ E1). rewrite <- D1 in Ha, Hr.
  destruct (applyPending_ok _ _ (w_now w1) m (w_db w1) Ha Mu Mt) as (d1 & E2 & A1 & B1).
  rewrite <- (proj1 B1) in Hr. destruct (adjustmentTx_ok (w_now w1) rid r c o d1 Hs Hc Hr A1 Hst) as (d2 & E3 & A2).
  destruct (healthy_transaction (λ now, applyPendingDeltas now m;; adjustmentTx rid c o now) w1 tt d2 H1) as (w2 & E4 & H2 & D2 & _).
  { by rewrite (bind_ok _ _ _ _ _ E2). }
  unfold with_mutation, try. unfold mbind at 1, M_bind at 1. rewrite E4. cbn. exists w2. split; [done|]. split; [done|by rewrite D2].
Qed.

(** ** Finishing a request *)

Lemma adjusts_marked rid c o d d' c' o' : adjusts rid c o d d' → marked d rid c' o' → marked d' rid c' o'.
Proof.
  intros [[_ E]|(row & now & _ & _ & _ & _ & E)] H.
  - unfold marked in *. by rewrite E.
  - rewrite (marked_insert _ _ _ _ _ _ _ _ E). by right.
Qed.

Section worker.
Context (rid : string) (delta : Z) (w0 : world) (r0 : BillingRecovery).
Context (Hrid : blank rid = false) (Hdelta : negatable delta).
Context (Hr0 : billing_recoveries (w_db w0) !! rid = Some r0) (Hwallet : br_Source r0 = SourceWallet).
Context (Hfresh : ∀ c o, o ≠ OperationReserve → adjustments (w_db w0) !! (rid, c, o) = None).
Context (Hextra : br_ExtraAmount r0 = 0).
Abbreviation progress := (progress rid delta w0 r0).
Abbreviation ready := (ready (br_UserID r0) (br_TokenID r0)).

(** The request is at [r] with a status in [st], and nothing will fail. *)
Definition at_status (st : recovery_status → Prop) (w : world) : Prop :=
  ∃ r, progress w r ∧ st (br_Status r) ∧ ready w.

Lemma load_ok w r :
  progress w r → ready w →
  ∃ w', loadBillingRecovery rid w = (Ok r, w') ∧ progress w' r ∧ ready w'.
Proof.
  intros P [Hh Ha]. destruct (healthy_transaction (λ _, FIRST billing_recoveries rid) w r (w_db w)) as (w1 & E1 & H1 & D1 & B1);
    [done|unfold FIRST; by rewrite (progress_row _ _ _ _ _ _ P)|].
  exists w1. split; [done|]. split; [by eapply progress_env|]. split; [done|by rewrite D1].
Qed.

(** A component that is wanted unless it is done ([b = false]): afterwards it
    has its marker, and no marker is lost. *)
Lemma part_succeeds (b : bool) w r c o :
  progress w r → ready w → c = ComponentFunding ∨ c = ComponentToken →
  o = OperationSettle ∧ br_Status r = StatusSettlementPending ∨ o = OperationRefund ∧ br_Status r = StatusRefundPending →
  (b = false → marked (w_db w) rid c o) →
  ∃ w' r', (if b then ApplyBillingRecoveryAdjustment rid c o else mret tt) w = (Ok tt, w') ∧ progress w' r' ∧ ready w' ∧
    br_Status r' = br_Status r ∧ marked (w_db w') rid c o ∧
    (∀ c' o', marked (w_db w) rid c' o' → marked (w_db w') rid c' o').
Proof.
  intros P Hr Hc Hst Hb. destruct b; [|exists w, r; split_and!; auto; done].
  destruct (pg_money _ _ _ _ _ _ P) as (M1 & M2 & M3 & _).
  rewrite <- M2, <- M3 in Hr. assert (br_Source r = SourceWallet) as Hs by congruence.
  destruct (adjust_ok rid r c o w Hrid Hs Hc (progress_row _ _ _ _ _ _ P) Hr Hst) as (w' & E & Hr').
  assert (o = OperationSettle ∨ o = OperationRefund ∧ br_Status r ≠ StatusActive) as Ho
    by (destruct Hst as [[-> _]|[-> Hst]]; [by left|right; split; congruence]).
  destruct (adjust_step rid delta w0 r0 Hdelta w r c o _ w' Ho P E) as (r' & P' & Est & _ & Hm).
  exists w', r'. rewrite M2, M3 in Hr'. split_and!; try done.
  - apply Hm; [done|..]; destruct Hst as [[_ ->]|[_ ->]]; done.
  - intros c' o'. apply (adjusts_marked rid c o). by eapply adjustment_adjusts.
Qed.

Lemma mark_settled_ok w r :
  progress w r → ready w → br_Status r = StatusSettlementPending → BillingRecoverySettlementComplete r = true →
  ∃ w' r', MarkBillingRecoverySettled rid w = (Ok tt, w') ∧ progress w' r' ∧ br_Status r' = StatusSettled.
Proof.
  intros P [Hh _] Hst Hc. assert (∃ w', MarkBillingRecoverySettled rid w = (Ok tt, w')) as [w' E].
  { unfold MarkBillingRecoverySettled. rewrite Hrid. apply healthy_ok; [exact Hh|].
    unfold FIRST, UPDATE, mbind, M_bind. cbn. rewrite (progress_row _ _ _ _ _ _ P), Hst, Hc.
    rewrite decide_False, bool_decide_true by done. cbn. by rewrite (progress_row _ _ _ _ _ _ P). }
  destruct (settled_step rid delta w0 r0 Hdelta w r _ w' P E) as (r' & P' & _ & _ & Hok). exists w', r'. auto.
Qed.

Lemma mark_refunded_ok w r :
  progress w r → ready w → br_Status r = StatusRefundPending → BillingRecoveryRefundComplete r = true →
  ∃ w' r', MarkBillingRecoveryRefunded rid None w = (Ok tt, w') ∧ progress w' r' ∧ br_Status r' = StatusRefunded.
Proof.
  intros P [Hh _] Hst Hc. assert (∃ w', MarkBillingRecoveryRefunded rid None w = (Ok tt, w')) as [w' E].
  { unfold MarkBillingRecoveryRefunded. rewrite Hrid. apply healthy_ok; [exact Hh|].
    unfold FIRST, UPDATE, mbind, M_bind. cbn. rewrite (progress_row _ _ _ _ _ _ P), Hst, Hc.
    rewrite decide_False, bool_decide_true by done. cbn. by rewrite (progress_row _ _ _ _ _ _ P). }
  destruct (refunded_step rid delta w0 r0 Hdelta w r None _ w' P E) as (r' & P' & _ & _ & Hok). exists w', r'. auto.
Qed.

Lemma settlement_succeeds w r :
  progress w r → ready w → br_Status r = StatusSettlementPending →
  ∃ w' r', recoverBillingSettlement rid w = (Ok StatusSettled, w') ∧ progress w' r' ∧ br_Status r' = StatusSettled.
Proof.
  intros P Hr Hst. unfold recoverBillingSettlement.
  destruct (load_ok w r P Hr) as (w1 & E1 & P1 & R1). rewrite (bind_ok _ _ _ _ _ E1).
  destruct (pg_columns _ _ _ _ _ _ P1) as (_ & _ & C3 & _).
  destruct (part_succeeds (bool_decide (br_FundingSettlement r ≠ StateCompleted)) w1 r ComponentFunding OperationSettle P1 R1)
    as (w2 & r2 & E2 & P2 & R2 & S2 & M2 & _); [by left|by left| |].
  { intros Hb. apply C3. apply bool_decide_eq_false in Hb. by apply dec_stable. }
  rewrite (bind_ok _ _ _ _ _ E2). destruct (load_ok w2 r2 P2 R2) as (w3 & E3 & P3 & R3). rewrite (bind_ok _ _ _ _ _ E3).
  destruct (pg_columns _ _ _ _ _ _ P3) as (_ & _ & _ & C4).
  assert (w_db w3 = w_db w2) as D3 by (by apply transaction_read in E3 as [? _]).
  destruct (part_succeeds (bool_decide (br_TokenSettlement r2 ≠ StateCompleted)) w3 r2 ComponentToken OperationSettle P3 R3)
    as (w4 & r4 & E4 & P4 & R4 & S4 & M4 & K4); [by right|left; split; [done|congruence]| |].
  { intros Hb. apply C4. apply bool_decide_eq_false in Hb. by apply dec_stable. }
  rewrite (bind_ok _ _ _ _ _ E4). destruct (load_ok w4 r4 P4 R4) as (w5 & E5 & P5 & R5). rewrite (bind_ok _ _ _ _ _ E5).
  rewrite <- D3 in M2. destruct (pg_marked _ _ _ _ _ _ P4) as (_ & _ & _ & K1 & K2).
  assert (BillingRecoverySettlementComplete r4 = true) as Hc.
  { unfold BillingRecoverySettlementComplete. by rewrite !bool_decide_true by auto. }
  rewrite Hc. cbn [negb]. destruct (mark_settled_ok w5 r4 P5 R5) as (w6 & r6 & E6 & P6 & S6); [congruence|done|].
  exists w6, r6. by rewrite (bind_ok _ _ _ _ _ E6).
Qed.

Lemma mark_refund_pending_ok w r :
  progress w r → ready w → br_Status r = StatusActive ∨ br_Status r = StatusRefundPending →
  ∃ w' r', MarkBillingRecoveryRefundPending rid None w = (Ok tt, w') ∧ progress w' r' ∧ ready w' ∧
    br_Status r' = StatusRefundPending.
Proof.
  intros P [Hh Ha] Hst.
  assert (∃ w', MarkBillingRecoveryRefundPending rid None w = (Ok tt, w') ∧ ready w') as (w' & E & R').
  { unfold MarkBillingRecoveryRefundPending. rewrite Hrid.
    edestruct (healthy_transaction (A := unit)) as (w1 & E1 & H1 & D1 & _); [exact Hh| |exists w1; split; [exact E1|]].
    - unfold FIRST, UPDATE, gets, mbind, M_bind. cbn. rewrite (progress_row _ _ _ _ _ _ P).
      rewrite decide_False by (destruct Hst; congruence).
      assert (negb (bool_decide (br_Status r = StatusActive)) && negb (bool_decide (br_Status r = StatusRefundPending)) = false) as ->
        by (destruct Hst as [-> | ->]; done).
      rewrite (progress_row _ _ _ _ _ _ P). reflexivity.
    - split; [done|]. by rewrite D1. }
  destruct (refund_pending_step rid delta w0 r0 Hdelta Hwallet w r None _ w' P E) as (r' & P' & _ & Hs & Hok).
  exists w', r'. split_and!; try done. destruct (Hok eq_refl) as [|H]; [done|]. destruct Hs as [Hs|[_ Hs]], Hst; congruence.
Qed.

Lemma token_part_succeeds w r :
  progress w r → ready w → br_Status r = StatusRefundPending →
  ∃ w' r', (if (0 <? br_TokenAmount r) && bool_decide (br_TokenRefund r ≠ StateCompleted)
            then ApplyBillingRecoveryAdjustment rid ComponentToken OperationRefund else mret tt) w = (Ok tt, w') ∧
    progress w' r' ∧ ready w' ∧ br_Status r' = br_Status r ∧
    (0 < br_TokenAmount r' → marked (w_db w') rid ComponentToken OperationRefund) ∧
    (∀ c' o', marked (w_db w) rid c' o' → marked (w_db w') rid c' o').
Proof.
  intros P Hr Hst. destruct (Z.ltb_spec 0 (br_TokenAmount r)); cbn [andb].
  - destruct (pg_columns _ _ _ _ _ _ P) as (_ & C2 & _).
    destruct (part_succeeds (bool_decide (br_TokenRefund r ≠ StateCompleted)) w r ComponentToken OperationRefund P Hr)
      as (w2 & r2 & E2 & P2 & R2 & S2 & M2 & K2); [by right|by right| |exists w2, r2; by split_and!].
    intros Hb. apply C2. apply bool_decide_eq_false in Hb. by apply dec_stable.
  - exists w, r. split_and!; auto. lia.
Qed.

Lemma refund_succeeds w r :
  progress w r → ready w → br_Status r = StatusActive ∨ br_Status r = StatusRefundPending →
  ∃ w' r', recoverBillingRefund rid w = (Ok StatusRefunded, w') ∧ progress w' r' ∧ br_Status r' = StatusRefunded.
Proof.
  intros P Hr Hst. unfold recoverBillingRefund.
  destruct (mark_refund_pending_ok w r P Hr Hst) as (w1 & r1 & E1 & P1 & R1 & S1). rewrite (bind_ok _ _ _ _ _ E1).
  destruct (load_ok w1 r1 P1 R1) as (w2 & E2 & P2 & R2). rewrite (bind_ok _ _ _ _ _ E2).
  destruct (pg_columns _ _ _ _ _ _ P2) as (C1 & _).
  destruct (part_succeeds (bool_decide (br_FundingRefund r1 ≠ StateCompleted)) w2 r1 ComponentFunding OperationRefund P2 R2)
    as (w3 & r3 & E3 & P3 & R3 & S3 & M3 & _); [by left|by right| |].
  { intros Hb. apply C1. apply bool_decide_eq_false in Hb. by apply dec_stable. }
  rewrite (bind_ok _ _ _ _ _ E3). destruct (load_ok w3 r3 P3 R3) as (w4 & E4 & P4 & R4). rewrite (bind_ok _ _ _ _ _ E4).
  rewrite (pg_extra _ _ _ _ _ _ P4), Hextra. cbn [Z.ltb Z.compare andb]. rewrite (bind_ok (mret tt) _ w4 tt w4) by done.
  destruct (load_ok w4 r3 P4 R4) as (w5 & E5 & P5 & R5). rewrite (bind_ok _ _ _ _ _ E5).
  assert (w_db w5 = w_db w3) as D5.
  { apply transaction_read in E4 as [D4 _], E5 as [D5 _]. congruence. }
  destruct (token_part_succeeds w5 r3 P5 R5) as (w6 & r6 & E6 & P6 & R6 & S6 & M6 & K6); [congruence|].
  rewrite (bind_ok _ _ _ _ _ E6). destruct (load_ok w6 r6 P6 R6) as (w7 & E7 & P7 & R7). rewrite (bind_ok _ _ _ _ _ E7).
  rewrite <- D5 in M3. destruct (pg_marked _ _ _ _ _ _ P6) as (K1 & _ & K3 & _).
  assert (BillingRecoveryRefundComplete r6 = true) as Hc.
  { unfold BillingRecoveryRefundComplete. rewrite bool_decide_true by auto. rewrite (pg_extra _ _ _ _ _ _ P6), Hextra. cbn.
    destruct (Z.ltb_spec 0 (br_TokenAmount r6)); cbn; [|done]. by rewrite bool_decide_true by auto. }
  rewrite Hc. cbn [negb]. destruct (mark_refunded_ok w7 r6 P7 R7) as (w8 & r8 & E8 & P8 & S8); [congruence|done|].
  exists w8, r8. by rewrite (bind_ok _ _ _ _ _ E8).
Qed.

(** One pass over a request closes it. *)
Lemma recoverOne_closes w r :
  progress w r → ready w →
  ∃ st w' r', recoverOneBillingRecovery rid w = (Ok st, w') ∧ progress w' r' ∧ br_Status r' = st ∧
    (st = StatusSettled ∨ st = StatusRefunded ∧ br_Status r ≠ StatusSettled).
Proof.
  intros P Hr. unfold recoverOneBillingRecovery. destruct (load_ok w r P Hr) as (w1 & E1 & P1 & R1).
  rewrite (bind_ok _ _ _ _ _ E1). destruct (br_Status r) eqn:Hst.
  - destruct (refund_succeeds w1 r P1 R1) as (w2 & r2 & E2 & P2 & S2); [by left|]. exists StatusRefunded, w2, r2. split_and!; auto; by right.
  - destruct (settlement_succeeds w1 r P1 R1 Hst) as (w2 & r2 & E2 & P2 & S2). exists StatusSettled, w2, r2. auto.
  - destruct (refund_succeeds w1 r P1 R1) as (w2 & r2 & E2 & P2 & S2); [by right|]. exists StatusRefunded, w2, r2. split_and!; auto; by right.
  - exists StatusSettled, w1, r. auto.
  - exists StatusRefunded, w1, r. split_and!; auto; by right.
Qed.

(** *** Under faults *)

(** Wherever the pass is interrupted, the request is still on its way. *)
Definition on_its_way (w : world) : Prop := ∃ r, progress w r.
Definition going_back (w : world) : Prop := ∃ r, progress w r ∧ refunding (br_Status r).

Lemma load_keeps (P : world → Prop) :
  (∀ w w', w_db w' = w_db w → w_batch w' = w_batch w → P w → P w') → Triple P (loadBillingRecovery rid) (λ _, P).
Proof.
  intros Henv w Hw. pose proof (FIRST_frame billing_recoveries rid w) as (D & B & _). by eapply Henv.
Qed.
Lemma on_its_way_env w w' : w_db w' = w_db w → w_batch w' = w_batch w → on_its_way w → on_its_way w'.
Proof. intros Ed Eb [r P]. exists r. by eapply progress_env. Qed.
Lemma going_back_env w w' : w_db w' = w_db w → w_batch w' = w_batch w → going_back w → going_back w'.
Proof. intros Ed Eb (r & P & H). exists r. split; [by eapply progress_env|done]. Qed.

Lemma settle_keeps (b : bool) c :
  Triple on_its_way (if b then ApplyBillingRecoveryAdjustment rid c OperationSettle else mret tt) (λ _, on_its_way).
Proof.
  destruct b; [|by apply triple_ret]. intros w [r P]. destruct (ApplyBillingRecoveryAdjustment _ _ _ w) as [res w'] eqn:E.
  destruct (adjust_step rid delta w0 r0 Hdelta w r c _ res w' (or_introl eq_refl) P E) as (r' & P' & _). by exists r'.
Qed.
Lemma give_back_keeps (b : bool) c :
  Triple going_back (if b then ApplyBillingRecoveryAdjustment rid c OperationRefund else mret tt) (λ _, going_back).
Proof.
  destruct b; [|by apply triple_ret]. intros w (r & P & H). destruct (ApplyBillingRecoveryAdjustment _ _ _ w) as [res w'] eqn:E.
  assert (br_Status r ≠ StatusActive) as Hna by (destruct H; congruence).
  destruct (adjust_step rid delta w0 r0 Hdelta w r c _ res w' (or_intror (conj eq_refl Hna)) P E) as (r' & P' & Est & _).
  exists r'. by rewrite Est.
Qed.

Lemma recoverSettlement_keeps : Triple on_its_way (recoverBillingSettlement rid) (λ _, on_its_way).
Proof.
  unfold recoverBillingSettlement. pose proof (load_keeps _ on_its_way_env) as Hl.
  eapply triple_bind; [exact Hl|intros ra|done]. eapply triple_bind; [apply settle_keeps|intros ?|done].
  eapply triple_bind; [exact Hl|intros rb|done]. eapply triple_bind; [apply settle_keeps|intros ?|done].
  eapply triple_bind; [exact Hl|intros rc|done]. destruct (negb _); [by apply triple_fail|].
  eapply triple_bind with (R := λ _, on_its_way); [|intros ?; by apply triple_ret|done].
  intros w [r P]. destruct (MarkBillingRecoverySettled rid w) as [res w'] eqn:E.
  destruct (settled_step rid delta w0 r0 Hdelta w r res w' P E) as (r' & P' & _). by exists r'.
Qed.

Lemma recoverRefund_keeps : Triple on_its_way (recoverBillingRefund rid) (λ _, on_its_way).
Proof.
  assert (∀ w, going_back w → on_its_way w) as Hw by (intros w (r & P & _); by exists r).
  unfold recoverBillingRefund. pose proof (load_keeps _ going_back_env) as Hl.
  eapply triple_bind with (R := λ res w, match res with Ok _ => going_back w | Err _ => on_its_way w end); [|intros _|done].
  { intros w [r P]. destruct (MarkBillingRecoveryRefundPending rid None w) as [res w'] eqn:E.
    destruct (refund_pending_step rid delta w0 r0 Hdelta Hwallet w r None res w' P E) as (r' & P' & _ & _ & Hok).
    destruct res; exists r'; [|done]. split; [done|]. by apply Hok. }
  eapply triple_bind; [exact Hl|intros ra|auto]. eapply triple_bind; [apply give_back_keeps|intros ?|auto].
  eapply triple_bind; [exact Hl|intros rb|auto]. eapply triple_bind; [apply give_back_keeps|intros ?|auto].
  eapply triple_bind; [exact Hl|intros rc|auto]. eapply triple_bind; [apply give_back_keeps|intros ?|auto].
  eapply triple_bind; [exact Hl|intros rd|auto]. destruct (negb _); [by apply triple_fail|].
  eapply triple_bind with (R := λ _, on_its_way); [|intros ?; by apply triple_ret|done].
  intros w (r & P & _). destruct (MarkBillingRecoveryRefunded rid None w) as [res w'] eqn:E.
  destruct (refunded_step rid delta w0 r0 Hdelta w r None res w' P E) as (r' & P' & _). by exists r'.
Qed.

Lemma recoverOne_keeps w r res w' :
  progress w r → recoverOneBillingRecovery rid w = (res, w') →
  ∃ r', progress w' r' ∧ (br_Status r = StatusSettled → br_Status r' = StatusSettled).
Proof.
  intros P H. unfold recoverOneBillingRecovery in H.
  pose proof (FIRST_frame billing_recoveries rid w) as (D & B & _). fold (loadBillingRecovery rid) in D, B.
  destruct (loadBillingRecovery rid w) as [[row|e] w1] eqn:E; cbn in D, B.
  2: { rewrite (bind_err _ _ _ _ _ E) in H. injection H as <- <-. exists r. split; [by eapply progress_env|done]. }
  rewrite (bind_ok _ _ _ _ _ E) in H. apply transaction_inv in E as [_ E]. apply FIRST_inv in E as [E _].
  rewrite (progress_row _ _ _ _ _ _ P) in E. injection E as <-.
  assert (on_its_way w1) as Hw by (exists r; by eapply progress_env).
  assert (progress w1 r) as P1 by (by eapply progress_env).
  destruct (br_Status r) eqn:Hst.
  - pose proof (recoverRefund_keeps w1 Hw) as [r' P']. rewrite H in P'. by exists r'.
  - pose proof (recoverSettlement_keeps w1 Hw) as [r' P']. rewrite H in P'. by exists r'.
  - pose proof (recoverRefund_keeps w1 Hw) as [r' P']. rewrite H in P'. by exists r'.
  - injection H as <- <-. by exists r.
  - injection H as <- <-. by exists r.
Qed.
End worker.

(** Passes of the worker over a request: each may fail anywhere, and time
    passes between them. *)
Inductive worker_run (rid : string) : world → world → Prop :=
  | worker_run_nil w : worker_run rid w w
  | worker_run_pass w res w1 w' :
      recoverOneBillingRecovery rid w = (res, w1) → worker_run rid w1 w' → worker_run rid w w'
  | worker_run_env w w1 w' :
      w_db w1 = w_db w → w_batch w1 = w_batch w → worker_run rid w1 w' → worker_run rid w w'.

Lemma worker_run_keeps rid delta w0 r0 w w' :
  negatable delta → br_Source r0 = SourceWallet → worker_run rid w w' → ∀ r, progress rid delta w0 r0 w r →
  ∃ r', progress rid delta w0 r0 w' r' ∧ (br_Status r = StatusSettled → br_Status r' = StatusSettled).
Proof.
  intros Hd Hw Hrun. induction Hrun as [w|w res w1 w' H Hrun IH|w w1 w' Ed Eb Hrun IH]; intros r P; [by exists r|..].
  - destruct (recoverOne_keeps rid delta w0 r0 Hd Hw w r res w1 P H) as (r1 & P1 & H1). destruct (IH r1 P1) as (r' & P' & H2).
    exists r'. auto.
  - apply IH. by eapply progress_env.
Qed.

(** What a closed request has cost, against the state in which it was
    reserved. *)
Lemma closed_balances rid delta w0 r0 w r :
  billing_recoveries (w_db w0) !! rid = Some r0 → br_Source r0 = SourceWallet →
  (∀ c o, o ≠ OperationReserve → adjustments (w_db w0) !! (rid, c, o) = None) → 0 <= br_TokenAmount r0 →
  progress rid delta w0 r0 w r → br_Status r = StatusSettled ∨ br_Status r = StatusRefunded →
  let back q := if decide (br_Status r = StatusSettled) then - delta else q in
  (∀ u, wallet_balance w u = wallet_balance w0 u + (if decide (u = br_UserID r0) then back (br_FundingAmount r0) else 0)) ∧
  (∀ t, 0 < t → token_balance w t = token_balance w0 t + (if decide (t = br_TokenID r0) then back (br_TokenAmount r0) else 0)).
Proof.
  intros Hr0 Hw Hfr H0 P [Hst|Hst]; cbv zeta.
  - destruct (charging_balances rid delta w0 r0 Hr0 Hw Hfr w r P) as [B1 B2]; [rewrite Hst; by intros [|]|].
    destruct (settled_markers _ _ _ _ _ _ P Hst) as [M1 M2]. rewrite M1 in B1. rewrite M2 in B2.
    destruct (decide (br_Status r = StatusSettled)); [|done].
    split; [intros v; rewrite B1|intros v Hv; rewrite B2 by done]; destruct (decide (v = _)); lia.
  - destruct (progress_balances rid delta w0 r0 Hr0 Hw Hfr w r P) as [B1 B2].
    destruct (refunded_markers _ _ _ _ _ _ P Hst H0) as [M1 M2].
    assert (∀ c, marker_amount (w_db w) rid c OperationSettle = 0) as Hz.
    { intros c. unfold marker_amount. rewrite (row_no_settle _ _ _ c (pg_ok _ _ _ _ _ _ P) (progress_row _ _ _ _ _ _ P)); congruence. }
    rewrite M1, Hz in B1. rewrite M2, Hz in B2. destruct (decide (br_Status r = StatusSettled)); [congruence|].
    split; [intros v; rewrite B1|intros v Hv; rewrite B2 by done]; destruct (decide (v = _)); lia.
Qed.

(** C3: every interrupted request that is paid from the wallet alone, and is no
    playground request, is closed, and costs its actual quota or nothing.  Let
    such a request be reserved and its settlement run with any faults, to any
    result; let the recovery worker make any number of passes that fail anywhere,
    and let nothing else touch the tables.  Once calls stop failing and the user
    and the token exist, one more pass returns without an error, with the request settled or
    refunded.  If it is settled, the user and the token have paid exactly the
    actual quota; if it is refunded, they have paid nothing, and this happens
    only when the settlement had reported an error. *)
Theorem interrupted_request_is_closed (su : surroundings) (quota actual : Z) (e e1 e1' e2 : renv) (res : Prelude.res unit) (w2 : world)
    (Hreq : wallet_request e quota) (Hpl : ri_IsPlayground (re_info e) = false) (Hactual : 0 <= actual <= MaxQuota)
    (Hopen : PreConsumeBilling su quota e = (Ok tt, e1)) (Hlater : later e1 e1')
    (Hsettle : SettleBilling actual e1' = (res, e2)) (Hrun : worker_run (ri_RequestId (re_info e)) (re_world e2) w2)
    (Hready : ready (ri_UserId (re_info e)) (ri_TokenId (re_info e)) w2) :
  let i := re_info e in
  ∃ st w3, recoverOneBillingRecovery (ri_RequestId i) w2 = (Ok st, w3) ∧
    (br_Status <$> billing_recoveries (w_db w3) !! ri_RequestId i) = Some st ∧
    (st = StatusSettled ∨ st = StatusRefunded ∧ is_ok res = false) ∧
    let paid := if decide (st = StatusSettled) then actual else 0 in
    (∀ v, wallet_balance w3 v = wallet_balance (re_world e) v - (if decide (v = ri_UserId i) then paid else 0)) ∧
    (∀ v, 0 < v → token_balance w3 v = token_balance (re_world e) v - (if decide (v = ri_TokenId i) then paid else 0)).
Proof.
  cbv zeta. destruct (PreConsumeBilling_reserves _ _ _ _ Hreq Hopen) as (s & r & q & Hs & Hq & Ho & R). cbv zeta in Ho, R.
  rewrite Hpl in Ho, R. destruct Hlater as (Eb & Ed & Ebt). apply (reserved_later _ _ (re_world e1')) in R; [|done|done].
  pose proof (wr_id _ _ Hreq) as Hb. set (rid := ri_RequestId (re_info e)) in *.
  assert (rid ≠ EmptyString) as Hrid by (intros E; by rewrite E in Hb).
  assert (0 <= q <= MaxQuota) as Hq' by (pose proof (wr_quota _ _ Hreq); unfold MaxQuota in *; lia).
  assert (negatable (actual - q)) as Hneg by (unfold negatable, min_i64, max_i64, MaxQuota in *; lia).
  rewrite <- Eb in Hs. destruct (settle_opened _ _ _ _ _ _ _ _ _ _ _ _ Hrid R Hs Ho Hq' Hactual Hsettle) as (r1 & P1 & _ & Hok).
  destruct R as [Rok Ram Rrow Rst Rcol Rsrc Ru Rt Rf Rta Rx Rfr Rw Rtk].
  destruct (worker_run_keeps _ _ _ _ _ _ Hneg Rsrc Hrun _ P1) as (r2 & P2 & Hkeep). rewrite <- Ru, <- Rt in Hready.
  destruct (recoverOne_closes rid (actual - q) _ r Hb Hneg Rsrc Rx w2 r2 P2 Hready) as (st & w3 & r3 & E3 & P3 & S3 & Hst).
  exists st, w3. split; [done|]. split; [rewrite (progress_row _ _ _ _ _ _ P3); cbn; by rewrite S3|]. split.
  { destruct Hst as [-> |[-> Hns]]; [by left|right; split; [done|]]. destruct res; [|done]. destruct Hns. auto. }
  assert (0 <= br_TokenAmount r) as H0 by lia.
  assert (br_Status r3 = StatusSettled ∨ br_Status r3 = StatusRefunded) as Hcl by (rewrite S3; naive_solver).
  destruct (closed_balances _ _ _ _ _ _ Rrow Rsrc (λ c o _, Rfr c o) H0 P3 Hcl) as [B1 B2].
  rewrite S3, Ru, Rf in B1. rewrite S3, Rt, Rta in B2. split.
  - intros v. rewrite B1, Rw. destruct (decide (v = _)), (decide (st = _)); lia.
  - intros v Hv. rewrite B2, Rtk by done. destruct (decide (v = _)), (decide (st = _)); lia.
Qed.

(** The wallet is settled, the token is not, in all three attempts; the
    worker finishes the token. *)
Definition token_faults : list (option string) :=
  let lost := Some "lost" in [None; None; None; lost; None; None; lost; None; None; lost].

Lemma interrupted_request_is_closed_witness :
  let e1 := exec (PreConsumeBilling sample_su 30) (sample_env false) in
  let e1' := faulty token_faults e1 in
  let e2 := exec (SettleBilling 45) e1' in
  is_ok (result (SettleBilling 45) e1') = false ∧ wallet_balance (re_world e2) 7 = 55 ∧ token_balance (re_world e2) 11 = 30 ∧
  ∃ st w3, recoverOneBillingRecovery "req-1" (re_world e2) = (Ok st, w3) ∧ (st = StatusSettled ∨ st = StatusRefunded).
Proof.
  intros e1 e1' e2. pose proof (runs_ok (PreConsumeBilling sample_su 30) (sample_env false) ltac:(by vm_compute)) as H1.
  change (exec (PreConsumeBilling sample_su 30) (sample_env false)) with e1 in H1.
  assert (negb (is_ok (result (SettleBilling 45) e1')) && (wallet_balance (re_world e2) 7 =? 55) &&
          (token_balance (re_world e2) 11 =? 30) && bool_decide (w_oracle (re_world e2) = []) &&
          bool_decide (is_Some (users (w_db (re_world e2)) !! 7)) && bool_decide (is_Some (tokens (w_db (re_world e2)) !! 11))
          = true) as Hc by (vm_compute; reflexivity).
  rewrite !andb_true_iff, !bool_decide_eq_true, negb_true_iff, !Z.eqb_eq in Hc. destruct Hc as [[[[[Hc1 Hc2] Hc3] Hc4] Hc5] Hc6].
  split_and!; [done..|]. pose proof (later_faulty token_faults e1 : later e1 e1') as Hl.
  pose proof (surjective_pairing (SettleBilling 45 e1') : SettleBilling 45 e1' = (result (SettleBilling 45) e1', e2)) as H2.
  clearbody e2. clearbody e1'. clearbody e1.
  assert (ready 7 11 (re_world e2)) as Hr by (split; [done|split; [done|intros _; done]]).
  destruct (interrupted_request_is_closed sample_su 30 45 (sample_env false) e1 e1' e2 _ (re_world e2) (sample_request false)
    eq_refl ltac:(unfold MaxQuota; lia) H1 Hl H2 (worker_run_nil _ _) Hr) as (st & w3 & E & _ & Hst & _).
  exists st, w3. split; [exact E|]. destruct Hst as [?|[? _]]; auto.
Defined.

(** ** Live requests are left alone *)

Lemma stale_seconds env :
  GetEnvOrDefault env "BILLING_RECOVERY_STALE_SECONDS" 300 <= max_i64 / second →
  ∃ s, BillingRecoveryStaleAfter env = s * second ∧ 30 <= s <= max_i64 / second.
Proof.
  unfold BillingRecoveryStaleAfter. set (x := GetEnvOrDefault _ _ _). intros Hx.
  exists (if x <? 30 then 30 else x). unfold second, max_i64 in *. change (9223372036854775807 / 1000000000) with 9223372036 in *.
  destruct (Z.ltb_spec x 30); (split; [|lia]); apply i64_id; unfold in_i64, min_i64, max_i64; lia.
Qed.

(** Three heartbeats fit in the time after which a request is stale. *)
Lemma heartbeat_divides_stale env s :
  BillingRecoveryStaleAfter env = s * second → 30 <= s →
  0 < 3 * BillingRecoveryHeartbeatInterval env <= s * second.
Proof.
  intros E Hs. unfold BillingRecoveryHeartbeatInterval. rewrite E. unfold second in *. rewrite Z.quot_div_nonneg by lia.
  pose proof (Z.mul_div_le (s * 1000000000) 3). destruct (Z.ltb_spec (s * 1000000000 / 3) (5 * 1000000000)); lia.
Qed.

Lemma listed_is_stale cutoff limit w w' rows rid r :
  ListStaleBillingRecoveries cutoff limit w = (Ok rows, w') → (rid, r) ∈ rows →
  billing_recoveries (w_db w) !! rid = Some r ∧ is_stale cutoff r = true.
Proof.
  unfold ListStaleBillingRecoveries. intros [_ Hrun]%transaction_inv Hin. injection Hrun as <- _.
  apply elem_of_take in Hin as (i & Hin%list_elem_of_lookup_2 & _).
  rewrite merge_sort_Permutation, list_elem_of_filter, elem_of_map_to_list in Hin. cbn in Hin. tauto.
Qed.

Lemma touched_now rid w w' :
  TouchBillingRecovery rid w = (Ok tt, w') →
  ∃ r, billing_recoveries (w_db w') !! rid = Some r ∧ br_UpdatedAt r = w_now w.
Proof.
  unfold TouchBillingRecovery. destruct (blank rid); [done|]. intros H.
  apply bind_inv in H as (n & w1 & [_ H1]%transaction_inv & H2).
  unfold UPDATE in H1. destruct (billing_recoveries (w_db w) !! rid) as [r|]; [destruct (settling _)|].
  - injection H1 as <- E1. cbn in H2. injection H2 as <-. rewrite <- E1. cbn. rewrite lookup_insert_eq. eauto.
  - injection H1 as <- _. done.
  - injection H1 as <- _. done.
Qed.

(** A request whose heartbeat runs is never taken over.  After a
    successful [TouchBillingRecovery], no pass of the worker that starts
    within three heartbeat intervals lists the request, whatever
    BILLING_RECOVERY_STALE_SECONDS is set to (up to the range of a duration)
    and whatever else has happened to the store: two ticks may be lost. *)
Theorem live_request_is_not_recovered (env : string → option Z) (rid : string) (limit : Z) (w w1 w2 w3 : world)
    (rows : list (string * BillingRecovery))
    (Hstale : GetEnvOrDefault env "BILLING_RECOVERY_STALE_SECONDS" 300 <= max_i64 / second)
    (Htouch : TouchBillingRecovery rid w = (Ok tt, w1))
    (Hrow : billing_recoveries (w_db w2) !! rid = billing_recoveries (w_db w1) !! rid)
    (Hsoon : (w_now w2 - w_now w) * second <= 3 * BillingRecoveryHeartbeatInterval env) (Hclock : 0 <= w_now w ∧ w_now w <= w_now w2 <= max_i64)
    (Hlist : ListStaleBillingRecoveries (recovery_cutoff env (w_now w2)) limit w2 = (Ok rows, w3)) :
  ∀ r, (rid, r) ∉ rows.
Proof.
  intros r Hin. destruct (listed_is_stale _ _ _ _ _ _ _ Hlist Hin) as [Hr Hst].
  rewrite Hrow in Hr. apply touched_now in Htouch as (r' & Hr' & Hu). assert (r' = r) as -> by congruence.
  destruct (stale_seconds env Hstale) as (s & E & Hs). pose proof (heartbeat_divides_stale env s E ltac:(lia)) as H3.
  unfold is_stale, recovery_cutoff in Hst. apply andb_true_iff in Hst as [_ Hst%Z.ltb_lt].
  rewrite E, Z.quot_mul in Hst by done. change (max_i64 / second) with 9223372036 in Hs.
  rewrite i64_id in Hst; unfold in_i64, min_i64, max_i64, second in *; clear Hstale; lia.
Qed.

Lemma live_request_is_not_recovered_witness :
  let w := three_rows in
  let w1 := exec (TouchBillingRecovery "b") w in
  let w2 := w1 <| w_now := w_now w + 240 |> in
  is_ok (result (TouchBillingRecovery "b") w) = true ∧
  ∀ r, ("b", r) ∉ match result (ListStaleBillingRecoveries (recovery_cutoff (λ _, None) (w_now w2)) 10) w2 with
                  | Ok rows => rows | Err _ => [] end.
Proof.
  intros w w1 w2. assert (is_ok (result (TouchBillingRecovery "b") w) = true) as Hok by (by vm_compute).
  split; [done|]. pose proof (runs_ok (TouchBillingRecovery "b") w Hok) as Ht.
  set (list := ListStaleBillingRecoveries _ _).
  assert (is_ok (result list w2) = true) as Hl by (by vm_compute).
  assert ((0 <= w_now w ∧ w_now w <= w_now w2 <= max_i64) ∧ w_now w2 - w_now w = 240) as Hn by (by vm_compute).
  destruct (list w2) as [[rows|e] w3] eqn:E; unfold result in Hl |- *; rewrite E in Hl |- *; cbn in Hl |- *; [|done].
  apply (live_request_is_not_recovered (λ _, None) "b" 10 w w1 w2 w3 rows); try done.
Defined.

(** The task log calls a pass that could not run successful.
    [billingRecoveryHandler.Run] derives the task status from the counts of
    the summary alone: a pass whose listing query fails looked at no request
    and returns the error, and is recorded as succeeded with that error's
    text.  This is what every failing listing does, whatever the store. *)
Theorem failed_listing_is_recorded_succeeded (env : string → option Z) (ctx_err : nat → option error) (w : world) (msg : string)
    (rest : list (option string)) (Hlost : w_oracle w = Some msg :: rest) :
  result (billingRecoveryHandler_Run env ctx_err) w =
  Ok (SystemTaskStatusSucceeded, MkSummary 0 0 0 0 0, Some (ErrDriver msg)).
Proof.
  unfold result, billingRecoveryHandler_Run, RecoverStaleBillingRecoveries, ListStaleBillingRecoveries, GetTimestamp.
  rewrite bind_gets. unfold try, transaction, mbind, M_bind. by rewrite Hlost.
Qed.

Lemma failed_listing_is_recorded_succeeded_witness :
  let w := three_rows <| w_oracle := [Some "connection refused"] |> in
  result (billingRecoveryHandler_Run (λ _, None) (λ _, None)) w =
  Ok (SystemTaskStatusSucceeded, MkSummary 0 0 0 0 0, Some (ErrDriver "connection refused")).
Proof. intros w. exact (failed_listing_is_recorded_succeeded (λ _, None) (λ _, None) w "connection refused" [] eq_refl). Defined.
